(* ===== verification/_CoqProject ===== *)
-Q . S2P
Prelude.v
Json.v
Digest.v
Graph.v
Runtime.v
Dsl.v
Ir.v
IrFacts.v
Canonical.v
Parser.v
SourceMap.v
Marshal.v
Handlers.v
Catalog.v
Access.v
Resources.v
DefinitionStore.v
ControlGraph.v
ControlFacts.v
Activation.v
DecisionFacts.v
ActivationFacts.v
Compiler.v
CompilerFacts.v
CompilerProps.v
CatalogProps.v
DefinitionService.v
DefinitionFacts.v
DefinitionCalls.v
DefinitionProps.v
DefinitionPublish.v
Branch.v
CanonicalNumbers.v
CanonicalTexts.v
Engine.v
EngineSteps.v
EngineInv.v
EngineFacts.v
EngineInit.v
EngineProgress.v
EngineLive.v
BranchRoutes.v
BranchSound.v
RunSafety.v
CompiledRun.v
EngineVersions.v
EngineState.v
EngineProps.v
CompiledProps.v
Scheduling.v
Eventing.v
Consumer.v
Store.v
RunControl.v
AttemptStore.v
SchedulingStore.v
Recovery.v
StoreFacts.v
StoreRefine.v
AttemptRefine.v
InitRefine.v
StoreSound.v
StoreHistory.v
RecoveryFacts.v
RecoveryCover.v
StoreProps.v
RecoveryProps.v
