(* ===== verification/Prelude.v ===== *)
(** * EvalFrog: a verified model of the workflow compiler and runtime

    EvalFrog compiles and runs workflows.  An author's document, a graph of
    typed nodes, is kept as the numbered revisions of a draft; a revision is
    compiled to an immutable runtime document and published as a version of the
    workflow; a run of it is advanced by events, and its tasks are attempts that
    workers claim, renew and complete under a lease.  This library models the
    code that decides what happens: the author's representation with its parser
    and validator, the compiler, the definition service with its access control
    and its store, the domain aggregates, the engine, the transactions of the store that carry it,
    the scheduler's planner, the message outboxes, the recovery loops, and the
    checks in front of them.  It follows the Go sources under src/internal,
    function by function; a definition has the name of the function that it
    models, where two functions share a name its receiver's name in front.

    ** Parts

    - Prelude: errors and results, the store's transaction monad, generic lemmas
      and tactics.
    - Json: what the code uses of encoding/json and math/big on JSON texts.
    - Digest: crypto/sha256 and encoding/hex, and the digest of a text.
    - Graph: topological order and reachability, as the validators write them.
    - Runtime (runtime/model.go, transitions.go, errors.go, records.go): Workflow
      Run, Node Run and Node Attempt, their methods and persisted records.
    - Dsl (dsl/model.go, validator.go, issue.go, compatibility.go): the document
      and the contract that a document must meet.
    - Ir (ir/model.go, diagnostic.go, id.go, path.go, types.go, validator.go):
      the author's document, diagnostics and the validator, with what it accepts
      in IrFacts.
    - Canonical (ir/canonical.go, parser.go): inspection and canonical form of a
      JSON text.
      CanonicalNumbers has the normal form of a number, CanonicalTexts how a
      canonical text is read back, and the claims.
    - Parser (ir/parser.go): the decoding of a draft into the author's document.
    - SourceMap (sourcemap): from runtime identities and fields to the author's.
    - Marshal: the encoding of the documents that are hashed, from the field
      tags of their Go types.
    - ControlGraph (compiler/controlgraph.go): the control graph, its topological
      order and the rows of bits that answer which nodes come before which;
      ControlFacts has what it accepts.
    - Activation (compiler/activation.go): the decision diagrams that say under
      which routes a node is activated, and the check of the references;
      DecisionFacts has their canonicity, ActivationFacts the check's meaning.
    - Handlers (compiler/model.go, policy.go, registry.go, resources.go,
      handlers.go): policies, resource bindings, the registry and the handlers
      of the built-in node types.
    - Compiler (compiler/compiler.go): compilation.  CompilerFacts says what a
      result is, CompilerProps and CompiledProps have the claims.
    - Catalog (catalog/model.go, validation.go, catalog.go, builtins.go): the
      descriptions of node types, the check of a node against its description,
      and the six built-in contracts; [node_catalog] is the interface the
      compiler asks for.  CatalogProps has the claims.
    - Access (access/model.go, adapters/postgres/access_store.go): credentials,
      permissions and execution identities.  Resources (resources/model.go,
      adapters/postgres/resources_store.go): the references of a draft resolved
      to compiler bindings; calls that answer a value, diagnostics or an error.
    - DefinitionStore (definition/model.go, ports.go,
      adapters/postgres/definition_store.go): the tables of workflows, drafts,
      revisions, snapshots, versions and idempotent answers, and their
      transactions.  DefinitionService (definition/service.go, errors.go): the
      service over the interfaces it states, which the tables implement.
    - DefinitionFacts: the specification of the store as a relation of allowed
      changes, the invariant they keep, and the transactions as sequences of
      changes.  DefinitionCalls: the service's calls, and where snapshots come
      from.  DefinitionProps and DefinitionPublish: the claims.
    - Branch (runtime/engine/branch.go): the evaluation of a branch node.
    - Engine (runtime/engine/engine.go): the in-memory aggregate that owns a run.
      EngineSteps and EngineInv have its atomic steps and their invariant,
      EngineFacts and EngineInit the refinement of the operations by steps,
      EngineProgress and EngineLive progress, EngineVersions the bounds of the
      version counters, EngineState (state.go) persistence, EngineProps the
      claims.
    - BranchRoutes: the routes of an accepted branch have names.  BranchSound: an
      accepted branch is decided.  RunSafety: what
      a node reads is there when the routes that the run chose say so.
      CompiledRun: the engine on a compiled document.
    - Scheduling (scheduling/model.go, planner.go, scheduler.go): the max-min
      fair planner, lanes, credit batches and the merge of live reservations.
    - Eventing (eventing/event.go, task.go, adapters/postgres/outbox_store.go):
      messages, the two outboxes and the relays that empty them.
    - Consumer (runtime/engine/consumer.go): the event consumer, against the
      interface of a store transaction.
    - Store (adapters/postgres/runtime_store.go): the tables, run creation and
      cancellation, and the consumer's transaction.
    - RunControl (runtime/persistence.go, control.go): creating and cancelling.
    - AttemptStore (runtime/attempt/coordinator.go,
      adapters/postgres/attempt_store.go): claim, heartbeat, completion, loss.
    - SchedulingStore (adapters/postgres/scheduling_store.go): the scheduler's
      reading and its dispatch.
    - Recovery (recovery/wakeup.go, reaper.go,
      adapters/postgres/recovery_store.go): scanners, wake-ups and the reaper.
    - StoreFacts, StoreRefine, AttemptRefine, InitRefine: rows that stand for an
      engine, and each transaction as an operation of that engine.  StoreSound
      and StoreHistory: what every sequence of calls keeps.  RecoveryFacts: what
      the scans find.  RecoveryCover: who takes a run further, and that a task
      goes with every attempt.  StoreProps and RecoveryProps: the claims.

    ** How the parts meet

    [compile_success] says what a compilation gives: a document with the author's
    control flow under execution identities, whose references are safe under
    every choice of routes.  [clone_runs_safe] carries that to the engine's copy,
    and [inputs_available] to every run: whatever routes the branches take, what
    an activated node reads has been produced.  So the engine's guard against
    missing inputs never fires on a compiled document, and no run of it is stuck.

    The definition service stores as a snapshot only what it compiled from a
    revision of the same workflow, and the tables never lose a row, so the
    version that production runs was compiled from a revision that is still
    there ([production_decides]), to a result that is a faithful image of the
    author's document ([compile_sound]).

    A call of the store is a function from a store (a record of tables, with the
    number of clock readings made so far) to a store and a result; a transaction
    that fails leaves the tables as they were.  [represents] relates the rows of
    a run to an engine in memory, and each transaction is proved to be one
    operation of that engine, or nothing.  Since every operation of the engine
    is a sequence of atomic steps, and every step keeps the engine's invariant,
    what is proved of reachable engines holds of what is stored after any
    sequence of calls: that is [sound].  The recovery scans are stated on the
    tables, and use that the rows of a run stand for a reachable engine, which
    always has a node that is ready, in flight, or waiting for its retry.

    ** What the theorems show

    - Canonical texts: one is read back as the value of the original text, with
      its numbers in normal form, and canonicalizes to itself or not at all; two
      texts have the same one exactly when they denote the same value.
    - The compiler: the validator and the graph analysis accept exactly the
      documents with their properties, diagrams are canonical, references are
      accepted exactly when they are safe, a result is a faithful image of the
      author's document, and what compiles runs; a failure carries an error
      ([compile_failure_reported]).
    - The catalog: with it the validator accepts exactly the documents whose
      nodes conform to the descriptions; the built-in one is well formed, agrees
      with the compiler's handlers, and accepts the examples it publishes.
    - The definition lifecycle: every sequence of calls, with other processes in
      between, keeps to the allowed changes and to the invariant; no update of a
      draft is lost; commands under a key run once; saving, publishing and
      resolving case by case; a call that
      lacks one of its permissions does nothing.
    - The engine: refinement by steps, control flow and fail-fast termination,
      one live attempt per node, the attempt and recovery budgets, typed outputs,
      termination of [drive], absence of deadlock, completion of a cancellation,
      persistence that nobody can observe, versions that never wrap.
    - The domain: lifecycles under any sequence of method calls, versions, the
      outcome of an attempt recorded once, and the round trip of the records
      ([snapshot_restore_identity], behind the claims on the engine's state).
    - The contract: the validator accepts exactly the well-formed documents.
    - Branches: a branch that the contract accepts is decided for every value of
      its declared type with numbers that big.Rat reads, by the first case that
      holds; the equality of two JSON
      texts is that of the values they denote.
    - The planner: windows, max-min fairness, order, lanes, batches, merging.
    - The outbox: at-least-once delivery, and a relay that drains it
      ([relay_drains]).
    - The store: soundness under every sequence of calls, each call as an engine
      operation, exclusive leases, idempotent creation, failed calls that
      write nothing, and completions whose replay succeeds, unless an output has a
      number beyond float64 ([huge_completion_rejected]).
    - Recovery: scans and emissions agree, cooldown ([wakeup_cooldown]),
      and a reaper that ends what it lists.  No unfinished run is left to nobody:
      a recovery query or the scheduler's answers with it, when the limit reaches
      its place in the query's order; or it waits for a time that has not come;
      or a task for it is in the outbox.  That the rows in front of a place go
      away is not claimed: a scan that lists the same rows again and again does
      not reach the ones behind.

    ** Integers, bounds and fuel

    Counters and versions are [Z] with the width of the Go type written out
    ([u32], [u64], [i64]) wherever an operation can pass it.  Times and durations
    are nanoseconds, columns of the store microseconds.  [drive_loop] has as many
    passes as the document has nodes plus two, which is proved enough; the fuel of
    the JSON parser is twice the text's length plus two, of Kahn's algorithm the
    number of nodes, of the depth-first search the number of edges plus one, of
    the operations on diagrams the number of variables plus two, each with its
    lemma.  The scan that inspects a text has twice its length plus two: every
    call reads at least one byte.  The claims on canonical texts suppose a limit
    of 100000 bytes on a number (the default is 256): then the exponent that a
    canonical number is written with is an [int] that can be read again.

    ** Parameters

    The clock of the database and of the processes, the identity generator, the
    hash of a request, the UUID of a node, the access control, the resource
    router, the node catalog (in the compiler, which states it as an interface),
    the Python parser of the sandbox, regexp.Compile, the normal form that
    PostgreSQL gives a JSONB text, the iteration order of a Go map where it can be observed
    ([range_order]), and what other processes do between two calls of a loop.
    A theorem that relies on one of them says so in a hypothesis, and its witness
    has a concrete instance.

    ** Not modelled

    The copies of descriptions that the catalog hands out, through their JSON
    text; the material of managed resources that workers resolve at run time; the read-only views and their cache; the worker
    with its executors; the Redis coordination of the schedulers; HTTP, Kafka and process plumbing.  The audit
    rows and the telemetry are written and never read by this code.  The CHECK
    constraints of the schema only abort a transaction, and so do the foreign keys of
    the run tables.  The
    JSON encoding of messages and columns is taken as inverse to its decoding. *)

From stdpp Require Export base gmap strings list fin_maps sorting numbers pretty.
From Stdlib Require Export Lia.
From Stdlib Require Import Ascii.

#[export] Set Default Goal Selector "!".
#[export] Set Warnings "-register-all".

(** ** Results of fallible Go functions

    A Go function that returns [(T, error)] is a function into [res T].  On an
    [Err] the receiver of a domain method is unchanged: every method of
    internal/runtime performs its checks before its first assignment. *)

Declare Scope evalfrog_scope.
Delimit Scope evalfrog_scope with evalfrog.

(** [Errorf f args] is [fmt.Errorf] (or [errors.New]) with its arguments
    already rendered; [Wrap s m] is [fmt.Errorf("%w: " + m, s)] and [Prefix m e]
    is [fmt.Errorf(m + ": %w", e)]. *)
Inductive error : Type :=
  | Errorf (format : string) (args : list string)
  | Wrap (sentinel : error) (message : string)
  | Prefix (message : string) (cause : error)
  | TransitionError (entity from to : string)
  | EngineError (code node_id field : string) (cause : option error).

#[export] Instance error_eq_dec : EqDecision error.
Proof.
  unfold EqDecision. fix IH 1.
  intros [f l|s m|m s|a b d|a b d c] [f' l'|s' m'|m' s'|a' b' d'|a' b' d' c']; try (right; congruence).
  - destruct (decide (f = f')); [|right; congruence]. destruct (decide (l = l')); [left|right]; congruence.
  - destruct (IH s s'); [|right; congruence]. destruct (decide (m = m')); [left|right]; congruence.
  - destruct (IH s s'); [|right; congruence]. destruct (decide (m = m')); [left|right]; congruence.
  - destruct (decide (a = a')); [|right; congruence]. destruct (decide (b = b')); [|right; congruence].
    destruct (decide (d = d')); [left|right]; congruence.
  - destruct (decide (a = a')); [|right; congruence]. destruct (decide (b = b')); [|right; congruence].
    destruct (decide (d = d')); [|right; congruence]. destruct c as [c|], c' as [c'|]; try (right; congruence); [|left; congruence].
    destruct (IH c c'); [left|right]; congruence.
Defined.

Inductive res (A : Type) : Type :=
  | Ok (a : A)
  | Err (e : error).
Arguments Ok {A} a.
Arguments Err {A} e.

#[export] Instance res_ret : MRet res := @Ok.
#[export] Instance res_bind : MBind res := λ A B f m,
  match m with Ok a => f a | Err e => Err e end.
#[export] Instance res_fmap : FMap res := λ A B f m,
  match m with Ok a => Ok (f a) | Err e => Err e end.

(** [guard_err b e] is the early return [if b { return e }]. *)
Definition guard_err (b : bool) (e : error) : res unit :=
  if b then Err e else Ok tt.

(** A lookup that must find something. *)
Definition or_err {A} (o : option A) (e : error) : res A := match o with Some a => Ok a | None => Err e end.

(** The value of a call that is known to succeed. *)
Definition res_or {A} (d : A) (r : res A) : A :=
  match r with Ok a => a | Err _ => d end.

Definition is_ok {A} (r : res A) : bool :=
  match r with Ok _ => true | Err _ => false end.

Lemma bind_Ok {A B} (m : res A) (f : A → res B) b :
  (m ≫= f) = Ok b ↔ ∃ a, m = Ok a ∧ f a = Ok b.
Proof. destruct m; simpl; split; [eauto|naive_solver|done|naive_solver]. Qed.

Lemma bind_guard {B} (b : bool) e (f : unit → res B) r :
  (guard_err b e ≫= f) = Ok r ↔ b = false ∧ f tt = Ok r.
Proof. destruct b; simpl; naive_solver. Qed.

Lemma guard_Ok (b : bool) e u : guard_err b e = Ok u ↔ b = false.
Proof. destruct b, u; simpl; naive_solver. Qed.

Lemma res_bind_Ok {A B} (m : res A) (f : A → res B) a : m = Ok a → (m ≫= f) = f a.
Proof. by intros ->. Qed.

Lemma guard_passes {B} (b : bool) x (f : unit → res B) : b = false → (guard_err b x ≫= f) = f tt.
Proof. by intros ->. Qed.

(** A transaction on a store [W]: it changes the store and answers.  What it
    changed before an error is undone by whoever runs it. *)
Definition tx (W A : Type) : Type := W → W * res A.

#[export] Instance tx_ret W : MRet (tx W) := λ A a w, (w, Ok a).
#[export] Instance tx_bind W : MBind (tx W) := λ A B f m w,
  match m w with
  | (w', Ok a) => f a w'
  | (w', Err x) => (w', Err x)
  end.

Definition tx_get {W} : tx W W := λ w, (w, Ok w).
Definition tx_modify {W} (f : W → W) : tx W unit := λ w, (f w, Ok tt).
Definition tx_fail {W A} (x : error) : tx W A := λ w, (w, Err x).
Definition tx_lift {W A} (r : res A) : tx W A := λ w, (w, r).

(** An error handed on as a value. *)
Definition tx_try {W A} (m : tx W A) : tx W (res A) := λ w, let '(w', r) := m w in (w', Ok r).

Lemma tx_bind_Ok {W A B} (m : tx W A) (f : A → tx W B) w w' b :
  (m ≫= f) w = (w', Ok b) ↔ ∃ w1 a, m w = (w1, Ok a) ∧ f a w1 = (w', Ok b).
Proof.
  unfold mbind, tx_bind. destruct (m w) as [w1 [a|x]]; split.
  - intros H. by exists w1, a.
  - by intros (? & ? & [= <- <-] & ?).
  - done.
  - by intros (? & ? & ? & _).
Qed.

Lemma tx_step {W A B} (m : tx W A) (f : A → tx W B) w w1 a : m w = (w1, Ok a) → (m ≫= f) w = f a w1.
Proof. unfold mbind, tx_bind. by intros ->. Qed.

(** Whatever [m] answers, [R] relates the store before and after it. *)
Definition respects {W A} (R : W → W → Prop) (m : tx W A) : Prop := ∀ w, R w (m w).1.

Create HintDb respects.

Section Respects.
Context {W : Type} (R : W → W → Prop) `{!PreOrder R}.

Lemma respects_ret {A} (a : A) : respects R (mret a).
Proof. by intros w. Qed.
Lemma respects_get : respects R tx_get.
Proof. by intros w. Qed.
Lemma respects_fail {A} x : respects R (@tx_fail W A x).
Proof. by intros w. Qed.
Lemma respects_lift {A} (r : res A) : respects R (tx_lift r).
Proof. by intros w. Qed.
Lemma respects_bind {A B} (m : tx W A) (f : A → tx W B) : respects R m → (∀ a, respects R (f a)) → respects R (m ≫= f).
Proof.
  intros Hm Hf w. specialize (Hm w). unfold mbind, tx_bind. destruct (m w) as [w1 [a|x]]; [|done].
  etrans; [exact Hm|apply Hf].
Qed.

(** The statements after a check may rely on it. *)
Lemma respects_checked {A B} (m : res A) (f : A → tx W B) : (∀ a, m = Ok a → respects R (f a)) → respects R (tx_lift m ≫= f).
Proof. intros Hf w. unfold mbind, tx_bind, tx_lift. destruct m as [a|x]; [by apply Hf|done]. Qed.
End Respects.

#[export] Hint Resolve respects_ret respects_get respects_fail respects_lift : respects.

(** Down to the statements, through every choice; what is left is to be shown
    of a statement or of a given subterm. *)
Ltac respects := repeat first
  [ progress intros
  | solve [auto with respects typeclass_instances]
  | progress cbv zeta
  | apply respects_checked; [typeclasses eauto|]
  | apply respects_bind; [typeclasses eauto|..]
  | match goal with
    | |- respects _ (if ?b then _ else _) => destruct b
    | |- respects _ (match ?x with _ => _ end) => destruct x
    | |- respects _ (let '(_, _) := ?x in _) => destruct x
    end ].

(** Every verb of [format] is replaced by the next argument. *)
Fixpoint sprintf (format : string) (args : list string) : string :=
  match format with
  | String a r =>
      match Ascii.eqb a "%", r, args with
      | true, String _ r', x :: args' => (x +:+ sprintf r' args')%string
      | _, _, _ => String a (sprintf r args)
      end
  | ""%string => ""
  end.

(** [%q] on a string of printable characters. *)
Fixpoint quote_body (s : string) : string :=
  match s with
  | String a r =>
      if (Ascii.eqb a "034" || Ascii.eqb a "\")%bool
      then String "\" (String a (quote_body r)) else String a (quote_body r)
  | ""%string => String "034" ""
  end.
Definition quote (s : string) : string := String "034" (quote_body s).

(** [err.Error()] *)
Fixpoint error_string (e : error) : string :=
  match e with
  | Errorf f args => sprintf f args
  | Wrap s m => (error_string s +:+ ": " +:+ m)%string
  | Prefix m e => (m +:+ ": " +:+ error_string e)%string
  | TransitionError en f t =>
      (en +:+ " cannot transition from " +:+ f +:+ " to " +:+ t)%string
  | EngineError c n _ _ =>
      if bool_decide (n = "") then c else (c +:+ " at node " +:+ n)%string
  end.

(** [errors.Is] for errors without an [Unwrap] to several. *)
Fixpoint errors_Is (e target : error) : bool :=
  bool_decide (e = target) ||
  match e with
  | Wrap s _ => errors_Is s target
  | Prefix _ c => errors_Is c target
  | EngineError _ _ _ (Some cause) => errors_Is cause target
  | _ => false
  end.

(** ** Record update

    [r <| f := v |>] is the assignment [r.f = v] on a struct value.  A record
    type declares its eta-expansion once, as an [Eta] instance. *)

Class Eta (R : Type) : Type := eta_of : R → R.
Class Update {R T : Type} (field : R → T) : Type := update_field : (T → T) → R → R.
Arguments update_field {R T} field {_} _ _.

Ltac build_update R field :=
  exact (fun f (r : R) =>
    ltac:(let b := eval hnf in (@eta_of R _ r) in
          match b with
          | context C [field r] => let b' := context C [f (field r)] in exact b'
          end)).

#[export] Hint Extern 1 (@Update ?R ?T ?field) => build_update R field : typeclass_instances.

Notation "r <| field := v |>" := (update_field field (λ _, v) r)
  (at level 1, left associativity, field at level 9, v at level 200) : evalfrog_scope.
Open Scope evalfrog_scope.

(** ** Machine integers

    Counters are kept as [Z] with the wrap-around of their Go width written
    out: [uint32], [uint64] reduce modulo the width, [int64] (also Go's [int]
    on the supported 64-bit targets) reduces to the signed range. *)

Open Scope Z_scope.

Definition u32 (z : Z) : Z := z mod 2 ^ 32.
Definition u64 (z : Z) : Z := z mod 2 ^ 64.
Definition i64 (z : Z) : Z := (z + 2 ^ 63) mod 2 ^ 64 - 2 ^ 63.

Lemma u32_small z : 0 ≤ z < 2 ^ 32 → u32 z = z.
Proof. apply Z.mod_small. Qed.

Lemma u64_small z : 0 ≤ z < 2 ^ 64 → u64 z = z.
Proof. apply Z.mod_small. Qed.

Lemma i64_small z : - 2 ^ 63 ≤ z < 2 ^ 63 → i64 z = z.
Proof. intros ?. unfold i64. rewrite Z.mod_small; lia. Qed.

Lemma u64_bound z : 0 ≤ u64 z < 2 ^ 64.
Proof. apply Z.mod_pos_bound. lia. Qed.

Lemma i64_bound z : - 2 ^ 63 ≤ i64 z < 2 ^ 63.
Proof. unfold i64. pose proof (Z.mod_pos_bound (z + 2 ^ 63) (2 ^ 64)). lia. Qed.

Lemma u64_succ_pos z : 0 < z → z < 2 ^ 64 - 1 → u64 (z + 1) = z + 1.
Proof. intros. apply u64_small. lia. Qed.

Lemma Z_land_le_r a b : 0 ≤ a → 0 ≤ b → Z.land a b ≤ b.
Proof.
  intros Ha Hb. rewrite <-(Z2N.id a), <-(Z2N.id b), <-N2Z.inj_land by done.
  apply N2Z.inj_le, N.land_le_r.
Qed.

(** ** Time

    A [time.Time] is its instant, in nanoseconds from the zero time, so that
    [IsZero] is equality with [0].  A [time.Duration] is an [int64] count of
    nanoseconds. *)

Notation Time := Z (only parsing).

Definition IsZero (t : Time) : bool := t =? 0.
Definition Before (a b : Time) : bool := a <? b.
Definition After (a b : Time) : bool := b <? a.

(** ** Strings and maps *)

(** [sort.Strings], and [sort.Slice] by [<] on a string key whose values are
    distinct: Go compares strings bytewise, as [String.compare] does. *)
Definition sort_strings : list string → list string := merge_sort String.le.

Lemma sort_strings_perm l : sort_strings l ≡ₚ l.
Proof. apply merge_sort_Permutation. Qed.

Lemma elem_of_sort_strings x l : x ∈ sort_strings l ↔ x ∈ l.
Proof. by rewrite sort_strings_perm. Qed.

Lemma NoDup_sort_strings l : NoDup l → NoDup (sort_strings l).
Proof. by rewrite sort_strings_perm. Qed.

Lemma sort_strings_sorted l : StronglySorted String.le (sort_strings l).
Proof. apply StronglySorted_merge_sort; apply _. Qed.

(** A sorted list is determined by its elements: sorting forgets the order in
    which a Go map was enumerated. *)
Lemma sort_strings_unique l1 l2 : l1 ≡ₚ l2 → sort_strings l1 = sort_strings l2.
Proof.
  intros Hp. apply (StronglySorted_unique String.le);
    [apply sort_strings_sorted..|by rewrite !sort_strings_perm].
Qed.

(** The keys of a map in increasing order. *)
Definition sorted_keys {A} (m : gmap string A) : list string :=
  sort_strings (elements (dom m)).

Lemma elem_of_sorted_keys {A} (m : gmap string A) k :
  k ∈ sorted_keys m ↔ is_Some (m !! k).
Proof.
  unfold sorted_keys.
  by rewrite elem_of_sort_strings, elem_of_elements, elem_of_dom.
Qed.

Lemma NoDup_sorted_keys {A} (m : gmap string A) : NoDup (sorted_keys m).
Proof. apply NoDup_sort_strings, NoDup_elements. Qed.

Lemma length_sorted_keys {A} (m : gmap string A) : length (sorted_keys m) = size m.
Proof.
  unfold sorted_keys. rewrite (Permutation_length (sort_strings_perm _)).
  by rewrite <-size_dom.
Qed.

Lemma sorted_keys_dom {A B} (m1 : gmap string A) (m2 : gmap string B) :
  dom m1 = dom m2 → sorted_keys m1 = sorted_keys m2.
Proof. unfold sorted_keys. by intros ->. Qed.

Lemma string_app_assoc p q r : (p +:+ q) +:+ r = p +:+ (q +:+ r).
Proof. induction p as [|a p IH]; [done|]. change (String a ((p +:+ q) +:+ r) = String a (p +:+ (q +:+ r))). by rewrite IH. Qed.

Lemma length_string_app p r : String.length (p +:+ r) = (String.length p + String.length r)%nat.
Proof. induction p as [|a p IH]; [done|]. change (S (String.length (p +:+ r)) = S (String.length p + String.length r)). by rewrite IH. Qed.

Lemma string_app_nil s : s +:+ "" = s.
Proof. induction s as [|a s IH]; [done|]. change (String a (s +:+ "") = String a s). by rewrite IH. Qed.

Lemma app_cons a s r : String a s +:+ r = String a (s +:+ r).
Proof. done. Qed.

Lemma substring_all s : ∀ m, (String.length s ≤ m)%nat → String.substring 0 m s = s.
Proof. induction s as [|a s IH]; intros [|m] Hm; cbn in *; try done; try lia. by rewrite IH by lia. Qed.

(** ** Lists *)

Lemma and_iff_compat_l' (P Q R : Prop) : (P → Q ↔ R) → P ∧ Q ↔ P ∧ R.
Proof. tauto. Qed.

Lemma filter_fmap {A B} (f : A → B) (P : B → Prop) `{∀ x, Decision (P x)} (l : list A) :
  filter P (f <$> l) = f <$> filter (λ x, P (f x)) l.
Proof. induction l as [|x l IH]; [done|]. rewrite fmap_cons, !filter_cons, IH. by case_decide. Qed.

Lemma filter_none {A} (P : A → Prop) `{∀ x, Decision (P x)} (l : list A) :
  (∀ x, x ∈ l → ¬ P x) → filter P l = [].
Proof.
  induction l as [|x l IH]; intros HP; [done|]. rewrite filter_cons, decide_False, IH; [done|..];
    intros; apply HP; set_solver.
Qed.

Lemma filter_all {A} (P : A → Prop) `{∀ x, Decision (P x)} (l : list A) :
  (∀ x, x ∈ l → P x) → filter P l = l.
Proof.
  induction l as [|x l IH]; intros HP; [done|]. rewrite filter_cons_True, IH; [done|..];
    intros; apply HP; set_solver.
Qed.

Lemma concat_classes_perm {A} (f : A → Z) (L : list Z) (h : list A) :
  NoDup L → Forall (λ x, f x ∈ L) h → concat ((λ l, filter (λ x, f x = l) h) <$> L) ≡ₚ h.
Proof.
  revert h; induction L as [|l L IH]; intros h Hnd Hh; simpl.
  - destruct h as [|x h]; [done|]. apply Forall_cons in Hh as [Hx _]. set_solver.
  - apply NoDup_cons in Hnd as [Hl Hnd].
    transitivity (filter (λ x, f x = l) h ++ filter (λ x, ¬ f x = l) h);
      [|apply filter_app_complement].
    apply Permutation_app_head. rewrite <-(IH (filter (λ x, ¬ f x = l) h)); [|done|].
    + apply reflexive_eq. f_equal. apply list_fmap_ext. intros i l' Hl'.
      apply list_elem_of_lookup_2 in Hl'. rewrite list_filter_filter.
      apply list_filter_iff. intros x. split; [|tauto]. intros <-. split; [done|]. intros Heq. by rewrite Heq in Hl'.
    + rewrite Forall_forall in Hh |- *. intros x [Hx Hin]%list_elem_of_filter.
      specialize (Hh x Hin). set_solver.
Qed.

Lemma filter_concat {A} (P : A → Prop) `{∀ x, Decision (P x)} (ls : list (list A)) :
  filter P (concat ls) = concat (filter P <$> ls).
Proof. induction ls as [|l ls IH]; simpl; [done|]. by rewrite filter_app, IH. Qed.

Lemma concat_single {A} (F : Z → list A) (L : list Z) l0 :
  NoDup L → l0 ∈ L → (∀ l, l ∈ L → l ≠ l0 → F l = []) → concat (F <$> L) = F l0.
Proof.
  induction L as [|l L IH]; intros Hnd Hin HF; [set_solver|]. rewrite fmap_cons. cbn [concat].
  apply NoDup_cons in Hnd as [Hl Hnd]. destruct (decide (l = l0)) as [->|Hne].
  - assert (concat (F <$> L) = []) as ->; [|by rewrite app_nil_r].
    clear IH Hin. induction L as [|l L IH]; [done|]. rewrite fmap_cons. cbn [concat].
    rewrite HF by set_solver. apply NoDup_cons in Hnd as [_ Hnd].
    apply IH; [set_solver|done|intros; apply HF; set_solver].
  - rewrite HF by set_solver. apply IH; [done|set_solver|]. intros; apply HF; set_solver.
Qed.

(** [sort.SliceStable]: an insertion sort from the right keeps equal elements
    in their order. *)
Section StableSort.
Context {A : Type} (leb : A → A → bool).

Fixpoint stable_insert (x : A) (l : list A) : list A :=
  match l with
  | [] => [x]
  | y :: r => if leb x y then x :: l else y :: stable_insert x r
  end.

Definition stable_sort (l : list A) : list A := foldr stable_insert [] l.

Lemma stable_insert_perm x l : stable_insert x l ≡ₚ x :: l.
Proof.
  induction l as [|y l IH]; simpl; [done|]. destruct (leb x y); [done|]. rewrite IH. apply Permutation_swap.
Qed.

Lemma stable_sort_perm l : stable_sort l ≡ₚ l.
Proof. induction l as [|x l IH]; simpl; [done|]. by rewrite stable_insert_perm, IH. Qed.

Lemma stable_sort_nil l : stable_sort l = [] ↔ l = [].
Proof. rewrite <-!Permutation_nil_r. by rewrite stable_sort_perm. Qed.
End StableSort.

Lemma flat_map_nil {A B} (f : A → list B) l : flat_map f l = [] ↔ Forall (λ x, f x = []) l.
Proof.
  induction l as [|x l IH]; simpl; [by rewrite Forall_nil|].
  by rewrite app_nil, IH, Forall_cons.
Qed.

(** The entries of a map in key order. *)
Definition sorted_items {A} (m : gmap string A) : list (string * A) :=
  omap (λ k, pair k <$> m !! k) (sorted_keys m).

Lemma elem_of_sorted_items {A} (m : gmap string A) k v : (k, v) ∈ sorted_items m ↔ m !! k = Some v.
Proof.
  unfold sorted_items. rewrite list_elem_of_omap. split.
  - intros (k' & _ & H). apply fmap_Some in H as (v' & Hk & [= -> ->]). done.
  - intros H. exists k. split; [apply elem_of_sorted_keys; eauto|]. by rewrite H.
Qed.

(** ** Iteration over a Go map

    [for k := range m] visits the keys in an unspecified order.  Code whose
    result depends on it takes the order of that loop as a [range_order]: a
    family of permutations indexed by the loop instance. *)
Record range_order : Type := RangeOrder {
  range_perm :> nat → string → list string → list string;
  range_perm_ok : ∀ n id l, range_perm n id l ≡ₚ l }.

Definition range_id : range_order := RangeOrder (λ _ _ l, l) (λ _ _ l, reflexivity l).

(** ** Tactics and hints *)

Create HintDb evalfrog.
#[export] Hint Resolve u64_bound i64_bound elem_of_sorted_keys NoDup_sorted_keys : evalfrog.

(** Invert a successful chain of guards and binds. *)
Ltac res_inv :=
  repeat match goal with
  | H : (guard_err _ _ ≫= _) = Ok _ |- _ => apply bind_guard in H as [? H]
  | H : guard_err _ _ = Ok _ |- _ => apply guard_Ok in H
  | H : (_ ≫= _) = Ok _ |- _ => apply bind_Ok in H as (? & ? & H)
  | H : mret _ = Ok _ |- _ => injection H as H
  | H : Ok _ = Ok _ |- _ => injection H as H
  | H : Err _ = Ok _ |- _ => discriminate H
  | H : Ok _ = Err _ |- _ => discriminate H
  end.

(** Turn boolean tests of the code into propositions. *)
Ltac bool_prop :=
  repeat match goal with
  | H : (_ || _)%bool = false |- _ => apply orb_false_iff in H as [? ?]
  | H : (_ && _)%bool = true |- _ => apply andb_true_iff in H as [? ?]
  | H : negb _ = true |- _ => apply negb_true_iff in H
  | H : negb _ = false |- _ => apply negb_false_iff in H
  | H : bool_decide _ = true |- _ => apply bool_decide_eq_true in H
  | H : bool_decide _ = false |- _ => apply bool_decide_eq_false in H
  | H : (_ =? _) = true |- _ => apply Z.eqb_eq in H
  | H : (_ =? _) = false |- _ => apply Z.eqb_neq in H
  | H : (_ <? _) = true |- _ => apply Z.ltb_lt in H
  | H : (_ <? _) = false |- _ => apply Z.ltb_ge in H
  | H : (_ <=? _) = true |- _ => apply Z.leb_le in H
  | H : (_ <=? _) = false |- _ => apply Z.leb_gt in H
  end.
