(* ===== verification/Json.v ===== *)
(** * JSON texts as Go's encoding/json reads them

    A [json.RawMessage] is the byte string of a JSON text.  This file models
    what the repository uses of encoding/json and of math/big on such texts:
    [json.Valid], [json.Decoder.Decode] with [UseNumber] into an [any], the
    decoding into structs and slices, and [big.Rat.SetString] on a
    [json.Number].  The scanner is a recursive descent over the bytes; its fuel
    is twice the length of the text plus two, which [parse_fuel] shows is
    enough. *)

From Stdlib Require Import QArith Ascii.
From S2P Require Import Prelude.

Open Scope nat_scope.
Open Scope string_scope.
Open Scope char_scope.

(** ** Bytes *)

Definition code (a : ascii) : N := N_of_ascii a.
Definition in_range (lo hi : N) (a : ascii) : bool :=
  ((lo <=? code a) && (code a <=? hi))%N.
Definition is_digit : ascii → bool := in_range 48 57.
Definition is_space (a : ascii) : bool :=
  (code a =? 32)%N || (code a =? 9)%N || (code a =? 13)%N || (code a =? 10)%N.

Fixpoint skip_space (s : string) : string :=
  match s with
  | String a r => if is_space a then skip_space r else s
  | "" => ""
  end%string.

(** ** Numbers *)

Fixpoint scan_digits (s : string) : string * string :=
  match s with
  | String a r =>
      if is_digit a then let '(d, r') := scan_digits r in (String a d, r') else ("", s)
  | ""%string => ("", "")
  end%string.

Definition scan_integer (s : string) : option (string * string) :=
  match s with
  | String a r =>
      if (code a =? 48)%N then Some ("0"%string, r)
      else if in_range 49 57 a then let '(d, r') := scan_digits r in Some (String a d, r')
      else None
  | ""%string => None
  end.

Definition scan_fraction (s : string) : option (string * string) :=
  match s with
  | String a r =>
      if (code a =? 46)%N then
        match scan_digits r with
        | (""%string, _) => None
        | (d, r') => Some (String a d, r')
        end
      else Some (""%string, s)
  | ""%string => Some (""%string, s)
  end.

Definition scan_sign (s : string) : string * string :=
  match s with
  | String a r =>
      if (code a =? 43)%N then ("+"%string, r)
      else if (code a =? 45)%N then ("-"%string, r) else (""%string, s)
  | ""%string => (""%string, s)
  end.

Definition scan_exponent (s : string) : option (string * string) :=
  match s with
  | String a r =>
      if ((code a =? 101) || (code a =? 69))%N then
        let '(sg, r1) := scan_sign r in
        match scan_digits r1 with
        | (""%string, _) => None
        | (d, r2) => Some (String a (sg +:+ d), r2)
        end
      else Some (""%string, s)
  | ""%string => Some (""%string, ""%string)
  end.

Definition scan_minus (s : string) : string * string :=
  match s with
  | String a r => if (code a =? 45)%N then ("-"%string, r) else (""%string, s)
  | ""%string => (""%string, s)
  end.

Definition scan_number (s : string) : option (string * string) :=
  let '(sg, s0) := scan_minus s in
  '(i, s1) ← scan_integer s0;
  '(f, s2) ← scan_fraction s1;
  '(e, s3) ← scan_exponent s2;
  Some (sg +:+ i +:+ f +:+ e, s3).

(** ** Strings *)

Definition hex_value (a : ascii) : option N :=
  let c := code a in
  if in_range 48 57 a then Some (c - 48)%N
  else if in_range 97 102 a then Some (c - 87)%N
  else if in_range 65 70 a then Some (c - 55)%N
  else None.

Definition hex4 (a b c d : ascii) : option N :=
  x ← hex_value a; y ← hex_value b; z ← hex_value c; w ← hex_value d;
  Some (x * 4096 + y * 256 + z * 16 + w)%N.

Definition simple_escape (a : ascii) : option ascii :=
  match a with
  | "034" => Some "034" | "\" => Some "\" | "/" => Some "/"
  | "b" => Some "008" | "f" => Some "012" | "n" => Some "010"
  | "r" => Some "013" | "t" => Some "009"
  | _ => None
  end.

(** The text between the quotes, as the scanner delimits it. *)
Fixpoint scan_string (s : string) : option (string * string) :=
  match s with
  | ""%string => None
  | String a r =>
      if (code a =? 34)%N then Some (""%string, r)
      else if (code a =? 92)%N then
        match r with
        | String e r1 =>
            if (code e =? 117)%N then
              match r1 with
              | String h1 (String h2 (String h3 (String h4 r2))) =>
                  _ ← hex4 h1 h2 h3 h4;
                  '(body, r') ← scan_string r2;
                  Some (String a (String e (String h1 (String h2 (String h3 (String h4 body))))), r')
              | _ => None
              end
            else
              _ ← simple_escape e;
              '(body, r') ← scan_string r1;
              Some (String a (String e body), r')
        | ""%string => None
        end
      else if (code a <? 32)%N then None
      else '(body, r') ← scan_string r; Some (String a body, r')
  end.

Definition chr (n : N) : ascii := ascii_of_N n.

(** [utf8.EncodeRune] *)
Definition encode_rune (r : N) : string :=
  if (r <? 128)%N then String (chr r) ""
  else if (r <? 2048)%N then
    String (chr (192 + r / 64)) (String (chr (128 + r mod 64)) "")
  else if (r <? 65536)%N then
    String (chr (224 + r / 4096))
      (String (chr (128 + (r / 64) mod 64)) (String (chr (128 + r mod 64)) ""))
  else
    String (chr (240 + r / 262144)) (String (chr (128 + (r / 4096) mod 64))
      (String (chr (128 + (r / 64) mod 64)) (String (chr (128 + r mod 64)) ""))).

Definition replacement : string := encode_rune 65533.
Definition cont : ascii → bool := in_range 128 191.

(** The number of bytes of a well-formed UTF-8 sequence led by a byte above
    127, or zero. *)
Definition rune_size (a b c d : ascii) : nat :=
  if in_range 194 223 a && cont b then 2
  else if (in_range 224 224 a && in_range 160 191 b && cont c)
       || ((in_range 225 236 a || in_range 238 239 a) && cont b && cont c)
       || (in_range 237 237 a && in_range 128 159 b && cont c) then 3
  else if (in_range 240 240 a && in_range 144 191 b && cont c && cont d)
       || (in_range 241 243 a && cont b && cont c && cont d)
       || (in_range 244 244 a && in_range 128 143 b && cont c && cont d) then 4
  else 0.

Definition head_or_nul (s : string) : ascii :=
  match s with String a _ => a | ""%string => "000" end.
Definition tail (s : string) : string :=
  match s with String _ r => r | ""%string => "" end.

(** The rune at the head of a [\u] escape and, for the leading half of a
    surrogate pair followed by its trailing half, the combined rune. *)
Definition surrogate_pair (hi lo : N) : option N :=
  if ((55296 <=? hi) && (hi <? 56320) && (56320 <=? lo) && (lo <? 57344))%N
  then Some ((hi - 55296) * 1024 + (lo - 56320) + 65536)%N else None.

Definition is_surrogate (r : N) : bool := ((55296 <=? r) && (r <? 57344))%N.

Definition next_u4 (s : string) : option N :=
  match s with
  | String "\" (String "u" (String a (String b (String c (String d _))))) => hex4 a b c d
  | _ => None
  end.

(** [unquote]: escapes resolved, invalid UTF-8 replaced by U+FFFD.  [skip]
    counts the bytes already consumed by the sequence in progress. *)
Fixpoint unquote (skip : nat) (s : string) : string :=
  match s with
  | ""%string => ""
  | String a r =>
      match skip with
      | S k => unquote k r
      | O =>
          if (code a =? 92)%N then
            match r with
            | String "u" (String h1 (String h2 (String h3 (String h4 r4)))) =>
                match hex4 h1 h2 h3 h4 with
                | Some u =>
                    if is_surrogate u then
                      match next_u4 r4 ≫= surrogate_pair u with
                      | Some v => encode_rune v +:+ unquote 11 r
                      | None => replacement +:+ unquote 5 r
                      end
                    else encode_rune u +:+ unquote 5 r
                | None => unquote 0 r
                end
            | String e _ =>
                match simple_escape e with
                | Some x => String x (unquote 1 r)
                | None => unquote 0 r
                end
            | ""%string => ""
            end
          else if (code a <? 128)%N then String a (unquote 0 r)
          else
            let b := head_or_nul r in
            let c := head_or_nul (tail r) in
            let d := head_or_nul (tail (tail r)) in
            match rune_size a b c d with
            | 2 => String a (String b (unquote 1 r))
            | 3 => String a (String b (String c (unquote 2 r)))
            | 4 => String a (String b (String c (String d (unquote 3 r))))
            | _ => replacement +:+ unquote 0 r
            end
      end
  end.

Close Scope char_scope.
Open Scope Z_scope.

(** ** Values

    [jsyn] is the syntax tree of a text: object members in source order, with
    the raw text of each member value (what a [json.RawMessage] field
    receives).  [json] is the [any] of [Decode] with [UseNumber]; an object is
    a [map[string]any], kept as its key-sorted association list. *)

Inductive jsyn : Type :=
  | SNull
  | SBool (b : bool)
  | SNum (lit : string)
  | SStr (s : string)
  | SArr (items : list jsyn)
  | SObj (members : list (string * string * jsyn)).

Inductive json : Type :=
  | JNull
  | JBool (b : bool)
  | JNum (lit : string)
  | JStr (s : string)
  | JArr (items : list json)
  | JObj (members : list (string * json)).

(** Insert or overwrite a key of a key-sorted association list. *)
Fixpoint obj_insert {A} (k : string) (v : A) (m : list (string * A)) : list (string * A) :=
  match m with
  | [] => [(k, v)]
  | (k', v') :: r =>
      match String.compare k k' with
      | Lt => (k, v) :: m
      | Eq => (k, v) :: r
      | Gt => (k', v') :: obj_insert k v r
      end
  end.

Fixpoint obj_lookup {A} (k : string) (m : list (string * A)) : option A :=
  match m with
  | [] => None
  | (k', v) :: r => if bool_decide (k = k') then Some v else obj_lookup k r
  end.

Fixpoint to_any (s : jsyn) : json :=
  match s with
  | SNull => JNull
  | SBool b => JBool b
  | SNum l => JNum l
  | SStr x => JStr x
  | SArr l => JArr (map to_any l)
  | SObj m => JObj (fold_left (λ acc '(k, _, v), obj_insert k (to_any v) acc) m [])
  end.

(** ** The scanner *)

(** encoding/json refuses more than 10000 nested arrays and objects. *)
Definition max_nesting : N := 10000.

Definition strip (p s : string) : option string :=
  if String.prefix p s then Some (String.substring (String.length p) (String.length s) s) else None.

(** The prefix of [s] that precedes its suffix [r]. *)
Definition consumed (s r : string) : string :=
  String.substring 0 (String.length s - String.length r) s.

Definition scanner (A : Type) : Type := N → string → option (A * string).

Definition value_body (members : scanner (list (string * string * jsyn))) (items : scanner (list jsyn))
    (depth : N) (s : string) : option (jsyn * string) :=
  match skip_space s with
  | ""%string => None
  | String a r as s' =>
      if (code a =? 123)%N then
        if (max_nesting <=? depth)%N then None else
        match skip_space r with
        | String b r' =>
            if (code b =? 125)%N then Some (SObj [], r')
            else '(m, r'') ← members (depth + 1)%N r; Some (SObj m, r'')
        | ""%string => None
        end
      else if (code a =? 91)%N then
        if (max_nesting <=? depth)%N then None else
        match skip_space r with
        | String b r' =>
            if (code b =? 93)%N then Some (SArr [], r')
            else '(l, r'') ← items (depth + 1)%N r; Some (SArr l, r'')
        | ""%string => None
        end
      else if (code a =? 34)%N then
        '(body, r') ← scan_string r; Some (SStr (unquote 0 body), r')
      else if (code a =? 116)%N then r' ← strip "true" s'; Some (SBool true, r')
      else if (code a =? 102)%N then r' ← strip "false" s'; Some (SBool false, r')
      else if (code a =? 110)%N then r' ← strip "null" s'; Some (SNull, r')
      else '(lit, r') ← scan_number s'; Some (SNum lit, r')
  end.

Definition items_body (value : scanner jsyn) (items : scanner (list jsyn))
    (depth : N) (s : string) : option (list jsyn * string) :=
  '(v, r) ← value depth s;
  match skip_space r with
  | String b r' =>
      if (code b =? 44)%N then '(l, r'') ← items depth r'; Some (v :: l, r'')
      else if (code b =? 93)%N then Some ([v], r') else None
  | ""%string => None
  end.

Definition members_body (value : scanner jsyn) (members : scanner (list (string * string * jsyn)))
    (depth : N) (s : string) : option (list (string * string * jsyn) * string) :=
  match skip_space s with
  | String q r0 =>
      if (code q =? 34)%N then
        '(body, r1) ← scan_string r0;
        match skip_space r1 with
        | String c r2 =>
            if (code c =? 58)%N then
              '(v, r3) ← value depth r2;
              let member := (unquote 0 body, consumed (skip_space r2) r3, v) in
              match skip_space r3 with
              | String b r4 =>
                  if (code b =? 44)%N then
                    '(m, r5) ← members depth r4; Some (member :: m, r5)
                  else if (code b =? 125)%N then Some ([member], r4) else None
              | ""%string => None
              end
            else None
        | ""%string => None
        end
      else None
  | ""%string => None
  end.

Fixpoint parse_value (fuel : nat) (depth : N) (s : string) : option (jsyn * string) :=
  match fuel with
  | O => None
  | S fuel' => value_body (parse_members fuel') (parse_items fuel') depth s
  end
with parse_items (fuel : nat) (depth : N) (s : string) : option (list jsyn * string) :=
  match fuel with
  | O => None
  | S fuel' => items_body (parse_value fuel') (parse_items fuel') depth s
  end
with parse_members (fuel : nat) (depth : N) (s : string) : option (list (string * string * jsyn) * string) :=
  match fuel with
  | O => None
  | S fuel' => members_body (parse_value fuel') (parse_members fuel') depth s
  end.

Definition parse (s : string) : option (jsyn * string) :=
  parse_value (2 * String.length s + 2) 0 s.

(** *** The fuel of [parse] is enough *)

Lemma skip_space_length s : (String.length (skip_space s) ≤ String.length s)%nat.
Proof. induction s as [|a s IH]; simpl; [lia|]. destruct (is_space a); simpl; lia. Qed.

Lemma scan_digits_length s d r : scan_digits s = (d, r) → (String.length r ≤ String.length s)%nat.
Proof.
  revert d r. induction s as [|a s IH]; simpl; intros d r; [naive_solver|].
  destruct (is_digit a); [|naive_solver]. destruct (scan_digits s) as [d' r'].
  intros [= <- <-]. specialize (IH d' r'). naive_solver lia.
Qed.

Ltac scan_cases H := repeat case_match; simplify_eq/=; try lia;
  repeat match goal with E : scan_digits _ = _ |- _ => apply scan_digits_length in E end; lia.

Lemma scan_integer_length s i r : scan_integer s = Some (i, r) → (String.length r < String.length s)%nat.
Proof. unfold scan_integer. intros H. scan_cases H. Qed.

Lemma scan_fraction_length s f r : scan_fraction s = Some (f, r) → (String.length r ≤ String.length s)%nat.
Proof. unfold scan_fraction. intros H. scan_cases H. Qed.

Lemma scan_sign_length s g r : scan_sign s = (g, r) → (String.length r ≤ String.length s)%nat.
Proof. unfold scan_sign. intros H. scan_cases H. Qed.

Lemma scan_minus_length s g r : scan_minus s = (g, r) → (String.length r ≤ String.length s)%nat.
Proof. unfold scan_minus. intros H. scan_cases H. Qed.

Lemma scan_exponent_length s e r : scan_exponent s = Some (e, r) → (String.length r ≤ String.length s)%nat.
Proof.
  unfold scan_exponent. intros H. destruct s as [|a s]; [by simplify_eq|].
  destruct (_ || _)%bool; [|by simplify_eq].
  destruct (scan_sign s) as [g r1] eqn:E1. apply scan_sign_length in E1. scan_cases H.
Qed.

Lemma scan_number_length s l r : scan_number s = Some (l, r) → (String.length r < String.length s)%nat.
Proof.
  unfold scan_number. destruct (scan_minus s) as [sg s0] eqn:E0.
  apply scan_minus_length in E0. intros H.
  apply bind_Some in H as ([i s1] & Hi%scan_integer_length & H).
  apply bind_Some in H as ([f s2] & Hf%scan_fraction_length & H).
  apply bind_Some in H as ([e s3] & He%scan_exponent_length & H). simplify_eq/=. lia.
Qed.

Lemma scan_string_length s b r : scan_string s = Some (b, r) → (String.length r < String.length s)%nat.
Proof.
  remember (String.length s) as n eqn:Hn. revert s Hn b r.
  induction n as [n IH] using lt_wf_ind. intros s Hn b r H.
  assert (∀ s' b' r', (String.length s' < String.length s)%nat →
    scan_string s' = Some (b', r') → (String.length r' < String.length s')%nat) as IH'.
  { intros s' b' r' Hl. apply (IH (String.length s')); [lia|done]. }
  clear IH. subst n. destruct s as [|a s]; [done|]. simpl in H, IH' |- *.
  repeat case_match; simplify_eq/=; try lia;
  repeat match goal with
  | H : (_ ≫= _) = Some _ |- _ => apply bind_Some in H as ([] & ? & ?)
  | H : (_ ≫= _) = Some _ |- _ => apply bind_Some in H as (? & ? & ?)
  end; simplify_eq/=;
  match goal with H : scan_string ?x = _ |- _ => apply IH' in H; [|simpl; lia] end; lia.
Qed.

Lemma strip_length p s r : p ≠ "" → strip p s = Some r → (String.length r < String.length s)%nat.
Proof.
  unfold strip. intros Hp H. case_match eqn:Hpre; [|done]. simplify_eq.
  assert (∀ n s, String.length (String.substring n (String.length s) s) = String.length s - n)%nat as Hsub.
  { clear. assert (∀ m s, String.length s ≤ m → String.substring 0 m s = s)%nat as H0.
    { intros m s. revert m. induction s as [|a s IH]; intros [|m]; simpl; try done; try lia.
      intros ?. by rewrite IH by lia. }
    assert (∀ n m s, String.length s ≤ m → String.length (String.substring n m s) = String.length s - n)%nat as H1.
    { intros n m s. revert n m. induction s as [|a s IH]; intros [|n] [|m] ?; simpl in *; try lia.
      - rewrite H0 by lia. lia.
      - rewrite IH; lia. }
    intros n s. apply H1. lia. }
  rewrite Hsub. destruct p as [|a p]; [done|]. destruct s as [|b s]; [done|]. simpl. lia.
Qed.

Lemma parse_length fuel :
  (∀ d s v r, parse_value fuel d s = Some (v, r) → (String.length r < String.length s)%nat) ∧
  (∀ d s l r, parse_items fuel d s = Some (l, r) → (String.length r < String.length s)%nat) ∧
  (∀ d s m r, parse_members fuel d s = Some (m, r) → (String.length r < String.length s)%nat).
Proof.
  induction fuel as [|fuel (IHv & IHi & IHm)]; [done|]. split_and!.
  - intros d s v r. cbn [parse_value]. unfold value_body. pose proof (skip_space_length s) as Hs.
    destruct (skip_space s) as [|a r0]; [done|]. simpl in Hs.
    pose proof (skip_space_length r0) as Hr0.
    repeat case_match; simpl in *; intros ?; simplify_eq/=; try lia;
    repeat match goal with
    | H : (_ ≫= _) = Some _ |- _ => apply bind_Some in H as ([] & ? & ?)
    | H : (_ ≫= _) = Some _ |- _ => apply bind_Some in H as (? & ? & ?)
    end; simplify_eq/=;
    first [ match goal with H : parse_members _ _ _ = _ |- _ => apply IHm in H end; lia
          | match goal with H : parse_items _ _ _ = _ |- _ => apply IHi in H end; lia
          | match goal with H : scan_string _ = _ |- _ => apply scan_string_length in H end; lia
          | match goal with H : scan_number _ = _ |- _ => apply scan_number_length in H end; simpl in *; lia
          | match goal with H : strip _ _ = _ |- _ => apply strip_length in H; [|done] end; simpl in *; lia ].
  - intros d s l r. cbn [parse_items]. unfold items_body. intros H. apply bind_Some in H as ([v r0] & Hv%IHv & H).
    pose proof (skip_space_length r0) as Hr0. repeat case_match; simplify_eq/=; try lia.
    apply bind_Some in H as ([l' r1] & Hl%IHi & ?). simplify_eq/=. lia.
  - intros d s m r. cbn [parse_members]. unfold members_body. pose proof (skip_space_length s) as Hs.
    destruct (skip_space s) as [|q r0]; [done|]. simpl in Hs.
    destruct (code q =? 34)%N; [|done].
    intros H. apply bind_Some in H as ([b r1] & Hb%scan_string_length & H).
    pose proof (skip_space_length r1) as Hr1.
    destruct (skip_space r1) as [|c r2]; [done|]. simpl in Hr1.
    destruct (code c =? 58)%N; [|done]. apply bind_Some in H as ([v r3] & Hv%IHv & H).
    pose proof (skip_space_length r3) as Hr3. repeat case_match; simplify_eq/=; try lia.
    apply bind_Some in H as ([l' r5] & Hl%IHm & ?). simplify_eq/=. lia.
Qed.

Lemma parse_fuel_step fuel :
  (∀ d s, (2 * String.length s < fuel)%nat → parse_value fuel d s = parse_value (S fuel) d s) ∧
  (∀ d s, (2 * String.length s + 1 < fuel)%nat → parse_items fuel d s = parse_items (S fuel) d s) ∧
  (∀ d s, (2 * String.length s + 1 < fuel)%nat → parse_members fuel d s = parse_members (S fuel) d s).
Proof.
  induction fuel as [|fuel (IHv & IHi & IHm)]; [split_and!; lia|].
  pose proof (parse_length fuel) as (Lv & _ & _). split_and!.
  - intros d s Hf. change (value_body (parse_members fuel) (parse_items fuel) d s = value_body (parse_members (S fuel)) (parse_items (S fuel)) d s).
    unfold value_body.
    pose proof (skip_space_length s) as Hs.
    destruct (skip_space s) as [|a r0]; [done|]. simpl in Hs.
    pose proof (skip_space_length r0) as Hr0.
    rewrite <-(IHm (d + 1)%N r0), <-(IHi (d + 1)%N r0) by lia. done.
  - intros d s Hf. change (items_body (parse_value fuel) (parse_items fuel) d s = items_body (parse_value (S fuel)) (parse_items (S fuel)) d s).
    unfold items_body.
    rewrite <-(IHv d s) by lia. destruct (parse_value fuel d s) as [[v r]|] eqn:Hv; [|done].
    cbn [mbind option_bind]. apply Lv in Hv. pose proof (skip_space_length r) as Hr.
    destruct (skip_space r) as [|b r']; [done|]. simpl in Hr.
    by rewrite <-(IHi d r') by lia.
  - intros d s Hf. change (members_body (parse_value fuel) (parse_members fuel) d s = members_body (parse_value (S fuel)) (parse_members (S fuel)) d s).
    unfold members_body.
    pose proof (skip_space_length s) as Hs.
    destruct (skip_space s) as [|q r0]; [done|]. simpl in Hs. case_match; [|done].
    destruct (scan_string r0) as [[b r1]|] eqn:Hb; [|done]. apply scan_string_length in Hb.
    cbn [mbind option_bind].
    pose proof (skip_space_length r1) as Hr1.
    destruct (skip_space r1) as [|c r2]; [done|]. simpl in Hr1. case_match; [|done].
    rewrite <-(IHv d r2) by lia. destruct (parse_value fuel d r2) as [[v r3]|] eqn:Hv; [|done].
    cbn [mbind option_bind]. apply Lv in Hv. pose proof (skip_space_length r3) as Hr3.
    destruct (skip_space r3) as [|b' r4]; [done|]. simpl in Hr3.
    by rewrite <-(IHm d r4) by lia.
Qed.

(** Any larger fuel reads the same value: [parse] never gives up early. *)
Lemma parse_fuel s k : parse_value (2 * String.length s + 2 + k) 0 s = parse s.
Proof.
  induction k as [|k IH]; [unfold parse; f_equal; lia|].
  rewrite <-IH. rewrite Nat.add_succ_r. symmetry. apply (parse_fuel_step _). lia.
Qed.

(** [json.Valid] *)
Definition json_valid (raw : string) : bool :=
  match parse raw with
  | Some (_, r) => bool_decide (skip_space r = "")
  | None => false
  end.

(** [json.Unmarshal] first requires the whole text to be one value. *)
Definition unmarshal_syn (raw : string) : option jsyn :=
  match parse raw with
  | Some (v, r) => if bool_decide (skip_space r = "") then Some v else None
  | None => None
  end.

(** [json.NewDecoder(bytes.NewReader(raw))] with [UseNumber], decoding one
    value into an [any]: what follows the value is not read. *)
Definition decode_any (raw : string) : option json := to_any ∘ fst <$> parse raw.

(** ** Numbers as rationals *)

Fixpoint digits_value (acc : Z) (s : string) : Z :=
  match s with
  | String a r =>
      if is_digit a then digits_value (acc * 10 + (Z.of_N (code a) - 48)) r
      else digits_value acc r
  | ""%string => acc
  end.

(** A JSON number literal, split into sign, digits before and after the point,
    and exponent. *)
Definition split_number (lit : string) : option (bool * string * string * Z) :=
  let '(neg, s0) := match strip "-" lit with Some r => (true, r) | None => (false, lit) end in
  '(i, s1) ← scan_integer s0;
  '(f, s2) ← scan_fraction s1;
  let frac := default "" (strip "." f) in
  match s2 with
  | ""%string => Some (neg, i, frac, 0)
  | String _ r =>
      let '(sg, d) := scan_sign r in
      let v := digits_value 0 d in
      Some (neg, i, frac, if bool_decide (sg = "-"%string) then - v else v)
  end.

Definition rat_of (m e : Z) : Q :=
  if 0 <=? e then inject_Z (m * 10 ^ e) else Qmake m (Z.to_pos (10 ^ (- e))).

(** [new(big.Rat).SetString] on a [json.Number]: an exponent outside [int64],
    or a non-zero value whose decimal exponent exceeds a million, is refused. *)
Definition rat_set_string (lit : string) : option Q :=
  '(neg, i, f, x) ← split_number lit;
  if (x <? - 2 ^ 63) || (2 ^ 63 <=? x) then None else
  let m := digits_value 0 (i +:+ f) in
  if m =? 0 then Some (inject_Z 0) else
  let e := x - Z.of_nat (String.length f) in
  if 1000000 <? Z.abs e then None
  else Some (rat_of (if neg : bool then - m else m) e).

(** [big.Rat.IsInt] *)
Definition rat_is_int (q : Q) : bool := Z.rem (Qnum q) (Z.pos (Qden q)) =? 0.

(** ** Decoding into Go types

    [json.Unmarshal] into a [string], a [[]int], a [bool], a [[]T], a struct,
    or a [map[string]json.RawMessage].  A JSON null leaves a destination at its
    zero value. *)

Definition decode_string (s : jsyn) : option string :=
  match s with SStr x => Some x | SNull => Some ""%string | _ => None end.

Definition decode_bool (s : jsyn) : option bool :=
  match s with SBool b => Some b | SNull => Some false | _ => None end.

(** An integer literal without fraction or exponent, in [int64]. *)
Definition decode_int (s : jsyn) : option Z :=
  match s with
  | SNull => Some 0
  | SNum lit =>
      let '(neg, d) := match strip "-" lit with Some r => (true, r) | None => (false, lit) end in
      if bool_decide ((scan_digits d).2 = "") then
        let v := if neg : bool then - digits_value 0 d else digits_value 0 d in
        if (v <? - 2 ^ 63) || (2 ^ 63 <=? v) then None else Some v
      else None
  | _ => None
  end.

Definition decode_list {A} (f : jsyn → option A) (s : jsyn) : option (list A) :=
  match s with SNull => Some [] | SArr l => mapM f l | _ => None end.

(** A [map[string]json.RawMessage]: the last of duplicated members wins. *)
Definition decode_raw_map (s : jsyn) : option (gmap string string) :=
  match s with
  | SNull => Some ∅
  | SObj m => Some (fold_left (λ acc '(k, raw, _), <[k := raw]> acc) m ∅)
  | _ => None
  end.

(** ** Equality of decoded values *)

Fixpoint json_size (j : json) : nat :=
  match j with
  | JArr l => S (sum_list_with json_size l)
  | JObj m => S (sum_list_with (λ p, json_size p.2) m)
  | _ => 1
  end.

Lemma json_ind' (P : json → Prop) :
  P JNull → (∀ b, P (JBool b)) → (∀ l, P (JNum l)) → (∀ s, P (JStr s)) →
  (∀ l, Forall P l → P (JArr l)) →
  (∀ m, Forall (P ∘ snd) m → P (JObj m)) →
  ∀ j, P j.
Proof.
  intros HN HB HM HS HA HO. fix rec 1. intros [| b | l | s | l | m].
  - exact HN.
  - apply HB.
  - apply HM.
  - apply HS.
  - apply HA. revert l. fix go 1. intros [|j l]; constructor; [apply rec | apply go].
  - apply HO. revert m. fix go 1. intros [|[k j] m]; constructor; [apply rec | apply go].
Qed.

#[export] Instance json_eq_dec : EqDecision json.
Proof.
  unfold EqDecision. fix rec 1. intros x y.
  destruct x as [| b | l | s | l | m], y as [| b' | l' | s' | l' | m'];
    try (right; discriminate).
  - by left.
  - destruct (decide (b = b')); [left; congruence | right; congruence].
  - destruct (decide (l = l')); [left; congruence | right; congruence].
  - destruct (decide (s = s')); [left; congruence | right; congruence].
  - destruct (List.list_eq_dec rec l l'); [left; congruence | right; congruence].
  - destruct (List.list_eq_dec (@prod_eq_dec _ String.eq_dec _ rec) m m');
      [left; congruence | right; congruence].
Defined.

(** ** Encoding and decoding again

    A Go string that is marshalled and unmarshalled has its invalid UTF-8
    replaced; a [json.RawMessage] is compacted, with [<], [>], [&], U+2028 and
    U+2029 escaped inside strings. *)

Fixpoint to_valid_utf8 (skip : nat) (s : string) : string :=
  match s with
  | ""%string => ""
  | String a r =>
      match skip with
      | S k => to_valid_utf8 k r
      | O =>
          if (code a <? 128)%N then String a (to_valid_utf8 0 r)
          else
            let b := head_or_nul r in
            let c := head_or_nul (tail r) in
            let d := head_or_nul (tail (tail r)) in
            match rune_size a b c d with
            | 2%nat => String a (String b (to_valid_utf8 1 r))
            | 3%nat => String a (String b (String c (to_valid_utf8 2 r)))
            | 4%nat => String a (String b (String c (String d (to_valid_utf8 3 r))))
            | _ => replacement +:+ to_valid_utf8 0 r
            end
      end
  end.

(** A byte of a string literal, HTML-escaped. *)
Definition html_escape (a : ascii) : string :=
  if (code a =? 60)%N then "\u003c" else if (code a =? 62)%N then "\u003e"
  else if (code a =? 38)%N then "\u0026" else String a "".

Definition line_separator (a b c : ascii) : option string :=
  if (code a =? 226)%N && (code b =? 128)%N then
    if (code c =? 168)%N then Some "\u2028"%string else if (code c =? 169)%N then Some "\u2029"%string else None
  else None.

Fixpoint compact (in_string escaped : bool) (s : string) : string :=
  match s with
  | ""%string => ""
  | String a r =>
      if in_string then
        if escaped then String a (compact true false r)
        else if (code a =? 34)%N then String a (compact false false r)
        else if (code a =? 92)%N then String a (compact true true r)
        else
          match r with
          | String b (String c r') =>
              match line_separator a b c with
              | Some e => e +:+ compact true false r'
              | None => html_escape a +:+ compact true false r
              end
          | _ => html_escape a +:+ compact true false r
          end
      else if is_space a then compact false false r
      else String a (compact (code a =? 34)%N false r)
  end.

(** Marshalling fails on a raw text that is not JSON; a nil one is [null]. *)
Definition clone_raw (raw : string) : option string :=
  if bool_decide (raw = ""%string) then Some "null"%string
  else if json_valid raw then Some (compact false false raw) else None.

(** ** Encoding *)

Definition quotation : string := String (ascii_of_N 34) "".
Definition hex_digit (n : N) : ascii := if (n <? 10)%N then chr (48 + n) else chr (87 + n).

(** The escape of a byte without a shorter one. *)
Definition unicode_escape (n : N) : string := "\u00" +:+ String (hex_digit (n / 16)) (String (hex_digit (n mod 16)) "").
