(* ===== verification/Digest.v ===== *)
(** * Digests

    The standard library's crypto/sha256 and encoding/hex as the compiler, the
    canonicalizer and the stores use them: a text to the hexadecimal text of its
    SHA-256 digest.  Words are 32-bit integers. *)

From Stdlib Require Import Ascii.
From S2P Require Import Prelude Json.

Open Scope string_scope.
Open Scope list_scope.
Open Scope Z_scope.

Definition w32 (x : Z) : Z := Z.land x 0xffffffff.
Definition rotr (n x : Z) : Z := Z.lor (Z.shiftr x n) (w32 (Z.shiftl x (32 - n))).

(** The constants of the algorithm: 32 bits of the fractional parts of the cube
    roots of the first 64 primes, and of the square roots of the first eight. *)
Definition divides_none (smaller : list Z) (n : Z) : bool := forallb (λ p, negb (n mod p =? 0)) smaller.
Definition primes (limit : nat) : list Z :=
  fold_left (λ found n, if divides_none found n then found ++ [n] else found) (Z.of_nat <$> seq 2 (limit - 1)) [].

(** The root of [n], bit by bit below [bits], added to [r]. *)
Fixpoint cube_root (bits : nat) (n r : Z) : Z :=
  match bits with
  | O => r
  | S b => let r' := r + Z.shiftl 1 (Z.of_nat b) in cube_root b n (if r' * r' * r' <=? n then r' else r)
  end.

Definition sha_constants : list Z := Eval vm_compute in (λ p, w32 (cube_root 36 (Z.shiftl p 96) 0)) <$> primes 311.

Record sha_state : Type := MkShaState { sha_a : Z; sha_b : Z; sha_c : Z; sha_d : Z; sha_e : Z; sha_f : Z; sha_g : Z; sha_h : Z }.

Definition sha_initial : sha_state :=
  Eval vm_compute in
    match (λ p, w32 (Z.sqrt (Z.shiftl p 64))) <$> primes 19 with
    | [a; b; c; d; e; f; g; h] => MkShaState a b c d e f g h
    | _ => MkShaState 0 0 0 0 0 0 0 0
    end.

(** The sixteen latest schedule words, oldest first; the next one. *)
Definition next_word (w : list Z) : Z :=
  let at_ i := default 0 (w !! i) in
  let s0 := Z.lxor (Z.lxor (rotr 7 (at_ 1%nat)) (rotr 18 (at_ 1%nat))) (Z.shiftr (at_ 1%nat) 3) in
  let s1 := Z.lxor (Z.lxor (rotr 17 (at_ 14%nat)) (rotr 19 (at_ 14%nat))) (Z.shiftr (at_ 14%nat) 10) in
  w32 (at_ 0%nat + s0 + at_ 9%nat + s1).

Definition sha_round (s : sha_state) (k w : Z) : sha_state :=
  let '(MkShaState a b c d e f g h) := s in
  let t1 := w32 (h + Z.lxor (Z.lxor (rotr 6 e) (rotr 11 e)) (rotr 25 e)
                 + Z.lxor (Z.land e f) (Z.land (Z.lxor e 0xffffffff) g) + k + w) in
  let t2 := w32 (Z.lxor (Z.lxor (rotr 2 a) (rotr 13 a)) (rotr 22 a)
                 + Z.lxor (Z.lxor (Z.land a b) (Z.land a c)) (Z.land b c)) in
  MkShaState (w32 (t1 + t2)) a b c (w32 (d + t1)) e f g.

Definition sha_block (s : sha_state) (block : list Z) : sha_state :=
  let t := (fold_left (λ '(s, w) k, (sha_round s k (default 0 (w !! 0%nat)), drop 1 w ++ [next_word w])) sha_constants (s, block)).1 in
  MkShaState (w32 (sha_a s + sha_a t)) (w32 (sha_b s + sha_b t)) (w32 (sha_c s + sha_c t)) (w32 (sha_d s + sha_d t))
             (w32 (sha_e s + sha_e t)) (w32 (sha_f s + sha_f t)) (w32 (sha_g s + sha_g t)) (w32 (sha_h s + sha_h t)).

Fixpoint bytes_of (s : string) : list Z :=
  match s with "" => [] | String a r => Z.of_N (code a) :: bytes_of r end.

(** The [n] bytes of a number, the most significant first. *)
Fixpoint big_endian (n : nat) (x : Z) : list Z :=
  match n with O => [] | S n' => Z.shiftr x (8 * Z.of_nat n') mod 256 :: big_endian n' x end.

Definition padded (bytes : list Z) : list Z :=
  bytes ++ [128] ++ replicate (Z.to_nat ((55 - Z.of_nat (length bytes)) mod 64)) 0 ++ big_endian 8 (8 * Z.of_nat (length bytes)).

Fixpoint words_of (bytes : list Z) : list Z :=
  match bytes with
  | a :: b :: c :: d :: r => ((a * 256 + b) * 256 + c) * 256 + d :: words_of r
  | _ => []
  end.

Fixpoint sha_blocks (count : nat) (s : sha_state) (words : list Z) : sha_state :=
  match count with
  | O => s
  | S count' => sha_blocks count' (sha_block s (take 16 words)) (drop 16 words)
  end.

(** [sha256.Sum256] *)
Definition sum256 (data : string) : list Z :=
  let words := words_of (padded (bytes_of data)) in
  let s := sha_blocks (length words / 16) sha_initial words in
  flat_map (big_endian 4) [sha_a s; sha_b s; sha_c s; sha_d s; sha_e s; sha_f s; sha_g s; sha_h s].

(** [hex.EncodeToString] *)
Definition hex_of (bytes : list Z) : string :=
  foldr (λ b s, String (hex_digit (Z.to_N (b / 16))) (String (hex_digit (Z.to_N (b mod 16))) s)) "" bytes.

(** [ir.HashCanonical] *)
Definition HashCanonical (canonical : string) : string := hex_of (sum256 canonical).

Example sha256_empty : HashCanonical "" = "e3b0c44298fc1c149afbf4c8996fb92427ae41e4649b934ca495991b7852b855".
Proof. vm_compute. reflexivity. Qed.
Example sha256_two_blocks : HashCanonical "abcdbcdecdefdefgefghfghighijhijkijkljklmklmnlmnomnopnopq"
  = "248d6a61d20638b8e5c026930c3e6039a33ce45964ff2167f6ecedd419db06c1".
Proof. vm_compute. reflexivity. Qed.
