(* ===== verification/Graph.v ===== *)
(** * Control-graph algorithms

    Kahn's topological order and depth-first reachability, as the DSL validator
    (internal/dsl/validator.go) and the compiler's control-graph analysis
    (internal/compiler/controlgraph.go) both write them: adjacency maps from a
    node to the list of its neighbours, a queue kept sorted, a stack.  A graph
    is a set of nodes and a list of edges; parallel edges count separately. *)

From S2P Require Import Prelude.

Open Scope Z_scope.

Notation adjacency := (gmap string (list string)).

Definition adj (m : adjacency) (id : string) : list string := default [] (m !! id).

(** ** Kahn's algorithm *)

(** [indegree[target]--; if indegree[target] == 0 { queue = append(queue, target); sort }] *)
Definition kahn_edge (st : gmap string Z * list string) (target : string) : gmap string Z * list string :=
  let d := default 0 (st.1 !! target) - 1 in
  (<[target := d]> st.1, if d =? 0 then sort_strings (st.2 ++ [target]) else st.2).

Fixpoint kahn_loop (fuel : nat) (outgoing : adjacency) (indegree : gmap string Z)
    (queue result : list string) : list string :=
  match fuel, queue with
  | S fuel', id :: rest =>
      let st := fold_left kahn_edge (adj outgoing id) (indegree, rest) in
      kahn_loop fuel' outgoing st.1 st.2 (result ++ [id])
  | _, _ => result
  end.

(** The initial in-degrees of [nodes], and the nodes without predecessor. *)
Definition indegrees (nodes : list string) (incoming : adjacency) : gmap string Z :=
  list_to_map ((λ id, (id, Z.of_nat (length (adj incoming id)))) <$> nodes).

Definition kahn (nodes : list string) (incoming outgoing : adjacency) : list string :=
  let roots := List.filter (λ id, Nat.eqb (length (adj incoming id)) 0) nodes in
  kahn_loop (length nodes) outgoing (indegrees nodes incoming) (sort_strings roots) [].

(** ** Reachability *)

Definition reach_edge (st : gset string * list string) (next : string) : gset string * list string :=
  if bool_decide (next ∈ st.1) then st else ({[next]} ∪ st.1, next :: st.2).

(** The head of the list is the top of the stack. *)
Fixpoint reach_loop (fuel : nat) (outgoing : adjacency) (result : gset string) (stack : list string)
    : gset string :=
  match fuel, stack with
  | S fuel', id :: rest =>
      let st := fold_left reach_edge (adj outgoing id) (result, rest) in
      reach_loop fuel' outgoing st.1 st.2
  | _, _ => result
  end.

Definition all_targets (outgoing : adjacency) : gset string :=
  ⋃ (list_to_set <$> (map_to_list outgoing).*2 : list (gset string)).

Definition reachable (start : string) (outgoing : adjacency) : gset string :=
  reach_loop (S (size (all_targets outgoing))) outgoing {[start]} [start].

(** ** Adjacency built from an edge list *)

Definition append_adj (k v : string) (m : adjacency) : adjacency := <[k := adj m k ++ [v]]> m.

Lemma adj_append k v m x : adj (append_adj k v m) x = adj m x ++ (if decide (k = x) then [v] else []).
Proof.
  unfold append_adj, adj. rewrite lookup_insert. case_decide; subst; simpl; [done|]. by rewrite app_nil_r.
Qed.

Definition targets_of (E : list (string * string)) (s : string) : list string :=
  snd <$> filter (λ e, e.1 = s) E.
Definition sources_of (E : list (string * string)) (t : string) : list string :=
  fst <$> filter (λ e, e.2 = t) E.

Lemma elem_of_targets_of E s t : t ∈ targets_of E s ↔ (s, t) ∈ E.
Proof.
  unfold targets_of. rewrite list_elem_of_fmap. split.
  - intros ([s' t'] & -> & [Hs Hin]%list_elem_of_filter). simpl in *. by subst.
  - intros Hin. exists (s, t). split; [done|]. by apply list_elem_of_filter.
Qed.

Lemma elem_of_sources_of E s t : s ∈ sources_of E t ↔ (s, t) ∈ E.
Proof.
  unfold sources_of. rewrite list_elem_of_fmap. split.
  - intros ([s' t'] & -> & [Hs Hin]%list_elem_of_filter). simpl in *. by subst.
  - intros Hin. exists (s, t). split; [done|]. by apply list_elem_of_filter.
Qed.

(** ** Kahn's algorithm: correctness *)

Section Kahn.
Context (nodes : list string) (E : list (string * string)) (incoming outgoing : adjacency).
Context (nodes_nodup : NoDup nodes).
Context (E_nodes : ∀ s t, (s, t) ∈ E → s ∈ nodes ∧ t ∈ nodes).
Context (incoming_ok : ∀ t, t ∈ nodes → length (adj incoming t) = length (sources_of E t)).
Context (outgoing_ok : ∀ s, s ∈ nodes → adj outgoing s ≡ₚ targets_of E s).

(** Edges into [t] from outside [order]. *)
Definition open_degree (order : list string) (t : string) : nat :=
  length (filter (λ e : string * string, e.2 = t ∧ e.1 ∉ order) E).

Definition occurrences (t : string) (l : list string) : nat := length (filter (λ x, x = t) l).

Lemma open_degree_snoc order id t : id ∉ order →
  open_degree order t = (open_degree (order ++ [id]) t + occurrences t (targets_of E id))%nat.
Proof.
  intros Hid. unfold open_degree, occurrences, targets_of. clear nodes_nodup E_nodes incoming_ok outgoing_ok.
  induction E as [|[s t'] E' IH]; [done|].
  rewrite !filter_cons. cbn [fst snd].
  destruct (decide (s = id)) as [->|Hs].
  - rewrite fmap_cons, filter_cons. cbn [fst snd].
    rewrite (decide_False (P := t' = t ∧ id ∉ order ++ [id])) by set_solver.
    destruct (decide (t' = t ∧ id ∉ order)), (decide (t' = t)); try tauto; simpl; lia.
  - destruct (decide (t' = t ∧ s ∉ order)), (decide (t' = t ∧ s ∉ order ++ [id])); try set_solver; simpl; lia.
Qed.

Lemma open_degree_zero order t : open_degree order t = 0%nat ↔ ∀ s, (s, t) ∈ E → s ∈ order.
Proof.
  unfold open_degree. rewrite length_zero_iff_nil. split.
  - intros Hf s Hs. destruct (decide (s ∈ order)) as [|Hn]; [done|].
    exfalso. eapply (filter_nil_not_elem_of _ _ (s, t)) in Hf; [done|]. done.
  - intros H. apply filter_none. intros [s t'] Hin [Heq Hn]. simpl in *. subst. auto.
Qed.

Definition degree (indegree : gmap string Z) (t : string) : Z := default 0 (indegree !! t).

(** While the edges out of a node are relaxed: [ts] are still to come. *)
Record relax_inv (order : list string) (ts : list string) (indegree : gmap string Z) (queue : list string) : Prop := {
  ri_nodup : NoDup (order ++ queue);
  ri_nodes : ∀ x, x ∈ order ++ queue → x ∈ nodes;
  ri_degree : ∀ t, t ∈ nodes → degree indegree t = Z.of_nat (open_degree order t + occurrences t ts);
  ri_zero : ∀ t, t ∈ nodes → degree indegree t = 0 ↔ t ∈ order ++ queue }.

Definition forward (order : list string) : Prop :=
  ∀ i t, order !! i = Some t → ∀ s, (s, t) ∈ E → ∃ j, (j < i)%nat ∧ order !! j = Some s.

Lemma relax_step order t ts indegree queue :
  t ∈ nodes → relax_inv order (t :: ts) indegree queue →
  relax_inv order ts (kahn_edge (indegree, queue) t).1 (kahn_edge (indegree, queue) t).2.
Proof.
  intros Ht [Hnd Hno Hdeg Hz]. unfold kahn_edge; cbn [fst snd].
  fold (degree indegree t).
  pose proof (Hdeg t Ht) as Hdt. unfold occurrences in Hdt. rewrite filter_cons_True in Hdt by done.
  simpl in Hdt. fold (occurrences t ts) in Hdt.
  assert (t ∉ order ++ queue) as Hfresh by (rewrite <-Hz by done; lia).
  assert (∀ x, degree (<[t:=degree indegree t - 1]> indegree) x
               = if decide (t = x) then degree indegree t - 1 else degree indegree x) as Hins.
  { intros x. unfold degree. rewrite lookup_insert. by case_decide. }
  assert (∀ x, x ∈ nodes → degree (<[t:=degree indegree t - 1]> indegree) x
               = Z.of_nat (open_degree order x + occurrences x ts)) as Hdeg'.
  { intros x Hx. rewrite Hins. case_decide as Heq; [subst; lia|].
    rewrite Hdeg by done. unfold occurrences. by rewrite filter_cons_False by done. }
  assert (∀ q, (if degree indegree t - 1 =? 0 then sort_strings (queue ++ [t]) else queue) = q →
     q ≡ₚ queue ++ (if degree indegree t - 1 =? 0 then [t] else [])) as Hperm.
  { intros q <-. destruct (_ =? _); [apply sort_strings_perm|by rewrite app_nil_r]. }
  set (q := if degree indegree t - 1 =? 0 then sort_strings (queue ++ [t]) else queue).
  specialize (Hperm q eq_refl). constructor; [| |done|].
  - rewrite Hperm, (assoc_L (++)). destruct (_ =? _); [|by rewrite app_nil_r].
    apply NoDup_app. split_and!; [done| |apply NoDup_singleton]. set_solver.
  - intros x. rewrite Hperm. destruct (_ =? _); set_solver.
  - intros x Hx. rewrite Hperm, Hins, (assoc_L (++)), elem_of_app.
    destruct (_ =? _) eqn:Hd; bool_prop; case_decide as Heq; try subst x.
    + set_solver.
    + rewrite Hz by done. set_solver.
    + split; [lia|]. set_solver.
    + rewrite Hz by done. set_solver.
Qed.

Lemma relax_fold order ts indegree queue :
  (∀ t, t ∈ ts → t ∈ nodes) → relax_inv order ts indegree queue →
  let st := fold_left kahn_edge ts (indegree, queue) in relax_inv order [] st.1 st.2.
Proof.
  revert indegree queue; induction ts as [|t ts IH]; intros indegree queue Hts Hinv; simpl; [done|].
  pose proof (relax_step order t ts indegree queue (Hts t ltac:(set_solver)) Hinv) as Hn.
  destruct (kahn_edge (indegree, queue) t) as [i' q'] eqn:Hk. apply IH; [set_solver|done].
Qed.

Lemma relax_pop order id rest indegree :
  relax_inv order [] indegree (id :: rest) →
  id ∈ nodes ∧ relax_inv (order ++ [id]) (targets_of E id) indegree rest.
Proof.
  intros [Hnd Hno Hdeg Hz]. assert (id ∈ nodes) as Hid by (apply Hno; set_solver).
  assert (id ∉ order) as Hfresh.
  { apply NoDup_app in Hnd as (_ & Hd & _). intros Hin. apply (Hd _ Hin). set_solver. }
  split; [done|]. constructor; rewrite <-?(assoc_L (++)); simpl; auto.
  intros t Ht. rewrite Hdeg by done. rewrite (open_degree_snoc order id t) by done.
  unfold occurrences; simpl. f_equal. lia.
Qed.

Lemma relax_inv_perm order ts ts' indegree queue : ts ≡ₚ ts' → relax_inv order ts indegree queue → relax_inv order ts' indegree queue.
Proof.
  intros Hp [Hnd Hno Hdeg Hz]. constructor; [done|done| |done]. intros t Ht. rewrite Hdeg by done.
  do 2 f_equal. unfold occurrences. by rewrite Hp.
Qed.

Lemma forward_snoc order id :
  forward order → open_degree order id = 0%nat → forward (order ++ [id]).
Proof.
  intros Hf Hd i t Hi s Hs. apply lookup_snoc_Some in Hi as [[Hlt Hi]|[-> <-]].
  - destruct (Hf i t Hi s Hs) as (j & Hj & Hjs). exists j. split; [done|].
    by apply lookup_app_l_Some.
  - apply open_degree_zero with (s := s) in Hd; [|done].
    apply list_elem_of_lookup in Hd as [j Hj]. exists j.
    split; [by eapply lookup_lt_Some|by apply lookup_app_l_Some].
Qed.

Lemma kahn_loop_inv fuel indegree queue order :
  relax_inv order [] indegree queue → forward order →
  (length nodes ≤ fuel + length order)%nat →
  let out := kahn_loop fuel outgoing indegree queue order in
  forward out ∧ NoDup out ∧ (∀ x, x ∈ out → x ∈ nodes) ∧
  (∀ t, t ∈ nodes → open_degree out t = 0%nat → t ∈ out).
Proof.
  revert indegree queue order; induction fuel as [|fuel IH]; intros indegree queue order Hinv Hfw Hlen; simpl.
  - assert (queue = []) as ->.
    { destruct queue as [|x queue]; [done|]. exfalso.
      assert (length (order ++ x :: queue) ≤ length nodes)%nat as Hle.
      { apply submseteq_length, NoDup_submseteq; apply Hinv. }
      rewrite length_app in Hle. simpl in Hle. lia. }
    destruct Hinv as [Hnd Hno Hdeg Hz]. rewrite app_nil_r in *. split_and!; auto.
    intros t Ht Hd. apply Hz; [done|]. rewrite Hdeg, Hd by done. done.
  - destruct queue as [|id rest].
    + destruct Hinv as [Hnd Hno Hdeg Hz]. rewrite app_nil_r in *. split_and!; auto.
      intros t Ht Hd. apply Hz; [done|]. rewrite Hdeg, Hd by done. done.
    + assert (open_degree order id = 0%nat) as Hd0.
      { assert (id ∈ nodes) as Hid by (apply Hinv; set_solver).
        pose proof (ri_degree _ _ _ _ Hinv id Hid) as Hd.
        pose proof (proj2 (ri_zero _ _ _ _ Hinv id Hid) ltac:(set_solver)) as Hd'.
        unfold occurrences in Hd. simpl in Hd. lia. }
      destruct (relax_pop _ _ _ _ Hinv) as [Hid Hpop].
      apply IH; [|by apply forward_snoc|rewrite length_app; simpl; lia].
      apply relax_fold; [|by eapply relax_inv_perm; [symmetry; apply outgoing_ok|]].
      intros t. rewrite outgoing_ok by done. intros Ht%elem_of_targets_of. by apply E_nodes in Ht as [_ ?].
Qed.

Lemma degree_indegrees t : t ∈ nodes → degree (indegrees nodes incoming) t = Z.of_nat (length (sources_of E t)).
Proof.
  intros Ht. unfold degree, indegrees.
  rewrite (elem_of_list_to_map_1 _ t (Z.of_nat (length (adj incoming t)))).
  - simpl. by rewrite incoming_ok.
  - rewrite <-list_fmap_compose. simpl. by rewrite list_fmap_id.
  - apply list_elem_of_fmap. eauto.
Qed.

Lemma open_degree_nil t : open_degree [] t = length (sources_of E t).
Proof.
  unfold open_degree, sources_of. rewrite length_fmap. f_equal. apply list_filter_iff. set_solver.
Qed.

Lemma kahn_spec :
  let out := kahn nodes incoming outgoing in
  forward out ∧ NoDup out ∧ (∀ x, x ∈ out → x ∈ nodes) ∧
  (∀ t, t ∈ nodes → (∀ s, (s, t) ∈ E → s ∈ out) → t ∈ out).
Proof.
  set (roots := List.filter (λ id, Nat.eqb (length (adj incoming id)) 0) nodes).
  assert (∀ t, t ∈ sort_strings roots ↔ t ∈ nodes ∧ length (adj incoming t) = 0%nat) as Hroots.
  { intros t. unfold roots. rewrite elem_of_sort_strings, !list_elem_of_In, filter_In, Nat.eqb_eq. done. }
  destruct (kahn_loop_inv (length nodes) (indegrees nodes incoming) (sort_strings roots) [])
    as (Hf & Hnd & Hno & Hc); [|done|simpl; lia|].
  - constructor; simpl.
    + apply NoDup_sort_strings. unfold roots. apply NoDup_ListNoDup, List.NoDup_filter. by apply NoDup_ListNoDup.
    + intros x Hx. by apply Hroots in Hx as [? _].
    + intros t Ht. rewrite degree_indegrees, open_degree_nil by done. f_equal. unfold occurrences. simpl. lia.
    + intros t Ht. rewrite degree_indegrees, Hroots, incoming_ok by done. split; [|lia].
      intros ?. split; [done|lia].
  - split_and!; auto. intros t Ht Hs. apply Hc; [done|]. by apply open_degree_zero.
Qed.
End Kahn.

(** A complete order exists exactly when the edges are acyclic. *)
Definition acyclic (E : list (string * string)) : Prop :=
  ∃ rank : string → nat, ∀ s t, (s, t) ∈ E → (rank s < rank t)%nat.

Definition position (l : list string) (x : string) : nat :=
  match list_find (x =.) l with Some (i, _) => i | None => 0%nat end.

Lemma position_lookup l i x : NoDup l → l !! i = Some x → position l x = i.
Proof.
  intros Hnd Hi. unfold position. destruct (list_find (x =.) l) as [[j y]|] eqn:Hf.
  - apply list_find_Some in Hf as (Hj & <- & _). by eapply NoDup_lookup.
  - eapply list_find_None in Hf. rewrite Forall_forall in Hf.
    by destruct (Hf x (list_elem_of_lookup_2 _ _ _ Hi)).
Qed.

Lemma forward_position E order s t :
  NoDup order → forward E order → (s, t) ∈ E → t ∈ order → (position order s < position order t)%nat.
Proof.
  intros Hnd Hf Hst [i Hi]%list_elem_of_lookup. destruct (Hf i t Hi s Hst) as (j & Hj & Hjs).
  by rewrite (position_lookup _ _ _ Hnd Hi), (position_lookup _ _ _ Hnd Hjs).
Qed.

Lemma kahn_complete nodes E incoming outgoing :
  NoDup nodes → (∀ s t, (s, t) ∈ E → s ∈ nodes ∧ t ∈ nodes) →
  (∀ t, t ∈ nodes → length (adj incoming t) = length (sources_of E t)) →
  (∀ s, s ∈ nodes → adj outgoing s ≡ₚ targets_of E s) →
  let out := kahn nodes incoming outgoing in
  length out = length nodes ↔ acyclic E.
Proof.
  intros Hnd HE Hin Hout out.
  destruct (kahn_spec nodes E incoming outgoing Hnd HE Hin Hout) as (Hf & Hnd' & Hsub & Hc).
  fold out in Hf, Hnd', Hsub, Hc. split.
  - intros Hlen. exists (position out). intros s t Hst. apply (forward_position E); auto.
    assert (out ≡ₚ nodes) as ->; [|by apply HE in Hst as [_ ?]].
    apply submseteq_length_Permutation; [by apply NoDup_submseteq|lia].
  - intros [rank Hrank].
    assert (∀ n t, (rank t < n)%nat → t ∈ nodes → t ∈ out) as Hall.
    { induction n as [|n IH]; intros t Ht Hn; [lia|]. apply Hc; [done|].
      intros s Hs. specialize (Hrank s t Hs). apply IH; [lia|by apply HE in Hs as [? _]]. }
    apply Nat.le_antisymm; apply submseteq_length, NoDup_submseteq; auto.
    intros t Ht. apply (Hall (S (rank t))); [lia|done].
Qed.

(** ** Reachability: correctness *)

Lemma rtc_flip_1 {A} (R : relation A) x y : rtc R x y → rtc (flip R) y x.
Proof. induction 1 as [|x y z Hxy _ IH]; [apply rtc_refl|]. by eapply rtc_r. Qed.

Lemma rtc_flip_iff {A} (R : relation A) x y : rtc (flip R) y x ↔ rtc R x y.
Proof. split; [apply (rtc_flip_1 (flip R))|apply rtc_flip_1]. Qed.

Section Reach.
Context (outgoing : adjacency).

Definition edge (s t : string) : Prop := t ∈ adj outgoing s.

Lemma reach_fold ts r st :
  let '(r', st') := fold_left reach_edge ts (r, st) in
  r' = r ∪ list_to_set ts ∧ (∀ x, x ∈ st' ↔ x ∈ st ∨ x ∈ r' ∧ x ∉ r) ∧
  length st' = (length st + size (r' ∖ r))%nat.
Proof.
  revert r st; induction ts as [|t ts IH]; intros r st; simpl.
  { split_and!; [set_solver|set_solver|]. rewrite difference_diag_L, size_empty. lia. }
  unfold reach_edge at 2; cbn [fst snd]. case_bool_decide as Ht.
  - specialize (IH r st). destruct (fold_left _ _ _) as [r' st'].
    destruct IH as (Hr & Hst & Hlen). split_and!; [set_solver|done..].
  - specialize (IH ({[t]} ∪ r) (t :: st)). destruct (fold_left _ _ _) as [r' st'].
    destruct IH as (Hr & Hst & Hlen). split_and!; [set_solver| |].
    + intros x. rewrite Hst. destruct (decide (x = t)) as [->|]; set_solver.
    + rewrite Hlen. simpl. assert (r' ∖ r = {[t]} ∪ (r' ∖ ({[t]} ∪ r))) as ->.
      { apply set_eq. intros x. destruct (decide (x = t)) as [->|]; set_solver. }
      rewrite (size_union (C := gset string) {[t]}), size_singleton by set_solver. lia.
Qed.

Lemma elem_of_all_targets s t : edge s t → t ∈ all_targets outgoing.
Proof.
  unfold edge, adj, all_targets. intros Ht. destruct (outgoing !! s) as [ts|] eqn:Hs; [|set_solver].
  apply elem_of_union_list. exists (list_to_set ts). split; [|set_solver].
  apply list_elem_of_fmap. exists ts. split; [done|].
  apply list_elem_of_fmap. exists (s, ts). split; [done|]. by apply elem_of_map_to_list.
Qed.

Record reach_inv (start : string) (r : gset string) (st : list string) : Prop := {
  re_start : start ∈ r;
  re_sound : ∀ x, x ∈ r → rtc edge start x;
  re_stack : ∀ x, x ∈ st → x ∈ r;
  re_closed : ∀ x t, x ∈ r → x ∉ st → edge x t → t ∈ r }.

Lemma reach_loop_inv fuel start r st :
  reach_inv start r st →
  (size (({[start]} ∪ all_targets outgoing) ∖ r) + length st ≤ fuel)%nat →
  reach_inv start (reach_loop fuel outgoing r st) [].
Proof.
  revert r st; induction fuel as [|fuel IH]; intros r st Hinv Hf; simpl.
  { assert (st = []) as -> by (destruct st; [done|simpl in Hf; lia]). done. }
  destruct st as [|id rest]; [done|].
  pose proof (reach_fold (adj outgoing id) r rest) as Hfold.
  destruct (fold_left reach_edge (adj outgoing id) (r, rest)) as [r' st']; cbn [fst snd].
  destruct Hfold as (Hr & Hst & Hlen). destruct Hinv as [Hs Hsound Hstack Hclosed].
  apply IH.
  - constructor; [set_solver| |set_solver|].
    + intros x. rewrite Hr. intros [?|Hx]%elem_of_union; [auto|].
      apply elem_of_list_to_set in Hx. eapply rtc_r; [apply (Hsound id); set_solver|done].
    + intros x t Hx Hn Ht. destruct (decide (x = id)) as [->|].
      * rewrite Hr. unfold edge in Ht. set_solver.
      * rewrite Hr. apply elem_of_union_l. apply (Hclosed x t); [|set_solver|done].
        destruct (decide (x ∈ r)); [done|]. set_solver.
  - simpl in Hf. set (U := {[start]} ∪ all_targets outgoing) in *.
    assert (size (U ∖ r) = size (U ∖ r') + size (r' ∖ r))%nat as Hsz; [|lia].
    rewrite <-size_union by set_solver. f_equal. apply set_eq. intros x.
    assert (r' ∖ r ⊆ U); [|destruct (decide (x ∈ r')); set_solver].
    intros y [Hy Hn]%elem_of_difference. rewrite Hr in Hy.
    apply elem_of_union in Hy as [?|Hy]; [done|]. apply elem_of_list_to_set in Hy.
    apply elem_of_union_r. by eapply elem_of_all_targets.
Qed.

(** The stack loop computes exactly the nodes reachable over [outgoing]. *)
Lemma reachable_spec start x : x ∈ reachable start outgoing ↔ rtc edge start x.
Proof.
  unfold reachable.
  destruct (reach_loop_inv (S (size (all_targets outgoing))) start {[start]} [start]) as [Hs Hsound _ Hclosed].
  - constructor; [set_solver| |set_solver|set_solver].
    intros y ->%elem_of_singleton. apply rtc_refl.
  - simpl. assert (size (({[start]} ∪ all_targets outgoing) ∖ {[start]}) ≤ size (all_targets outgoing))%nat; [|lia].
    apply subseteq_size. set_solver.
  - split; [apply Hsound|]. intros Hr.
    remember start as s eqn:Hst. rewrite Hst in *. clear Hst.
    apply (rtc_ind_r (λ y, y ∈ reach_loop (S (size (all_targets outgoing))) outgoing {[start]} [start])) in Hr; auto.
    intros y z _ Hyz Hy. eapply Hclosed; [exact Hy|set_solver|done].
Qed.
End Reach.
