(* ===== verification/Runtime.v ===== *)
(** * The runtime domain: Workflow Run, Node Run, Node Attempt

    Models internal/runtime/model.go, transitions.go, errors.go and records.go.
    The three aggregates are records with the private fields of the structs;
    every method is a function from the receiver to a [res] of the updated
    receiver.  A Go string type with constants is an inductive type with those
    constants and a last constructor for every other string, so that the
    validity checks of the code keep their meaning. *)

From S2P Require Import Prelude Json.

Open Scope Z_scope.

(** ** Enumerations *)

Inductive RunPurpose : Type :=
  | RunPurposeTest | RunPurposeProduction | RunPurposeOther (raw : string).
Inductive DefinitionSource : Type :=
  | DefinitionDraftSnapshot | DefinitionPublishedVersion | DefinitionSourceOther (raw : string).
Inductive RunState : Type :=
  | RunPending | RunRunning | RunSucceeded | RunFailed | RunCanceled | RunTimedOut
  | RunStateOther (raw : string).
Inductive TerminationKind : Type :=
  | TerminationFailed | TerminationCanceled | TerminationTimedOut
  | TerminationKindOther (raw : string).
Inductive NodeKind : Type :=
  | NodeControl | NodeTask | NodeKindOther (raw : string).
Inductive NodeState : Type :=
  | NodePending | NodeReady | NodeQueued | NodeRunning | NodeRetryWait
  | NodeSucceeded | NodeFailed | NodeTimedOut | NodeSkipped | NodeCanceled
  | NodeStateOther (raw : string).
Inductive RetryKind : Type :=
  | AttemptInitial | AttemptBusiness | AttemptRecovery | RetryKindOther (raw : string).
Inductive AttemptState : Type :=
  | AttemptQueued | AttemptRunning | AttemptSucceeded | AttemptFailed
  | AttemptTimedOut | AttemptCanceled | AttemptLost
  | AttemptStateOther (raw : string).

#[export] Instance RunPurpose_eq_dec : EqDecision RunPurpose.
Proof. solve_decision. Defined.
#[export] Instance DefinitionSource_eq_dec : EqDecision DefinitionSource.
Proof. solve_decision. Defined.
#[export] Instance RunState_eq_dec : EqDecision RunState.
Proof. solve_decision. Defined.
#[export] Instance TerminationKind_eq_dec : EqDecision TerminationKind.
Proof. solve_decision. Defined.
#[export] Instance NodeKind_eq_dec : EqDecision NodeKind.
Proof. solve_decision. Defined.
#[export] Instance NodeState_eq_dec : EqDecision NodeState.
Proof. solve_decision. Defined.
#[export] Instance RetryKind_eq_dec : EqDecision RetryKind.
Proof. solve_decision. Defined.
#[export] Instance AttemptState_eq_dec : EqDecision AttemptState.
Proof. solve_decision. Defined.

Definition run_state_string (s : RunState) : string :=
  match s with
  | RunPending => "pending" | RunRunning => "running" | RunSucceeded => "succeeded"
  | RunFailed => "failed" | RunCanceled => "canceled" | RunTimedOut => "timed_out"
  | RunStateOther r => r
  end.

Definition termination_kind_string (k : TerminationKind) : string :=
  match k with
  | TerminationFailed => "failed" | TerminationCanceled => "canceled"
  | TerminationTimedOut => "timed_out" | TerminationKindOther r => r
  end.

Definition node_state_string (s : NodeState) : string :=
  match s with
  | NodePending => "pending" | NodeReady => "ready" | NodeQueued => "queued"
  | NodeRunning => "running" | NodeRetryWait => "retry_wait"
  | NodeSucceeded => "succeeded" | NodeFailed => "failed" | NodeTimedOut => "timed_out"
  | NodeSkipped => "skipped" | NodeCanceled => "canceled" | NodeStateOther r => r
  end.

Definition attempt_state_string (s : AttemptState) : string :=
  match s with
  | AttemptQueued => "queued" | AttemptRunning => "running"
  | AttemptSucceeded => "succeeded" | AttemptFailed => "failed"
  | AttemptTimedOut => "timed_out" | AttemptCanceled => "canceled"
  | AttemptLost => "lost" | AttemptStateOther r => r
  end.

Definition RunState_Terminal (s : RunState) : bool :=
  match s with RunSucceeded | RunFailed | RunCanceled | RunTimedOut => true | _ => false end.

Definition NodeState_Terminal (s : NodeState) : bool :=
  match s with
  | NodeSucceeded | NodeFailed | NodeTimedOut | NodeSkipped | NodeCanceled => true
  | _ => false
  end.

Definition AttemptState_Terminal (s : AttemptState) : bool :=
  match s with
  | AttemptSucceeded | AttemptFailed | AttemptTimedOut | AttemptCanceled | AttemptLost => true
  | _ => false
  end.

(** ** Transition tables *)

Definition validRunTransition (from to : RunState) : bool :=
  match from with
  | RunPending => match to with RunRunning | RunCanceled | RunTimedOut => true | _ => false end
  | RunRunning =>
      match to with RunSucceeded | RunFailed | RunCanceled | RunTimedOut => true | _ => false end
  | _ => false
  end.

Definition validNodeTransition (kind : NodeKind) (from to : NodeState) : bool :=
  match kind with
  | NodeControl =>
      match from, to with
      | NodePending, (NodeSucceeded | NodeFailed | NodeSkipped | NodeCanceled) => true
      | _, _ => false
      end
  | _ =>
      match from with
      | NodePending =>
          match to with NodeReady | NodeFailed | NodeSkipped | NodeCanceled => true | _ => false end
      | NodeReady => match to with NodeQueued | NodeCanceled => true | _ => false end
      | NodeQueued => match to with NodeRunning | NodeCanceled => true | _ => false end
      | NodeRunning =>
          match to with
          | NodeRetryWait | NodeSucceeded | NodeFailed | NodeTimedOut | NodeCanceled => true
          | _ => false
          end
      | NodeRetryWait => match to with NodeReady | NodeCanceled => true | _ => false end
      | _ => false
      end
  end.

Definition validAttemptTransition (from to : AttemptState) : bool :=
  match from with
  | AttemptQueued => match to with AttemptRunning | AttemptCanceled => true | _ => false end
  | AttemptRunning =>
      match to with
      | AttemptSucceeded | AttemptFailed | AttemptTimedOut | AttemptCanceled | AttemptLost => true
      | _ => false
      end
  | _ => false
  end.

(** ** Errors *)

Definition ErrInvalidRun : error := Errorf "invalid workflow run" [].
Definition ErrInvalidTransition : error := Errorf "invalid state transition" [].
Definition ErrTerminationFinal : error := Errorf "termination intent is already final" [].
Definition ErrControlAttempt : error := Errorf "control nodes cannot create attempts" [].
Definition ErrActivatedNodeSkipped : error := Errorf "an activated node cannot be skipped" [].

(** [IsInvalidTransition]: [errors.Is] through [TransitionError.Unwrap]. *)
Fixpoint IsInvalidTransition (e : error) : bool :=
  match e with
  | TransitionError _ _ _ => true
  | Errorf f _ => bool_decide (f = "invalid state transition"%string)
  | Wrap s _ => IsInvalidTransition s
  | Prefix _ c => IsInvalidTransition c
  | EngineError _ _ _ (Some c) => IsInvalidTransition c
  | EngineError _ _ _ None => false
  end.

(** ** Shared values *)

Record DefinitionReference : Type := {
  dr_SnapshotID : string;
  dr_DefinitionHash : string;
  dr_Source : DefinitionSource;
  dr_PublishedVersionID : string }.

(** [Details] is nil or a map of decoded JSON values. *)
Record Failure : Type := {
  fl_Code : string;
  fl_Phase : string;
  fl_Retryable : bool;
  fl_RunID : string;
  fl_SnapshotID : string;
  fl_DefinitionHash : string;
  fl_ExecutionNodeID : string;
  fl_DSLField : string;
  fl_ExecutionEdgeID : string;
  fl_AttemptID : string;
  fl_Expected : string;
  fl_Actual : string;
  fl_Message : string;
  fl_Details : option (gmap string json) }.

Record TerminationIntent : Type := {
  ti_Kind : TerminationKind;
  ti_RequestedAt : Time;
  ti_Cause : Failure }.

#[export] Instance DefinitionReference_eq_dec : EqDecision DefinitionReference.
Proof. solve_decision. Defined.
#[export] Instance Failure_eq_dec : EqDecision Failure.
Proof. solve_decision. Defined.
#[export] Instance TerminationIntent_eq_dec : EqDecision TerminationIntent.
Proof. solve_decision. Defined.

#[export] Instance Failure_eta : Eta Failure := λ x,
  Build_Failure (fl_Code x) (fl_Phase x) (fl_Retryable x) (fl_RunID x) (fl_SnapshotID x)
    (fl_DefinitionHash x) (fl_ExecutionNodeID x) (fl_DSLField x) (fl_ExecutionEdgeID x)
    (fl_AttemptID x) (fl_Expected x) (fl_Actual x) (fl_Message x) (fl_Details x).

(** [cloneJSONObject]: the text must be one JSON value, and an object. *)
Definition cloneJSONObject (raw : string) : res string :=
  match unmarshal_syn raw with
  | None => Err (Errorf "value is not valid JSON" [])
  | Some (SObj _) => Ok raw
  | Some _ => Err (Errorf "value must be a JSON object" [])
  end.

Definition invalid_run (message : string) : error := Wrap ErrInvalidRun message.

(** ** Node Run *)

(** Output and input maps: a nil map and an empty one read the same. *)
Record NodeRun : Type := MkNodeRun {
  nr_runID : string;
  nr_executionNodeID : string;
  nr_kind : NodeKind;
  nr_state : NodeState;
  nr_stateVersion : Z;
  nr_activated : bool;
  nr_selectedRoute : string;
  nr_resolvedInputs : gmap string string;
  nr_effectiveOutputs : gmap string string;
  nr_effectiveAttemptID : string;
  nr_currentAttemptID : string;
  nr_nextAttemptSeq : Z;
  nr_businessAttemptCount : Z;
  nr_recoveryCount : Z;
  nr_nextAttemptKind : RetryKind;
  nr_nextRetryAt : Time;
  nr_failure : option Failure;
  nr_cancelReason : string }.

#[export] Instance NodeRun_eta : Eta NodeRun := λ x,
  MkNodeRun (nr_runID x) (nr_executionNodeID x) (nr_kind x) (nr_state x) (nr_stateVersion x)
    (nr_activated x) (nr_selectedRoute x) (nr_resolvedInputs x) (nr_effectiveOutputs x)
    (nr_effectiveAttemptID x) (nr_currentAttemptID x) (nr_nextAttemptSeq x)
    (nr_businessAttemptCount x) (nr_recoveryCount x) (nr_nextAttemptKind x) (nr_nextRetryAt x)
    (nr_failure x) (nr_cancelReason x).

#[export] Instance NodeRun_eq_dec : EqDecision NodeRun.
Proof. solve_decision. Defined.

Definition NewNodeRun (runID executionNodeID : string) (kind : NodeKind) : res NodeRun :=
  if bool_decide (runID = "") || bool_decide (executionNodeID = "")
     || (negb (bool_decide (kind = NodeControl)) && negb (bool_decide (kind = NodeTask)))
  then Err (Errorf "invalid node run identity or kind" [])
  else Ok (MkNodeRun runID executionNodeID kind NodePending 1 false "" ∅ ∅ "" "" 0 0 0
             AttemptInitial 0 None "").

Definition ExecutionIdempotencyKey (node : NodeRun) : string :=
  (nr_runID node +:+ ":" +:+ nr_executionNodeID node)%string.

Definition NodeRun_transition (node : NodeRun) (target : NodeState) : res NodeRun :=
  if negb (validNodeTransition (nr_kind node) (nr_state node) target)
  then Err (TransitionError "node_run" (node_state_string (nr_state node)) (node_state_string target))
  else Ok (node <| nr_state := target |> <| nr_stateVersion := u64 (nr_stateVersion node + 1) |>).

Definition NodeRun_Activate (node : NodeRun) : res NodeRun :=
  guard_err (negb (bool_decide (nr_state node = NodePending)))
    (Errorf "only pending nodes can be activated" []) ;;
  if nr_activated node then Ok node
  else Ok (node <| nr_activated := true |> <| nr_stateVersion := u64 (nr_stateVersion node + 1) |>).

Definition NodeRun_Ready (node : NodeRun) (inputs : gmap string string) : res NodeRun :=
  guard_err (negb (bool_decide (nr_kind node = NodeTask)) || negb (nr_activated node))
    (Errorf "only activated task nodes can become ready" []) ;;
  node ← NodeRun_transition node NodeReady;
  Ok (node <| nr_resolvedInputs := inputs |>).

Definition NodeRun_Skip (node : NodeRun) : res NodeRun :=
  guard_err (nr_activated node) ErrActivatedNodeSkipped ;;
  NodeRun_transition node NodeSkipped.

Definition NodeRun_SucceedControl (node : NodeRun) (route : string) (outputs : gmap string string)
    : res NodeRun :=
  guard_err (negb (bool_decide (nr_kind node = NodeControl)) || negb (nr_activated node))
    (Errorf "only activated control nodes can succeed" []) ;;
  node ← NodeRun_transition node NodeSucceeded;
  Ok (node <| nr_selectedRoute := route |> <| nr_effectiveOutputs := outputs |>).

Definition NodeRun_FailControl (node : NodeRun) (failure : Failure) : res NodeRun :=
  guard_err (negb (bool_decide (nr_kind node = NodeControl)) || bool_decide (fl_Code failure = ""))
    (Errorf "control failure is invalid" []) ;;
  node ← NodeRun_transition node NodeFailed;
  Ok (node <| nr_failure := Some failure |>).

Definition NodeRun_FailBeforeAttempt (node : NodeRun) (failure : Failure) : res NodeRun :=
  guard_err (negb (bool_decide (nr_kind node = NodeTask)) || negb (nr_activated node)
             || negb (bool_decide (nr_currentAttemptID node = "")) || bool_decide (fl_Code failure = ""))
    (Errorf "pre-attempt task failure is invalid" []) ;;
  node ← NodeRun_transition node NodeFailed;
  Ok (node <| nr_failure := Some failure |>).

Definition NodeRun_QueueAttempt (node : NodeRun) (attemptID : string) : res (NodeRun * (Z * RetryKind)) :=
  guard_err (negb (bool_decide (nr_kind node = NodeTask))) ErrControlAttempt ;;
  guard_err (bool_decide (attemptID = "")) (Errorf "attempt id is required" []) ;;
  node ← NodeRun_transition node NodeQueued;
  let node := node <| nr_nextAttemptSeq := u32 (nr_nextAttemptSeq node + 1) |> in
  let kind := nr_nextAttemptKind node in
  let node :=
    if bool_decide (kind = AttemptRecovery)
    then node <| nr_recoveryCount := u32 (nr_recoveryCount node + 1) |>
    else node <| nr_businessAttemptCount := u32 (nr_businessAttemptCount node + 1) |> in
  let node := node <| nr_currentAttemptID := attemptID |> <| nr_nextRetryAt := 0 |> in
  Ok (node, (nr_nextAttemptSeq node, kind)).

Definition NodeRun_AttemptStarted (node : NodeRun) (attemptID : string) : res NodeRun :=
  guard_err (negb (bool_decide (nr_currentAttemptID node = attemptID)))
    (Errorf "attempt is not current" []) ;;
  NodeRun_transition node NodeRunning.

Definition NodeRun_RetryWait (node : NodeRun) (attemptID : string) (next : RetryKind) (dueAt : Time)
    : res NodeRun :=
  guard_err (negb (bool_decide (nr_currentAttemptID node = attemptID))
             || (negb (bool_decide (next = AttemptBusiness)) && negb (bool_decide (next = AttemptRecovery)))
             || IsZero dueAt)
    (Errorf "retry decision is invalid" []) ;;
  node ← NodeRun_transition node NodeRetryWait;
  Ok (node <| nr_nextAttemptKind := next |> <| nr_nextRetryAt := dueAt |>).

Definition NodeRun_RetryDue (node : NodeRun) (at_ : Time) : res (NodeRun * bool) :=
  if negb (bool_decide (nr_state node = NodeRetryWait)) || IsZero at_ || Before at_ (nr_nextRetryAt node)
  then Ok (node, false)
  else
    node ← NodeRun_transition node NodeReady;
    Ok (node <| nr_nextRetryAt := 0 |>, true).

Definition NodeRun_SucceedAttempt (node : NodeRun) (attemptID : string) (outputs : gmap string string)
    : res NodeRun :=
  guard_err (negb (bool_decide (nr_kind node = NodeTask))
             || negb (bool_decide (nr_currentAttemptID node = attemptID)))
    (Errorf "successful attempt is not current" []) ;;
  node ← NodeRun_transition node NodeSucceeded;
  Ok (node <| nr_effectiveAttemptID := attemptID |> <| nr_effectiveOutputs := outputs |>).

Definition NodeRun_FailAttempt (node : NodeRun) (attemptID : string) (target : NodeState)
    (failure : Failure) : res NodeRun :=
  guard_err (negb (bool_decide (nr_kind node = NodeTask))
             || negb (bool_decide (nr_currentAttemptID node = attemptID))
             || bool_decide (fl_Code failure = ""))
    (Errorf "attempt failure is invalid" []) ;;
  guard_err (negb (bool_decide (target = NodeFailed)) && negb (bool_decide (target = NodeTimedOut)))
    (Errorf "attempt failure target is invalid" []) ;;
  node ← NodeRun_transition node target;
  Ok (node <| nr_failure := Some failure |>).

Definition NodeRun_Cancel (node : NodeRun) (reason : string) : res NodeRun :=
  guard_err (bool_decide (reason = "")) (Errorf "cancel reason is required" []) ;;
  node ← NodeRun_transition node NodeCanceled;
  Ok (node <| nr_cancelReason := reason |>).

(** ** Workflow Run *)

Record CreateRunCommand : Type := {
  cc_RunID : string;
  cc_ProjectID : string;
  cc_WorkflowID : string;
  cc_Purpose : RunPurpose;
  cc_Definition : DefinitionReference;
  cc_WorkflowInput : string;
  cc_DeadlineAt : Time;
  cc_CreatedAt : Time }.

Record WorkflowRun : Type := MkWorkflowRun {
  wr_id : string;
  wr_projectID : string;
  wr_workflowID : string;
  wr_purpose : RunPurpose;
  wr_definition : DefinitionReference;
  wr_workflowInput : string;
  wr_workflowOutput : string;
  wr_deadlineAt : Time;
  wr_createdAt : Time;
  wr_state : RunState;
  wr_stateVersion : Z;
  wr_nodeRunCount : Z;
  wr_executionNodeIDs : gset string;
  wr_termination : option TerminationIntent }.

#[export] Instance WorkflowRun_eta : Eta WorkflowRun := λ x,
  MkWorkflowRun (wr_id x) (wr_projectID x) (wr_workflowID x) (wr_purpose x) (wr_definition x)
    (wr_workflowInput x) (wr_workflowOutput x) (wr_deadlineAt x) (wr_createdAt x) (wr_state x)
    (wr_stateVersion x) (wr_nodeRunCount x) (wr_executionNodeIDs x) (wr_termination x).

#[export] Instance WorkflowRun_eq_dec : EqDecision WorkflowRun.
Proof. solve_decision. Defined.

Definition NewWorkflowRun (command : CreateRunCommand) : res WorkflowRun :=
  let def := cc_Definition command in
  guard_err
    (bool_decide (cc_RunID command = "") || bool_decide (cc_ProjectID command = "")
     || bool_decide (cc_WorkflowID command = "") || bool_decide (dr_SnapshotID def = "")
     || bool_decide (dr_DefinitionHash def = "") || IsZero (cc_CreatedAt command)
     || IsZero (cc_DeadlineAt command) || negb (After (cc_DeadlineAt command) (cc_CreatedAt command)))
    (invalid_run "identity, immutable definition, created_at and future deadline are required") ;;
  guard_err (negb (bool_decide (cc_Purpose command = RunPurposeTest))
             && negb (bool_decide (cc_Purpose command = RunPurposeProduction)))
    (invalid_run "run purpose is invalid") ;;
  guard_err (negb (bool_decide (dr_Source def = DefinitionDraftSnapshot))
             && negb (bool_decide (dr_Source def = DefinitionPublishedVersion)))
    (invalid_run "definition source is invalid") ;;
  guard_err (bool_decide (cc_Purpose command = RunPurposeProduction)
             && negb (bool_decide (dr_Source def = DefinitionPublishedVersion)))
    (invalid_run "production runs require a published version") ;;
  guard_err (bool_decide (dr_Source def = DefinitionPublishedVersion)
             && bool_decide (dr_PublishedVersionID def = ""))
    (invalid_run "published definition source requires version identity") ;;
  guard_err (bool_decide (dr_Source def = DefinitionDraftSnapshot)
             && negb (bool_decide (dr_PublishedVersionID def = "")))
    (invalid_run "draft definition source cannot carry a published version identity") ;;
  match cloneJSONObject (cc_WorkflowInput command) with
  | Err e => Err (invalid_run ("workflow input: " +:+ error_string e))
  | Ok input =>
      Ok (MkWorkflowRun (cc_RunID command) (cc_ProjectID command) (cc_WorkflowID command)
            (cc_Purpose command) def input "" (cc_DeadlineAt command) (cc_CreatedAt command)
            RunPending 1 0 ∅ None)
  end.

Definition WorkflowRun_transition (run : WorkflowRun) (target : RunState) : res WorkflowRun :=
  if negb (validRunTransition (wr_state run) target)
  then Err (TransitionError "workflow_run" (run_state_string (wr_state run)) (run_state_string target))
  else Ok (run <| wr_state := target |> <| wr_stateVersion := u64 (wr_stateVersion run + 1) |>).

(** The loop of [Start] over the identities: no empty one, no duplicate. *)
Fixpoint collect_identities (seen : gset string) (ids : list string) : res (gset string) :=
  match ids with
  | [] => Ok seen
  | id :: rest =>
      guard_err (bool_decide (id = "")) (Errorf "execution node identity is required" []) ;;
      guard_err (bool_decide (id ∈ seen)) (Errorf "execution node identity %q is duplicated" [quote id]) ;;
      collect_identities ({[id]} ∪ seen) rest
  end.

Definition WorkflowRun_Start (run : WorkflowRun) (executionNodeIDs : list string) : res WorkflowRun :=
  guard_err (bool_decide (length executionNodeIDs < 2)%nat)
    (Errorf "a workflow run requires at least start and end node runs" []) ;;
  identities ← collect_identities ∅ executionNodeIDs;
  run ← WorkflowRun_transition run RunRunning;
  Ok (run <| wr_nodeRunCount := u32 (Z.of_nat (length executionNodeIDs)) |>
          <| wr_executionNodeIDs := identities |>).

Definition WorkflowRun_FailInitialization (run : WorkflowRun) (failure : Failure) (at_ : Time)
    : res WorkflowRun :=
  guard_err (negb (bool_decide (wr_state run = RunPending)) || bool_decide (is_Some (wr_termination run))
             || bool_decide (fl_Code failure = "") || IsZero at_ || Before at_ (wr_createdAt run))
    (Errorf "run initialization failure is invalid" []) ;;
  Ok (run <| wr_termination := Some {| ti_Kind := TerminationFailed; ti_RequestedAt := at_; ti_Cause := failure |} |>
          <| wr_state := RunFailed |>
          <| wr_stateVersion := u64 (wr_stateVersion run + 1) |>).

Definition valid_termination_kind (k : TerminationKind) : bool :=
  match k with TerminationFailed | TerminationCanceled | TerminationTimedOut => true | _ => false end.

Definition WorkflowRun_RequestTermination (run : WorkflowRun) (intent : TerminationIntent)
    : res (WorkflowRun * bool) :=
  guard_err (RunState_Terminal (wr_state run)) ErrTerminationFinal ;;
  guard_err (IsZero (ti_RequestedAt intent) || bool_decide (fl_Code (ti_Cause intent) = ""))
    (Errorf "termination intent requires timestamp and cause" []) ;;
  guard_err (Before (ti_RequestedAt intent) (wr_createdAt run))
    (Errorf "termination intent cannot predate the run" []) ;;
  guard_err (negb (valid_termination_kind (ti_Kind intent)))
    (Errorf "termination kind %q is invalid" [quote (termination_kind_string (ti_Kind intent))]) ;;
  guard_err (bool_decide (wr_state run = RunPending) && bool_decide (ti_Kind intent = TerminationFailed))
    (Errorf "pending run only accepts cancellation or deadline timeout" []) ;;
  guard_err (bool_decide (wr_state run = RunPending) && bool_decide (ti_Kind intent = TerminationTimedOut)
             && Before (ti_RequestedAt intent) (wr_deadlineAt run))
    (Errorf "pending run timeout cannot predate its deadline" []) ;;
  match wr_termination run with
  | Some _ => Ok (run, false)
  | None =>
      Ok (run <| wr_termination := Some intent |>
              <| wr_stateVersion := u64 (wr_stateVersion run + 1) |>, true)
  end.

(** The loop of [validateNodeSet] over the Node Runs. *)
Fixpoint check_node_set (run : WorkflowRun) (expected : Z) (seen : gset string) (nodes : list NodeRun)
    : res unit :=
  match nodes with
  | [] => Ok tt
  | node :: rest =>
      guard_err (negb (bool_decide (nr_runID node = wr_id run)) || bool_decide (nr_executionNodeID node = ""))
        (Errorf "node run set contains an invalid identity" []) ;;
      guard_err (bool_decide (nr_executionNodeID node ∈ seen))
        (Errorf "node run set contains a duplicate execution node" []) ;;
      guard_err ((0 <? expected) && negb (bool_decide (nr_executionNodeID node ∈ wr_executionNodeIDs run)))
        (Errorf "node run set contains unexpected execution node %q" [quote (nr_executionNodeID node)]) ;;
      check_node_set run expected ({[nr_executionNodeID node]} ∪ seen) rest
  end.

Definition expected_node_count (run : WorkflowRun) : Z :=
  match wr_state run, wr_termination run with
  | RunPending, Some t =>
      match ti_Kind t with TerminationCanceled | TerminationTimedOut => 0 | _ => wr_nodeRunCount run end
  | _, _ => wr_nodeRunCount run
  end.

Definition validateNodeSet (run : WorkflowRun) (nodes : list NodeRun) : res unit :=
  let expected := expected_node_count run in
  guard_err (negb (u32 (Z.of_nat (length nodes)) =? expected))
    (Errorf "node run set size %d does not match initialized size %d"
       [pretty (Z.of_nat (length nodes)); pretty expected]) ;;
  check_node_set run expected ∅ nodes.

Definition WorkflowRun_CompleteTermination (run : WorkflowRun) (nodes : list NodeRun) : res WorkflowRun :=
  match wr_termination run with
  | None => Err (Errorf "termination intent is required" [])
  | Some intent =>
      validateNodeSet run nodes ;;
      guard_err (negb (forallb (λ node, NodeState_Terminal (nr_state node)) nodes))
        (Errorf "all node runs must be terminal before run termination" []) ;;
      match ti_Kind intent with
      | TerminationFailed => WorkflowRun_transition run RunFailed
      | TerminationCanceled => WorkflowRun_transition run RunCanceled
      | TerminationTimedOut => WorkflowRun_transition run RunTimedOut
      | TerminationKindOther k => Err (Errorf "termination kind %q is invalid" [quote k])
      end
  end.

Definition succeeded_or_skipped (s : NodeState) : bool :=
  match s with NodeSucceeded | NodeSkipped => true | _ => false end.

(** [CompleteWorkflowSuccess] updates the run and its End node together. *)
Definition CompleteWorkflowSuccess (run : WorkflowRun) (end_ : NodeRun) (nodes : list NodeRun) (output : string)
    : res (WorkflowRun * NodeRun) :=
  guard_err (negb (bool_decide (wr_state run = RunRunning)) || bool_decide (is_Some (wr_termination run))
             || negb (bool_decide (nr_kind end_ = NodeControl)) || negb (nr_activated end_)
             || negb (bool_decide (nr_state end_ = NodePending)))
    (Errorf "workflow success preconditions are not met" []) ;;
  validateNodeSet run nodes ;;
  guard_err (negb (forallb (λ node,
      bool_decide (nr_executionNodeID node = nr_executionNodeID end_)
      || succeeded_or_skipped (nr_state node)) nodes))
    (Errorf "all non-end nodes must be succeeded or skipped" []) ;;
  guard_err (negb (existsb (λ node,
      bool_decide (nr_executionNodeID node = nr_executionNodeID end_)) nodes))
    (Errorf "workflow success node set does not contain end" []) ;;
  object ← cloneJSONObject output;
  guard_err (negb (validNodeTransition (nr_kind end_) (nr_state end_) NodeSucceeded)
             || negb (validRunTransition (wr_state run) RunSucceeded)) ErrInvalidTransition ;;
  Ok (run <| wr_workflowOutput := object |> <| wr_state := RunSucceeded |>
          <| wr_stateVersion := u64 (wr_stateVersion run + 1) |>,
      end_ <| nr_state := NodeSucceeded |> <| nr_stateVersion := u64 (nr_stateVersion end_ + 1) |>).

(** ** Node Attempt *)

(** [ErrorDetails] keeps the distinction between nil and an empty map, which
    [reflect.DeepEqual] observes. *)
Record AttemptResult : Type := MkAttemptResult {
  ar_State : AttemptState;
  ar_Outputs : gmap string string;
  ar_ErrorCode : string;
  ar_Message : string;
  ar_DSLField : string;
  ar_ErrorDetails : option (gmap string json) }.

#[export] Instance AttemptResult_eq_dec : EqDecision AttemptResult.
Proof. solve_decision. Defined.

Definition AttemptResult_Equal (result other : AttemptResult) : bool :=
  if negb (bool_decide (ar_State result = ar_State other))
     || negb (bool_decide (ar_ErrorCode result = ar_ErrorCode other))
     || negb (bool_decide (ar_Message result = ar_Message other))
     || negb (bool_decide (ar_DSLField result = ar_DSLField other))
     || negb (bool_decide (size (ar_Outputs result) = size (ar_Outputs other)))
     || negb (bool_decide (ar_ErrorDetails result = ar_ErrorDetails other))
  then false
  else forallb (λ '(key, value), bool_decide (ar_Outputs other !! key = Some value))
         (map_to_list (ar_Outputs result)).

Record NodeAttempt : Type := MkNodeAttempt {
  na_id : string;
  na_nodeRunID : string;
  na_sequence : Z;
  na_kind : RetryKind;
  na_state : AttemptState;
  na_stateVersion : Z;
  na_result : option AttemptResult }.

#[export] Instance NodeAttempt_eta : Eta NodeAttempt := λ x,
  MkNodeAttempt (na_id x) (na_nodeRunID x) (na_sequence x) (na_kind x) (na_state x)
    (na_stateVersion x) (na_result x).

#[export] Instance NodeAttempt_eq_dec : EqDecision NodeAttempt.
Proof. solve_decision. Defined.

Definition valid_retry_kind (k : RetryKind) : bool :=
  match k with AttemptInitial | AttemptBusiness | AttemptRecovery => true | _ => false end.

Definition NewNodeAttempt (id nodeRunID : string) (sequence : Z) (kind : RetryKind) : res NodeAttempt :=
  if bool_decide (id = "") || bool_decide (nodeRunID = "") || (sequence =? 0) || negb (valid_retry_kind kind)
  then Err (Errorf "invalid attempt identity" [])
  else Ok (MkNodeAttempt id nodeRunID sequence kind AttemptQueued 1 None).

Definition NodeAttempt_transition (attempt : NodeAttempt) (target : AttemptState) : res NodeAttempt :=
  if negb (validAttemptTransition (na_state attempt) target)
  then Err (TransitionError "node_attempt" (attempt_state_string (na_state attempt)) (attempt_state_string target))
  else Ok (attempt <| na_state := target |> <| na_stateVersion := u64 (na_stateVersion attempt + 1) |>).

Definition NodeAttempt_Start (attempt : NodeAttempt) : res NodeAttempt :=
  NodeAttempt_transition attempt AttemptRunning.

Definition NodeAttempt_Complete (attempt : NodeAttempt) (result : AttemptResult) : res NodeAttempt :=
  if AttemptState_Terminal (na_state attempt) then
    match na_result attempt with
    | Some recorded =>
        if AttemptResult_Equal recorded result then Ok attempt
        else Err (TransitionError "node_attempt" (attempt_state_string (na_state attempt))
                    (attempt_state_string (ar_State result)))
    | None => Err (TransitionError "node_attempt" (attempt_state_string (na_state attempt))
                    (attempt_state_string (ar_State result)))
    end
  else
    guard_err (negb (AttemptState_Terminal (ar_State result)))
      (Errorf "attempt result must be terminal" []) ;;
    guard_err (bool_decide (ar_State result = AttemptSucceeded) && negb (bool_decide (ar_ErrorCode result = "")))
      (Errorf "successful attempt cannot contain an error code" []) ;;
    guard_err (negb (bool_decide (ar_State result = AttemptSucceeded)) && bool_decide (ar_ErrorCode result = ""))
      (Errorf "unsuccessful attempt requires an error code" []) ;;
    attempt ← NodeAttempt_transition attempt (ar_State result);
    Ok (attempt <| na_result := Some result |>).

(** ** Persistence records *)

Record WorkflowRunRecord : Type := MkWorkflowRunRecord {
  rr_ID : string;
  rr_ProjectID : string;
  rr_WorkflowID : string;
  rr_TraceID : string;
  rr_Purpose : RunPurpose;
  rr_Definition : DefinitionReference;
  rr_WorkflowInput : string;
  rr_WorkflowOutput : string;
  rr_DeadlineAt : Time;
  rr_CreatedAt : Time;
  rr_State : RunState;
  rr_StateVersion : Z;
  rr_ExecutionNodeIDs : list string;
  rr_Termination : option TerminationIntent;
  rr_CancelRequestedAt : Time }.

Record NodeRunRecord : Type := MkNodeRunRecord {
  nrr_RunID : string;
  nrr_ExecutionNodeID : string;
  nrr_Kind : NodeKind;
  nrr_State : NodeState;
  nrr_StateVersion : Z;
  nrr_Activated : bool;
  nrr_SelectedRoute : string;
  nrr_ResolvedInputs : gmap string string;
  nrr_EffectiveOutputs : gmap string string;
  nrr_EffectiveAttemptID : string;
  nrr_CurrentAttemptID : string;
  nrr_NextAttemptSeq : Z;
  nrr_BusinessAttemptCount : Z;
  nrr_RecoveryCount : Z;
  nrr_NextAttemptKind : RetryKind;
  nrr_NextRetryAt : Time;
  nrr_Failure : option Failure;
  nrr_CancelReason : string }.

#[export] Instance NodeRunRecord_eta : Eta NodeRunRecord := λ x,
  MkNodeRunRecord (nrr_RunID x) (nrr_ExecutionNodeID x) (nrr_Kind x) (nrr_State x)
    (nrr_StateVersion x) (nrr_Activated x) (nrr_SelectedRoute x) (nrr_ResolvedInputs x)
    (nrr_EffectiveOutputs x) (nrr_EffectiveAttemptID x) (nrr_CurrentAttemptID x)
    (nrr_NextAttemptSeq x) (nrr_BusinessAttemptCount x) (nrr_RecoveryCount x)
    (nrr_NextAttemptKind x) (nrr_NextRetryAt x) (nrr_Failure x) (nrr_CancelReason x).

Record NodeAttemptRecord : Type := MkNodeAttemptRecord {
  nar_ID : string;
  nar_NodeRunID : string;
  nar_Sequence : Z;
  nar_Kind : RetryKind;
  nar_State : AttemptState;
  nar_StateVersion : Z;
  nar_Result : option AttemptResult }.

(** The identities are written in increasing order; the trace and the
    cancellation time are columns the aggregate does not hold. *)
Definition WorkflowRun_Snapshot (run : WorkflowRun) : WorkflowRunRecord :=
  MkWorkflowRunRecord (wr_id run) (wr_projectID run) (wr_workflowID run) "" (wr_purpose run)
    (wr_definition run) (wr_workflowInput run) (wr_workflowOutput run) (wr_deadlineAt run)
    (wr_createdAt run) (wr_state run) (wr_stateVersion run)
    (sort_strings (elements (wr_executionNodeIDs run))) (wr_termination run) 0.

Definition record_command (record : WorkflowRunRecord) : CreateRunCommand :=
  {| cc_RunID := rr_ID record; cc_ProjectID := rr_ProjectID record;
     cc_WorkflowID := rr_WorkflowID record; cc_Purpose := rr_Purpose record;
     cc_Definition := rr_Definition record; cc_WorkflowInput := rr_WorkflowInput record;
     cc_DeadlineAt := rr_DeadlineAt record; cc_CreatedAt := rr_CreatedAt record |}.

Fixpoint restore_identities (seen : gset string) (ids : list string) : res (gset string) :=
  match ids with
  | [] => Ok seen
  | id :: rest =>
      guard_err (bool_decide (id = "")) (invalid_run "persisted execution node identity is empty") ;;
      guard_err (bool_decide (id ∈ seen)) (invalid_run "persisted execution node identity is duplicated") ;;
      restore_identities ({[id]} ∪ seen) rest
  end.

Definition restore_output (record : WorkflowRunRecord) : res string :=
  if bool_decide (rr_WorkflowOutput record = "") then Ok ""
  else
    match cloneJSONObject (rr_WorkflowOutput record) with
    | Err e => Err (invalid_run ("workflow output: " +:+ error_string e))
    | Ok output => Ok output
    end.

Definition RestoreWorkflowRun (record : WorkflowRunRecord) : res WorkflowRun :=
  guard_err (bool_decide (rr_ID record = "") || bool_decide (rr_ProjectID record = "")
             || bool_decide (rr_WorkflowID record = "") || (rr_StateVersion record =? 0))
    (invalid_run "persisted run identity and version are required") ;;
  base ← NewWorkflowRun (record_command record);
  let state := rr_State record in
  let ids := rr_ExecutionNodeIDs record in
  guard_err (negb (bool_decide (state = RunPending)) && negb (bool_decide (state = RunRunning))
             && negb (RunState_Terminal state))
    (invalid_run "persisted run state is invalid") ;;
  guard_err (bool_decide (state = RunPending) && negb (bool_decide (length ids = 0%nat)))
    (invalid_run "pending run cannot contain initialized nodes") ;;
  let initializationFailed :=
    bool_decide (state = RunFailed) && bool_decide (length ids = 0%nat)
    && bool_decide (is_Some (rr_Termination record)) in
  let uninitializedTermination :=
    (bool_decide (state = RunCanceled) || bool_decide (state = RunTimedOut))
    && bool_decide (length ids = 0%nat) && bool_decide (is_Some (rr_Termination record)) in
  guard_err (negb (bool_decide (state = RunPending)) && negb initializationFailed
             && negb uninitializedTermination && bool_decide (length ids < 2)%nat)
    (invalid_run "initialized run requires its complete node identity set") ;;
  identities ← restore_identities ∅ ids;
  output ← restore_output record;
  guard_err (RunState_Terminal state && negb (bool_decide (state = RunSucceeded))
             && negb (bool_decide (is_Some (rr_Termination record))))
    (invalid_run "unsuccessful terminal run requires termination intent") ;;
  guard_err (bool_decide (state = RunSucceeded)
             && (bool_decide (is_Some (rr_Termination record)) || bool_decide (output = "")))
    (invalid_run "succeeded run has invalid terminal facts") ;;
  Ok (base <| wr_workflowOutput := output |> <| wr_state := state |>
           <| wr_stateVersion := rr_StateVersion record |>
           <| wr_nodeRunCount := u32 (Z.of_nat (size identities)) |>
           <| wr_executionNodeIDs := identities |>
           <| wr_termination := rr_Termination record |>).

Definition NodeRun_Snapshot (node : NodeRun) : NodeRunRecord :=
  MkNodeRunRecord (nr_runID node) (nr_executionNodeID node) (nr_kind node) (nr_state node)
    (nr_stateVersion node) (nr_activated node) (nr_selectedRoute node) (nr_resolvedInputs node)
    (nr_effectiveOutputs node) (nr_effectiveAttemptID node) (nr_currentAttemptID node)
    (nr_nextAttemptSeq node) (nr_businessAttemptCount node) (nr_recoveryCount node)
    (nr_nextAttemptKind node) (nr_nextRetryAt node) (nr_failure node) (nr_cancelReason node).

Definition validPersistedNodeState (s : NodeState) : bool :=
  match s with NodeStateOther _ => false | _ => true end.

Definition validPersistedAttemptState (s : AttemptState) : bool :=
  match s with AttemptStateOther _ => false | _ => true end.

Definition RestoreNodeRun (record : NodeRunRecord) : res NodeRun :=
  NewNodeRun (nrr_RunID record) (nrr_ExecutionNodeID record) (nrr_Kind record) ;;
  guard_err ((nrr_StateVersion record =? 0) || negb (validPersistedNodeState (nrr_State record)))
    (Errorf "invalid persisted node run state" []) ;;
  guard_err (bool_decide (nrr_State record = NodeSkipped) && nrr_Activated record) ErrActivatedNodeSkipped ;;
  guard_err (negb (bool_decide (nrr_EffectiveAttemptID record = ""))
             && negb (bool_decide (nrr_State record = NodeSucceeded)))
    (Errorf "only succeeded node can expose an effective attempt" []) ;;
  guard_err (bool_decide (nrr_Kind record = NodeControl)
             && (negb (bool_decide (nrr_CurrentAttemptID record = ""))
                 || negb (bool_decide (nrr_EffectiveAttemptID record = ""))
                 || negb (nrr_NextAttemptSeq record =? 0))) ErrControlAttempt ;;
  guard_err (negb (valid_retry_kind (nrr_NextAttemptKind record)))
    (Errorf "invalid persisted next attempt kind" []) ;;
  Ok (MkNodeRun (nrr_RunID record) (nrr_ExecutionNodeID record) (nrr_Kind record) (nrr_State record)
        (nrr_StateVersion record) (nrr_Activated record) (nrr_SelectedRoute record)
        (nrr_ResolvedInputs record) (nrr_EffectiveOutputs record) (nrr_EffectiveAttemptID record)
        (nrr_CurrentAttemptID record) (nrr_NextAttemptSeq record) (nrr_BusinessAttemptCount record)
        (nrr_RecoveryCount record) (nrr_NextAttemptKind record) (nrr_NextRetryAt record)
        (nrr_Failure record) (nrr_CancelReason record)).

Definition NodeAttempt_Snapshot (attempt : NodeAttempt) : NodeAttemptRecord :=
  MkNodeAttemptRecord (na_id attempt) (na_nodeRunID attempt) (na_sequence attempt) (na_kind attempt)
    (na_state attempt) (na_stateVersion attempt) (na_result attempt).

Definition RestoreNodeAttempt (record : NodeAttemptRecord) : res NodeAttempt :=
  attempt ← NewNodeAttempt (nar_ID record) (nar_NodeRunID record) (nar_Sequence record) (nar_Kind record);
  guard_err ((nar_StateVersion record =? 0) || negb (validPersistedAttemptState (nar_State record)))
    (Errorf "invalid persisted attempt state" []) ;;
  guard_err (negb (eqb (AttemptState_Terminal (nar_State record)) (bool_decide (is_Some (nar_Result record)))))
    (Errorf "persisted attempt terminal state and result disagree" []) ;;
  match nar_Result record with
  | None => Ok (attempt <| na_state := nar_State record |> <| na_stateVersion := nar_StateVersion record |>)
  | Some result =>
      guard_err (negb (bool_decide (ar_State result = nar_State record)))
        (Errorf "persisted attempt result state disagrees with attempt" []) ;;
      Ok (attempt <| na_state := nar_State record |> <| na_stateVersion := nar_StateVersion record |>
                  <| na_result := Some result |>)
  end.

(** ** The aggregates as state machines

    The methods of each aggregate as one labelled step, so that invariants are
    proved by induction on the calls a caller may make in any order. *)

Inductive NodeOp : Type :=
  | OpActivate
  | OpReady (inputs : gmap string string)
  | OpSkip
  | OpSucceedControl (route : string) (outputs : gmap string string)
  | OpFailControl (failure : Failure)
  | OpFailBeforeAttempt (failure : Failure)
  | OpQueueAttempt (attemptID : string)
  | OpAttemptStarted (attemptID : string)
  | OpRetryWait (attemptID : string) (next : RetryKind) (dueAt : Time)
  | OpRetryDue (at_ : Time)
  | OpSucceedAttempt (attemptID : string) (outputs : gmap string string)
  | OpFailAttempt (attemptID : string) (target : NodeState) (failure : Failure)
  | OpCancel (reason : string).

Definition node_apply (op : NodeOp) (node : NodeRun) : res NodeRun :=
  match op with
  | OpActivate => NodeRun_Activate node
  | OpReady inputs => NodeRun_Ready node inputs
  | OpSkip => NodeRun_Skip node
  | OpSucceedControl route outputs => NodeRun_SucceedControl node route outputs
  | OpFailControl failure => NodeRun_FailControl node failure
  | OpFailBeforeAttempt failure => NodeRun_FailBeforeAttempt node failure
  | OpQueueAttempt attemptID => fst <$> NodeRun_QueueAttempt node attemptID
  | OpAttemptStarted attemptID => NodeRun_AttemptStarted node attemptID
  | OpRetryWait attemptID next dueAt => NodeRun_RetryWait node attemptID next dueAt
  | OpRetryDue at_ => fst <$> NodeRun_RetryDue node at_
  | OpSucceedAttempt attemptID outputs => NodeRun_SucceedAttempt node attemptID outputs
  | OpFailAttempt attemptID target failure => NodeRun_FailAttempt node attemptID target failure
  | OpCancel reason => NodeRun_Cancel node reason
  end.

Inductive node_reachable (runID id : string) (kind : NodeKind) : NodeRun → Prop :=
  | node_new node : NewNodeRun runID id kind = Ok node → node_reachable runID id kind node
  | node_step node op node' :
      node_reachable runID id kind node → node_apply op node = Ok node' →
      node_reachable runID id kind node'.

(** The facts a Node Run carries in each state of its lifecycle. *)
Definition node_state_facts (node : NodeRun) : Prop :=
  match nr_state node with
  | NodePending =>
      nr_currentAttemptID node = "" ∧ nr_effectiveAttemptID node = "" ∧
      nr_failure node = None ∧ nr_cancelReason node = ""
  | NodeReady =>
      nr_kind node = NodeTask ∧ nr_activated node = true ∧
      nr_effectiveAttemptID node = "" ∧ nr_failure node = None ∧ nr_cancelReason node = ""
  | NodeQueued | NodeRunning | NodeRetryWait =>
      nr_kind node = NodeTask ∧ nr_activated node = true ∧ nr_currentAttemptID node ≠ "" ∧
      nr_effectiveAttemptID node = "" ∧ nr_failure node = None ∧ nr_cancelReason node = ""
  | NodeSucceeded =>
      nr_activated node = true ∧ nr_failure node = None ∧ nr_cancelReason node = "" ∧
      (nr_kind node = NodeTask →
        nr_effectiveAttemptID node ≠ "" ∧ nr_effectiveAttemptID node = nr_currentAttemptID node)
  | NodeFailed | NodeTimedOut =>
      nr_effectiveAttemptID node = "" ∧ is_Some (nr_failure node) ∧ nr_cancelReason node = ""
  | NodeSkipped =>
      nr_activated node = false ∧ nr_currentAttemptID node = "" ∧ nr_effectiveAttemptID node = "" ∧
      nr_failure node = None ∧ nr_cancelReason node = ""
  | NodeCanceled =>
      nr_effectiveAttemptID node = "" ∧ nr_failure node = None ∧ nr_cancelReason node ≠ ""
  | NodeStateOther _ => False
  end.

(** What every Node Run satisfies, whatever calls produced it. *)
Record node_wf (node : NodeRun) : Prop := {
  nwf_ids : nr_runID node ≠ "" ∧ nr_executionNodeID node ≠ "";
  nwf_kind : nr_kind node = NodeControl ∨ nr_kind node = NodeTask;
  nwf_control : nr_kind node = NodeControl →
    nr_currentAttemptID node = "" ∧ nr_effectiveAttemptID node = "" ∧ nr_nextAttemptSeq node = 0;
  nwf_facts : node_state_facts node;
  nwf_next : valid_retry_kind (nr_nextAttemptKind node) = true;
  nwf_counts : nr_nextAttemptSeq node = u32 (nr_businessAttemptCount node + nr_recoveryCount node) }.

(** *** Node Run lemmas *)

Lemma NodeRun_transition_Ok node target node' :
  NodeRun_transition node target = Ok node' ↔
  validNodeTransition (nr_kind node) (nr_state node) target = true ∧
  node' = node <| nr_state := target |> <| nr_stateVersion := u64 (nr_stateVersion node + 1) |>.
Proof. unfold NodeRun_transition. destruct (validNodeTransition _ _ _); naive_solver. Qed.

Lemma u32_add_l a b : u32 (u32 a + b) = u32 (a + b).
Proof. unfold u32. by rewrite Zplus_mod_idemp_l. Qed.
Lemma u32_add_r a b : u32 (a + u32 b) = u32 (a + b).
Proof. unfold u32. by rewrite Zplus_mod_idemp_r. Qed.

Lemma node_wf_new runID id kind node : NewNodeRun runID id kind = Ok node → node_wf node.
Proof.
  unfold NewNodeRun. case_match eqn:E; [done|]. intros [= <-]. bool_prop.
  destruct kind; simpl in *; try done; split; simpl; try done; naive_solver.
Qed.

Ltac unfold_node_op H :=
  unfold NodeRun_Activate, NodeRun_Ready, NodeRun_Skip, NodeRun_SucceedControl, NodeRun_FailControl,
    NodeRun_FailBeforeAttempt, NodeRun_QueueAttempt, NodeRun_AttemptStarted, NodeRun_RetryWait,
    NodeRun_RetryDue, NodeRun_SucceedAttempt, NodeRun_FailAttempt, NodeRun_Cancel in H.

(** The successful outcomes of one call: unchanged, or one transition. *)
Lemma node_apply_fmap {A} (r : res (NodeRun * A)) node' :
  fst <$> r = Ok node' → ∃ a, r = Ok (node', a).
Proof. destruct r as [[n a]|]; simpl; [|done]. intros [= <-]. eauto. Qed.

(** The guards and the transition behind a successful call. *)
Ltac node_op_inv H :=
  simpl in H; unfold_node_op H; try apply node_apply_fmap in H as [? H];
  try match type of H with (if ?b then _ else _) = _ => destruct b eqn:? end;
  res_inv;
  try match type of H with (if ?b then _ else _) = _ => destruct b eqn:? end;
  repeat match goal with
   | H : NodeRun_transition _ _ = Ok _ |- _ => apply NodeRun_transition_Ok in H as [? ->]
   end; bool_prop; simplify_eq/=.

Lemma node_wf_step node op node' : node_wf node → node_apply op node = Ok node' → node_wf node'.
Proof.
  intros Hwf H. destruct op; node_op_inv H; try exact Hwf.
  all: destruct Hwf as [Hids Hkind Hctl Hfacts Hnext Hcnt]; unfold node_state_facts in Hfacts.
  all: try match goal with Hv : validNodeTransition _ _ _ = true |- _ => unfold validNodeTransition in Hv end.
  all: destruct Hkind as [Hk|Hk]; rewrite ?Hk in *; try done;
    destruct (nr_state node) eqn:Hs; try done; destruct_and?.
  all: try specialize (Hctl eq_refl) as (? & ? & ?).
  all: try match goal with t : NodeState |- _ => destruct t; try done end.
  all: try match goal with t : RetryKind |- _ => destruct t; try done end.
  all: try case_bool_decide.
  all: split; unfold node_state_facts; simpl; rewrite ?Hk, ?Hs; try done; intros; split_and?; try done; eauto.
  all: rewrite ?Hcnt, ?u32_add_l, ?u32_add_r; try (f_equal; lia).
Qed.

Lemma node_wf_reachable runID id kind node : node_reachable runID id kind node → node_wf node.
Proof. induction 1; eauto using node_wf_new, node_wf_step. Qed.

(** One call leaves the Node Run as it is, or moves it by at most one edge of
    the transition table and raises the version by one. *)
Lemma node_apply_step node op node' :
  node_apply op node = Ok node' →
  node' = node ∨
  nr_stateVersion node' = u64 (nr_stateVersion node + 1) ∧
  (nr_state node' = nr_state node ∨
   validNodeTransition (nr_kind node) (nr_state node) (nr_state node') = true) ∧
  nr_runID node' = nr_runID node ∧ nr_executionNodeID node' = nr_executionNodeID node ∧
  nr_kind node' = nr_kind node.
Proof.
  intros H. destruct op; node_op_inv H; try by left.
  all: try case_bool_decide; right; simpl; split_and!; try done; first [by left | by right].
Qed.

Lemma validNodeTransition_source kind from to :
  validNodeTransition kind from to = true → NodeState_Terminal from = false.
Proof. destruct kind, from; try done; destruct to; done. Qed.

Lemma node_apply_terminal node op node' :
  NodeState_Terminal (nr_state node) = true → node_apply op node = Ok node' → node' = node.
Proof.
  intros Ht H. destruct op; node_op_inv H; try done;
  try match goal with Hv : validNodeTransition _ _ _ = true |- _ =>
    apply validNodeTransition_source in Hv; congruence end.
  by match goal with Hs : nr_state node = NodePending |- _ => rewrite Hs in Ht end.
Qed.

Lemma RestoreNodeRun_Snapshot node :
  node_wf node → nr_stateVersion node ≠ 0 → RestoreNodeRun (NodeRun_Snapshot node) = Ok node.
Proof.
  intros [[? ?] Hkind Hctl Hfacts Hnext _] Hv.
  unfold RestoreNodeRun, NewNodeRun, NodeRun_Snapshot; simpl.
  rewrite (bool_decide_eq_false_2 (nr_runID node = "")),
    (bool_decide_eq_false_2 (nr_executionNodeID node = "")) by done.
  rewrite (proj2 (Z.eqb_neq _ _) Hv), Hnext. unfold node_state_facts in Hfacts.
  destruct node; simpl in *.
  destruct Hkind as [-> | ->]; [destruct (Hctl eq_refl) as (-> & -> & ->)|];
    match goal with st : NodeState |- _ => destruct st end; try done; destruct_and?; simplify_eq/=; try done.
  by rewrite andb_false_r.
Qed.

(** *** Node Attempt lemmas *)

Inductive AttemptOp : Type :=
  | OpStart
  | OpComplete (result : AttemptResult).

Definition attempt_apply (op : AttemptOp) (attempt : NodeAttempt) : res NodeAttempt :=
  match op with
  | OpStart => NodeAttempt_Start attempt
  | OpComplete result => NodeAttempt_Complete attempt result
  end.

Inductive attempt_reachable (id nodeRunID : string) (sequence : Z) (kind : RetryKind)
    : NodeAttempt → Prop :=
  | attempt_new attempt :
      NewNodeAttempt id nodeRunID sequence kind = Ok attempt →
      attempt_reachable id nodeRunID sequence kind attempt
  | attempt_step attempt op attempt' :
      attempt_reachable id nodeRunID sequence kind attempt →
      attempt_apply op attempt = Ok attempt' →
      attempt_reachable id nodeRunID sequence kind attempt'.

(** An attempt holds a result exactly when it is terminal; the result carries
    the state, and an error code unless it succeeded. *)
Record attempt_wf (attempt : NodeAttempt) : Prop := {
  awf_ids : na_id attempt ≠ "" ∧ na_nodeRunID attempt ≠ "" ∧ na_sequence attempt ≠ 0;
  awf_kind : valid_retry_kind (na_kind attempt) = true;
  awf_state : validPersistedAttemptState (na_state attempt) = true;
  awf_result :
    match na_result attempt with
    | Some r =>
        AttemptState_Terminal (na_state attempt) = true ∧ ar_State r = na_state attempt ∧
        (ar_State r = AttemptSucceeded ↔ ar_ErrorCode r = "")
    | None => AttemptState_Terminal (na_state attempt) = false
    end }.

Lemma AttemptResult_Equal_eq r1 r2 : AttemptResult_Equal r1 r2 = true ↔ r1 = r2.
Proof.
  unfold AttemptResult_Equal. split.
  - destruct (_ || _) eqn:E; [done|]. bool_prop. rewrite forallb_forall.
    intros Hall. destruct r1, r2; simpl in *. f_equal; try done.
    apply map_subseteq_size_eq; [|by apply Nat.eq_le_incl]. apply map_subseteq_spec. intros k v Hk.
    specialize (Hall (k, v)). rewrite <-list_elem_of_In, elem_of_map_to_list in Hall.
    by apply Hall, bool_decide_eq_true in Hk.
  - intros ->. rewrite !bool_decide_eq_true_2 by done. simpl. apply forallb_forall.
    intros [k v] Hk%list_elem_of_In%elem_of_map_to_list. by apply bool_decide_eq_true.
Qed.

Lemma NodeAttempt_transition_Ok attempt target attempt' :
  NodeAttempt_transition attempt target = Ok attempt' ↔
  validAttemptTransition (na_state attempt) target = true ∧
  attempt' = attempt <| na_state := target |> <| na_stateVersion := u64 (na_stateVersion attempt + 1) |>.
Proof. unfold NodeAttempt_transition. destruct (validAttemptTransition _ _); naive_solver. Qed.

Lemma NodeAttempt_Complete_Ok attempt result attempt' :
  NodeAttempt_Complete attempt result = Ok attempt' →
  (AttemptState_Terminal (na_state attempt) = true ∧ na_result attempt = Some result ∧ attempt' = attempt) ∨
  (AttemptState_Terminal (ar_State result) = true ∧
   (ar_State result = AttemptSucceeded ↔ ar_ErrorCode result = "") ∧
   validAttemptTransition (na_state attempt) (ar_State result) = true ∧
   attempt' = attempt <| na_state := ar_State result |>
     <| na_stateVersion := u64 (na_stateVersion attempt + 1) |> <| na_result := Some result |>).
Proof.
  unfold NodeAttempt_Complete. intros H. destruct (AttemptState_Terminal (na_state attempt)).
  - left. destruct (na_result attempt) as [r|]; [|done].
    destruct (AttemptResult_Equal r result) eqn:E; [|done].
    apply AttemptResult_Equal_eq in E as ->. by simplify_eq.
  - right. res_inv.
    match goal with Ht : NodeAttempt_transition _ _ = Ok _ |- _ =>
      apply NodeAttempt_transition_Ok in Ht as [? ->] end.
    bool_prop. subst attempt'. split_and!; try done. repeat case_bool_decide; naive_solver.
Qed.

Lemma attempt_wf_step attempt op attempt' :
  attempt_wf attempt → attempt_apply op attempt = Ok attempt' → attempt_wf attempt'.
Proof.
  intros Hwf H. destruct op as [|result]; simpl in H.
  - apply NodeAttempt_transition_Ok in H as [Hv ->]. destruct Hwf as [? ? ? Hr].
    split; simpl; try done. destruct (na_result attempt) as [r|]; [|done].
    destruct Hr as (Ht & _). by destruct (na_state attempt).
  - apply NodeAttempt_Complete_Ok in H as [(_ & _ & ->)|(Ht & Hc & Hv & ->)]; [done|].
    destruct Hwf as [? ? ? Hr]. split; simpl; try done. by destruct (ar_State result).
Qed.

Lemma attempt_wf_reachable id nodeRunID sequence kind attempt :
  attempt_reachable id nodeRunID sequence kind attempt → attempt_wf attempt.
Proof.
  induction 1 as [attempt H|]; [|eauto using attempt_wf_step].
  unfold NewNodeAttempt in H. case_match eqn:E; [done|]. simplify_eq. bool_prop.
  by split.
Qed.

(** The recorded result never changes. *)
Lemma attempt_result_stable attempt op attempt' r :
  attempt_wf attempt → na_result attempt = Some r →
  attempt_apply op attempt = Ok attempt' → attempt' = attempt ∧ (∀ r', op = OpComplete r' → r' = r).
Proof.
  intros [_ _ _ Hwf] Hr H. rewrite Hr in Hwf. destruct Hwf as (Ht & _). destruct op as [|r']; simpl in H.
  - apply NodeAttempt_transition_Ok in H as [Hv _]. by destruct (na_state attempt).
  - apply NodeAttempt_Complete_Ok in H as [(_ & Hr' & ->)|(_ & _ & Hv & _)].
    + split; [done|]. intros r'' [= <-]. congruence.
    + by destruct (na_state attempt).
Qed.

Lemma RestoreNodeAttempt_Snapshot attempt :
  attempt_wf attempt → na_stateVersion attempt ≠ 0 →
  RestoreNodeAttempt (NodeAttempt_Snapshot attempt) = Ok attempt.
Proof.
  intros [(? & ? & ?) Hk Hs Hr] Hv.
  unfold RestoreNodeAttempt, NewNodeAttempt, NodeAttempt_Snapshot; simpl.
  rewrite (bool_decide_eq_false_2 (na_id attempt = "")),
    (bool_decide_eq_false_2 (na_nodeRunID attempt = "")), !(proj2 (Z.eqb_neq _ _)), Hk, Hs by done. simpl.
  destruct attempt as [? ? ? ? ? ? [r|]]; simpl in *.
  - destruct Hr as (-> & -> & _). rewrite !bool_decide_eq_true_2 by eauto. done.
  - by rewrite Hr.
Qed.

(** *** Workflow Run lemmas *)

Inductive RunOp : Type :=
  | OpRunStart (executionNodeIDs : list string)
  | OpFailInitialization (failure : Failure) (at_ : Time)
  | OpRequestTermination (intent : TerminationIntent)
  | OpCompleteTermination (nodes : list NodeRun)
  | OpCompleteSuccess (end_ : NodeRun) (nodes : list NodeRun) (output : string).

Definition run_apply (op : RunOp) (run : WorkflowRun) : res WorkflowRun :=
  match op with
  | OpRunStart ids => WorkflowRun_Start run ids
  | OpFailInitialization failure at_ => WorkflowRun_FailInitialization run failure at_
  | OpRequestTermination intent => fst <$> WorkflowRun_RequestTermination run intent
  | OpCompleteTermination nodes => WorkflowRun_CompleteTermination run nodes
  | OpCompleteSuccess end_ nodes output => fst <$> CompleteWorkflowSuccess run end_ nodes output
  end.

Inductive run_reachable (command : CreateRunCommand) : WorkflowRun → Prop :=
  | run_new run : NewWorkflowRun command = Ok run → run_reachable command run
  | run_step run op run' :
      run_reachable command run → run_apply op run = Ok run' → run_reachable command run'.

Definition terminated_as (run : WorkflowRun) (kind : TerminationKind) : Prop :=
  match wr_termination run with Some t => ti_Kind t = kind | None => False end.

(** The facts a Workflow Run carries in each of its states. *)
Definition run_state_facts (run : WorkflowRun) : Prop :=
  match wr_state run with
  | RunPending =>
      wr_executionNodeIDs run = ∅ ∧ wr_workflowOutput run = "" ∧
      (wr_termination run = None ∨ terminated_as run TerminationCanceled ∨ terminated_as run TerminationTimedOut)
  | RunRunning =>
      (2 ≤ size (wr_executionNodeIDs run))%nat ∧ wr_workflowOutput run = "" ∧
      match wr_termination run with Some t => valid_termination_kind (ti_Kind t) = true | None => True end
  | RunSucceeded =>
      (2 ≤ size (wr_executionNodeIDs run))%nat ∧ wr_termination run = None ∧
      cloneJSONObject (wr_workflowOutput run) = Ok (wr_workflowOutput run)
  | RunFailed => terminated_as run TerminationFailed ∧ wr_workflowOutput run = ""
  | RunCanceled => terminated_as run TerminationCanceled ∧ wr_workflowOutput run = ""
  | RunTimedOut => terminated_as run TerminationTimedOut ∧ wr_workflowOutput run = ""
  | RunStateOther _ => False
  end.

Record run_wf (command : CreateRunCommand) (run : WorkflowRun) : Prop := {
  rwf_origin : NewWorkflowRun command =
    Ok (run <| wr_workflowOutput := "" |> <| wr_state := RunPending |> <| wr_stateVersion := 1 |>
            <| wr_nodeRunCount := 0 |> <| wr_executionNodeIDs := ∅ |> <| wr_termination := None |>);
  rwf_ids : "" ∉ wr_executionNodeIDs run ∧ (size (wr_executionNodeIDs run) = 0%nat ∨ (2 ≤ size (wr_executionNodeIDs run))%nat);
  rwf_count : wr_nodeRunCount run = u32 (Z.of_nat (size (wr_executionNodeIDs run)));
  rwf_facts : run_state_facts run }.

Lemma WorkflowRun_transition_Ok run target run' :
  WorkflowRun_transition run target = Ok run' ↔
  validRunTransition (wr_state run) target = true ∧
  run' = run <| wr_state := target |> <| wr_stateVersion := u64 (wr_stateVersion run + 1) |>.
Proof. unfold WorkflowRun_transition. destruct (validRunTransition _ _); naive_solver. Qed.

Lemma cloneJSONObject_id raw r : cloneJSONObject raw = Ok r → r = raw.
Proof. unfold cloneJSONObject. repeat case_match; naive_solver. Qed.

Lemma cloneJSONObject_empty : cloneJSONObject "" = Err (Errorf "value is not valid JSON" []).
Proof. reflexivity. Qed.

Lemma collect_identities_Ok seen ids s :
  collect_identities seen ids = Ok s ↔
  "" ∉ ids ∧ NoDup ids ∧ (∀ x, x ∈ ids → x ∉ seen) ∧ s = list_to_set ids ∪ seen.
Proof.
  revert seen. induction ids as [|id ids IH]; intros seen; simpl.
  - rewrite (left_id_L ∅ (∪)). split; [|naive_solver]. intros [= ->].
    split_and!; [set_solver|constructor|set_solver|done].
  - rewrite !bind_guard, IH, !bool_decide_eq_false, NoDup_cons. split.
    + intros (? & ? & ? & ? & Hs & ->). split_and!; try set_solver.
    + intros (? & (? & ?) & Hs & ->). split_and!; try set_solver.
Qed.

Lemma restore_identities_Ok seen ids s :
  restore_identities seen ids = Ok s ↔
  "" ∉ ids ∧ NoDup ids ∧ (∀ x, x ∈ ids → x ∉ seen) ∧ s = list_to_set ids ∪ seen.
Proof.
  rewrite <-collect_identities_Ok. revert seen.
  induction ids as [|id ids IH]; intros seen; simpl; [done|]. by rewrite !bind_guard, IH.
Qed.

Lemma size_list_to_set_string (ids : list string) :
  NoDup ids → size (list_to_set ids : gset string) = length ids.
Proof. apply size_list_to_set. Qed.

Lemma NewWorkflowRun_Ok command run :
  NewWorkflowRun command = Ok run →
  run = MkWorkflowRun (cc_RunID command) (cc_ProjectID command) (cc_WorkflowID command)
          (cc_Purpose command) (cc_Definition command) (cc_WorkflowInput command) ""
          (cc_DeadlineAt command) (cc_CreatedAt command) RunPending 1 0 ∅ None ∧
  cc_RunID command ≠ "" ∧ cc_ProjectID command ≠ "" ∧ cc_WorkflowID command ≠ "" ∧
  cc_CreatedAt command ≠ 0 ∧ cc_CreatedAt command < cc_DeadlineAt command.
Proof.
  unfold NewWorkflowRun, IsZero, After. intros H. res_inv.
  destruct (cloneJSONObject _) as [i|] eqn:Hi; [|done].
  apply cloneJSONObject_id in Hi as ->. bool_prop. simplify_eq. by split_and!.
Qed.

Lemma run_wf_new command run : NewWorkflowRun command = Ok run → run_wf command run.
Proof.
  intros H. pose proof (NewWorkflowRun_Ok _ _ H) as (-> & _).
  split; [done| | |unfold run_state_facts; simpl; eauto]; [|done].
  split; [set_solver|by left].
Qed.

Lemma RequestTermination_Ok run intent run' applied :
  WorkflowRun_RequestTermination run intent = Ok (run', applied) →
  RunState_Terminal (wr_state run) = false ∧ valid_termination_kind (ti_Kind intent) = true ∧
  (wr_state run = RunPending → ti_Kind intent ≠ TerminationFailed) ∧
  ((is_Some (wr_termination run) ∧ applied = false ∧ run' = run) ∨
   (wr_termination run = None ∧ applied = true ∧
    run' = run <| wr_termination := Some intent |> <| wr_stateVersion := u64 (wr_stateVersion run + 1) |>)).
Proof.
  unfold WorkflowRun_RequestTermination. intros H. res_inv. bool_prop.
  split_and!; try done.
  - intros Hp Hk. by rewrite Hp, Hk in *.
  - destruct (wr_termination run); simplify_eq; eauto.
Qed.

Lemma CompleteTermination_Ok run nodes run' :
  WorkflowRun_CompleteTermination run nodes = Ok run' →
  ∃ intent target, wr_termination run = Some intent ∧
    (ti_Kind intent, target) ∈ [(TerminationFailed, RunFailed); (TerminationCanceled, RunCanceled);
                               (TerminationTimedOut, RunTimedOut)] ∧
    Forall (λ node, NodeState_Terminal (nr_state node) = true) nodes ∧
    validRunTransition (wr_state run) target = true ∧
    run' = run <| wr_state := target |> <| wr_stateVersion := u64 (wr_stateVersion run + 1) |>.
Proof.
  unfold WorkflowRun_CompleteTermination. destruct (wr_termination run) as [t|]; [|done].
  intros H. res_inv. bool_prop.
  match goal with Hf : forallb _ _ = true |- _ => rewrite forallb_forall in Hf end.
  assert (Forall (λ node, NodeState_Terminal (nr_state node) = true) nodes).
  { apply Forall_forall. setoid_rewrite list_elem_of_In. done. }
  exists t. destruct (ti_Kind t) eqn:Hk; try done; apply WorkflowRun_transition_Ok in H as [? ->];
    eexists; split_and!; try done; set_solver.
Qed.

Lemma CompleteWorkflowSuccess_Ok run end_ nodes output run' end' :
  CompleteWorkflowSuccess run end_ nodes output = Ok (run', end') →
  wr_state run = RunRunning ∧ wr_termination run = None ∧
  nr_kind end_ = NodeControl ∧ nr_activated end_ = true ∧ nr_state end_ = NodePending ∧
  Forall (λ node, nr_executionNodeID node = nr_executionNodeID end_ ∨
                  succeeded_or_skipped (nr_state node) = true) nodes ∧
  cloneJSONObject output = Ok output ∧
  run' = run <| wr_workflowOutput := output |> <| wr_state := RunSucceeded |>
             <| wr_stateVersion := u64 (wr_stateVersion run + 1) |> ∧
  end' = end_ <| nr_state := NodeSucceeded |> <| nr_stateVersion := u64 (nr_stateVersion end_ + 1) |>.
Proof.
  unfold CompleteWorkflowSuccess. intros H. res_inv. bool_prop. subst.
  match goal with Hc : cloneJSONObject _ = Ok _ |- _ => pose proof (cloneJSONObject_id _ _ Hc); subst end.
  split_and!; try done.
  - by apply eq_None_not_Some.
  - match goal with Hf : forallb _ _ = true |- _ => rewrite forallb_forall in Hf; rename Hf into Hall end.
    apply Forall_forall. intros node Hn%list_elem_of_In%Hall%orb_true_iff.
    by rewrite bool_decide_eq_true in Hn.
Qed.

Lemma run_wf_step command run op run' :
  run_wf command run → run_apply op run = Ok run' → run_wf command run'.
Proof.
  intros [Hnew [Hne Hsz] Hcnt Hf] H. unfold run_state_facts in Hf. destruct op; simpl in H.
  - unfold WorkflowRun_Start in H. res_inv. bool_prop.
    match goal with Hc : collect_identities _ _ = Ok _ |- _ =>
      apply collect_identities_Ok in Hc as (? & Hnd & _ & ->) end.
    match goal with Ht : WorkflowRun_transition _ _ = Ok _ |- _ =>
      apply WorkflowRun_transition_Ok in Ht as [Hv ->] end.
    destruct (wr_state run) eqn:Hs; try done. destruct Hf as (Hids & Hout & Hterm).
    assert (size (list_to_set executionNodeIDs ∪ ∅ : gset string) = length executionNodeIDs) as Hsize.
    { rewrite (right_id_L ∅ (∪)). by apply size_list_to_set_string. }
    subst run'. split; simpl; [done| |by rewrite Hsize|].
    + split; [set_solver|]. rewrite Hsize. lia.
    + unfold run_state_facts; simpl. rewrite Hsize. split_and!; [lia|done|].
      unfold terminated_as in Hterm. destruct (wr_termination run) as [t|]; [|done].
      by destruct Hterm as [|[-> | ->]].
  - unfold WorkflowRun_FailInitialization in H. res_inv. bool_prop. subst run'.
    split; simpl; try done. unfold run_state_facts, terminated_as; simpl.
    destruct (wr_state run); naive_solver.
  - destruct (WorkflowRun_RequestTermination run intent) as [[r b]|] eqn:E; simpl in H; [|done].
    injection H as <-. apply RequestTermination_Ok in E as (Ht & Hk & Hp & [(_ & _ & ->)|(Hn & _ & ->)]).
    { by split. }
    split; simpl; try done. unfold run_state_facts, terminated_as; simpl.
    destruct (wr_state run) eqn:Hs; try done; destruct_and?; split_and!; try done.
    specialize (Hp eq_refl). destruct (ti_Kind intent); try done; eauto.
  - apply CompleteTermination_Ok in H as (t & target & Ht & Hk & _ & Hv & ->).
    split; simpl; try done. unfold run_state_facts, terminated_as in *; simpl. rewrite Ht in *.
    set_unfold in Hk. destruct Hk as [[= Hk ->]|[[= Hk ->]|[[= Hk ->]|[]]]];
      destruct (wr_state run); naive_solver.
  - destruct (CompleteWorkflowSuccess _ _ _ _) as [[r e]|] eqn:E; simpl in H; [|done].
    injection H as <-. apply CompleteWorkflowSuccess_Ok in E as (Hs & Ht & _ & _ & _ & _ & Hj & -> & _).
    split; simpl; try done. unfold run_state_facts; simpl. rewrite Hs in Hf. naive_solver.
Qed.

Lemma run_wf_reachable command run : run_reachable command run → run_wf command run.
Proof. induction 1; eauto using run_wf_new, run_wf_step. Qed.

(** The first termination intent is never replaced, and a terminal run accepts
    no further call. *)
Lemma run_apply_termination run op run' t :
  wr_termination run = Some t → run_apply op run = Ok run' → wr_termination run' = Some t.
Proof.
  intros Ht H. destruct op; simpl in H.
  - unfold WorkflowRun_Start in H. res_inv.
    match goal with Ht : WorkflowRun_transition _ _ = Ok _ |- _ =>
      apply WorkflowRun_transition_Ok in Ht as [Hv ->] end. by subst.
  - unfold WorkflowRun_FailInitialization in H. res_inv. bool_prop. rewrite Ht in *. naive_solver.
  - destruct (WorkflowRun_RequestTermination run intent) as [[r b]|] eqn:E; simpl in H; [|done].
    injection H as <-. apply RequestTermination_Ok in E as (_ & _ & _ & [(_ & _ & ->)|(Hn & _)]); congruence.
  - apply CompleteTermination_Ok in H as (? & ? & ? & _ & _ & _ & ->). done.
  - destruct (CompleteWorkflowSuccess _ _ _ _) as [[r e]|] eqn:E; simpl in H; [|done].
    apply CompleteWorkflowSuccess_Ok in E as (_ & ? & _). congruence.
Qed.

Lemma run_apply_terminal run op run' :
  RunState_Terminal (wr_state run) = true → run_apply op run ≠ Ok run'.
Proof.
  intros Ht H. destruct op; simpl in H.
  - unfold WorkflowRun_Start in H. res_inv.
    match goal with Ht : WorkflowRun_transition _ _ = Ok _ |- _ =>
      apply WorkflowRun_transition_Ok in Ht as [Hv _] end. by destruct (wr_state run).
  - unfold WorkflowRun_FailInitialization in H. res_inv. bool_prop. by destruct (wr_state run).
  - unfold WorkflowRun_RequestTermination in H. by rewrite Ht in H.
  - apply CompleteTermination_Ok in H as (? & ? & ? & _ & _ & Hv & ->). by destruct (wr_state run).
  - destruct (CompleteWorkflowSuccess _ _ _ _) as [[r e]|] eqn:E; simpl in H; [|done].
    apply CompleteWorkflowSuccess_Ok in E as (Hs & _). by rewrite Hs in Ht.
Qed.

Lemma run_wf_command command run : run_wf command run → record_command (WorkflowRun_Snapshot run) = command.
Proof.
  intros [Hnew _ _ _]. apply NewWorkflowRun_Ok in Hnew as (Heq & _).
  destruct command; unfold record_command; simpl.
  f_equal; [apply (f_equal wr_id Heq)|apply (f_equal wr_projectID Heq)|apply (f_equal wr_workflowID Heq)
           |apply (f_equal wr_purpose Heq)|apply (f_equal wr_definition Heq)
           |apply (f_equal wr_workflowInput Heq)|apply (f_equal wr_deadlineAt Heq)
           |apply (f_equal wr_createdAt Heq)].
Qed.

Lemma restore_identities_elements (ids : gset string) :
  "" ∉ ids → restore_identities ∅ (sort_strings (elements ids)) = Ok ids.
Proof.
  intros Hne. apply restore_identities_Ok. split_and!.
  - by rewrite elem_of_sort_strings, elem_of_elements.
  - apply NoDup_sort_strings, NoDup_elements.
  - set_solver.
  - rewrite (right_id_L ∅ (∪)). apply set_eq. intros x.
    by rewrite elem_of_list_to_set, elem_of_sort_strings, elem_of_elements.
Qed.

Lemma RestoreWorkflowRun_Snapshot command run :
  run_wf command run → wr_stateVersion run ≠ 0 →
  RestoreWorkflowRun (WorkflowRun_Snapshot run) = Ok run.
Proof.
  intros Hwf Hv. pose proof (run_wf_command _ _ Hwf) as Hcmd. destruct Hwf as [Hnew [Hne Hsz] Hcnt Hf].
  pose proof (NewWorkflowRun_Ok _ _ Hnew) as (_ & Hid & Hpid & Hwid & _).
  rewrite <-Hcmd in Hnew, Hid, Hpid, Hwid. simpl in Hid, Hpid, Hwid.
  assert (length (sort_strings (elements (wr_executionNodeIDs run))) = size (wr_executionNodeIDs run)) as Hlen
    by (by rewrite (Permutation_length (sort_strings_perm _))).
  unfold RestoreWorkflowRun. rewrite Hnew. unfold restore_output. simpl.
  rewrite Hlen, restore_identities_elements by done.
  unfold run_state_facts, terminated_as in Hf.
  apply bind_guard. split; [by rewrite !bool_decide_eq_false_2, (proj2 (Z.eqb_neq _ _) Hv)|].
  cbn [mbind res_bind].
  destruct run as [? ? ? ? ? ? out ? ? st ? cnt ids term]; simpl in *; subst cnt; clear Hnew Hcmd Hlen.
  destruct st, term; try done; destruct_and?; subst; simpl;
    repeat match goal with
    | |- context [bool_decide (size ids = 0%nat)] => destruct Hsz; [rewrite bool_decide_eq_true_2 by done|rewrite bool_decide_eq_false_2 by lia]
    | |- context [bool_decide (size ids < 2)%nat] => rewrite bool_decide_eq_false_2 by lia
    end; try done.
  all: try (destruct (bool_decide (size ids < 2)%nat); done).
  match goal with Hj : cloneJSONObject _ = Ok _ |- _ => rename Hj into Hobj end.
  assert (out ≠ "") as Hout by (intros ->; by rewrite cloneJSONObject_empty in Hobj).
  rewrite (bool_decide_eq_false_2 (out = "")), Hobj by done. simpl.
  by rewrite (bool_decide_eq_false_2 (out = "")), (bool_decide_eq_false_2 (size ids < 2)%nat) by first [done | lia].
Qed.

(** ** Properties *)

Definition sample_definition : DefinitionReference :=
  {| dr_SnapshotID := "snap"; dr_DefinitionHash := "hash"; dr_Source := DefinitionPublishedVersion;
     dr_PublishedVersionID := "v1" |}.

Definition sample_command : CreateRunCommand :=
  {| cc_RunID := "run"; cc_ProjectID := "project"; cc_WorkflowID := "workflow";
     cc_Purpose := RunPurposeProduction; cc_Definition := sample_definition;
     cc_WorkflowInput := "{}"; cc_DeadlineAt := 1000; cc_CreatedAt := 10 |}.

Definition sample_failure (code : string) : Failure :=
  Build_Failure code "run_control" false "run" "snap" "hash" "" "" "" "" "" "" "" None.

Definition sample_intent (kind : TerminationKind) (code : string) : TerminationIntent :=
  {| ti_Kind := kind; ti_RequestedAt := 20; ti_Cause := sample_failure code |}.

(** Run a list of calls, all of which must succeed. *)
Fixpoint node_calls (ops : list NodeOp) (node : NodeRun) : res NodeRun :=
  match ops with [] => Ok node | op :: ops => node_apply op node ≫= node_calls ops end.

Lemma node_calls_reachable runID id kind ops node node' :
  node_reachable runID id kind node → node_calls ops node = Ok node' → node_reachable runID id kind node'.
Proof.
  revert node. induction ops as [|op ops IH]; simpl; intros node Hr H; [by simplify_eq|].
  apply bind_Ok in H as (n & Hn & H). eapply IH; [|done]. by eapply node_step.
Qed.

Definition sample_node : NodeRun :=
  MkNodeRun "run" "n1" NodeTask NodePending 1 false "" ∅ ∅ "" "" 0 0 0 AttemptInitial 0 None "".

Definition sample_node_ops : list NodeOp :=
  [OpActivate; OpReady ∅; OpQueueAttempt "a1"; OpAttemptStarted "a1"; OpRetryWait "a1" AttemptBusiness 50;
   OpRetryDue 60; OpQueueAttempt "a2"; OpAttemptStarted "a2"; OpSucceedAttempt "a2" {["out" := "1"]}].

(** C36: a Node Run keeps its lifecycle facts under every sequence of method
    calls: only Task nodes carry attempts, only a succeeded Task exposes an
    effective attempt and it is the current one, a skipped node was never
    activated, a failure (a cancel reason) is present exactly in the failed
    (canceled) states, and the attempt sequence counts business attempts plus
    recoveries. *)
Theorem node_run_lifecycle (runID id : string) (kind : NodeKind) (node : NodeRun) :
  node_reachable runID id kind node → node_wf node.
Proof. apply node_wf_reachable. Qed.

Definition sample_node_done : NodeRun := res_or sample_node (node_calls sample_node_ops sample_node).

Lemma node_run_lifecycle_witness :
  node_calls sample_node_ops sample_node = Ok sample_node_done ∧
  nr_state sample_node_done = NodeSucceeded ∧ node_wf sample_node_done.
Proof.
  assert (node_calls sample_node_ops sample_node = Ok sample_node_done) as H by (vm_compute; reflexivity).
  split; [exact H|]. split; [vm_compute; reflexivity|].
  apply (node_run_lifecycle "run" "n1" NodeTask).
  apply (node_calls_reachable _ _ _ sample_node_ops sample_node); [|exact H].
  apply node_new. vm_compute; reflexivity.
Defined.

(** Each successful call of a Node Run method either changes nothing or
    raises the state version by one (modulo 2^64) and follows one edge of the
    transition table, and nothing leaves a terminal state; identity and kind
    never change.  This is what the compare-and-set on state_version needs. *)
Theorem node_run_versioned_step (node : NodeRun) (op : NodeOp) (node' : NodeRun) :
  node_apply op node = Ok node' →
  (node' = node ∨
   NodeState_Terminal (nr_state node) = false ∧
   nr_stateVersion node' = u64 (nr_stateVersion node + 1) ∧
   (nr_state node' = nr_state node ∨
    validNodeTransition (nr_kind node) (nr_state node) (nr_state node') = true)) ∧
  nr_runID node' = nr_runID node ∧ nr_executionNodeID node' = nr_executionNodeID node ∧
  nr_kind node' = nr_kind node.
Proof.
  intros H. destruct (NodeState_Terminal (nr_state node)) eqn:Ht.
  { by rewrite (node_apply_terminal _ _ _ Ht H); eauto. }
  destruct (node_apply_step _ _ _ H) as [->|(Hv & Hs & Hids)]; [by split; [left|]|].
  split; [|exact Hids]. right. by split_and!.
Qed.

Definition sample_node_canceled : NodeRun :=
  res_or sample_node (node_apply (OpCancel "RUN_CANCELED") sample_node).

Lemma node_run_versioned_step_witness :
  node_apply (OpCancel "RUN_CANCELED") sample_node = Ok sample_node_canceled ∧
  nr_stateVersion sample_node_canceled = 2 ∧ nr_runID sample_node_canceled = nr_runID sample_node.
Proof.
  assert (node_apply (OpCancel "RUN_CANCELED") sample_node = Ok sample_node_canceled) as H
    by (vm_compute; reflexivity).
  split; [exact H|]. split; [vm_compute; reflexivity|].
  exact (proj1 (proj2 (node_run_versioned_step _ _ _ H))).
Defined.

Fixpoint run_calls (ops : list RunOp) (run : WorkflowRun) : res WorkflowRun :=
  match ops with [] => Ok run | op :: ops => run_apply op run ≫= run_calls ops end.

Lemma run_calls_reachable command ops run run' :
  run_reachable command run → run_calls ops run = Ok run' → run_reachable command run'.
Proof.
  revert run. induction ops as [|op ops IH]; simpl; intros run Hr H; [by simplify_eq|].
  apply bind_Ok in H as (n & Hn & H). eapply IH; [|done]. by eapply run_step.
Qed.

Definition sample_run : WorkflowRun :=
  MkWorkflowRun "run" "project" "workflow" RunPurposeProduction sample_definition "{}" "" 1000 10
    RunPending 1 0 ∅ None.

(** A Workflow Run keeps its facts under every sequence of method calls
    (a succeeded run has a JSON-object output and no termination intent; a
    failed, canceled or timed-out run has the intent of that kind; a pending
    run has no nodes), its first termination intent is never replaced, and a
    terminal run refuses every further call. *)
Theorem workflow_run_lifecycle (command : CreateRunCommand) (run : WorkflowRun) :
  run_reachable command run →
  run_wf command run ∧
  (∀ op run' t, wr_termination run = Some t → run_apply op run = Ok run' → wr_termination run' = Some t) ∧
  (∀ op run', RunState_Terminal (wr_state run) = true → run_apply op run ≠ Ok run').
Proof.
  intros H. split_and!; [by apply run_wf_reachable|eauto using run_apply_termination|eauto using run_apply_terminal].
Qed.

Definition sample_run_ops : list RunOp :=
  [OpRunStart ["a"; "b"]; OpRequestTermination (sample_intent TerminationCanceled "RUN_CANCELED");
   OpRequestTermination (sample_intent TerminationFailed "NODE_FAILED")].

Definition sample_run_canceling : WorkflowRun := res_or sample_run (run_calls sample_run_ops sample_run).

Lemma workflow_run_lifecycle_witness :
  run_calls sample_run_ops sample_run = Ok sample_run_canceling ∧
  wr_termination sample_run_canceling = Some (sample_intent TerminationCanceled "RUN_CANCELED") ∧
  run_wf sample_command sample_run_canceling.
Proof.
  assert (run_calls sample_run_ops sample_run = Ok sample_run_canceling) as H by (vm_compute; reflexivity).
  split; [exact H|]. split; [vm_compute; reflexivity|].
  apply (workflow_run_lifecycle sample_command).
  apply (run_calls_reachable _ sample_run_ops sample_run); [|exact H].
  apply run_new. vm_compute; reflexivity.
Defined.

(** The outcome of an attempt is recorded once: a terminal attempt holds a
    result of its own state, a repeated identical completion changes nothing,
    and a different completion (or a restart) is refused. *)
Theorem attempt_outcome_unique (id nodeRunID : string) (sequence : Z) (kind : RetryKind)
    (attempt : NodeAttempt) :
  attempt_reachable id nodeRunID sequence kind attempt →
  (AttemptState_Terminal (na_state attempt) = true ↔ is_Some (na_result attempt)) ∧
  (∀ r, na_result attempt = Some r →
    ar_State r = na_state attempt ∧ NodeAttempt_Complete attempt r = Ok attempt ∧
    ∀ op attempt', attempt_apply op attempt = Ok attempt' → attempt' = attempt ∧ op = OpComplete r).
Proof.
  intros Hwf%attempt_wf_reachable. pose proof Hwf as [_ _ _ Hr]. split.
  { destruct (na_result attempt); [|rewrite Hr]; naive_solver. }
  intros r Hres. rewrite Hres in Hr. destruct Hr as (Ht & Hs & _). split_and!; [done|..].
  - unfold NodeAttempt_Complete. by rewrite Ht, Hres, (proj2 (AttemptResult_Equal_eq r r) eq_refl).
  - intros op attempt' H. destruct (attempt_result_stable _ _ _ _ Hwf Hres H) as [-> Hop].
    split; [done|]. destruct op as [|r']; [|by rewrite (Hop r' eq_refl)].
    simpl in H. apply NodeAttempt_transition_Ok in H as [Hv _]. by destruct (na_state attempt).
Qed.

Definition sample_result : AttemptResult := MkAttemptResult AttemptSucceeded {["out" := "1"]} "" "" "" None.
Definition sample_attempt : NodeAttempt := MkNodeAttempt "a1" "run:n1" 1 AttemptInitial AttemptQueued 1 None.

Definition sample_attempt_running : NodeAttempt := res_or sample_attempt (NodeAttempt_Start sample_attempt).
Definition sample_attempt_done : NodeAttempt :=
  res_or sample_attempt (NodeAttempt_Complete sample_attempt_running sample_result).

Lemma attempt_outcome_unique_witness :
  NodeAttempt_Complete sample_attempt_running sample_result = Ok sample_attempt_done ∧
  NodeAttempt_Complete sample_attempt_done sample_result = Ok sample_attempt_done.
Proof.
  assert (NodeAttempt_Start sample_attempt = Ok sample_attempt_running) as H1 by (vm_compute; reflexivity).
  assert (NodeAttempt_Complete sample_attempt_running sample_result = Ok sample_attempt_done) as H2
    by (vm_compute; reflexivity).
  split; [exact H2|].
  apply (attempt_outcome_unique "a1" "run:n1" 1 AttemptInitial); [|vm_compute; reflexivity].
  apply (attempt_step _ _ _ _ sample_attempt_running (OpComplete sample_result)); [|exact H2].
  apply (attempt_step _ _ _ _ sample_attempt OpStart); [|exact H1].
  apply attempt_new. vm_compute; reflexivity.
Defined.

(** Persisting and restoring an aggregate is the identity: whatever calls
    produced them, a run, a node and an attempt whose version counter has not
    wrapped to zero are restored exactly from their snapshots. *)
Theorem snapshot_restore_identity (command : CreateRunCommand) (run : WorkflowRun)
    (runID id : string) (kind : NodeKind) (node : NodeRun)
    (aid nodeRunID : string) (sequence : Z) (akind : RetryKind) (attempt : NodeAttempt) :
  run_reachable command run → wr_stateVersion run ≠ 0 →
  node_reachable runID id kind node → nr_stateVersion node ≠ 0 →
  attempt_reachable aid nodeRunID sequence akind attempt → na_stateVersion attempt ≠ 0 →
  RestoreWorkflowRun (WorkflowRun_Snapshot run) = Ok run ∧
  RestoreNodeRun (NodeRun_Snapshot node) = Ok node ∧
  RestoreNodeAttempt (NodeAttempt_Snapshot attempt) = Ok attempt.
Proof.
  intros. split_and!.
  - by eapply RestoreWorkflowRun_Snapshot; [apply run_wf_reachable|].
  - by eapply RestoreNodeRun_Snapshot; [eapply node_wf_reachable|].
  - by eapply RestoreNodeAttempt_Snapshot; [eapply attempt_wf_reachable|].
Qed.

Lemma snapshot_restore_identity_witness :
  RestoreWorkflowRun (WorkflowRun_Snapshot sample_run) = Ok sample_run ∧
  RestoreNodeRun (NodeRun_Snapshot sample_node) = Ok sample_node ∧
  RestoreNodeAttempt (NodeAttempt_Snapshot sample_attempt) = Ok sample_attempt.
Proof.
  apply (snapshot_restore_identity sample_command sample_run "run" "n1" NodeTask sample_node
           "a1" "run:n1" 1 AttemptInitial sample_attempt); try discriminate.
  - apply run_new. vm_compute; reflexivity.
  - apply node_new. vm_compute; reflexivity.
  - apply attempt_new. vm_compute; reflexivity.
Defined.
