(* ===== verification/Dsl.v ===== *)
(** * The runtime workflow representation and its contract

    Models internal/dsl: the immutable DSL document (model.go), issues
    (issue.go), the operation compatibility check (compatibility.go), and the
    contract validator (validator.go) with its graph checks.  Go map types that
    the code compares with [nil] are options of finite maps; the loops over
    maps run in key order, which the final stable sort makes immaterial.  The
    Python parser behind [ValidateSource] is third-party code: the source check
    is an argument of the built-in contract. *)

From Stdlib Require Import Ascii.
From S2P Require Import Prelude Json Graph.

Open Scope string_scope.
Open Scope list_scope.
Open Scope Z_scope.

(** ** Documents *)

Inductive DataType : Type :=
  | TypeString | TypeInteger | TypeNumber | TypeBoolean | TypeObject | TypeArray
  | TypeOther (raw : string).
Inductive NodeKind : Type := KindControl | KindTask | KindOther (raw : string).
Inductive InputBindingKind : Type := BindingLiteral | BindingNodeOutput | BindingOther (raw : string).
Inductive ActivationKind : Type := ActivationAlways | ActivationRoute | ActivationOther (raw : string).

#[export] Instance DataType_eq_dec : EqDecision DataType.
Proof. solve_decision. Defined.
#[export] Instance NodeKind_eq_dec : EqDecision NodeKind.
Proof. solve_decision. Defined.
#[export] Instance InputBindingKind_eq_dec : EqDecision InputBindingKind.
Proof. solve_decision. Defined.
#[export] Instance ActivationKind_eq_dec : EqDecision ActivationKind.
Proof. solve_decision. Defined.

Definition DataType_Valid (t : DataType) : bool :=
  match t with TypeOther _ => false | _ => true end.
Definition data_type_string (t : DataType) : string :=
  match t with
  | TypeString => "string" | TypeInteger => "integer" | TypeNumber => "number"
  | TypeBoolean => "boolean" | TypeObject => "object" | TypeArray => "array" | TypeOther raw => raw
  end.
Definition NodeKind_Valid (k : NodeKind) : bool :=
  match k with KindOther _ => false | _ => true end.

Definition compatible (source target : DataType) : bool :=
  bool_decide (source = target)
  || bool_decide (source = TypeInteger) && bool_decide (target = TypeNumber).

Record Coordinate : Type := MkCoordinate { co_Type : string; co_Version : Z }.

#[export] Instance Coordinate_eq_dec : EqDecision Coordinate.
Proof. solve_decision. Defined.
#[export] Instance Coordinate_countable : Countable Coordinate.
Proof.
  by refine (inj_countable' (λ c, (co_Type c, co_Version c)) (λ p, MkCoordinate p.1 p.2) _); intros [].
Defined.

Record Operation : Type := MkOperation {
  op_Type : string; op_Version : Z; op_Config : option (gmap string string) }.
Definition Operation_Coordinate (o : Operation) : Coordinate := MkCoordinate (op_Type o) (op_Version o).

Record OutputReference : Type := MkOutputReference { or_NodeID : string; or_Name : string }.

Record InputBinding : Type := MkInputBinding {
  ib_Kind : InputBindingKind; ib_DataType : DataType;
  ib_Value : string; ib_Output : option OutputReference }.

Record Activation : Type := MkActivation { ac_Kind : ActivationKind; ac_Route : string }.

Record Edge : Type := MkEdge {
  ed_ID : string; ed_SourceNodeID : string; ed_TargetNodeID : string; ed_Activation : Activation }.

Record RetryBackoff : Type := MkRetryBackoff { rb_Kind : string; rb_DelayMS : Z }.

Record ExecutionPolicy : Type := MkExecutionPolicy {
  ep_MaxAttempts : Z; ep_MaxRecoveries : Z; ep_AttemptTimeoutMS : Z;
  ep_RetryBackoff : option RetryBackoff; ep_RetryableErrorCodes : list string }.

Record Node : Type := MkNode {
  nd_ID : string; nd_Kind : NodeKind; nd_Operation : Operation;
  nd_Inputs : option (gmap string InputBinding);
  nd_Outputs : option (gmap string DataType);
  nd_ExecutionPolicy : ExecutionPolicy }.

Record Document : Type := MkDocument {
  dc_DSLVersion : string; dc_EntryNodeID : string; dc_ExitNodeID : string;
  dc_Nodes : list Node; dc_Edges : list Edge }.

(** Reading a possibly nil map. *)
Definition map_val {A} (m : option (gmap string A)) : gmap string A := default ∅ m.
Definition inputs (n : Node) : gmap string InputBinding := map_val (nd_Inputs n).
Definition outputs (n : Node) : gmap string DataType := map_val (nd_Outputs n).
Definition config (n : Node) : gmap string string := map_val (op_Config (nd_Operation n)).
Definition coordinate (n : Node) : Coordinate := Operation_Coordinate (nd_Operation n).

Definition startCoordinate : Coordinate := MkCoordinate "control.start" 1.
Definition endCoordinate : Coordinate := MkCoordinate "control.end" 1.
Definition branchCoordinate : Coordinate := MkCoordinate "control.branch" 1.

(** ** Issues *)

Record Issue : Type := MkIssue {
  is_Code : string; is_Message : string; is_NodeID : string; is_EdgeID : string; is_Field : string }.

(** [less(left, right)] of [sortIssues] is the strict part of this order. *)
Definition issue_leb (a b : Issue) : bool :=
  if negb (bool_decide (is_NodeID a = is_NodeID b)) then String.leb (is_NodeID a) (is_NodeID b)
  else if negb (bool_decide (is_EdgeID a = is_EdgeID b)) then String.leb (is_EdgeID a) (is_EdgeID b)
  else if negb (bool_decide (is_Field a = is_Field b)) then String.leb (is_Field a) (is_Field b)
  else String.leb (is_Code a) (is_Code b).

Definition sortIssues (issues : list Issue) : list Issue := stable_sort issue_leb issues.
Definition HasIssues (issues : list Issue) : bool := negb (bool_decide (length issues = 0%nat)).

Definition issue_if (b : bool) (code message node edge field : string) : list Issue :=
  if b then [MkIssue code message node edge field] else [].
Definition node_issue (b : bool) (node code message field : string) : list Issue :=
  issue_if b code message node "" field.
Definition edge_issue (b : bool) (edge code message field : string) : list Issue :=
  issue_if b code message "" edge field.

(** ** Compatibility with the installed operation handlers *)

Record CompatibilityChecker : Type := MkCompatibilityChecker { ck_supported : gset Coordinate }.

Definition NewCompatibilityChecker (coordinates : list Coordinate) : CompatibilityChecker :=
  MkCompatibilityChecker (list_to_set coordinates).

Definition BuiltinV1Compatibility : CompatibilityChecker :=
  NewCompatibilityChecker
    [MkCoordinate "control.start" 1; MkCoordinate "control.end" 1; MkCoordinate "control.branch" 1;
     MkCoordinate "task.python" 1; MkCoordinate "task.http" 1; MkCoordinate "task.rpc" 1].

Definition CheckAll (checker : CompatibilityChecker) (document : Document) : list Issue :=
  sortIssues (flat_map (λ n,
    node_issue (negb (bool_decide (coordinate n ∈ ck_supported checker))) (nd_ID n)
      "RUNTIME_OPERATION_UNSUPPORTED" "runtime does not support the operation coordinate" "operation.version")
    (dc_Nodes document)).

(** ** Patterns *)

Fixpoint string_all (p : ascii → bool) (s : string) : bool :=
  match s with "" => true | String a r => p a && string_all p r end.

Lemma string_all_app p s r : string_all p (s +:+ r) = string_all p s && string_all p r.
Proof. induction s as [|a s IH]; [done|]. rewrite app_cons. cbn [string_all]. rewrite IH. by destruct (p a). Qed.

Lemma string_all_weaken (p q : ascii → bool) s : (∀ a, p a = true → q a = true) → string_all p s = true → string_all q s = true.
Proof. intros Hpq. induction s as [|a s IH]; [done|]. cbn. rewrite !andb_true_iff. intros [? ?]. auto. Qed.

Definition is_lower_hex (a : ascii) : bool := is_digit a || in_range 97 102 a.
Definition is_letter (a : ascii) : bool := in_range 65 90 a || in_range 97 122 a.
Definition is_word (a : ascii) : bool := is_letter a || is_digit a || (code a =? 95)%N.

(** [^xn_[0-9a-f]{24}$] and [^xe_[0-9a-f]{24}$] *)
Definition id_pattern (prefix s : string) : bool :=
  match strip prefix s with
  | Some r => string_all is_lower_hex r && Nat.eqb (String.length r) 24
  | None => false
  end.
Definition nodeIDPattern : string → bool := id_pattern "xn_".
Definition edgeIDPattern : string → bool := id_pattern "xe_".

(** [^[A-Za-z][A-Za-z0-9_]{0,63}$] *)
Definition portPattern (s : string) : bool :=
  match s with
  | "" => false
  | String a r => is_letter a && string_all is_word r && Nat.leb (String.length r) 63
  end.
Definition routePattern : string → bool := portPattern.

(** ** Operation specifications *)

Record PortRule : Type := MkPortRule { pr_Required : bool; pr_DataTypes : list DataType }.

Record OperationSpec : Type := MkOperationSpec {
  sp_Coordinate : Coordinate;
  sp_Kind : NodeKind;
  sp_ConfigFields : gmap string bool;
  sp_Inputs : gmap string PortRule;
  sp_AllowExtraInputs : bool;
  sp_Outputs : gmap string PortRule;
  sp_AllowExtraOutputs : bool;
  sp_ValidateConfig : option (Node → list Issue) }.

Record Contract : Type := MkContract { ct_version : string; ct_specs : gmap Coordinate OperationSpec }.

Fixpoint add_specs (c : Contract) (specs : list OperationSpec) : res Contract :=
  match specs with
  | [] => Ok c
  | s :: r =>
      guard_err (bool_decide (co_Type (sp_Coordinate s) = "") || (co_Version (sp_Coordinate s) =? 0)
                 || negb (NodeKind_Valid (sp_Kind s)))
        (Errorf "invalid operation specification %+v" [co_Type (sp_Coordinate s)]) ;;
      guard_err (bool_decide (is_Some (ct_specs c !! sp_Coordinate s)))
        (Errorf "operation %s@%d is registered twice"
           [co_Type (sp_Coordinate s); @pretty Z _ (co_Version (sp_Coordinate s))]) ;;
      add_specs (MkContract (ct_version c) (<[sp_Coordinate s := s]> (ct_specs c))) r
  end.

Definition NewContract (version : string) (specs : list OperationSpec) : res Contract :=
  guard_err (bool_decide (version = "")) (Errorf "DSL contract version is required" []) ;;
  add_specs (MkContract version ∅) specs.

(** ** Values of a JSON type *)

(** The type of a decoded value; a number that is not a rational of the
    accepted size counts as a number. *)
Definition json_data_type (j : json) : option DataType :=
  match j with
  | JStr _ => Some TypeString
  | JBool _ => Some TypeBoolean
  | JNum l =>
      match rat_set_string l with
      | Some q => Some (if rat_is_int q then TypeInteger else TypeNumber)
      | None => Some TypeNumber
      end
  | JArr _ => Some TypeArray
  | JObj _ => Some TypeObject
  | JNull => None
  end.

Definition rawDataType (raw : string) : option DataType :=
  if negb (json_valid raw) then None else decode_any raw ≫= json_data_type.

(** [decodeConfig]: the field exists, is one JSON value, and has the shape of
    the destination. *)
Definition decodeConfig {A} (decode : jsyn → option A) (n : Node) (field : string) : option A :=
  raw ← config n !! field; unmarshal_syn raw ≫= decode.

(** Does a decoding fail, or give a value that [bad] rejects? *)
Definition rejects {A} (bad : A → bool) (o : option A) : bool :=
  match o with Some a => bad a | None => true end.
Definition is_empty (s : string) : bool := bool_decide (s = "").

(** ** Node validation *)

Definition containsType (values : list DataType) (target : DataType) : bool := bool_decide (target ∈ values).

(** One binding, by its kind. *)
Definition validate_binding (id field : string) (b : InputBinding) : list Issue :=
  match ib_Kind b with
  | BindingLiteral =>
      if is_empty (ib_Value b) || bool_decide (is_Some (ib_Output b)) || negb (json_valid (ib_Value b))
      then node_issue true id "DSL_LITERAL_BINDING_INVALID" "literal binding requires one valid value" field
      else node_issue (rejects (λ t, negb (compatible t (ib_DataType b))) (rawDataType (ib_Value b))) id
             "DSL_LITERAL_TYPE_MISMATCH" "literal value does not match binding data_type" field
  | BindingNodeOutput =>
      node_issue (negb (is_empty (ib_Value b))
                  || rejects (λ o, is_empty (or_NodeID o) || negb (portPattern (or_Name o))) (ib_Output b)) id
        "DSL_OUTPUT_BINDING_INVALID" "node_output binding requires one output reference" field
  | BindingOther _ =>
      node_issue true id "DSL_INPUT_BINDING_KIND_INVALID" "input binding kind is invalid" field
  end.

Definition validate_input (id : string) (rules : gmap string PortRule) (allowExtra : bool)
    (name : string) (b : InputBinding) : list Issue :=
  let field := "inputs." +:+ name in
  node_issue (negb (portPattern name)) id "DSL_INPUT_NAME_INVALID" "runtime input name is invalid" field
  ++ match rules !! name with
     | None => node_issue (negb allowExtra) id "DSL_INPUT_UNKNOWN" "runtime input is unsupported" field
     | Some rule => node_issue (negb (containsType (pr_DataTypes rule) (ib_DataType b))) id
                      "DSL_INPUT_TYPE_INVALID" "runtime input data_type is unsupported" field
     end
  ++ node_issue (negb (DataType_Valid (ib_DataType b))) id "DSL_INPUT_TYPE_INVALID"
       "runtime input data_type is invalid" field
  ++ validate_binding id field b.

Definition validateInputs (id : string) (actual : gmap string InputBinding)
    (rules : gmap string PortRule) (allowExtra : bool) : list Issue :=
  flat_map (λ '(name, rule),
    node_issue (pr_Required rule && negb (bool_decide (is_Some (actual !! name)))) id
      "DSL_INPUT_REQUIRED" "required runtime input is missing" ("inputs." +:+ name)) (sorted_items rules)
  ++ flat_map (λ '(name, b), validate_input id rules allowExtra name b) (sorted_items actual).

Definition validate_output (id : string) (spec : OperationSpec) (name : string) (t : DataType) : list Issue :=
  let field := "outputs." +:+ name in
  node_issue (negb (portPattern name) || negb (DataType_Valid t)) id
    "DSL_OUTPUT_INVALID" "output name or type is invalid" field
  ++ match sp_Outputs spec !! name with
     | None => node_issue (negb (sp_AllowExtraOutputs spec)) id "DSL_OUTPUT_UNKNOWN" "output is unsupported" field
     | Some rule => node_issue (negb (containsType (pr_DataTypes rule) t)) id
                      "DSL_OUTPUT_TYPE_INVALID" "output data_type is unsupported" field
     end.

Definition validateOutputs (n : Node) (spec : OperationSpec) : list Issue :=
  flat_map (λ '(name, rule),
    node_issue (pr_Required rule && negb (bool_decide (is_Some (outputs n !! name)))) (nd_ID n)
      "DSL_OUTPUT_REQUIRED" "required output is missing" ("outputs." +:+ name)) (sorted_items (sp_Outputs spec))
  ++ flat_map (λ '(name, t), validate_output (nd_ID n) spec name t) (sorted_items (outputs n)).

(** [sort.StringsAreSorted] *)
Fixpoint strings_are_sorted (l : list string) : bool :=
  match l with
  | a :: (b :: _) as r => negb (String.ltb b a) && strings_are_sorted r
  | _ => true
  end.
Fixpoint has_adjacent_duplicate (l : list string) : bool :=
  match l with
  | a :: (b :: _) as r => bool_decide (b = a) || has_adjacent_duplicate r
  | _ => false
  end.

Definition validateTaskPolicy (n : Node) : list Issue :=
  let policy := nd_ExecutionPolicy n in
  let id := nd_ID n in
  match ep_RetryBackoff policy with
  | Some backoff =>
      if (ep_MaxAttempts policy =? 0) || (ep_AttemptTimeoutMS policy =? 0)
      then node_issue true id "DSL_EXECUTION_POLICY_INVALID"
             "task policy requires attempts, timeout, and backoff" "execution_policy"
      else
        node_issue (negb (bool_decide (rb_Kind backoff = "fixed")) || (rb_DelayMS backoff =? 0)) id
          "DSL_RETRY_BACKOFF_INVALID" "retry backoff must be a positive fixed delay" "execution_policy.retry_backoff"
        ++ node_issue (negb (strings_are_sorted (ep_RetryableErrorCodes policy))) id
          "DSL_RETRY_CODES_UNSORTED" "retryable error codes must be sorted" "execution_policy.retryable_error_codes"
        ++ node_issue (has_adjacent_duplicate (ep_RetryableErrorCodes policy)) id
          "DSL_RETRY_CODE_DUPLICATE" "retryable error codes must be unique" "execution_policy.retryable_error_codes"
  | None => node_issue true id "DSL_EXECUTION_POLICY_INVALID"
              "task policy requires attempts, timeout, and backoff" "execution_policy"
  end.

Definition emptyPolicy (p : ExecutionPolicy) : bool :=
  (ep_MaxAttempts p =? 0) && (ep_MaxRecoveries p =? 0) && (ep_AttemptTimeoutMS p =? 0)
  && negb (bool_decide (is_Some (ep_RetryBackoff p))) && bool_decide (ep_RetryableErrorCodes p = []).

Definition validate_config_fields (n : Node) (spec : OperationSpec) : list Issue :=
  flat_map (λ '(name, required),
    node_issue (required && negb (bool_decide (is_Some (config n !! name)))) (nd_ID n)
      "DSL_CONFIG_REQUIRED" "required operation config is missing" ("operation.config." +:+ name))
    (sorted_items (sp_ConfigFields spec))
  ++ flat_map (λ '(name, value),
    node_issue (negb (bool_decide (is_Some (sp_ConfigFields spec !! name)))) (nd_ID n)
      "DSL_CONFIG_UNKNOWN" "operation config field is unsupported" ("operation.config." +:+ name)
    ++ node_issue (negb (json_valid value)) (nd_ID n)
      "DSL_CONFIG_JSON_INVALID" "operation config is invalid JSON" ("operation.config." +:+ name))
    (sorted_items (config n)).

Definition has_containers (n : Node) : bool :=
  bool_decide (is_Some (op_Config (nd_Operation n))) && bool_decide (is_Some (nd_Inputs n))
  && bool_decide (is_Some (nd_Outputs n)).

Definition validateNode (contract : Contract) (n : Node) : list Issue :=
  let id := nd_ID n in
  node_issue (negb (NodeKind_Valid (nd_Kind n))) id "DSL_NODE_KIND_INVALID" "node kind is invalid" "kind"
  ++ match ct_specs contract !! coordinate n with
     | None => node_issue true id "DSL_OPERATION_UNKNOWN" "operation is not part of the DSL contract" "operation"
     | Some spec =>
         node_issue (negb (bool_decide (nd_Kind n = sp_Kind spec))) id
           "DSL_OPERATION_KIND_MISMATCH" "operation kind does not match node kind" "kind"
         ++ (if negb (has_containers n)
             then node_issue true id "DSL_NODE_CONTAINER_REQUIRED" "config, inputs, and outputs must be objects" ""
             else
               validate_config_fields n spec
               ++ validateInputs id (inputs n) (sp_Inputs spec) (sp_AllowExtraInputs spec)
               ++ validateOutputs n spec
               ++ (if bool_decide (nd_Kind n = KindControl)
                   then node_issue (negb (emptyPolicy (nd_ExecutionPolicy n))) id
                          "DSL_CONTROL_POLICY_FORBIDDEN" "control nodes do not create attempts" "execution_policy"
                   else validateTaskPolicy n)
               ++ match sp_ValidateConfig spec with Some f => f n | None => [] end)
     end.

(** ** Branch configuration *)

(** [strings.Split(s, ".")] *)
Fixpoint split_dots (s : string) : list string :=
  match s with
  | "" => [""]
  | String a r =>
      if (code a =? 46)%N then "" :: split_dots r
      else match split_dots r with x :: xs => String a x :: xs | [] => [String a ""] end
  end.

Definition validBranchPath (path : string) : bool :=
  negb (is_empty path) && forallb portPattern (split_dots path).

Definition equality_operators : list string := ["eq"; "neq"].
Definition order_operators : list string := ["gt"; "gte"; "lt"; "lte"].

Definition dslBranchOperators (t : DataType) : list string :=
  match t with
  | TypeString => ["eq"; "neq"; "contains"; "not_contains"; "starts_with"; "ends_with"]
  | TypeInteger | TypeNumber => equality_operators ++ order_operators
  | TypeBoolean => equality_operators
  | TypeArray => ["eq"; "neq"; "contains"; "not_contains"]
  | TypeObject => ["eq"; "neq"; "has_key"; "not_has_key"]
  | TypeOther _ => []
  end.

Definition is_numeric (o : option DataType) : bool :=
  bool_decide (o = Some TypeInteger) || bool_decide (o = Some TypeNumber).
Definition one_of (l : list string) (s : string) : bool := bool_decide (s ∈ l).

Definition validDSLBranchComparison (valueType : DataType) (operator raw : string) : bool :=
  one_of (dslBranchOperators valueType) operator &&
  match valueType with
  | TypeString => bool_decide (rawDataType raw = Some TypeString)
  | TypeInteger | TypeNumber => is_numeric (rawDataType raw)
  | TypeBoolean => bool_decide (rawDataType raw = Some TypeBoolean)
  | TypeArray => one_of ["contains"; "not_contains"] operator || bool_decide (rawDataType raw = Some TypeArray)
  | TypeObject =>
      if one_of ["has_key"; "not_has_key"] operator then bool_decide (rawDataType raw = Some TypeString)
      else bool_decide (rawDataType raw = Some TypeObject)
  | TypeOther _ => false
  end.

Definition validDSLPathComparison (operator raw : string) : bool :=
  if one_of ["starts_with"; "ends_with"; "has_key"; "not_has_key"] operator
  then bool_decide (rawDataType raw = Some TypeString)
  else if one_of order_operators operator then is_numeric (rawDataType raw)
  else if one_of ["contains"; "not_contains"] operator then true
  else if one_of equality_operators operator then bool_decide (is_Some (rawDataType raw))
  else false.

(** [json.Unmarshal(raw, &s)] into a fresh string: [None] is an error. *)
Definition unmarshal_string (raw : string) : option string := unmarshal_syn raw ≫= decode_string.

Definition case_field (index : nat) (field : string) : string :=
  "operation.config.cases." +:+ pretty index +:+ "." +:+ field.

(** One case of a branch.  [route], [operator] and [path] start out empty, so
    a failed decoding leaves the empty string behind. *)
Definition validate_branch_case (n : Node) (index : nat) (branchCase : gmap string string) : list Issue :=
  let invalid b message field := node_issue b (nd_ID n) "DSL_BRANCH_CASE_INVALID" message field in
  let mismatch b message := node_issue b (nd_ID n) "DSL_BRANCH_OPERATOR_TYPE_MISMATCH" message
                              ("operation.config.cases." +:+ pretty index) in
  let route := branchCase !! "route" ≫= unmarshal_string in
  let operator := branchCase !! "operator" ≫= unmarshal_string in
  let comparison := default "" (branchCase !! "value") in
  let valueType := match inputs n !! "value" with Some b => ib_DataType b | None => TypeOther "" end in
  invalid (rejects (λ r, negb (routePattern r)) route) "branch case route is invalid" (case_field index "route")
  ++ invalid (rejects is_empty operator) "branch case operator is invalid" (case_field index "operator")
  ++ invalid (negb (bool_decide (is_Some (branchCase !! "value")))) "branch case value is required"
       (case_field index "value")
  ++ match branchCase !! "path" with
     | Some pathRaw =>
         invalid (rejects (λ p, negb (validBranchPath p)) (unmarshal_string pathRaw))
           "branch case path is invalid" (case_field index "path")
         ++ mismatch (negb (bool_decide (valueType = TypeObject))
                      || negb (validDSLPathComparison (default "" operator) comparison))
              "path operator or comparison value is incompatible"
     | None =>
         mismatch (negb (validDSLBranchComparison valueType (default "" operator) comparison))
           "operator or comparison value is incompatible with branch value"
     end
  ++ flat_map (λ '(field, _), invalid (negb (one_of ["route"; "path"; "operator"; "value"] field))
       "branch case field is unsupported" (case_field index field)) (sorted_items branchCase).

Definition validateBranchConfig (n : Node) : list Issue :=
  node_issue (rejects (λ r, negb (routePattern r)) (decodeConfig decode_string n "default_route")) (nd_ID n)
    "DSL_BRANCH_DEFAULT_INVALID" "branch default_route is invalid" "operation.config.default_route"
  ++ match decodeConfig (decode_list decode_raw_map) n "cases" with
     | None | Some [] => node_issue true (nd_ID n) "DSL_BRANCH_CASES_INVALID"
                           "branch cases must be a non-empty array" "operation.config.cases"
     | Some cases => concat (imap (validate_branch_case n) cases)
     end.

(** ** Configuration of the other operations *)

Definition SourceField : string := "operation.config.source_code".

Definition validatePythonConfig (ValidateSource : string → option (string * string)) (n : Node) : list Issue :=
  match decodeConfig decode_string n "source_code" with
  | None | Some "" => node_issue true (nd_ID n) "DSL_PYTHON_SOURCE_INVALID" "python source_code is required"
                        "operation.config.source_code"
  | Some source =>
      match ValidateSource source with
      | Some (code, message) => node_issue true (nd_ID n) code message SourceField
      | None => []
      end
  end
  ++ node_issue (rejects is_empty (decodeConfig decode_string n "sandbox_profile")) (nd_ID n)
       "DSL_SANDBOX_PROFILE_INVALID" "sandbox profile is required" "operation.config.sandbox_profile".

Definition allowedHTTPMethod (value : string) : bool := one_of ["GET"; "POST"; "PUT"; "PATCH"; "DELETE"] value.

(** The first status that is out of range or repeated ends the loop. *)
Fixpoint statuses_bad (seen : list Z) (l : list Z) : bool :=
  match l with
  | [] => false
  | s :: r => (s <? 100) || (599 <? s) || bool_decide (s ∈ seen) || statuses_bad (s :: seen) r
  end.

Definition validateHTTPConfig (n : Node) : list Issue :=
  node_issue (rejects is_empty (decodeConfig decode_string n "connection_id")) (nd_ID n)
    "DSL_HTTP_CONNECTION_INVALID" "connection_id is required" "operation.config.connection_id"
  ++ node_issue (rejects (λ m, negb (allowedHTTPMethod m)) (decodeConfig decode_string n "method")) (nd_ID n)
    "DSL_HTTP_METHOD_INVALID" "method is required" "operation.config.method"
  ++ match decodeConfig (decode_list decode_int) n "accepted_statuses" with
     | None | Some [] => node_issue true (nd_ID n) "DSL_HTTP_STATUSES_INVALID"
         "accepted_statuses must be a non-empty integer array" "operation.config.accepted_statuses"
     | Some statuses => node_issue (statuses_bad [] statuses) (nd_ID n) "DSL_HTTP_STATUSES_INVALID"
         "accepted_statuses must contain unique HTTP status codes" "operation.config.accepted_statuses"
     end.

Definition validateRPCConfig (n : Node) : list Issue :=
  flat_map (λ field,
    node_issue (rejects is_empty (decodeConfig decode_string n field)) (nd_ID n)
      "DSL_RPC_CONFIG_INVALID" "RPC config string is required" ("operation.config." +:+ field))
    ["service_id"; "operation"; "contract_revision"]
  ++ node_issue (negb (bool_decide (is_Some (decodeConfig decode_bool n "idempotent")))) (nd_ID n)
    "DSL_RPC_CONFIG_INVALID" "RPC idempotent flag is required" "operation.config.idempotent".

(** ** The built-in contract *)

Definition VersionV1 : string := "1".
Definition any_type : list DataType := [TypeString; TypeInteger; TypeNumber; TypeBoolean; TypeObject; TypeArray].
Definition must (l : list DataType) : PortRule := MkPortRule true l.
Definition may (l : list DataType) : PortRule := MkPortRule false l.
Definition object : list DataType := [TypeObject].

Definition builtin_specs (ValidateSource : string → option (string * string)) : list OperationSpec :=
  [ MkOperationSpec startCoordinate KindControl ∅ ∅ false {["workflow_input" := must object]} false None;
    MkOperationSpec endCoordinate KindControl ∅ {["workflow_output" := must object]} false ∅ false None;
    MkOperationSpec branchCoordinate KindControl {["cases" := true; "default_route" := true]}
      {["value" := must any_type]} false ∅ false (Some validateBranchConfig);
    MkOperationSpec (MkCoordinate "task.python" 1) KindTask
      {["source_code" := true; "sandbox_profile" := true; "model_artifact" := false]}
      ∅ true ∅ true (Some (validatePythonConfig ValidateSource));
    MkOperationSpec (MkCoordinate "task.http" 1) KindTask
      {["connection_id" := true; "method" := true; "accepted_statuses" := true]}
      {["relative_path" := must [TypeString]; "query" := may object; "headers" := may object; "body" := may any_type]}
      false {["response" := must object]} false (Some validateHTTPConfig);
    MkOperationSpec (MkCoordinate "task.rpc" 1) KindTask
      {["service_id" := true; "operation" := true; "contract_revision" := true; "idempotent" := true]}
      {["request" := must object]} false {["response" := must object]} false (Some validateRPCConfig) ].

(** The constructor panics on an error, which [builtin_contract_ok] excludes. *)
Definition BuiltinV1Contract (ValidateSource : string → option (string * string)) : Contract :=
  res_or (MkContract "" ∅) (NewContract VersionV1 (builtin_specs ValidateSource)).

(** ** Edges and graph *)

(** Route names read from a branch configuration whose errors are ignored:
    decoding goes on after a value of the wrong type.  A member is the field
    when its key is [route] up to ASCII letter case. *)
Definition lower (a : ascii) : ascii := if in_range 65 90 a then ascii_of_N (code a + 32) else a.
Fixpoint lower_string (s : string) : string :=
  match s with "" => "" | String a r => String (lower a) (lower_string r) end.
Definition field_is (name key : string) : bool :=
  bool_decide (key = name) || bool_decide (lower_string key = name).

Definition lenient_route (s : jsyn) : string :=
  match s with
  | SObj m => fold_left (λ acc '(k, _, v),
      if field_is "route" k then match v with SStr x => x | _ => acc end else acc) m ""
  | _ => ""
  end.

Definition lenient_routes (raw : string) : list string :=
  match unmarshal_syn raw with Some (SArr l) => lenient_route <$> l | _ => [] end.
Definition lenient_string (raw : string) : string :=
  match unmarshal_syn raw with Some (SStr x) => x | _ => "" end.

Definition declared_routes (n : Node) : list string :=
  lenient_string (default "" (config n !! "default_route"))
  :: lenient_routes (default "" (config n !! "cases")).

Definition validateDSLBranchRoutes (n : Node) (edges : list Edge) : list Issue :=
  let declared : gset string := list_to_set (declared_routes n) in
  let used : gset string := list_to_set (ac_Route ∘ ed_Activation <$> edges) in
  flat_map (λ e, edge_issue (negb (bool_decide (ac_Route (ed_Activation e) ∈ declared))) (ed_ID e)
    "DSL_BRANCH_ROUTE_UNDECLARED" "branch edge route is not declared" "activation.route") edges
  ++ flat_map (λ route, node_issue (negb (is_empty route) && negb (bool_decide (route ∈ used))) (nd_ID n)
    "DSL_BRANCH_ROUTE_UNUSED" "declared branch route has no outgoing edge" "operation.config.cases")
    (elements declared).

Record edge_scan : Type := MkEdgeScan {
  es_issues : list Issue;
  es_incoming : adjacency;
  es_outgoing : adjacency;
  es_outgoingEdges : gmap string (list Edge);
  es_edgeIDs : gset string }.

Definition validate_activation (source : Node) (e : Edge) : list Issue :=
  if bool_decide (op_Type (nd_Operation source) = "control.branch") then
    edge_issue (negb (bool_decide (ac_Kind (ed_Activation e) = ActivationRoute))
                || negb (routePattern (ac_Route (ed_Activation e)))) (ed_ID e)
      "DSL_BRANCH_ACTIVATION_INVALID" "branch edge requires a route activation" "activation"
  else
    edge_issue (negb (bool_decide (ac_Kind (ed_Activation e) = ActivationAlways))
                || negb (is_empty (ac_Route (ed_Activation e)))) (ed_ID e)
      "DSL_EDGE_ACTIVATION_INVALID" "non-branch edge requires always activation" "activation".

Definition scan_edge (nodes : gmap string Node) (st : edge_scan) (e : Edge) : edge_scan :=
  let issues := es_issues st
    ++ edge_issue (negb (edgeIDPattern (ed_ID e))) (ed_ID e) "DSL_EDGE_ID_INVALID" "execution edge id is invalid" "id"
    ++ edge_issue (bool_decide (ed_ID e ∈ es_edgeIDs st)) (ed_ID e) "DSL_EDGE_ID_DUPLICATE"
         "execution edge id must be unique" "id" in
  let ids := {[ed_ID e]} ∪ es_edgeIDs st in
  match nodes !! ed_SourceNodeID e, nodes !! ed_TargetNodeID e with
  | Some source, Some _ =>
      MkEdgeScan (issues ++ validate_activation source e)
        (append_adj (ed_TargetNodeID e) (ed_SourceNodeID e) (es_incoming st))
        (append_adj (ed_SourceNodeID e) (ed_TargetNodeID e) (es_outgoing st))
        (<[ed_SourceNodeID e := default [] (es_outgoingEdges st !! ed_SourceNodeID e) ++ [e]]> (es_outgoingEdges st))
        ids
  | _, _ =>
      MkEdgeScan (issues ++ edge_issue true (ed_ID e) "DSL_EDGE_NODE_NOT_FOUND"
                    "execution edge references a missing node" "")
        (es_incoming st) (es_outgoing st) (es_outgoingEdges st) ids
  end.

Definition no_neighbours (m : adjacency) (id : string) : bool := bool_decide (length (adj m id) = 0%nat).

Definition validate_degree (d : Document) (st : edge_scan) (id : string) : list Issue :=
  (if bool_decide (id = dc_EntryNodeID d)
   then node_issue (negb (no_neighbours (es_incoming st) id)) id "DSL_ENTRY_INCOMING_FORBIDDEN"
          "entry node cannot have incoming edges" ""
   else node_issue (no_neighbours (es_incoming st) id) id "DSL_NODE_INCOMING_REQUIRED"
          "non-entry node requires an incoming edge" "")
  ++ (if bool_decide (id = dc_ExitNodeID d)
      then node_issue (negb (no_neighbours (es_outgoing st) id)) id "DSL_EXIT_OUTGOING_FORBIDDEN"
             "exit node cannot have outgoing edges" ""
      else node_issue (no_neighbours (es_outgoing st) id) id "DSL_NODE_OUTGOING_REQUIRED"
             "non-exit node requires an outgoing edge" "").

Definition reachableNodes (start : string) (outgoing : adjacency) : gset string := reachable start outgoing.

Definition validate_reach (fromEntry toExit : gset string) (st : edge_scan) (id : string) (n : Node) : list Issue :=
  node_issue (negb (bool_decide (id ∈ fromEntry))) id "DSL_NODE_NOT_REACHABLE" "node is not reachable from entry" ""
  ++ node_issue (negb (bool_decide (id ∈ toExit))) id "DSL_NODE_CANNOT_REACH_EXIT" "node cannot reach exit" ""
  ++ (if bool_decide (op_Type (nd_Operation n) = "control.branch")
      then validateDSLBranchRoutes n (default [] (es_outgoingEdges st !! id)) else []).

Definition validateEdgesAndGraph (d : Document) (nodes : gmap string Node) : list Issue :=
  let st := fold_left (scan_edge nodes) (dc_Edges d) (MkEdgeScan [] ∅ ∅ ∅ ∅) in
  if bool_decide (nodes = ∅) then es_issues st ++ issue_if true "DSL_NODES_REQUIRED" "DSL requires nodes" "" "" ""
  else
    let ids := sorted_keys nodes in
    let visited := length (kahn ids (es_incoming st) (es_outgoing st)) in
    es_issues st
    ++ flat_map (validate_degree d st) ids
    ++ issue_if (negb (Nat.eqb visited (length ids))) "DSL_GRAPH_CYCLE" "DSL control graph must be acyclic" "" "" ""
    ++ flat_map (λ '(id, n), validate_reach (reachableNodes (dc_EntryNodeID d) (es_outgoing st))
                    (reachableNodes (dc_ExitNodeID d) (es_incoming st)) st id n) (sorted_items nodes).

(** ** Whole documents *)

(** The loop over the nodes: identities, node checks, and the node map. *)
Definition scan_node (contract : Contract) (st : list Issue * gmap string Node) (n : Node)
    : list Issue * gmap string Node :=
  (st.1 ++ node_issue (negb (nodeIDPattern (nd_ID n))) (nd_ID n) "DSL_NODE_ID_INVALID" "execution node id is invalid" "id"
        ++ node_issue (bool_decide (is_Some (st.2 !! nd_ID n))) (nd_ID n) "DSL_NODE_ID_DUPLICATE"
             "execution node id must be unique" "id"
        ++ validateNode contract n,
   <[nd_ID n := n]> st.2).

Definition count_coordinate (c : Coordinate) (nodes : list Node) : nat :=
  length (List.filter (λ n, bool_decide (coordinate n = c)) nodes).

(** A node whose output another node reads. *)
Definition validate_reference (nodes : gmap string Node) (id name : string) (b : InputBinding) : list Issue :=
  match ib_Kind b, ib_Output b with
  | BindingNodeOutput, Some o =>
      match nodes !! or_NodeID o with
      | None => node_issue true id "DSL_INPUT_NODE_NOT_FOUND" "input references a missing execution node" ("inputs." +:+ name)
      | Some source =>
          match outputs source !! or_Name o with
          | None => node_issue true id "DSL_INPUT_OUTPUT_NOT_FOUND" "input references a missing output" ("inputs." +:+ name)
          | Some t => node_issue (negb (compatible t (ib_DataType b))) id "DSL_INPUT_TYPE_MISMATCH"
                        "referenced output type is incompatible" ("inputs." +:+ name)
          end
      end
  | _, _ => []
  end.

Definition validate_endpoint (nodes : gmap string Node) (id : string) (c : Coordinate)
    (missing missing_message field invalid invalid_message : string) : list Issue :=
  match nodes !! id with
  | None => node_issue true id missing missing_message field
  | Some n => node_issue (negb (bool_decide (coordinate n = c))) (nd_ID n) invalid invalid_message "operation"
  end.

Definition Validate (contract : Contract) (d : Document) : list Issue :=
  let '(node_issues, nodes) := fold_left (scan_node contract) (dc_Nodes d) ([], ∅) in
  sortIssues (
    issue_if (negb (bool_decide (dc_DSLVersion d = ct_version contract))) "DSL_VERSION_UNSUPPORTED"
      "dsl_version is unsupported" "" "" "dsl_version"
    ++ node_issues
    ++ issue_if (negb (Nat.eqb (count_coordinate startCoordinate (dc_Nodes d)) 1)) "DSL_START_COUNT_INVALID"
         "DSL requires exactly one control.start@1" "" "" ""
    ++ issue_if (negb (Nat.eqb (count_coordinate endCoordinate (dc_Nodes d)) 1)) "DSL_END_COUNT_INVALID"
         "DSL requires exactly one control.end@1" "" "" ""
    ++ validate_endpoint nodes (dc_EntryNodeID d) startCoordinate "DSL_ENTRY_NODE_NOT_FOUND"
         "entry_node_id does not exist" "entry_node_id" "DSL_ENTRY_NODE_INVALID" "entry node must be control.start@1"
    ++ validate_endpoint nodes (dc_ExitNodeID d) endCoordinate "DSL_EXIT_NODE_NOT_FOUND"
         "exit_node_id does not exist" "exit_node_id" "DSL_EXIT_NODE_INVALID" "exit node must be control.end@1"
    ++ validateEdgesAndGraph d nodes
    ++ flat_map (λ n, flat_map (λ '(name, b), validate_reference nodes (nd_ID n) name b)
                        (sorted_items (inputs n))) (dc_Nodes d)).

(** ** Well-formed documents

    What an accepted document guarantees to the components that run it. *)

Definition edge_pair (e : Edge) : string * string := (ed_SourceNodeID e, ed_TargetNodeID e).
Definition edge_pairs (d : Document) : list (string * string) := edge_pair <$> dc_Edges d.
Definition flows (d : Document) (s t : string) : Prop := (s, t) ∈ edge_pairs d.

Definition is_branch (n : Node) : Prop := op_Type (nd_Operation n) = "control.branch".

(** Branch edges name a route, every other edge is unconditional. *)
Definition activation_ok (source : Node) (a : Activation) : Prop :=
  if decide (is_branch source) then ac_Kind a = ActivationRoute ∧ routePattern (ac_Route a) = true
  else ac_Kind a = ActivationAlways ∧ ac_Route a = "".

(** Branch [n] declares the routes its edges in [edges] carry, and each
    declared route has an edge. *)
Definition routes_ok (n : Node) (edges : list Edge) : Prop :=
  (∀ e, e ∈ edges → ac_Route (ed_Activation e) ∈ declared_routes n) ∧
  (∀ r, r ∈ declared_routes n → r ≠ "" → ∃ e, e ∈ edges ∧ ac_Route (ed_Activation e) = r).

Definition reference_ok (nodes : list Node) (b : InputBinding) : Prop :=
  ∀ o, ib_Kind b = BindingNodeOutput → ib_Output b = Some o →
  ∃ m t, m ∈ nodes ∧ nd_ID m = or_NodeID o ∧ outputs m !! or_Name o = Some t ∧
         compatible t (ib_DataType b) = true.

Definition edges_from (d : Document) (id : string) : list Edge :=
  filter (λ e, ed_SourceNodeID e = id) (dc_Edges d).

Record nodes_wf (c : Contract) (l : list Node) : Prop := {
  nw_ids : NoDup (nd_ID <$> l);
  nw_pattern : ∀ n, n ∈ l → nodeIDPattern (nd_ID n) = true;
  nw_node : ∀ n, n ∈ l → validateNode c n = [] }.

Record edges_wf (nodes l : list _) : Prop := {
  ew_ids : NoDup (ed_ID <$> l);
  ew_pattern : ∀ e, e ∈ l → edgeIDPattern (ed_ID e) = true;
  ew_ends : ∀ e, e ∈ l → ∃ s t, s ∈ nodes ∧ t ∈ nodes ∧ nd_ID s = ed_SourceNodeID e ∧
     nd_ID t = ed_TargetNodeID e ∧ activation_ok s (ed_Activation e) }.

Record doc_wf (c : Contract) (d : Document) : Prop := {
  dw_version : dc_DSLVersion d = ct_version c;
  dw_nodes : nodes_wf c (dc_Nodes d);
  dw_start : count_coordinate startCoordinate (dc_Nodes d) = 1%nat;
  dw_end : count_coordinate endCoordinate (dc_Nodes d) = 1%nat;
  dw_entry : ∃ n, n ∈ dc_Nodes d ∧ nd_ID n = dc_EntryNodeID d ∧ coordinate n = startCoordinate;
  dw_exit : ∃ n, n ∈ dc_Nodes d ∧ nd_ID n = dc_ExitNodeID d ∧ coordinate n = endCoordinate;
  dw_edges : edges_wf (dc_Nodes d) (dc_Edges d);
  dw_sources : ∀ n, n ∈ dc_Nodes d → (nd_ID n = dc_EntryNodeID d ↔ ∀ s, ¬ flows d s (nd_ID n));
  dw_sinks : ∀ n, n ∈ dc_Nodes d → (nd_ID n = dc_ExitNodeID d ↔ ∀ t, ¬ flows d (nd_ID n) t);
  dw_acyclic : acyclic (edge_pairs d);
  dw_from_entry : ∀ n, n ∈ dc_Nodes d → rtc (flows d) (dc_EntryNodeID d) (nd_ID n);
  dw_to_exit : ∀ n, n ∈ dc_Nodes d → rtc (flows d) (nd_ID n) (dc_ExitNodeID d);
  dw_routes : ∀ n, n ∈ dc_Nodes d → is_branch n → routes_ok n (edges_from d (nd_ID n));
  dw_references : ∀ n name b, n ∈ dc_Nodes d → inputs n !! name = Some b → reference_ok (dc_Nodes d) b }.

(** ** Issue lists *)

Lemma issue_if_nil b c m n e f : issue_if b c m n e f = [] ↔ b = false.
Proof. unfold issue_if. destruct b; naive_solver. Qed.

Lemma node_issue_nil b n c m f : node_issue b n c m f = [] ↔ b = false.
Proof. apply issue_if_nil. Qed.

Lemma edge_issue_nil b e c m f : edge_issue b e c m f = [] ↔ b = false.
Proof. apply issue_if_nil. Qed.

Lemma sortIssues_nil l : sortIssues l = [] ↔ l = [].
Proof. apply stable_sort_nil. Qed.

(** ** The node map *)

Definition node_map (l : list Node) : gmap string Node :=
  fold_left (λ m n, <[nd_ID n := n]> m) l ∅.

Lemma node_map_snoc l n : node_map (l ++ [n]) = <[nd_ID n := n]> (node_map l).
Proof. unfold node_map. by rewrite fold_left_app. Qed.

Lemma node_map_is_Some l id : is_Some (node_map l !! id) ↔ id ∈ nd_ID <$> l.
Proof.
  induction l as [|n l IH] using rev_ind.
  - unfold node_map; simpl. rewrite lookup_empty. split; [by intros [? [=]]|set_solver].
  - rewrite node_map_snoc, lookup_insert_is_Some', IH, fmap_app, elem_of_app. set_solver.
Qed.

Lemma node_map_lookup l id n :
  NoDup (nd_ID <$> l) → node_map l !! id = Some n ↔ n ∈ l ∧ nd_ID n = id.
Proof.
  induction l as [|m l IH] using rev_ind; intros Hnd.
  - unfold node_map; simpl. rewrite lookup_empty. split; [done|set_solver].
  - rewrite fmap_app in Hnd. apply NoDup_app in Hnd as (Hnd & Hf & _).
    rewrite node_map_snoc, lookup_insert_Some, (IH Hnd), elem_of_app, list_elem_of_singleton.
    split; [naive_solver|]. intros [[Hn| ->] <-]; [right|by left].
    split; [|done]. intros Heq. apply (Hf (nd_ID n)); [by apply list_elem_of_fmap_2|set_solver].
Qed.

Lemma scan_nodes_spec c l :
  let '(issues, nodes) := fold_left (scan_node c) l ([], ∅) in
  nodes = node_map l ∧ (issues = [] ↔ nodes_wf c l).
Proof.
  induction l as [|n l IH] using rev_ind.
  { split; [done|]. split; [|done]. intros _. constructor; [constructor|set_solver..]. }
  rewrite fold_left_app. cbn [fold_left].
  destruct (fold_left (scan_node c) l ([], ∅)) as [issues nodes]. destruct IH as [-> IH2].
  unfold scan_node; cbn [fst snd]. rewrite node_map_snoc. split; [done|].
  rewrite !app_nil, IH2, !node_issue_nil, negb_false_iff, bool_decide_eq_false, node_map_is_Some.
  split.
  - intros ([Hids Hpat Hnode] & Hp & Hfresh & Hv). constructor.
    + rewrite fmap_app. apply NoDup_app. split_and!; [done|set_solver|apply NoDup_singleton].
    + intros m [?| ->%list_elem_of_singleton]%elem_of_app; auto.
    + intros m [?| ->%list_elem_of_singleton]%elem_of_app; auto.
  - intros [Hids Hpat Hnode]. rewrite fmap_app in Hids. apply NoDup_app in Hids as (Hids & Hf & _).
    assert (n ∈ l ++ [n]) by set_solver. split_and!; auto.
    + constructor; [done|intros; apply Hpat; set_solver|intros; apply Hnode; set_solver].
    + intros Hin. apply (Hf _ Hin). set_solver.
Qed.

(** ** The edge scan *)

Section EdgeScan.
Context (nodes : list Node) (nodes_nodup : NoDup (nd_ID <$> nodes)).

Definition has_ends (e : Edge) : Prop :=
  ed_SourceNodeID e ∈ nd_ID <$> nodes ∧ ed_TargetNodeID e ∈ nd_ID <$> nodes.

Definition kept_pairs (l : list Edge) : list (string * string) := edge_pair <$> filter has_ends l.

Lemma targets_of_snoc E s t x : targets_of (E ++ [(s, t)]) x = targets_of E x ++ (if decide (s = x) then [t] else []).
Proof.
  unfold targets_of. rewrite filter_app, filter_cons, filter_nil, fmap_app. simpl. by case_decide.
Qed.
Lemma sources_of_snoc E s t x : sources_of (E ++ [(s, t)]) x = sources_of E x ++ (if decide (t = x) then [s] else []).
Proof.
  unfold sources_of. rewrite filter_app, filter_cons, filter_nil, fmap_app. simpl. by case_decide.
Qed.

Lemma kept_pairs_snoc l e :
  kept_pairs (l ++ [e]) = kept_pairs l ++ (if decide (has_ends e) then [edge_pair e] else []).
Proof.
  unfold kept_pairs. rewrite filter_app, filter_cons, filter_nil, fmap_app. by case_decide.
Qed.

Lemma validate_activation_nil s e : validate_activation s e = [] ↔ activation_ok s (ed_Activation e).
Proof.
  unfold validate_activation, activation_ok, is_branch, is_empty.
  case_bool_decide; case_decide; try done;
    rewrite edge_issue_nil, orb_false_iff, !negb_false_iff, !bool_decide_eq_true; done.
Qed.

Record scan_spec (l : list Edge) (st : edge_scan) : Prop := {
  sc_ids : es_edgeIDs st = list_to_set (ed_ID <$> l);
  sc_incoming : ∀ t, adj (es_incoming st) t = sources_of (kept_pairs l) t;
  sc_outgoing : ∀ s, adj (es_outgoing st) s = targets_of (kept_pairs l) s;
  sc_edges : ∀ s, default [] (es_outgoingEdges st !! s) = filter (λ e, ed_SourceNodeID e = s) (filter has_ends l);
  sc_issues : es_issues st = [] ↔ edges_wf nodes l }.

Lemma lookup_ends e :
  match node_map nodes !! ed_SourceNodeID e, node_map nodes !! ed_TargetNodeID e with
  | Some s, Some t => has_ends e ∧ s ∈ nodes ∧ t ∈ nodes ∧ nd_ID s = ed_SourceNodeID e ∧ nd_ID t = ed_TargetNodeID e
  | _, _ => ¬ has_ends e
  end.
Proof.
  unfold has_ends.
  destruct (node_map nodes !! ed_SourceNodeID e) as [s|] eqn:Hs.
  2: { rewrite <-!node_map_is_Some, Hs. by intros [[? [=]] _]. }
  destruct (node_map nodes !! ed_TargetNodeID e) as [t|] eqn:Ht.
  2: { rewrite <-!node_map_is_Some, Ht. by intros [_ [? [=]]]. }
  apply node_map_lookup in Hs as [? <-]; [|done]. apply node_map_lookup in Ht as [? <-]; [|done].
  split_and!; auto; by apply list_elem_of_fmap_2.
Qed.

(** One more edge keeps the edges well formed exactly when it is. *)
Lemma edges_wf_snoc l e :
  edges_wf nodes (l ++ [e]) ↔
  edges_wf nodes l ∧ edgeIDPattern (ed_ID e) = true ∧ ed_ID e ∉ ed_ID <$> l ∧
  ∃ s t, s ∈ nodes ∧ t ∈ nodes ∧ nd_ID s = ed_SourceNodeID e ∧ nd_ID t = ed_TargetNodeID e ∧
         activation_ok s (ed_Activation e).
Proof.
  split.
  - intros [Hids Hpat Hends]. rewrite fmap_app in Hids. apply NoDup_app in Hids as (Hids & Hf & _).
    assert (e ∈ l ++ [e]) by set_solver. split_and!; auto.
    + constructor; [done|intros; apply Hpat; set_solver|intros; apply Hends; set_solver].
    + intros Hin. apply (Hf _ Hin). set_solver.
  - intros ([Hids Hpat Hends] & Hp & Hf & Hx). constructor.
    + rewrite fmap_app. apply NoDup_app. split_and!; [done|set_solver|apply NoDup_singleton].
    + intros m [?| ->%list_elem_of_singleton]%elem_of_app; auto.
    + intros m [?| ->%list_elem_of_singleton]%elem_of_app; auto.
Qed.

Lemma scan_ids_snoc l st e : scan_spec l st →
  {[ed_ID e]} ∪ es_edgeIDs st = list_to_set (ed_ID <$> l ++ [e]).
Proof. intros H. rewrite (sc_ids _ _ H), fmap_app, list_to_set_app_L. set_solver. Qed.

(** An edge between known nodes enters the adjacency lists. *)
Lemma scan_edge_keep l st e : has_ends e → scan_spec l st → scan_spec (l ++ [e]) (scan_edge (node_map nodes) st e).
Proof.
  intros He Hst. pose proof (lookup_ends e) as Hends. unfold scan_edge.
  destruct (node_map nodes !! ed_SourceNodeID e) as [s|] eqn:Hs; [|done].
  destruct (node_map nodes !! ed_TargetNodeID e) as [t|]; [|done].
  destruct Hends as (_ & Hsin & Htin & Hsid & Htid).
  constructor; cbn [es_issues es_incoming es_outgoing es_outgoingEdges es_edgeIDs].
  - by apply scan_ids_snoc.
  - intros x. rewrite adj_append, (sc_incoming _ _ Hst), kept_pairs_snoc, (decide_True (P:=has_ends e)) by done.
    unfold edge_pair. by rewrite sources_of_snoc.
  - intros x. rewrite adj_append, (sc_outgoing _ _ Hst), kept_pairs_snoc, (decide_True (P:=has_ends e)) by done.
    unfold edge_pair. by rewrite targets_of_snoc.
  - intros x. rewrite lookup_insert, !filter_app, (filter_cons_True has_ends), filter_nil, filter_cons, filter_nil by done.
    rewrite <-(sc_edges _ _ Hst x). case_decide as Hx; simpl; [by rewrite Hx|by rewrite app_nil_r].
  - rewrite !app_nil, !edge_issue_nil, (sc_issues _ _ Hst), validate_activation_nil, edges_wf_snoc,
      negb_false_iff, bool_decide_eq_false, (sc_ids _ _ Hst), elem_of_list_to_set.
    split.
    + intros ((Hw & Hp & Hf) & Ha). split_and!; auto. by exists s, t.
    + intros (? & ? & ? & s' & t' & Hs' & Ht' & Hs2 & Ht2 & Ha).
      assert (node_map nodes !! ed_SourceNodeID e = Some s') as Heq by (apply node_map_lookup; auto).
      rewrite Hs in Heq. by injection Heq as ->.
Qed.

(** An edge that misses a node is reported and left out. *)
Lemma scan_edge_drop l st e : ¬ has_ends e → scan_spec l st → scan_spec (l ++ [e]) (scan_edge (node_map nodes) st e).
Proof.
  intros He Hst. pose proof (lookup_ends e) as Hends. unfold scan_edge.
  assert (¬ edges_wf nodes (l ++ [e])) as Hbad.
  { rewrite edges_wf_snoc. intros (_ & _ & _ & s' & t' & Hs' & Ht' & Hs2 & Ht2 & _). destruct He.
    split; [rewrite <-Hs2|rewrite <-Ht2]; by apply list_elem_of_fmap_2. }
  destruct (node_map nodes !! ed_SourceNodeID e) as [s|]; [destruct (node_map nodes !! ed_TargetNodeID e) as [t|]; [tauto|]|];
  (constructor; cbn [es_issues es_incoming es_outgoing es_outgoingEdges es_edgeIDs];
    [by apply scan_ids_snoc
    |intros x; by rewrite (sc_incoming _ _ Hst), kept_pairs_snoc, decide_False, app_nil_r
    |intros x; by rewrite (sc_outgoing _ _ Hst), kept_pairs_snoc, decide_False, app_nil_r
    |intros x; by rewrite (sc_edges _ _ Hst), (filter_app has_ends), (filter_cons_False has_ends), filter_nil, app_nil_r
    |rewrite !app_nil; split; [by intros (_ & [=])|done]]).
Qed.

Lemma scan_edges_spec l : scan_spec l (fold_left (scan_edge (node_map nodes)) l (MkEdgeScan [] ∅ ∅ ∅ ∅)).
Proof.
  induction l as [|e l IH] using rev_ind.
  - constructor; try done; simpl; try (intros; unfold adj; by rewrite lookup_empty).
    split; [|done]. intros _. constructor; [constructor|set_solver..].
  - rewrite fold_left_app. cbn [fold_left].
    destruct (decide (has_ends e)); [by apply scan_edge_keep|by apply scan_edge_drop].
Qed.
End EdgeScan.

(** ** The graph checks *)

Section GraphChecks.
Context (d : Document) (nodes_nodup : NoDup (nd_ID <$> dc_Nodes d)).
Context (edges_ok : edges_wf (dc_Nodes d) (dc_Edges d)).
Context (st : edge_scan) (scan_ok : scan_spec (dc_Nodes d) (dc_Edges d) st).

Local Notation nodes := (node_map (dc_Nodes d)).

Lemma edges_have_ends e : e ∈ dc_Edges d → has_ends (dc_Nodes d) e.
Proof.
  intros He. destruct (ew_ends _ _ edges_ok e He) as (s & t & Hs & Ht & Hsid & Htid & _).
  split; [rewrite <-Hsid|rewrite <-Htid]; by apply list_elem_of_fmap_2.
Qed.

Lemma edges_kept : filter (has_ends (dc_Nodes d)) (dc_Edges d) = dc_Edges d.
Proof. apply filter_all, edges_have_ends. Qed.

Lemma scan_in t : adj (es_incoming st) t = sources_of (edge_pairs d) t.
Proof. rewrite (sc_incoming _ _ _ scan_ok). unfold kept_pairs. by rewrite edges_kept. Qed.

Lemma scan_out s : adj (es_outgoing st) s = targets_of (edge_pairs d) s.
Proof. rewrite (sc_outgoing _ _ _ scan_ok). unfold kept_pairs. by rewrite edges_kept. Qed.

Lemma scan_edges_from s : default [] (es_outgoingEdges st !! s) = edges_from d s.
Proof. rewrite (sc_edges _ _ _ scan_ok). by rewrite edges_kept. Qed.

Lemma no_incoming t : no_neighbours (es_incoming st) t = true ↔ ∀ s, ¬ flows d s t.
Proof.
  unfold no_neighbours, flows. rewrite bool_decide_eq_true, scan_in, length_zero_iff_nil.
  setoid_rewrite <-elem_of_sources_of. split; [intros -> s; set_solver|].
  intros H. destruct (sources_of _ _) as [|s l]; [done|]. destruct (H s). set_solver.
Qed.

Lemma no_outgoing s : no_neighbours (es_outgoing st) s = true ↔ ∀ t, ¬ flows d s t.
Proof.
  unfold no_neighbours, flows. rewrite bool_decide_eq_true, scan_out, length_zero_iff_nil.
  setoid_rewrite <-elem_of_targets_of. split; [intros -> t; set_solver|].
  intros H. destruct (targets_of _ _) as [|t l]; [done|]. destruct (H t). set_solver.
Qed.

Lemma degree_nil id :
  validate_degree d st id = [] ↔
  (id = dc_EntryNodeID d ↔ ∀ s, ¬ flows d s id) ∧ (id = dc_ExitNodeID d ↔ ∀ t, ¬ flows d id t).
Proof.
  unfold validate_degree. rewrite app_nil, <-no_incoming, <-no_outgoing.
  f_equiv; case_bool_decide; rewrite node_issue_nil, ?negb_false_iff;
    destruct (no_neighbours _ id); naive_solver.
Qed.

Lemma elem_of_node_keys id : id ∈ sorted_keys nodes ↔ ∃ n, n ∈ dc_Nodes d ∧ nd_ID n = id.
Proof.
  rewrite elem_of_sorted_keys, node_map_is_Some, list_elem_of_fmap. split; intros (n & ? & ?); eauto.
Qed.

Lemma degrees_nil : flat_map (validate_degree d st) (sorted_keys nodes) = [] ↔
  (∀ n, n ∈ dc_Nodes d → (nd_ID n = dc_EntryNodeID d ↔ ∀ s, ¬ flows d s (nd_ID n))) ∧
  (∀ n, n ∈ dc_Nodes d → (nd_ID n = dc_ExitNodeID d ↔ ∀ t, ¬ flows d (nd_ID n) t)).
Proof.
  rewrite flat_map_nil, Forall_forall. setoid_rewrite elem_of_node_keys. setoid_rewrite degree_nil.
  split.
  - intros H. split; intros n Hn; apply (H (nd_ID n)); eauto.
  - intros [H1 H2] id (n & Hn & <-). auto.
Qed.

Lemma cycle_check :
  Nat.eqb (length (kahn (sorted_keys nodes) (es_incoming st) (es_outgoing st))) (length (sorted_keys nodes)) = true
  ↔ acyclic (edge_pairs d).
Proof.
  rewrite Nat.eqb_eq. apply kahn_complete.
  - apply NoDup_sorted_keys.
  - intros s t Hst. unfold edge_pairs in Hst. apply list_elem_of_fmap in Hst as (e & [= -> ->] & He).
    rewrite !elem_of_sorted_keys, !node_map_is_Some. by apply edges_have_ends.
  - intros t _. by rewrite scan_in.
  - intros s _. by rewrite scan_out.
Qed.

Lemma reach_from_entry id : id ∈ reachableNodes (dc_EntryNodeID d) (es_outgoing st) ↔ rtc (flows d) (dc_EntryNodeID d) id.
Proof.
  unfold reachableNodes. rewrite reachable_spec.
  split; apply rtc_subrel; intros s t; unfold edge, flows; by rewrite scan_out, elem_of_targets_of.
Qed.

Lemma reach_to_exit id : id ∈ reachableNodes (dc_ExitNodeID d) (es_incoming st) ↔ rtc (flows d) id (dc_ExitNodeID d).
Proof.
  unfold reachableNodes. rewrite reachable_spec, <-(rtc_flip_iff (flows d)).
  split; apply rtc_subrel; intros s t; unfold edge, flows, flip; by rewrite scan_in, elem_of_sources_of.
Qed.

Lemma branch_routes_nil n edges : validateDSLBranchRoutes n edges = [] ↔ routes_ok n edges.
Proof.
  unfold validateDSLBranchRoutes, routes_ok. rewrite app_nil, !flat_map_nil, !Forall_forall. f_equiv.
  - apply forall_proper; intros e. by rewrite edge_issue_nil, negb_false_iff, bool_decide_eq_true, elem_of_list_to_set.
  - apply forall_proper; intros r. rewrite elem_of_elements, elem_of_list_to_set, node_issue_nil, andb_false_iff,
      !negb_false_iff. unfold is_empty. rewrite !bool_decide_eq_true, elem_of_list_to_set, list_elem_of_fmap.
    split; intros H Hr.
    + intros Hne. destruct (H Hr) as [?|(e & -> & He)]; [done|]. eauto.
    + destruct (decide (r = "")) as [|Hne]; [auto|]. destruct (H Hr Hne) as (e & He & <-). eauto.
Qed.

Lemma reaches_nil :
  flat_map (λ '(id, n), validate_reach (reachableNodes (dc_EntryNodeID d) (es_outgoing st))
     (reachableNodes (dc_ExitNodeID d) (es_incoming st)) st id n) (sorted_items nodes) = [] ↔
  (∀ n, n ∈ dc_Nodes d → rtc (flows d) (dc_EntryNodeID d) (nd_ID n)) ∧
  (∀ n, n ∈ dc_Nodes d → rtc (flows d) (nd_ID n) (dc_ExitNodeID d)) ∧
  (∀ n, n ∈ dc_Nodes d → is_branch n → routes_ok n (edges_from d (nd_ID n))).
Proof.
  rewrite flat_map_nil, Forall_forall.
  assert (∀ id n, validate_reach (reachableNodes (dc_EntryNodeID d) (es_outgoing st))
     (reachableNodes (dc_ExitNodeID d) (es_incoming st)) st id n = [] ↔
     rtc (flows d) (dc_EntryNodeID d) id ∧ rtc (flows d) id (dc_ExitNodeID d) ∧
     (is_branch n → routes_ok n (edges_from d id))) as Hone.
  { intros id n. unfold validate_reach, is_branch. rewrite !app_nil, !node_issue_nil, !negb_false_iff, !bool_decide_eq_true,
      reach_from_entry, reach_to_exit.
    case_bool_decide; rewrite ?scan_edges_from, ?branch_routes_nil; naive_solver. }
  split.
  - intros H. split_and!; intros n Hn;
      destruct (proj1 (Hone (nd_ID n) n)) as (? & ? & ?); auto;
      apply (H (nd_ID n, n)), elem_of_sorted_items, node_map_lookup; auto.
  - intros (H1 & H2 & H3) [id n] Hin. apply elem_of_sorted_items, node_map_lookup in Hin as [Hn <-]; [|done].
    apply Hone. auto.
Qed.
End GraphChecks.

Lemma graph_nil d :
  NoDup (nd_ID <$> dc_Nodes d) → dc_Nodes d ≠ [] →
  validateEdgesAndGraph d (node_map (dc_Nodes d)) = [] ↔
  edges_wf (dc_Nodes d) (dc_Edges d) ∧
  ((∀ n, n ∈ dc_Nodes d → (nd_ID n = dc_EntryNodeID d ↔ ∀ s, ¬ flows d s (nd_ID n))) ∧
   (∀ n, n ∈ dc_Nodes d → (nd_ID n = dc_ExitNodeID d ↔ ∀ t, ¬ flows d (nd_ID n) t))) ∧
  acyclic (edge_pairs d) ∧
  (∀ n, n ∈ dc_Nodes d → rtc (flows d) (dc_EntryNodeID d) (nd_ID n)) ∧
  (∀ n, n ∈ dc_Nodes d → rtc (flows d) (nd_ID n) (dc_ExitNodeID d)) ∧
  (∀ n, n ∈ dc_Nodes d → is_branch n → routes_ok n (edges_from d (nd_ID n))).
Proof.
  intros Hnd Hne. unfold validateEdgesAndGraph.
  assert (node_map (dc_Nodes d) ≠ ∅) as Hmap.
  { destruct (dc_Nodes d) as [|n l] eqn:Hl; [done|]. intros He.
    assert (is_Some (node_map (n :: l) !! nd_ID n)) as [? Hs] by (apply node_map_is_Some; set_solver).
    by rewrite He, lookup_empty in Hs. }
  rewrite bool_decide_false by done.
  pose proof (scan_edges_spec (dc_Nodes d) Hnd (dc_Edges d)) as Hscan.
  set (st := fold_left _ _ _) in *. rewrite !app_nil, (sc_issues _ _ _ Hscan).
  apply and_iff_compat_l'. intros Hew. rewrite issue_if_nil, negb_false_iff.
  rewrite degrees_nil, cycle_check, reaches_nil by done. done.
Qed.

Lemma reference_nil l id name b :
  NoDup (nd_ID <$> l) → validate_reference (node_map l) id name b = [] ↔ reference_ok l b.
Proof.
  intros Hnd. unfold validate_reference, reference_ok.
  destruct (ib_Kind b); [split; [intros _ o [=]|done]| |split; [intros _ o [=]|done]].
  destruct (ib_Output b) as [o|]; [|split; [intros _ o _ [=]|done]].
  destruct (node_map l !! or_NodeID o) as [m|] eqn:Hm.
  - apply node_map_lookup in Hm as [Hm Hid]; [|done].
    destruct (outputs m !! or_Name o) as [t|] eqn:Ht.
    + rewrite node_issue_nil, negb_false_iff. split.
      * intros Hc o' _ [= <-]. eauto 7.
      * intros H. destruct (H o eq_refl eq_refl) as (m' & t' & Hm' & Hid' & Ht' & Hc).
        assert (Some m = Some m') as [= ->]; [|congruence].
        transitivity (node_map l !! or_NodeID o); [symmetry|]; by apply node_map_lookup.
    + split; [by intros [=]|]. intros H. destruct (H o eq_refl eq_refl) as (m' & t' & Hm' & Hid' & Ht' & Hc).
      assert (Some m = Some m') as [= ->]; [|congruence].
      transitivity (node_map l !! or_NodeID o); [symmetry|]; by apply node_map_lookup.
  - split; [by intros [=]|]. intros H. destruct (H o eq_refl eq_refl) as (m' & t' & Hm' & Hid' & _).
    assert (node_map l !! or_NodeID o = Some m') by (by apply node_map_lookup). congruence.
Qed.

Lemma endpoint_nil l id c a b f g h :
  NoDup (nd_ID <$> l) →
  validate_endpoint (node_map l) id c a b f g h = [] ↔ ∃ n, n ∈ l ∧ nd_ID n = id ∧ coordinate n = c.
Proof.
  intros Hnd. unfold validate_endpoint. destruct (node_map l !! id) as [n|] eqn:Hn.
  - rewrite node_issue_nil, negb_false_iff, bool_decide_eq_true.
    pose proof Hn as [Hin Hid]%node_map_lookup; [|done]. split; [eauto|].
    intros (n' & Hn' & Hid' & <-). f_equal. assert (node_map l !! id = Some n') by (by apply node_map_lookup). congruence.
  - split; [by intros [=]|]. intros (n' & Hn' & Hid' & _).
    assert (node_map l !! id = Some n') by (by apply node_map_lookup). congruence.
Qed.

Lemma references_nil l :
  NoDup (nd_ID <$> l) →
  flat_map (λ n, flat_map (λ '(name, b), validate_reference (node_map l) (nd_ID n) name b) (sorted_items (inputs n))) l = [] ↔
  ∀ n name b, n ∈ l → inputs n !! name = Some b → reference_ok l b.
Proof.
  intros Hnd. rewrite flat_map_nil, Forall_forall. setoid_rewrite flat_map_nil. setoid_rewrite Forall_forall. split.
  - intros H n name b Hn Hb. apply (reference_nil l (nd_ID n) name); [done|].
    apply (H n Hn (name, b)). by apply elem_of_sorted_items.
  - intros H n Hn [name b] Hb. apply elem_of_sorted_items in Hb. apply reference_nil; eauto.
Qed.

Lemma Validate_doc_wf c d : Validate c d = [] ↔ doc_wf c d.
Proof.
  unfold Validate. pose proof (scan_nodes_spec c (dc_Nodes d)) as Hscan.
  destruct (fold_left (scan_node c) (dc_Nodes d) ([], ∅)) as [issues nodes]. destruct Hscan as [-> Hissues].
  rewrite sortIssues_nil, !app_nil, !issue_if_nil, !negb_false_iff, bool_decide_eq_true, !Nat.eqb_eq, Hissues.
  split.
  - intros (Hv & Hn & Hs & He & Hen & Hex & Hg & Hr). pose proof (nw_ids _ _ Hn) as Hnd.
    rewrite endpoint_nil in Hen, Hex by done. rewrite references_nil in Hr by done.
    assert (dc_Nodes d ≠ []) as Hne by (destruct Hen as (n & Hin & _); intros Hl; rewrite Hl in Hin; set_solver).
    rewrite graph_nil in Hg by done. destruct Hg as (? & (? & ?) & ? & ? & ? & ?). by constructor.
  - intros [Hv Hn Hs He Hen Hex Hew Hso Hsi Hac Hfe Hte Hro Hre]. pose proof (nw_ids _ _ Hn) as Hnd.
    assert (dc_Nodes d ≠ []) as Hne by (destruct Hen as (n & Hin & _); intros Hl; rewrite Hl in Hin; set_solver).
    rewrite !endpoint_nil, references_nil, graph_nil by done. split_and!; done.
Qed.

(** ** What a checked node offers *)

Lemma builtin_contract_ok ValidateSource :
  NewContract VersionV1 (builtin_specs ValidateSource) = Ok (BuiltinV1Contract ValidateSource).
Proof. reflexivity. Qed.

(** ** A sample document: start, a branch on an object, a task on each route,
    and an end that reads the start's output. *)

Definition sample_id (k : string) : string := "xn_00000000000000000000000" +:+ k.
Definition sample_edge_id (k : string) : string := "xe_00000000000000000000000" +:+ k.
Definition no_policy : ExecutionPolicy := MkExecutionPolicy 0 0 0 None [].
Definition task_policy : ExecutionPolicy :=
  MkExecutionPolicy 2 1 60000 (Some (MkRetryBackoff "fixed" 1000)) ["E_RETRY"].
Definition q (s : string) : string := String "034" (s +:+ String "034" "").
Definition reads (t : DataType) (id name : string) : InputBinding :=
  MkInputBinding BindingNodeOutput t "" (Some (MkOutputReference id name)).

Definition sample_task (k : string) : Node :=
  MkNode (sample_id k) KindTask
    (MkOperation "task.python" 1 (Some {["source_code" := q "def main(inputs): return inputs"; "sandbox_profile" := q "small"]}))
    (Some {["data" := reads TypeObject (sample_id "1") "workflow_input"]})
    (Some {["out" := TypeNumber]}) task_policy.

Definition sample_cases : string :=
  "[{" +:+ q "route" +:+ ":" +:+ q "high" +:+ "," +:+ q "path" +:+ ":" +:+ q "score" +:+ ","
  +:+ q "operator" +:+ ":" +:+ q "gt" +:+ "," +:+ q "value" +:+ ":10}]".

Definition sample_document : Document :=
  MkDocument VersionV1 (sample_id "1") (sample_id "5")
    [ MkNode (sample_id "1") KindControl (MkOperation "control.start" 1 (Some ∅)) (Some ∅)
        (Some {["workflow_input" := TypeObject]}) no_policy;
      MkNode (sample_id "2") KindControl
        (MkOperation "control.branch" 1 (Some {["cases" := sample_cases; "default_route" := q "low"]}))
        (Some {["value" := reads TypeObject (sample_id "1") "workflow_input"]}) (Some ∅) no_policy;
      sample_task "3"; sample_task "4";
      MkNode (sample_id "5") KindControl (MkOperation "control.end" 1 (Some ∅))
        (Some {["workflow_output" := reads TypeObject (sample_id "1") "workflow_input"]}) (Some ∅) no_policy ]
    [ MkEdge (sample_edge_id "1") (sample_id "1") (sample_id "2") (MkActivation ActivationAlways "");
      MkEdge (sample_edge_id "2") (sample_id "2") (sample_id "3") (MkActivation ActivationRoute "high");
      MkEdge (sample_edge_id "3") (sample_id "2") (sample_id "4") (MkActivation ActivationRoute "low");
      MkEdge (sample_edge_id "4") (sample_id "3") (sample_id "5") (MkActivation ActivationAlways "");
      MkEdge (sample_edge_id "5") (sample_id "4") (sample_id "5") (MkActivation ActivationAlways "") ].

Definition sample_contract : Contract := BuiltinV1Contract (λ _, None).

Lemma sample_valid : Validate sample_contract sample_document = [].
Proof. vm_compute. reflexivity. Qed.

(** An edge back from the last task to the branch closes a cycle. *)
Example sample_cycle :
  is_Code <$> Validate sample_contract (MkDocument VersionV1 (sample_id "1") (sample_id "5")
    (dc_Nodes sample_document)
    (dc_Edges sample_document ++ [MkEdge (sample_edge_id "6") (sample_id "4") (sample_id "2") (MkActivation ActivationAlways "")]))
  = ["DSL_GRAPH_CYCLE"].
Proof. vm_compute. reflexivity. Qed.

(** ** Properties *)

(** C35: the contract validator accepts exactly the well-formed documents: node
    and edge identities are unique and have their format, every node passes
    its operation's checks, there is one start and one end node and they are
    the entry and the exit, edges join known nodes and carry the activation of
    their source, exactly the entry has no incoming and exactly the exit no
    outgoing edge, the control graph is acyclic, every node lies on a path from
    entry to exit, branch routes and edges match, and every output reference
    resolves to a declared output of compatible type. *)
Theorem validate_exact c d : Validate c d = [] ↔ doc_wf c d.
Proof. apply Validate_doc_wf. Qed.
