(* ===== verification/Ir.v ===== *)
(** * The author's workflow representation

    Models internal/ir: the document (model.go), diagnostics (diagnostic.go),
    paths (path.go), identifiers (id.go), literals (types.go) and the validator
    (validator.go).  [ir.DataType] and [dsl.DataType] are string types with the
    same six constants, kept as one type.  The text that encoding/json gives to a
    syntax error is not modelled. *)

From Stdlib Require Import Ascii QArith_base.
From S2P Require Import Prelude Json Graph Dsl.

Open Scope string_scope.
Open Scope list_scope.
Open Scope Z_scope.

(** ** Documents *)

Inductive InputSource : Type := SourceLiteral | SourceRef | SourceOther (raw : string).

#[export] Instance InputSource_eq_dec : EqDecision InputSource.
Proof. solve_decision. Defined.

Definition InputSource_Valid (s : InputSource) : bool :=
  match s with SourceOther _ => false | _ => true end.

(** A nil [Value] is absent. *)
Record Input : Type := MkInput {
  input_Name : string;
  input_DataType : DataType;
  input_Source : InputSource;
  input_Value : option string;
  input_RefNode : string;
  input_RefOutput : string }.

Definition HasValue (i : Input) : bool := bool_decide (is_Some (input_Value i)).

Record Output : Type := MkOutput { output_Name : string; output_DataType : DataType }.

(** A nil slice of ports is absent. *)
Record Node : Type := MkNode {
  node_ID : string;
  node_Type : string;
  node_Title : string;
  node_Inputs : option (list Input);
  node_Outputs : option (list Output) }.

Record Edge : Type := MkEdge {
  edge_ID : string;
  edge_Source : string;
  edge_Target : string;
  edge_Route : string }.

Record Position : Type := MkPosition { position_X : option string; position_Y : option string }.

Record Document : Type := MkDocument {
  doc_IRVersion : string;
  doc_Nodes : list Node;
  doc_Edges : list Edge;
  doc_Layout : gmap string Position }.

(** Ranging over a possibly nil slice. *)
Definition inputs_of (n : Node) : list Input := default [] (node_Inputs n).
Definition outputs_of (n : Node) : list Output := default [] (node_Outputs n).

Definition VersionV1 : string := "1".

(** ** Diagnostics *)

Inductive Severity : Type := SeverityError | SeverityWarning | SeverityOther (raw : string).
Inductive Phase : Type :=
  | PhaseParse | PhaseStructure | PhaseCatalog | PhaseReference | PhaseGraph | PhaseBinding
  | PhaseResource | PhaseCompile | PhaseDSL | PhaseSourceMap | PhaseCanonical | PhaseOther (raw : string).

#[export] Instance Severity_eq_dec : EqDecision Severity.
Proof. solve_decision. Defined.

Record Location : Type := MkLocation { loc_LogicalNodeID : string; loc_LogicalEdgeID : string; loc_IRPath : string }.

#[export] Instance Location_eq_dec : EqDecision Location.
Proof. solve_decision. Defined.

Inductive detail : Type := DetailString (s : string) | DetailInt (z : Z).

Record Diagnostic : Type := MkDiagnostic {
  diag_Code : string;
  diag_Severity : Severity;
  diag_Phase : Phase;
  diag_Message : string;
  diag_Locations : list Location;
  diag_Details : gmap string detail }.

Definition MaxDiagnostics : nat := 100.

Definition no_location : Location := MkLocation "" "" "".
Definition at_path (path : string) : Location := MkLocation "" "" path.
Definition at_node (id path : string) : Location := MkLocation id "" path.
Definition at_edge (id path : string) : Location := MkLocation "" id path.

Definition ErrorDiagnostic (phase : Phase) (code message : string) (location : Location) : Diagnostic :=
  MkDiagnostic code SeverityError phase message
    (if bool_decide (location = no_location) then [] else [location]) ∅.

Definition with_details (details : gmap string detail) (d : Diagnostic) : Diagnostic :=
  MkDiagnostic (diag_Code d) (diag_Severity d) (diag_Phase d) (diag_Message d) (diag_Locations d) details.

Definition phaseSortKey (value : Phase) : string :=
  match value with
  | PhaseParse => "0" | PhaseStructure => "1" | PhaseCatalog => "2" | PhaseReference => "3"
  | PhaseGraph => "4" | PhaseBinding => "5" | PhaseResource => "6" | PhaseCompile => "7"
  | PhaseDSL => "8" | PhaseSourceMap => "9" | PhaseCanonical => "a"
  | PhaseOther raw => "z" +:+ raw
  end.

Definition nul : string := String "000" "".

Definition diagnosticKey (value : Diagnostic) : string :=
  let severity := if bool_decide (diag_Severity value = SeverityError) then "0" else "1" in
  let location := match diag_Locations value with l :: _ => l | [] => no_location end in
  String.concat nul
    [severity; phaseSortKey (diag_Phase value); loc_IRPath location; loc_LogicalNodeID location;
     loc_LogicalEdgeID location; diag_Code value].

Definition diagnostic_leb (a b : Diagnostic) : bool := String.leb (diagnosticKey a) (diagnosticKey b).

Definition SortDiagnostics (values : list Diagnostic) : list Diagnostic := stable_sort diagnostic_leb values.

Definition is_error (d : Diagnostic) : bool := bool_decide (diag_Severity d = SeverityError).

Definition HasErrors (values : list Diagnostic) : bool := existsb is_error values.

Definition LimitDiagnostics (values : list Diagnostic) : list Diagnostic :=
  if Nat.leb (length values) MaxDiagnostics then values
  else
    let omitted := Z.of_nat (length values) - (Z.of_nat MaxDiagnostics - 1) in
    take (MaxDiagnostics - 1) values
    ++ [MkDiagnostic "DIAGNOSTIC_LIMIT_REACHED" SeverityWarning PhaseStructure "additional diagnostics were omitted" []
          {["omitted" := DetailInt omitted]}].

(** ** Paths *)

(** [strings.ReplaceAll] of a one-byte pattern. *)
Fixpoint replace_byte (a : ascii) (by_ s : string) : string :=
  match s with
  | "" => ""
  | String b r => if bool_decide (a = b) then by_ +:+ replace_byte a by_ r else String b (replace_byte a by_ r)
  end.

Definition pointerToken (value : string) : string :=
  replace_byte "/" "~1" (replace_byte "~" "~0" value).

Definition NodePath (id : string) (index : nat) : string :=
  if is_empty id then "/nodes/" +:+ pretty index else "/nodes/" +:+ pointerToken id.

Definition InputPath (nodeID : string) (nodeIndex : nat) (name : string) (inputIndex : nat) : string :=
  let base := NodePath nodeID nodeIndex +:+ "/inputs/" in
  if is_empty name then base +:+ pretty inputIndex else base +:+ pointerToken name.

Definition OutputPath (nodeID : string) (nodeIndex : nat) (name : string) (outputIndex : nat) : string :=
  let base := NodePath nodeID nodeIndex +:+ "/outputs/" in
  if is_empty name then base +:+ pretty outputIndex else base +:+ pointerToken name.

Definition EdgePath (id : string) (index : nat) : string :=
  if is_empty id then "/edges/" +:+ pretty index else "/edges/" +:+ pointerToken id.

(** [strings.TrimSuffix(s, "/")] *)
Fixpoint trim_slash (s : string) : string :=
  match s with
  | "" => ""
  | String a r => if bool_decide (a = "/"%char) && is_empty r then "" else String a (trim_slash r)
  end.

Definition withField (location : Location) (field : string) : Location :=
  MkLocation (loc_LogicalNodeID location) (loc_LogicalEdgeID location)
    (trim_slash (loc_IRPath location) +:+ "/" +:+ field).

(** ** Identifiers *)

Definition is_alnum (a : ascii) : bool := is_letter a || is_digit a.
Definition is_lower (a : ascii) : bool := in_range 97 122 a.

(** [^[A-Za-z0-9][A-Za-z0-9_-]{0,127}$] *)
Definition ValidLogicalID (s : string) : bool :=
  match s with
  | "" => false
  | String a r => is_alnum a && string_all (λ b, is_word b || (code b =? 45)%N) r && Nat.leb (String.length r) 127
  end.

Definition ValidPortName : string → bool := portPattern.
Definition ValidRouteName : string → bool := portPattern.

(** [^[a-z][a-z0-9_]{0,63}$] *)
Definition ValidNodeType (s : string) : bool :=
  match s with
  | "" => false
  | String a r => is_lower a && string_all (λ b, is_lower b || is_digit b || (code b =? 95)%N) r && Nat.leb (String.length r) 63
  end.

(** ** Texts *)

(** [utf8.ValidString] *)
Definition utf8_valid (s : string) : bool := bool_decide (to_valid_utf8 0 s = s).

(** [unicode.IsSpace] on the bytes of one to three byte sequences. *)
Definition space2 (a b : ascii) : bool := (code a =? 194)%N && ((code b =? 133)%N || (code b =? 160)%N).
Definition space3 (a b c : ascii) : bool :=
  (code a =? 225)%N && (code b =? 154)%N && (code c =? 128)%N
  || (code a =? 226)%N && (code b =? 128)%N
     && (in_range 128 138 c || (code c =? 168)%N || (code c =? 169)%N || (code c =? 175)%N)
  || (code a =? 226)%N && (code b =? 129)%N && (code c =? 159)%N
  || (code a =? 227)%N && (code b =? 128)%N && (code c =? 128)%N.

(** [strings.TrimSpace(s) == ""] *)
Fixpoint blank (s : string) : bool :=
  match s with
  | "" => true
  | String a r =>
      if in_range 9 13 a || (code a =? 32)%N then blank r
      else match r with
      | String b r2 =>
          if space2 a b then blank r2
          else match r2 with String c r3 => space3 a b c && blank r3 | "" => false end
      | "" => false
      end
  end.

(** ** Literals *)

Definition Compatible : DataType → DataType → bool := compatible.

Definition DecodeLiteral (raw : option string) : res (json * DataType) :=
  match raw with
  | None => Err (Errorf "literal value is missing" [])
  | Some text =>
      match parse text with
      | None => Err (Errorf "JSON syntax error" [])
      | Some (syntax, rest) =>
          guard_err (negb (is_empty (skip_space rest))) (Errorf "literal contains trailing JSON" []) ;;
          match json_data_type (to_any syntax) with
          | None => Err (Errorf "top-level null is not a supported IR type" [])
          | Some t => Ok (to_any syntax, t)
          end
      end
  end.

Definition maxSafeInteger : Z := 9007199254740991.

Definition SafeInteger (number : string) : bool :=
  match rat_set_string number with
  | Some q => rat_is_int q && (- maxSafeInteger <=? Qnum q / Z.pos (Qden q)) && (Qnum q / Z.pos (Qden q) <=? maxSafeInteger)
  | None => false
  end.

(** ** The validator *)

Definition MaxNodesPerDocument : Z := 10000.
Definition MaxEdgesPerDocument : Z := 10000.
Definition MaxPortsPerNode : nat := 128.
Definition MaxNodeTitleBytes : nat := 256.

Definition report (b : bool) (phase : Phase) (code message : string) (location : Location) : list Diagnostic :=
  if b then [ErrorDiagnostic phase code message location] else [].

Definition report_type (b : bool) (phase : Phase) (code message : string) (location : Location) (k1 : string) (t1 : DataType)
    (k2 : string) (t2 : DataType) : list Diagnostic :=
  with_details {[k1 := DetailString (data_type_string t1); k2 := DetailString (data_type_string t2)]} <$>
    report b phase code message location.

Definition validateInputSource (input : Input) (location : Location) : list Diagnostic :=
  match input_Source input with
  | SourceOther _ =>
      report true PhaseStructure "INPUT_SOURCE_INVALID" "input source must be literal or ref" (withField location "source")
  | SourceLiteral =>
      report (negb (HasValue input && is_empty (input_RefNode input) && is_empty (input_RefOutput input))) PhaseStructure
        "INPUT_SOURCE_FIELDS_INVALID" "literal and ref fields are mutually exclusive" location
  | SourceRef =>
      if negb (HasValue input) && negb (is_empty (input_RefNode input)) && negb (is_empty (input_RefOutput input))
      then report (negb (ValidLogicalID (input_RefNode input)) || negb (ValidPortName (input_RefOutput input))) PhaseStructure
             "INPUT_REF_ID_INVALID" "ref_node and ref_output must be valid author identifiers" location
      else report true PhaseStructure "INPUT_SOURCE_FIELDS_INVALID" "literal and ref fields are mutually exclusive" location
  end.

Definition validateLiteral (input : Input) (location : Location) : list Diagnostic :=
  match DecodeLiteral (input_Value input) with
  | Err x => report true PhaseStructure "LITERAL_INVALID" (error_string x) (withField location "value")
  | Ok (value, actual) =>
      let unsafe := match value with
        | JNum number => bool_decide (input_DataType input = TypeInteger) && bool_decide (actual = TypeInteger) && negb (SafeInteger number)
        | _ => false
        end in
      if unsafe : bool
      then report true PhaseStructure "INTEGER_OUT_OF_RANGE" "integer exceeds the JavaScript safe integer range" (withField location "value")
      else report_type (negb (Compatible actual (input_DataType input))) PhaseStructure "LITERAL_TYPE_MISMATCH"
             "literal value does not match data_type" (withField location "value")
             "expected" (input_DataType input) "actual" actual
  end.

(** The names of the earlier ports of the list come first. *)
Definition validate_input_port (id : string) (index : nat) (inputs : list Input) (inputIndex : nat) (input : Input) : list Diagnostic :=
  let location := at_node id (InputPath id index (input_Name input) inputIndex) in
  report (negb (ValidPortName (input_Name input))) PhaseStructure "INPUT_NAME_INVALID"
    "input name must be a safe identifier up to 64 bytes" location
  ++ report (bool_decide (input_Name input ∈ input_Name <$> take inputIndex inputs)) PhaseStructure "INPUT_NAME_DUPLICATE"
       "input name must be unique within a node" location
  ++ report (negb (DataType_Valid (input_DataType input))) PhaseStructure "INPUT_DATA_TYPE_INVALID"
       "input data_type is unsupported" (withField location "data_type")
  ++ validateInputSource input location
  ++ (if bool_decide (input_Source input = SourceLiteral) && HasValue input && DataType_Valid (input_DataType input)
      then validateLiteral input location else []).

Definition validate_output_port (id : string) (index : nat) (outputs : list Output) (outputIndex : nat) (output : Output) : list Diagnostic :=
  let location := at_node id (OutputPath id index (output_Name output) outputIndex) in
  report (negb (ValidPortName (output_Name output))) PhaseStructure "OUTPUT_NAME_INVALID"
    "output name must be a safe identifier up to 64 bytes" location
  ++ report (bool_decide (output_Name output ∈ output_Name <$> take outputIndex outputs)) PhaseStructure "OUTPUT_NAME_DUPLICATE"
       "output name must be unique within a node" location
  ++ report (negb (DataType_Valid (output_DataType output))) PhaseStructure "OUTPUT_DATA_TYPE_INVALID"
       "output data_type is unsupported" (withField location "data_type").

(** The port interface of the node catalog, absent in a structural validator. *)
Notation NodeContractValidator := (option (Node → list Diagnostic)) (only parsing).

Definition validate_ir_node (nodeContracts : NodeContractValidator) (earlier : list Node) (index : nat) (node : Node) : list Diagnostic :=
  let location := at_node (node_ID node) (NodePath (node_ID node) index) in
  report (negb (ValidLogicalID (node_ID node))) PhaseStructure "LOGICAL_NODE_ID_INVALID" "node id must be 1-128 safe ASCII characters" location
  ++ report (bool_decide (node_ID node ∈ node_ID <$> earlier)) PhaseStructure "NODE_ID_DUPLICATE" "node id must be unique within the IR" location
  ++ report (negb (ValidNodeType (node_Type node))) PhaseStructure "NODE_TYPE_INVALID" "node type is invalid" (withField location "type")
  ++ report (blank (node_Title node) || negb (utf8_valid (node_Title node)) || Nat.ltb MaxNodeTitleBytes (String.length (node_Title node)))
       PhaseStructure "NODE_TITLE_INVALID" "node title must be non-empty valid UTF-8 up to 256 bytes" (withField location "title")
  ++ report (bool_decide (node_Inputs node = None)) PhaseStructure "NODE_INPUTS_REQUIRED" "node inputs must be an array" (withField location "inputs")
  ++ report (bool_decide (node_Outputs node = None)) PhaseStructure "NODE_OUTPUTS_REQUIRED" "node outputs must be an array" (withField location "outputs")
  ++ report (Nat.ltb MaxPortsPerNode (length (inputs_of node))) PhaseStructure "INPUT_LIMIT_EXCEEDED" "node contains too many inputs" (withField location "inputs")
  ++ report (Nat.ltb MaxPortsPerNode (length (outputs_of node))) PhaseStructure "OUTPUT_LIMIT_EXCEEDED" "node contains too many outputs" (withField location "outputs")
  ++ concat (imap (validate_input_port (node_ID node) index (inputs_of node)) (inputs_of node))
  ++ concat (imap (validate_output_port (node_ID node) index (outputs_of node)) (outputs_of node))
  ++ match nodeContracts with Some validateNode => validateNode node | None => [] end.

(** The first node of an identifier. *)
Definition first_node (nodes : list Node) (id : string) : option Node := List.find (λ n, bool_decide (node_ID n = id)) nodes.

Definition validate_edge (nodes : list Node) (earlier : list Edge) (index : nat) (edge : Edge) : list Diagnostic :=
  let location := at_edge (edge_ID edge) (EdgePath (edge_ID edge) index) in
  report (negb (ValidLogicalID (edge_ID edge))) PhaseStructure "LOGICAL_EDGE_ID_INVALID" "edge id must be 1-128 safe ASCII characters" location
  ++ report (bool_decide (edge_ID edge ∈ edge_ID <$> earlier)) PhaseStructure "EDGE_ID_DUPLICATE" "edge id must be unique within the IR" location
  ++ report (negb (ValidLogicalID (edge_Source edge))) PhaseStructure "EDGE_SOURCE_ID_INVALID" "edge source must be a valid logical node id" (withField location "source")
  ++ report (negb (ValidLogicalID (edge_Target edge))) PhaseStructure "EDGE_TARGET_ID_INVALID" "edge target must be a valid logical node id" (withField location "target")
  ++ report (negb (bool_decide (is_Some (first_node nodes (edge_Source edge))))) PhaseReference "EDGE_SOURCE_NOT_FOUND" "edge source node does not exist" (withField location "source")
  ++ report (negb (bool_decide (is_Some (first_node nodes (edge_Target edge))))) PhaseReference "EDGE_TARGET_NOT_FOUND" "edge target node does not exist" (withField location "target")
  ++ (if match first_node nodes (edge_Source edge) with Some source => bool_decide (node_Type source = "branch") | None => false end
      then report (negb (ValidRouteName (edge_Route edge))) PhaseStructure "BRANCH_EDGE_ROUTE_REQUIRED" "branch edge must contain a valid route" (withField location "route")
      else report (negb (is_empty (edge_Route edge))) PhaseStructure "EDGE_ROUTE_FORBIDDEN" "route is only allowed on branch edges" (withField location "route")).

Definition validate_position (nodes : list Node) (id : string) (position : Position) : list Diagnostic :=
  let location := at_node id ("/layout/" +:+ pointerToken id) in
  report (negb (ValidLogicalID id)) PhaseStructure "LAYOUT_NODE_ID_INVALID" "layout key must be a valid logical node id" location
  ++ report (negb (bool_decide (is_Some (first_node nodes id)))) PhaseReference "LAYOUT_NODE_NOT_FOUND" "layout key does not reference an existing node" location
  ++ report (bool_decide (position_X position = None) || bool_decide (position_Y position = None)) PhaseStructure "LAYOUT_POSITION_INVALID"
       "layout position requires numeric x and y" location.

(** The first nodes of their identifiers, with their positions in the list. *)
Definition first_nodes (nodes : list Node) : list (nat * Node) :=
  filter (λ p, node_ID p.2 ∉ node_ID <$> take p.1 nodes) (imap pair nodes).

Definition validate_placed (layout : gmap string Position) (p : nat * Node) : list Diagnostic :=
  report (negb (bool_decide (is_Some (layout !! node_ID p.2)))) PhaseReference "LAYOUT_POSITION_MISSING" "every node requires a shared layout position"
    (at_node (node_ID p.2) (NodePath (node_ID p.2) p.1)).

(** [outputs[id]]: the declared ports of the last node of an identifier, the
    last declaration of a name. *)
Definition output_types (nodes : list Node) : gmap string (gmap string DataType) :=
  fold_left (λ m n, <[node_ID n := fold_left (λ o p, <[output_Name p := output_DataType p]> o) (outputs_of n) ∅]> m) nodes ∅.

Definition validate_ref (outputs : gmap string (gmap string DataType)) (id : string) (nodeIndex inputIndex : nat) (input : Input) : list Diagnostic :=
  if negb (bool_decide (input_Source input = SourceRef)) then [] else
  let location := at_node id (InputPath id nodeIndex (input_Name input) inputIndex) in
  match outputs !! input_RefNode input with
  | None => report true PhaseReference "REF_NODE_NOT_FOUND" "referenced node does not exist" (withField location "ref_node")
  | Some sourceOutputs =>
      match sourceOutputs !! input_RefOutput input with
      | None => report true PhaseReference "REF_OUTPUT_NOT_FOUND" "referenced output does not exist" (withField location "ref_output")
      | Some sourceType =>
          report_type (DataType_Valid (input_DataType input) && DataType_Valid sourceType && negb (Compatible sourceType (input_DataType input)))
            PhaseReference "REF_TYPE_MISMATCH" "referenced output type is incompatible with input type" (withField location "data_type")
            "source" sourceType "target" (input_DataType input)
      end
  end.

Definition ir_diagnostics (nodeContracts : NodeContractValidator) (document : Document) : list Diagnostic :=
  let nodes := doc_Nodes document in
  let edges := doc_Edges document in
  report (negb (bool_decide (doc_IRVersion document = VersionV1))) PhaseStructure "IR_VERSION_UNSUPPORTED" "ir_version must be 1" (at_path "/ir_version")
  ++ report (bool_decide (length nodes = 0%nat)) PhaseStructure "IR_NODES_REQUIRED" "strict validation requires at least one node" (at_path "/nodes")
  ++ report (MaxNodesPerDocument <? Z.of_nat (length nodes)) PhaseStructure "NODE_LIMIT_EXCEEDED" "IR contains too many nodes" (at_path "/nodes")
  ++ report (MaxEdgesPerDocument <? Z.of_nat (length edges)) PhaseStructure "EDGE_LIMIT_EXCEEDED" "IR contains too many edges" (at_path "/edges")
  ++ concat (imap (λ index node, validate_ir_node nodeContracts (take index nodes) index node) nodes)
  ++ concat (imap (λ index edge, validate_edge nodes (take index edges) index edge) edges)
  ++ flat_map (λ '(id, position), validate_position nodes id position) (sorted_items (doc_Layout document))
  ++ flat_map (validate_placed (doc_Layout document)) (first_nodes nodes)
  ++ concat (imap (λ nodeIndex node, concat (imap (validate_ref (output_types nodes) (node_ID node) nodeIndex) (inputs_of node))) nodes).


Definition Validator_Validate (nodeContracts : NodeContractValidator) (document : Document) : list Diagnostic :=
  LimitDiagnostics (SortDiagnostics (ir_diagnostics nodeContracts document)).
