(* ===== verification/IrFacts.v ===== *)
(** * What the author's validator accepts

    Diagnostics lists with and without errors, and the documents of Ir.v that
    pass the validator. *)

From Stdlib Require Import Ascii QArith_base.
From S2P Require Import Prelude Json Graph Dsl Ir.

Open Scope string_scope.
Open Scope list_scope.
Open Scope Z_scope.

(** ** Lists without errors *)

Notation clean l := (HasErrors l = false) (only parsing).

Lemma clean_app l k : clean (l ++ k) ↔ clean l ∧ clean k.
Proof. unfold HasErrors. by rewrite existsb_app, orb_false_iff. Qed.

Lemma clean_forall l : clean l ↔ ∀ d, d ∈ l → is_error d = false.
Proof.
  unfold HasErrors. rewrite <-not_true_iff_false, existsb_exists. setoid_rewrite <-list_elem_of_In.
  setoid_rewrite <-not_true_iff_false. naive_solver.
Qed.

Lemma clean_report b phase code message location : clean (report b phase code message location) ↔ b = false.
Proof. unfold report. by destruct b. Qed.

Lemma clean_with_details l details : clean (with_details details <$> l) ↔ clean l.
Proof.
  rewrite !clean_forall. split.
  - intros H d Hd. exact (H (with_details details d) (list_elem_of_fmap_2 _ _ _ Hd)).
  - intros H d (d' & -> & Hd)%list_elem_of_fmap. exact (H d' Hd).
Qed.

Lemma clean_report_type b phase code message location k1 t1 k2 t2 : clean (report_type b phase code message location k1 t1 k2 t2) ↔ b = false.
Proof. unfold report_type. by rewrite clean_with_details, clean_report. Qed.

Lemma clean_flat_map {A} (f : A → list Diagnostic) l : clean (flat_map f l) ↔ ∀ x, x ∈ l → clean (f x).
Proof.
  induction l as [|x l IH]; cbn; [split; [set_solver|done]|]. rewrite clean_app, IH. setoid_rewrite elem_of_cons. naive_solver.
Qed.

Lemma clean_imap {A} (f : nat → A → list Diagnostic) l : clean (concat (imap f l)) ↔ ∀ i x, l !! i = Some x → clean (f i x).
Proof.
  revert f. induction l as [|x l IH]; intros f; cbn; [done|]. rewrite clean_app, IH. split.
  - intros [Hx Hl] [|i] y Hy; cbn in Hy; [by simplify_eq|by apply (Hl i)].
  - intros Hl. split; [by apply (Hl 0%nat)|]. intros i y Hy. by apply (Hl (S i)).
Qed.

(** Errors come first, so the limit keeps one if there is one. *)

#[local] Instance diagnostic_leb_total : Total (λ a b, diagnostic_leb a b = true).
Proof. intros a b. unfold diagnostic_leb. destruct (String.leb_total (diagnosticKey a) (diagnosticKey b)); auto. Qed.
#[local] Instance diagnostic_leb_trans : Transitive (λ a b, diagnostic_leb a b = true).
Proof.
  intros a b c. unfold diagnostic_leb. rewrite <-!Is_true_true. apply (transitivity (R := String.le)).
Qed.

Lemma stable_insert_head {A} (leb : A → A → bool) {Htot : Total (λ a b, leb a b = true)} {Htr : Transitive (λ a b, leb a b = true)} x l y r :
  stable_insert leb x l = y :: r → (∀ z w l', l = z :: l' → w ∈ l → leb z w = true) → ∀ w, w ∈ x :: l → leb y w = true.
Proof.
  destruct l as [|z l]; cbn; intros Hy Hl w Hw.
  - injection Hy as <- <-. apply list_elem_of_singleton in Hw as ->. by destruct (Htot x x).
  - pose proof (Hl z w l eq_refl) as Hz. destruct (leb x z) eqn:Hxz.
    + injection Hy as <- <-. apply elem_of_cons in Hw as [->|Hw]; [by destruct (Htot x x)|].
      pose proof (Hz Hw) as Hzw. exact (Htr x z w Hxz Hzw).
    + injection Hy as <- <-. apply elem_of_cons in Hw as [->|Hw]; [|by apply Hz].
      destruct (Htot x z); [congruence|done].
Qed.

Lemma stable_sort_head {A} (leb : A → A → bool) {Htot : Total (λ a b, leb a b = true)} {Htr : Transitive (λ a b, leb a b = true)} l y r :
  stable_sort leb l = y :: r → ∀ w, w ∈ l → leb y w = true.
Proof.
  revert y r. induction l as [|x l IH]; intros y r Hy w Hw; [done|]. cbn in Hy.
  eapply (stable_insert_head leb); [exact Hy| |].
  - intros z v l' Hz Hv. eapply IH; [exact Hz|]. by rewrite (stable_sort_perm leb l) in Hv.
  - apply elem_of_cons in Hw as [->|Hw]; [left|]. right. by rewrite (stable_sort_perm leb l).
Qed.

Lemma error_first a b : is_error a = false → is_error b = true → diagnostic_leb a b = false.
Proof.
  unfold is_error, diagnostic_leb, diagnosticKey. intros Ha Hb.
  apply bool_decide_eq_false in Ha. apply bool_decide_eq_true in Hb.
  rewrite (bool_decide_eq_false_2 _ Ha), (bool_decide_eq_true_2 _ Hb). reflexivity.
Qed.

Lemma clean_perm l k : l ≡ₚ k → clean l → clean k.
Proof. rewrite !clean_forall. intros Hp Hl d Hd. apply Hl. by rewrite Hp. Qed.

Lemma HasErrors_perm l k : l ≡ₚ k → HasErrors l = HasErrors k.
Proof.
  intros Hp. destruct (HasErrors l) eqn:Hl, (HasErrors k) eqn:Hk; try done.
  - by rewrite (clean_perm k l) in Hl.
  - by rewrite (clean_perm l k) in Hk.
Qed.

Lemma HasErrors_limit l : HasErrors (LimitDiagnostics (SortDiagnostics l)) = HasErrors l.
Proof.
  rewrite <-(HasErrors_perm (SortDiagnostics l) l) by apply stable_sort_perm.
  unfold LimitDiagnostics. destruct (Nat.leb _ MaxDiagnostics) eqn:Hlen; [done|].
  destruct (SortDiagnostics l) as [|x s] eqn:Hs; [done|].
  destruct (HasErrors (x :: s)) eqn:Herr.
  - cbn. rewrite orb_true_iff. left. destruct (is_error x) eqn:Hx; [done|]. exfalso.
    apply existsb_exists in Herr as (y & Hy & Hye). apply list_elem_of_In in Hy.
    assert (y ∈ l) as Hyl by (rewrite <-(stable_sort_perm diagnostic_leb l); unfold SortDiagnostics in Hs; by rewrite Hs).
    pose proof (stable_sort_head diagnostic_leb l x s Hs y Hyl) as Hle. by rewrite error_first in Hle.
  - apply clean_app. split; [|done]. apply clean_forall. intros d Hd. rewrite clean_forall in Herr. apply Herr.
    apply elem_of_take in Hd as (i & Hi & _). by eapply list_elem_of_lookup_2.
Qed.

(** ** Well-formed documents *)

Definition input_shape_ok (i : Input) : Prop :=
  match input_Source i with
  | SourceLiteral =>
      ∃ text value actual, input_Value i = Some text ∧ input_RefNode i = "" ∧ input_RefOutput i = "" ∧
        DecodeLiteral (Some text) = Ok (value, actual) ∧ Compatible actual (input_DataType i) = true ∧
        (input_DataType i = TypeInteger → ∀ number, value = JNum number → SafeInteger number = true)
  | SourceRef => input_Value i = None ∧ ValidLogicalID (input_RefNode i) = true ∧ ValidPortName (input_RefOutput i) = true
  | SourceOther _ => False
  end.

Record input_ok (i : Input) : Prop := {
  ik_name : ValidPortName (input_Name i) = true;
  ik_type : DataType_Valid (input_DataType i) = true;
  ik_shape : input_shape_ok i }.

Record ir_node_ok (contract : NodeContractValidator) (n : Node) : Prop := {
  nk_id : ValidLogicalID (node_ID n) = true;
  nk_type : ValidNodeType (node_Type n) = true;
  nk_title : blank (node_Title n) = false ∧ utf8_valid (node_Title n) = true ∧ (String.length (node_Title n) ≤ MaxNodeTitleBytes)%nat;
  nk_ports : is_Some (node_Inputs n) ∧ is_Some (node_Outputs n);
  nk_limits : (length (inputs_of n) ≤ MaxPortsPerNode)%nat ∧ (length (outputs_of n) ≤ MaxPortsPerNode)%nat;
  nk_input_names : NoDup (input_Name <$> inputs_of n);
  nk_inputs : ∀ i, i ∈ inputs_of n → input_ok i;
  nk_output_names : NoDup (output_Name <$> outputs_of n);
  nk_outputs : ∀ o, o ∈ outputs_of n → ValidPortName (output_Name o) = true ∧ DataType_Valid (output_DataType o) = true;
  nk_contract : ∀ f, contract = Some f → HasErrors (f n) = false }.

Definition route_ok (source : Node) (e : Edge) : Prop :=
  if decide (node_Type source = "branch") then ValidRouteName (edge_Route e) = true else edge_Route e = "".

Definition edge_ok (nodes : list Node) (e : Edge) : Prop :=
  ValidLogicalID (edge_ID e) = true ∧
  ∃ s t, s ∈ nodes ∧ t ∈ nodes ∧ node_ID s = edge_Source e ∧ node_ID t = edge_Target e ∧ route_ok s e.

Record ir_wf (contract : NodeContractValidator) (d : Document) : Prop := {
  iw_version : doc_IRVersion d = VersionV1;
  iw_count : doc_Nodes d ≠ [] ∧ Z.of_nat (length (doc_Nodes d)) ≤ MaxNodesPerDocument ∧ Z.of_nat (length (doc_Edges d)) ≤ MaxEdgesPerDocument;
  iw_ids : NoDup (node_ID <$> doc_Nodes d);
  iw_nodes : ∀ n, n ∈ doc_Nodes d → ir_node_ok contract n;
  iw_edge_ids : NoDup (edge_ID <$> doc_Edges d);
  iw_edges : ∀ e, e ∈ doc_Edges d → edge_ok (doc_Nodes d) e;
  iw_layout : ∀ id, is_Some (doc_Layout d !! id) ↔ id ∈ node_ID <$> doc_Nodes d;
  iw_positions : ∀ id p, doc_Layout d !! id = Some p → is_Some (position_X p) ∧ is_Some (position_Y p);
  iw_refs : ∀ n i, n ∈ doc_Nodes d → i ∈ inputs_of n → input_Source i = SourceRef →
    ∃ m o, m ∈ doc_Nodes d ∧ node_ID m = input_RefNode i ∧ o ∈ outputs_of m ∧ output_Name o = input_RefOutput i ∧
           Compatible (output_DataType o) (input_DataType i) = true }.

(** ** Lists *)

Lemma NoDup_take {A} (l : list A) : NoDup l ↔ ∀ i x, l !! i = Some x → x ∉ take i l.
Proof.
  split.
  - intros Hnd i x Hi (j & Hj & Hlt)%elem_of_take. pose proof (NoDup_lookup l i j x Hnd Hi Hj). lia.
  - intros H. apply NoDup_alt. intros i j x Hi Hj. destruct (Nat.lt_trichotomy i j) as [Hlt|[->|Hlt]]; [|done|]; exfalso.
    + apply (H j x Hj). apply elem_of_take. eauto.
    + apply (H i x Hi). apply elem_of_take. eauto.
Qed.

Lemma NoDup_fmap_take {A B} (f : A → B) (l : list A) : NoDup (f <$> l) ↔ ∀ i x, l !! i = Some x → f x ∉ f <$> take i l.
Proof.
  rewrite NoDup_take. split.
  - intros H i x Hi. rewrite fmap_take. apply (H i (f x)). by rewrite list_lookup_fmap, Hi.
  - intros H i y Hy. rewrite list_lookup_fmap in Hy. apply fmap_Some in Hy as (x & Hx & ->). rewrite <-fmap_take. by apply H.
Qed.

Lemma forall_lookup {A} (P : A → Prop) (l : list A) : (∀ i x, l !! i = Some x → P x) ↔ ∀ x, x ∈ l → P x.
Proof.
  split.
  - intros H x [i Hi]%list_elem_of_lookup. by apply (H i).
  - intros H i x Hi. apply H. by eapply list_elem_of_lookup_2.
Qed.

(** ** The checks of a node *)

Lemma is_empty_true s : is_empty s = true ↔ s = "".
Proof. unfold is_empty. by rewrite bool_decide_eq_true. Qed.

Lemma valid_not_empty s : ValidLogicalID s = true → is_empty s = false.
Proof. by destruct s. Qed.

Lemma port_not_empty s : ValidPortName s = true → is_empty s = false.
Proof. by destruct s. Qed.

Lemma HasValue_spec i : HasValue i = true ↔ is_Some (input_Value i).
Proof. unfold HasValue. by rewrite bool_decide_eq_true. Qed.

Lemma compatible_integer t : Compatible t TypeInteger = true → t = TypeInteger.
Proof.
  unfold Compatible, compatible. rewrite orb_true_iff, andb_true_iff, !bool_decide_eq_true. intros [?|[_ ?]]; [done|congruence].
Qed.

Lemma literal_clean i location : clean (validateLiteral i location) ↔
  ∃ value actual, DecodeLiteral (input_Value i) = Ok (value, actual) ∧ Compatible actual (input_DataType i) = true ∧
    (input_DataType i = TypeInteger → ∀ number, value = JNum number → SafeInteger number = true).
Proof.
  unfold validateLiteral. destruct (DecodeLiteral (input_Value i)) as [[value actual]|x]; [|split; [done|naive_solver]].
  set (unsafe := match value with JNum _ => _ | _ => false end).
  assert (unsafe = true ↔ ∃ number, value = JNum number ∧ input_DataType i = TypeInteger ∧ actual = TypeInteger ∧ SafeInteger number = false) as Hunsafe.
  { unfold unsafe. destruct value; try (split; [done|naive_solver]).
    rewrite !andb_true_iff, !bool_decide_eq_true, negb_true_iff. split; [naive_solver|]. intros (number & [= <-] & ?). tauto. }
  destruct unsafe.
  - split; [done|]. intros (v & a & [= <- <-] & Hc & Hsafe). destruct (proj1 Hunsafe eq_refl) as (number & -> & Ht & _ & Hn).
    by rewrite (Hsafe Ht number eq_refl) in Hn.
  - rewrite clean_report_type, negb_false_iff. split; [|naive_solver]. intros Hc. exists value, actual. split; [done|]. split; [done|].
    intros Ht number ->. destruct (SafeInteger number) eqn:Hn; [done|]. exfalso.
    enough (false = true) by done. apply Hunsafe. exists number. rewrite Ht in Hc. eauto using compatible_integer.
Qed.

Lemma shape_clean i location : DataType_Valid (input_DataType i) = true →
  clean (validateInputSource i location) ∧
  clean (if bool_decide (input_Source i = SourceLiteral) && HasValue i && DataType_Valid (input_DataType i) then validateLiteral i location else [])
  ↔ input_shape_ok i.
Proof.
  intros Ht. unfold validateInputSource, input_shape_ok. rewrite Ht, andb_true_r. destruct (input_Source i).
  - rewrite clean_report, negb_false_iff, !andb_true_iff, !is_empty_true, HasValue_spec, bool_decide_eq_true_2 by done. cbn. split.
    + intros [[[[text Hv] Hn] Ho] Hl]. rewrite (proj2 (HasValue_spec i)) in Hl by eauto. apply literal_clean in Hl as (v & a & Hd & Hc & Hs).
      rewrite Hv in Hd. exists text, v, a. split_and!; done.
    + intros (text & v & a & Hv & Hn & Ho & Hd & Hc & Hs). split; [split; [split; [by eexists|done]|done]|].
      rewrite (proj2 (HasValue_spec i)) by eauto. apply literal_clean. rewrite Hv. eauto.
  - rewrite bool_decide_eq_false_2 by done. cbn. unfold HasValue. destruct (input_Value i) as [v|]; cbn; [split; [by intros [[=] _]|by intros [[=] _]]|].
    destruct (is_empty (input_RefNode i)) eqn:Hn; cbn.
    { split; [by intros [[=] _]|]. intros (_ & H & _). by rewrite valid_not_empty in Hn. }
    destruct (is_empty (input_RefOutput i)) eqn:Ho; cbn.
    { split; [by intros [[=] _]|]. intros (_ & _ & H). by rewrite port_not_empty in Ho. }
    rewrite clean_report, orb_false_iff, !negb_false_iff. naive_solver.
  - cbn. naive_solver.
Qed.

Lemma input_port_clean id index ports k i : clean (validate_input_port id index ports k i) ↔ input_ok i ∧ input_Name i ∉ input_Name <$> take k ports.
Proof.
  unfold validate_input_port. rewrite !clean_app, !clean_report, !negb_false_iff, bool_decide_eq_false. split.
  - intros (Hn & Hd & Ht & Hs). apply shape_clean in Hs; [|done]. done.
  - intros ([Hn Ht Hs] & Hd). split; [done|]. split; [done|]. split; [done|]. by apply shape_clean.
Qed.

Lemma input_ports_clean id index ports : clean (concat (imap (validate_input_port id index ports) ports)) ↔
  NoDup (input_Name <$> ports) ∧ ∀ i, i ∈ ports → input_ok i.
Proof.
  rewrite clean_imap. setoid_rewrite input_port_clean. rewrite NoDup_fmap_take, <-forall_lookup. naive_solver.
Qed.

Lemma output_ports_clean id index ports : clean (concat (imap (validate_output_port id index ports) ports)) ↔
  NoDup (output_Name <$> ports) ∧ ∀ o, o ∈ ports → ValidPortName (output_Name o) = true ∧ DataType_Valid (output_DataType o) = true.
Proof.
  rewrite clean_imap, NoDup_fmap_take, <-forall_lookup. unfold validate_output_port.
  setoid_rewrite clean_app. setoid_rewrite clean_app. setoid_rewrite clean_report.
  setoid_rewrite negb_false_iff. setoid_rewrite bool_decide_eq_false. naive_solver.
Qed.

Lemma ir_node_clean contract earlier index n : clean (validate_ir_node contract earlier index n) ↔
  ir_node_ok contract n ∧ node_ID n ∉ node_ID <$> earlier.
Proof.
  unfold validate_ir_node.
  rewrite !clean_app, !clean_report, input_ports_clean, output_ports_clean, !negb_false_iff, !orb_false_iff, !negb_false_iff,
    !Nat.ltb_ge, !bool_decide_eq_false. split.
  - intros (H1 & H2 & H3 & [[H4 H5] H6] & H7 & H8 & H9 & H10 & [H11 H12] & [H13 H14] & H15). split; [|done].
    constructor; rewrite <-?not_eq_None_Some; try done. by intros f ->.
  - intros [[H1 H2 (H3 & H4 & H5) H6 [H8 H9] H10 H11 H12 H13 H14] H15]. rewrite <-!not_eq_None_Some in H6.
    destruct H6. split_and!; try done. destruct contract; [by apply H14|done].
Qed.

(** ** The checks of a document *)

Lemma first_node_is_Some nodes id : is_Some (first_node nodes id) ↔ id ∈ node_ID <$> nodes.
Proof.
  unfold first_node. split.
  - intros [n Hn]. apply find_some in Hn as [Hn Hid]. apply bool_decide_eq_true in Hid as <-. apply list_elem_of_fmap_2. by apply list_elem_of_In.
  - intros (n & -> & Hn)%list_elem_of_fmap. destruct (List.find _ _) eqn:Hf; [by eexists|].
    apply find_none with (x := n) in Hf; [|by apply list_elem_of_In]. by apply bool_decide_eq_false in Hf.
Qed.

Lemma unique_node nodes m n : NoDup (node_ID <$> nodes) → m ∈ nodes → n ∈ nodes → node_ID m = node_ID n → m = n.
Proof.
  intros Hnd [i Hi]%list_elem_of_lookup [j Hj]%list_elem_of_lookup Heq.
  assert (i = j) as ->; [|congruence]. apply (NoDup_lookup (node_ID <$> nodes) i j (node_ID n)); [done|..]; rewrite list_lookup_fmap.
  - by rewrite Hi, <-Heq.
  - by rewrite Hj.
Qed.

Lemma first_node_Some nodes id n : NoDup (node_ID <$> nodes) → first_node nodes id = Some n ↔ n ∈ nodes ∧ node_ID n = id.
Proof.
  intros Hnd. split.
  - intros [Hn Hid]%find_some. apply bool_decide_eq_true in Hid. split; [by apply list_elem_of_In|done].
  - intros [Hn Hid]. destruct (proj2 (first_node_is_Some nodes id)) as [m Hm]; [by rewrite <-Hid; apply list_elem_of_fmap_2|].
    rewrite Hm. f_equal. apply find_some in Hm as [Hm Hmid]. apply bool_decide_eq_true in Hmid.
    apply (unique_node nodes); [done|by apply list_elem_of_In|done|congruence].
Qed.

Lemma edge_clean nodes earlier index e : NoDup (node_ID <$> nodes) → (∀ n, n ∈ nodes → ValidLogicalID (node_ID n) = true) →
  clean (validate_edge nodes earlier index e) ↔
  edge_ID e ∉ edge_ID <$> earlier ∧ edge_ok nodes e.
Proof.
  intros Hnd Hvalid. unfold validate_edge, edge_ok, route_ok.
  rewrite !clean_app, !clean_report, !negb_false_iff, bool_decide_eq_false, !bool_decide_eq_true. split.
  - intros (H1 & H2 & _ & _ & [s Hs] & [t Ht] & Hr). split; [done|]. split; [done|]. exists s, t. rewrite Hs in Hr.
    apply first_node_Some in Hs as [Hs1 Hs2]; [|done]. apply first_node_Some in Ht as [Ht1 Ht2]; [|done]. split_and!; try done.
    case_bool_decide; case_decide; try done; rewrite clean_report, negb_false_iff in Hr; [done|by apply is_empty_true].
  - intros (H1 & H2 & s & t & Hs & Ht & Hse & Hte & Hr).
    assert (first_node nodes (edge_Source e) = Some s) as Hfs by (by apply first_node_Some).
    assert (first_node nodes (edge_Target e) = Some t) as Hft by (by apply first_node_Some).
    rewrite <-Hse at 1. rewrite <-Hte at 1. rewrite Hfs, Hft. split_and!; try done; [by apply Hvalid|by apply Hvalid|].
    case_bool_decide; case_decide; try done; rewrite clean_report, negb_false_iff; [done|by apply is_empty_true].
Qed.

Lemma layout_clean nodes layout : (∀ n, n ∈ nodes → ValidLogicalID (node_ID n) = true) → NoDup (node_ID <$> nodes) →
  clean (flat_map (λ '(id, position), validate_position nodes id position) (sorted_items layout)) ∧
  clean (flat_map (validate_placed layout) (first_nodes nodes)) ↔
  (∀ id, is_Some (layout !! id) ↔ id ∈ node_ID <$> nodes) ∧
  (∀ id p, layout !! id = Some p → is_Some (position_X p) ∧ is_Some (position_Y p)).
Proof.
  intros Hvalid Hnd. rewrite !clean_flat_map.
  assert (∀ id p, clean (validate_position nodes id p) ↔ id ∈ node_ID <$> nodes ∧ is_Some (position_X p) ∧ is_Some (position_Y p)) as Hpos.
  { intros id p. unfold validate_position. rewrite !clean_app, !clean_report, !negb_false_iff, bool_decide_eq_true, first_node_is_Some,
      orb_false_iff, !bool_decide_eq_false, <-!not_eq_None_Some. split; [naive_solver|]. intros (Hin & H). split; [|done].
    apply list_elem_of_fmap in Hin as (n & -> & Hn). by apply Hvalid. }
  assert (∀ id, (∃ i, (i, id) ∈ (λ p, (p.1, node_ID p.2)) <$> first_nodes nodes) ↔ id ∈ node_ID <$> nodes) as Hfirst.
  { intros id. unfold first_nodes. split.
    - intros (i & ([j n] & [= -> ->] & Hin)%list_elem_of_fmap). apply list_elem_of_filter in Hin as [_ Hin].
      apply list_elem_of_lookup in Hin as [k Hk]. rewrite list_lookup_imap in Hk. apply fmap_Some in Hk as (m & Hm & [= -> ->]).
      apply list_elem_of_fmap_2. by eapply list_elem_of_lookup_2.
    - intros (n & -> & [i Hi]%list_elem_of_lookup)%list_elem_of_fmap. exists i. apply list_elem_of_fmap. exists (i, n). split; [done|].
      apply list_elem_of_filter. split; [by eapply NoDup_fmap_take|]. apply list_elem_of_lookup. exists i. by rewrite list_lookup_imap, Hi. }
  split.
  - intros [Hp Hm]. split; [|intros id p Hid; apply (Hpos id p), (Hp (id, p)); by apply elem_of_sorted_items].
    intros id. split; [intros [p Hid]; apply (Hpos id p), (Hp (id, p)); by apply elem_of_sorted_items|].
    intros Hid. apply Hfirst in Hid as (i & ([j n] & [= -> ->] & Hin)%list_elem_of_fmap). specialize (Hm _ Hin). unfold validate_placed in Hm.
    by rewrite clean_report, negb_false_iff, bool_decide_eq_true in Hm.
  - intros [Hdom Hxy]. split.
    + intros [id p] Hid. apply elem_of_sorted_items in Hid. apply Hpos. split; [apply Hdom; eauto|by apply (Hxy id)].
    + intros [i n] Hin. unfold validate_placed. rewrite clean_report, negb_false_iff, bool_decide_eq_true. apply Hdom, Hfirst.
      exists i. by apply (list_elem_of_fmap_2 (λ p, (p.1, node_ID p.2))) in Hin.
Qed.

(** ** Tables built by a loop *)

Section Table.
Context {A B : Type} (key : A → string) (value : A → B).

Definition table (l : list A) : gmap string B := fold_left (λ m x, <[key x := value x]> m) l ∅.

Lemma table_snoc l x : table (l ++ [x]) = <[key x := value x]> (table l).
Proof. unfold table. by rewrite fold_left_app. Qed.

Lemma table_is_Some l k : is_Some (table l !! k) ↔ k ∈ key <$> l.
Proof.
  induction l as [|x l IH] using rev_ind.
  - unfold table. cbn. rewrite lookup_empty. split; [by intros [? [=]]|set_solver].
  - rewrite table_snoc, lookup_insert_is_Some', IH, fmap_app, elem_of_app. set_solver.
Qed.

Lemma table_lookup l k y : NoDup (key <$> l) → table l !! k = Some y ↔ ∃ x, x ∈ l ∧ key x = k ∧ value x = y.
Proof.
  induction l as [|x l IH] using rev_ind; intros Hnd.
  - unfold table. cbn. rewrite lookup_empty. split; [done|]. by intros (? & ?%not_elem_of_nil & _).
  - rewrite fmap_app in Hnd. apply NoDup_app in Hnd as (Hnd & Hf & _).
    rewrite table_snoc, lookup_insert_Some, (IH Hnd). setoid_rewrite elem_of_app. setoid_rewrite list_elem_of_singleton. split.
    + intros [[<- <-]|[Hne (z & Hz & Hk & Hv)]]; [exists x; auto|exists z; auto].
    + intros (z & [Hz| ->] & <- & <-); [right|by left]. split; [|by exists z].
      intros Heq. apply (Hf (key z)); [by apply list_elem_of_fmap_2|]. rewrite <-Heq. set_solver.
Qed.
End Table.

Lemma refs_clean nodes : NoDup (node_ID <$> nodes) → (∀ n, n ∈ nodes → ir_node_ok None n) →
  clean (concat (imap (λ nodeIndex node, concat (imap (validate_ref (output_types nodes) (node_ID node) nodeIndex) (inputs_of node))) nodes)) ↔
  ∀ n i, n ∈ nodes → i ∈ inputs_of n → input_Source i = SourceRef →
    ∃ m o, m ∈ nodes ∧ node_ID m = input_RefNode i ∧ o ∈ outputs_of m ∧ output_Name o = input_RefOutput i ∧
           Compatible (output_DataType o) (input_DataType i) = true.
Proof.
  intros Hnd Hok.
  assert (∀ id, output_types nodes !! id = table node_ID (λ n, table output_Name output_DataType (outputs_of n)) nodes !! id) as Htypes by done.
  assert (∀ n i k id j, n ∈ nodes → i ∈ inputs_of n → clean (validate_ref (output_types nodes) id k j i) ↔
    (input_Source i = SourceRef → ∃ m o, m ∈ nodes ∧ node_ID m = input_RefNode i ∧ o ∈ outputs_of m ∧ output_Name o = input_RefOutput i ∧
           Compatible (output_DataType o) (input_DataType i) = true)) as Hone.
  { intros n i k id j Hn Hi. unfold validate_ref. rewrite Htypes.
    pose proof (ik_type i (nk_inputs _ _ (Hok n Hn) i Hi)) as Ht.
    destruct (decide (input_Source i = SourceRef)) as [Hr|Hr]; [rewrite bool_decide_eq_true_2 by done|by rewrite bool_decide_eq_false_2]. cbn.
    destruct (table _ _ nodes !! _) as [types|] eqn:Hs.
    2: { split; [done|]. intros H. destruct (H Hr) as (m & o & Hm & Hid & _). exfalso.
         assert (is_Some (table node_ID (λ n, table output_Name output_DataType (outputs_of n)) nodes !! input_RefNode i)) as [? ?]; [|congruence].
         apply table_is_Some. rewrite <-Hid. by apply list_elem_of_fmap_2. }
    apply table_lookup in Hs as (m & Hm & Hid & <-); [|done]. pose proof (nk_output_names _ _ (Hok m Hm)) as Hnames.
    destruct (table output_Name _ _ !! _) as [t|] eqn:Hout.
    - apply table_lookup in Hout as (o & Ho & Hname & <-); [|done]. destruct (nk_outputs _ _ (Hok m Hm) o Ho) as [_ Hot].
      rewrite clean_report_type, Ht, Hot. cbn [andb]. rewrite negb_false_iff. split; [naive_solver|]. intros H.
      destruct (H Hr) as (m' & o' & Hm' & Hid' & Ho' & Hname' & Hc).
      assert (m' = m) as -> by (by apply (unique_node nodes); [..|congruence]).
      assert (Some (output_DataType o) = Some (output_DataType o')) as [= ->]; [|done].
      transitivity (table output_Name output_DataType (outputs_of m) !! input_RefOutput i); [symmetry|]; apply table_lookup; eauto.
    - split; [done|]. intros H. destruct (H Hr) as (m' & o' & Hm' & Hid' & Ho' & Hname' & Hc). exfalso.
      assert (m' = m) as -> by (by apply (unique_node nodes); [..|congruence]).
      assert (is_Some (table output_Name output_DataType (outputs_of m) !! input_RefOutput i)) as [? ?]; [|congruence].
      apply table_is_Some. rewrite <-Hname'. by apply list_elem_of_fmap_2. }
  rewrite clean_imap. setoid_rewrite clean_imap. split.
  - intros H n i Hn Hi. pose proof Hn as [k Hk]%list_elem_of_lookup. pose proof Hi as [j Hj]%list_elem_of_lookup.
    exact (proj1 (Hone n i k (node_ID n) j Hn Hi) (H k n Hk j i Hj)).
  - intros H k n Hk j i Hj. apply list_elem_of_lookup_2 in Hk, Hj. exact (proj2 (Hone n i k (node_ID n) j Hk Hj) (H n i Hk Hj)).
Qed.

Lemma ir_node_ok_weaken contract n : ir_node_ok contract n → ir_node_ok None n.
Proof. intros []. by constructor. Qed.

Lemma Validator_Validate_wf contract d : clean (Validator_Validate contract d) ↔ ir_wf contract d.
Proof.
  unfold Validator_Validate. rewrite HasErrors_limit. unfold ir_diagnostics.
  rewrite !clean_app, !clean_report, negb_false_iff, bool_decide_eq_true, bool_decide_eq_false, !Z.ltb_ge, clean_imap, clean_imap.
  setoid_rewrite ir_node_clean. split.
  - intros (Hv & Hne & Hn & He & Hnodes & Hedges & Hlp & Hpl & Hrefs).
    assert (NoDup (node_ID <$> doc_Nodes d)) as Hnd by (apply NoDup_fmap_take; intros i x Hi; by apply Hnodes).
    assert (∀ n, n ∈ doc_Nodes d → ir_node_ok contract n) as Hok by (apply forall_lookup; intros i x Hi; by apply (Hnodes i)).
    assert (∀ n, n ∈ doc_Nodes d → ValidLogicalID (node_ID n) = true) as Hid by (intros n Hin; by apply (nk_id _ _ (Hok n Hin))).
    assert (∀ i e, doc_Edges d !! i = Some e → edge_ID e ∉ edge_ID <$> take i (doc_Edges d) ∧ edge_ok (doc_Nodes d) e) as Hedges'.
    { intros i e Hi. by apply (edge_clean (doc_Nodes d) (take i (doc_Edges d)) i e Hnd Hid), Hedges. }
    destruct (proj1 (layout_clean _ (doc_Layout d) Hid Hnd) (conj Hlp Hpl)) as [Hdom Hxy].
    constructor; try done.
    + split; [|done]. by destruct (doc_Nodes d).
    + apply NoDup_fmap_take. intros i e Hi. by apply Hedges'.
    + apply forall_lookup. intros i e Hi. by apply (Hedges' i).
    + apply refs_clean; [done| |done]. intros n Hin. by eapply ir_node_ok_weaken, Hok.
  - intros [Hv (Hne & Hn & He) Hnd Hok Hend Hedges Hdom Hxy Hrefs].
    assert (∀ n, n ∈ doc_Nodes d → ValidLogicalID (node_ID n) = true) as Hid by (intros n Hin; by apply (nk_id _ _ (Hok n Hin))).
    destruct (proj2 (layout_clean _ (doc_Layout d) Hid Hnd) (conj Hdom Hxy)) as [Hlp Hpl].
    split; [done|]. split; [by destruct (doc_Nodes d)|]. split; [done|]. split; [done|]. split_and!; try done.
    + intros i n Hi. split; [by apply Hok; eapply list_elem_of_lookup_2|by eapply NoDup_fmap_take].
    + intros i e Hi. apply edge_clean; [done..|]. split; [by eapply NoDup_fmap_take|by apply Hedges; eapply list_elem_of_lookup_2].
    + apply refs_clean; [done| |done]. intros n Hin. by eapply ir_node_ok_weaken, Hok.
Qed.
