(* ===== verification/Canonical.v ===== *)
(** * Bounded and canonical JSON

    Models internal/ir/canonical.go and the inspection in front of it, in
    internal/ir/parser.go: the limits, the scan of a text token by token, and
    the canonical form of a value, which has one text for a number however it
    was written.  The text that encoding/json gives to a syntax error is not
    modelled; the hash is a parameter. *)

From Stdlib Require Import Ascii.
From S2P Require Import Prelude Json Digest Graph Dsl Ir.

Open Scope string_scope.
Open Scope list_scope.
Open Scope Z_scope.

Definition MaxDecimalExponent : Z := 10000.

(** ** Numbers *)

(** The text around the first byte that [p] accepts. *)
Fixpoint split_byte (p : ascii → bool) (s : string) : option (string * string) :=
  match s with
  | "" => None
  | String a r => if p a then Some ("", r) else '(x, y) ← split_byte p r; Some (String a x, y)
  end.

Definition is_exponent (a : ascii) : bool := (code a =? 101)%N || (code a =? 69)%N.
Definition is_dot (a : ascii) : bool := (code a =? 46)%N.

(** [strconv.Atoi] *)
Definition atoi (s : string) : option Z :=
  let '(sign, digits) := scan_sign s in
  if is_empty digits || negb (string_all is_digit digits) then None
  else
    let v := digits_value 0 digits in
    let v := if bool_decide (sign = "-") then - v else v in
    if (v <? - 2 ^ 63) || (2 ^ 63 <=? v) then None else Some v.

(** [strings.TrimLeft(s, "0")] *)
Fixpoint trim_zeros (s : string) : string :=
  match s with
  | "" => ""
  | String a r => if (code a =? 48)%N then trim_zeros r else s
  end.

(** The zeros at the end of a text that is not all zeros, counted and taken off. *)
Fixpoint strip_zeros (s : string) : string * Z :=
  match s with
  | "" => ("", 0)
  | String a r =>
      let '(x, k) := strip_zeros r in
      if is_empty x && (code a =? 48)%N then ("", k + 1) else (String a x, k)
  end.

Definition zeros (n : Z) : string := String.concat "" (replicate (Z.to_nat n) "0").
Definition prefix_of (n : Z) (s : string) : string := String.substring 0 (Z.to_nat n) s.
Definition suffix_of (n : Z) (s : string) : string := String.substring (Z.to_nat n) (String.length s) s.

(** A text for the digits [digits] at the decimal exponent [scale]. *)
Definition format_number (digits : string) (scale : Z) : string :=
  let n := Z.of_nat (String.length digits) in
  let adjusted := n + scale in
  if scale =? 0 then digits
  else if (0 <? adjusted) && (adjusted <=? 21) then
    if n <=? adjusted then digits +:+ zeros (adjusted - n)
    else prefix_of adjusted digits +:+ "." +:+ suffix_of adjusted digits
  else if (adjusted <=? 0) && (-5 <=? adjusted) then "0." +:+ zeros (- adjusted) +:+ digits
  else prefix_of 1 digits +:+ (if 1 <? n then "." +:+ suffix_of 1 digits else "") +:+ "e" +:+ pretty (adjusted - 1).

Definition number_exponent (value : string) : res (string * Z) :=
  match split_byte is_exponent value with
  | None => Ok (value, 0)
  | Some (mantissa, exponent) =>
      match atoi exponent with
      | None => Err (Errorf "invalid JSON number exponent: %w" [exponent])
      | Some parsed =>
          guard_err ((parsed <? - MaxDecimalExponent) || (MaxDecimalExponent <? parsed))
            (Errorf "JSON number exponent exceeds %d" [pretty MaxDecimalExponent]) ;;
          Ok (mantissa, parsed)
      end
  end.

(** The digits without the point, and how many follow it. *)
Definition number_digits (value : string) : string * Z :=
  match split_byte is_dot value with
  | None => (value, 0)
  | Some (whole, fraction) => (whole +:+ fraction, Z.of_nat (String.length fraction))
  end.

Definition normalizeJSONNumber (value : string) : res string :=
  guard_err (is_empty value) (Errorf "empty JSON number" []) ;;
  let '(sign, value) := scan_minus value in
  '(value, exponent) ← number_exponent value;
  let '(value, fractionDigits) := number_digits value in
  let digits := trim_zeros value in
  if is_empty digits then Ok "0"
  else
    let '(digits, stripped) := strip_zeros digits in
    Ok (sign +:+ format_number digits (exponent - fractionDigits + stripped)).

(** ** Strings *)


Definition escape_byte (a : ascii) : string :=
  if (code a =? 34)%N then String "\" (String a "")
  else if (code a =? 92)%N then "\\"
  else if (code a =? 8)%N then "\b" else if (code a =? 12)%N then "\f" else if (code a =? 10)%N then "\n"
  else if (code a =? 13)%N then "\r" else if (code a =? 9)%N then "\t"
  else if (code a <? 32)%N then unicode_escape (code a)
  else String a "".

Fixpoint escape_bytes (s : string) : string :=
  match s with "" => "" | String a r => escape_byte a +:+ escape_bytes r end.

(** Ranging over a string gives U+FFFD for a byte that is not UTF-8. *)
Definition marshalJSONString (value : string) : string :=
  quotation +:+ escape_bytes (to_valid_utf8 0 value) +:+ quotation.

(** ** Values *)

Fixpoint appendCanonical (value : json) : res string :=
  match value with
  | JNull => Ok "null"
  | JBool b => Ok (if b then "true" else "false")
  | JStr s => Ok (marshalJSONString s)
  | JNum lit => normalizeJSONNumber lit
  | JArr items =>
      let fix elements (l : list json) : res (list string) :=
        match l with [] => Ok [] | v :: r => x ← appendCanonical v; xs ← elements r; Ok (x :: xs) end in
      texts ← elements items; Ok ("[" +:+ String.concat "," texts +:+ "]")
  | JObj members =>
      let fix entries (m : list (string * json)) : res (list string) :=
        match m with
        | [] => Ok []
        | (k, v) :: r => x ← appendCanonical v; xs ← entries r; Ok ((marshalJSONString k +:+ ":" +:+ x) :: xs)
        end in
      texts ← entries members; Ok ("{" +:+ String.concat "," texts +:+ "}")
  end.

(** ** Limits *)

Record ParseLimits : Type := MkParseLimits {
  MaxDocumentBytes : Z; MaxDepth : Z; MaxStringBytes : Z; MaxNumberBytes : Z; MaxCollectionItems : Z }.

Definition DefaultParseLimits : ParseLimits := MkParseLimits 1048576 64 262144 256 10000.

Definition positive_or (default_ value : Z) : Z := if value <=? 0 then default_ else value.

Definition normalizeLimits (limits : ParseLimits) : ParseLimits :=
  let or_default field := positive_or (field DefaultParseLimits) (field limits) in
  MkParseLimits (or_default MaxDocumentBytes) (or_default MaxDepth) (or_default MaxStringBytes)
    (or_default MaxNumberBytes) (or_default MaxCollectionItems).

Record parseIssue : Type := MkParseIssue { pi_code : string; pi_message : string }.

(** Any error that is not a [parseIssue]; its text is not modelled. *)
Definition syntax_issue : parseIssue := MkParseIssue "JSON_SYNTAX_ERROR" "JSON syntax error".

(** ** Unicode escapes *)

Definition is_quote (a : ascii) : bool := (code a =? 34)%N.
Definition is_backslash (a : ascii) : bool := (code a =? 92)%N.
Definition is_high_surrogate (u : N) : bool := ((55296 <=? u) && (u <=? 56319))%N.
Definition is_low_surrogate (u : N) : bool := ((56320 <=? u) && (u <=? 57343))%N.

(** The rest of a string from its first byte; [inString] as in the loop. *)
Fixpoint validUnicodeEscapes (inString : bool) (data : string) : bool :=
  match data with
  | "" => true
  | String a r =>
      if is_quote a then validUnicodeEscapes (negb inString) r
      else if negb (is_backslash a && inString) then validUnicodeEscapes inString r
      else match r with
      | "" => true
      | String e r1 =>
          if negb (code e =? 117)%N then validUnicodeEscapes inString r1
          else match r1 with
          | String h1 (String h2 (String h3 (String h4 r5))) =>
              match hex4 h1 h2 h3 h4 with
              | None => validUnicodeEscapes inString r1
              | Some high =>
                  if is_high_surrogate high then
                    match r5 with
                    | String b (String u (String l1 (String l2 (String l3 (String l4 r11))))) =>
                        is_backslash b && (code u =? 117)%N
                        && from_option is_low_surrogate false (hex4 l1 l2 l3 l4)
                        && validUnicodeEscapes inString r11
                    | _ => false
                    end
                  else negb (is_low_surrogate high) && validUnicodeEscapes inString r5
              end
          | _ => false
          end
      end
  end.

(** ** The scan, token by token

    The outcome is the first issue or the text behind the value. *)

Definition scanned : Type := (parseIssue + string)%type.

Definition scan_then (s : scanned) (f : string → scanned) : scanned := match s with inl x => inl x | inr rest => f rest end.
Definition scan_guard (b : bool) (code message : string) (next : scanned) : scanned :=
  if b then inl (MkParseIssue code message) else next.

Section Scan.
Context (limits : ParseLimits).

(** A scalar, with the checks on its value. *)
Definition scan_scalar (s : string) : scanned :=
  match s with
  | "" => inl syntax_issue
  | String a r =>
      if is_quote a then
        match scan_string r with
        | None => inl syntax_issue
        | Some (body, rest) =>
            scan_guard (MaxStringBytes limits <? Z.of_nat (String.length (unquote 0 body)))
              "JSON_STRING_TOO_LARGE" "IR contains an oversized string" (inr rest)
        end
      else if (code a =? 116)%N then from_option inr (inl syntax_issue) (strip "true" s)
      else if (code a =? 102)%N then from_option inr (inl syntax_issue) (strip "false" s)
      else if (code a =? 110)%N then from_option inr (inl syntax_issue) (strip "null" s)
      else match scan_number s with
        | None => inl syntax_issue
        | Some (literal, rest) =>
            scan_guard (MaxNumberBytes limits <? Z.of_nat (String.length literal))
              "JSON_NUMBER_TOO_LARGE" "IR contains an oversized number"
            (scan_guard (negb (is_ok (normalizeJSONNumber literal)))
              "JSON_NUMBER_UNSUPPORTED" "IR contains a number outside canonicalization limits" (inr rest))
        end
  end.

(** What stands between two elements: nothing before the first, else a comma. *)
Definition separated (first : bool) (s : string) : option string :=
  if first then Some s
  else match s with String a r => if (code a =? 44)%N then Some r else None | "" => None end.

(** [decoder.More] *)
Definition more (s : string) : bool :=
  match skip_space s with "" => false | String a _ => negb ((code a =? 93)%N || (code a =? 125)%N) end.

Definition closing (c : N) (s : string) : scanned :=
  match skip_space s with
  | String a r => if (code a =? c)%N then inr r else inl syntax_issue
  | "" => inl syntax_issue
  end.

(** The key of a member and the text behind its colon. *)
Definition scan_key (s : string) : option (string * option string) :=
  match skip_space s with
  | String q r =>
      if is_quote q then
        '(body, rest) ← scan_string r;
        Some (unquote 0 body,
          match skip_space rest with String c r' => if (code c =? 58)%N then Some r' else None | "" => None end)
      else None
  | "" => None
  end.

Fixpoint scanJSONValue (fuel : nat) (depth : Z) (s : string) : scanned :=
  match fuel with
  | O => inl syntax_issue
  | S fuel' =>
      let s := skip_space s in
      match s with
      | "" => inl syntax_issue
      | String a r =>
          let too_deep := MaxDepth limits <? depth + 1 in
          if (code a =? 123)%N then
            scan_guard too_deep "JSON_TOO_DEEP" "IR exceeds the JSON nesting depth limit" (scan_members fuel' (depth + 1) ∅ 0 true r)
          else if (code a =? 91)%N then
            scan_guard too_deep "JSON_TOO_DEEP" "IR exceeds the JSON nesting depth limit" (scan_items fuel' (depth + 1) 0 true r)
          else scan_scalar s
      end
  end
with scan_items (fuel : nat) (depth items : Z) (first : bool) (s : string) : scanned :=
  match fuel with
  | O => inl syntax_issue
  | S fuel' =>
      if negb (more s) then closing 93 s
      else
        scan_guard (MaxCollectionItems limits <? items + 1) "JSON_COLLECTION_TOO_LARGE" "IR contains an oversized array"
        match separated first (skip_space s) with
        | None => inl syntax_issue
        | Some s' => scan_then (scanJSONValue fuel' depth s') (scan_items fuel' depth (items + 1) false)
        end
  end
with scan_members (fuel : nat) (depth : Z) (seen : gset string) (members : Z) (first : bool) (s : string) : scanned :=
  match fuel with
  | O => inl syntax_issue
  | S fuel' =>
      if negb (more s) then closing 125 s
      else
        match separated first (skip_space s) ≫= scan_key with
        | None => inl syntax_issue
        | Some (key, value) =>
            scan_guard (MaxStringBytes limits <? Z.of_nat (String.length key)) "JSON_STRING_TOO_LARGE" "IR contains an oversized object key"
            (scan_guard (bool_decide (key ∈ seen)) "JSON_DUPLICATE_KEY" ("duplicate JSON object key " +:+ key)
            (scan_guard (MaxCollectionItems limits <? members + 1) "JSON_COLLECTION_TOO_LARGE" "IR contains an oversized object"
            match value with
            | None => inl syntax_issue
            | Some s' => scan_then (scanJSONValue fuel' depth s') (scan_members fuel' depth ({[key]} ∪ seen) (members + 1) false)
            end))
        end
  end.
End Scan.

Definition inspectJSON (data : string) (limits : ParseLimits) : option parseIssue :=
  if MaxDocumentBytes limits <? Z.of_nat (String.length data) then Some (MkParseIssue "DOCUMENT_TOO_LARGE" "IR exceeds the document size limit")
  else if negb (utf8_valid data) then Some (MkParseIssue "INVALID_UTF8" "IR must contain valid UTF-8")
  else if negb (validUnicodeEscapes false data) then Some (MkParseIssue "INVALID_UNICODE" "IR contains an unpaired Unicode surrogate escape")
  else match scanJSONValue limits (2 * String.length data + 2) 0 data with
    | inl issue => Some issue
    | inr rest => if is_empty (skip_space rest) then None else Some syntax_issue
    end.

(** ** Canonical texts *)

Definition CanonicalizeJSON (data : string) (limits : ParseLimits) : res string :=
  match inspectJSON data (normalizeLimits limits) with
  | Some issue => Err (Errorf "%s" [pi_message issue])
  | None =>
      match decode_any data with
      | None => Err (Errorf "%s" [pi_message syntax_issue])
      | Some value => appendCanonical value
      end
  end.
