(* ===== verification/Parser.v ===== *)
(** * Parsing a draft

    Models [ParseDraft] of internal/ir/parser.go: the inspected text is decoded
    into the author's document with the rules of encoding/json.  A decoder
    takes the value a destination has and updates it: a null leaves a string or
    a struct as it was, a member met twice under two spellings is decoded twice
    into one destination, and an array is decoded into the elements its slice
    had before, those behind its length included.  The texts of the errors of
    encoding/json are not modelled. *)

From Stdlib Require Import Ascii.
From S2P Require Import Prelude Json Digest Graph Dsl Ir Canonical.

Open Scope string_scope.
Open Scope list_scope.
Open Scope Z_scope.

(** ** Field names *)

Definition upper (a : ascii) : ascii := if in_range 97 122 a then chr (code a - 32) else a.

(** A field is matched up to the simple case folding of Unicode; the only
    letters outside ASCII that fold into it are the long s and the kelvin
    sign. *)
Fixpoint foldName (s : string) : string :=
  match s with
  | "" => ""
  | String a r =>
      match r with
      | String b r2 =>
          if (code a =? 197)%N && (code b =? 191)%N then String "S" (foldName r2)
          else match r2 with
          | String c r3 =>
              if (code a =? 226)%N && (code b =? 132)%N && (code c =? 170)%N then String "K" (foldName r3)
              else String (upper a) (foldName r)
          | "" => String (upper a) (foldName r)
          end
      | "" => String (upper a) ""
      end
  end.

(** ** Decoders

    A decoder is given what its destination holds, the text of the value (of a
    member; an element has none) and its syntax. *)

Definition decoder (A : Type) : Type := A → string → jsyn → option A.

(** A string, of a type with the given names. *)
Definition decode_text {A} (named : string → A) : decoder A := λ old _ v,
  match v with SStr s => Some (named s) | SNull => Some old | _ => None end.

(** A [json.RawMessage], which takes a null too. *)
Definition decode_raw : decoder (option string) := λ _ raw _, Some (Some raw).

Definition is_number (s : string) : bool :=
  match scan_number s with Some (_, "") => true | _ => false end.

(** A [*json.Number], which may be written as a string. *)
Definition decode_number : decoder (option string) := λ _ _ v,
  match v with
  | SNull => Some None
  | SNum literal => Some (Some literal)
  | SStr s => if is_number s then Some (Some s) else None
  | _ => None
  end.

(** A field of a struct. *)
Definition member {R A} (field : R → A) `{!Update field} (f : decoder A) : decoder R := λ r raw v,
  x ← f (field r) raw v; Some (r <| field := x |>).

Definition find_field {A} (fields : list (string * decoder A)) (key : string) : option (decoder A) :=
  snd <$> List.find (λ f, bool_decide (foldName f.1 = foldName key)) fields.

(** [DisallowUnknownFields] *)
Definition decode_struct {A} (fields : list (string * decoder A)) : decoder A := λ old _ v,
  match v with
  | SNull => Some old
  | SObj members =>
      fold_left (λ acc '(key, raw, x), r ← acc; f ← find_field fields key; f r raw x) members (Some old)
  | _ => None
  end.

(** The elements of a slice, and those its array holds behind them. *)
Record slice (A : Type) : Type := MkSlice { sl_elements : list A; sl_behind : list A }.
Arguments MkSlice {A} _ _.
Arguments sl_elements {A} _.
Arguments sl_behind {A} _.

Fixpoint decode_elements {A} (zero : A) (f : decoder A) (array : list A) (items : list jsyn) : option (list A) :=
  match items with
  | [] => Some []
  | v :: rest => x ← f (hd zero array) "" v; xs ← decode_elements zero f (List.tl array) rest; Some (x :: xs)
  end.

Definition decode_slice {A} (zero : A) (f : decoder A) : decoder (option (slice A)) := λ old _ v,
  match v with
  | SNull => Some None
  | SArr [] => Some (Some (MkSlice [] []))
  | SArr items =>
      let array := match old with Some s => sl_elements s ++ sl_behind s | None => [] end in
      elements ← decode_elements zero f array items;
      Some (Some (MkSlice elements (drop (length items) array)))
  | _ => None
  end.

(** A map keeps its entries; an entry is decoded from the zero value. *)
Definition decode_map {A} (zero : A) (f : decoder A) : decoder (option (gmap string A)) := λ old _ v,
  match v with
  | SNull => Some None
  | SObj members =>
      Some <$> fold_left (λ acc '(key, raw, x), m ← acc; y ← f zero raw x; Some (<[key := y]> m)) members (Some (default ∅ old))
  | _ => None
  end.

(** ** The document *)

Definition parse_data_type (s : string) : DataType :=
  match List.find (λ t, bool_decide (data_type_string t = s))
          [TypeString; TypeInteger; TypeNumber; TypeBoolean; TypeObject; TypeArray] with
  | Some t => t
  | None => TypeOther s
  end.

Definition parse_input_source (s : string) : InputSource :=
  if bool_decide (s = "literal") then SourceLiteral else if bool_decide (s = "ref") then SourceRef else SourceOther s.

#[export] Instance Input_eta : Eta Input := λ x,
  MkInput (input_Name x) (input_DataType x) (input_Source x) (input_Value x) (input_RefNode x) (input_RefOutput x).
#[export] Instance Output_eta : Eta Output := λ x, MkOutput (output_Name x) (output_DataType x).
#[export] Instance Edge_eta : Eta Edge := λ x, MkEdge (edge_ID x) (edge_Source x) (edge_Target x) (edge_Route x).
#[export] Instance Position_eta : Eta Position := λ x, MkPosition (position_X x) (position_Y x).

Definition text_decoder : decoder string := decode_text id.

Definition zero_input : Input := MkInput "" (TypeOther "") (SourceOther "") None "" "".
Definition decode_input : decoder Input := decode_struct
  [("name", member input_Name text_decoder); ("data_type", member input_DataType (decode_text parse_data_type));
   ("source", member input_Source (decode_text parse_input_source)); ("value", member input_Value decode_raw);
   ("ref_node", member input_RefNode text_decoder); ("ref_output", member input_RefOutput text_decoder)].

Definition zero_output : Output := MkOutput "" (TypeOther "").
Definition decode_output : decoder Output := decode_struct
  [("name", member output_Name text_decoder); ("data_type", member output_DataType (decode_text parse_data_type))].

Definition zero_edge : Edge := MkEdge "" "" "" "".
Definition decode_edge : decoder Edge := decode_struct
  [("id", member edge_ID text_decoder); ("source", member edge_Source text_decoder);
   ("target", member edge_Target text_decoder); ("route", member edge_Route text_decoder)].

Definition zero_position : Position := MkPosition None None.
Definition decode_position : decoder Position := decode_struct
  [("x", member position_X decode_number); ("y", member position_Y decode_number)].

(** A node and a document while they are decoded. *)
Record DraftNode : Type := MkDraftNode {
  dn_ID : string;
  dn_Type : string;
  dn_Title : string;
  dn_Inputs : option (slice Input);
  dn_Outputs : option (slice Output) }.

#[export] Instance DraftNode_eta : Eta DraftNode := λ x,
  MkDraftNode (dn_ID x) (dn_Type x) (dn_Title x) (dn_Inputs x) (dn_Outputs x).

Definition zero_node : DraftNode := MkDraftNode "" "" "" None None.
Definition decode_node : decoder DraftNode := decode_struct
  [("id", member dn_ID text_decoder); ("type", member dn_Type text_decoder); ("title", member dn_Title text_decoder);
   ("inputs", member dn_Inputs (decode_slice zero_input decode_input));
   ("outputs", member dn_Outputs (decode_slice zero_output decode_output))].

Record DraftDocument : Type := MkDraftDocument {
  dd_IRVersion : string;
  dd_Nodes : option (slice DraftNode);
  dd_Edges : option (slice Edge);
  dd_Layout : option (gmap string Position) }.

#[export] Instance DraftDocument_eta : Eta DraftDocument := λ x,
  MkDraftDocument (dd_IRVersion x) (dd_Nodes x) (dd_Edges x) (dd_Layout x).

Definition zero_document : DraftDocument := MkDraftDocument "" None None None.
Definition decode_document : decoder DraftDocument := decode_struct
  [("ir_version", member dd_IRVersion text_decoder); ("nodes", member dd_Nodes (decode_slice zero_node decode_node));
   ("edges", member dd_Edges (decode_slice zero_edge decode_edge)); ("layout", member dd_Layout (decode_map zero_position decode_position))].

Definition node_of (n : DraftNode) : Node :=
  MkNode (dn_ID n) (dn_Type n) (dn_Title n) (sl_elements <$> dn_Inputs n) (sl_elements <$> dn_Outputs n).

(** The document, unless a part of its envelope is missing. *)
Definition document_of (d : DraftDocument) : option Document :=
  nodes ← dd_Nodes d; edges ← dd_Edges d; layout ← dd_Layout d;
  if is_empty (dd_IRVersion d) then None
  else Some (MkDocument (dd_IRVersion d) (node_of <$> sl_elements nodes) (sl_elements edges) layout).

(** ** The parser *)

Definition parse_failure {A} (code message : string) : list Diagnostic + A := inl [ErrorDiagnostic PhaseParse code message no_location].

Definition ParseDraft (limits : ParseLimits) (data : string) : list Diagnostic + Document :=
  match inspectJSON data (normalizeLimits limits) with
  | Some issue => parse_failure (pi_code issue) (pi_message issue)
  | None =>
      match parse data with
      | None => parse_failure "IR_SHELL_INVALID" "IR envelope is invalid"
      | Some (syntax, rest) =>
          match decode_document zero_document "" syntax with
          | None => parse_failure "IR_SHELL_INVALID" "IR envelope is invalid"
          | Some document =>
              if negb (is_empty (skip_space rest)) then parse_failure (pi_code syntax_issue) (pi_message syntax_issue)
              else match document_of document with
              | Some document => inr document
              | None => parse_failure "IR_SHELL_INVALID" "IR must contain ir_version, nodes, edges, and layout"
              end
          end
      end
  end.

(** [DefaultParser().ParseDraft] *)
Definition parse_default : string → list Diagnostic + Document := ParseDraft DefaultParseLimits.
