(* ===== verification/SourceMap.v ===== *)
(** * The source map

    Models internal/sourcemap: the map from execution nodes, edges and fields to
    the author's (model.go), its look-up (resolve.go) and its check against a
    runtime document (validator.go).  [sourcemap.Issue] has the fields and the
    order of [dsl.Issue], kept as one type; the loops over Go maps run in key
    order, which the final stable sort makes immaterial. *)

From Stdlib Require Import Ascii.
From S2P Require Import Prelude Json Graph Dsl Ir.

Open Scope string_scope.
Open Scope list_scope.
Open Scope Z_scope.

Definition VersionV1 : string := "1".

Record Document : Type := MkDocument {
  sm_Version : string;
  sm_Nodes : gmap string string;
  sm_Edges : gmap string string;
  sm_Fields : gmap string (gmap string string) }.

Record Location : Type := MkLocation { sl_LogicalNodeID : string; sl_LogicalEdgeID : string; sl_IRField : string }.

(** Reading a key of a map to strings. *)
Definition at_or_empty (m : gmap string string) (k : string) : string := default "" (m !! k).

Definition fields_of (document : Document) (nodeID : string) : gmap string string := default ∅ (sm_Fields document !! nodeID).

Definition Resolve (document : Document) (nodeID edgeID dslField : string) : Location :=
  MkLocation (at_or_empty (sm_Nodes document) nodeID) (at_or_empty (sm_Edges document) edgeID)
    (at_or_empty (fields_of document nodeID) dslField).

Definition logicalIDPattern : string → bool := ValidLogicalID.

Definition validate_mapped_node (document : Document) (node : Dsl.Node) : list Issue :=
  let id := nd_ID node in
  match sm_Nodes document !! id with
  | None => node_issue true id "SOURCE_MAP_NODE_MISSING" "execution node has no IR node mapping" ""
  | Some logicalID => node_issue (negb (logicalIDPattern logicalID)) id "SOURCE_MAP_LOGICAL_NODE_INVALID" "mapped IR node id is invalid" ""
  end
  ++ node_issue (negb (bool_decide (is_Some (sm_Fields document !! id)))) id "SOURCE_MAP_FIELDS_MISSING"
       "execution node has no field mapping object" "".

Definition validate_mapped_edge (document : Document) (edge : Dsl.Edge) : list Issue :=
  let id := ed_ID edge in
  match sm_Edges document !! id with
  | None => edge_issue true id "SOURCE_MAP_EDGE_MISSING" "execution edge has no IR edge mapping" ""
  | Some logicalID => edge_issue (negb (logicalIDPattern logicalID)) id "SOURCE_MAP_LOGICAL_EDGE_INVALID" "mapped IR edge id is invalid" ""
  end.

Definition validate_fields (nodes : gset string) (nodeID : string) (fields : gmap string string) : list Issue :=
  node_issue (negb (bool_decide (nodeID ∈ nodes))) nodeID "SOURCE_MAP_FIELDS_ORPHAN" "field mapping has no DSL node" ""
  ++ flat_map (λ '(dslField, irField),
       node_issue (is_empty dslField || is_empty irField) nodeID "SOURCE_MAP_FIELD_INVALID" "field mapping paths must be non-empty" dslField)
       (sorted_items fields).

Definition validate_required (document : Document) (nodeID : string) (fields : list string) : list Issue :=
  flat_map (λ field,
    node_issue (negb (bool_decide (is_Some (fields_of document nodeID !! field)))) nodeID "SOURCE_MAP_FIELD_MISSING"
      "reportable DSL field has no IR field mapping" field) fields.

Definition Validate (document : Document) (runtime : Dsl.Document) (required : gmap string (list string)) : list Issue :=
  let nodes : gset string := list_to_set (nd_ID <$> dc_Nodes runtime) in
  let edges : gset string := list_to_set (ed_ID <$> dc_Edges runtime) in
  sortIssues (
    issue_if (negb (bool_decide (sm_Version document = VersionV1))) "SOURCE_MAP_VERSION_UNSUPPORTED" "source_map_version must be 1" "" "" ""
    ++ flat_map (validate_mapped_node document) (dc_Nodes runtime)
    ++ flat_map (λ '(nodeID, _), node_issue (negb (bool_decide (nodeID ∈ nodes))) nodeID "SOURCE_MAP_NODE_ORPHAN" "node mapping has no DSL node" "")
         (sorted_items (sm_Nodes document))
    ++ flat_map (validate_mapped_edge document) (dc_Edges runtime)
    ++ flat_map (λ '(edgeID, _), edge_issue (negb (bool_decide (edgeID ∈ edges))) edgeID "SOURCE_MAP_EDGE_ORPHAN" "edge mapping has no DSL edge" "")
         (sorted_items (sm_Edges document))
    ++ flat_map (λ '(nodeID, fields), validate_fields nodes nodeID fields) (sorted_items (sm_Fields document))
    ++ flat_map (λ '(nodeID, fields), validate_required document nodeID fields) (sorted_items required)).
