(* ===== verification/Marshal.v ===== *)
(** * Encoding the documents

    encoding/json on the types that the compiler hashes, from their field tags:
    [ir.Document], [dsl.Document], [sourcemap.Document].  Slices that the code
    never leaves nil are lists; a field with [omitempty] is left out at its zero
    value; the keys of a map are sorted.  Encoding fails on a raw value or a
    number that is not JSON; the text of the error is not modelled. *)

From Stdlib Require Import Ascii.
From S2P Require Import Prelude Json Digest Graph Dsl Ir SourceMap.

Open Scope string_scope.
Open Scope list_scope.
Open Scope Z_scope.

(** ** Values *)

(** One byte of a string; the bytes of longer sequences stay. *)
Definition marshal_byte (a : ascii) : string :=
  if (code a =? 34)%N then String "\" (String a "")
  else if (code a =? 92)%N then "\\"
  else if (code a =? 8)%N then "\b" else if (code a =? 12)%N then "\f" else if (code a =? 10)%N then "\n"
  else if (code a =? 13)%N then "\r" else if (code a =? 9)%N then "\t"
  else if (code a <? 32)%N || (code a =? 60)%N || (code a =? 62)%N || (code a =? 38)%N then unicode_escape (code a)
  else String a "".

Fixpoint marshal_bytes (s : string) : string :=
  match s with
  | "" => ""
  | String a r =>
      match r with
      | String b (String c r') =>
          match line_separator a b c with
          | Some e => e +:+ marshal_bytes r'
          | None => marshal_byte a +:+ marshal_bytes r
          end
      | _ => marshal_byte a +:+ marshal_bytes r
      end
  end.

(** Bytes that are not UTF-8 come out as U+FFFD. *)
Definition marshal_string (s : string) : string := quotation +:+ marshal_bytes (to_valid_utf8 0 s) +:+ quotation.

Definition marshal_bool (b : bool) : string := if b then "true" else "false".

Definition marshal_raw (raw : string) : res string :=
  match clone_raw raw with Some text => Ok text | None => Err (Errorf "json: invalid RawMessage" []) end.

(** A [json.Number]. *)
Definition marshal_number (number : string) : res string :=
  if is_empty number then Ok "0"
  else match scan_number number with
  | Some (_, "") => Ok number
  | _ => Err (Errorf "json: invalid number literal" [])
  end.

Fixpoint marshal_all {A} (f : A → res string) (l : list A) : res (list string) :=
  match l with
  | [] => Ok []
  | x :: r => text ← f x; texts ← marshal_all f r; Ok (text :: texts)
  end.

Definition marshal_array (texts : list string) : string := "[" +:+ String.concat "," texts +:+ "]".

Definition marshal_object (fields : list (string * string)) : string :=
  "{" +:+ String.concat "," ((λ '(k, text), marshal_string k +:+ ":" +:+ text) <$> fields) +:+ "}".

Definition marshal_slice {A} (f : A → res string) (l : list A) : res string := marshal_array <$> marshal_all f l.

(** A map with string keys; a nil one is [null]. *)
Definition marshal_map {A} (f : A → res string) (m : gmap string A) : res string :=
  fields ← marshal_all (λ '(k, x), text ← f x; Ok (marshal_string k +:+ ":" +:+ text)) (sorted_items m);
  Ok ("{" +:+ String.concat "," fields +:+ "}").
Definition marshal_nilable {A} (f : A → res string) (m : option (gmap string A)) : res string :=
  match m with Some m => marshal_map f m | None => Ok "null" end.

Definition omit (b : bool) (k text : string) : list (string * string) := if b then [] else [(k, text)].
Definition text_field (s : string) : res string := Ok (marshal_string s).

(** ** The author's document *)

Definition input_source_string (s : InputSource) : string :=
  match s with SourceLiteral => "literal" | SourceRef => "ref" | SourceOther raw => raw end.

Definition marshal_input (i : Input) : res string :=
  let value := default "" (input_Value i) in
  text ← marshal_raw value;
  Ok (marshal_object
    ([("name", marshal_string (input_Name i)); ("data_type", marshal_string (data_type_string (input_DataType i)));
      ("source", marshal_string (input_source_string (input_Source i)))]
     ++ omit (is_empty value) "value" text
     ++ omit (is_empty (input_RefNode i)) "ref_node" (marshal_string (input_RefNode i))
     ++ omit (is_empty (input_RefOutput i)) "ref_output" (marshal_string (input_RefOutput i)))).

Definition marshal_output (o : Output) : res string :=
  Ok (marshal_object [("name", marshal_string (output_Name o)); ("data_type", marshal_string (data_type_string (output_DataType o)))]).

Definition marshal_ports {A} (f : A → res string) (ports : option (list A)) : res string :=
  match ports with Some l => marshal_slice f l | None => Ok "null" end.

Definition marshal_ir_node (n : Ir.Node) : res string :=
  inputs ← marshal_ports marshal_input (node_Inputs n);
  outputs ← marshal_ports marshal_output (node_Outputs n);
  Ok (marshal_object
    [("id", marshal_string (node_ID n)); ("type", marshal_string (node_Type n)); ("title", marshal_string (node_Title n));
     ("inputs", inputs); ("outputs", outputs)]).

Definition marshal_ir_edge (e : Ir.Edge) : res string :=
  Ok (marshal_object
    ([("id", marshal_string (edge_ID e)); ("source", marshal_string (edge_Source e)); ("target", marshal_string (edge_Target e))]
     ++ omit (is_empty (edge_Route e)) "route" (marshal_string (edge_Route e)))).

Definition marshal_coordinate (c : option string) : res string := match c with Some n => marshal_number n | None => Ok "null" end.

Definition marshal_position (p : Position) : res string :=
  x ← marshal_coordinate (position_X p);
  y ← marshal_coordinate (position_Y p);
  Ok (marshal_object [("x", x); ("y", y)]).

Definition marshal_ir (d : Ir.Document) : res string :=
  nodes ← marshal_slice marshal_ir_node (doc_Nodes d);
  edges ← marshal_slice marshal_ir_edge (doc_Edges d);
  layout ← marshal_map marshal_position (doc_Layout d);
  Ok (marshal_object [("ir_version", marshal_string (doc_IRVersion d)); ("nodes", nodes); ("edges", edges); ("layout", layout)]).

(** ** The runtime document *)

Definition kind_string (k : NodeKind) : string := match k with KindControl => "control" | KindTask => "task" | KindOther raw => raw end.
Definition binding_kind_string (k : InputBindingKind) : string :=
  match k with BindingLiteral => "literal" | BindingNodeOutput => "node_output" | BindingOther raw => raw end.
Definition activation_kind_string (k : ActivationKind) : string :=
  match k with ActivationAlways => "always" | ActivationRoute => "route" | ActivationOther raw => raw end.

Definition marshal_operation (o : Operation) : res string :=
  config ← marshal_nilable marshal_raw (op_Config o);
  Ok (marshal_object [("type", marshal_string (op_Type o)); ("version", pretty (op_Version o)); ("config", config)]).

Definition marshal_reference (r : OutputReference) : string :=
  marshal_object [("node_id", marshal_string (or_NodeID r)); ("name", marshal_string (or_Name r))].

Definition marshal_binding (b : InputBinding) : res string :=
  value ← marshal_raw (ib_Value b);
  Ok (marshal_object
    ([("kind", marshal_string (binding_kind_string (ib_Kind b))); ("data_type", marshal_string (data_type_string (ib_DataType b)))]
     ++ omit (is_empty (ib_Value b)) "value" value
     ++ match ib_Output b with Some r => [("output", marshal_reference r)] | None => [] end)).

Definition marshal_policy (p : ExecutionPolicy) : string :=
  marshal_object
    (omit (ep_MaxAttempts p =? 0) "max_attempts" (pretty (ep_MaxAttempts p))
     ++ omit (ep_MaxRecoveries p =? 0) "max_recoveries" (pretty (ep_MaxRecoveries p))
     ++ omit (ep_AttemptTimeoutMS p =? 0) "attempt_timeout_ms" (pretty (ep_AttemptTimeoutMS p))
     ++ match ep_RetryBackoff p with
        | Some b => [("retry_backoff", marshal_object [("kind", marshal_string (rb_Kind b)); ("delay_ms", pretty (rb_DelayMS b))])]
        | None => []
        end
     ++ omit (bool_decide (ep_RetryableErrorCodes p = [])) "retryable_error_codes"
          (marshal_array (marshal_string <$> ep_RetryableErrorCodes p))).

Definition marshal_dsl_node (n : Dsl.Node) : res string :=
  operation ← marshal_operation (nd_Operation n);
  inputs ← marshal_nilable marshal_binding (nd_Inputs n);
  outputs ← marshal_nilable (λ t, text_field (data_type_string t)) (nd_Outputs n);
  Ok (marshal_object
    [("id", marshal_string (nd_ID n)); ("kind", marshal_string (kind_string (nd_Kind n))); ("operation", operation);
     ("inputs", inputs); ("outputs", outputs); ("execution_policy", marshal_policy (nd_ExecutionPolicy n))]).

Definition marshal_activation (a : Activation) : string :=
  marshal_object ([("kind", marshal_string (activation_kind_string (ac_Kind a)))] ++ omit (is_empty (ac_Route a)) "route" (marshal_string (ac_Route a))).

Definition marshal_dsl_edge (e : Dsl.Edge) : res string :=
  Ok (marshal_object
    [("id", marshal_string (ed_ID e)); ("source_node_id", marshal_string (ed_SourceNodeID e));
     ("target_node_id", marshal_string (ed_TargetNodeID e)); ("activation", marshal_activation (ed_Activation e))]).

Definition marshal_dsl (d : Dsl.Document) : res string :=
  nodes ← marshal_slice marshal_dsl_node (dc_Nodes d);
  edges ← marshal_slice marshal_dsl_edge (dc_Edges d);
  Ok (marshal_object
    [("dsl_version", marshal_string (dc_DSLVersion d)); ("entry_node_id", marshal_string (dc_EntryNodeID d));
     ("exit_node_id", marshal_string (dc_ExitNodeID d)); ("nodes", nodes); ("edges", edges)]).

(** ** The source map *)

Definition marshal_source_map (d : SourceMap.Document) : res string :=
  nodes ← marshal_map text_field (sm_Nodes d);
  edges ← marshal_map text_field (sm_Edges d);
  fields ← marshal_map (marshal_map text_field) (sm_Fields d);
  Ok (marshal_object [("source_map_version", marshal_string (sm_Version d)); ("nodes", nodes); ("edges", edges); ("fields", fields)]).
