(* ===== verification/Handlers.v ===== *)
(** * Compiler inputs and node handlers

    Models internal/compiler/model.go, policy.go, registry.go, resources.go and
    handlers.go: the project policy, the resolved resources, the registry, and
    the handler of each built-in node type, which turns a node of the author's
    document into the operation, bindings, outputs and field mappings of an
    execution node.  [catalog.NodeKind] and [dsl.NodeKind] are string types with
    the same two constants, kept as one type. *)

From Stdlib Require Import Ascii.
From S2P Require Import Prelude Json Digest Graph Dsl Ir Canonical SourceMap Marshal.

Open Scope string_scope.
Open Scope list_scope.
Open Scope Z_scope.

(** ** Policy *)

Record ExecutionPolicyDefaults : Type := MkExecutionPolicyDefaults {
  df_MaxAttempts : Z; df_MaxRecoveries : Z; df_AttemptTimeoutMS : Z; df_RetryBackoffMS : Z; df_RetryableErrorCodes : list string }.

Record RuntimeContract : Type := MkRuntimeContract {
  rc_Kind : NodeKind; rc_OperationType : string; rc_OperationVersion : Z; rc_DefaultExecutionPolicy : ExecutionPolicyDefaults }.

(** The interface of a node catalog. *)
Record NodeCatalog : Type := MkNodeCatalog {
  nc_Revision : string;
  nc_ValidateNode : Ir.Node → list Diagnostic;
  nc_RuntimeContract : string → option RuntimeContract }.

Record Policy : Type := MkPolicy { po_revision : string; po_overrides : gmap string ExecutionPolicy }.

Definition validatePolicy (policy : ExecutionPolicy) : res unit :=
  match ep_RetryBackoff policy with
  | None => Err (Errorf "max_attempts, attempt_timeout_ms, and retry_backoff are required" [])
  | Some backoff =>
      guard_err ((ep_MaxAttempts policy =? 0) || (ep_AttemptTimeoutMS policy =? 0))
        (Errorf "max_attempts, attempt_timeout_ms, and retry_backoff are required" []) ;;
      guard_err (negb (bool_decide (rb_Kind backoff = "fixed")) || (rb_DelayMS backoff =? 0))
        (Errorf "only a positive fixed retry backoff is supported in DSL v1" []) ;;
      guard_err (bool_decide ("" ∈ ep_RetryableErrorCodes policy)) (Errorf "retryable error codes cannot be empty" [])
  end.

(** The loop over the overrides, in key order; which error is found first is
    the only thing that the order decides. *)
Fixpoint add_overrides (result : gmap string ExecutionPolicy) (overrides : list (string * ExecutionPolicy)) : res (gmap string ExecutionPolicy) :=
  match overrides with
  | [] => Ok result
  | (nodeType, policy) :: rest =>
      guard_err (negb (ValidNodeType nodeType)) (Errorf "policy node type %q is invalid" [nodeType]) ;;
      match validatePolicy policy with
      | Err x => Err (Errorf "policy for %s: %w" [nodeType; error_string x])
      | Ok _ => add_overrides (<[nodeType := policy]> result) rest
      end
  end.

Definition NewPolicy (revision : string) (overrides : gmap string ExecutionPolicy) : res Policy :=
  guard_err (is_empty revision) (Errorf "policy revision is required" []) ;;
  MkPolicy revision <$> add_overrides ∅ (sorted_items overrides).

Definition DefaultPolicyV1 : Policy := res_or (MkPolicy "" ∅) (NewPolicy "policy-v1" ∅).

(** Adjacent repetitions removed. *)
Fixpoint unique_after (last : string) (values : list string) : list string :=
  match values with
  | [] => []
  | value :: rest => if bool_decide (value = last) then unique_after last rest else value :: unique_after value rest
  end.
Definition uniqueStrings (values : list string) : list string :=
  match values with [] => [] | value :: rest => value :: unique_after value rest end.

Definition emptyExecutionPolicy : ExecutionPolicy := MkExecutionPolicy 0 0 0 None [].

Definition resolve (policy : Policy) (nodeType : string) (defaults : ExecutionPolicyDefaults) (kind : NodeKind) : res ExecutionPolicy :=
  if bool_decide (kind = KindControl) then Ok emptyExecutionPolicy
  else
    let resolved := default
      (MkExecutionPolicy (df_MaxAttempts defaults) (df_MaxRecoveries defaults) (df_AttemptTimeoutMS defaults)
         (Some (MkRetryBackoff "fixed" (df_RetryBackoffMS defaults))) (df_RetryableErrorCodes defaults))
      (po_overrides policy !! nodeType) in
    let resolved := MkExecutionPolicy (ep_MaxAttempts resolved) (ep_MaxRecoveries resolved) (ep_AttemptTimeoutMS resolved)
      (ep_RetryBackoff resolved) (uniqueStrings (sort_strings (ep_RetryableErrorCodes resolved))) in
    validatePolicy resolved ;; Ok resolved.

(** ** Resources *)

Record ServiceOperationBinding : Type := MkServiceOperationBinding {
  sb_ServiceID : string; sb_ContractRevision : string; sb_Idempotent : bool }.
Record ModelBinding : Type := MkModelBinding { mb_ArtifactID : string; mb_Digest : string }.

(** A [ConnectionBinding] is its one field; a [ServiceOperationKey] is a pair. *)
Record ResourceBindings : Type := MkResourceBindings {
  rs_connections : gmap string string;
  rs_services : gmap (string * string) ServiceOperationBinding;
  rs_models : gmap string ModelBinding }.

Definition valid_connection (binding : string * string) : bool := negb (is_empty binding.1) && negb (is_empty binding.2).
Definition valid_service (binding : (string * string) * ServiceOperationBinding) : bool :=
  negb (is_empty binding.1.1) && negb (is_empty binding.1.2) && negb (is_empty (sb_ServiceID binding.2)) && negb (is_empty (sb_ContractRevision binding.2)).
Definition valid_model (binding : string * ModelBinding) : bool :=
  negb (is_empty binding.1) && negb (is_empty (mb_ArtifactID binding.2)) && negb (is_empty (mb_Digest binding.2)).

Definition NewResourceBindings (connections : gmap string string) (services : gmap (string * string) ServiceOperationBinding)
    (models : gmap string ModelBinding) : res ResourceBindings :=
  guard_err (negb (forallb valid_connection (map_to_list connections)))
    (Errorf "connection binding requires reference and stable id" []) ;;
  guard_err (negb (forallb valid_service (map_to_list services)))
    (Errorf "service binding requires reference, operation, stable id, and contract revision" []) ;;
  guard_err (negb (forallb valid_model (map_to_list models)))
    (Errorf "model binding requires reference, artifact id, and digest" []) ;;
  Ok (MkResourceBindings connections services models).

Definition EmptyResourceBindings : ResourceBindings := MkResourceBindings ∅ ∅ ∅.

(** ** Handlers *)

(** [Context] of the package; [nil] containers are absent. *)
Record NodeProduct : Type := MkNodeProduct {
  np_Config : option (gmap string string);
  np_Inputs : option (gmap string InputBinding);
  np_Outputs : option (gmap string DataType);
  np_FieldMappings : option (gmap string string) }.

Record CompileContext : Type := MkCompileContext {
  cx_executionNodeID : string;
  cx_executionIDs : gmap string string;
  cx_policy : ExecutionPolicy;
  cx_resources : ResourceBindings;
  cx_nodeIndex : nat }.

Record Handler : Type := MkHandler {
  h_NodeType : string;
  h_Kind : NodeKind;
  h_Coordinate : Coordinate;
  h_Compile : CompileContext → Ir.Node → NodeProduct * list Diagnostic }.

Definition Registry : Type := gmap string Handler.

Fixpoint add_handlers (registry : Registry) (handlers : list Handler) : res Registry :=
  match handlers with
  | [] => Ok registry
  | handler :: rest =>
      guard_err (negb (ValidNodeType (h_NodeType handler))) (Errorf "compiler handler has an invalid node type" []) ;;
      guard_err (is_empty (co_Type (h_Coordinate handler)) || (co_Version (h_Coordinate handler) =? 0))
        (Errorf "compiler handler %s has an invalid operation coordinate" [h_NodeType handler]) ;;
      guard_err (bool_decide (is_Some (registry !! h_NodeType handler)))
        (Errorf "compiler handler %s is registered twice" [h_NodeType handler]) ;;
      add_handlers (<[h_NodeType handler := handler]> registry) rest
  end.

Definition NewRegistry (handlers : list Handler) : res Registry := add_handlers ∅ handlers.

Definition NodeTypes (registry : Registry) : list string := sorted_keys registry.

(** ** Reading a node *)

(** The first input of a name, with its position. *)
Definition findInput (node : Ir.Node) (name : string) : option (nat * Input) :=
  list_find (λ input, input_Name input = name) (inputs_of node).

(** [findInput] gives a zero input when there is none. *)
Definition zero_input : Input := MkInput "" (TypeOther "") (SourceOther "") None "" "".
Definition found_input (node : Ir.Node) (name : string) : Input := from_option snd zero_input (findInput node name).
Definition has_input (node : Ir.Node) (name : string) : bool := bool_decide (is_Some (findInput node name)).

Definition literalString (input : Input) : string * bool :=
  if negb (bool_decide (input_Source input = SourceLiteral)) || negb (HasValue input) then ("", false)
  else match DecodeLiteral (input_Value input) with
    | Ok (JStr text, _) => (text, negb (is_empty text))
    | _ => ("", false)
    end.

Definition inputPhaseDiagnostic (context : CompileContext) (node : Ir.Node) (name : string) (phase : Phase) (code message : string) : Diagnostic :=
  let path := match findInput node name with
    | Some (inputIndex, _) => InputPath (node_ID node) (cx_nodeIndex context) name inputIndex
    | None => NodePath (node_ID node) (cx_nodeIndex context) +:+ "/inputs/" +:+ name
    end in
  ErrorDiagnostic phase code message (at_node (node_ID node) path).

Definition inputDiagnostic (context : CompileContext) (node : Ir.Node) (name code message : string) : Diagnostic :=
  inputPhaseDiagnostic context node name PhaseCompile code message.

Definition CanonicalizeLiteral (value : option string) : res string := CanonicalizeJSON (default "" value) DefaultParseLimits.

Definition compileInput (context : CompileContext) (node : Ir.Node) (input : Input) : list Diagnostic + InputBinding :=
  match input_Source input with
  | SourceLiteral =>
      match CanonicalizeLiteral (input_Value input) with
      | Err x => inl [inputDiagnostic context node (input_Name input) "COMPILER_LITERAL_INVALID" (error_string x)]
      | Ok canonical => inr (MkInputBinding BindingLiteral (input_DataType input) canonical None)
      end
  | SourceRef =>
      match cx_executionIDs context !! input_RefNode input with
      | None => inl [inputDiagnostic context node (input_Name input) "COMPILER_REF_NODE_MISSING" "validated reference has no execution node id"]
      | Some nodeID => inr (MkInputBinding BindingNodeOutput (input_DataType input) "" (Some (MkOutputReference nodeID (input_RefOutput input))))
      end
  | SourceOther _ => inl [inputDiagnostic context node (input_Name input) "COMPILER_INPUT_SOURCE_INVALID" "validated input has an invalid source"]
  end.

Definition compileNamedInput (context : CompileContext) (node : Ir.Node) (name : string) : list Diagnostic + InputBinding :=
  match findInput node name with
  | None => inl [inputDiagnostic context node name "COMPILER_INPUT_MISSING" "validated node is missing a required input"]
  | Some (_, input) => compileInput context node input
  end.

Definition compileOutputs (node : Ir.Node) : gmap string DataType :=
  fold_left (λ m o, <[output_Name o := output_DataType o]> m) (outputs_of node) ∅.

Definition outputMappings (node : Ir.Node) : gmap string string :=
  fold_left (λ m o, <["outputs." +:+ output_Name o := "outputs." +:+ output_Name o]> m) (outputs_of node) ∅.

(** ** Products in progress *)

(** The product and the diagnostics that a handler has built so far. *)
Record building : Type := MkBuilding {
  b_Config : gmap string string;
  b_Inputs : gmap string InputBinding;
  b_Outputs : gmap string DataType;
  b_FieldMappings : gmap string string;
  b_diagnostics : list Diagnostic }.

Definition emptyProduct (node : Ir.Node) : building := MkBuilding ∅ ∅ (compileOutputs node) (outputMappings node) [].

Definition set_config (name text : string) (b : building) : building :=
  MkBuilding (<[name := text]> (b_Config b)) (b_Inputs b) (b_Outputs b) (b_FieldMappings b) (b_diagnostics b).
Definition set_input (name : string) (binding : InputBinding) (b : building) : building :=
  MkBuilding (b_Config b) (<[name := binding]> (b_Inputs b)) (b_Outputs b) (b_FieldMappings b) (b_diagnostics b).
Definition map_field (field ir : string) (b : building) : building :=
  MkBuilding (b_Config b) (b_Inputs b) (b_Outputs b) (<[field := ir]> (b_FieldMappings b)) (b_diagnostics b).
Definition add_diagnostics (values : list Diagnostic) (b : building) : building :=
  MkBuilding (b_Config b) (b_Inputs b) (b_Outputs b) (b_FieldMappings b) (b_diagnostics b ++ values).

Definition set_mapped_config (name text ir : string) (b : building) : building :=
  map_field ("operation.config." +:+ name) ir (set_config name text b).

(** A compiled input, under its own name. *)
Definition add_input (name : string) (compiled : list Diagnostic + InputBinding) (b : building) : building :=
  match compiled with
  | inl values => add_diagnostics values b
  | inr binding => map_field ("inputs." +:+ name) ("inputs." +:+ name) (set_input name binding b)
  end.

Definition product (b : building) : NodeProduct * list Diagnostic :=
  (MkNodeProduct (Some (b_Config b)) (Some (b_Inputs b)) (Some (b_Outputs b)) (Some (b_FieldMappings b)), b_diagnostics b).

(** ** The built-in handlers *)

Definition compileStart (_ : CompileContext) (node : Ir.Node) : NodeProduct * list Diagnostic := product (emptyProduct node).

Definition compileEnd (context : CompileContext) (node : Ir.Node) : NodeProduct * list Diagnostic :=
  product (add_input "workflow_output" (compileNamedInput context node "workflow_output") (emptyProduct node)).

(** A canonical literal of the configuration. *)
Definition add_branch_config (context : CompileContext) (node : Ir.Node) (b : building) (name : string) : building :=
  match findInput node name with
  | Some (_, input) =>
      if negb (bool_decide (input_Source input = SourceLiteral)) then b
      else match CanonicalizeLiteral (input_Value input) with
        | Err x => add_diagnostics [inputDiagnostic context node name "BRANCH_CONFIG_INVALID" (error_string x)] b
        | Ok canonical => set_mapped_config name canonical ("inputs." +:+ name) b
        end
  | None => b
  end.

Definition case_mappings (b : building) (index : nat) (branchCase : gmap string string) : building :=
  let route := default "" (branchCase !! "route" ≫= unmarshal_string) in
  fold_left (λ b field, map_field ("operation.config.cases." +:+ pretty index +:+ "." +:+ field) ("inputs.cases." +:+ route +:+ "." +:+ field) b)
    (sorted_keys branchCase) b.

Definition compileBranch (context : CompileContext) (node : Ir.Node) : NodeProduct * list Diagnostic :=
  let b := add_input "value" (compileNamedInput context node "value") (emptyProduct node) in
  let b := fold_left (add_branch_config context node) ["cases"; "default_route"] b in
  let cases := default [] ((b_Config b !! "cases" : option string) ≫= λ raw, unmarshal_syn raw ≫= decode_list decode_raw_map) in
  product (fold_left (λ b '(index, branchCase), case_mappings b index branchCase) (imap pair cases) b).

Definition compileCode (context : CompileContext) (node : Ir.Node) : NodeProduct * list Diagnostic :=
  let b := emptyProduct node in
  let b := if 1 <? ep_MaxAttempts (cx_policy context)
    then add_diagnostics [inputDiagnostic context node "source_code" "CODE_RETRY_POLICY_UNSUPPORTED"
                            "Code Node business failures are not automatically retryable in DSL v1"] b else b in
  let sourceCode := found_input node "source_code" in
  let b := if has_input node "source_code" && bool_decide (input_Source sourceCode = SourceLiteral) then
      match CanonicalizeLiteral (input_Value sourceCode) with
      | Err x => add_diagnostics [inputDiagnostic context node "source_code" "CODE_SOURCE_INVALID" (error_string x)] b
      | Ok canonical => set_mapped_config "source_code" canonical "inputs.source_code" b
      end else b in
  let b := set_config "sandbox_profile" (marshal_string "python-sandbox-v1") b in
  let b := if negb (has_input node "model_ref") then b else
      let '(modelRef, ok) := literalString (found_input node "model_ref") in
      match rs_models (cx_resources context) !! modelRef, ok with
      | Some binding, true =>
          map_field "operation.config.model_artifact.digest" "inputs.model_ref"
            (map_field "operation.config.model_artifact.id" "inputs.model_ref"
              (set_mapped_config "model_artifact"
                 (marshal_object [("digest", marshal_string (mb_Digest binding)); ("id", marshal_string (mb_ArtifactID binding))])
                 "inputs.model_ref" b))
      | _, _ => add_diagnostics [inputPhaseDiagnostic context node "model_ref" PhaseResource "MODEL_BINDING_REQUIRED"
                                  "model_ref has no authorized immutable model binding"] b
      end in
  product (fold_left (λ b input,
      if bool_decide (input_Name input = "source_code") || bool_decide (input_Name input = "model_ref") then b
      else add_input (input_Name input) (compileInput context node input) b) (inputs_of node) b).

(** The inputs of the names that the node has. *)
Definition add_present (context : CompileContext) (node : Ir.Node) (b : building) (name : string) : building :=
  match findInput node name with
  | Some (_, input) => add_input name (compileInput context node input) b
  | None => b
  end.

Definition default_statuses : string := marshal_array (pretty <$> seqZ 200 100).

Definition compileHTTP (context : CompileContext) (node : Ir.Node) : NodeProduct * list Diagnostic :=
  let b := emptyProduct node in
  let '(connectionRef, validConnection) := literalString (found_input node "connection_ref") in
  let b := match rs_connections (cx_resources context) !! connectionRef, has_input node "connection_ref" && validConnection with
    | Some connectionID, true => set_mapped_config "connection_id" (marshal_string connectionID) "inputs.connection_ref" b
    | _, _ => add_diagnostics [inputPhaseDiagnostic context node "connection_ref" PhaseResource "CONNECTION_BINDING_REQUIRED"
                                 "connection_ref has no authorized stable connection binding"] b
    end in
  let method := found_input node "method" in
  let b := if has_input node "method" && bool_decide (input_Source method = SourceLiteral) then
      let b := set_mapped_config "method" (default "" (input_Value method)) "inputs.method" b in
      if (1 <? ep_MaxAttempts (cx_policy context)) && negb (bool_decide ((literalString method).1 = "GET"))
      then add_diagnostics [inputDiagnostic context node "method" "HTTP_RETRY_POLICY_UNSAFE"
                              "automatic business retry requires an idempotent HTTP operation"] b else b
    else b in
  let statuses := found_input node "accepted_statuses" in
  let b := if has_input node "accepted_statuses" && bool_decide (input_Source statuses = SourceLiteral) then
      match CanonicalizeLiteral (input_Value statuses) with
      | Err x => add_diagnostics [inputDiagnostic context node "accepted_statuses" "HTTP_STATUSES_INVALID" (error_string x)] b
      | Ok canonical => set_config "accepted_statuses" canonical b
      end
    else set_config "accepted_statuses" default_statuses b in
  let b := map_field "operation.config.accepted_statuses" "inputs.accepted_statuses" b in
  product (fold_left (add_present context node) ["relative_path"; "query"; "headers"; "body"] b).

Definition compileRPC (context : CompileContext) (node : Ir.Node) : NodeProduct * list Diagnostic :=
  let b := emptyProduct node in
  let '(serviceRef, validService) := literalString (found_input node "service_ref") in
  let '(operation, validOperation) := literalString (found_input node "operation") in
  let b := match rs_services (cx_resources context) !! (serviceRef, operation),
                 has_input node "service_ref" && has_input node "operation" && validService && validOperation with
    | Some resolved, true =>
        let b := set_config "service_id" (marshal_string (sb_ServiceID resolved)) b in
        let b := set_config "operation" (marshal_string operation) b in
        let b := set_config "contract_revision" (marshal_string (sb_ContractRevision resolved)) b in
        let b := set_config "idempotent" (marshal_bool (sb_Idempotent resolved)) b in
        let b := map_field "operation.config.service_id" "inputs.service_ref" b in
        let b := map_field "operation.config.operation" "inputs.operation" b in
        let b := map_field "operation.config.contract_revision" "inputs.operation" b in
        let b := map_field "operation.config.idempotent" "inputs.operation" b in
        if (1 <? ep_MaxAttempts (cx_policy context)) && negb (sb_Idempotent resolved)
        then add_diagnostics [inputDiagnostic context node "operation" "RPC_RETRY_POLICY_UNSAFE"
                                "automatic business retry requires an idempotent service operation"] b else b
    | _, _ => add_diagnostics [inputPhaseDiagnostic context node "service_ref" PhaseResource "SERVICE_BINDING_REQUIRED"
                                 "service_ref and operation have no authorized immutable service binding"] b
    end in
  product (add_present context node b "request").

Definition BuiltinRegistry : Registry :=
  res_or ∅ (NewRegistry
    [MkHandler "start" KindControl (MkCoordinate "control.start" 1) compileStart;
     MkHandler "end" KindControl (MkCoordinate "control.end" 1) compileEnd;
     MkHandler "branch" KindControl (MkCoordinate "control.branch" 1) compileBranch;
     MkHandler "code" KindTask (MkCoordinate "task.python" 1) compileCode;
     MkHandler "http" KindTask (MkCoordinate "task.http" 1) compileHTTP;
     MkHandler "rpc" KindTask (MkCoordinate "task.rpc" 1) compileRPC]).
