(* ===== verification/Catalog.v ===== *)
(** * The node catalog

    Models internal/catalog: the published description of a node type
    (model.go), the catalog and the checks on its definitions (catalog.go), the
    check of a node against its description (validation.go), and the six
    built-in contracts (builtins.go).  [ValidateSource] is the check of a Python
    source in internal/sandbox, [regexp] is regexp.Compile with the match of the
    compiled pattern.  [Describe], a copy of a description through its JSON
    text, is not modelled. *)

From Stdlib Require Import Ascii.
From S2P Require Import Prelude Json Digest Graph Dsl Ir Canonical SourceMap Marshal Handlers.

Open Scope string_scope.
Open Scope list_scope.
Open Scope Z_scope.

Definition BuiltinRevisionV1 : string := "catalog-v1".

(** ** Descriptions *)

Record ArrayItemConstraint : Type := MkArrayItemConstraint {
  ai_DataType : DataType; ai_Minimum : option Z; ai_Maximum : option Z }.

Record BranchCaseConstraints : Type := MkBranchCaseConstraints {
  bx_FirstMatchWins : bool; bx_PathSyntax : string; bx_Operators : list (DataType * list string) }.

Record LiteralConstraints : Type := MkLiteralConstraints {
  lc_StringEnum : list string;
  lc_StringPattern : string;
  lc_MinLength : Z;
  lc_MaxLength : Z;
  lc_ArrayItems : option ArrayItemConstraint;
  lc_BranchCases : option BranchCaseConstraints }.

Record InputDescription : Type := MkInputDescription {
  in_Name : string;
  in_Description : string;
  in_Required : bool;
  in_DataTypes : list DataType;
  in_Sources : list InputSource;
  in_Constraints : option LiteralConstraints }.

Record AdditionalInputDescription : Type := MkAdditionalInputDescription {
  ad_Description : string; ad_DataTypes : list DataType; ad_Sources : list InputSource; ad_ReservedNames : list string }.

Record PortDescription : Type := MkPortDescription { pt_Name : string; pt_Description : string; pt_DataType : DataType }.

Inductive OutputMode : Type := OutputFixed | OutputAuthorDeclared | OutputModeOther (raw : string).

Record OutputDescription : Type := MkOutputDescription {
  ot_Mode : OutputMode; ot_Fields : list PortDescription; ot_AllowedDataTypes : list DataType; ot_MinFields : Z; ot_MaxFields : Z }.

Record NodeDescription : Type := MkNodeDescription {
  ds_Type : string;
  ds_Kind : NodeKind;
  ds_Description : string;
  ds_Inputs : list InputDescription;
  ds_AdditionalInputs : option AdditionalInputDescription;
  ds_Outputs : OutputDescription;
  ds_Examples : list Ir.Node }.

Record contract : Type := MkNodeContract {
  ct_revision : Z;
  ct_description : NodeDescription;
  ct_runtime : RuntimeContract;
  ct_validate : option (Ir.Node → list Diagnostic) }.

Record Catalog : Type := MkCatalog { ca_revision : string; ca_contracts : gmap string contract }.

(** ** Diagnostics of a node *)

Definition nodeInputDiagnostic (node : Ir.Node) (input : Input) (index : nat) (code message : string) : Diagnostic :=
  ErrorDiagnostic PhaseCatalog code message (at_node (node_ID node) (InputPath (node_ID node) 0 (input_Name input) index)).

Definition nodeOutputDiagnostic (node : Ir.Node) (output : Output) (index : nat) (code message : string) : Diagnostic :=
  ErrorDiagnostic PhaseCatalog code message (at_node (node_ID node) (OutputPath (node_ID node) 0 (output_Name output) index)).

Definition input_report (b : bool) (node : Ir.Node) (input : Input) (index : nat) (code message : string) : list Diagnostic :=
  if b then [nodeInputDiagnostic node input index code message] else [].
Definition output_report (b : bool) (node : Ir.Node) (output : Output) (index : nat) (code message : string) : list Diagnostic :=
  if b then [nodeOutputDiagnostic node output index code message] else [].

Definition containsSource (values : list InputSource) (target : InputSource) : bool := bool_decide (target ∈ values).

(** ** Values *)

(** [utf8.RuneCountInString] of a decoded string, which is valid UTF-8: the
    bytes that do not continue a sequence. *)
Fixpoint rune_count (s : string) : Z :=
  match s with "" => 0 | String a r => (if cont a then 0 else 1) + rune_count r end.

(** [json.Number.Int64] *)
Definition Int64 (number : string) : option Z := atoi number.

(** The type of a value inside a decoded literal, by its JSON text. *)
Definition nestedDataType (value : json) : option DataType := json_data_type value.

(** ** Literals *)

Section Catalog.
Context (regexp : string → option (string → bool)).

Definition violation (b : bool) (node : Ir.Node) (input : Input) (index : nat) (message : string) : list Diagnostic :=
  input_report b node input index "NODE_INPUT_CONSTRAINT_VIOLATION" message.

Definition validate_string (node : Ir.Node) (input : Input) (index : nat) (constraints : LiteralConstraints) (typed : string) : list Diagnostic :=
  violation ((0 <? lc_MinLength constraints) && (rune_count typed <? lc_MinLength constraints)) node input index
    "literal string is shorter than allowed"
  ++ violation ((0 <? lc_MaxLength constraints) && (lc_MaxLength constraints <? rune_count typed)) node input index
       "literal string is longer than allowed"
  ++ violation ((0 <? Z.of_nat (length (lc_StringEnum constraints))) && negb (one_of (lc_StringEnum constraints) typed)) node input index
       "literal string is not an allowed value"
  ++ violation (negb (is_empty (lc_StringPattern constraints))
                && negb match regexp (lc_StringPattern constraints) with Some match_ => match_ typed | None => false end) node input index
       "literal string does not match the required pattern".

Definition validate_item (node : Ir.Node) (input : Input) (index : nat) (items : ArrayItemConstraint) (item : json) : list Diagnostic :=
  match nestedDataType item with
  | Some actual =>
      if negb (Compatible actual (ai_DataType items)) then violation true node input index "array item has an invalid data_type"
      else match item with
      | JNum number =>
          violation (bool_decide (actual = TypeInteger) &&
                     match Int64 number with
                     | Some integer =>
                         match ai_Minimum items with Some low => integer <? low | None => false end
                         || match ai_Maximum items with Some high => high <? integer | None => false end
                     | None => true
                     end) node input index "array integer item is outside the allowed range"
      | _ => []
      end
  | None => violation true node input index "array item has an invalid data_type"
  end.

Definition validateLiteralConstraints (node : Ir.Node) (input : Input) (index : nat) (constraints : LiteralConstraints) : list Diagnostic :=
  match DecodeLiteral (input_Value input) with
  | Err _ => []
  | Ok (JStr typed, _) => validate_string node input index constraints typed
  | Ok (JArr values, _) =>
      match lc_ArrayItems constraints with
      | Some items => flat_map (validate_item node input index items) values
      | None => []
      end
  | Ok _ => []
  end.

(** ** A node and its description *)

(** The last description of a name counts. *)
Definition declared_inputs (description : NodeDescription) : gmap string InputDescription :=
  fold_left (λ m d, <[in_Name d := d]> m) (ds_Inputs description) ∅.

Definition validate_allowed (node : Ir.Node) (input : Input) (index : nat) (dataTypes : list DataType) (sources : list InputSource)
    (types_message sources_message : string) : list Diagnostic :=
  input_report (DataType_Valid (input_DataType input) && negb (containsType dataTypes (input_DataType input))) node input index
    "NODE_INPUT_TYPE_NOT_ALLOWED" types_message
  ++ input_report (InputSource_Valid (input_Source input) && negb (containsSource sources (input_Source input))) node input index
       "NODE_INPUT_SOURCE_NOT_ALLOWED" sources_message.

Definition validate_input (node : Ir.Node) (description : NodeDescription) (index : nat) (input : Input) : list Diagnostic :=
  match declared_inputs description !! input_Name input with
  | None =>
      match ds_AdditionalInputs description with
      | Some additional =>
          if one_of (ad_ReservedNames additional) (input_Name input)
          then input_report true node input index "NODE_INPUT_UNSUPPORTED" "input is not allowed by the node description"
          else validate_allowed node input index (ad_DataTypes additional) (ad_Sources additional)
                 "additional input data_type is not allowed" "additional input source is not allowed"
      | None => input_report true node input index "NODE_INPUT_UNSUPPORTED" "input is not allowed by the node description"
      end
  | Some rule =>
      validate_allowed node input index (in_DataTypes rule) (in_Sources rule)
        "input data_type is not allowed by the node description" "input source is not allowed by the node description"
      ++ match in_Constraints rule with
         | Some constraints =>
             if bool_decide (input_Source input = SourceLiteral) && HasValue input
             then validateLiteralConstraints node input index constraints else []
         | None => []
         end
  end.

Definition node_report (b : bool) (node : Ir.Node) (code message path : string) : list Diagnostic :=
  report b PhaseCatalog code message (at_node (node_ID node) (NodePath (node_ID node) 0 +:+ path)).

Definition validate_required_input (node : Ir.Node) (rule : InputDescription) : list Diagnostic :=
  node_report (in_Required rule && negb (one_of (input_Name <$> inputs_of node) (in_Name rule))) node
    "NODE_INPUT_REQUIRED" ("required input " +:+ quote (in_Name rule) +:+ " is missing") ("/inputs/" +:+ in_Name rule).

Definition expected_outputs (description : OutputDescription) : gmap string DataType :=
  fold_left (λ m f, <[pt_Name f := pt_DataType f]> m) (ot_Fields description) ∅.

Definition validate_fixed_output (node : Ir.Node) (expected : gmap string DataType) (index : nat) (output : Output) : list Diagnostic :=
  match expected !! output_Name output with
  | None => output_report true node output index "NODE_OUTPUT_UNSUPPORTED" "output is not allowed by the node description"
  | Some expectedType =>
      output_report (DataType_Valid (output_DataType output) && negb (bool_decide (output_DataType output = expectedType))) node output index
        "NODE_OUTPUT_TYPE_MISMATCH" "fixed output has the wrong data_type"
  end.

(** The missing outputs come in the order of a map; the sort of the diagnostics
    of a node puts them in order of their names. *)
Definition validateOutputs (node : Ir.Node) (description : OutputDescription) : list Diagnostic :=
  match ot_Mode description with
  | OutputFixed =>
      let expected := expected_outputs description in
      concat (imap (validate_fixed_output node expected) (outputs_of node))
      ++ flat_map (λ name, node_report (negb (one_of (output_Name <$> outputs_of node) name)) node
           "NODE_OUTPUT_REQUIRED" ("fixed output " +:+ quote name +:+ " is missing") ("/outputs/" +:+ name)) (sorted_keys expected)
  | OutputAuthorDeclared =>
      let count := Z.of_nat (length (outputs_of node)) in
      node_report ((count <? ot_MinFields description) || (0 <? ot_MaxFields description) && (ot_MaxFields description <? count)) node
        "NODE_OUTPUT_COUNT_INVALID" "author-declared output count is outside the node contract" "/outputs"
      ++ concat (imap (λ index output,
           output_report (DataType_Valid (output_DataType output) && negb (containsType (ot_AllowedDataTypes description) (output_DataType output)))
             node output index "NODE_OUTPUT_TYPE_NOT_ALLOWED" "author-declared output data_type is not allowed") (outputs_of node))
  | OutputModeOther _ => node_report true node "CATALOG_OUTPUT_MODE_INVALID" "node description has an invalid output mode" "/outputs"
  end.

Definition validateDescription (node : Ir.Node) (description : NodeDescription) : list Diagnostic :=
  concat (imap (validate_input node description) (inputs_of node))
  ++ flat_map (validate_required_input node) (ds_Inputs description)
  ++ validateOutputs node (ds_Outputs description).

(** ** Built-in checks *)

(** The literal inputs of a name that have a value, with their positions. *)
Definition literals (node : Ir.Node) (name : string) : list (nat * Input) :=
  filter (λ p, input_Name p.2 = name ∧ input_Source p.2 = SourceLiteral ∧ HasValue p.2 = true) (imap pair (inputs_of node)).

Definition blank_literal (input : Input) : bool :=
  match DecodeLiteral (input_Value input) with Ok (JStr text, _) => blank text | _ => false end.

Definition nonEmptyLiteral (node : Ir.Node) (inputName : string) : list Diagnostic :=
  match List.find (λ p, blank_literal p.2) (literals node inputName) with
  | Some (index, input) => violation true node input index "literal string must not be blank"
  | None => []
  end.

(** *** Branch *)

Definition operator_types : list DataType := [TypeString; TypeInteger; TypeNumber; TypeBoolean; TypeObject; TypeArray].

(** [branchOperatorMatrix] *)
Definition branchOperatorMatrix (t : DataType) : list string :=
  match t with
  | TypeString => ["eq"; "neq"; "contains"; "not_contains"; "starts_with"; "ends_with"]
  | TypeInteger | TypeNumber => ["eq"; "neq"; "gt"; "gte"; "lt"; "lte"]
  | TypeBoolean => ["eq"; "neq"]
  | TypeArray => ["eq"; "neq"; "contains"; "not_contains"]
  | TypeObject => ["eq"; "neq"; "has_key"; "not_has_key"]
  | TypeOther _ => []
  end.

Definition flattenOperators (matrix : DataType → list string) (types : list DataType) : list string :=
  fold_left (λ result operator, if bool_decide (operator ∈ result) then result else result ++ [operator]) (flat_map matrix types) [].

Definition branchOperators : list string := flattenOperators branchOperatorMatrix operator_types.

Definition type_is (t : DataType) (o : option DataType) : bool := bool_decide (o = Some t).

Definition validBranchComparison (valueType : DataType) (operator : string) (comparison : json) : bool :=
  let comparisonType := nestedDataType comparison in
  match valueType with
  | TypeString => type_is TypeString comparisonType
  | TypeInteger | TypeNumber => is_numeric comparisonType
  | TypeBoolean => type_is TypeBoolean comparisonType
  | TypeArray => one_of ["contains"; "not_contains"] operator || type_is TypeArray comparisonType
  | TypeObject => if one_of ["has_key"; "not_has_key"] operator then type_is TypeString comparisonType else type_is TypeObject comparisonType
  | TypeOther _ => false
  end.

Definition validPathComparison (operator : string) (comparison : json) : bool :=
  let comparisonType := nestedDataType comparison in
  if one_of ["starts_with"; "ends_with"; "has_key"; "not_has_key"] operator then type_is TypeString comparisonType
  else if one_of ["gt"; "gte"; "lt"; "lte"] operator then is_numeric comparisonType
  else if one_of ["contains"; "not_contains"] operator then true
  else if one_of ["eq"; "neq"] operator then bool_decide (is_Some comparisonType)
  else false.

Definition text_of (j : json) : option string := match j with JStr s => Some s | _ => None end.

Definition branchCaseDiagnostic (node : Ir.Node) (input : Input) (inputIndex caseIndex : nat) (code message : string) : Diagnostic :=
  ErrorDiagnostic PhaseCatalog code message
    (at_node (node_ID node) (InputPath (node_ID node) 0 (input_Name input) inputIndex +:+ "/" +:+ pretty caseIndex)).

Section Branch.
Context (order : range_order).

(** The first thing that is wrong with a case. *)
Definition validate_case (node : Ir.Node) (valueType : DataType) (input : Input) (inputIndex caseIndex : nat) (rawCase : json)
    : option Diagnostic :=
  let invalid message := Some (branchCaseDiagnostic node input inputIndex caseIndex "BRANCH_CASES_INVALID" message) in
  let mismatch message := Some (branchCaseDiagnostic node input inputIndex caseIndex "BRANCH_OPERATOR_TYPE_MISMATCH" message) in
  match rawCase with
  | JObj item =>
      let operator := obj_lookup "operator" item ≫= text_of in
      if negb (match obj_lookup "route" item ≫= text_of with Some route => ValidRouteName route | None => false end)
      then invalid "case route is invalid"
      else if negb (match operator with Some operator => one_of branchOperators operator | None => false end)
      then invalid "case operator is unsupported"
      else
      match obj_lookup "value" item with
      | None => invalid "case comparison value is required"
      | Some comparison =>
          match List.find (λ key, negb (one_of ["route"; "path"; "operator"; "value"] key)) (order 0%nat "validateBranch" item.*1) with
          | Some key => invalid ("case field " +:+ quote key +:+ " is unsupported")
          | None =>
              match obj_lookup "path" item with
              | Some path =>
                  if negb (match text_of path with Some pathText => validBranchPath pathText | None => false end)
                  then invalid "case path is invalid"
                  else if DataType_Valid valueType && negb (bool_decide (valueType = TypeObject))
                  then mismatch "case path is only valid when branch value is an object"
                  else if negb (validPathComparison (default "" operator) comparison)
                  then mismatch "comparison value is incompatible with the path operator"
                  else None
              | None =>
                  if negb (DataType_Valid valueType) then None
                  else if negb (one_of (branchOperatorMatrix valueType) (default "" operator))
                  then mismatch "operator is incompatible with the branch value data_type"
                  else if negb (validBranchComparison valueType (default "" operator) comparison)
                  then mismatch "comparison value is incompatible with the branch value data_type and operator"
                  else None
              end
          end
      end
  | _ => invalid "case must be an object"
  end.

Definition first_case_issue (node : Ir.Node) (valueType : DataType) (input : Input) (inputIndex : nat) (cases : list json) : option Diagnostic :=
  head (omap id (imap (validate_case node valueType input inputIndex) cases)).

Definition invalid_default (input : Input) : bool :=
  match DecodeLiteral (input_Value input) with
  | Ok (JStr route, _) => negb (ValidRouteName route)
  | Ok _ => true
  | Err _ => false
  end.

(** The loop over the inputs, from the one at [index]. *)
Fixpoint validate_branch_inputs (node : Ir.Node) (valueType : DataType) (index : nat) (inputs : list Input) : list Diagnostic :=
  match inputs with
  | [] => []
  | input :: rest =>
      let literal := bool_decide (input_Source input = SourceLiteral) && HasValue input in
      if bool_decide (input_Name input = "default_route") && literal && invalid_default input
      then [nodeInputDiagnostic node input index "BRANCH_ROUTE_INVALID" "default_route must be a valid route identifier"]
      else if negb (bool_decide (input_Name input = "cases") && literal) then validate_branch_inputs node valueType (S index) rest
      else match DecodeLiteral (input_Value input) with
      | Err _ => []
      | Ok (JArr (value :: values), _) =>
          match first_case_issue node valueType input index (value :: values) with
          | Some issue => [issue]
          | None => validate_branch_inputs node valueType (S index) rest
          end
      | Ok _ => [nodeInputDiagnostic node input index "BRANCH_CASES_INVALID" "cases must contain at least one case"]
      end
  end.

Definition validateBranch (node : Ir.Node) : list Diagnostic :=
  let valueType := match List.find (λ i, bool_decide (input_Name i = "value")) (inputs_of node) with
                   | Some input => input_DataType input | None => TypeOther "" end in
  validate_branch_inputs node valueType 0 (inputs_of node).
End Branch.

(** *** Code *)

Record SourceError : Type := MkSourceError { se_Code : string; se_Message : string; se_Line : Z; se_Column : Z }.

Section Source.
Context (ValidateSource : string → option SourceError).

Definition source_diagnostic (node : Ir.Node) (x : SourceError) : Diagnostic :=
  let d := ErrorDiagnostic PhaseCatalog (se_Code x) (se_Message x)
             (at_node (node_ID node) ("/nodes/" +:+ node_ID node +:+ "/inputs/source_code")) in
  if 0 <? se_Line x then with_details {["source_line" := DetailInt (se_Line x); "source_column" := DetailInt (se_Column x)]} d else d.

Fixpoint validate_sources (node : Ir.Node) (inputs : list Input) : list Diagnostic :=
  match inputs with
  | [] => []
  | input :: rest =>
      if negb (bool_decide (input_Name input = "source_code") && bool_decide (input_Source input = SourceLiteral))
      then validate_sources node rest
      else match unmarshal_string (default "" (input_Value input)) with
      | None | Some "" => []
      | Some source =>
          match ValidateSource source with Some x => [source_diagnostic node x] | None => [] end ++ validate_sources node rest
      end
  end.

Definition validateCode (node : Ir.Node) : list Diagnostic :=
  nonEmptyLiteral node "source_code" ++ validate_sources node (inputs_of node).
End Source.

(** *** HTTP *)

Definition is_control (a : ascii) : bool := (code a <? 32)%N || (code a =? 127)%N.

(** Every percent sign is followed by two hexadecimal digits. *)
Fixpoint escapes_ok (s : string) : bool :=
  match s with
  | "" => true
  | String a r =>
      if (code a =? 37)%N then
        match r with
        | String h (String l r2) => bool_decide (is_Some (hex_value h)) && bool_decide (is_Some (hex_value l)) && escapes_ok r2
        | _ => false
        end
      else escapes_ok r
  end.

(** [strings.Cut] at a byte *)
Definition cut (n : N) (s : string) : string * string :=
  default (s, "") (split_byte (λ a, (code a =? n)%N) s).

(** What the check asks of [url.Parse] for a path: a text that starts with one
    slash has no scheme and no host, and it is refused for a control byte or a
    percent sign that is no escape; a query or a fragment is not accepted. *)
Definition relative_url (path : string) : bool :=
  String.prefix "/" path && negb (String.prefix "//" path)
  && (let '(url, fragment) := cut 35 path in
      let '(rest, query) := cut 63 url in
      is_empty fragment && is_empty query && string_all (λ a, negb (is_control a)) url && escapes_ok rest).

Fixpoint validate_paths (node : Ir.Node) (paths : list (nat * Input)) : option (list Diagnostic) :=
  match paths with
  | [] => None
  | (index, input) :: rest =>
      let refused := Some [nodeInputDiagnostic node input index "HTTP_INVALID_RELATIVE_PATH"
                             "relative_path must stay within the authorized connection origin"] in
      match DecodeLiteral (input_Value input) with
      | Err _ => Some []
      | Ok (JStr path, _) => if relative_url path then validate_paths node rest else refused
      | Ok _ => refused
      end
  end.

Definition validateHTTP (node : Ir.Node) : list Diagnostic :=
  default (nonEmptyLiteral node "connection_ref") (validate_paths node (literals node "relative_path")).

Definition validateRPC (node : Ir.Node) : list Diagnostic := nonEmptyLiteral node "service_ref" ++ nonEmptyLiteral node "operation".

(** ** Catalogs *)

Definition validateTypeAndSourceSet (nodeType inputName : string) (dataTypes : list DataType) (sources : list InputSource) : res unit :=
  guard_err (match dataTypes, sources with _ :: _, _ :: _ => false | _, _ => true end)
    (Errorf "node %q input %q must declare data types and sources" [quote nodeType; quote inputName]) ;;
  guard_err (negb (forallb DataType_Valid dataTypes))
    (Errorf "node %q input %q has invalid data type %q" [quote nodeType; quote inputName]) ;;
  guard_err (negb (forallb InputSource_Valid sources))
    (Errorf "node %q input %q has invalid source %q" [quote nodeType; quote inputName]).

Fixpoint check_inputs (nodeType : string) (names : list string) (descriptions : list InputDescription) : res unit :=
  match descriptions with
  | [] => Ok tt
  | input :: rest =>
      guard_err (negb (ValidPortName (in_Name input))) (Errorf "node %q has invalid input name %q" [quote nodeType; quote (in_Name input)]) ;;
      guard_err (bool_decide (in_Name input ∈ names)) (Errorf "node %q describes input %q twice" [quote nodeType; quote (in_Name input)]) ;;
      validateTypeAndSourceSet nodeType (in_Name input) (in_DataTypes input) (in_Sources input) ;;
      guard_err (match in_Constraints input with
                 | Some constraints =>
                     negb (is_empty (lc_StringPattern constraints)) && negb (bool_decide (is_Some (regexp (lc_StringPattern constraints))))
                 | None => false
                 end) (Errorf "node %q input %q has invalid pattern: %w" [quote nodeType; quote (in_Name input)]) ;;
      check_inputs nodeType (in_Name input :: names) rest
  end.

Fixpoint check_outputs (nodeType : string) (names : list string) (fields : list PortDescription) : res unit :=
  match fields with
  | [] => Ok tt
  | output :: rest =>
      guard_err (negb (ValidPortName (pt_Name output)) || negb (DataType_Valid (pt_DataType output)))
        (Errorf "node %q has invalid fixed output %q" [quote nodeType; quote (pt_Name output)]) ;;
      guard_err (bool_decide (pt_Name output ∈ names)) (Errorf "node %q describes output %q twice" [quote nodeType; quote (pt_Name output)]) ;;
      check_outputs nodeType (pt_Name output :: names) rest
  end.

Definition no_policy (p : ExecutionPolicyDefaults) : bool :=
  (df_MaxAttempts p =? 0) && (df_MaxRecoveries p =? 0) && (df_AttemptTimeoutMS p =? 0) && (df_RetryBackoffMS p =? 0)
  && bool_decide (df_RetryableErrorCodes p = []).

Definition validateContractDefinition (value : contract) : res unit :=
  let description := ct_description value in
  let type := quote (ds_Type description) in
  let runtime := ct_runtime value in
  let policy := rc_DefaultExecutionPolicy runtime in
  guard_err (match ds_Kind description with KindOther _ => true | _ => false end) (Errorf "node %q has invalid kind %q" [type]) ;;
  guard_err (blank (ds_Description description) || bool_decide (ds_Examples description = []))
    (Errorf "node %q must publish a description and example" [type]) ;;
  guard_err (negb (bool_decide (rc_Kind runtime = ds_Kind description)) || is_empty (rc_OperationType runtime) || (rc_OperationVersion runtime =? 0))
    (Errorf "node %q has invalid runtime contract" [type]) ;;
  (if bool_decide (rc_Kind runtime = KindControl)
   then guard_err (negb (no_policy policy)) (Errorf "control node %q cannot have an execution policy" [type])
   else guard_err ((df_MaxAttempts policy =? 0) || (df_AttemptTimeoutMS policy =? 0) || (df_RetryBackoffMS policy =? 0))
          (Errorf "task node %q has an incomplete default execution policy" [type])) ;;
  check_inputs (ds_Type description) [] (ds_Inputs description) ;;
  match ds_AdditionalInputs description with
  | Some additional => validateTypeAndSourceSet (ds_Type description) "additional_inputs" (ad_DataTypes additional) (ad_Sources additional)
  | None => Ok tt
  end ;;
  let outputs := ds_Outputs description in
  match ot_Mode outputs with
  | OutputFixed => check_outputs (ds_Type description) [] (ot_Fields outputs)
  | OutputAuthorDeclared =>
      guard_err (bool_decide (ot_AllowedDataTypes outputs = []) || (ot_MaxFields outputs <? ot_MinFields outputs))
        (Errorf "node %q has invalid author-declared output policy" [type]) ;;
      guard_err (negb (forallb DataType_Valid (ot_AllowedDataTypes outputs))) (Errorf "node %q has invalid output data type %q" [type])
  | OutputModeOther mode => Err (Errorf "node %q has invalid output mode %q" [type; quote mode])
  end ;;
  guard_err (existsb (λ e, negb (bool_decide (node_Type e = ds_Type description))) (ds_Examples description))
    (Errorf "node %q publishes an example for type %q" [type]).

Fixpoint add_contracts (catalog : Catalog) (contracts : list contract) : res Catalog :=
  match contracts with
  | [] => Ok catalog
  | value :: rest =>
      let type := ds_Type (ct_description value) in
      guard_err (ct_revision value =? 0) (Errorf "node %q has no internal contract revision" [quote type]) ;;
      guard_err (negb (ValidNodeType type)) (Errorf "node type %q is invalid" [quote type]) ;;
      validateContractDefinition value ;;
      guard_err (bool_decide (is_Some (ca_contracts catalog !! type))) (Errorf "node type %q is registered twice" [quote type]) ;;
      add_contracts (MkCatalog (ca_revision catalog) (<[type := value]> (ca_contracts catalog))) rest
  end.

Definition newCatalog (revision : string) (contracts : list contract) : res Catalog :=
  guard_err (is_empty revision) (Errorf "catalog revision is required" []) ;;
  add_contracts (MkCatalog revision ∅) contracts.

Definition ContractRevision (c : Catalog) (nodeType : string) : option Z := ct_revision <$> ca_contracts c !! nodeType.
Definition Catalog_RuntimeContract (c : Catalog) (nodeType : string) : option RuntimeContract := ct_runtime <$> ca_contracts c !! nodeType.

Definition ValidateNode (c : Catalog) (node : Ir.Node) : list Diagnostic :=
  match ca_contracts c !! node_Type node with
  | None =>
      node_report true node "NODE_TYPE_UNSUPPORTED"
        ("node type " +:+ quote (node_Type node) +:+ " is not present in catalog " +:+ ca_revision c) "/type"
  | Some value =>
      SortDiagnostics (validateDescription node (ct_description value)
        ++ match ct_validate value with Some validate => validate node | None => [] end)
  end.

(** The catalog as the compiler sees it. *)
Definition node_catalog (c : Catalog) : NodeCatalog := MkNodeCatalog (ca_revision c) (ValidateNode c) (Catalog_RuntimeContract c).

(** ** The built-in contracts *)

Definition bothSources : list InputSource := [SourceLiteral; SourceRef].
Definition literalOnly : list InputSource := [SourceLiteral].

Definition no_constraints : LiteralConstraints := MkLiteralConstraints [] "" 0 0 None None.
Definition length_between (low high : Z) : LiteralConstraints := MkLiteralConstraints [] "" low high None None.

Definition fixedOutputs (fields : list PortDescription) : OutputDescription := MkOutputDescription OutputFixed fields [] 0 0.

Definition controlRuntime (operationType : string) : RuntimeContract :=
  MkRuntimeContract KindControl operationType 1 (MkExecutionPolicyDefaults 0 0 0 0 []).
Definition taskRuntime (operationType : string) : RuntimeContract :=
  MkRuntimeContract KindTask operationType 1 (MkExecutionPolicyDefaults 1 3 30000 1000 []).

Definition example_input (name : string) (t : DataType) (value : string) : Input := MkInput name t SourceLiteral (Some value) "" "".

Definition startContract : contract := MkNodeContract 1
  (MkNodeDescription "start" KindControl "Starts a workflow and exposes the JSON object run input." [] None
     (fixedOutputs [MkPortDescription "workflow_input" "Workflow run input." TypeObject])
     [MkNode "start" "start" "开始" (Some []) (Some [MkOutput "workflow_input" TypeObject])])
  (controlRuntime "control.start") None.

Definition endContract : contract := MkNodeContract 1
  (MkNodeDescription "end" KindControl "Finishes a workflow with one JSON object workflow output."
     [MkInputDescription "workflow_output" "Workflow run output." true [TypeObject] bothSources None] None
     (fixedOutputs [])
     [MkNode "end" "end" "结束" (Some [example_input "workflow_output" TypeObject "{}"]) (Some [])])
  (controlRuntime "control.end") None.

Definition branch_cases : LiteralConstraints :=
  MkLiteralConstraints [] "" 0 0 None
    (Some (MkBranchCaseConstraints true "a.b.c" ((λ t, (t, branchOperatorMatrix t)) <$> operator_types))).

Definition branchContract (order : range_order) : contract := MkNodeContract 1
  (MkNodeDescription "branch" KindControl "Selects exactly one named route using ordered deterministic cases and a default route."
     [MkInputDescription "value" "Value evaluated by branch cases." true operator_types bothSources None;
      MkInputDescription "cases" "Ordered route cases." true [TypeArray] literalOnly (Some branch_cases);
      MkInputDescription "default_route" "Route selected when no case matches." true [TypeString] literalOnly (Some (length_between 1 64))] None
     (fixedOutputs [])
     [MkNode "check_score" "branch" "判断分数"
        (Some [example_input "value" TypeInteger "85";
               example_input "cases" TypeArray ("[" +:+ marshal_object [("operator", marshal_string "gte"); ("route", marshal_string "approved"); ("value", "80")] +:+ "]");
               example_input "default_route" TypeString (marshal_string "rejected")])
        (Some [])])
  (controlRuntime "control.branch") (Some (validateBranch order)).

Definition newline : string := String "010" "".

Definition codeContract (ValidateSource : string → option SourceError) : contract := MkNodeContract 1
  (MkNodeDescription "code" KindTask "Runs a fixed Python main(inputs) function in a network-denied sandbox."
     [MkInputDescription "source_code" "Python source defining main(inputs)." true [TypeString] literalOnly (Some (length_between 1 262144));
      MkInputDescription "model_ref" "Optional approved model artifact reference." false [TypeString] literalOnly (Some (length_between 1 256))]
     (Some (MkAdditionalInputDescription "Named JSON data packed into the inputs object." operator_types bothSources ["source_code"; "model_ref"]))
     (MkOutputDescription OutputAuthorDeclared [] operator_types 0 (Z.of_nat MaxPortsPerNode))
     [MkNode "normalize_order" "code" "规范化订单"
        (Some [example_input "source_code" TypeString
                 (marshal_string ("def main(inputs):" +:+ newline +:+ "    return {'result': inputs['order']}"));
               example_input "order" TypeObject (marshal_object [("id", marshal_string "O-1")])])
        (Some [MkOutput "result" TypeObject])])
  (taskRuntime "task.python") (Some (validateCode ValidateSource)).

Definition path_pattern : string := "^/[^?#]*$".

Definition httpContract : contract := MkNodeContract 1
  (MkNodeDescription "http" KindTask "Calls an authorized project HTTP connection using a relative JSON API path."
     [MkInputDescription "connection_ref" "Authorized project connection reference." true [TypeString] literalOnly (Some (length_between 1 256));
      MkInputDescription "method" "HTTP method." true [TypeString] literalOnly
        (Some (MkLiteralConstraints ["GET"; "POST"; "PUT"; "PATCH"; "DELETE"] "" 0 0 None None));
      MkInputDescription "relative_path" "Path relative to the authorized connection origin." true [TypeString] bothSources
        (Some (MkLiteralConstraints [] path_pattern 0 4096 None None));
      MkInputDescription "query" "Query parameters encoded by the executor." false [TypeObject] bothSources None;
      MkInputDescription "headers" "Non-protected request headers." false [TypeObject] bothSources None;
      MkInputDescription "body" "Optional JSON request body." false operator_types bothSources None;
      MkInputDescription "accepted_statuses" "Accepted HTTP statuses; defaults to 2xx." false [TypeArray] literalOnly
        (Some (MkLiteralConstraints [] "" 0 0 (Some (MkArrayItemConstraint TypeInteger (Some 100) (Some 599))) None))] None
     (fixedOutputs [MkPortDescription "response" "Status, headers, and parsed JSON body." TypeObject])
     [MkNode "create_order" "http" "创建订单"
        (Some [example_input "connection_ref" TypeString (marshal_string "customer_api");
               example_input "method" TypeString (marshal_string "POST");
               example_input "relative_path" TypeString (marshal_string "/v1/orders");
               example_input "body" TypeObject (marshal_object [("id", marshal_string "O-1")])])
        (Some [MkOutput "response" TypeObject])])
  (taskRuntime "task.http") (Some validateHTTP).

Definition rpcContract : contract := MkNodeContract 1
  (MkNodeDescription "rpc" KindTask "Calls one authorized operation registered in the project service catalog."
     [MkInputDescription "service_ref" "Authorized service reference." true [TypeString] literalOnly (Some (length_between 1 256));
      MkInputDescription "operation" "Registered service operation." true [TypeString] literalOnly (Some (length_between 1 256));
      MkInputDescription "request" "Operation request object." true [TypeObject] bothSources None] None
     (fixedOutputs [MkPortDescription "response" "Validated operation response." TypeObject])
     [MkNode "create_invoice" "rpc" "创建发票"
        (Some [example_input "service_ref" TypeString (marshal_string "invoice_service");
               example_input "operation" TypeString (marshal_string "CreateInvoice");
               example_input "request" TypeObject "{}"])
        (Some [MkOutput "response" TypeObject])])
  (taskRuntime "task.rpc") (Some validateRPC).

(** The catalog, or the panic. *)
Definition BuiltinV1 (order : range_order) (ValidateSource : string → option SourceError) : res Catalog :=
  newCatalog BuiltinRevisionV1 [startContract; endContract; branchContract order; codeContract ValidateSource; httpContract; rpcContract].
End Catalog.
