(* ===== verification/Access.v ===== *)
(** * Access control

    Models internal/access/model.go over the repository interface it states,
    and internal/adapters/postgres/access_store.go, its implementation on the
    tables of principals, credentials, permissions and execution identities.
    Both packages of this development that own a "resource not found" sentinel
    tell theirs apart by the package's name, which is not printed. *)

From Stdlib Require Import Ascii.
From S2P Require Import Prelude Json Digest Graph Dsl Ir.

Open Scope string_scope.
Open Scope list_scope.
Open Scope Z_scope.

(** ** Trimmed texts *)

(** The text is one rune, and [unicode.IsSpace] of it. *)
Definition space_rune (s : string) : bool :=
  match s with
  | String a "" => in_range 9 13 a || (code a =? 32)%N
  | String a (String b "") => space2 a b
  | String a (String b (String c "")) => space3 a b c
  | _ => false
  end.

Definition starts_with_space (s : string) : bool :=
  existsb (λ n, space_rune (String.substring 0 n s)) [1; 2; 3]%nat.

Fixpoint ends_with_space (s : string) : bool :=
  match s with "" => false | String _ r => space_rune s || ends_with_space r end.

(** [strings.TrimSpace(s) == s] *)
Definition trimmed (s : string) : bool := negb (starts_with_space s || ends_with_space s).

(** ** The model *)

Definition PrincipalUser : string := "user".
Definition PrincipalServiceAccount : string := "service_account".

Definition PermissionWorkflowRead : string := "workflow.read".
Definition PermissionWorkflowWrite : string := "workflow.write".
Definition PermissionWorkflowTest : string := "workflow.test".
Definition PermissionWorkflowPublish : string := "workflow.publish".
Definition PermissionRunCreate : string := "run.create".
Definition PermissionConnectionUse : string := "connection.use".
Definition PermissionServiceUse : string := "service.use".

Definition ErrUnauthenticated : error := Errorf "unauthenticated" [].
Definition ErrPermissionDenied : error := Errorf "permission denied" [].
Definition ErrAccessNotFound : error := Errorf "resource not found" ["access"].

Record Principal : Type := MkPrincipal { pn_ID : string; pn_Kind : string; pn_Name : string }.
Record ExecutionIdentity : Type := MkExecutionIdentity { ei_ID : string; ei_ProjectID : string }.

Class AccessRepository (D : Type) : Type := {
  FindPrincipalByCredentialHash : list Z → tx D Principal;
  HasPermission : string → string → string → tx D bool;
  FindExecutionIdentity : string → tx D ExecutionIdentity }.

Section Service.
Context {D : Type} `{!AccessRepository D}.

Definition Authenticate (bearerToken : string) : tx D Principal :=
  let length := Z.of_nat (String.length bearerToken) in
  if (length <? 16) || (4096 <? length) || negb (trimmed bearerToken) then tx_fail ErrUnauthenticated
  else
    r ← tx_try (FindPrincipalByCredentialHash (sum256 bearerToken));
    match r with
    | Err x => if errors_Is x ErrAccessNotFound then tx_fail ErrUnauthenticated else tx_fail (Prefix "authenticate principal" x)
    | Ok principal =>
        if is_empty (pn_ID principal)
           || negb (bool_decide (pn_Kind principal = PrincipalUser)) && negb (bool_decide (pn_Kind principal = PrincipalServiceAccount))
        then tx_fail (Errorf "authenticate principal: repository returned an invalid principal" [])
        else mret principal
    end.

Definition Service_Require (projectID principalID permission : string) : tx D unit :=
  r ← tx_try (HasPermission projectID principalID permission);
  match r with
  | Err x => tx_fail (Prefix ("authorize " +:+ permission) x)
  | Ok allowed => if allowed : bool then mret tt else tx_fail ErrPermissionDenied
  end.

Definition Service_ExecutionIdentity (projectID : string) : tx D ExecutionIdentity :=
  r ← tx_try (FindExecutionIdentity projectID);
  match r with
  | Err x => if errors_Is x ErrAccessNotFound then tx_fail ErrAccessNotFound else tx_fail (Prefix "load project execution identity" x)
  | Ok identity =>
      if is_empty (ei_ID identity) || negb (bool_decide (ei_ProjectID identity = projectID))
      then tx_fail (Errorf "load project execution identity: repository returned an invalid identity" [])
      else mret identity
  end.
End Service.

(** ** The store *)

Record PrincipalRow : Type := MkPrincipalRow { pw_Kind : string; pw_DisplayName : string; pw_Enabled : bool }.
Record CredentialRow : Type := MkCredentialRow { cw_PrincipalID : string; cw_ExpiresAt : option Time; cw_RevokedAt : option Time }.
Record IdentityRow : Type := MkIdentityRow { iw_ID : string; iw_Enabled : bool }.

(** The keys: [principal_id], [credential_hash], (project, principal,
    permission), [project_id]. *)
Record AccessDB : Type := MkAccessDB {
  ax_principals : gmap string PrincipalRow;
  ax_credentials : gmap (list Z) CredentialRow;
  ax_permissions : gset (string * string * string);
  ax_identities : gmap string IdentityRow }.

Definition enabled_principal (t : AccessDB) (id : string) : option PrincipalRow :=
  row ← ax_principals t !! id; if pw_Enabled row then Some row else None.

(** [c.expires_at IS NULL OR c.expires_at > now] *)
Definition not_expired (expires : option Time) (now : Time) : bool :=
  match expires with Some t => now <? t | None => true end.

Definition find_principal (t : AccessDB) (now : Time) (digest : list Z) : res Principal :=
  match ax_credentials t !! digest with
  | Some c =>
      match enabled_principal t (cw_PrincipalID c) with
      | Some p =>
          if bool_decide (cw_RevokedAt c = None) && not_expired (cw_ExpiresAt c) now
          then Ok (MkPrincipal (cw_PrincipalID c) (pw_Kind p) (pw_DisplayName p)) else Err ErrAccessNotFound
      | None => Err ErrAccessNotFound
      end
  | None => Err ErrAccessNotFound
  end.

Definition has_permission (t : AccessDB) (projectID principalID permission : string) : bool :=
  bool_decide ((projectID, principalID, permission) ∈ ax_permissions t) && bool_decide (is_Some (enabled_principal t principalID)).

Definition find_identity (t : AccessDB) (projectID : string) : res ExecutionIdentity :=
  match ax_identities t !! projectID with
  | Some row => if iw_Enabled row then Ok (MkExecutionIdentity (iw_ID row) projectID) else Err ErrAccessNotFound
  | None => Err ErrAccessNotFound
  end.
