(* ===== verification/Resources.v ===== *)
(** * Managed resources

    Models the resolver of internal/resources/model.go, over the repository and
    authorizer interfaces it states, and the two lookups of
    internal/adapters/postgres/resources_store.go it uses.  The material that
    workers resolve at run time is not modelled. *)

From S2P Require Import Prelude Json Digest Graph Dsl Ir Canonical SourceMap Marshal Handlers Access.

Open Scope string_scope.
Open Scope list_scope.
Open Scope Z_scope.

(** ** Calls with three outcomes

    A service that answers [(T, []ir.Diagnostic, error)]: a value, the
    diagnostics of the author's document, or an error. *)

Inductive outcome (E A : Type) : Type :=
  | Done (a : A)
  | Diagnosed (diagnostics : list Diagnostic)
  | Failed (e : E).
Arguments Done {E A} _.
Arguments Diagnosed {E A} _.
Arguments Failed {E A} _.

Definition call (D E A : Type) : Type := D → D * outcome E A.

#[export] Instance call_ret D E : MRet (call D E) := λ A a d, (d, Done a).
#[export] Instance call_bind D E : MBind (call D E) := λ A B f m d,
  match m d with
  | (d', Done a) => f a d'
  | (d', Diagnosed l) => (d', Diagnosed l)
  | (d', Failed x) => (d', Failed x)
  end.

Definition answer {D E A} (o : outcome E A) : call D E A := λ d, (d, o).

(** A repository call, its error wrapped. *)
Definition calling {D E A} (wrap : error → E) (m : tx D A) : call D E A := λ d,
  let '(d', r) := m d in (d', match r with Ok a => Done a | Err x => Failed (wrap x) end).

(** A call into another package, its error wrapped. *)
Definition map_error {D E F A} (wrap : E → F) (m : call D E A) : call D F A := λ d,
  let '(d', o) := m d in
  (d', match o with Done a => Done a | Diagnosed l => Diagnosed l | Failed x => Failed (wrap x) end).

(** ** The resolver *)

Inductive Purpose : Type := PurposeTest | PurposeProduction.
#[export] Instance Purpose_eq_dec : EqDecision Purpose.
Proof. solve_decision. Defined.
#[export] Instance Purpose_countable : Countable Purpose.
Proof.
  refine (inj_countable' (λ p, bool_decide (p = PurposeTest)) (λ b : bool, if b then PurposeTest else PurposeProduction) _).
  by intros [].
Defined.

Definition ErrResourcesNotFound : error := Errorf "resource not found" ["resources"].

Record Connection : Type := MkConnection { rc_ID : string; rc_ProjectID : string; rc_Reference : string }.
Record ServiceOperation : Type := MkServiceOperation {
  so_ServiceID : string; so_ProjectID : string; so_ServiceReference : string; so_Operation : string;
  so_ContractRevision : string; so_Idempotent : bool }.

Class ResourceRepository (D : Type) : Type := {
  ResolveConnection : string → string → string → Purpose → tx D Connection;
  ResolveServiceOperation : string → string → string → string → Purpose → tx D ServiceOperation }.

Class Authorizer (D : Type) : Type := {
  Require_ : string → string → string → tx D unit;
  ExecutionIdentity_ : string → tx D ExecutionIdentity }.

#[export] Instance access_authorizer {D} `{!AccessRepository D} : Authorizer D :=
  {| Require_ := Service_Require; ExecutionIdentity_ := Service_ExecutionIdentity |}.

(** The text of the first literal input of the name, its index, and whether it
    is a string with a text. *)
Definition literalStringInput (node : Ir.Node) (name : string) : string * Z * bool :=
  match List.find (λ p, bool_decide (input_Name p.2 = name) && bool_decide (input_Source p.2 = SourceLiteral) && HasValue p.2)
          (imap pair (inputs_of node)) with
  | Some (index, input) =>
      match DecodeLiteral (input_Value input) with
      | Ok (JStr text, _) => (text, Z.of_nat index, negb (is_empty text))
      | _ => ("", Z.of_nat index, false)
      end
  | None => ("", -1, false)
  end.

Definition resourceDiagnostic (node : Ir.Node) (nodeIndex : nat) (inputName : string) (inputIndex : Z) (code message : string) : Diagnostic :=
  let path := if 0 <=? inputIndex then InputPath (node_ID node) nodeIndex inputName (Z.to_nat inputIndex)
              else NodePath (node_ID node) nodeIndex +:+ "/inputs/" +:+ inputName in
  ErrorDiagnostic PhaseResource code message (at_node (node_ID node) path).

(** The bindings found so far: connections and service operations. *)
Notation found_bindings := (gmap string string * gmap (string * string) ServiceOperationBinding)%type.

Section Resolver.
Context {D : Type} `{!ResourceRepository D, !Authorizer D}.
Context (projectID principalID identityID : string) (purpose : Purpose).

Definition unavailable {A} (node : Ir.Node) (nodeIndex : nat) (inputName : string) (inputIndex : Z) : call D error A :=
  answer (Diagnosed [resourceDiagnostic node nodeIndex inputName inputIndex "RESOURCE_NOT_FOUND" "managed resource is unavailable"]).

Definition resolve_connection (nodeIndex : nat) (node : Ir.Node) (bindings : found_bindings) : call D error found_bindings :=
  calling id (Require_ projectID principalID PermissionConnectionUse) ;;
  let '(reference, inputIndex, ok) := literalStringInput node "connection_ref" in
  if negb ok || bool_decide (is_Some (bindings.1 !! reference)) then mret bindings
  else
    r ← calling id (tx_try (ResolveConnection projectID identityID reference purpose));
    match r with
    | Err x =>
        if errors_Is x ErrResourcesNotFound then unavailable node nodeIndex "connection_ref" inputIndex
        else answer (Failed x)
    | Ok connection => mret (<[reference := rc_ID connection]> bindings.1, bindings.2)
    end.

Definition resolve_service (nodeIndex : nat) (node : Ir.Node) (bindings : found_bindings) : call D error found_bindings :=
  calling id (Require_ projectID principalID PermissionServiceUse) ;;
  let '(serviceReference, serviceInputIndex, serviceOK) := literalStringInput node "service_ref" in
  let '(operation, operationInputIndex, operationOK) := literalStringInput node "operation" in
  let key := (serviceReference, operation) in
  if negb (serviceOK && operationOK) || bool_decide (is_Some (bindings.2 !! key)) then mret bindings
  else
    r ← calling id (tx_try (ResolveServiceOperation projectID identityID serviceReference operation purpose));
    match r with
    | Err x =>
        if errors_Is x ErrResourcesNotFound then
          if is_empty serviceReference then unavailable node nodeIndex "service_ref" serviceInputIndex
          else unavailable node nodeIndex "operation" operationInputIndex
        else answer (Failed x)
    | Ok service =>
        mret (bindings.1, <[key := MkServiceOperationBinding (so_ServiceID service) (so_ContractRevision service) (so_Idempotent service)]> bindings.2)
    end.

Fixpoint resolve_nodes (nodeIndex : nat) (nodes : list Ir.Node) (bindings : found_bindings) : call D error found_bindings :=
  match nodes with
  | [] => mret bindings
  | node :: rest =>
      bindings ← (if bool_decide (node_Type node = "http") then resolve_connection nodeIndex node bindings
                  else if bool_decide (node_Type node = "rpc") then resolve_service nodeIndex node bindings
                  else mret bindings);
      resolve_nodes (S nodeIndex) rest bindings
  end.
End Resolver.

Definition Resolve {D} `{!ResourceRepository D, !Authorizer D} (projectID principalID : string) (purpose : Purpose) (document : Ir.Document)
    : call D error ResourceBindings :=
  identity ← calling id (ExecutionIdentity_ projectID);
  '(connections, services) ← resolve_nodes projectID principalID (ei_ID identity) purpose 0 (doc_Nodes document) (∅, ∅);
  calling id (tx_lift (NewResourceBindings connections services ∅)).

(** ** The store *)

Record ConnectionRow : Type := MkConnectionRow { kw_ConnectionID : string; kw_Enabled : bool }.
Record ServiceRow : Type := MkServiceRow { sw_ServiceID : string; sw_Enabled : bool }.
Record OperationRow : Type := MkOperationRow { ow_ContractRevision : string; ow_Idempotent : bool; ow_Enabled : bool }.

(** The keys: (project, reference) twice, (project, service, operation), and
    grants of (project, connection or service, identity, purpose). *)
Record ResourcesDB : Type := MkResourcesDB {
  rx_connections : gmap (string * string) ConnectionRow;
  rx_services : gmap (string * string) ServiceRow;
  rx_operations : gmap (string * string * string) OperationRow;
  rx_connection_grants : gset (string * string * string * Purpose);
  rx_service_grants : gset (string * string * string * Purpose) }.

Definition find_connection (t : ResourcesDB) (projectID identityID reference : string) (purpose : Purpose) : res Connection :=
  match rx_connections t !! (projectID, reference) with
  | Some row =>
      if kw_Enabled row && bool_decide ((projectID, kw_ConnectionID row, identityID, purpose) ∈ rx_connection_grants t)
      then Ok (MkConnection (kw_ConnectionID row) projectID reference) else Err ErrResourcesNotFound
  | None => Err ErrResourcesNotFound
  end.

Definition find_operation (t : ResourcesDB) (projectID identityID reference operation : string) (purpose : Purpose) : res ServiceOperation :=
  match rx_services t !! (projectID, reference) with
  | Some row =>
      match rx_operations t !! (projectID, sw_ServiceID row, operation) with
      | Some op =>
          if sw_Enabled row && ow_Enabled op && bool_decide ((projectID, sw_ServiceID row, identityID, purpose) ∈ rx_service_grants t)
          then Ok (MkServiceOperation (sw_ServiceID row) projectID reference operation (ow_ContractRevision op) (ow_Idempotent op))
          else Err ErrResourcesNotFound
      | None => Err ErrResourcesNotFound
      end
  | None => Err ErrResourcesNotFound
  end.
