(* ===== verification/DefinitionStore.v ===== *)
(** * The definition store

    Models internal/definition/model.go, the records of ports.go, and
    internal/adapters/postgres/definition_store.go on the tables of
    migrations/000001_m3_definition_lifecycle.up.sql.  As in Store.v a table is
    a finite map from its primary key, a transaction is atomic (its row and
    advisory locks exclude the interleavings that could be observed) and the
    readings of [clock_timestamp()] in one statement are one.  The constraints
    of the tables are part of the statements: primary and foreign keys, unique
    constraints and the checks that a number is positive; only the foreign keys
    to projects and principals and the checks on the shape of a column, which
    only abort a transaction, are left out.  Identities are the canonical texts of UUIDs.
    A JSONB column keeps the text PostgreSQL prints for it: [jsonb] is that
    text, [jsonb_eqb] equality of two JSONB values and [jsonb_field] the
    operator [->>], which belong to PostgreSQL.  A statement outside a
    transaction is a transaction of its own. *)

From S2P Require Import Prelude Json Digest Graph Dsl Ir Canonical SourceMap Marshal Handlers Access Resources.

Open Scope string_scope.
Open Scope list_scope.
Open Scope Z_scope.

(** ** The model *)

Record Workflow : Type := MkWorkflow {
  wf_ID : string;
  wf_ProjectID : string;
  wf_Name : string;
  wf_ActiveVersionID : option string;
  wf_CreatedBy : string;
  wf_CreatedAt : Time;
  wf_UpdatedAt : Time }.

Record DraftRevision : Type := MkDraftRevision {
  rv_ID : string;
  rv_ProjectID : string;
  rv_WorkflowID : string;
  rv_RevisionNumber : Z;
  rv_IRJSON : string;
  rv_CatalogRevision : string;
  rv_CreatedBy : string;
  rv_CreatedAt : Time;
  rv_ClonedFromVersionID : option string }.

Record Draft : Type := MkDraft {
  dr_ProjectID : string;
  dr_WorkflowID : string;
  dr_CurrentRevision : Z;
  dr_StateVersion : Z;
  dr_Current : DraftRevision }.

Inductive SnapshotOrigin : Type := SnapshotOriginDraftTest | SnapshotOriginPublished.
#[export] Instance SnapshotOrigin_eq_dec : EqDecision SnapshotOrigin.
Proof. solve_decision. Defined.

Record ExecutionSnapshot : Type := MkExecutionSnapshot {
  es_ID : string;
  es_ProjectID : string;
  es_WorkflowID : string;
  es_OriginKind : SnapshotOrigin;
  es_OriginID : string;
  es_IRJSON : string;
  es_DSLJSON : string;
  es_SourceMapJSON : string;
  es_ManifestJSON : string;
  es_IRHash : string;
  es_DSLHash : string;
  es_SourceMapHash : string;
  es_DefinitionHash : string;
  es_CreatedAt : Time }.

Record PublishedVersion : Type := MkPublishedVersion {
  pv_ID : string;
  pv_ProjectID : string;
  pv_WorkflowID : string;
  pv_VersionNumber : Z;
  pv_SourceDraftRevisionID : string;
  pv_ExecutionSnapshotID : string;
  pv_ChangeLog : string;
  pv_CreatedBy : string;
  pv_CreatedAt : Time }.

Record ProductionDefinition : Type := MkProductionDefinition {
  pd_Workflow : Workflow; pd_Version : PublishedVersion; pd_Snapshot : ExecutionSnapshot }.

#[export] Instance Workflow_eta : Eta Workflow := λ x,
  MkWorkflow (wf_ID x) (wf_ProjectID x) (wf_Name x) (wf_ActiveVersionID x) (wf_CreatedBy x) (wf_CreatedAt x) (wf_UpdatedAt x).
#[export] Instance ExecutionSnapshot_eta : Eta ExecutionSnapshot := λ x,
  MkExecutionSnapshot (es_ID x) (es_ProjectID x) (es_WorkflowID x) (es_OriginKind x) (es_OriginID x) (es_IRJSON x) (es_DSLJSON x)
    (es_SourceMapJSON x) (es_ManifestJSON x) (es_IRHash x) (es_DSLHash x) (es_SourceMapHash x) (es_DefinitionHash x) (es_CreatedAt x).

(** ** Records *)

Record CreateWorkflowRecord : Type := MkCreateWorkflowRecord {
  cw_WorkflowID : string;
  cw_DraftRevisionID : string;
  cw_ProjectID : string;
  cw_Name : string;
  cw_IRJSON : string;
  cw_CatalogRevision : string;
  cw_PrincipalID : string;
  cw_IdempotencyKey : string;
  cw_RequestHash : string }.

Record SaveDraftRecord : Type := MkSaveDraftRecord {
  sd_DraftRevisionID : string;
  sd_ProjectID : string;
  sd_WorkflowID : string;
  sd_ExpectedRevision : Z;
  sd_IRJSON : string;
  sd_CatalogRevision : string;
  sd_PrincipalID : string;
  sd_IdempotencyKey : string;
  sd_RequestHash : string }.

Record PublishRecord : Type := MkPublishRecord {
  pb_VersionID : string;
  pb_AuditID : string;
  pb_ProjectID : string;
  pb_WorkflowID : string;
  pb_ExpectedRevision : Z;
  pb_DraftRevisionID : string;
  pb_ChangeLog : string;
  pb_PrincipalID : string;
  pb_IdempotencyKey : string;
  pb_RequestHash : string;
  pb_Snapshot : ExecutionSnapshot }.

Record RollbackRecord : Type := MkRollbackRecord {
  rb_AuditID : string;
  rb_ProjectID : string;
  rb_WorkflowID : string;
  rb_VersionNumber : Z;
  rb_PrincipalID : string }.

Record CopyRecord : Type := MkCopyRecord {
  cy_WorkflowID : string;
  cy_DraftRevisionID : string;
  cy_ProjectID : string;
  cy_SourceWorkflowID : string;
  cy_SourceVersionNumber : Z;
  cy_Name : string;
  cy_PrincipalID : string;
  cy_IdempotencyKey : string;
  cy_RequestHash : string }.

(** ** Tables *)

Record WorkflowRow : Type := MkWorkflowRow { ww_Workflow : Workflow; ww_ClonedFromVersionID : option string }.
Record DraftRow : Type := MkDraftRow { dw_CurrentRevision : Z; dw_CurrentRevisionID : string; dw_StateVersion : Z; dw_UpdatedAt : Time }.

(** The request hash, the response, and the kind and identity that go with it. *)
Record IdempotencyRow : Type := MkIdempotencyRow {
  iw_RequestHash : string; iw_ResponseKind : string; iw_ResponseID : string; iw_AuxiliaryID : option string }.

Inductive AuditEvent : Type := AuditPublish | AuditRollback.
Record AuditRow : Type := MkAuditRow {
  aw_ProjectID : string; aw_WorkflowID : string; aw_EventType : AuditEvent; aw_VersionID : string; aw_PrincipalID : string; aw_CreatedAt : Time }.

#[export] Instance WorkflowRow_eta : Eta WorkflowRow := λ x, MkWorkflowRow (ww_Workflow x) (ww_ClonedFromVersionID x).

(** The keys: [workflow_id], [draft_revision_id], (project, workflow),
    [snapshot_id], (project, workflow, draft revision, snapshot) with the time
    of the link, [version_id], [audit_id], (project, command, scope,
    idempotency key). *)
Record DefDB : Type := MkDefDB {
  df_workflows : gmap string WorkflowRow;
  df_revisions : gmap string DraftRevision;
  df_drafts : gmap (string * string) DraftRow;
  df_snapshots : gmap string ExecutionSnapshot;
  df_test_snapshots : gmap (string * string * string * string) Time;
  df_versions : gmap string PublishedVersion;
  df_audits : gmap string AuditRow;
  df_idempotency : gmap (string * string * string * string) IdempotencyRow;
  df_access : AccessDB;
  df_resources : ResourcesDB;
  df_ticks : nat }.

#[export] Instance DefDB_eta : Eta DefDB := λ x,
  MkDefDB (df_workflows x) (df_revisions x) (df_drafts x) (df_snapshots x) (df_test_snapshots x) (df_versions x) (df_audits x)
    (df_idempotency x) (df_access x) (df_resources x) (df_ticks x).

(** ** Errors *)

Definition ErrResourceNotFound : error := Errorf "resource not found" ["definition"].
Definition ErrDraftRevisionConflict : error := Errorf "draft revision conflict" [].
Definition ErrIdempotencyKeyReused : error := Errorf "idempotency key reused" [].
Definition ErrWorkflowNotPublished : error := Errorf "workflow not published" [].
Definition no_rows : error := Errorf "no rows in result set" [].
Definition duplicate_key : error := Errorf "duplicate key value violates unique constraint" [].
Definition check_violation : error := Errorf "new row violates check constraint" [].
Definition foreign_key_violation : error := Errorf "insert or update violates foreign key constraint" [].
Definition out_of_range : error := Errorf "bigint out of range" [].

(** [x + 1] of a BIGINT *)
Definition bigint_succ (x : Z) : res Z := guard_err (2 ^ 63 <=? x + 1) out_of_range ;; Ok (x + 1).

(** ** Queries *)

(** The one row of a table that a unique constraint allows for [p]. *)
Definition select_one {A} (p : A → bool) (t : gmap string A) : option A := snd <$> List.find (λ r, p r.2) (map_to_list t).

Definition in_workflow (projectID workflowID p w : string) : bool := bool_decide (p = projectID) && bool_decide (w = workflowID).

Definition workflow_row (db : DefDB) (projectID workflowID : string) : option WorkflowRow :=
  row ← df_workflows db !! workflowID;
  if bool_decide (wf_ProjectID (ww_Workflow row) = projectID) then Some row else None.

Definition revision_by_id (db : DefDB) (projectID workflowID revisionID : string) : option DraftRevision :=
  row ← df_revisions db !! revisionID;
  if in_workflow projectID workflowID (rv_ProjectID row) (rv_WorkflowID row) then Some row else None.

Definition revision_by_number (db : DefDB) (projectID workflowID : string) (number : Z) : option DraftRevision :=
  select_one (λ row, in_workflow projectID workflowID (rv_ProjectID row) (rv_WorkflowID row) && (rv_RevisionNumber row =? number)) (df_revisions db).

Definition version_by_id (db : DefDB) (projectID workflowID versionID : string) : option PublishedVersion :=
  row ← df_versions db !! versionID;
  if in_workflow projectID workflowID (pv_ProjectID row) (pv_WorkflowID row) then Some row else None.

Definition version_by_number (db : DefDB) (projectID workflowID : string) (number : Z) : option PublishedVersion :=
  select_one (λ row, in_workflow projectID workflowID (pv_ProjectID row) (pv_WorkflowID row) && (pv_VersionNumber row =? number)) (df_versions db).

Definition snapshot_by_id (db : DefDB) (projectID workflowID snapshotID : string) : option ExecutionSnapshot :=
  row ← df_snapshots db !! snapshotID;
  if in_workflow projectID workflowID (es_ProjectID row) (es_WorkflowID row) then Some row else None.

Definition snapshot_by_hash (db : DefDB) (projectID workflowID definitionHash : string) : option ExecutionSnapshot :=
  select_one (λ row, in_workflow projectID workflowID (es_ProjectID row) (es_WorkflowID row) && bool_decide (es_DefinitionHash row = definitionHash))
    (df_snapshots db).

(** A version of the project, of any workflow. *)
Definition version_in_project (db : DefDB) (projectID : string) (versionID : option string) : bool :=
  match versionID with
  | Some id => match df_versions db !! id with Some v => bool_decide (pv_ProjectID v = projectID) | None => false end
  | None => true
  end.

(** [SELECT COALESCE(MAX(version_number), 0)] *)
Definition max_version (db : DefDB) (projectID workflowID : string) : Z :=
  foldr (λ r m, if in_workflow projectID workflowID (pv_ProjectID r.2) (pv_WorkflowID r.2) then Z.max (pv_VersionNumber r.2) m else m) 0
    (map_to_list (df_versions db)).

(** ** Statements *)

(** Commit on success; an error undoes everything but the passing of time. *)
Definition transaction {A} (m : tx DefDB A) : tx DefDB A := λ db,
  match m db with
  | (db', Ok a) => (db', Ok a)
  | (db', Err x) => (db <| df_ticks := df_ticks db' |>, Err x)
  end.

Section Store.
(** What other processes do to the database before the [n]-th call. *)
Context (clock : nat → Time) (others : nat → DefDB → DefDB).
Context (jsonb : string → string) (jsonb_eqb : string → string → bool) (jsonb_field : string → string → option string).

Definition clock_timestamp : tx DefDB Time := λ db, (db <| df_ticks := S (df_ticks db) |>, Ok (clock (df_ticks db))).

(** A statement or a transaction on a connection of the pool. *)
Definition pool {A} (m : tx DefDB A) : tx DefDB A := λ db,
  transaction m (others (df_ticks db) (db <| df_ticks := S (df_ticks db) |>)).

(** The row that a foreign key references is there. *)
Definition references (b : DefDB → bool) : tx DefDB unit := db ← tx_get; tx_lift (guard_err (negb (b db)) foreign_key_violation).
Definition found {A} (o : option A) : bool := bool_decide (is_Some o).

Definition query {A} (q : DefDB → option A) (missing : error) : tx DefDB A := db ← tx_get; tx_lift (or_err (q db) missing).

Definition getWorkflow (projectID workflowID : string) : tx DefDB Workflow :=
  query (λ db, ww_Workflow <$> workflow_row db projectID workflowID) ErrResourceNotFound.
Definition getDraftRevisionByID (projectID workflowID revisionID : string) : tx DefDB DraftRevision :=
  query (λ db, revision_by_id db projectID workflowID revisionID) ErrResourceNotFound.

Definition getVersionAndSnapshotByID (projectID workflowID versionID : string) : tx DefDB (PublishedVersion * ExecutionSnapshot) :=
  version ← query (λ db, version_by_id db projectID workflowID versionID) ErrResourceNotFound;
  snapshot ← query (λ db, snapshot_by_id db projectID workflowID (pv_ExecutionSnapshotID version)) ErrResourceNotFound;
  mret (version, snapshot).

Definition lockIdempotency (projectID commandName targetScope key : string) : tx DefDB (option IdempotencyRow) :=
  db ← tx_get; mret (df_idempotency db !! (projectID, commandName, targetScope, key)).

Definition insertIdempotency (projectID commandName targetScope key requestHash responseKind responseID : string)
    (auxiliaryID : option string) : tx DefDB unit :=
  db ← tx_get;
  match df_idempotency db !! (projectID, commandName, targetScope, key) with
  | Some _ => tx_fail duplicate_key
  | None =>
      tx_modify (λ db, db <| df_idempotency := <[(projectID, commandName, targetScope, key) :=
        MkIdempotencyRow requestHash responseKind responseID auxiliaryID]> (df_idempotency db) |>)
  end.

Definition insert_workflow (workflowID projectID name : string) (clonedFrom : option string) (createdBy : string) : tx DefDB unit :=
  now ← clock_timestamp;
  db ← tx_get;
  match df_workflows db !! workflowID with
  | Some _ => tx_fail duplicate_key
  | None =>
      references (λ db, version_in_project db projectID clonedFrom) ;;
      tx_modify (λ db, db <| df_workflows := <[workflowID :=
        MkWorkflowRow (MkWorkflow workflowID projectID name None createdBy now now) clonedFrom]> (df_workflows db) |>)
  end.

Definition insertDraftRevision (record : SaveDraftRecord) (revision : Z) (clonedFrom : option string) : tx DefDB unit :=
  now ← clock_timestamp;
  db ← tx_get;
  if revision <=? 0 then tx_fail check_violation
  else if bool_decide (is_Some (df_revisions db !! sd_DraftRevisionID record))
          || bool_decide (is_Some (revision_by_number db (sd_ProjectID record) (sd_WorkflowID record) revision)) then tx_fail duplicate_key
  else
    references (λ db, found (workflow_row db (sd_ProjectID record) (sd_WorkflowID record))
                      && version_in_project db (sd_ProjectID record) clonedFrom) ;;
    tx_modify (λ db, db <| df_revisions := <[sd_DraftRevisionID record :=
      MkDraftRevision (sd_DraftRevisionID record) (sd_ProjectID record) (sd_WorkflowID record) revision (jsonb (sd_IRJSON record))
        (sd_CatalogRevision record) (sd_PrincipalID record) now clonedFrom]> (df_revisions db) |>).

(** (project, workflow, revision number, revision) *)
Definition is_revision (db : DefDB) (projectID workflowID : string) (number : Z) (revisionID : string) : bool :=
  match revision_by_id db projectID workflowID revisionID with Some r => rv_RevisionNumber r =? number | None => false end.

Definition insert_draft (projectID workflowID revisionID : string) : tx DefDB unit :=
  now ← clock_timestamp;
  db ← tx_get;
  match df_drafts db !! (projectID, workflowID) with
  | Some _ => tx_fail duplicate_key
  | None =>
      references (λ db, found (workflow_row db projectID workflowID) && is_revision db projectID workflowID 1 revisionID) ;;
      tx_modify (λ db, db <| df_drafts := <[(projectID, workflowID) := MkDraftRow 1 revisionID 1 now]> (df_drafts db) |>)
  end.

(** [UPDATE workflows SET ...], of no row when there is none. *)
Definition update_workflow (projectID workflowID : string) (f : Time → Workflow → Workflow) : tx DefDB unit :=
  now ← clock_timestamp;
  db ← tx_get;
  match workflow_row db projectID workflowID with
  | Some row => tx_modify (λ db, db <| df_workflows := <[workflowID := row <| ww_Workflow := f now (ww_Workflow row) |>]> (df_workflows db) |>)
  | None => mret tt
  end.

Definition touch (now : Time) (w : Workflow) : Workflow := w <| wf_UpdatedAt := now |>.
Definition activate (versionID : string) (now : Time) (w : Workflow) : Workflow := w <| wf_ActiveVersionID := Some versionID |> <| wf_UpdatedAt := now |>.

Definition activate_version (projectID workflowID versionID : string) : tx DefDB unit :=
  update_workflow projectID workflowID (activate versionID) ;;
  references (λ db, found (version_by_id db projectID workflowID versionID)).

Definition insert_audit (auditID projectID workflowID : string) (event : AuditEvent) (versionID principalID : string) : tx DefDB unit :=
  now ← clock_timestamp;
  db ← tx_get;
  match df_audits db !! auditID with
  | Some _ => tx_fail duplicate_key
  | None =>
      references (λ db, found (version_by_id db projectID workflowID versionID)) ;;
      tx_modify (λ db, db <| df_audits := <[auditID := MkAuditRow projectID workflowID event versionID principalID now]> (df_audits db) |>)
  end.

(** *** Snapshots *)

Definition stored_snapshot (snapshot : ExecutionSnapshot) (now : Time) : ExecutionSnapshot :=
  snapshot <| es_IRJSON := jsonb (es_IRJSON snapshot) |> <| es_DSLJSON := jsonb (es_DSLJSON snapshot) |>
    <| es_SourceMapJSON := jsonb (es_SourceMapJSON snapshot) |> <| es_ManifestJSON := jsonb (es_ManifestJSON snapshot) |>
    <| es_CreatedAt := now |>.

Definition insert_snapshot (snapshot : ExecutionSnapshot) : tx DefDB unit :=
  now ← clock_timestamp;
  db ← tx_get;
  match snapshot_by_hash db (es_ProjectID snapshot) (es_WorkflowID snapshot) (es_DefinitionHash snapshot) with
  | Some _ => mret tt
  | None =>
      if bool_decide (is_Some (df_snapshots db !! es_ID snapshot)) then tx_fail duplicate_key
      else
        references (λ db, found (workflow_row db (es_ProjectID snapshot) (es_WorkflowID snapshot))) ;;
        tx_modify (λ db, db <| df_snapshots := <[es_ID snapshot := stored_snapshot snapshot now]> (df_snapshots db) |>)
  end.

Definition same_artifacts (stored snapshot : ExecutionSnapshot) : bool :=
  bool_decide (es_IRHash stored = es_IRHash snapshot) && bool_decide (es_DSLHash stored = es_DSLHash snapshot)
  && bool_decide (es_SourceMapHash stored = es_SourceMapHash snapshot) && jsonb_eqb (es_ManifestJSON stored) (es_ManifestJSON snapshot).

Definition upsertSnapshot (snapshot : ExecutionSnapshot) : tx DefDB ExecutionSnapshot :=
  insert_snapshot snapshot ;;
  db ← tx_get;
  match snapshot_by_hash db (es_ProjectID snapshot) (es_WorkflowID snapshot) (es_DefinitionHash snapshot) with
  | Some stored =>
      if same_artifacts stored snapshot then mret stored
      else tx_fail (Errorf "definition hash collision or compiler manifest mismatch" [])
  | None => tx_fail (Errorf "definition hash collision or compiler manifest mismatch" [])
  end.

Definition link_test_snapshot (projectID workflowID revisionID snapshotID : string) : tx DefDB unit :=
  now ← clock_timestamp;
  db ← tx_get;
  match df_test_snapshots db !! (projectID, workflowID, revisionID, snapshotID) with
  | Some _ => mret tt
  | None =>
      references (λ db, found (revision_by_id db projectID workflowID revisionID) && found (snapshot_by_id db projectID workflowID snapshotID)) ;;
      tx_modify (λ db, db <| df_test_snapshots := <[(projectID, workflowID, revisionID, snapshotID) := now]> (df_test_snapshots db) |>)
  end.

(** The snapshots linked to a revision, with the times of the links; the
    latest link first, the greatest identity first among equal times. *)
Definition linked (db : DefDB) (projectID workflowID : string) (number : Z) : list (Time * ExecutionSnapshot) :=
  match revision_by_number db projectID workflowID number with
  | None => []
  | Some revision =>
      omap (λ '((p, w, r, s), at_),
        if in_workflow projectID workflowID p w && bool_decide (r = rv_ID revision)
        then pair at_ <$> snapshot_by_id db projectID workflowID s else None)
      (map_to_list (df_test_snapshots db))
  end.

Definition link_leb (a b : Time * ExecutionSnapshot) : bool :=
  if a.1 =? b.1 then String.leb (es_ID b.2) (es_ID a.2) else b.1 <? a.1.

Definition latest_linked (db : DefDB) (projectID workflowID : string) (number : Z) : option ExecutionSnapshot :=
  snd <$> head (stable_sort link_leb (linked db projectID workflowID number)).

(** ** Operations *)

(** A command under an idempotency key: the answer of [replay] for a known key
    of the same request, otherwise what [perform] commits, answered by [read]
    behind the transaction. *)
Definition guarded {A B} (projectID commandName targetScope key requestHash : string)
    (replay : IdempotencyRow → tx DefDB A) (perform : tx DefDB B) (read : B → tx DefDB A) : tx DefDB A :=
  r ← pool (
    known ← lockIdempotency projectID commandName targetScope key;
    match known with
    | Some result =>
        if negb (bool_decide (iw_RequestHash result = requestHash)) then tx_fail ErrIdempotencyKeyReused
        else a ← replay result; mret (inl a)
    | None => b ← perform; mret (inr b)
    end);
  match r with inl a => mret a | inr b => read b end.

Definition GetWorkflow (projectID workflowID : string) : tx DefDB Workflow := pool (getWorkflow projectID workflowID).

Definition GetWorkflowAndRevision (projectID workflowID revisionID : string) : tx DefDB (Workflow * DraftRevision) :=
  workflow ← GetWorkflow projectID workflowID;
  revision ← pool (getDraftRevisionByID projectID workflowID revisionID);
  mret (workflow, revision).

(** The answers to a known key that created a workflow. *)
Definition replay_create (projectID : string) (result : IdempotencyRow) : tx DefDB (Workflow * DraftRevision) :=
  workflow ← getWorkflow projectID (iw_ResponseID result);
  revisionID ← tx_lift (or_err (iw_AuxiliaryID result) (Errorf "create workflow idempotency record has no draft revision" []));
  revision ← getDraftRevisionByID projectID (iw_ResponseID result) revisionID;
  mret (workflow, revision).

Definition replay_copy (projectID : string) (result : IdempotencyRow) : tx DefDB (Workflow * DraftRevision) :=
  revisionID ← tx_lift (or_err (iw_AuxiliaryID result) (Errorf "copy idempotency record has no draft revision" []));
  workflow ← getWorkflow projectID (iw_ResponseID result);
  revision ← getDraftRevisionByID projectID (iw_ResponseID result) revisionID;
  mret (workflow, revision).

(** A workflow with its first revision and its draft. *)
Definition new_workflow (record : SaveDraftRecord) (name : string) (clonedFrom : option string) : tx DefDB unit :=
  insert_workflow (sd_WorkflowID record) (sd_ProjectID record) name clonedFrom (sd_PrincipalID record) ;;
  insertDraftRevision record 1 clonedFrom ;;
  insert_draft (sd_ProjectID record) (sd_WorkflowID record) (sd_DraftRevisionID record).

Definition created_draft (record : CreateWorkflowRecord) : SaveDraftRecord :=
  MkSaveDraftRecord (cw_DraftRevisionID record) (cw_ProjectID record) (cw_WorkflowID record) 0 (cw_IRJSON record)
    (cw_CatalogRevision record) (cw_PrincipalID record) "" "".

Definition CreateWorkflow (record : CreateWorkflowRecord) : tx DefDB (Workflow * DraftRevision) :=
  guarded (cw_ProjectID record) "create_workflow" "project" (cw_IdempotencyKey record) (cw_RequestHash record)
    (replay_create (cw_ProjectID record))
    (new_workflow (created_draft record) (cw_Name record) None ;;
     insertIdempotency (cw_ProjectID record) "create_workflow" "project" (cw_IdempotencyKey record) (cw_RequestHash record) "workflow"
       (cw_WorkflowID record) (Some (cw_DraftRevisionID record)))
    (λ _, GetWorkflowAndRevision (cw_ProjectID record) (cw_WorkflowID record) (cw_DraftRevisionID record)).

Definition current_draft (db : DefDB) (projectID workflowID : string) : option Draft :=
  row ← df_drafts db !! (projectID, workflowID);
  revision ← revision_by_id db projectID workflowID (dw_CurrentRevisionID row);
  Some (MkDraft projectID workflowID (dw_CurrentRevision row) (dw_StateVersion row) revision).

Definition GetCurrentDraft (projectID workflowID : string) : tx DefDB Draft :=
  pool (query (λ db, current_draft db projectID workflowID) ErrResourceNotFound).

Definition GetDraftRevision (projectID workflowID : string) (revisionNumber : Z) : tx DefDB DraftRevision :=
  pool (query (λ db, revision_by_number db projectID workflowID revisionNumber) ErrResourceNotFound).

(** [UPDATE workflow_drafts SET ... WHERE current_revision = expected] *)
Definition advance_draft (record : SaveDraftRecord) (next : Z) : tx DefDB unit :=
  now ← clock_timestamp;
  db ← tx_get;
  match df_drafts db !! (sd_ProjectID record, sd_WorkflowID record) with
  | Some row =>
      if dw_CurrentRevision row =? sd_ExpectedRevision record then
        version ← tx_lift (bigint_succ (dw_StateVersion row));
        references (λ db, is_revision db (sd_ProjectID record) (sd_WorkflowID record) next (sd_DraftRevisionID record)) ;;
        tx_modify (λ db, db <| df_drafts := <[(sd_ProjectID record, sd_WorkflowID record) :=
          MkDraftRow next (sd_DraftRevisionID record) version now]> (df_drafts db) |>)
      else tx_fail ErrDraftRevisionConflict
  | None => tx_fail ErrDraftRevisionConflict
  end.

Definition append_revision (record : SaveDraftRecord) : tx DefDB unit :=
  current ← query (λ db, dw_CurrentRevision <$> df_drafts db !! (sd_ProjectID record, sd_WorkflowID record)) ErrResourceNotFound;
  if negb (current =? sd_ExpectedRevision record) then tx_fail ErrDraftRevisionConflict
  else
    let next := i64 (current + 1) in
    insertDraftRevision record next None ;;
    advance_draft record next ;;
    update_workflow (sd_ProjectID record) (sd_WorkflowID record) touch.

Definition SaveDraft (record : SaveDraftRecord) : tx DefDB DraftRevision :=
  guarded (sd_ProjectID record) "save_draft" (sd_WorkflowID record) (sd_IdempotencyKey record) (sd_RequestHash record)
    (λ result, getDraftRevisionByID (sd_ProjectID record) (sd_WorkflowID record) (iw_ResponseID result))
    (append_revision record ;;
     insertIdempotency (sd_ProjectID record) "save_draft" (sd_WorkflowID record) (sd_IdempotencyKey record) (sd_RequestHash record)
       "draft_revision" (sd_DraftRevisionID record) None)
    (λ _, pool (getDraftRevisionByID (sd_ProjectID record) (sd_WorkflowID record) (sd_DraftRevisionID record))).

Definition StoreTestSnapshot (snapshot : ExecutionSnapshot) : tx DefDB ExecutionSnapshot :=
  pool (
    stored ← upsertSnapshot snapshot;
    if negb (bool_decide (es_OriginKind snapshot = SnapshotOriginDraftTest)) || is_empty (es_OriginID snapshot)
    then tx_fail (Errorf "test snapshot requires its immutable draft revision identity" [])
    else
      link_test_snapshot (es_ProjectID snapshot) (es_WorkflowID snapshot) (es_OriginID snapshot) (es_ID stored) ;;
      mret stored).

Definition ResolveDraftTestSnapshot (projectID workflowID : string) (revisionNumber : Z) : tx DefDB ExecutionSnapshot :=
  pool (query (λ db, latest_linked db projectID workflowID revisionNumber) ErrResourceNotFound).

Definition FindPublishedByIdempotency (projectID workflowID key requestHash : string)
    : tx DefDB (option (PublishedVersion * ExecutionSnapshot)) :=
  known ← pool (lockIdempotency projectID "publish_workflow" workflowID key);
  match known with
  | None => mret None
  | Some result =>
      if negb (bool_decide (iw_RequestHash result = requestHash)) then tx_fail ErrIdempotencyKeyReused
      else
        found ← pool (getVersionAndSnapshotByID projectID workflowID (iw_ResponseID result));
        mret (Some found)
  end.

Definition insert_version (record : PublishRecord) (number : Z) (snapshotID : string) : tx DefDB unit :=
  now ← clock_timestamp;
  db ← tx_get;
  if bool_decide (is_Some (df_versions db !! pb_VersionID record))
     || bool_decide (is_Some (version_by_number db (pb_ProjectID record) (pb_WorkflowID record) number)) then tx_fail duplicate_key
  else
    references (λ db, found (workflow_row db (pb_ProjectID record) (pb_WorkflowID record))
                      && found (revision_by_id db (pb_ProjectID record) (pb_WorkflowID record) (pb_DraftRevisionID record))
                      && found (snapshot_by_id db (pb_ProjectID record) (pb_WorkflowID record) snapshotID)) ;;
    tx_modify (λ db, db <| df_versions := <[pb_VersionID record :=
      MkPublishedVersion (pb_VersionID record) (pb_ProjectID record) (pb_WorkflowID record) number (pb_DraftRevisionID record) snapshotID
        (pb_ChangeLog record) (pb_PrincipalID record) now]> (df_versions db) |>).

(** The revision that is published: the current one, and the one that was
    compiled. *)
Definition check_published_revision (record : PublishRecord) : tx DefDB unit :=
  current ← query (λ db, _ ← workflow_row db (pb_ProjectID record) (pb_WorkflowID record);
                     dw_CurrentRevision <$> df_drafts db !! (pb_ProjectID record, pb_WorkflowID record)) ErrResourceNotFound;
  if negb (current =? pb_ExpectedRevision record) then tx_fail ErrDraftRevisionConflict
  else
    actual ← query (λ db, revision_by_number db (pb_ProjectID record) (pb_WorkflowID record) (pb_ExpectedRevision record)) no_rows;
    if negb (bool_decide (rv_ID actual = pb_DraftRevisionID record)) then tx_fail ErrDraftRevisionConflict else mret tt.

Definition publish_version (record : PublishRecord) : tx DefDB ExecutionSnapshot :=
  check_published_revision record ;;
  stored ← upsertSnapshot (pb_Snapshot record);
  db ← tx_get;
  number ← tx_lift (bigint_succ (max_version db (pb_ProjectID record) (pb_WorkflowID record)));
  insert_version record number (es_ID stored) ;;
  activate_version (pb_ProjectID record) (pb_WorkflowID record) (pb_VersionID record) ;;
  insert_audit (pb_AuditID record) (pb_ProjectID record) (pb_WorkflowID record) AuditPublish (pb_VersionID record) (pb_PrincipalID record) ;;
  insertIdempotency (pb_ProjectID record) "publish_workflow" (pb_WorkflowID record) (pb_IdempotencyKey record) (pb_RequestHash record)
    "published_version" (pb_VersionID record) (Some (es_ID stored)) ;;
  mret stored.

Definition Publish (record : PublishRecord) : tx DefDB (PublishedVersion * ExecutionSnapshot) :=
  guarded (pb_ProjectID record) "publish_workflow" (pb_WorkflowID record) (pb_IdempotencyKey record) (pb_RequestHash record)
    (λ result, getVersionAndSnapshotByID (pb_ProjectID record) (pb_WorkflowID record) (iw_ResponseID result))
    (publish_version record)
    (λ stored,
       '(version, _) ← pool (getVersionAndSnapshotByID (pb_ProjectID record) (pb_WorkflowID record) (pb_VersionID record));
       mret (version, stored)).

Definition Rollback (record : RollbackRecord) : tx DefDB PublishedVersion :=
  pool (
    workflow ← query (λ db, workflow_row db (rb_ProjectID record) (rb_WorkflowID record)) ErrResourceNotFound;
    version ← query (λ db, version_by_number db (rb_ProjectID record) (rb_WorkflowID record) (rb_VersionNumber record)) ErrResourceNotFound;
    if bool_decide (wf_ActiveVersionID (ww_Workflow workflow) = Some (pv_ID version)) then mret version
    else
      activate_version (rb_ProjectID record) (rb_WorkflowID record) (pv_ID version) ;;
      insert_audit (rb_AuditID record) (rb_ProjectID record) (rb_WorkflowID record) AuditRollback (pv_ID version) (rb_PrincipalID record) ;;
      mret version).

(** The version that is copied: its identity, its document and the revision of
    the catalog it was compiled with. *)
Definition copy_source (db : DefDB) (record : CopyRecord) : res (string * string * string) :=
  match version_by_number db (cy_ProjectID record) (cy_SourceWorkflowID record) (cy_SourceVersionNumber record) with
  | None => Err ErrResourceNotFound
  | Some version =>
      match snapshot_by_id db (cy_ProjectID record) (cy_SourceWorkflowID record) (pv_ExecutionSnapshotID version) with
      | None => Err ErrResourceNotFound
      | Some snapshot =>
          match jsonb_field (es_ManifestJSON snapshot) "catalog_revision" with
          | None => Err (Errorf "cannot scan NULL into *string" [])
          | Some catalogRevision => Ok (pv_ID version, es_IRJSON snapshot, catalogRevision)
          end
      end
  end.

Definition copied_draft (record : CopyRecord) (irJSON catalogRevision : string) : SaveDraftRecord :=
  MkSaveDraftRecord (cy_DraftRevisionID record) (cy_ProjectID record) (cy_WorkflowID record) 0 irJSON catalogRevision
    (cy_PrincipalID record) "" "".

Definition CopyPublishedVersion (record : CopyRecord) : tx DefDB (Workflow * DraftRevision) :=
  guarded (cy_ProjectID record) "copy_published_version" "project" (cy_IdempotencyKey record) (cy_RequestHash record)
    (replay_copy (cy_ProjectID record))
    (db ← tx_get;
     '(sourceVersionID, irJSON, catalogRevision) ← tx_lift (copy_source db record);
     new_workflow (copied_draft record irJSON catalogRevision) (cy_Name record) (Some sourceVersionID) ;;
     insertIdempotency (cy_ProjectID record) "copy_published_version" "project" (cy_IdempotencyKey record) (cy_RequestHash record) "workflow"
       (cy_WorkflowID record) (Some (cy_DraftRevisionID record)))
    (λ _, GetWorkflowAndRevision (cy_ProjectID record) (cy_WorkflowID record) (cy_DraftRevisionID record)).

Definition ResolveProductionDefinition (projectID workflowID : string) : tx DefDB ProductionDefinition :=
  workflow ← GetWorkflow projectID workflowID;
  match wf_ActiveVersionID workflow with
  | None => tx_fail ErrWorkflowNotPublished
  | Some versionID =>
      '(version, snapshot) ← pool (getVersionAndSnapshotByID projectID workflowID versionID);
      mret (MkProductionDefinition workflow version snapshot)
  end.
End Store.
