(* ===== verification/ControlGraph.v ===== *)
(** * Control-graph analysis

    Models internal/compiler/controlgraph.go on the documents of internal/ir:
    the degrees of the nodes, the routes of the branches, the topological order
    and reachability (Graph.v), and the descendant sets, kept as rows of 64-bit
    words.  A slice of the edges of a node is sorted by edge identity; the
    identities are unique in a document that the validator accepts. *)

From Stdlib Require Import Ascii.
From S2P Require Import Prelude Json Graph Dsl Ir.

Open Scope string_scope.
Open Scope list_scope.
Open Scope Z_scope.

Record graphAnalysis : Type := MkGraphAnalysis {
  ga_nodes : gmap string Node;
  ga_nodeIndexes : gmap string nat;
  ga_edgeIndexes : gmap string nat;
  ga_incoming : gmap string (list Edge);
  ga_outgoing : gmap string (list Edge);
  ga_topological : list string;
  ga_start : string;
  ga_end : string;
  ga_branchDomains : gmap string (list string);
  ga_descendants : gmap string (list Z);
  ga_ordinal : gmap string nat }.

(** ** The tables *)

Definition edges_at (m : gmap string (list Edge)) (id : string) : list Edge := default [] (m !! id).

Definition append_edge (k : string) (e : Edge) (m : gmap string (list Edge)) : gmap string (list Edge) :=
  <[k := edges_at m k ++ [e]]> m.

Definition edge_leb (a b : Edge) : bool := String.leb (edge_ID a) (edge_ID b).

(** The edges of every node of [ids] sorted; a node without edges gets an entry. *)
Definition sort_edges (ids : list string) (m : gmap string (list Edge)) : gmap string (list Edge) :=
  foldr (λ id m, <[id := stable_sort edge_leb (edges_at m id)]> m) m ids.

Definition last_indexes {A} (key : A → string) (l : list A) : gmap string nat :=
  fold_left (λ m p, <[key p.2 := p.1]> m) (imap pair l) ∅.

Definition nodes_of (document : Document) : gmap string Node := fold_left (λ m n, <[node_ID n := n]> m) (doc_Nodes document) ∅.

Definition incoming_of (document : Document) : gmap string (list Edge) :=
  sort_edges (sorted_keys (nodes_of document)) (fold_left (λ m e, append_edge (edge_Target e) e m) (doc_Edges document) ∅).
Definition outgoing_of (document : Document) : gmap string (list Edge) :=
  sort_edges (sorted_keys (nodes_of document)) (fold_left (λ m e, append_edge (edge_Source e) e m) (doc_Edges document) ∅).

(** The neighbours along a table of edges. *)
Definition neighbours (end_of : Edge → string) (m : gmap string (list Edge)) : adjacency := fmap (M := list) end_of <$> m.

(** ** Branch routes *)

(** [json.Unmarshal] into a slice of structs with the one field [Route]; a null
    leaves the element or the field as it is. *)
Definition decode_route_struct (s : jsyn) : option string :=
  match s with
  | SNull => Some ""
  | SObj m =>
      fold_left (λ acc '(k, _, v),
        if field_is "route" k
        then match v with SStr x => (λ _, x) <$> acc | SNull => acc | _ => None end
        else acc) m (Some "")
  | _ => None
  end.

Definition input_routes (input : Input) : list string :=
  let raw := default "" (input_Value input) in
  if bool_decide (input_Name input = "default_route") then match unmarshal_string raw with Some route => [route] | None => [] end
  else if bool_decide (input_Name input = "cases") then default [] (unmarshal_syn raw ≫= decode_list decode_route_struct)
  else [].

(** The declared routes, in order and without repetition. *)
Definition branch_domain (node : Node) : list string :=
  sort_strings (elements (list_to_set (flat_map input_routes (inputs_of node)) : gset string)).

Definition validateBranchRoutes (node : Node) (domain : list string) (nodeIndex : nat) (edgeIndexes : gmap string nat)
    (outgoing : list Edge) : list Diagnostic :=
  flat_map (λ edge,
    report (negb (bool_decide (edge_Route edge ∈ domain))) PhaseGraph "BRANCH_EDGE_ROUTE_UNDECLARED"
      "branch edge route is not declared by cases or default_route"
      (at_edge (edge_ID edge) (EdgePath (edge_ID edge) (default 0%nat (edgeIndexes !! edge_ID edge)) +:+ "/route"))) outgoing
  ++ flat_map (λ route,
    with_details {["route" := DetailString route]} <$>
      report (negb (bool_decide (route ∈ edge_Route <$> outgoing))) PhaseGraph "BRANCH_ROUTE_HAS_NO_EDGE"
        "every declared branch route requires at least one outgoing edge"
        (at_node (node_ID node) (NodePath (node_ID node) nodeIndex +:+ "/inputs"))) domain.

(** ** Degrees *)

Definition validate_degrees (node : Node) (nodeIndex incoming outgoing : nat) : list Diagnostic :=
  let location := at_node (node_ID node) (NodePath (node_ID node) nodeIndex) in
  if bool_decide (node_Type node = "start") then
    report (negb (Nat.eqb incoming 0)) PhaseGraph "START_INCOMING_EDGE_FORBIDDEN" "Start cannot have incoming control edges" location
    ++ report (Nat.eqb outgoing 0) PhaseGraph "START_OUTGOING_EDGE_REQUIRED" "Start requires an outgoing control edge" location
  else if bool_decide (node_Type node = "end") then
    report (Nat.eqb incoming 0) PhaseGraph "END_INCOMING_EDGE_REQUIRED" "End requires an incoming control edge" location
    ++ report (negb (Nat.eqb outgoing 0)) PhaseGraph "END_OUTGOING_EDGE_FORBIDDEN" "End cannot have outgoing control edges" location
  else
    report (Nat.eqb incoming 0) PhaseGraph "NODE_INCOMING_EDGE_REQUIRED" "non-Start node requires an incoming control edge" location
    ++ report (Nat.eqb outgoing 0) PhaseGraph "NODE_OUTGOING_EDGE_REQUIRED" "non-End node requires an outgoing control edge" location.

(** ** Order and reachability *)

Definition topologicalOrder (nodes : gmap string Node) (incoming outgoing : gmap string (list Edge)) : list string :=
  kahn (sorted_keys nodes) (neighbours edge_Source incoming) (neighbours edge_Target outgoing).

Definition graphReachable (start : string) (edges : gmap string (list Edge)) (reverse : bool) : gset string :=
  reachable start (neighbours (if reverse then edge_Source else edge_Target) edges).

(** ** Descendants *)

(** [bits[o/64] |= 1 << (o%64)], and [bits[word] |= value] for every word. *)
Definition set_bit (o : nat) (bits : list Z) : list Z :=
  alter (λ w, Z.lor w (Z.shiftl 1 (Z.of_nat (o mod 64)))) (o / 64)%nat bits.
Definition or_words (bits values : list Z) : list Z := imap (λ word b, Z.lor b (default 0 (values !! word))) bits.

(** One step of the loop that walks the order backwards. *)
Definition descend (outgoing : gmap string (list Edge)) (ordinal : gmap string nat) (id : string) (rows : gmap string (list Z)) : gmap string (list Z) :=
  fold_left (λ rows e,
      let bits := set_bit (default 0%nat (ordinal !! edge_Target e)) (default [] (rows !! id)) in
      <[id := or_words bits (default [] (rows !! edge_Target e))]> rows)
    (edges_at outgoing id) rows.

Definition ordinals (topological : list string) : gmap string nat := last_indexes (λ id, id) topological.

Definition buildDescendants (topological : list string) (outgoing : gmap string (list Edge)) : gmap string (list Z) :=
  let words := ((length topological + 63) / 64)%nat in
  foldr (descend outgoing (ordinals topological)) (list_to_map ((λ id, (id, replicate words 0)) <$> topological)) topological.

Definition isControlUpstream (analysis : graphAnalysis) (source target : string) : bool :=
  match ga_ordinal analysis !! target with
  | None => false
  | Some o =>
      match default [] (ga_descendants analysis !! source) !! (o / 64)%nat with
      | Some w => Z.testbit w (Z.of_nat (o mod 64))
      | None => false
      end
  end.

(** ** The analysis *)

Definition of_type (type : string) (document : Document) : list string :=
  node_ID <$> List.filter (λ n, bool_decide (node_Type n = type)) (doc_Nodes document).

Definition the_one (l : list string) : string := match l with [id] => id | _ => "" end.

Definition branch_domains (document : Document) : gmap string (list string) :=
  fold_left (λ m n, if bool_decide (node_Type n = "branch") then <[node_ID n := branch_domain n]> m else m) (doc_Nodes document) ∅.

(** [analysis], as it is when the loops are over. *)
Definition control_graph (document : Document) : graphAnalysis :=
  let nodes := nodes_of document in
  let outgoing := outgoing_of document in
  let topological := topologicalOrder nodes (incoming_of document) outgoing in
  let ordered := Nat.eqb (length topological) (size nodes) in
  MkGraphAnalysis nodes (last_indexes node_ID (doc_Nodes document)) (last_indexes edge_ID (doc_Edges document))
    (incoming_of document) outgoing topological (the_one (of_type "start" document)) (the_one (of_type "end" document))
    (branch_domains document)
    (if ordered then buildDescendants topological outgoing else ∅)
    (if ordered then ordinals topological else ∅).

Definition node_location (analysis : graphAnalysis) (node : Node) : Location :=
  at_node (node_ID node) (NodePath (node_ID node) (default 0%nat (ga_nodeIndexes analysis !! node_ID node))).

Definition validate_graph_node (analysis : graphAnalysis) (node : Node) : list Diagnostic :=
  let index := default 0%nat (ga_nodeIndexes analysis !! node_ID node) in
  let outgoing := edges_at (ga_outgoing analysis) (node_ID node) in
  validate_degrees node index (length (edges_at (ga_incoming analysis) (node_ID node))) (length outgoing)
  ++ (if bool_decide (node_Type node = "branch")
      then validateBranchRoutes node (branch_domain node) index (ga_edgeIndexes analysis) outgoing else []).

Definition graph_diagnostics (document : Document) (analysis : graphAnalysis) : list Diagnostic :=
  report (negb (Nat.eqb (length (of_type "start" document)) 1)) PhaseGraph "CONTROL_START_COUNT_INVALID"
    "control graph requires exactly one Start node" (at_path "/nodes")
  ++ report (negb (Nat.eqb (length (of_type "end" document)) 1)) PhaseGraph "CONTROL_END_COUNT_INVALID"
       "control graph requires exactly one End node" (at_path "/nodes")
  ++ flat_map (validate_graph_node analysis) (doc_Nodes document)
  ++ report (negb (Nat.eqb (length (ga_topological analysis)) (size (ga_nodes analysis)))) PhaseGraph "CONTROL_GRAPH_CYCLE"
       "control graph must be a DAG" (at_path "/edges")
  ++ (if is_empty (ga_start analysis) then [] else
      let reachable := graphReachable (ga_start analysis) (ga_outgoing analysis) false in
      flat_map (λ node, report (negb (bool_decide (node_ID node ∈ reachable))) PhaseGraph "NODE_NOT_REACHABLE_FROM_START"
                  "node is not reachable from Start" (node_location analysis node)) (doc_Nodes document))
  ++ (if is_empty (ga_end analysis) then [] else
      let reachesEnd := graphReachable (ga_end analysis) (ga_incoming analysis) true in
      flat_map (λ node, report (negb (bool_decide (node_ID node ∈ reachesEnd))) PhaseGraph "NODE_CANNOT_REACH_END"
                  "node cannot reach End" (node_location analysis node)) (doc_Nodes document)).

Definition analyzeControlGraph (document : Document) : graphAnalysis * list Diagnostic :=
  let analysis := control_graph document in
  (analysis, LimitDiagnostics (SortDiagnostics (graph_diagnostics document analysis))).

Definition graphInternalDiagnostic (code message : string) : Diagnostic :=
  ErrorDiagnostic PhaseGraph code message (at_path "/edges").
