(* ===== verification/ControlFacts.v ===== *)
(** * What the control-graph analysis accepts and computes

    For a document that the validator accepts: the tables hold the edges of each
    node, the analysis reports nothing exactly when the graph is a directed
    acyclic graph from its one start to its one end with the declared routes, and
    the descendant words are the transitive closure of the edges. *)

From Stdlib Require Import Ascii.
From S2P Require Import Prelude Json Graph Dsl Ir IrFacts ControlGraph.

Open Scope string_scope.
Open Scope list_scope.
Open Scope Z_scope.

(** ** The graph of a document *)

Definition ir_pair (e : Edge) : string * string := (edge_Source e, edge_Target e).
Definition ir_pairs (d : Document) : list (string * string) := ir_pair <$> doc_Edges d.
Definition leads (d : Document) (s t : string) : Prop := (s, t) ∈ ir_pairs d.

Definition out_edges (d : Document) (id : string) : list Edge := filter (λ e, edge_Source e = id) (doc_Edges d).
Definition in_edges (d : Document) (id : string) : list Edge := filter (λ e, edge_Target e = id) (doc_Edges d).

Definition ir_routes_ok (n : Node) (edges : list Edge) : Prop :=
  (∀ e, e ∈ edges → edge_Route e ∈ branch_domain n) ∧ (∀ r, r ∈ branch_domain n → ∃ e, e ∈ edges ∧ edge_Route e = r).

Record graph_wf (d : Document) (start stop : string) : Prop := {
  gw_start : of_type "start" d = [start];
  gw_end : of_type "end" d = [stop];
  gw_sources : ∀ n, n ∈ doc_Nodes d → in_edges d (node_ID n) = [] ↔ node_Type n = "start";
  gw_sinks : ∀ n, n ∈ doc_Nodes d → out_edges d (node_ID n) = [] ↔ node_Type n = "end";
  gw_routes : ∀ n, n ∈ doc_Nodes d → node_Type n = "branch" → ir_routes_ok n (out_edges d (node_ID n));
  gw_acyclic : acyclic (ir_pairs d);
  gw_from_start : ∀ n, n ∈ doc_Nodes d → rtc (leads d) start (node_ID n);
  gw_to_end : ∀ n, n ∈ doc_Nodes d → rtc (leads d) (node_ID n) stop }.

Lemma leads_edge d s t : leads d s t ↔ ∃ e, e ∈ doc_Edges d ∧ edge_Source e = s ∧ edge_Target e = t.
Proof.
  unfold leads, ir_pairs. rewrite list_elem_of_fmap. split.
  - intros (e & [= -> ->] & He). by exists e.
  - intros (e & He & <- & <-). by exists e.
Qed.

Lemma elem_of_out_edges d id e : e ∈ out_edges d id ↔ e ∈ doc_Edges d ∧ edge_Source e = id.
Proof. unfold out_edges. rewrite list_elem_of_filter. tauto. Qed.
Lemma elem_of_in_edges d id e : e ∈ in_edges d id ↔ e ∈ doc_Edges d ∧ edge_Target e = id.
Proof. unfold in_edges. rewrite list_elem_of_filter. tauto. Qed.

(** ** The tables *)

Lemma edges_at_append k e m x : edges_at (append_edge k e m) x = edges_at m x ++ (if decide (k = x) then [e] else []).
Proof.
  unfold append_edge, edges_at. rewrite lookup_insert. case_decide; subst; cbn; [done|by rewrite app_nil_r].
Qed.

Lemma edges_at_collect (key : Edge → string) l x :
  edges_at (fold_left (λ m e, append_edge (key e) e m) l ∅) x = filter (λ e, key e = x) l.
Proof.
  induction l as [|e l IH] using rev_ind.
  - unfold edges_at. cbn. by rewrite lookup_empty.
  - rewrite fold_left_app. cbn [fold_left]. rewrite edges_at_append, IH, filter_app, filter_cons, filter_nil. by case_decide.
Qed.

Lemma edges_at_sort ids m x : edges_at (sort_edges ids m) x ≡ₚ edges_at m x.
Proof.
  unfold sort_edges. induction ids as [|id ids IH]; cbn; [done|].
  destruct (decide (id = x)) as [->|Hne].
  - unfold edges_at at 1. rewrite lookup_insert_eq. cbn. by rewrite stable_sort_perm.
  - unfold edges_at at 1. by rewrite lookup_insert_ne.
Qed.

Lemma incoming_spec d id : edges_at (incoming_of d) id ≡ₚ in_edges d id.
Proof. unfold incoming_of. by rewrite edges_at_sort, edges_at_collect. Qed.
Lemma outgoing_spec d id : edges_at (outgoing_of d) id ≡ₚ out_edges d id.
Proof. unfold outgoing_of. by rewrite edges_at_sort, edges_at_collect. Qed.

Lemma adj_neighbours end_of m id : adj (neighbours end_of m) id = end_of <$> edges_at m id.
Proof. unfold adj, neighbours, edges_at. rewrite lookup_fmap. by destruct (m !! id). Qed.

Lemma targets_pairs d s : edge_Target <$> out_edges d s = targets_of (ir_pairs d) s.
Proof.
  unfold out_edges, targets_of, ir_pairs. induction (doc_Edges d) as [|e l IH]; [done|].
  rewrite fmap_cons, !filter_cons. cbn [ir_pair fst]. case_decide; cbn; by rewrite ?IH.
Qed.

Lemma sources_pairs d t : edge_Source <$> in_edges d t = sources_of (ir_pairs d) t.
Proof.
  unfold in_edges, sources_of, ir_pairs. induction (doc_Edges d) as [|e l IH]; [done|].
  rewrite fmap_cons, !filter_cons. cbn [ir_pair snd]. case_decide; cbn; by rewrite ?IH.
Qed.

Lemma nodes_of_lookup d id n : NoDup (node_ID <$> doc_Nodes d) → nodes_of d !! id = Some n ↔ n ∈ doc_Nodes d ∧ node_ID n = id.
Proof.
  intros Hnd. transitivity (table node_ID (λ n, n) (doc_Nodes d) !! id = Some n); [done|].
  rewrite table_lookup by done. split; [intros (x & ? & ? & ->); done|intros [? ?]; by exists n].
Qed.

Lemma nodes_of_is_Some d id : is_Some (nodes_of d !! id) ↔ id ∈ node_ID <$> doc_Nodes d.
Proof. apply (table_is_Some node_ID (λ n, n)). Qed.

Lemma keys_of_nodes d id : id ∈ sorted_keys (nodes_of d) ↔ id ∈ node_ID <$> doc_Nodes d.
Proof. by rewrite elem_of_sorted_keys, nodes_of_is_Some. Qed.

(** ** Order and reachability *)

Section Accepted.
Context (contract : NodeContractValidator) (d : Document) (Hwf : ir_wf contract d).

Lemma leads_nodes s t : leads d s t → s ∈ node_ID <$> doc_Nodes d ∧ t ∈ node_ID <$> doc_Nodes d.
Proof using Hwf.
  intros (e & He & <- & <-)%leads_edge. destruct (iw_edges _ _ Hwf e He) as (_ & s & t & Hs & Ht & <- & <- & _).
  split; by apply list_elem_of_fmap_2.
Qed.

Local Notation order := (topologicalOrder (nodes_of d) (incoming_of d) (outgoing_of d)).

Lemma kahn_hypotheses :
  (∀ s t, (s, t) ∈ ir_pairs d → s ∈ sorted_keys (nodes_of d) ∧ t ∈ sorted_keys (nodes_of d)) ∧
  (∀ t, t ∈ sorted_keys (nodes_of d) → length (adj (neighbours edge_Source (incoming_of d)) t) = length (sources_of (ir_pairs d) t)) ∧
  (∀ s, s ∈ sorted_keys (nodes_of d) → adj (neighbours edge_Target (outgoing_of d)) s ≡ₚ targets_of (ir_pairs d) s).
Proof using Hwf.
  split; [|split].
  - intros s t Hst. rewrite !keys_of_nodes. by apply leads_nodes.
  - intros t _. rewrite adj_neighbours, length_fmap, (Permutation_length (incoming_spec d t)), <-sources_pairs. by rewrite length_fmap.
  - intros s _. by rewrite adj_neighbours, outgoing_spec, targets_pairs.
Qed.

Lemma order_complete : Nat.eqb (length order) (size (nodes_of d)) = true ↔ acyclic (ir_pairs d).
Proof using Hwf.
  destruct kahn_hypotheses as (H1 & H2 & H3). rewrite Nat.eqb_eq. unfold topologicalOrder.
  rewrite <-length_sorted_keys. apply kahn_complete; [apply NoDup_sorted_keys|done..].
Qed.

(** A complete order lists every node once, each after its sources. *)
Lemma order_spec : acyclic (ir_pairs d) → NoDup order ∧ (∀ id, id ∈ order ↔ id ∈ node_ID <$> doc_Nodes d) ∧ forward (ir_pairs d) order.
Proof using Hwf.
  intros Hac. destruct kahn_hypotheses as (H1 & H2 & H3).
  destruct (kahn_spec (sorted_keys (nodes_of d)) (ir_pairs d) _ _ (NoDup_sorted_keys _) H1 H2 H3) as (Hf & Hnd & Hsub & _).
  fold order in Hf, Hnd, Hsub. split; [done|]. split; [|done]. intros id. rewrite <-keys_of_nodes.
  assert (order ≡ₚ sorted_keys (nodes_of d)) as ->; [|done].
  apply submseteq_length_Permutation; [by apply NoDup_submseteq|].
  apply order_complete in Hac. apply Nat.eqb_eq in Hac. rewrite length_sorted_keys. lia.
Qed.

Lemma reached_from start id : id ∈ graphReachable start (outgoing_of d) false ↔ rtc (leads d) start id.
Proof using.
  unfold graphReachable. rewrite reachable_spec.
  split; apply rtc_subrel; intros s t; unfold edge; rewrite adj_neighbours, outgoing_spec, targets_pairs, elem_of_targets_of; done.
Qed.

Lemma reaching_to stop id : id ∈ graphReachable stop (incoming_of d) true ↔ rtc (leads d) id stop.
Proof using.
  unfold graphReachable. rewrite reachable_spec, <-(rtc_flip_iff (leads d)).
  split; apply rtc_subrel; intros s t; unfold edge, flip; rewrite adj_neighbours, incoming_spec, sources_pairs, elem_of_sources_of; done.
Qed.
End Accepted.

(** ** The checks *)

Section Checks.
Context (contract : NodeContractValidator) (d : Document) (Hwf : ir_wf contract d).

Lemma length_zero {A} (l k : list A) : l ≡ₚ k → Nat.eqb (length l) 0 = true ↔ k = [].
Proof using. intros Hp. rewrite Nat.eqb_eq, (Permutation_length Hp). apply length_zero_iff_nil. Qed.

Lemma degrees_clean n incoming outgoing : incoming ≡ₚ in_edges d (node_ID n) → outgoing ≡ₚ out_edges d (node_ID n) → ∀ index,
  HasErrors (validate_degrees n index (length incoming) (length outgoing)) = false ↔
  (in_edges d (node_ID n) = [] ↔ node_Type n = "start") ∧ (out_edges d (node_ID n) = [] ↔ node_Type n = "end").
Proof using.
  intros Hin Hout index. rewrite <-(length_zero _ _ Hin), <-(length_zero _ _ Hout).
  unfold validate_degrees. repeat case_bool_decide; rewrite clean_app, !clean_report;
    destruct (Nat.eqb (length incoming) 0), (Nat.eqb (length outgoing) 0); naive_solver congruence.
Qed.

Lemma routes_clean n index indexes outgoing : outgoing ≡ₚ out_edges d (node_ID n) →
  HasErrors (validateBranchRoutes n (branch_domain n) index indexes outgoing) = false ↔ ir_routes_ok n (out_edges d (node_ID n)).
Proof using.
  intros Hout. unfold validateBranchRoutes, ir_routes_ok. rewrite clean_app, !clean_flat_map.
  setoid_rewrite clean_report. setoid_rewrite clean_with_details. setoid_rewrite clean_report.
  setoid_rewrite negb_false_iff. setoid_rewrite bool_decide_eq_true. setoid_rewrite list_elem_of_fmap. setoid_rewrite Hout.
  split; intros [H1 H2]; (split; [done|]); intros r Hr; destruct (H2 r Hr) as (e & He); exists e; naive_solver.
Qed.

Lemma graph_node_clean n : HasErrors (validate_graph_node (control_graph d) n) = false ↔
  ((in_edges d (node_ID n) = [] ↔ node_Type n = "start") ∧ (out_edges d (node_ID n) = [] ↔ node_Type n = "end")) ∧
  (node_Type n = "branch" → ir_routes_ok n (out_edges d (node_ID n))).
Proof using.
  unfold validate_graph_node. rewrite clean_app. cbn.
  rewrite degrees_clean by (apply incoming_spec || apply outgoing_spec).
  case_bool_decide as Hb; [rewrite routes_clean by apply outgoing_spec|]; naive_solver.
Qed.

Lemma of_type_node type id : id ∈ of_type type d → ∃ n, n ∈ doc_Nodes d ∧ node_ID n = id ∧ node_Type n = type.
Proof using.
  intros (n & -> & Hn)%list_elem_of_fmap. apply list_elem_of_In, filter_In in Hn as [Hn Ht]. apply bool_decide_eq_true in Ht.
  exists n. split; [by apply list_elem_of_In|done].
Qed.

Lemma the_one_not_empty type id : of_type type d = [id] → is_empty (the_one (of_type type d)) = false.
Proof using Hwf.
  intros Hone. rewrite Hone. destruct (of_type_node type id) as (n & Hn & <- & _); [rewrite Hone; by left|].
  apply valid_not_empty, (nk_id _ _ (iw_nodes _ _ Hwf n Hn)).
Qed.

Lemma one_of_type type : Nat.eqb (length (of_type type d)) 1 = true ↔ ∃ id, of_type type d = [id].
Proof using. rewrite Nat.eqb_eq. destruct (of_type type d) as [|x [|y l]]; cbn; naive_solver. Qed.

Lemma reach_clean (set : gset string) (code message : string) :
  HasErrors (flat_map (λ node, report (negb (bool_decide (node_ID node ∈ set))) PhaseGraph code message (node_location (control_graph d) node)) (doc_Nodes d)) = false
  ↔ ∀ n, n ∈ doc_Nodes d → node_ID n ∈ set.
Proof using. rewrite clean_flat_map. setoid_rewrite clean_report. setoid_rewrite negb_false_iff. by setoid_rewrite bool_decide_eq_true. Qed.

Lemma analyzeControlGraph_clean : HasErrors (analyzeControlGraph d).2 = false ↔ ∃ start stop, graph_wf d start stop.
Proof using Hwf.
  unfold analyzeControlGraph. cbn [snd]. rewrite HasErrors_limit. unfold graph_diagnostics.
  rewrite !clean_app, !clean_report, !negb_false_iff, !one_of_type, clean_flat_map. setoid_rewrite graph_node_clean.
  change (ga_topological (control_graph d)) with (topologicalOrder (nodes_of d) (incoming_of d) (outgoing_of d)).
  change (size (ga_nodes (control_graph d))) with (size (nodes_of d)). rewrite (order_complete contract d Hwf).
  change (ga_start (control_graph d)) with (the_one (of_type "start" d)). change (ga_end (control_graph d)) with (the_one (of_type "end" d)).
  split.
  - intros ([start Hs] & [stop He] & Hn & Hac & Hfrom & Hto). exists start, stop.
    rewrite (the_one_not_empty _ _ Hs), reach_clean, Hs in Hfrom. rewrite (the_one_not_empty _ _ He), reach_clean, He in Hto.
    constructor; try done; intros n Hin; try by apply Hn.
    + apply reached_from. by apply Hfrom.
    + apply reaching_to. by apply Hto.
  - intros (start & stop & [Hs He Hso Hsi Hr Hac Hfrom Hto]).
    rewrite (the_one_not_empty _ _ Hs), (the_one_not_empty _ _ He), !reach_clean, Hs, He. cbn [the_one].
    split; [by exists start|]. split; [by exists stop|]. split; [naive_solver|]. split; [done|]. split; intros n Hn.
    + apply reached_from. by apply Hfrom.
    + apply reaching_to. by apply Hto.
Qed.
End Checks.

(** ** Descendants *)

Definition bit (row : list Z) (o : nat) : bool :=
  match row !! (o / 64)%nat with Some w => Z.testbit w (Z.of_nat (o mod 64)) | None => false end.

Definition row_of (rows : gmap string (list Z)) (id : string) : list Z := default [] (rows !! id).

Lemma length_set_bit o row : length (set_bit o row) = length row.
Proof. apply length_alter. Qed.

Lemma bit_set_bit o row x : (o / 64 < length row)%nat → bit (set_bit o row) x = bool_decide (x = o) || bit row x.
Proof.
  intros Hlt. unfold bit, set_bit. destruct (lookup_lt_is_Some_2 row (o / 64) Hlt) as [w Hw].
  destruct (decide (x / 64 = o / 64)%nat) as [Heq|Hne].
  - rewrite Heq, list_lookup_alter_eq, Hw. cbn [fmap option_fmap option_map]. rewrite Z.lor_spec, Z.shiftl_spec by lia.
    destruct (decide (x = o)) as [->|Hxo].
    + rewrite bool_decide_eq_true_2, Z.sub_diag by done. apply orb_true_r.
    + rewrite bool_decide_eq_false_2 by done. cbn [orb]. replace (Z.testbit 1 _) with false; [by rewrite orb_false_r|].
      assert (x mod 64 ≠ o mod 64)%nat as Hmod.
      { intros Hm. apply Hxo. pose proof (Nat.div_mod_eq x 64). pose proof (Nat.div_mod_eq o 64). lia. }
      symmetry. destruct (Z.neg_nonneg_cases (Z.of_nat (x mod 64) - Z.of_nat (o mod 64))) as [Hn|Hn]; [by apply Z.testbit_neg_r|].
      change 1 with (2 ^ 0). rewrite Z.pow2_bits_false; [done|lia].
  - rewrite list_lookup_alter_ne by done. rewrite bool_decide_eq_false_2; [done|]. by intros ->.
Qed.

Lemma length_or_words row values : length (or_words row values) = length row.
Proof. apply length_imap. Qed.

Lemma bit_or_words row values x : length values = length row → bit (or_words row values) x = bit row x || bit values x.
Proof.
  intros Hlen. unfold bit, or_words. rewrite list_lookup_imap.
  destruct (row !! (x / 64)%nat) as [w|] eqn:Hw; cbn [fmap option_fmap option_map].
  - destruct (lookup_lt_is_Some_2 values (x / 64)) as [v Hv]; [rewrite Hlen; by eapply lookup_lt_Some|]. rewrite Hv. apply Z.lor_spec.
  - rewrite (proj2 (lookup_ge_None values _)); [done|]. rewrite Hlen. by apply lookup_ge_None.
Qed.

Lemma bit_zero words x : bit (replicate words 0) x = false.
Proof. unfold bit. destruct (_ !! _) as [w|] eqn:Hw; [|done]. apply lookup_replicate in Hw as [-> _]. apply Z.bits_0. Qed.

Lemma row_insert id row rows x : row_of (<[id := row]> rows) x = if decide (id = x) then row else row_of rows x.
Proof. unfold row_of. rewrite lookup_insert. by case_decide. Qed.

Lemma ordinals_lookup l id i : NoDup l → ordinals l !! id = Some i ↔ l !! i = Some id.
Proof.
  intros Hnd. transitivity (table (λ p : nat * string, p.2) fst (imap pair l) !! id = Some i); [done|].
  assert ((λ p : nat * string, p.2) <$> imap pair l = l) as Hsnd.
  { apply list_eq. intros k. rewrite list_lookup_fmap, list_lookup_imap. by destruct (l !! k). }
  rewrite table_lookup by (by rewrite Hsnd). split.
  - intros ([j x] & Hin & <- & <-). apply list_elem_of_lookup in Hin as [k Hk]. rewrite list_lookup_imap in Hk.
    by apply fmap_Some in Hk as (y & Hy & [= -> ->]).
  - intros Hi. exists (i, id). split; [|done]. apply list_elem_of_lookup. exists i. by rewrite list_lookup_imap, Hi.
Qed.

Section Descendants.
Context (order : list string) (order_nodup : NoDup order) (outgoing : gmap string (list Edge)) (R : string → string → Prop).
Context (targets_ok : ∀ s t, s ∈ order → R s t ↔ ∃ e, e ∈ edges_at outgoing s ∧ edge_Target e = t).
Context (R_forward : ∀ i s t, order !! i = Some s → R s t → ∃ j, (i < j)%nat ∧ order !! j = Some t).

Local Notation words := ((length order + 63) / 64)%nat.
Local Notation descend := (descend outgoing (ordinals order)).

Definition wide (rows : gmap string (list Z)) : Prop := ∀ id, id ∈ order → length (row_of rows id) = words.

(** The row of [id] holds the ordinals of the nodes in [P]. *)
Definition row_holds (rows : gmap string (list Z)) (id : string) (P : string → Prop) : Prop :=
  ∀ o t, order !! o = Some t → bit (row_of rows id) o = true ↔ P t.

Lemma ordinal_word o t : order !! o = Some t → (o / 64 < words)%nat.
Proof using. intros Hlt%lookup_lt_Some. apply Nat.div_lt_upper_bound; [lia|]. pose proof (Nat.div_mod_eq (length order + 63) 64). pose proof (Nat.mod_upper_bound (length order + 63) 64). lia. Qed.

Lemma descend_edges id es : ∀ rows P, id ∈ order → wide rows → row_holds rows id P →
  (∀ e, e ∈ es → edge_Target e ≠ id ∧ edge_Target e ∈ order ∧ row_holds rows (edge_Target e) (tc R (edge_Target e))) →
  let rows' := fold_left (λ rows e, <[id := or_words (set_bit (default 0%nat (ordinals order !! edge_Target e)) (row_of rows id)) (row_of rows (edge_Target e))]> rows) es rows in
  wide rows' ∧ (∀ x, x ≠ id → row_of rows' x = row_of rows x) ∧
  row_holds rows' id (λ t, P t ∨ ∃ e, e ∈ es ∧ (edge_Target e = t ∨ tc R (edge_Target e) t)).
Proof using order_nodup targets_ok.
  induction es as [|e es IH]; intros rows P Hid Hwide Hrow Hes; cbn.
  { split; [done|]. split; [done|]. intros o t Ho. rewrite (Hrow o t Ho). split; [by left|]. intros [?|(e & He%not_elem_of_nil & _)]; done. }
  destruct (Hes e) as (Hne & Hin & Htc); [by left|]. apply list_elem_of_lookup in Hin as Hlook. destruct Hlook as [k Hk].
  rewrite (proj2 (ordinals_lookup order _ k order_nodup) Hk). cbn [default].
  set (rows1 := <[id := _]> rows).
  assert (∀ x, x ≠ id → row_of rows1 x = row_of rows x) as Hother by (intros x Hx; unfold rows1; by rewrite row_insert, decide_False).
  assert (row_of rows1 id = or_words (set_bit k (row_of rows id)) (row_of rows (edge_Target e))) as Hself by (unfold rows1; by rewrite row_insert, decide_True).
  destruct (IH rows1 (λ t, P t ∨ edge_Target e = t ∨ tc R (edge_Target e) t)) as (Hw' & Ho' & Hr'); [done|..].
  - intros x Hx. destruct (decide (x = id)) as [->|Hxi]; [|rewrite Hother by done; by apply Hwide].
    rewrite Hself, length_or_words, length_set_bit. by apply Hwide.
  - intros o t Ho. rewrite Hself, bit_or_words by (rewrite length_set_bit, !Hwide; done).
    rewrite bit_set_bit by (rewrite Hwide by done; by eapply ordinal_word).
    rewrite !orb_true_iff, bool_decide_eq_true, (Hrow o t Ho), (Htc o t Ho).
    assert (o = k ↔ edge_Target e = t) as ->; [|tauto]. split; [intros ->; congruence|]. intros <-. by eapply NoDup_lookup.
  - intros e' He'. destruct (Hes e') as (Hne' & Hin' & Htc'); [by right|]. split; [done|]. split; [done|].
    intros o t Ho. rewrite Hother by done. by apply Htc'.
  - split; [done|]. split; [intros x Hx; by rewrite Ho', Hother|].
    intros o t Ho. rewrite (Hr' o t Ho). setoid_rewrite elem_of_cons. naive_solver.
Qed.

Lemma tc_first s t : tc R s t ↔ ∃ u, R s u ∧ (u = t ∨ tc R u t).
Proof using.
  split.
  - intros Htc. destruct Htc as [s t Hst|s u t Hsu Hut]; [exists t; auto|exists u; auto].
  - intros (u & Hsu & [->|Hut]); [by apply tc_once|by eapply tc_l].
Qed.

Lemma build_suffix suffix : ∀ prefix rows0, order = prefix ++ suffix → wide rows0 → (∀ id, id ∈ order → row_holds rows0 id (λ _, False)) →
  let rows := foldr descend rows0 suffix in
  wide rows ∧ (∀ id, id ∈ suffix → row_holds rows id (tc R id)) ∧ (∀ id, id ∉ suffix → row_of rows id = row_of rows0 id).
Proof using order_nodup targets_ok R_forward.
  induction suffix as [|id suffix IH]; intros prefix rows0 Hord Hwide Hzero; cbn.
  { split; [done|]. split; [by intros id ?%not_elem_of_nil|done]. }
  destruct (IH (prefix ++ [id]) rows0) as (Hw & Htc & Hrest); [by rewrite Hord, <-app_assoc|done|done|].
  set (rows := foldr descend rows0 suffix) in *.
  assert (order !! length prefix = Some id) as Hpos by (rewrite Hord; by apply list_lookup_middle).
  assert (id ∈ order) as Hid by (by eapply list_elem_of_lookup_2).
  assert (id ∉ suffix) as Hnot.
  { rewrite Hord in order_nodup. apply NoDup_app in order_nodup as (_ & _ & Hnd). by apply NoDup_cons in Hnd as [? _]. }
  destruct (descend_edges id (edges_at outgoing id) rows (λ _, False) Hid Hw) as (Hw' & Ho' & Hr').
  - intros o t Ho. rewrite Hrest by done. exact (Hzero id Hid o t Ho).
  - intros e He. assert (R id (edge_Target e)) as HR by (apply targets_ok; eauto).
    destruct (R_forward _ _ _ Hpos HR) as (j & Hlt & Hj).
    assert (edge_Target e ∈ suffix) as Hin.
    { rewrite Hord, lookup_app_r in Hj by lia. destruct (j - length prefix)%nat as [|k] eqn:Hk; [lia|]. cbn in Hj. by eapply list_elem_of_lookup_2. }
    split; [by intros Heq; rewrite Heq in Hin|]. split; [by eapply list_elem_of_lookup_2|]. by apply Htc.
  - fold (row_of rows id) in *. split; [exact Hw'|]. split.
    + intros x [->|Hx]%elem_of_cons.
      * intros o t Ho. etrans; [apply (Hr' o t Ho)|]. rewrite tc_first. split.
        -- intros [[]|(e & He & Ht)]. exists (edge_Target e). split; [|done]. apply targets_ok; eauto.
        -- intros (u & Hu & Ht). right. apply targets_ok in Hu as (e & He & <-); [|done]. eauto.
      * intros o t Ho. assert (x ≠ id) as Hxi by (by intros ->). etrans; [|by apply (Htc x Hx o t Ho)].
        unfold descend at 1. by rewrite <-(Ho' x Hxi).
    + intros x [Hxi Hx]%not_elem_of_cons. rewrite <-(Hrest x Hx). by apply Ho'.
Qed.

Lemma buildDescendants_spec id o t : id ∈ order → order !! o = Some t →
  bit (row_of (buildDescendants order outgoing) id) o = true ↔ tc R id t.
Proof using order_nodup targets_ok R_forward.
  intros Hid Ho. set (rows0 := list_to_map ((λ id, (id, replicate words 0)) <$> order) : gmap string (list Z)).
  assert (∀ x, x ∈ order → row_of rows0 x = replicate words 0) as H0.
  { intros x Hx. unfold row_of, rows0. rewrite (elem_of_list_to_map_1 _ x (replicate words 0)); [done| |].
    - rewrite <-list_fmap_compose. cbn. by rewrite list_fmap_id.
    - apply list_elem_of_fmap. by exists x. }
  destruct (build_suffix order [] rows0 eq_refl) as (_ & Htc & _).
  - intros x Hx. rewrite H0 by done. apply length_replicate.
  - intros x Hx o' t' _. rewrite H0, bit_zero by done. done.
  - by apply Htc.
Qed.
End Descendants.
