(* ===== verification/Activation.v ===== *)
(** * Activation analysis

    Models internal/compiler/activation.go.  Whether a node is activated is a
    function of the routes that the branches choose.  [decisionManager] keeps
    such functions as nodes of a decision diagram with one variable per branch,
    each node once; [validateDataBindings] computes the function of every node
    in topological order and rejects a reference that can be active while its
    source is not.  A decision identity is a [uint32]; the manager refuses to
    grow past [maxActivationDecisionNodes]. *)

From Stdlib Require Import Ascii.
From S2P Require Import Prelude Json Graph Dsl Ir ControlGraph.

Open Scope string_scope.
Open Scope list_scope.
Open Scope Z_scope.

Definition maxActivationDecisionNodes : Z := 250000.

Definition decisionFalse : Z := 0.
Definition decisionTrue : Z := 1.

Record decisionNode : Type := MkDecisionNode { dn_variable : Z; dn_children : list Z }.

Record decisionManager : Type := MkDecisionManager {
  dm_domains : list (list string);
  dm_nodes : list decisionNode;
  dm_unique : gmap string Z;
  dm_apply : gmap string Z;
  dm_negation : gmap Z Z }.

Definition newDecisionManager (domains : list (list string)) : decisionManager :=
  MkDecisionManager domains [MkDecisionNode (-1) []; MkDecisionNode (-1) []] ∅ ∅ ∅.

(** An operation changes the manager behind the pointer, also when it fails. *)
Notation dec := (tx decisionManager).

(** Numbers joined by colons. *)
Definition decision_key (parts : list string) : string := String.concat ":" parts.
Definition node_key (variable : Z) (children : list Z) : string := decision_key (pretty <$> variable :: children).
Definition apply_key (operation : string) (left right : Z) : string := decision_key [operation; pretty left; pretty right].

Definition index_out_of_range : error := Errorf "runtime error: index out of range" [].

Definition makeNode (variable : Z) (children : list Z) : dec Z :=
  match children with
  | [] => tx_fail index_out_of_range
  | first :: rest =>
      if forallb (λ child, child =? first) rest then mret first else
      manager ← tx_get;
      let key := node_key variable children in
      match dm_unique manager !! key with
      | Some existing => mret existing
      | None =>
          tx_lift (guard_err (maxActivationDecisionNodes <=? Z.of_nat (length (dm_nodes manager)))
            (Errorf "activation decision graph exceeds %d nodes" [pretty maxActivationDecisionNodes])) ;;
          let id := u32 (Z.of_nat (length (dm_nodes manager))) in
          tx_modify (λ m, MkDecisionManager (dm_domains m) (dm_nodes m ++ [MkDecisionNode variable children])
                            (<[key := id]> (dm_unique m)) (dm_apply m) (dm_negation m)) ;;
          mret id
      end
  end.

(** [manager.domains[variable]] and [manager.nodes[id]] *)
Definition domain_at (manager : decisionManager) (variable : Z) : list string := default [] (dm_domains manager !! Z.to_nat variable).
Definition node_at (manager : decisionManager) (id : Z) : decisionNode := default (MkDecisionNode (-1) []) (dm_nodes manager !! Z.to_nat id).

Definition equal (variable : Z) (route : string) : dec Z :=
  manager ← tx_get;
  makeNode variable ((λ candidate, if bool_decide (candidate = route) then decisionTrue else decisionFalse) <$> domain_at manager variable).

Definition variable_of (manager : decisionManager) (id : Z) : Z :=
  if id <=? decisionTrue then Z.of_nat (length (dm_domains manager)) + 1 else dn_variable (node_at manager id).

Definition child_of (manager : decisionManager) (id variable : Z) (choice : nat) : Z :=
  if (id <=? decisionTrue) || negb (dn_variable (node_at manager id) =? variable) then id
  else default decisionFalse (dn_children (node_at manager id) !! choice).

Inductive operation : Type := OpAnd | OpOr.
Definition operation_name (o : operation) : string := match o with OpAnd => "and" | OpOr => "or" end.

(** The cases that need no diagram. *)
Definition apply_trivial (o : operation) (left right : Z) : option Z :=
  match o with
  | OpAnd =>
      if (left =? decisionFalse) || (right =? decisionFalse) then Some decisionFalse
      else if left =? decisionTrue then Some right else if left =? right then Some left else None
  | OpOr =>
      if (right =? decisionTrue) || (left =? decisionTrue) then Some decisionTrue
      else if left =? decisionFalse then Some right else if left =? right then Some left else None
  end.

(** The choices of a variable, one after the other. *)
Fixpoint for_choices (f : nat → dec Z) (choice count : nat) : dec (list Z) :=
  match count with
  | O => mret []
  | S count' => value ← f choice; rest ← for_choices f (S choice) count'; mret (value :: rest)
  end.

Definition remember (key : string) (result : Z) : dec unit :=
  tx_modify (λ m, MkDecisionManager (dm_domains m) (dm_nodes m) (dm_unique m) (<[key := result]> (dm_apply m)) (dm_negation m)).

Fixpoint applyBinary (fuel : nat) (o : operation) (a b : Z) : dec Z :=
  let left := Z.min a b in
  let right := Z.max a b in
  match apply_trivial o left right, fuel with
  | Some result, _ => mret result
  | None, O => tx_fail (Errorf "out of fuel" [])
  | None, S fuel' =>
      manager ← tx_get;
      let key := apply_key (operation_name o) left right in
      match dm_apply manager !! key with
      | Some existing => mret existing
      | None =>
          let variable := Z.min (variable_of manager left) (variable_of manager right) in
          children ← for_choices (λ choice,
              manager ← tx_get;
              applyBinary fuel' o (child_of manager left variable choice) (child_of manager right variable choice))
            0 (length (domain_at manager variable));
          result ← makeNode variable children;
          remember key result ;;
          mret result
      end
  end.

Fixpoint negate (fuel : nat) (value : Z) : dec Z :=
  if value =? decisionFalse then mret decisionTrue
  else if value =? decisionTrue then mret decisionFalse
  else
    match fuel with
    | O => tx_fail (Errorf "out of fuel" [])
    | S fuel' =>
        manager ← tx_get;
        match dm_negation manager !! value with
        | Some existing => mret existing
        | None =>
            let node := node_at manager value in
            children ← for_choices (λ choice, negate fuel' (default decisionFalse (dn_children node !! choice))) 0 (length (dn_children node));
            result ← makeNode (dn_variable node) children;
            tx_modify (λ m, MkDecisionManager (dm_domains m) (dm_nodes m) (dm_unique m) (dm_apply m) (<[value := result]> (dm_negation m))) ;;
            mret result
        end
    end.

(** The recursion descends the variables, of which there is one per domain. *)
Definition apply_fuel (manager : decisionManager) : nat := (2 + length (dm_domains manager))%nat.

Definition and_ (left right : Z) : dec Z := manager ← tx_get; applyBinary (apply_fuel manager) OpAnd left right.
Definition or_ (left right : Z) : dec Z := manager ← tx_get; applyBinary (apply_fuel manager) OpOr left right.
Definition not_ (value : Z) : dec Z := manager ← tx_get; negate (apply_fuel manager) value.

(** ** Activation formulas *)

Definition has_domain (analysis : graphAnalysis) (id : string) : bool :=
  negb (bool_decide (default [] (ga_branchDomains analysis !! id) = [])).

Definition branchIDs (analysis : graphAnalysis) : list string := List.filter (has_domain analysis) (ga_topological analysis).

Definition variables (analysis : graphAnalysis) : gmap string nat := last_indexes (λ id, id) (branchIDs analysis).

Definition domains (analysis : graphAnalysis) : list (list string) :=
  (λ id, default [] (ga_branchDomains analysis !! id)) <$> branchIDs analysis.

Definition domain_unavailable : error := Errorf "branch route domain is unavailable" [].

Definition type_of (analysis : graphAnalysis) (id : string) : string := from_option node_Type "" (ga_nodes analysis !! id).

Definition edge_formula (analysis : graphAnalysis) (activation : gmap string Z) (edge : Edge) : dec Z :=
  let source := default decisionFalse (activation !! edge_Source edge) in
  if bool_decide (type_of analysis (edge_Source edge) = "branch") then
    match variables analysis !! edge_Source edge with
    | None => tx_fail domain_unavailable
    | Some variable =>
        routeFormula ← equal (Z.of_nat variable) (edge_Route edge);
        and_ source routeFormula
    end
  else mret source.

Fixpoint incoming_formula (analysis : graphAnalysis) (activation : gmap string Z) (incoming : list Edge) (formula : Z) : dec Z :=
  match incoming with
  | [] => mret formula
  | edge :: rest =>
      edgeFormula ← edge_formula analysis activation edge;
      formula' ← or_ formula edgeFormula;
      incoming_formula analysis activation rest formula'
  end.

Fixpoint activation_formulas (analysis : graphAnalysis) (topological : list string) (activation : gmap string Z) : dec (gmap string Z) :=
  match topological with
  | [] => mret activation
  | id :: rest =>
      formula ← (if bool_decide (id = ga_start analysis) then mret decisionTrue
                 else incoming_formula analysis activation (edges_at (ga_incoming analysis) id) decisionFalse);
      activation_formulas analysis rest (<[id := formula]> activation)
  end.

(** ** References *)

Definition binding_details (source target : string) : gmap string detail :=
  {["source_node_id" := DetailString source; "target_node_id" := DetailString target]}.

Definition validate_binding (analysis : graphAnalysis) (activation : gmap string Z) (node : Node) (nodeIndex inputIndex : nat) (input : Input)
    : dec (list Diagnostic) :=
  if negb (bool_decide (input_Source input = SourceRef)) then mret [] else
  let location := at_node (node_ID node) (InputPath (node_ID node) nodeIndex (input_Name input) inputIndex) in
  let details := with_details (binding_details (input_RefNode input) (node_ID node)) in
  if negb (isControlUpstream analysis (input_RefNode input) (node_ID node)) then
    mret [details (ErrorDiagnostic PhaseBinding "REF_SOURCE_NOT_CONTROL_UPSTREAM"
                     "referenced output must come from a control-flow upstream node" location)]
  else
    notSource ← not_ (default decisionFalse (activation !! input_RefNode input));
    counterexample ← and_ (default decisionFalse (activation !! node_ID node)) notSource;
    mret (if counterexample =? decisionFalse then []
          else [details (ErrorDiagnostic PhaseBinding "UNSAFE_DATA_BINDING"
                  "target can be active while referenced source is inactive" location)]).

(** The references of the document, in order: node, position, input, position. *)
Definition all_inputs (document : Document) : list (Node * nat * nat * Input) :=
  concat (imap (λ nodeIndex node, imap (λ inputIndex input, (node, nodeIndex, inputIndex, input)) (inputs_of node)) (doc_Nodes document)).

Fixpoint validate_bindings (analysis : graphAnalysis) (activation : gmap string Z) (l : list (Node * nat * nat * Input)) : dec (list Diagnostic) :=
  match l with
  | [] => mret []
  | (node, nodeIndex, inputIndex, input) :: rest =>
      found ← validate_binding analysis activation node nodeIndex inputIndex input;
      others ← validate_bindings analysis activation rest;
      mret (found ++ others)
  end.

Definition binding_diagnostics (document : Document) (analysis : graphAnalysis) : dec (list Diagnostic) :=
  activation ← activation_formulas analysis (ga_topological analysis) ∅;
  validate_bindings analysis activation (all_inputs document).

Definition internal_diagnostic (x : error) : Diagnostic :=
  if bool_decide (x = domain_unavailable) then graphInternalDiagnostic "ACTIVATION_ANALYSIS_FAILED" (error_string x)
  else graphInternalDiagnostic "CONTROL_GRAPH_COMPLEXITY_EXCEEDED" (error_string x).

Definition validateDataBindings (document : Document) (analysis : graphAnalysis) : list Diagnostic :=
  match (binding_diagnostics document analysis (newDecisionManager (domains analysis))).2 with
  | Err x => [internal_diagnostic x]
  | Ok diagnostics => LimitDiagnostics (SortDiagnostics diagnostics)
  end.
