(* ===== verification/DecisionFacts.v ===== *)
(** * Decision diagrams denote what they should

    The manager of Activation.v keeps reduced ordered diagrams: every node
    distinguishes two of its choices, no two nodes are alike, and variables grow
    from a node to its children.  So an identity stands for a set of choices,
    conjunction, disjunction and negation are those of the sets, and two
    identities of one set are equal; the caches and the text keys change
    nothing. *)

From Stdlib Require Import Ascii.
From S2P Require Import Prelude Json Graph Dsl Ir ControlGraph Activation.

Open Scope string_scope.
Open Scope list_scope.
Open Scope Z_scope.

(** ** Keys *)

Definition colonless (s : string) : Prop := string_all (λ a, negb (bool_decide (a = ":"%char))) s = true.

Lemma colonless_pretty_N_go x : ∀ s, colonless s → colonless (pretty_N_go x s).
Proof.
  induction (N.lt_wf_0 x) as [x _ IH]; intros s Hs.
  assert (x = 0 ∨ 0 < x)%N as [->|?] by lia; [by rewrite pretty_N_go_0|].
  rewrite pretty_N_go_step by done. apply IH; [by apply N.div_lt|].
  unfold colonless in *. simpl. rewrite Hs. unfold pretty_N_char. by repeat case_match.
Qed.

Lemma colonless_pretty (z : Z) : colonless (pretty z).
Proof.
  assert (∀ n : N, colonless (pretty n)) as Hn.
  { intros n. unfold pretty, pretty_N. case_decide; [done|]. by apply colonless_pretty_N_go. }
  destruct z as [|p|p]; [done|apply (Hn (N.pos p))|].
  unfold pretty, pretty_Z, colonless. apply (Hn (N.pos p)).
Qed.

Lemma colon_split a b r s : colonless a → colonless b → a +:+ String ":" r = b +:+ String ":" s → a = b ∧ r = s.
Proof.
  unfold colonless. revert b. induction a as [|x a IH]; intros [|y b]; simpl; intros Ha Hb Heq.
  - by simplify_eq.
  - injection Heq as <- _. rewrite bool_decide_eq_true_2 in Hb by done. discriminate Hb.
  - injection Heq as -> _. rewrite bool_decide_eq_true_2 in Ha by done. discriminate Ha.
  - injection Heq as -> Heq. apply andb_true_iff in Ha as [_ Ha], Hb as [_ Hb].
    destruct (IH b Ha Hb Heq) as [-> ->]. done.
Qed.

Lemma colon_end a b r : colonless a → a ≠ b +:+ String ":" r.
Proof.
  unfold colonless. revert b. induction a as [|x a IH]; intros [|y b]; simpl; intros Ha Heq; [done|done|..].
  - injection Heq as -> _. rewrite bool_decide_eq_true_2 in Ha by done. discriminate Ha.
  - injection Heq as _ Heq. apply andb_true_iff in Ha as [_ Ha]. by eapply IH.
Qed.

Lemma decision_key_inj l k : Forall colonless l → Forall colonless k → l ≠ [] → k ≠ [] → decision_key l = decision_key k → l = k.
Proof.
  unfold decision_key. intros Hl. revert k. induction Hl as [|a l Ha Hl IH]; intros k Hk Hln Hkn Heq; [done|].
  destruct Hk as [|b k Hb Hk]; [done|].
  destruct Hl as [|a' l Ha' Hl], Hk as [|b' k Hb' Hk].
  - cbn in Heq. by subst.
  - cbn in Heq. by apply colon_end in Heq.
  - cbn in Heq. symmetry in Heq. by apply colon_end in Heq.
  - change (a +:+ String ":" (String.concat ":" (a' :: l)) = b +:+ String ":" (String.concat ":" (b' :: k))) in Heq.
    apply colon_split in Heq as [-> Heq]; [|done..]. f_equal. apply IH; [by constructor|done..].
Qed.

Lemma node_key_inj v w cs ds : node_key v cs = node_key w ds → v = w ∧ cs = ds.
Proof.
  unfold node_key. intros Heq. apply decision_key_inj in Heq; [|by apply Forall_fmap, Forall_true, colonless_pretty..|done|done].
  apply (inj (fmap (M := list) pretty)) in Heq. by simplify_eq.
Qed.

Lemma apply_key_inj o p a b c d : apply_key (operation_name o) a b = apply_key (operation_name p) c d → o = p ∧ a = c ∧ b = d.
Proof.
  unfold apply_key. intros Heq. apply decision_key_inj in Heq; [|..|done|done].
  - injection Heq as Ho Ha Hb. apply (inj pretty) in Ha, Hb. split; [by destruct o, p|done].
  - by destruct o; repeat constructor; try apply colonless_pretty.
  - by destruct p; repeat constructor; try apply colonless_pretty.
Qed.

(** ** Sets of choices *)

Implicit Types (m : decisionManager) (σ : nat → nat).

(** A choice for every variable, within its domain. *)
Definition chooses (D : list (list string)) σ : Prop := ∀ v d, D !! v = Some d → (σ v < length d)%nat.

(** The choices that [id] stands for. *)
Inductive holds (N : list decisionNode) σ : Z → Prop :=
  | holds_true : holds N σ decisionTrue
  | holds_node id n c : 2 ≤ id → N !! Z.to_nat id = Some n → dn_children n !! σ (Z.to_nat (dn_variable n)) = Some c →
      holds N σ c → holds N σ id.

Definition valid m (id : Z) : Prop := 0 ≤ id < Z.of_nat (length (dm_nodes m)).

Record node_ok m (id : nat) (n : decisionNode) : Prop := {
  no_variable : 0 ≤ dn_variable n < Z.of_nat (length (dm_domains m));
  no_children : length (dn_children n) = length (domain_at m (dn_variable n));
  no_below : ∀ c, c ∈ dn_children n → 0 ≤ c < Z.of_nat id ∧ dn_variable n < variable_of m c;
  no_distinct : ∃ a b, a ∈ dn_children n ∧ b ∈ dn_children n ∧ a ≠ b }.

Definition denotes_op (o : operation) (P Q : Prop) : Prop := match o with OpAnd => P ∧ Q | OpOr => P ∨ Q end.

(** [result] is the operation of [a] and [b], and is no higher. *)
Definition apply_result m (o : operation) (a b result : Z) : Prop :=
  valid m result ∧ Z.min (variable_of m a) (variable_of m b) ≤ variable_of m result ∧
  ∀ σ, chooses (dm_domains m) σ → (holds (dm_nodes m) σ result ↔ denotes_op o (holds (dm_nodes m) σ a) (holds (dm_nodes m) σ b)).

Definition negation_result m (a result : Z) : Prop :=
  valid m result ∧ variable_of m a ≤ variable_of m result ∧
  ∀ σ, chooses (dm_domains m) σ → (holds (dm_nodes m) σ result ↔ ¬ holds (dm_nodes m) σ a).

Record manager_ok m : Prop := {
  mo_terminals : (2 ≤ length (dm_nodes m))%nat;
  mo_size : Z.of_nat (length (dm_nodes m)) ≤ maxActivationDecisionNodes;
  mo_nodes : ∀ id n, (2 ≤ id)%nat → dm_nodes m !! id = Some n → node_ok m id n;
  mo_unique : ∀ id n, (2 ≤ id)%nat → dm_nodes m !! id = Some n → dm_unique m !! node_key (dn_variable n) (dn_children n) = Some (Z.of_nat id);
  mo_found : ∀ key id, dm_unique m !! key = Some id → 2 ≤ id ∧ ∃ n, dm_nodes m !! Z.to_nat id = Some n ∧ key = node_key (dn_variable n) (dn_children n);
  mo_apply : ∀ key result, dm_apply m !! key = Some result → ∃ o a b, key = apply_key (operation_name o) a b ∧ valid m a ∧ valid m b ∧ apply_result m o a b result;
  mo_negation : ∀ a result, dm_negation m !! a = Some result → valid m a ∧ negation_result m a result }.

Lemma manager_ok_new D : manager_ok (newDecisionManager D).
Proof.
  split; cbn.
  - lia.
  - unfold maxActivationDecisionNodes. lia.
  - intros [|[|id]] n ? Hn; [lia|lia|done].
  - intros [|[|id]] n ? Hn; [lia|lia|done].
  - intros key id Hkey. by rewrite lookup_empty in Hkey.
  - intros key id Hkey. by rewrite lookup_empty in Hkey.
  - intros key id Hkey. by rewrite lookup_empty in Hkey.
Qed.

Lemma holds_false N σ : ¬ holds N σ decisionFalse.
Proof. unfold decisionFalse. inversion 1; lia. Qed.

Lemma holds_at m σ id n c : 2 ≤ id → dm_nodes m !! Z.to_nat id = Some n → dn_children n !! σ (Z.to_nat (dn_variable n)) = Some c →
  holds (dm_nodes m) σ id ↔ holds (dm_nodes m) σ c.
Proof.
  intros Hid Hn Hc. split; [|by econstructor].
  inversion 1; subst; [unfold decisionTrue in Hid; lia|]. by simplify_eq.
Qed.

(** ** Structure *)

Lemma node_valid m id : valid m id → 2 ≤ id → ∃ n, dm_nodes m !! Z.to_nat id = Some n ∧ node_at m id = n.
Proof.
  intros [H0 Hlt] H2. destruct (lookup_lt_is_Some_2 (dm_nodes m) (Z.to_nat id)) as [n Hn]; [lia|].
  exists n. split; [done|]. unfold node_at. by rewrite Hn.
Qed.

Lemma variable_terminal m id : id ≤ 1 → variable_of m id = Z.of_nat (length (dm_domains m)) + 1.
Proof. intros Hid. unfold variable_of, decisionTrue. by rewrite (proj2 (Z.leb_le id 1)) by done. Qed.

Lemma variable_node m id n : 2 ≤ id → dm_nodes m !! Z.to_nat id = Some n → variable_of m id = dn_variable n.
Proof.
  intros ? Hn. unfold variable_of, node_at, decisionTrue. rewrite (proj2 (Z.leb_gt id 1)) by lia. by rewrite Hn.
Qed.

(** A terminal or a node with its facts. *)
Lemma valid_cases m id : manager_ok m → valid m id →
  id = decisionFalse ∨ id = decisionTrue ∨
  2 ≤ id ∧ ∃ n, dm_nodes m !! Z.to_nat id = Some n ∧ node_ok m (Z.to_nat id) n ∧ variable_of m id = dn_variable n.
Proof.
  intros Hm Hv. unfold decisionFalse, decisionTrue. destruct (decide (id = 0)) as [->|Hn0]; [by left|].
  destruct (decide (id = 1)) as [->|Hn1]; [by right; left|]. right; right.
  assert (2 ≤ id) as H2 by (unfold valid in Hv; lia). split; [done|].
  destruct (node_valid m id Hv H2) as (n & Hn & _). exists n. split; [done|]. split; [|by apply variable_node].
  apply (mo_nodes m Hm); [lia|done].
Qed.

Lemma variable_range m id : manager_ok m → valid m id → 0 ≤ variable_of m id ≤ Z.of_nat (length (dm_domains m)) + 1.
Proof.
  intros Hm Hv. destruct (valid_cases m id Hm Hv) as [->|[->|(H2 & n & Hn & Hok & ->)]].
  - rewrite variable_terminal by (unfold decisionFalse; lia). lia.
  - rewrite variable_terminal by (unfold decisionTrue; lia). lia.
  - pose proof (no_variable _ _ _ Hok). lia.
Qed.

(** The child of [id] at [choice] when the diagram is cut at [variable]. *)
Lemma child_node m id n variable choice c : 2 ≤ id → dm_nodes m !! Z.to_nat id = Some n → dn_variable n = variable →
  dn_children n !! choice = Some c → child_of m id variable choice = c.
Proof.
  intros H2 Hn Hv Hc. unfold child_of, node_at, decisionTrue. rewrite (proj2 (Z.leb_gt id 1)) by lia.
  rewrite Hn. cbn. rewrite Hv, Z.eqb_refl. cbn. by rewrite Hc.
Qed.

Lemma child_other m id variable choice : variable ≠ variable_of m id → variable ≤ Z.of_nat (length (dm_domains m)) → child_of m id variable choice = id.
Proof.
  intros Hv Hd. unfold child_of. unfold variable_of in Hv. destruct (id <=? decisionTrue); [done|].
  rewrite (proj2 (Z.eqb_neq _ _)) by congruence. done.
Qed.

Lemma choices_length m (variable : nat) σ : chooses (dm_domains m) σ → (variable < length (dm_domains m))%nat →
  (σ variable < length (domain_at m (Z.of_nat variable)))%nat.
Proof.
  intros Hσ [d Hd]%lookup_lt_is_Some_2. unfold domain_at. rewrite Nat2Z.id, Hd. cbn. by apply Hσ.
Qed.

(** Cutting at a variable that is not above the diagram. *)
Lemma child_spec m id (variable : nat) choice : manager_ok m → valid m id → (variable < length (dm_domains m))%nat →
  Z.of_nat variable ≤ variable_of m id → (choice < length (domain_at m (Z.of_nat variable)))%nat →
  let c := child_of m id (Z.of_nat variable) choice in
  valid m c ∧ Z.of_nat variable < variable_of m c ∧ c ≤ id ∧ (variable_of m id = Z.of_nat variable → c < id) ∧
  ∀ σ, σ variable = choice → (holds (dm_nodes m) σ id ↔ holds (dm_nodes m) σ c).
Proof.
  intros Hm Hv Hvar Hle Hch. cbn.
  destruct (decide (variable_of m id = Z.of_nat variable)) as [Heq|Hne].
  - destruct (valid_cases m id Hm Hv) as [->|[->|(H2 & n & Hn & Hok & Hvn)]].
    + rewrite variable_terminal in Heq by (unfold decisionFalse; lia). lia.
    + rewrite variable_terminal in Heq by (unfold decisionTrue; lia). lia.
    + assert (dn_variable n = Z.of_nat variable) as Hdv by congruence.
      destruct (lookup_lt_is_Some_2 (dn_children n) choice) as [c Hc].
      { rewrite (no_children _ _ _ Hok), Hdv. done. }
      rewrite (child_node m id n _ choice c) by done.
      destruct (no_below _ _ _ Hok c) as [Hc1 Hc2]; [by eapply list_elem_of_lookup_2|].
      destruct Hv. do 4 (split; [unfold valid; lia|]).
      intros σ Hσ. apply (holds_at m σ id n c); [done..|]. by rewrite Hdv, Nat2Z.id, Hσ.
  - rewrite child_other by (congruence || lia). split; [done|]. split; [lia|]. split; [done|]. split; [done|]. done.
Qed.

Lemma holds_dec m σ id : manager_ok m → valid m id → holds (dm_nodes m) σ id ∨ ¬ holds (dm_nodes m) σ id.
Proof.
  intros Hm. remember (Z.to_nat id) as k eqn:Hk. revert id Hk. induction (lt_wf k) as [k _ IH]. intros id Hk Hv.
  destruct (valid_cases m id Hm Hv) as [->|[->|(H2 & n & Hn & Hok & _)]]; [right; apply holds_false|left; constructor|].
  destruct (dn_children n !! σ (Z.to_nat (dn_variable n))) as [c|] eqn:Hc.
  - destruct (no_below _ _ _ Hok c) as [Hb _]; [by eapply list_elem_of_lookup_2|]. rewrite (holds_at m σ id n c) by done.
    apply (IH (Z.to_nat c)); [lia|done|]. unfold valid in *. lia.
  - right. inversion 1; subst; [unfold decisionTrue in H2; lia|]. congruence.
Qed.

(** Only the variables from that of [id] on matter. *)
Lemma holds_agree m id σ τ : manager_ok m → valid m id → (∀ v : nat, variable_of m id ≤ Z.of_nat v → σ v = τ v) →
  holds (dm_nodes m) σ id → holds (dm_nodes m) τ id.
Proof.
  intros Hm Hv Hagree Hh. induction Hh as [|id n c H2 Hn Hc Hh IH]; [constructor|].
  pose proof (mo_nodes m Hm (Z.to_nat id) n ltac:(lia) Hn) as Hok.
  pose proof (variable_node m id n H2 Hn) as Hvar.
  destruct (no_below _ _ _ Hok c) as [Hb1 Hb2]; [by eapply list_elem_of_lookup_2|].
  destruct (no_variable _ _ _ Hok) as [Hv0 Hv1].
  econstructor; [done..| |apply IH].
  - rewrite <-Hagree by (rewrite Hvar; lia). done.
  - unfold valid in *. lia.
  - intros v Hle. apply Hagree. lia.
Qed.

Lemma holds_agree_iff m id σ τ : manager_ok m → valid m id → (∀ v : nat, variable_of m id ≤ Z.of_nat v → σ v = τ v) →
  holds (dm_nodes m) σ id ↔ holds (dm_nodes m) τ id.
Proof. intros ??. split; apply holds_agree; [done..|]. symmetry. eauto. Qed.

Definition choose_at (variable choice : nat) σ : nat → nat := λ v, if decide (v = variable) then choice else σ v.

Lemma chooses_at D variable choice σ : chooses D σ → (∀ d, D !! variable = Some d → (choice < length d)%nat) → chooses D (choose_at variable choice σ).
Proof. intros Hσ Hc v d Hd. unfold choose_at. case_decide; subst; eauto. Qed.

(** Cutting two diagrams of one set at the same choice. *)
Lemma same_children m a b (variable choice : nat) : manager_ok m → valid m a → valid m b → (variable < length (dm_domains m))%nat →
  Z.of_nat variable ≤ variable_of m a → Z.of_nat variable ≤ variable_of m b → (choice < length (domain_at m (Z.of_nat variable)))%nat →
  (∀ σ, chooses (dm_domains m) σ → (holds (dm_nodes m) σ a ↔ holds (dm_nodes m) σ b)) →
  ∀ σ, chooses (dm_domains m) σ →
    (holds (dm_nodes m) σ (child_of m a (Z.of_nat variable) choice) ↔ holds (dm_nodes m) σ (child_of m b (Z.of_nat variable) choice)).
Proof.
  intros Hm Ha Hb Hvar Hla Hlb Hch Heq σ Hσ.
  destruct (child_spec m a variable choice Hm Ha Hvar Hla Hch) as (Hva & Hca & _ & _ & Hsa).
  destruct (child_spec m b variable choice Hm Hb Hvar Hlb Hch) as (Hvb & Hcb & _ & _ & Hsb).
  assert (∀ c, valid m c → Z.of_nat variable < variable_of m c →
    holds (dm_nodes m) σ c ↔ holds (dm_nodes m) (choose_at variable choice σ) c) as Hindep.
  { intros c Hc Hcv. apply holds_agree_iff; [done..|]. intros v Hv. unfold choose_at. rewrite decide_False; [done|lia]. }
  rewrite (Hindep _ Hva Hca), (Hindep _ Hvb Hcb). rewrite <-Hsa, <-Hsb by (unfold choose_at; by rewrite decide_True).
  apply Heq. apply chooses_at; [done|]. intros d Hd. unfold domain_at in Hch. rewrite Nat2Z.id, Hd in Hch. done.
Qed.

(** ** Canonicity *)

Definition same_set m (a b : Z) : Prop := ∀ σ, chooses (dm_domains m) σ → (holds (dm_nodes m) σ a ↔ holds (dm_nodes m) σ b).

Lemma chooses_inhabited m : (∀ d, d ∈ dm_domains m → d ≠ []) → chooses (dm_domains m) (λ _, 0%nat).
Proof. intros Hne v d Hd. pose proof (Hne d ltac:(by eapply list_elem_of_lookup_2)). destruct d; [done|simpl; lia]. Qed.

(** A node whose set does not depend on its own variable does not exist. *)
Lemma no_redundant m a (b : Z) n : manager_ok m → valid m a → 2 ≤ a → dm_nodes m !! Z.to_nat a = Some n →
  (∀ c, c ∈ dn_children n → c = b) → False.
Proof.
  intros Hm Hv H2 Hn Hall. pose proof (mo_nodes m Hm (Z.to_nat a) n ltac:(lia) Hn) as Hok.
  destruct (no_distinct _ _ _ Hok) as (x & y & Hx & Hy & Hne). apply Hne. by rewrite (Hall x Hx), (Hall y Hy).
Qed.

Lemma same_node m a b n k : manager_ok m → 2 ≤ a → 2 ≤ b → dm_nodes m !! Z.to_nat a = Some n → dm_nodes m !! Z.to_nat b = Some k →
  dn_variable n = dn_variable k → dn_children n = dn_children k → a = b.
Proof.
  intros Hm Ha Hb Hn Hk Hv Hc.
  pose proof (mo_unique m Hm (Z.to_nat a) n ltac:(lia) Hn) as Hua. pose proof (mo_unique m Hm (Z.to_nat b) k ltac:(lia) Hk) as Hub.
  rewrite Hv, Hc in Hua. simplify_eq. lia.
Qed.

(** One of the two is cut at its own variable and gets smaller. *)
Lemma canonical_cut m a b : manager_ok m → valid m a → valid m b → variable_of m a ≤ variable_of m b → 2 ≤ a → same_set m a b →
  (∀ a' b', valid m a' → valid m b' → a' + b' < a + b → same_set m a' b' → a' = b') → a = b.
Proof.
  intros Hm Ha Hb Hle H2 Heq IH.
  destruct (valid_cases m a Hm Ha) as [->|[->|(_ & n & Hn & Hok & Hva)]]; [unfold decisionFalse in H2; lia|unfold decisionTrue in H2; lia|].
  destruct (no_variable _ _ _ Hok) as [Hv0 Hv1]. pose proof (no_children _ _ _ Hok) as Hlen.
  set (v := Z.to_nat (dn_variable n)). assert (Z.of_nat v = dn_variable n) as Hv by lia.
  assert (∀ i c, dn_children n !! i = Some c → child_of m a (Z.of_nat v) i = c) as Hca.
  { intros i c Hc. apply (child_node m a n); [done|done|by rewrite Hv|done]. }
  assert (∀ i c, dn_children n !! i = Some c → c = child_of m b (Z.of_nat v) i) as Hcut.
  { intros i c Hc. assert (i < length (domain_at m (Z.of_nat v)))%nat as Hi by (rewrite Hv, <-Hlen; by eapply lookup_lt_Some).
    rewrite <-(Hca i c Hc).
    destruct (child_spec m a v i Hm Ha) as (Hv1' & _ & _ & Hless & _); [lia|lia|done|].
    destruct (child_spec m b v i Hm Hb) as (Hv2' & _ & Hleb & _); [lia|lia|done|].
    apply IH; [done|done| |].
    - pose proof (Hless ltac:(lia)). lia.
    - intros σ Hσ. apply (same_children m a b v i); [done|done|done|lia|lia|lia|done|done|done]. }
  destruct (decide (variable_of m b = dn_variable n)) as [Hvb|Hvb].
  - destruct (valid_cases m b Hm Hb) as [->|[->|(H2b & k & Hk & Hokb & Hvkb)]].
    + rewrite variable_terminal in Hvb by (unfold decisionFalse; lia). lia.
    + rewrite variable_terminal in Hvb by (unfold decisionTrue; lia). lia.
    + assert (dn_variable n = dn_variable k) as Hnk by congruence.
      apply (same_node m a b n k); [done..|]. apply list_eq_same_length with (n := length (dn_children n)); [|done|].
      { rewrite Hlen, (no_children _ _ _ Hokb), Hnk. done. }
      intros i x y _ Hx Hy. rewrite (Hcut i x Hx). apply (child_node m b k); [done|done|by rewrite Hv|done].
  - exfalso. apply (no_redundant m a b n Hm Ha H2 Hn). intros c [i Hi]%list_elem_of_lookup.
    rewrite (Hcut i c Hi). apply child_other; [congruence|lia].
Qed.

Lemma canonical m a b : manager_ok m → (∀ d, d ∈ dm_domains m → d ≠ []) → valid m a → valid m b → same_set m a b → a = b.
Proof.
  intros Hm Hne. remember (Z.to_nat (a + b)) as k eqn:Hk. revert a b Hk.
  induction (lt_wf k) as [k _ IH]; intros a b Hk Ha Hb Heq.
  assert (∀ a' b', valid m a' → valid m b' → a' + b' < a + b → same_set m a' b' → a' = b') as IH'.
  { intros a' b' Ha' Hb' Hlt. apply (IH (Z.to_nat (a' + b'))); [|done..]. unfold valid in *. lia. }
  assert (same_set m b a) as Heq' by (intros σ Hσ; symmetry; by apply Heq).
  destruct (decide (2 ≤ a)) as [H2a|H2a], (decide (2 ≤ b)) as [H2b|H2b].
  - destruct (decide (variable_of m a ≤ variable_of m b)); [by apply (canonical_cut m)|].
    symmetry. apply (canonical_cut m); [done|done|done|lia|done|done|].
    intros a' b' Ha' Hb' Hlt. apply IH'; [done|done|lia].
  - apply (canonical_cut m); [done|done|done| |done|done|done]. rewrite (variable_terminal m b) by lia. by apply (variable_range m a Hm Ha).
  - symmetry. apply (canonical_cut m); [done|done|done| |done|done|].
    + rewrite (variable_terminal m a) by lia. by apply (variable_range m b Hm Hb).
    + intros a' b' Ha' Hb' Hlt. apply IH'; [done|done|lia].
  - pose proof (Heq _ (chooses_inhabited m Hne)) as H01. unfold valid in Ha, Hb.
    assert ((a = 0 ∨ a = 1) ∧ (b = 0 ∨ b = 1)) as [[->| ->] [->| ->]] by lia; [done| | |done].
    + exfalso. eapply holds_false. apply H01. constructor.
    + exfalso. eapply holds_false. apply H01. constructor.
Qed.

(** ** Growth *)

Definition extends m m' : Prop := dm_domains m' = dm_domains m ∧ ∃ l, dm_nodes m' = dm_nodes m ++ l.

#[export] Instance extends_preorder : PreOrder extends.
Proof.
  split.
  - intros m. split; [done|]. exists []. by rewrite app_nil_r.
  - intros m1 m2 m3 [Hd [l Hl]] [Hd' [l' Hl']]. split; [congruence|]. exists (l ++ l'). by rewrite Hl', Hl, app_assoc.
Qed.

Section Extends.
Context (m m' : decisionManager) (Hok : manager_ok m) (Hext : extends m m').

Lemma extends_valid id : valid m id → valid m' id.
Proof using Hext. destruct Hext as [_ [l Hl]]. unfold valid. rewrite Hl, length_app. lia. Qed.

Lemma extends_lookup id : valid m id → dm_nodes m' !! Z.to_nat id = dm_nodes m !! Z.to_nat id.
Proof using Hext. destruct Hext as [_ [l Hl]]. intros [? ?]. rewrite Hl. apply lookup_app_l. lia. Qed.

Lemma extends_domain v : domain_at m' v = domain_at m v.
Proof using Hext. destruct Hext as [Hd _]. unfold domain_at. by rewrite Hd. Qed.

Lemma extends_variable id : valid m id → variable_of m' id = variable_of m id.
Proof using Hext. intros Hv. unfold variable_of, node_at. by rewrite extends_lookup, (proj1 Hext). Qed.

Lemma extends_child id v choice : valid m id → child_of m' id v choice = child_of m id v choice.
Proof using Hext. intros Hv. unfold child_of, node_at. by rewrite extends_lookup. Qed.

Lemma extends_holds σ id : valid m id → holds (dm_nodes m') σ id ↔ holds (dm_nodes m) σ id.
Proof using Hok Hext.
  intros Hv. split; intros Hh; revert Hv.
  - induction Hh as [|id n c H2 Hn Hc Hh IH]; intros Hv; [constructor|]. rewrite extends_lookup in Hn by done.
    pose proof (mo_nodes m Hok (Z.to_nat id) n ltac:(lia) Hn) as Hnode.
    destruct (no_below _ _ _ Hnode c) as [Hb _]; [by eapply list_elem_of_lookup_2|].
    econstructor; [done..|]. apply IH. unfold valid in *. lia.
  - induction Hh as [|id n c H2 Hn Hc Hh IH]; intros Hv; [constructor|].
    pose proof (mo_nodes m Hok (Z.to_nat id) n ltac:(lia) Hn) as Hnode.
    destruct (no_below _ _ _ Hnode c) as [Hb _]; [by eapply list_elem_of_lookup_2|].
    econstructor; [done|by rewrite extends_lookup|done|]. apply IH. unfold valid in *. lia.
Qed.

Lemma extends_node_ok id n : (id < length (dm_nodes m))%nat → node_ok m id n → node_ok m' id n.
Proof using Hext.
  intros Hid [H1 H2 H3 H4]. split; [by rewrite (proj1 Hext)|by rewrite extends_domain| |done].
  intros c Hc. rewrite extends_variable; [by apply H3|]. destruct (H3 c Hc). unfold valid. lia.
Qed.

Lemma extends_apply_result o a b r : valid m a → valid m b → apply_result m o a b r → apply_result m' o a b r.
Proof using Hok Hext.
  intros Ha Hb (Hv & Hvar & Hh). split; [by apply extends_valid|]. rewrite !extends_variable by done. split; [done|].
  intros σ Hσ. rewrite (proj1 Hext) in Hσ. specialize (Hh σ Hσ). destruct o; cbn in *; by rewrite !extends_holds.
Qed.

Lemma extends_negation_result a r : valid m a → negation_result m a r → negation_result m' a r.
Proof using Hok Hext.
  intros Ha (Hv & Hvar & Hh). split; [by apply extends_valid|]. rewrite !extends_variable by done. split; [done|].
  intros σ Hσ. rewrite (proj1 Hext) in Hσ. rewrite !extends_holds by done. by apply Hh.
Qed.
End Extends.

(** ** What an operation does *)

Definition too_large : error := Errorf "activation decision graph exceeds %d nodes" [pretty maxActivationDecisionNodes].

(** From a good manager the operation gives a good one that has grown, and a
    result as [Q] says, unless the diagram has become too large. *)
Definition runs {A} m (op : dec A) (Q : decisionManager → A → Prop) : Prop :=
  manager_ok (op m).1 ∧ extends m (op m).1 ∧
  match (op m).2 with
  | Ok a => Q (op m).1 a
  | Err x => x = too_large ∧ maxActivationDecisionNodes ≤ Z.of_nat (length (dm_nodes (op m).1))
  end.

Lemma runs_ret {A} m (a : A) (Q : decisionManager → A → Prop) : manager_ok m → Q m a → runs m (mret a) Q.
Proof. intros Hm HQ. split; [done|]. split; [apply extends_preorder|done]. Qed.

Lemma runs_bind {A B} m (op : dec A) (f : A → dec B) (P : decisionManager → A → Prop) (Q : decisionManager → B → Prop) :
  runs m op P → (∀ m1 a, manager_ok m1 → extends m m1 → P m1 a → runs m1 (f a) Q) → runs m (op ≫= f) Q.
Proof.
  intros (Hok & Hext & Hr) Hf. unfold runs, mbind, tx_bind in *. destruct (op m) as [m1 [a|x]]; cbn in *; [|done].
  destruct (Hf m1 a Hok Hext Hr) as (Hok' & Hext' & Hr'). split; [done|]. split; [by etrans|done].
Qed.

Lemma runs_get {B} m (f : decisionManager → dec B) (Q : decisionManager → B → Prop) : runs m (f m) Q → runs m (tx_get ≫= f) Q.
Proof. done. Qed.

Lemma runs_weaken {A} m (op : dec A) (P Q : decisionManager → A → Prop) :
  runs m op P → (∀ m1 a, manager_ok m1 → extends m m1 → P m1 a → Q m1 a) → runs m op Q.
Proof. intros (Hok & Hext & Hr) HQ. split; [done|]. split; [done|]. destruct ((op m).2); [by apply HQ|done]. Qed.

(** ** Nodes *)

Record children_ok m (v : Z) (children : list Z) : Prop := {
  ck_variable : 0 ≤ v < Z.of_nat (length (dm_domains m));
  ck_length : length children = length (domain_at m v);
  ck_below : ∀ c, c ∈ children → valid m c ∧ v < variable_of m c }.

(** The set of a choice among the children. *)
Definition chosen m (v : Z) (children : list Z) σ : Prop := ∃ c, children !! σ (Z.to_nat v) = Some c ∧ holds (dm_nodes m) σ c.

Definition node_result m (v : Z) (children : list Z) (r : Z) : Prop :=
  valid m r ∧ v ≤ variable_of m r ∧ ∀ σ, chooses (dm_domains m) σ → (holds (dm_nodes m) σ r ↔ chosen m v children σ).

Definition add_node m (v : Z) (children : list Z) : decisionManager :=
  MkDecisionManager (dm_domains m) (dm_nodes m ++ [MkDecisionNode v children])
    (<[node_key v children := Z.of_nat (length (dm_nodes m))]> (dm_unique m)) (dm_apply m) (dm_negation m).

Lemma extends_add_node m v children : extends m (add_node m v children).
Proof. split; [done|]. by eexists. Qed.

Lemma add_node_lookup m v children id n : dm_nodes (add_node m v children) !! id = Some n →
  (id < length (dm_nodes m))%nat ∧ dm_nodes m !! id = Some n ∨ id = length (dm_nodes m) ∧ n = MkDecisionNode v children.
Proof.
  cbn. intros [Hn|[Hlen Hn]]%lookup_app_Some.
  - left. split; [by eapply lookup_lt_Some|done].
  - right. destruct (id - length (dm_nodes m))%nat eqn:Hd; [|done]. injection Hn as <-. split; [lia|done].
Qed.

Lemma add_node_ok m v children : manager_ok m → children_ok m v children → (∃ a b, a ∈ children ∧ b ∈ children ∧ a ≠ b) →
  dm_unique m !! node_key v children = None → Z.of_nat (length (dm_nodes m)) < maxActivationDecisionNodes →
  manager_ok (add_node m v children).
Proof.
  intros Hm Hck Hdist Hnone Hsize. pose proof (extends_add_node m v children) as Hext. pose proof (mo_terminals m Hm) as H2.
  split.
  - cbn. rewrite length_app. cbn. lia.
  - cbn. rewrite length_app. cbn. lia.
  - intros id n Hid [[Hlt Hn]|[-> ->]]%add_node_lookup.
    + apply (extends_node_ok m _ Hext); [done|]. by apply (mo_nodes m Hm).
    + destruct Hck as [Hv Hlen Hbelow]. split; [done..| |done]. intros c Hc. destruct (Hbelow c Hc) as [Hvc Hcv].
      rewrite (extends_variable m _ Hext) by done. cbn. unfold valid in Hvc. lia.
  - intros id n Hid [[Hlt Hn]|[-> ->]]%add_node_lookup; cbn -[node_key]; [|by rewrite lookup_insert_eq].
    pose proof (mo_unique m Hm id n Hid Hn) as Hu. rewrite lookup_insert_ne; [done|]. intros Heq. by rewrite Heq, Hu in Hnone.
  - cbn -[node_key]. intros key id [[<- <-]|[Hne Hkey]]%lookup_insert_Some.
    + split; [lia|]. eexists. rewrite Nat2Z.id, lookup_app_r, Nat.sub_diag by lia. done.
    + destruct (mo_found m Hm key id Hkey) as (Hid & n & Hn & Hk). split; [done|]. exists n.
      split; [by apply lookup_app_l_Some|done].
  - intros key r Hr. destruct (mo_apply m Hm key r Hr) as (o & a & b & Hk & Ha & Hb & Hres). exists o, a, b.
    split; [done|]. split; [by apply (extends_valid m)|]. split; [by apply (extends_valid m)|]. by apply (extends_apply_result m).
  - intros a r Hr. destruct (mo_negation m Hm a r Hr) as [Ha Hres]. split; [by apply (extends_valid m)|]. by apply (extends_negation_result m).
Qed.

Lemma chosen_extends m m' v children σ : manager_ok m → extends m m' → (∀ c, c ∈ children → valid m c) →
  chosen m' v children σ ↔ chosen m v children σ.
Proof.
  intros Hm Hext Hv. unfold chosen. split; intros (c & Hc & Hh); exists c; (split; [done|]);
    apply (extends_holds m m' Hm Hext); try done; apply Hv; by eapply list_elem_of_lookup_2.
Qed.

Lemma stored_result m v children id n : manager_ok m → 2 ≤ id → dm_nodes m !! Z.to_nat id = Some n →
  n = MkDecisionNode v children → node_result m v children id.
Proof.
  intros Hm Hid Hn ->. pose proof (mo_nodes m Hm (Z.to_nat id) _ ltac:(lia) Hn) as Hok. split.
  { apply lookup_lt_Some in Hn. unfold valid. lia. }
  split; [by rewrite (variable_node m id _ Hid Hn)|]. intros σ Hσ. cbn. split.
  - inversion 1; subst; [unfold decisionTrue in Hid; lia|]. simplify_eq. by exists c.
  - intros (c & Hc & Hh). by econstructor.
Qed.

Lemma same_result m v first rest : manager_ok m → children_ok m v (first :: rest) → (∀ c, c ∈ rest → c = first) →
  node_result m v (first :: rest) first.
Proof.
  intros Hm [Hv Hlen Hbelow] Hsame. destruct (Hbelow first ltac:(left)) as [Hvf Hlt]. split; [done|]. split; [lia|].
  assert (∀ c, c ∈ first :: rest → c = first) as Hall by (intros c [->|Hc]%elem_of_cons; [done|by apply Hsame]).
  intros σ Hσ. split.
  - intros Hh. destruct (lookup_lt_is_Some_2 (first :: rest) (σ (Z.to_nat v))) as [c Hc].
    { rewrite Hlen. replace v with (Z.of_nat (Z.to_nat v)) at 2 by lia. apply choices_length; [done|lia]. }
    exists c. split; [done|]. rewrite (Hall c); [done|]. by eapply list_elem_of_lookup_2.
  - intros (c & Hc & Hh). by rewrite <-(Hall c ltac:(by eapply list_elem_of_lookup_2)).
Qed.

Lemma makeNode_runs m v children : manager_ok m → children_ok m v children → children ≠ [] →
  runs m (makeNode v children) (λ m' r, node_result m' v children r).
Proof.
  intros Hm Hck Hne. destruct children as [|first rest]; [done|]. unfold makeNode.
  destruct (forallb _ rest) eqn:Hsame.
  { apply runs_ret; [done|]. apply same_result; [done..|]. intros c Hc.
    rewrite forallb_forall in Hsame. apply Z.eqb_eq, Hsame, list_elem_of_In, Hc. }
  apply runs_get. destruct (dm_unique m !! _) as [existing|] eqn:Hu.
  { apply runs_ret; [done|]. destruct (mo_found m Hm _ _ Hu) as (Hid & n & Hn & Hk). apply node_key_inj in Hk as [Hv Hc].
    eapply stored_result; [done..|]. destruct n. cbn in *. congruence. }
  unfold runs, tx_lift, guard_err, mbind, tx_bind. destruct (maxActivationDecisionNodes <=? _) eqn:Hsize; cbn.
  { split; [done|]. split; [apply extends_preorder|]. split; [done|]. by apply Z.leb_le. }
  apply Z.leb_gt in Hsize. unfold tx_modify. cbn.
  assert (u32 (Z.of_nat (length (dm_nodes m))) = Z.of_nat (length (dm_nodes m))) as ->.
  { apply u32_small. unfold maxActivationDecisionNodes in Hsize. lia. }
  pose proof (extends_add_node m v (first :: rest)) as Hext.
  assert (manager_ok (add_node m v (first :: rest))) as Hok.
  { apply add_node_ok; [done..| |done|done]. exists first.
    assert (∃ c, c ∈ rest ∧ c ≠ first) as (c & Hc & Hcf).
    { rewrite <-not_true_iff_false, forallb_forall in Hsame. clear -Hsame. induction rest as [|x rest IH]; [by exfalso; apply Hsame|].
      destruct (decide (x = first)) as [->|]; [|exists x; split; [left|done]]. destruct IH as (c & Hc & Hcf).
      - intros Hall. apply Hsame. intros y [<-|Hy]; [apply Z.eqb_refl|by apply Hall].
      - exists c. split; [by right|done]. }
    exists c. split; [left|]. split; [by right|congruence]. }
  split; [done|]. split; [done|]. eapply stored_result; [done| | |done].
  - pose proof (mo_terminals m Hm). lia.
  - cbn. rewrite Nat2Z.id, lookup_app_r, Nat.sub_diag by lia. done.
Qed.

(** ** Loops over the choices *)

Lemma for_choices_runs m (f : nat → dec Z) (P : decisionManager → nat → Z → Prop) choice count :
  manager_ok m →
  (∀ m1 i, manager_ok m1 → extends m m1 → (choice ≤ i < choice + count)%nat → runs m1 (f i) (λ m2 r, P m2 i r)) →
  (∀ m1 m2 i r, manager_ok m1 → extends m1 m2 → P m1 i r → P m2 i r) →
  runs m (for_choices f choice count) (λ m' rs, length rs = count ∧ ∀ i r, rs !! i = Some r → P m' (choice + i)%nat r).
Proof.
  intros Hm Hf Hstable. revert m choice Hm Hf. induction count as [|count IH]; intros m choice Hm Hf; cbn.
  { apply runs_ret; [done|]. split; [done|]. intros i r Hi. done. }
  eapply runs_bind; [apply Hf; [done|apply extends_preorder|lia]|]. intros m1 value Hm1 Hext1 HP.
  eapply runs_bind; [apply IH; [done|]|].
  { intros m2 i Hm2 Hext2 Hi. apply Hf; [done|by etrans|lia]. }
  intros m2 rest Hm2 Hext2 [Hlen Hrest]. apply runs_ret; [done|]. split; [cbn; lia|].
  intros [|i] r Hi; cbn in Hi.
  - injection Hi as <-. rewrite Nat.add_0_r. by eapply Hstable; [exact Hm1|done|].
  - replace (choice + S i)%nat with (S choice + i)%nat by lia. by apply Hrest.
Qed.

(** ** Conjunction and disjunction *)

Lemma apply_result_swap m o a b r : apply_result m o (Z.min a b) (Z.max a b) r → apply_result m o a b r.
Proof.
  destruct (Z.le_ge_cases a b).
  - by rewrite Z.min_l, Z.max_r.
  - rewrite Z.min_r, Z.max_l by done. intros (Hv & Hvar & Hh). split; [done|]. split; [lia|].
    intros σ Hσ. rewrite (Hh σ Hσ). destruct o; cbn; tauto.
Qed.

Lemma trivial_result m o a b r : manager_ok m → valid m a → valid m b → a ≤ b → apply_trivial o a b = Some r → apply_result m o a b r.
Proof.
  intros Hm Ha Hb Hle Htr. unfold apply_trivial in Htr.
  pose proof (variable_range m a Hm Ha). pose proof (variable_range m b Hm Hb).
  assert (∀ σ, ¬ holds (dm_nodes m) σ decisionFalse) as Hf by (intros; apply holds_false).
  assert (∀ σ, holds (dm_nodes m) σ decisionTrue) as Ht by (intros; constructor).
  assert (∀ z, z ≤ 1 → variable_of m z = Z.of_nat (length (dm_domains m)) + 1) as Hterm by apply variable_terminal.
  destruct o; repeat case_match; simplify_eq; unfold apply_result; cbn [denotes_op];
    repeat match goal with
    | H : (_ || _) = true |- _ => apply orb_true_iff in H as [H|H]
    | H : (_ =? _) = true |- _ => apply Z.eqb_eq in H; subst
    end;
    (split; [done|]); (split; [rewrite ?Hterm by (unfold decisionFalse, decisionTrue; lia); lia|]); intros σ Hσ;
    specialize (Hf σ); specialize (Ht σ); tauto.
Qed.

Lemma trivial_none o a b : apply_trivial o a b = None → 0 ≤ a → a ≤ b → 2 ≤ a ∧ 2 ≤ b.
Proof.
  unfold apply_trivial, decisionFalse, decisionTrue. intros Htr H0 Hle.
  destruct o; repeat case_match; simplify_eq;
    repeat match goal with
    | H : (_ || _) = false |- _ => apply orb_false_iff in H as [? ?]
    | H : (_ =? _) = false |- _ => apply Z.eqb_neq in H
    end; lia.
Qed.

Lemma remember_runs m o a b r : manager_ok m → valid m a → valid m b → apply_result m o a b r →
  runs m (remember (apply_key (operation_name o) a b) r) (λ _ _, True).
Proof.
  intros Hm Ha Hb Hr. split; [|split; [|done]].
  - destruct Hm as [H1 H2 H3 H4 H5 H6 H7]. unfold remember, tx_modify. cbn -[apply_key]. split; cbn -[apply_key]; [done|done| |done|done| |done].
    + intros id n Hid Hn. by destruct (H3 id n Hid Hn).
    + intros key res [[<- <-]|[Hne Hkey]]%lookup_insert_Some; [by exists o, a, b|by apply H6].
  - split; [done|]. exists []. by rewrite app_nil_r.
Qed.

(** How far a diagram is from its leaves. *)
Definition depth m (id : Z) : Z := Z.of_nat (length (dm_domains m)) + 1 - variable_of m id.

(** What the children computed at every choice are. *)
Definition cut_result m o (a b : Z) (variable : Z) (i : nat) (r : Z) : Prop :=
  valid m a ∧ valid m b ∧ apply_result m o (child_of m a variable i) (child_of m b variable i) r.

(** The level that an operation on two nodes is cut at. *)
Lemma level_spec m a b : manager_ok m → valid m a → valid m b → 2 ≤ a → 2 ≤ b →
  ∃ v : nat, Z.min (variable_of m a) (variable_of m b) = Z.of_nat v ∧ (v < length (dm_domains m))%nat ∧ domain_at m (Z.of_nat v) ≠ [].
Proof.
  intros Hm Ha Hb H2a H2b.
  assert (∀ c, valid m c → 2 ≤ c → 0 ≤ variable_of m c < Z.of_nat (length (dm_domains m)) ∧ domain_at m (variable_of m c) ≠ []) as Hlevel.
  { intros c Hc H2. destruct (valid_cases m c Hm Hc) as [->|[->|(_ & n & Hn & Hok & ->)]];
      [unfold decisionFalse in H2; lia|unfold decisionTrue in H2; lia|].
    pose proof (no_variable _ _ _ Hok). split; [lia|]. destruct (no_distinct _ _ _ Hok) as (x & _ & Hx & _).
    pose proof (no_children _ _ _ Hok) as Hlen. destruct (domain_at m (dn_variable n)); [|done].
    destruct (dn_children n); [by apply not_elem_of_nil in Hx|done]. }
  destruct (Hlevel a Ha H2a) as [Hra Hda], (Hlevel b Hb H2b) as [Hrb Hdb].
  exists (Z.to_nat (Z.min (variable_of m a) (variable_of m b))).
  rewrite Z2Nat.id by lia. split; [done|]. split; [lia|]. by destruct (Z.min_spec (variable_of m a) (variable_of m b)) as [[_ ->]|[_ ->]].
Qed.

(** The children at the level, put together. *)
Lemma combine_result m m' o a b (v : nat) children r : manager_ok m → extends m m' → valid m a → valid m b →
  Z.min (variable_of m a) (variable_of m b) = Z.of_nat v → (v < length (dm_domains m))%nat → manager_ok m' →
  (∀ i c, children !! i = Some c → cut_result m' o a b (Z.of_nat v) i c) → length children = length (domain_at m (Z.of_nat v)) →
  node_result m' (Z.of_nat v) children r → apply_result m' o a b r.
Proof.
  intros Hm Hext Ha Hb Hv Hlt Hm' Hcut Hlen (Hvr & Hvar & Hset).
  assert (valid m' a ∧ valid m' b) as [Ha' Hb'] by (split; by apply (extends_valid m)).
  assert (Z.min (variable_of m' a) (variable_of m' b) = Z.of_nat v) as Hv' by (by rewrite !(extends_variable m m' Hext)).
  split; [done|]. split; [lia|]. intros σ Hσ. rewrite (Hset σ Hσ). unfold chosen. rewrite Nat2Z.id.
  assert (v < length (dm_domains m'))%nat as Hlt' by (by rewrite (proj1 Hext)).
  assert (σ v < length (domain_at m' (Z.of_nat v)))%nat as Hσv by (by apply choices_length).
  destruct (child_spec m' a v (σ v) Hm' Ha' Hlt') as (_ & _ & _ & _ & Hsa); [lia|done|].
  destruct (child_spec m' b v (σ v) Hm' Hb' Hlt') as (_ & _ & _ & _ & Hsb); [lia|done|].
  specialize (Hsa σ eq_refl). specialize (Hsb σ eq_refl).
  destruct (lookup_lt_is_Some_2 children (σ v)) as [c Hc].
  { rewrite Hlen, <-(extends_domain m m' Hext). done. }
  destruct (Hcut _ _ Hc) as (_ & _ & _ & _ & Hop). specialize (Hop σ Hσ).
  assert ((∃ c0, children !! σ v = Some c0 ∧ holds (dm_nodes m') σ c0) ↔ holds (dm_nodes m') σ c) as ->.
  { split; [intros (c0 & Hc0 & Hh); by simplify_eq|by exists c]. }
  rewrite Hop. by destruct o; cbn; rewrite Hsa, Hsb.
Qed.

Lemma cut_result_extends m m' o a b v i r : manager_ok m → extends m m' → v < Z.of_nat (length (dm_domains m)) →
  v ≤ Z.min (variable_of m a) (variable_of m b) → 0 ≤ v → (i < length (domain_at m v))%nat →
  cut_result m o a b v i r → cut_result m' o a b v i r.
Proof.
  intros Hm Hext Hv Hle H0 Hi (Ha & Hb & Hr). split; [by apply (extends_valid m)|]. split; [by apply (extends_valid m)|].
  rewrite !(extends_child m m' Hext) by done.
  assert (∀ c, valid m c → v ≤ variable_of m c → valid m (child_of m c v i)) as Hchild.
  { intros c Hc Hvc. pose proof (child_spec m c (Z.to_nat v) i Hm Hc) as Hspec. rewrite Z2Nat.id in Hspec by done.
    by destruct Hspec as [Hv' _]; [lia|lia|done|]. }
  apply (extends_apply_result m); [done|done|apply Hchild; [done|lia]..|done].
Qed.

Lemma applyBinary_runs fuel o a b m : manager_ok m → valid m a → valid m b →
  Z.max (depth m a) (depth m b) < Z.of_nat fuel → runs m (applyBinary fuel o a b) (λ m' r, apply_result m' o a b r).
Proof.
  revert a b m. induction fuel as [|fuel IH]; intros a0 b0 m Hm Ha0 Hb0 Hfuel.
  { pose proof (variable_range m a0 Hm Ha0). unfold depth in Hfuel. lia. }
  set (a := Z.min a0 b0). set (b := Z.max a0 b0).
  assert (valid m a ∧ valid m b ∧ a ≤ b ∧ Z.max (depth m a) (depth m b) < Z.of_nat (S fuel)) as (Ha & Hb & Hab & Hfuel').
  { unfold a, b. destruct (Z.le_ge_cases a0 b0); rewrite ?Z.min_l, ?Z.max_r, ?Z.min_r, ?Z.max_l by done; split_and!; done || lia. }
  eapply runs_weaken; [|intros m1 r _ _; apply apply_result_swap]. fold a b. cbn -[apply_key]. fold a b.
  destruct (apply_trivial o a b) as [r|] eqn:Htr.
  { apply runs_ret; [done|]. by apply trivial_result. }
  destruct (trivial_none o a b Htr) as [H2a H2b]; [by destruct Ha|done|].
  apply runs_get. destruct (dm_apply m !! _) as [r|] eqn:Hcache.
  { apply runs_ret; [done|]. destruct (mo_apply m Hm _ _ Hcache) as (o' & a' & b' & Hk & _ & _ & Hr).
    by apply apply_key_inj in Hk as (-> & -> & ->). }
  destruct (level_spec m a b Hm Ha Hb H2a H2b) as (v & Hv & Hlt & Hdom). rewrite Hv.
  eapply runs_bind.
  { apply (for_choices_runs m _ (λ m1 i r, (i < length (domain_at m (Z.of_nat v)))%nat ∧ extends m m1 ∧ cut_result m1 o a b (Z.of_nat v) i r)); [done| |].
    - intros m1 i Hm1 Hext1 Hi. apply runs_get.
      assert (valid m1 a ∧ valid m1 b) as [Ha1 Hb1] by (split; by apply (extends_valid m)).
      assert (Z.min (variable_of m1 a) (variable_of m1 b) = Z.of_nat v) as Hv1 by (by rewrite !(extends_variable m m1 Hext1)).
      assert (v < length (dm_domains m1))%nat as Hlt1 by (by rewrite (proj1 Hext1)).
      assert (i < length (domain_at m1 (Z.of_nat v)))%nat as Hi1 by (rewrite (extends_domain m m1 Hext1); lia).
      destruct (child_spec m1 a v i Hm1 Ha1 Hlt1) as (Hva & Hvara & _); [lia|done|].
      destruct (child_spec m1 b v i Hm1 Hb1 Hlt1) as (Hvb & Hvarb & _); [lia|done|].
      eapply runs_weaken; [apply IH; [done..|]|].
      { revert Hfuel'. unfold depth. rewrite (proj1 Hext1). lia. }
      intros m2 r Hm2 Hext2 Hr. split; [lia|]. split; [by etrans|]. split; [by apply (extends_valid m1)|]. split; [by apply (extends_valid m1)|].
      by rewrite !(extends_child m1 m2 Hext2).
    - intros m1 m2 i r Hm1 Hext12 (Hi & Hext1 & Hcut). split; [done|]. split; [by etrans|].
      destruct (Hcut) as (Ha1 & Hb1 & _). rewrite <-(extends_domain m m1 Hext1) in Hi.
      eapply cut_result_extends; [exact Hm1|done| | |lia|done|done].
      + rewrite (proj1 Hext1). lia.
      + rewrite !(extends_variable m m1) by done. lia. }
  intros m1 children Hm1 Hext1 [Hlen Hcut]. eapply runs_bind.
  { apply makeNode_runs; [done| |].
    - split; [rewrite (proj1 Hext1); lia|by rewrite Hlen, (extends_domain m m1 Hext1)|].
      intros c [i Hc]%list_elem_of_lookup. destruct (Hcut i c Hc) as (Hi & _ & Ha1 & Hb1 & Hvc & Hmin & _). split; [done|].
      rewrite <-(extends_domain m m1 Hext1) in Hi. assert (v < length (dm_domains m1))%nat as Hlt1 by (by rewrite (proj1 Hext1)).
      assert (Z.min (variable_of m1 a) (variable_of m1 b) = Z.of_nat v) as Hv1 by (by rewrite !(extends_variable m m1 Hext1)).
      destruct (child_spec m1 a v i Hm1 Ha1 Hlt1) as (_ & Hvara & _); [lia|done|].
      destruct (child_spec m1 b v i Hm1 Hb1 Hlt1) as (_ & Hvarb & _); [lia|done|]. cbn in Hmin. lia.
    - intros ->. cbn in Hlen. destruct (domain_at m (Z.of_nat v)); done. }
  intros m2 r Hm2 Hext2 Hr. assert (extends m m2) as Hext02 by (by etrans).
  assert (apply_result m2 o a b r) as Hres.
  { eapply (combine_result m m2); [exact Hm|exact Hext02|exact Ha|exact Hb|exact Hv|exact Hlt|exact Hm2| |exact Hlen|exact Hr].
    intros i c Hc. destruct (Hcut i c Hc) as (Hi & _ & Hcut'). destruct (Hcut') as (Ha1 & Hb1 & _).
    rewrite <-(extends_domain m m1 Hext1) in Hi. eapply cut_result_extends; [exact Hm1|done| | |lia|done|done].
    - rewrite (proj1 Hext1). lia.
    - rewrite !(extends_variable m m1) by done. lia. }
  eapply runs_bind; [apply remember_runs; [done|by apply (extends_valid m)|by apply (extends_valid m)|done]|].
  intros m3 [] Hm3 Hext3 _. apply runs_ret; [done|].
  apply (extends_apply_result m2); [done|done|by apply (extends_valid m)|by apply (extends_valid m)|done].
Qed.

(** ** Negation *)

Lemma terminal_negation m a : manager_ok m → a = decisionFalse ∨ a = decisionTrue →
  negation_result m a (if a =? decisionFalse then decisionTrue else decisionFalse).
Proof.
  intros Hm Ha. pose proof (mo_terminals m Hm) as H2.
  assert (∀ σ, ¬ holds (dm_nodes m) σ decisionFalse) as Hf by (intros; apply holds_false).
  assert (∀ σ, holds (dm_nodes m) σ decisionTrue) as Ht by (intros; constructor).
  destruct Ha as [-> | ->]; cbn; (split; [unfold valid, decisionTrue, decisionFalse; lia|]);
    (split; [rewrite !variable_terminal by (unfold decisionFalse, decisionTrue; lia); done|]); intros σ _;
    specialize (Hf σ); specialize (Ht σ); tauto.
Qed.

Lemma remember_negation m a r : manager_ok m → valid m a → negation_result m a r →
  runs m (tx_modify (λ m, MkDecisionManager (dm_domains m) (dm_nodes m) (dm_unique m) (dm_apply m) (<[a := r]> (dm_negation m)))) (λ _ _, True).
Proof.
  intros Hm Ha Hr. split; [|split; [|done]].
  - destruct Hm as [H1 H2 H3 H4 H5 H6 H7]. cbn. split; cbn; [done|done| |done|done|done|].
    + intros id n Hid Hn. by destruct (H3 id n Hid Hn).
    + intros x y [[<- <-]|[Hne Hxy]]%lookup_insert_Some; [done|by apply H7].
  - split; [done|]. exists []. by rewrite app_nil_r.
Qed.

Lemma negate_node m m1 m2 (a : Z) n children r : manager_ok m → extends m m1 → manager_ok m1 → extends m1 m2 → manager_ok m2 →
  valid m a → 2 ≤ a → dm_nodes m !! Z.to_nat a = Some n →
  (∀ i c, children !! i = Some c → ∃ c0, dn_children n !! i = Some c0 ∧ valid m1 c0 ∧ negation_result m1 c0 c) →
  length children = length (dn_children n) → node_result m2 (dn_variable n) children r → negation_result m2 a r.
Proof.
  intros Hm Hext1 Hm1 Hext2 Hm2 Ha H2 Hn Hneg Hlen (Hvr & Hvar & Hset).
  pose proof (mo_nodes m Hm (Z.to_nat a) n ltac:(lia) Hn) as Hok. assert (extends m m2) as Hext by (by etrans).
  split; [done|]. split; [rewrite (extends_variable m m2 Hext) by done; by rewrite (variable_node m a n)|].
  intros σ Hσ. rewrite (Hset σ Hσ). unfold chosen.
  destruct (lookup_lt_is_Some_2 children (σ (Z.to_nat (dn_variable n)))) as [c Hc].
  { destruct (no_variable _ _ _ Hok). rewrite Hlen, (no_children _ _ _ Hok). replace (dn_variable n) with (Z.of_nat (Z.to_nat (dn_variable n))) at 2 by lia.
    apply choices_length; [by rewrite <-(proj1 Hext)|lia]. }
  destruct (Hneg _ _ Hc) as (c0 & Hc0 & Hv0 & Hres).
  destruct (extends_negation_result m1 m2 Hm1 Hext2 c0 c Hv0 Hres) as (_ & _ & Hnc). specialize (Hnc σ Hσ).
  rewrite (holds_at m2 σ a n c0); [|done|by rewrite (extends_lookup m m2 Hext)|done]. rewrite <-Hnc.
  split; [intros (c' & Hc' & Hh); by simplify_eq|by exists c].
Qed.

Lemma negate_runs fuel a m : manager_ok m → valid m a → depth m a < Z.of_nat fuel → runs m (negate fuel a) (λ m' r, negation_result m' a r).
Proof.
  revert a m. induction fuel as [|fuel IH]; intros a m Hm Ha Hfuel.
  { pose proof (variable_range m a Hm Ha). unfold depth in Hfuel. lia. }
  cbn. destruct (a =? decisionFalse) eqn:Hf.
  { apply runs_ret; [done|]. apply Z.eqb_eq in Hf as ->. apply (terminal_negation m decisionFalse); [done|by left]. }
  destruct (a =? decisionTrue) eqn:Ht.
  { apply runs_ret; [done|]. apply Z.eqb_eq in Ht as ->. apply (terminal_negation m decisionTrue); [done|by right]. }
  apply runs_get. destruct (dm_negation m !! a) as [r|] eqn:Hcache.
  { apply runs_ret; [done|]. by apply (mo_negation m Hm) in Hcache as [_ ?]. }
  apply Z.eqb_neq in Hf, Ht.
  destruct (valid_cases m a Hm Ha) as [->|[->|(H2 & n & Hn & Hok & Hvar)]]; [done|done|].
  assert (node_at m a = n) as Hna by (unfold node_at; by rewrite Hn). rewrite Hna.
  assert (∀ i c0, dn_children n !! i = Some c0 → valid m c0 ∧ variable_of m a < variable_of m c0) as Hbelow.
  { intros i c0 Hc0. destruct (no_below _ _ _ Hok c0) as [? ?]; [by eapply list_elem_of_lookup_2|]. rewrite Hvar. unfold valid in *. split; [lia|done]. }
  eapply runs_bind.
  { apply (for_choices_runs m _ (λ m1 i r, extends m m1 ∧ ∃ c0, dn_children n !! i = Some c0 ∧ valid m1 c0 ∧ negation_result m1 c0 r)); [done| |].
    - intros m1 i Hm1 Hext1 Hi. destruct (lookup_lt_is_Some_2 (dn_children n) i) as [c0 Hc0]; [lia|]. rewrite Hc0. cbn.
      destruct (Hbelow i c0 Hc0) as [Hv0 Hlt]. assert (valid m1 c0) as Hv1 by (by apply (extends_valid m)).
      eapply runs_weaken; [apply IH; [done|done|]|].
      { revert Hfuel. unfold depth. rewrite (proj1 Hext1), (extends_variable m m1 Hext1) by done. lia. }
      intros m2 r Hm2 Hext2 Hr. split; [by etrans|]. exists c0. split; [done|]. split; [by apply (extends_valid m1)|done].
    - intros m1 m2 i r Hm1 Hext2 (Hext1 & c0 & Hc0 & Hv0 & Hr). split; [by etrans|]. exists c0. split; [done|].
      split; [by apply (extends_valid m1)|by apply (extends_negation_result m1)]. }
  intros m1 children Hm1 Hext1 [Hlen Hneg]. eapply runs_bind.
  { apply makeNode_runs; [done| |].
    - split; [rewrite (proj1 Hext1); by apply (no_variable _ _ _ Hok)|by rewrite Hlen, (extends_domain m m1 Hext1), (no_children _ _ _ Hok)|].
      intros c [i Hc]%list_elem_of_lookup. destruct (Hneg i c Hc) as (_ & c0 & Hc0 & Hv0 & Hvc & Hle & _). split; [done|].
      destruct (Hbelow i c0 Hc0) as [Hvm Hlt]. rewrite (extends_variable m m1 Hext1) in Hle by done. lia.
    - intros ->. destruct (no_distinct _ _ _ Hok) as (x & _ & Hx & _). cbn in Hlen. destruct (dn_children n); [by apply not_elem_of_nil in Hx|done]. }
  intros m2 r Hm2 Hext2 Hr.
  assert (negation_result m2 a r) as Hres.
  { eapply (negate_node m m1 m2 a n children); try done. intros i c Hc. by destruct (Hneg i c Hc) as (_ & Hc0). }
  assert (extends m m2) as Hext by (by etrans).
  eapply runs_bind; [apply remember_negation; [done|by apply (extends_valid m)|done]|].
  intros m3 [] Hm3 Hext3 _. apply runs_ret; [done|]. apply (extends_negation_result m2); [done|done|by apply (extends_valid m)|done].
Qed.

(** ** The operations *)

Lemma depth_fuel m a : manager_ok m → valid m a → depth m a < Z.of_nat (apply_fuel m).
Proof. intros Hm Ha. pose proof (variable_range m a Hm Ha). unfold depth, apply_fuel. lia. Qed.

Lemma and_runs m a b : manager_ok m → valid m a → valid m b → runs m (and_ a b) (λ m' r, apply_result m' OpAnd a b r).
Proof. intros Hm Ha Hb. apply runs_get, applyBinary_runs; [done..|]. apply Z.max_lub_lt; by apply depth_fuel. Qed.

Lemma or_runs m a b : manager_ok m → valid m a → valid m b → runs m (or_ a b) (λ m' r, apply_result m' OpOr a b r).
Proof. intros Hm Ha Hb. apply runs_get, applyBinary_runs; [done..|]. apply Z.max_lub_lt; by apply depth_fuel. Qed.

Lemma not_runs m a : manager_ok m → valid m a → runs m (not_ a) (λ m' r, negation_result m' a r).
Proof. intros Hm Ha. apply runs_get, negate_runs; [done..|]. by apply depth_fuel. Qed.

(** The choices of [variable] that take [route]. *)
Definition takes (D : list (list string)) (variable : nat) (route : string) σ : Prop := (D !! variable ≫= λ d, d !! σ variable) = Some route.

Lemma equal_runs m (variable : nat) route : manager_ok m → (variable < length (dm_domains m))%nat → domain_at m (Z.of_nat variable) ≠ [] →
  runs m (equal (Z.of_nat variable) route) (λ m' r, valid m' r ∧
    ∀ σ, chooses (dm_domains m') σ → (holds (dm_nodes m') σ r ↔ takes (dm_domains m') variable route σ)).
Proof.
  intros Hm Hlt Hne. apply runs_get. pose proof (mo_terminals m Hm) as H2.
  set (pick := λ candidate, if bool_decide (candidate = route) then decisionTrue else decisionFalse).
  assert (∀ c, c ∈ pick <$> domain_at m (Z.of_nat variable) → valid m c ∧ variable_of m c = Z.of_nat (length (dm_domains m)) + 1) as Hpick.
  { intros c (x & -> & _)%list_elem_of_fmap. unfold pick, valid, decisionTrue, decisionFalse.
    case_bool_decide; (split; [lia|by apply variable_terminal]). }
  eapply runs_weaken; [apply makeNode_runs; [done| |]|].
  - split; [lia|by rewrite length_fmap|]. intros c Hc. destruct (Hpick c Hc) as [Hv ->]. split; [done|lia].
  - intros Heq. by apply fmap_nil_inv in Heq.
  - intros m1 r Hm1 Hext (Hv & _ & Hset). split; [done|]. intros σ Hσ. rewrite (Hset σ Hσ). unfold chosen, takes, domain_at.
    rewrite Nat2Z.id, (proj1 Hext). rewrite (proj1 Hext) in Hσ.
    destruct (lookup_lt_is_Some_2 (dm_domains m) variable Hlt) as [d Hd]. rewrite Hd. cbn. rewrite list_lookup_fmap.
    destruct (lookup_lt_is_Some_2 d (σ variable)) as [x Hx]; [by apply Hσ|]. rewrite Hx. cbn. unfold pick. split.
    + intros (c & [= <-] & Hh). case_bool_decide; [by subst|]. by apply holds_false in Hh.
    + intros [= ->]. exists decisionTrue. rewrite bool_decide_eq_true_2 by done. split; [done|constructor].
Qed.
