(* ===== verification/ActivationFacts.v ===== *)
(** * The activation analysis decides safety

    The formula that the analysis computes for a node holds of the choices of
    routes under which the node is activated, so a reference is accepted exactly
    when no choice activates its node without its source. *)

From Stdlib Require Import Ascii.
From S2P Require Import Prelude Json Graph Dsl Ir IrFacts ControlGraph ControlFacts Activation DecisionFacts.

Open Scope string_scope.
Open Scope list_scope.
Open Scope Z_scope.

(** ** Activation, as a run would see it *)

(** One declared route for every branch. *)
Definition chooses_routes (d : Document) (ρ : string → string) : Prop :=
  ∀ n, n ∈ doc_Nodes d → node_Type n = "branch" → ρ (node_ID n) ∈ branch_domain n.

Definition taken (d : Document) (ρ : string → string) (e : Edge) : Prop :=
  (∃ n, n ∈ doc_Nodes d ∧ node_ID n = edge_Source e ∧ node_Type n = "branch") → ρ (edge_Source e) = edge_Route e.

Inductive active (d : Document) (ρ : string → string) : string → Prop :=
  | active_start id : of_type "start" d = [id] → active d ρ id
  | active_edge e : e ∈ doc_Edges d → active d ρ (edge_Source e) → taken d ρ e → active d ρ (edge_Target e).

(** A node is not activated without the node it reads, which comes before it. *)
Definition reference_safe (d : Document) (source target : string) : Prop :=
  tc (leads d) source target ∧ ∀ ρ, chooses_routes d ρ → active d ρ target → active d ρ source.

Definition bindings_safe (d : Document) : Prop :=
  ∀ n i, n ∈ doc_Nodes d → i ∈ inputs_of n → input_Source i = SourceRef → reference_safe d (input_RefNode i) (node_ID n).

Section Accepted.
Context (contract : NodeContractValidator) (d : Document) (Hwf : ir_wf contract d).
Context (start stop : string) (Hgraph : graph_wf d start stop).

Local Notation analysis := (control_graph d).
Local Notation order := (ga_topological (control_graph d)).

Lemma order_facts : NoDup order ∧ (∀ id, id ∈ order ↔ id ∈ node_ID <$> doc_Nodes d) ∧ forward (ir_pairs d) order.
Proof using Hwf Hgraph. apply (order_spec contract d Hwf), (gw_acyclic _ _ _ Hgraph). Qed.

Lemma control_upstream s t : s ∈ node_ID <$> doc_Nodes d → isControlUpstream analysis s t = true ↔ tc (leads d) s t.
Proof using Hwf Hgraph.
  intros Hs. destruct order_facts as (Hnd & Hnodes & Hf).
  pose proof (proj2 (order_complete contract d Hwf) (gw_acyclic _ _ _ Hgraph)) as Hc.
  assert (ga_ordinal analysis = ordinals order) as Hord by (unfold control_graph; cbn; by rewrite Hc).
  assert (ga_descendants analysis = buildDescendants order (ga_outgoing analysis)) as Hdesc by (unfold control_graph; cbn; by rewrite Hc).
  assert (∀ x y, x ∈ order → leads d x y ↔ ∃ e, e ∈ edges_at (ga_outgoing analysis) x ∧ edge_Target e = y) as Htargets.
  { intros x y _. rewrite leads_edge. cbn. setoid_rewrite outgoing_spec. setoid_rewrite elem_of_out_edges. naive_solver. }
  assert (∀ i x y, order !! i = Some x → leads d x y → ∃ j, (i < j)%nat ∧ order !! j = Some y) as Hfwd.
  { intros i x y Hx Hxy. destruct (leads_nodes contract d Hwf x y Hxy) as [_ [j Hj]%Hnodes%list_elem_of_lookup].
    destruct (Hf j y Hj x Hxy) as (k & Hk & Hkx). exists j. split; [|done]. by rewrite (NoDup_lookup order i k x Hnd Hx Hkx). }
  unfold isControlUpstream. rewrite Hord, Hdesc. destruct (ordinals order !! t) as [o|] eqn:Ho.
  - apply ordinals_lookup in Ho; [|done].
    exact (buildDescendants_spec order Hnd (ga_outgoing analysis) (leads d) Htargets Hfwd s o t (proj2 (Hnodes s) Hs) Ho).
  - split; [done|]. intros Htc. exfalso.
    assert (t ∈ order) as [o Hot]%list_elem_of_lookup.
    { apply Hnodes. clear -Htc Hwf. induction Htc as [x y Hxy|x y z _ _ IH]; [by apply (leads_nodes contract d Hwf x y)|done]. }
    apply ordinals_lookup in Hot; [|done]. congruence.
Qed.

(** ** Branches and variables *)

Lemma branch_domains_lookup id dom : ga_branchDomains analysis !! id = Some dom ↔
  ∃ n, n ∈ doc_Nodes d ∧ node_ID n = id ∧ node_Type n = "branch" ∧ dom = branch_domain n.
Proof using Hwf.
  cbn. unfold branch_domains.
  assert (∀ l (m : gmap string (list string)), fold_left (λ m n, if bool_decide (node_Type n = "branch") then <[node_ID n := branch_domain n]> m else m) l m
    = fold_left (λ m n, <[node_ID n := branch_domain n]> m) (filter (λ n, node_Type n = "branch") l) m) as Hfold.
  { induction l as [|n l IH]; intros m; [done|]. rewrite filter_cons. cbn [fold_left].
    case_bool_decide; case_decide; try done; cbn [fold_left]; by rewrite IH. }
  rewrite Hfold. fold (table node_ID branch_domain (filter (λ n, node_Type n = "branch") (doc_Nodes d))). rewrite table_lookup.
  - setoid_rewrite list_elem_of_filter. naive_solver.
  - pose proof (iw_ids _ _ Hwf) as Hnd. clear -Hnd. induction (doc_Nodes d) as [|n l IH]; [constructor|].
    rewrite fmap_cons in Hnd. apply NoDup_cons in Hnd as [Hn Hnd]. rewrite filter_cons. case_decide; [|by apply IH].
    rewrite fmap_cons. apply NoDup_cons. split; [|by apply IH].
    intros (m & Hm & [_ Hin]%list_elem_of_filter)%list_elem_of_fmap. apply Hn. rewrite Hm. by apply list_elem_of_fmap_2.
Qed.

Lemma branch_domain_inhabited n : n ∈ doc_Nodes d → node_Type n = "branch" → branch_domain n ≠ [].
Proof using Hgraph.
  intros Hn Hb Hd. destruct (gw_routes _ _ _ Hgraph n Hn Hb) as [Hr _].
  assert (out_edges d (node_ID n) = []) as Hnone.
  { destruct (out_edges d (node_ID n)) as [|e l] eqn:He; [done|]. exfalso.
    apply (not_elem_of_nil (edge_Route e)). rewrite <-Hd. apply Hr. by left. }
  apply (gw_sinks _ _ _ Hgraph n Hn) in Hnone. congruence.
Qed.

Lemma branchIDs_spec id : id ∈ branchIDs analysis ↔ ∃ n, n ∈ doc_Nodes d ∧ node_ID n = id ∧ node_Type n = "branch".
Proof using Hwf Hgraph.
  destruct order_facts as (Hnd & Hnodes & _). unfold branchIDs, has_domain.
  rewrite list_elem_of_In, filter_In, <-list_elem_of_In, negb_true_iff, bool_decide_eq_false. split.
  - intros [_ Hdom]. destruct (ga_branchDomains analysis !! id) as [dom|] eqn:Hd; [|done].
    apply branch_domains_lookup in Hd as (n & Hn & Hid & Hb & _). eauto.
  - intros (n & Hn & <- & Hb). split; [apply Hnodes; by apply list_elem_of_fmap_2|].
    rewrite (proj2 (branch_domains_lookup (node_ID n) (branch_domain n))) by eauto. by apply branch_domain_inhabited.
Qed.

Lemma branchIDs_nodup : NoDup (branchIDs analysis).
Proof using Hwf Hgraph.
  destruct order_facts as (Hnd & _ & _). unfold branchIDs. apply NoDup_ListNoDup, List.NoDup_filter. by apply NoDup_ListNoDup.
Qed.

Lemma variables_lookup id v : variables analysis !! id = Some v ↔ branchIDs analysis !! v = Some id.
Proof using Hwf Hgraph. apply ordinals_lookup, branchIDs_nodup. Qed.

Lemma domains_lookup v dom : domains analysis !! v = Some dom ↔
  ∃ n, n ∈ doc_Nodes d ∧ node_Type n = "branch" ∧ branchIDs analysis !! v = Some (node_ID n) ∧ dom = branch_domain n.
Proof using Hwf Hgraph.
  unfold domains. rewrite list_lookup_fmap, fmap_Some. split.
  - intros (id & Hid & ->). destruct (proj1 (branchIDs_spec id)) as (n & Hn & <- & Hb); [by eapply list_elem_of_lookup_2|].
    exists n. split; [done|]. split; [done|]. split; [done|]. by rewrite (proj2 (branch_domains_lookup (node_ID n) (branch_domain n))) by eauto.
  - intros (n & Hn & Hb & Hv & ->). exists (node_ID n). split; [done|].
    by rewrite (proj2 (branch_domains_lookup (node_ID n) (branch_domain n))) by eauto.
Qed.

Lemma domains_inhabited dom : dom ∈ domains analysis → dom ≠ [].
Proof using Hwf Hgraph. intros [v (n & Hn & Hb & _ & ->)%domains_lookup]%list_elem_of_lookup. by apply branch_domain_inhabited. Qed.

(** ** Choices of routes and of positions *)

Definition route_at (σ : nat → nat) (v : nat) : option string := domains analysis !! v ≫= λ dom, dom !! σ v.

Definition agrees (σ : nat → nat) (ρ : string → string) : Prop :=
  ∀ v id, branchIDs analysis !! v = Some id → route_at σ v = Some (ρ id).

Lemma agreeing_routes σ : chooses (domains analysis) σ → ∃ ρ, chooses_routes d ρ ∧ agrees σ ρ.
Proof using Hwf Hgraph.
  intros Hσ. exists (λ id, default "" (variables analysis !! id ≫= route_at σ)).
  assert (∀ v id, branchIDs analysis !! v = Some id → ∃ n r, n ∈ doc_Nodes d ∧ node_Type n = "branch" ∧ node_ID n = id ∧
    r ∈ branch_domain n ∧ route_at σ v = Some r) as Hpick.
  { intros v id Hv. destruct (proj1 (branchIDs_spec id)) as (n & Hn & <- & Hb); [by eapply list_elem_of_lookup_2|].
    assert (domains analysis !! v = Some (branch_domain n)) as Hd by (apply domains_lookup; eauto). unfold route_at. rewrite Hd. cbn.
    destruct (lookup_lt_is_Some_2 (branch_domain n) (σ v)) as [r Hr]; [by apply Hσ|].
    exists n, r. split_and!; [done..|by eapply list_elem_of_lookup_2|done]. }
  split.
  - intros n Hn Hb. assert (node_ID n ∈ branchIDs analysis) as [v Hv]%list_elem_of_lookup by (apply branchIDs_spec; eauto).
    rewrite (proj2 (variables_lookup (node_ID n) v) Hv). cbn. destruct (Hpick v _ Hv) as (m & r & Hm & _ & Hid & Hr & ->). cbn.
    by rewrite <-(unique_node (doc_Nodes d) m n (iw_ids _ _ Hwf) Hm Hn Hid).
  - intros v id Hv. rewrite (proj2 (variables_lookup id v) Hv). cbn. by destruct (Hpick v _ Hv) as (m & r & _ & _ & _ & _ & ->).
Qed.

Lemma agreeing_positions ρ : chooses_routes d ρ → ∃ σ, chooses (domains analysis) σ ∧ agrees σ ρ.
Proof using Hwf Hgraph.
  intros Hρ.
  set (σ := λ v, match branchIDs analysis !! v, domains analysis !! v with Some id, Some dom => position dom (ρ id) | _, _ => 0%nat end).
  assert (∀ v n, n ∈ doc_Nodes d → node_Type n = "branch" → branchIDs analysis !! v = Some (node_ID n) → branch_domain n !! σ v = Some (ρ (node_ID n))) as Hpos.
  { intros v n Hn Hb Hv. assert (domains analysis !! v = Some (branch_domain n)) as Hd by (apply domains_lookup; eauto).
    unfold σ. rewrite Hv, Hd. destruct (proj1 (list_elem_of_lookup (branch_domain n) (ρ (node_ID n)))) as [i Hi]; [by apply Hρ|].
    rewrite (position_lookup _ i); [done| |done]. unfold branch_domain. apply NoDup_sort_strings, NoDup_elements. }
  exists σ. split.
  - intros v dom (n & Hn & Hb & Hv & ->)%domains_lookup. eapply lookup_lt_Some. by apply Hpos.
  - intros v id Hv. destruct (proj1 (branchIDs_spec id)) as (n & Hn & <- & Hb); [by eapply list_elem_of_lookup_2|].
    unfold route_at. rewrite (proj2 (domains_lookup v (branch_domain n))) by eauto. cbn. by apply Hpos.
Qed.
(** ** Formulas *)

(** [f] stands for the route choices that satisfy [P]. *)
Definition means m (f : Z) (P : (string → string) → Prop) : Prop :=
  valid m f ∧ ∀ σ ρ, chooses (domains analysis) σ → agrees σ ρ → holds (dm_nodes m) σ f ↔ P ρ.

Definition ours m : Prop := dm_domains m = domains analysis.

Lemma extends_ours m m' : extends m m' → ours m → ours m'.
Proof using. intros [Hd _] Hm. unfold ours. by rewrite Hd. Qed.

Lemma extends_means m m' f P : manager_ok m → extends m m' → means m f P → means m' f P.
Proof using.
  intros Hm Hext [Hv Hf]. split; [by apply (extends_valid m)|]. intros σ ρ Hσ Hag. rewrite (extends_holds m m' Hm Hext) by done. by apply Hf.
Qed.

Lemma means_false m : manager_ok m → means m decisionFalse (λ _, False).
Proof using.
  intros Hm. pose proof (mo_terminals m Hm). split; [unfold valid, decisionFalse; lia|]. intros σ ρ _ _. split; [apply holds_false|done].
Qed.

Lemma means_true m : manager_ok m → means m decisionTrue (λ _, True).
Proof using.
  intros Hm. pose proof (mo_terminals m Hm). split; [unfold valid, decisionTrue; lia|]. intros σ ρ _ _. split; [done|]. intros _. constructor.
Qed.

Lemma means_iff m f P Q : (∀ ρ, P ρ ↔ Q ρ) → means m f P → means m f Q.
Proof using. intros HPQ [Hv Hf]. split; [done|]. intros σ ρ Hσ Hag. rewrite <-HPQ. by apply Hf. Qed.

Lemma and_means m f g P Q : manager_ok m → ours m → means m f P → means m g Q → runs m (and_ f g) (λ m' r, means m' r (λ ρ, P ρ ∧ Q ρ)).
Proof using.
  intros Hm Hours Hf Hg. eapply runs_weaken; [apply and_runs; [done|apply Hf|apply Hg]|].
  intros m1 r Hm1 Hext (Hv & _ & Hr). destruct (extends_means m m1 f P Hm Hext Hf) as [_ Hf1], (extends_means m m1 g Q Hm Hext Hg) as [_ Hg1].
  split; [done|]. intros σ ρ Hσ Hag. rewrite (Hr σ); [|by rewrite (extends_ours m m1)]. cbn. by rewrite (Hf1 σ ρ), (Hg1 σ ρ).
Qed.

Lemma or_means m f g P Q : manager_ok m → ours m → means m f P → means m g Q → runs m (or_ f g) (λ m' r, means m' r (λ ρ, P ρ ∨ Q ρ)).
Proof using.
  intros Hm Hours Hf Hg. eapply runs_weaken; [apply or_runs; [done|apply Hf|apply Hg]|].
  intros m1 r Hm1 Hext (Hv & _ & Hr). destruct (extends_means m m1 f P Hm Hext Hf) as [_ Hf1], (extends_means m m1 g Q Hm Hext Hg) as [_ Hg1].
  split; [done|]. intros σ ρ Hσ Hag. rewrite (Hr σ); [|by rewrite (extends_ours m m1)]. cbn. by rewrite (Hf1 σ ρ), (Hg1 σ ρ).
Qed.

Lemma not_means m f P : manager_ok m → ours m → means m f P → runs m (not_ f) (λ m' r, means m' r (λ ρ, ¬ P ρ)).
Proof using.
  intros Hm Hours Hf. eapply runs_weaken; [apply not_runs; [done|apply Hf]|].
  intros m1 r Hm1 Hext (Hv & _ & Hr). destruct (extends_means m m1 f P Hm Hext Hf) as [_ Hf1].
  split; [done|]. intros σ ρ Hσ Hag. rewrite (Hr σ); [|by rewrite (extends_ours m m1)]. by rewrite (Hf1 σ ρ).
Qed.

Lemma equal_means m v id route : manager_ok m → ours m → branchIDs analysis !! v = Some id →
  runs m (equal (Z.of_nat v) route) (λ m' r, means m' r (λ ρ, ρ id = route)).
Proof using Hwf Hgraph.
  intros Hm Hours Hv. destruct (proj1 (branchIDs_spec id)) as (n & Hn & <- & Hb); [by eapply list_elem_of_lookup_2|].
  assert (domains analysis !! v = Some (branch_domain n)) as Hd by (apply domains_lookup; eauto).
  eapply runs_weaken; [apply equal_runs; [done| |]|].
  - rewrite Hours. by eapply lookup_lt_Some.
  - unfold domain_at. rewrite Nat2Z.id, Hours, Hd. by apply branch_domain_inhabited.
  - intros m1 r Hm1 Hext [Hv1 Hr]. split; [done|]. intros σ ρ Hσ Hag.
    rewrite (Hr σ); [|by rewrite (extends_ours m m1)]. unfold takes. rewrite (extends_ours m m1 Hext Hours).
    change (route_at σ v = Some route ↔ ρ (node_ID n) = route). rewrite (Hag v (node_ID n) Hv). split; congruence.
Qed.

(** The formulas of the nodes that the loop has left behind. *)
Definition known m (activation : gmap string Z) (done_ : list string) : Prop :=
  ∀ id, id ∈ done_ → means m (default decisionFalse (activation !! id)) (λ ρ, active d ρ id).

Lemma extends_known m m' activation l : manager_ok m → extends m m' → known m activation l → known m' activation l.
Proof using. intros Hm Hext Hk id Hid. apply (extends_means m); [done..|by apply Hk]. Qed.

Lemma source_branch e : e ∈ doc_Edges d → type_of analysis (edge_Source e) = "branch" ↔
  ∃ n, n ∈ doc_Nodes d ∧ node_ID n = edge_Source e ∧ node_Type n = "branch".
Proof using Hwf.
  intros He. unfold type_of. cbn. destruct (iw_edges _ _ Hwf e He) as (_ & s & _ & Hs & _ & Hid & _).
  rewrite (proj2 (nodes_of_lookup d (edge_Source e) s (iw_ids _ _ Hwf))) by done. cbn. split; [by exists s|].
  intros (n & Hn & Hnid & Hb). by rewrite (unique_node (doc_Nodes d) s n (iw_ids _ _ Hwf) Hs Hn ltac:(congruence)).
Qed.

Lemma edge_means m activation l e : manager_ok m → ours m → known m activation l → e ∈ doc_Edges d → edge_Source e ∈ l →
  runs m (edge_formula analysis activation e) (λ m' r, means m' r (λ ρ, active d ρ (edge_Source e) ∧ taken d ρ e)).
Proof using Hwf Hgraph.
  intros Hm Hours Hk He Hsrc. unfold edge_formula, taken. pose proof (source_branch e He) as Hb. case_bool_decide as Htype.
  - destruct (proj1 Hb Htype) as (n & Hn & Hid & Hbr).
    assert (edge_Source e ∈ branchIDs analysis) as [v Hv]%list_elem_of_lookup by (apply branchIDs_spec; eauto).
    rewrite (proj2 (variables_lookup (edge_Source e) v) Hv).
    eapply runs_bind; [by apply (equal_means m v (edge_Source e))|]. intros m1 r Hm1 Hext Hr.
    eapply runs_weaken; [apply and_means; [done|by apply (extends_ours m)| |exact Hr]|].
    + apply (extends_means m); [done|done|]. by apply Hk.
    + intros m2 f _ _. apply means_iff. intros ρ. split; [intros [? ?]; by split|]. intros [? Htk]. split; [done|]. by apply Htk, Hb.
  - apply runs_ret; [done|]. eapply means_iff; [|by apply Hk]. intros ρ. split; [|by intros [? _]]. intros Ha. split; [done|].
    intros Hex. exfalso. by apply Htype, Hb.
Qed.

Lemma incoming_means es : ∀ m activation l formula P, manager_ok m → ours m → known m activation l →
  (∀ e, e ∈ es → e ∈ doc_Edges d ∧ edge_Source e ∈ l) → means m formula P →
  runs m (incoming_formula analysis activation es formula)
    (λ m' r, means m' r (λ ρ, P ρ ∨ ∃ e, e ∈ es ∧ active d ρ (edge_Source e) ∧ taken d ρ e)).
Proof using Hwf Hgraph.
  induction es as [|e es IH]; intros m activation l formula P Hm Hours Hk Hes Hf; cbn.
  - apply runs_ret; [done|]. eapply means_iff; [|exact Hf]. intros ρ. split; [by left|]. intros [?|(e & ?%not_elem_of_nil & _)]; done.
  - destruct (Hes e) as [He Hsrc]; [by left|].
    eapply runs_bind; [by eapply edge_means|]. intros m1 f1 Hm1 Hext1 Hf1.
    eapply runs_bind; [apply or_means; [done|by apply (extends_ours m)|exact (extends_means m m1 formula P Hm Hext1 Hf)|exact Hf1]|].
    intros m2 f2 Hm2 Hext2 Hf2. assert (extends m m2) as Hext by (by etrans).
    eapply runs_weaken; [apply (IH m2 activation l f2); [done|by apply (extends_ours m)|by apply (extends_known m)| |exact Hf2]|].
    + intros e' He'. apply Hes. by right.
    + intros m3 r _ _. apply means_iff. intros ρ. setoid_rewrite elem_of_cons. naive_solver.
Qed.
(** ** The loop over the order *)

Lemma active_unfold ρ id : active d ρ id ↔ id = start ∨ ∃ e, e ∈ in_edges d id ∧ active d ρ (edge_Source e) ∧ taken d ρ e.
Proof using Hgraph.
  setoid_rewrite elem_of_in_edges. split.
  - intros Ha. destruct Ha as [id Hid|e He Ha Ht]; [left|right; by exists e]. pose proof (gw_start _ _ _ Hgraph). congruence.
  - intros [->|(e & [He <-] & Ha & Ht)]; [|by apply active_edge]. apply active_start, (gw_start _ _ _ Hgraph).
Qed.

Lemma start_analysis : ga_start analysis = start.
Proof using Hgraph. cbn. by rewrite (gw_start _ _ _ Hgraph). Qed.

Lemma formulas_mean rest : ∀ m activation prefix, order = prefix ++ rest → manager_ok m → ours m → known m activation prefix →
  runs m (activation_formulas analysis rest activation) (λ m' activation', known m' activation' order).
Proof using Hwf Hgraph.
  destruct order_facts as (Hnd & Hnodes & Hfwd).
  induction rest as [|id rest IH]; intros m activation prefix Hord Hm Hours Hk; cbn [activation_formulas].
  { apply runs_ret; [done|]. rewrite Hord, app_nil_r. exact Hk. }
  assert (order !! length prefix = Some id) as Hpos by (rewrite Hord; by apply list_lookup_middle).
  assert (id ∉ prefix) as Hfresh.
  { rewrite Hord in Hnd. apply NoDup_app in Hnd as (_ & Hd & _). intros Hin. apply (Hd id Hin). by left. }
  eapply (runs_bind _ _ _ (λ m' f, means m' f (λ ρ, active d ρ id))).
  - case_bool_decide as Hs.
    + apply runs_ret; [done|]. eapply means_iff; [|by apply means_true]. intros ρ. rewrite active_unfold. rewrite start_analysis in Hs. naive_solver.
    + eapply runs_weaken; [apply (incoming_means _ m activation prefix _ (λ _, False)); [done|done|done| |by apply means_false]|].
      * intros e He. cbn in He. rewrite incoming_spec in He. apply elem_of_in_edges in He as [He Htgt]. split; [done|].
        destruct (Hfwd _ _ Hpos (edge_Source e)) as (j & Hj & Hjs); [apply leads_edge; by exists e|].
        rewrite Hord, lookup_app_l in Hjs by done. by eapply list_elem_of_lookup_2.
      * intros m1 f _ _. apply means_iff. intros ρ. rewrite active_unfold. rewrite start_analysis in Hs. cbn.
        setoid_rewrite (incoming_spec d id). tauto.
  - intros m1 f Hm1 Hext Hf. apply (IH m1 _ (prefix ++ [id])); [by rewrite Hord, <-app_assoc|done|by apply (extends_ours m)|].
    intros x [Hx| ->%list_elem_of_singleton]%elem_of_app.
    + rewrite lookup_insert_ne by (by intros ->). apply (extends_means m); [done|done|]. by apply Hk.
    + by rewrite lookup_insert_eq.
Qed.

(** ** References *)

Lemma counterexample_false m c P : manager_ok m → ours m → means m c P → c = decisionFalse ↔ ∀ ρ, chooses_routes d ρ → ¬ P ρ.
Proof using Hwf Hgraph.
  intros Hm Hours [Hv Hc]. split.
  - intros -> ρ Hρ HP. destruct (agreeing_positions ρ Hρ) as (σ & Hσ & Hag). apply (Hc σ ρ Hσ Hag) in HP. by apply holds_false in HP.
  - intros Hnone. pose proof (mo_terminals m Hm) as H2. apply (canonical m); [done| |done| |].
    + rewrite Hours. apply domains_inhabited.
    + unfold valid, decisionFalse. lia.
    + intros σ Hσ. rewrite Hours in Hσ. destruct (agreeing_routes σ Hσ) as (ρ & Hρ & Hag).
      rewrite (Hc σ ρ Hσ Hag). split; [intros HP; by destruct (Hnone ρ Hρ)|intros Hf; by apply holds_false in Hf].
Qed.

Lemma means_dec m f P ρ : manager_ok m → means m f P → chooses_routes d ρ → P ρ ∨ ¬ P ρ.
Proof using Hwf Hgraph.
  intros Hm [Hv Hf] Hρ. destruct (agreeing_positions ρ Hρ) as (σ & Hσ & Hag). rewrite <-(Hf σ ρ Hσ Hag). by apply holds_dec.
Qed.

(** What an input needs to be accepted. *)
Definition input_safe (node : Node) (input : Input) : Prop :=
  input_Source input = SourceRef → reference_safe d (input_RefNode input) (node_ID node).

Lemma binding_safe m activation node i j input : manager_ok m → ours m → known m activation order →
  node ∈ doc_Nodes d → input ∈ inputs_of node →
  runs m (validate_binding analysis activation node i j input) (λ _ r, HasErrors r = false ↔ input_safe node input).
Proof using Hwf Hgraph.
  intros Hm Hours Hk Hn Hi. destruct order_facts as (_ & Hnodes & _). unfold validate_binding, input_safe.
  case_bool_decide as Href; cbn; [|apply runs_ret; [done|]; by split].
  destruct (iw_refs _ _ Hwf node input Hn Hi Href) as (src & _ & Hsrc & Hsid & _).
  assert (input_RefNode input ∈ node_ID <$> doc_Nodes d) as Hsin by (rewrite <-Hsid; by apply list_elem_of_fmap_2).
  pose proof (control_upstream (input_RefNode input) (node_ID node) Hsin) as Hup. unfold reference_safe.
  destruct (isControlUpstream _ _ _); cbn.
  2: { apply runs_ret; [done|]. split; [done|]. intros Hsafe. destruct (Hsafe Href) as [Htc _]. by apply Hup in Htc. }
  eapply runs_bind; [apply not_means; [done|done|apply Hk; by apply Hnodes]|]. intros m1 f1 Hm1 Hext1 Hf1.
  eapply runs_bind; [apply and_means; [done|by apply (extends_ours m)| |exact Hf1]|].
  { apply (extends_means m); [done|done|]. apply Hk, Hnodes. by apply list_elem_of_fmap_2. }
  intros m2 c Hm2 Hext2 Hc. apply runs_ret; [done|].
  assert (ours m2) as Hours2 by (apply (extends_ours m1); [done|by apply (extends_ours m)]).
  pose proof (counterexample_false m2 c _ Hm2 Hours2 Hc) as Hzero. cbn in Hzero.
  destruct (c =? decisionFalse) eqn:Heq.
  - apply Z.eqb_eq in Heq. split; [|done]. intros _ _. split; [by apply Hup|]. intros ρ Hρ Ht.
    destruct (means_dec m _ _ ρ Hm (Hk _ (proj2 (Hnodes _) Hsin)) Hρ) as [Hs|Hs]; [done|]. by destruct (proj1 Hzero Heq ρ Hρ).
  - apply Z.eqb_neq in Heq. split; [done|]. intros Hsafe. exfalso. apply Heq, Hzero. intros ρ Hρ [Ht Hs].
    destruct (Hsafe Href) as [_ Hs']. apply Hs. by apply Hs'.
Qed.
Lemma bindings_mean l : ∀ m activation, manager_ok m → ours m → known m activation order →
  (∀ n i j input, (n, i, j, input) ∈ l → n ∈ doc_Nodes d ∧ input ∈ inputs_of n) →
  runs m (validate_bindings analysis activation l) (λ _ r, HasErrors r = false ↔ ∀ n i j input, (n, i, j, input) ∈ l → input_safe n input).
Proof using Hwf Hgraph.
  induction l as [|[[[n i] j] input] l IH]; intros m activation Hm Hours Hk Hl; cbn [validate_bindings].
  { apply runs_ret; [done|]. split; [by intros _ n i j input ?%not_elem_of_nil|done]. }
  destruct (Hl n i j input) as [Hn Hi]; [by left|].
  eapply runs_bind; [by apply binding_safe|]. intros m1 found Hm1 Hext1 Hfound.
  eapply runs_bind.
  { apply (IH m1); [done|by apply (extends_ours m)|by apply (extends_known m)|]. intros n' i' j' input' Hin. apply (Hl n' i' j'). by right. }
  intros m2 others Hm2 Hext2 Hothers. apply runs_ret; [done|]. rewrite clean_app, Hfound, Hothers. split.
  - intros [H1 H2] n' i' j' input' [[= -> -> -> ->]|Hin]%elem_of_cons; [done|by apply (H2 n' i' j')].
  - intros H. split; [apply (H n i j); by left|]. intros n' i' j' input' Hin. apply (H n' i' j'). by right.
Qed.

Lemma elem_of_all_inputs n i j input : (n, i, j, input) ∈ all_inputs d ↔ doc_Nodes d !! i = Some n ∧ inputs_of n !! j = Some input.
Proof using.
  unfold all_inputs. rewrite list_elem_of_In, in_concat. setoid_rewrite <-list_elem_of_In. split.
  - intros (l & [k Hk]%list_elem_of_lookup & Hin). rewrite list_lookup_imap in Hk. apply fmap_Some in Hk as (m & Hm & ->).
    apply list_elem_of_lookup in Hin as [q Hq]. rewrite list_lookup_imap in Hq. by apply fmap_Some in Hq as (x & Hx & [= -> -> -> ->]).
  - intros [Hn Hi]. exists (imap (λ inputIndex input, (n, i, inputIndex, input)) (inputs_of n)). split.
    2: { apply list_elem_of_lookup. exists j. by rewrite list_lookup_imap, Hi. }
    apply list_elem_of_lookup. exists i. by rewrite list_lookup_imap, Hn.
Qed.

(** Either the diagram became too large, or the answer is exact. *)
Lemma validateDataBindings_exact :
  let m := (binding_diagnostics d analysis (newDecisionManager (domains analysis))).1 in
  validateDataBindings d analysis = [internal_diagnostic too_large] ∧ maxActivationDecisionNodes ≤ Z.of_nat (length (dm_nodes m)) ∨
  (HasErrors (validateDataBindings d analysis) = false ↔ bindings_safe d).
Proof using Hwf Hgraph.
  intros m. unfold validateDataBindings. set (m0 := newDecisionManager (domains analysis)) in *.
  assert (runs m0 (binding_diagnostics d analysis) (λ _ r, HasErrors r = false ↔ ∀ n i j input, (n, i, j, input) ∈ all_inputs d → input_safe n input)) as Hruns.
  { unfold binding_diagnostics. eapply runs_bind.
    - apply (formulas_mean order m0 ∅ []); [done|apply manager_ok_new|done|]. by intros id ?%not_elem_of_nil.
    - intros m1 activation Hm1 Hext Hk. apply bindings_mean; [done|by apply (extends_ours m0)|done|].
      intros n i j input [Hn Hi]%elem_of_all_inputs. split; by eapply list_elem_of_lookup_2. }
  destruct Hruns as (_ & _ & Hr). fold m in Hr. destruct ((binding_diagnostics d analysis m0).2) as [r|x].
  - right. rewrite HasErrors_limit, Hr. unfold bindings_safe, input_safe. split.
    + intros H n input [i Hn]%list_elem_of_lookup [j Hi]%list_elem_of_lookup. apply (H n i j). by apply elem_of_all_inputs.
    + intros H n i j input [Hn Hi]%elem_of_all_inputs. apply H; by eapply list_elem_of_lookup_2.
  - left. destruct Hr as [-> Hlen]. done.
Qed.
End Accepted.
