(* ===== verification/Compiler.v ===== *)
(** * The compiler

    Models internal/compiler/compiler.go: from a document of the author, a
    catalog, a policy and resolved resources to the runtime document, the source
    map, the hashes and the canonical texts, or to diagnostics. *)

From Stdlib Require Import Ascii.
From S2P Require Import Prelude Json Digest Graph Dsl Ir Canonical ControlGraph Activation SourceMap Marshal Handlers.

Open Scope string_scope.
Open Scope list_scope.
Open Scope Z_scope.

Definition maxCompiledArtifactBytes : Z := 16777216.

Definition VersionV1 : string := "compiler-v1".

(** ** Requests and results *)

Record Compiler : Type := MkCompiler {
  cp_version : string; cp_registry : Registry; cp_dslContract : Contract; cp_compatibility : CompatibilityChecker }.

Record Request : Type := MkRequest {
  rq_IR : Ir.Document; rq_Catalog : option NodeCatalog; rq_Policy : Policy; rq_Resources : ResourceBindings }.

Record Manifest : Type := MkManifest { mf_CompilerVersion : string; mf_CatalogRevision : string; mf_PolicyRevision : string }.

Record Hashes : Type := MkHashes { hs_IRHash : string; hs_DSLHash : string; hs_SourceMapHash : string; hs_DefinitionHash : string }.

Record Result : Type := MkResult {
  r_DSL : Dsl.Document; r_SourceMap : SourceMap.Document; r_Manifest : Manifest; r_Hashes : Hashes;
  r_CanonicalIR : string; r_CanonicalDSL : string; r_CanonicalSourceMap : string }.

Definition New (version : string) (registry : Registry) (contract : Contract) (compatibility : CompatibilityChecker) : res Compiler :=
  guard_err (is_empty version) (Errorf "compiler version is required" []) ;;
  guard_err (is_empty (ct_version contract)) (Errorf "DSL contract is required" []) ;;
  Ok (MkCompiler version registry contract compatibility).

(** ** Execution identities *)

(** The first twelve bytes of the digest. *)
Definition deterministicSuffix (kind logicalID : string) : string :=
  hex_of (take 12 (sum256 (String.concat nul ["evalfrog"; "dsl-v1"; kind; logicalID]))).

Definition executionNodeID (id : string) : string := "xn_" +:+ deterministicSuffix "node" id.
Definition executionEdgeID (id : string) : string := "xe_" +:+ deterministicSuffix "edge" id.

(** The execution identity of an element, met before for another one? *)
Definition collides (execution : string → string) (earlier : list string) (id : string) : bool :=
  match List.find (λ previous, bool_decide (execution previous = execution id)) (rev earlier) with
  | Some previous => negb (bool_decide (previous = id))
  | None => false
  end.

Definition execution_ids (execution : string → string) (ids : list string) : gmap string string :=
  fold_left (λ m id, <[id := execution id]> m) ids ∅.

Definition collision_diagnostics (execution : string → string) (ids : list string) (code message : string)
    (location : string → nat → Ir.Location) : list Diagnostic :=
  concat (imap (λ index id, report (collides execution (take index ids) id) PhaseCompile code message (location id index)) ids).

Definition buildExecutionIDs (document : Ir.Document) : gmap string string * gmap string string * list Diagnostic :=
  let nodes := node_ID <$> doc_Nodes document in
  let edges := edge_ID <$> doc_Edges document in
  (execution_ids executionNodeID nodes, execution_ids executionEdgeID edges,
   SortDiagnostics
     (collision_diagnostics executionNodeID nodes "EXECUTION_NODE_ID_COLLISION" "deterministic execution node id collided"
        (λ id index, at_node id (NodePath id index))
      ++ collision_diagnostics executionEdgeID edges "EXECUTION_EDGE_ID_COLLISION" "deterministic execution edge id collided"
        (λ id index, at_edge id (EdgePath id index)))).

(** ** Issues of the later checks *)

Definition issue_diagnostic (phase : Phase) (sourceMap : SourceMap.Document) (issue : Issue) : Diagnostic :=
  let node := at_or_empty (sm_Nodes sourceMap) (is_NodeID issue) in
  let location := Ir.MkLocation node
    (at_or_empty (sm_Edges sourceMap) (is_EdgeID issue))
    (if is_empty node then "" else at_or_empty (fields_of sourceMap (is_NodeID issue)) (is_Field issue)) in
  with_details
    {["execution_node_id" := DetailString (is_NodeID issue); "execution_edge_id" := DetailString (is_EdgeID issue);
      "dsl_field" := DetailString (is_Field issue)]}
    (ErrorDiagnostic phase (is_Code issue) (is_Message issue) location).

Definition dslIssuesToDiagnostics (issues : list Issue) (sourceMap : SourceMap.Document) : list Diagnostic :=
  LimitDiagnostics (SortDiagnostics (issue_diagnostic PhaseDSL sourceMap <$> issues)).

(** The fields of a configuration entry for which the runtime may report. *)
Definition required_config (type name raw : string) : list string :=
  if bool_decide (type = "task.python") && bool_decide (name = "sandbox_profile") then []
  else
    let root := "operation.config." +:+ name in
    [root]
    ++ (if bool_decide (type = "control.branch") && bool_decide (name = "cases") then
          concat (imap (λ index branchCase, (λ field, root +:+ "." +:+ pretty index +:+ "." +:+ field) <$> sorted_keys branchCase)
            (default [] (unmarshal_syn raw ≫= decode_list decode_raw_map)))
        else [])
    ++ (if bool_decide (type = "task.python") && bool_decide (name = "model_artifact") then [root +:+ ".id"; root +:+ ".digest"] else []).

Definition required_fields (node : Dsl.Node) : list string :=
  uniqueStrings (sort_strings (
    ((λ name, "inputs." +:+ name) <$> sorted_keys (inputs node))
    ++ ((λ name, "outputs." +:+ name) <$> sorted_keys (outputs node))
    ++ flat_map (λ '(name, raw), required_config (op_Type (nd_Operation node)) name raw) (sorted_items (config node)))).

Definition requiredSourceFields (document : Dsl.Document) : gmap string (list string) :=
  fold_left (λ m node, <[nd_ID node := required_fields node]> m) (dc_Nodes document) ∅.

Definition ValidateSourceMap (document : Dsl.Document) (sourceMap : SourceMap.Document) : list Diagnostic :=
  LimitDiagnostics (SortDiagnostics (issue_diagnostic PhaseSourceMap sourceMap <$> SourceMap.Validate sourceMap document (requiredSourceFields document))).

(** ** Hashes *)

Definition canonicalHash (encoded : res string) : res (string * string) :=
  encoded ← encoded;
  canonical ← CanonicalizeJSON encoded (MkParseLimits maxCompiledArtifactBytes (MaxDepth DefaultParseLimits) (MaxStringBytes DefaultParseLimits)
                                          (MaxNumberBytes DefaultParseLimits) (MaxCollectionItems DefaultParseLimits));
  Ok (canonical, HashCanonical canonical).

Definition CanonicalizeDocument (document : Ir.Document) : res string :=
  encoded ← marshal_ir document; CanonicalizeJSON encoded DefaultParseLimits.

Definition CanonicalDocumentHash (document : Ir.Document) : res (string * string) :=
  canonical ← CanonicalizeDocument document; Ok (canonical, HashCanonical canonical).

Definition marshal_manifest (m : Manifest) : string :=
  marshal_object [("compiler_version", marshal_string (mf_CompilerVersion m)); ("catalog_revision", marshal_string (mf_CatalogRevision m));
                  ("policy_revision", marshal_string (mf_PolicyRevision m))].

Definition marshal_envelope (irHash dslHash sourceMapHash : string) (manifest : Manifest) : string :=
  marshal_object [("ir_hash", marshal_string irHash); ("dsl_hash", marshal_string dslHash); ("source_map_hash", marshal_string sourceMapHash);
                  ("compiler_manifest", marshal_manifest manifest)].

Definition canonical_failure (code : string) (x : error) : list Diagnostic :=
  [ErrorDiagnostic PhaseCanonical code (error_string x) no_location].

(** A step of a compilation: diagnostics or a value. *)
Definition compiled (A : Type) : Type := (list Diagnostic + A)%type.

#[export] Instance compiled_ret : MRet compiled := λ A a, inr a.
#[export] Instance compiled_bind : MBind compiled := λ A B f m, match m with inl d => inl d | inr a => f a end.

Definition or_failure {A} (code : string) (r : res A) : compiled A :=
  match r with Ok a => inr a | Err x => inl (canonical_failure code x) end.

(** [if ir.HasErrors(diagnostics) { return Result{}, diagnostics }] *)
Definition unless_errors (diagnostics : list Diagnostic) : compiled unit := if HasErrors diagnostics then inl diagnostics else inr tt.
Definition unless_issues (issues : list Issue) (sourceMap : SourceMap.Document) : compiled unit :=
  if HasIssues issues then inl (dslIssuesToDiagnostics issues sourceMap) else inr tt.

Definition finalizeHashes (document : Ir.Document) (dsl : Dsl.Document) (sourceMap : SourceMap.Document) (manifest : Manifest) : compiled Result :=
  '(canonicalIR, irHash) ← or_failure "IR_CANONICALIZATION_FAILED" (CanonicalDocumentHash document);
  '(canonicalDSL, dslHash) ← or_failure "DSL_CANONICALIZATION_FAILED" (canonicalHash (marshal_dsl dsl));
  '(canonicalSourceMap, sourceMapHash) ← or_failure "SOURCE_MAP_CANONICALIZATION_FAILED" (canonicalHash (marshal_source_map sourceMap));
  '(_, definitionHash) ← or_failure "DEFINITION_HASH_FAILED" (canonicalHash (Ok (marshal_envelope irHash dslHash sourceMapHash manifest)));
  mret (MkResult dsl sourceMap manifest (MkHashes irHash dslHash sourceMapHash definitionHash) canonicalIR canonicalDSL canonicalSourceMap).

(** ** Compilation *)

Definition handlerMatchesCatalog (handler : Handler) (runtime : RuntimeContract) : bool :=
  let kind := if bool_decide (rc_Kind runtime = KindTask) then KindTask else KindControl in
  bool_decide (h_Kind handler = kind)
  && bool_decide (co_Type (h_Coordinate handler) = rc_OperationType runtime)
  && bool_decide (co_Version (h_Coordinate handler) = rc_OperationVersion runtime).

(** One node: its diagnostics and, unless they hold an error, the execution
    node with its field mappings. *)
Definition compile_node (registry : Registry) (catalog : NodeCatalog) (policy : Policy) (resources : ResourceBindings)
    (executionNodes : gmap string string) (nodeIndex : nat) (node : Ir.Node) : list Diagnostic * option (Dsl.Node * gmap string string) :=
  let fail code message := ([ErrorDiagnostic PhaseCompile code message (at_node (node_ID node) (NodePath (node_ID node) nodeIndex))], None) in
  match registry !! node_Type node with
  | None => fail "COMPILER_HANDLER_NOT_REGISTERED" "node type has no compiler handler"
  | Some handler =>
      match nc_RuntimeContract catalog (node_Type node) with
      | None => fail "COMPILER_CATALOG_MISMATCH" "compiler handler does not match the catalog runtime contract"
      | Some runtime =>
          if negb (handlerMatchesCatalog handler runtime)
          then fail "COMPILER_CATALOG_MISMATCH" "compiler handler does not match the catalog runtime contract"
          else match resolve policy (node_Type node) (rc_DefaultExecutionPolicy runtime) (rc_Kind runtime) with
          | Err x => fail "EXECUTION_POLICY_INVALID" (error_string x)
          | Ok resolved =>
              let id := default "" (executionNodes !! node_ID node) in
              let '(product, values) := h_Compile handler (MkCompileContext id executionNodes resolved resources nodeIndex) node in
              if HasErrors values then (values, None)
              else match np_Config product, np_Inputs product, np_Outputs product, np_FieldMappings product with
              | Some config, Some inputs, Some outputs, Some mappings =>
                  (values, Some
                    (Dsl.MkNode id (h_Kind handler)
                       (MkOperation (co_Type (h_Coordinate handler)) (co_Version (h_Coordinate handler)) (Some config))
                       (Some inputs) (Some outputs) resolved, mappings))
              | _, _, _, _ =>
                  (values ++ (fail "COMPILER_HANDLER_PRODUCT_INVALID" "compiler handler returned nil product containers").1, None)
              end
          end
      end
  end.

Definition compile_edge (graph : graphAnalysis) (executionNodes executionEdges : gmap string string) (edge : Ir.Edge) : Dsl.Edge :=
  Dsl.MkEdge (default "" (executionEdges !! edge_ID edge)) (default "" (executionNodes !! edge_Source edge)) (default "" (executionNodes !! edge_Target edge))
    (if bool_decide (type_of graph (edge_Source edge) = "branch") then MkActivation ActivationRoute (edge_Route edge)
     else MkActivation ActivationAlways "").

Definition node_leb (a b : Dsl.Node) : bool := String.leb (nd_ID a) (nd_ID b).
Definition edge_leb (a b : Dsl.Edge) : bool := String.leb (ed_ID a) (ed_ID b).

Definition source_map (nodes : list (Ir.Node * (Dsl.Node * gmap string string))) (edges : list (Ir.Edge * Dsl.Edge)) : SourceMap.Document :=
  SourceMap.MkDocument SourceMap.VersionV1
    (fold_left (λ m '(n, (x, _)), <[nd_ID x := node_ID n]> m) nodes ∅)
    (fold_left (λ m '(e, x), <[ed_ID x := edge_ID e]> m) edges ∅)
    (fold_left (λ m '(_, (x, mappings)), <[nd_ID x := mappings]> m) nodes ∅).

Definition Compile (compiler : Compiler) (request : Request) : compiled Result :=
  match rq_Catalog request with
  | None => inl [ErrorDiagnostic PhaseCompile "CATALOG_REQUIRED" "compiler requires an immutable node catalog" no_location]
  | Some catalog =>
      if is_empty (po_revision (rq_Policy request))
      then inl [ErrorDiagnostic PhaseCompile "POLICY_REQUIRED" "compiler requires an immutable project policy" no_location]
      else
        let document := rq_IR request in
        _ ← unless_errors (Validator_Validate (Some (nc_ValidateNode catalog)) document);
        let '(graph, graphDiagnostics) := analyzeControlGraph document in
        _ ← unless_errors graphDiagnostics;
        _ ← unless_errors (validateDataBindings document graph);
        let '(executionNodes, executionEdges, collisions) := buildExecutionIDs document in
        _ ← unless_errors collisions;
        let manifest := MkManifest (cp_version compiler) (nc_Revision catalog) (po_revision (rq_Policy request)) in
        let outcomes := imap (compile_node (cp_registry compiler) catalog (rq_Policy request) (rq_Resources request) executionNodes)
                          (doc_Nodes document) in
        let diagnostics := concat (fst <$> outcomes) in
        _ ← (if HasErrors diagnostics then inl (LimitDiagnostics (SortDiagnostics diagnostics)) else inr tt);
        let nodes := omap (λ '(n, (_, x)), (λ y, (n, y)) <$> x) (zip (doc_Nodes document) outcomes) in
        let edges := (λ e, (e, compile_edge graph executionNodes executionEdges e)) <$> doc_Edges document in
        let dsl := Dsl.MkDocument Dsl.VersionV1 (default "" (executionNodes !! ga_start graph)) (default "" (executionNodes !! ga_end graph))
          (stable_sort node_leb ((λ p, p.2.1) <$> nodes)) (stable_sort edge_leb (snd <$> edges)) in
        let sourceMap := source_map nodes edges in
        _ ← unless_issues (Dsl.Validate (cp_dslContract compiler) dsl) sourceMap;
        _ ← unless_issues (CheckAll (cp_compatibility compiler) dsl) sourceMap;
        _ ← unless_errors (ValidateSourceMap dsl sourceMap);
        finalizeHashes document dsl sourceMap manifest
  end.

(** The built-in compiler, for the source check of the built-in contract. *)
Definition BuiltinV1 (ValidateSource : string → option (string * string)) : Compiler :=
  res_or (MkCompiler "" ∅ (MkContract "" ∅) (NewCompatibilityChecker []))
    (New VersionV1 BuiltinRegistry (BuiltinV1Contract ValidateSource) BuiltinV1Compatibility).
