(* ===== verification/CompilerFacts.v ===== *)
(** * What a compilation guarantees

    A successful compilation passed every check, and its runtime document and
    source map are those of the author's document, element by element; a
    compilation that fails says so with an error. *)

From Stdlib Require Import Ascii.
From S2P Require Import Prelude Json Digest Graph Dsl Ir IrFacts Canonical ControlGraph ControlFacts Activation DecisionFacts ActivationFacts.
From S2P Require Import SourceMap Marshal Handlers Compiler.

Open Scope string_scope.
Open Scope list_scope.
Open Scope Z_scope.

(** ** Steps of a compilation *)

Lemma compiled_bind_inr {A B} (m : compiled A) (f : A → compiled B) b : (m ≫= f) = inr b ↔ ∃ a, m = inr a ∧ f a = inr b.
Proof. destruct m; cbn; split; [done|naive_solver|eauto|naive_solver]. Qed.

Lemma unless_errors_inr l u : unless_errors l = inr u ↔ HasErrors l = false.
Proof. unfold unless_errors. destruct (HasErrors l), u; done. Qed.

Lemma unless_issues_inr l m u : unless_issues l m = inr u ↔ l = [].
Proof. unfold unless_issues, HasIssues. destruct l, u; cbn; done. Qed.

(** ** Execution identities *)

Lemma execution_ids_lookup execution ids id : execution_ids execution ids !! id = if decide (id ∈ ids) then Some (execution id) else None.
Proof.
  unfold execution_ids. induction ids as [|x ids IH] using rev_ind; [done|].
  rewrite fold_left_app. cbn [fold_left]. rewrite lookup_insert, IH.
  destruct (decide (x = id)) as [->|Hne]; [by rewrite decide_True by set_solver|].
  destruct (decide (id ∈ ids)); [by rewrite decide_True by set_solver|by rewrite decide_False by set_solver].
Qed.

Lemma execution_id_of execution ids id : id ∈ ids → default "" (execution_ids execution ids !! id) = execution id.
Proof. intros Hid. by rewrite execution_ids_lookup, decide_True. Qed.

(** Identities that are checked one by one against the earlier ones are
    checked against each other. *)
Lemma collides_false execution earlier id : id ∉ earlier → collides execution earlier id = false →
  ∀ previous, previous ∈ earlier → execution previous ≠ execution id.
Proof.
  intros Hid Hc previous Hp Heq. unfold collides in Hc.
  destruct (List.find (λ previous, bool_decide (execution previous = execution id)) (rev earlier)) as [x|] eqn:Hf.
  - apply find_some in Hf as [Hin _]. apply in_rev, list_elem_of_In in Hin. bool_prop. congruence.
  - assert (In previous (rev earlier)) as Hin by (rewrite <-in_rev; by apply list_elem_of_In).
    pose proof (find_none _ _ Hf previous Hin) as Hn. cbn in Hn. by rewrite bool_decide_true in Hn.
Qed.

Lemma collisions_clean execution ids code message location :
  NoDup ids → HasErrors (collision_diagnostics execution ids code message location) = false →
  ∀ a b, a ∈ ids → b ∈ ids → execution a = execution b → a = b.
Proof.
  intros Hnd Hclean a b [i Ha]%list_elem_of_lookup [j Hb]%list_elem_of_lookup Heq.
  unfold collision_diagnostics in Hclean. rewrite clean_imap in Hclean.
  assert (∀ i j a b, ids !! i = Some a → ids !! j = Some b → execution a = execution b → (i < j)%nat → False) as Hlt.
  { clear i j a b Ha Hb Heq. intros i j a b Ha Hb Heq Hij. specialize (Hclean j b Hb). rewrite clean_report in Hclean.
    apply (collides_false execution (take j ids) b) with (previous := a);
      [by apply (proj1 (NoDup_take ids))|done|apply elem_of_take; eauto|done]. }
  destruct (Nat.lt_trichotomy i j) as [?|[->|?]]; [by destruct (Hlt i j a b)|congruence|by destruct (Hlt j i b a)].
Qed.

(** ** Nodes *)

Section Compiled.
Context (compiler : Compiler) (catalog : NodeCatalog) (request : Request).

Local Notation document := (rq_IR request).
Local Notation node_ids := (node_ID <$> doc_Nodes document).
Local Notation edge_ids := (edge_ID <$> doc_Edges document).
Local Notation executionNodes := (execution_ids executionNodeID node_ids).
Local Notation compile := (compile_node (cp_registry compiler) catalog (rq_Policy request) (rq_Resources request) executionNodes).

(** An execution node and its field mappings, and what they come from. *)
Record compiled_node (n : Ir.Node) (x : Dsl.Node) (mappings : gmap string string) : Prop := {
  cn_id : nd_ID x = executionNodeID (node_ID n);
  cn_handler : ∃ h runtime index product values,
    cp_registry compiler !! node_Type n = Some h ∧ nc_RuntimeContract catalog (node_Type n) = Some runtime ∧
    handlerMatchesCatalog h runtime = true ∧
    resolve (rq_Policy request) (node_Type n) (rc_DefaultExecutionPolicy runtime) (rc_Kind runtime) = Ok (nd_ExecutionPolicy x) ∧
    h_Compile h (MkCompileContext (nd_ID x) executionNodes (nd_ExecutionPolicy x) (rq_Resources request) index) n = (product, values) ∧
    HasErrors values = false ∧ nd_Kind x = h_Kind h ∧ coordinate x = h_Coordinate h ∧
    op_Config (nd_Operation x) = np_Config product ∧ nd_Inputs x = np_Inputs product ∧ nd_Outputs x = np_Outputs product ∧
    np_FieldMappings product = Some mappings }.

Lemma compile_node_clean index n : n ∈ doc_Nodes document → HasErrors (compile index n).1 = false →
  ∃ x mappings, (compile index n).2 = Some (x, mappings) ∧ compiled_node n x mappings.
Proof.
  intros Hn. unfold compile_node. rewrite execution_id_of by (by apply list_elem_of_fmap_2).
  destruct (cp_registry compiler !! node_Type n) as [h|] eqn:Hh; [|done].
  destruct (nc_RuntimeContract catalog (node_Type n)) as [runtime|] eqn:Hr; [|done].
  destruct (handlerMatchesCatalog h runtime) eqn:Hm; [|done]. cbn [negb].
  destruct (resolve _ _ _ _) as [resolved|] eqn:Hres; [|done].
  destruct (h_Compile h _ n) as [product values] eqn:Hc. destruct (HasErrors values) eqn:Hv; [cbn [fst]; congruence|].
  assert (∀ l, HasErrors (values ++ [ErrorDiagnostic PhaseCompile "COMPILER_HANDLER_PRODUCT_INVALID" l (at_node (node_ID n) (NodePath (node_ID n) index))]) = false → False) as Hbad.
  { intros l [_ Hl]%clean_app. done. }
  destruct (np_Config product) as [config|] eqn:H1; [|by intros []%Hbad].
  destruct (np_Inputs product) as [inputs|] eqn:H2; [|by intros []%Hbad].
  destruct (np_Outputs product) as [outputs|] eqn:H3; [|by intros []%Hbad].
  destruct (np_FieldMappings product) as [mappings|] eqn:H4; [|by intros []%Hbad].
  intros _. eexists _, mappings. split; [done|]. constructor; [done|].
  exists h, runtime, index, product, values. cbn. rewrite H1, H2, H3, H4. unfold coordinate, Operation_Coordinate. cbn. by destruct (h_Coordinate h).
Qed.

Local Notation outcomes := (imap compile (doc_Nodes document)).

Lemma compiled_nodes_zip l f : (∀ i n, l !! i = Some n → n ∈ doc_Nodes document ∧ HasErrors (compile (f i)%nat n).1 = false) →
  let nodes := omap (λ '(n, (_, x)), (λ y, (n, y)) <$> x) (zip l (imap (λ i n, compile (f i) n) l)) in
  fst <$> nodes = l ∧ ∀ n x mappings, (n, (x, mappings)) ∈ nodes → compiled_node n x mappings.
Proof.
  revert f. induction l as [|n l IH]; intros f Hl; [split; [done|]; by intros n x m ?%not_elem_of_nil|].
  destruct (Hl 0%nat n eq_refl) as [Hn Hc]. destruct (compile_node_clean (f 0%nat) n Hn Hc) as (x & mappings & Hx & Hok).
  destruct (IH (λ i, f (S i))) as [Hids Hall]; [intros i m Hm; by apply (Hl (S i))|].
  cbn. destruct (compile (f 0%nat) n) as [ds o]. cbn in Hx. subst o. cbn. split.
  - f_equal. exact Hids.
  - intros m y z [[= -> -> ->]|Hin]%elem_of_cons; [done|]. by apply Hall.
Qed.
End Compiled.

(** ** The whole compilation *)

Lemma table_fmap {A B C} (key : A → string) (value : A → B) (g : C → A) (f : gmap string B → C → gmap string B) l :
  (∀ m x, f m x = <[key (g x) := value (g x)]> m) → fold_left f l ∅ = table key value (g <$> l).
Proof.
  intros Hf. unfold table. generalize (∅ : gmap string B). induction l as [|x l IH]; intros m; cbn; [done|]. by rewrite Hf, IH.
Qed.

(** The activation of an edge: the route of a branch, else always. *)
Definition compiled_activation (d : Ir.Document) (e : Ir.Edge) (a : Activation) : Prop :=
  (∃ n, n ∈ doc_Nodes d ∧ node_ID n = edge_Source e ∧ node_Type n = "branch") ∧ a = MkActivation ActivationRoute (edge_Route e) ∨
  (¬ ∃ n, n ∈ doc_Nodes d ∧ node_ID n = edge_Source e ∧ node_Type n = "branch") ∧ a = MkActivation ActivationAlways "".

Record compiled_edge (d : Ir.Document) (e : Ir.Edge) (x : Dsl.Edge) : Prop := {
  ce_id : ed_ID x = executionEdgeID (edge_ID e);
  ce_source : ed_SourceNodeID x = executionNodeID (edge_Source e);
  ce_target : ed_TargetNodeID x = executionNodeID (edge_Target e);
  ce_activation : compiled_activation d e (ed_Activation x) }.

(** A one-to-one map between the elements of two lists. *)
Definition images {A B} (key : A → string) (key' : B → string) (execution : string → string) (R : A → B → Prop) (l : list A) (k : list B) : Prop :=
  (∀ a b, a ∈ key <$> l → b ∈ key <$> l → execution a = execution b → a = b) ∧
  key' <$> k ≡ₚ (λ x, execution (key x)) <$> l ∧
  (∀ x, x ∈ l → ∃ y, y ∈ k ∧ R x y) ∧ (∀ y, y ∈ k → ∃ x, x ∈ l ∧ R x y).

(** The hashes are those of the canonical texts; the hash of the definition is
    that of the envelope of the other three and the manifest. *)
Definition hashes_ok (d : Ir.Document) (result : Result) : Prop :=
  let h := r_Hashes result in
  CanonicalizeDocument d = Ok (r_CanonicalIR result) ∧ hs_IRHash h = HashCanonical (r_CanonicalIR result) ∧
  canonicalHash (marshal_dsl (r_DSL result)) = Ok (r_CanonicalDSL result, hs_DSLHash h) ∧
  canonicalHash (marshal_source_map (r_SourceMap result)) = Ok (r_CanonicalSourceMap result, hs_SourceMapHash h) ∧
  ∃ canonical, canonicalHash (Ok (marshal_envelope (hs_IRHash h) (hs_DSLHash h) (hs_SourceMapHash h) (r_Manifest result)))
    = Ok (canonical, hs_DefinitionHash h).

Record compile_success (compiler : Compiler) (catalog : NodeCatalog) (request : Request) (result : Result) : Prop := {
  cs_ir : ir_wf (Some (nc_ValidateNode catalog)) (rq_IR request);
  cs_graph : ∃ start stop, graph_wf (rq_IR request) start stop ∧
    dc_EntryNodeID (r_DSL result) = executionNodeID start ∧ dc_ExitNodeID (r_DSL result) = executionNodeID stop;
  cs_safe : bindings_safe (rq_IR request);
  cs_nodes : images node_ID nd_ID executionNodeID
    (λ n x, ∃ mappings, compiled_node compiler catalog request n x mappings ∧ sm_Fields (r_SourceMap result) !! nd_ID x = Some mappings)
    (doc_Nodes (rq_IR request)) (dc_Nodes (r_DSL result));
  cs_edges : images edge_ID ed_ID executionEdgeID (compiled_edge (rq_IR request)) (doc_Edges (rq_IR request)) (dc_Edges (r_DSL result));
  cs_node_map : ∀ x id, sm_Nodes (r_SourceMap result) !! x = Some id ↔ id ∈ node_ID <$> doc_Nodes (rq_IR request) ∧ x = executionNodeID id;
  cs_edge_map : ∀ x id, sm_Edges (r_SourceMap result) !! x = Some id ↔ id ∈ edge_ID <$> doc_Edges (rq_IR request) ∧ x = executionEdgeID id;
  cs_contract : doc_wf (cp_dslContract compiler) (r_DSL result);
  cs_compatible : CheckAll (cp_compatibility compiler) (r_DSL result) = [];
  cs_source_map : HasErrors (ValidateSourceMap (r_DSL result) (r_SourceMap result)) = false;
  cs_hashes : hashes_ok (rq_IR request) result }.

Lemma images_pairs {A B} (key : A → string) (key' : B → string) execution (R : A → B → Prop) l k (pairs : list (A * B)) :
  (∀ a b, a ∈ key <$> l → b ∈ key <$> l → execution a = execution b → a = b) →
  fst <$> pairs = l → k ≡ₚ snd <$> pairs → (∀ p, p ∈ pairs → key' p.2 = execution (key p.1) ∧ R p.1 p.2) →
  images key key' execution R l k.
Proof.
  intros Hinj <- Hk Hp. split; [done|]. split; [|split].
  - rewrite Hk, <-!list_fmap_compose. erewrite list_fmap_ext; [done|]. intros i p Hi. cbn. by apply Hp, list_elem_of_lookup_2 with i.
  - intros x (p & -> & Hin)%list_elem_of_fmap. exists p.2. rewrite Hk. split; [by apply list_elem_of_fmap_2|by apply Hp].
  - intros y Hy. rewrite Hk in Hy. apply list_elem_of_fmap in Hy as (p & -> & Hin). exists p.1. split; [by apply list_elem_of_fmap_2|by apply Hp].
Qed.

(** The tables of the source map, by execution identity. *)
Lemma reverse_table {A} (pairs : list (A * string)) (ids : list string) (key : A → string) execution :
  snd <$> pairs = ids → NoDup ids → (∀ a b, a ∈ ids → b ∈ ids → execution a = execution b → a = b) →
  (∀ p, p ∈ pairs → key p.1 = execution p.2) →
  ∀ x id, table (λ p, key p.1) snd pairs !! x = Some id ↔ id ∈ ids ∧ x = execution id.
Proof.
  intros <- Hnd Hinj Hkey x id.
  assert (NoDup ((λ p, key p.1) <$> pairs)) as Hkeys.
  { assert ((λ p : A * string, key p.1) <$> pairs = execution <$> (snd <$> pairs)) as ->.
    { rewrite <-list_fmap_compose. apply list_fmap_ext. intros i p Hi. cbn. by apply Hkey, list_elem_of_lookup_2 with i. }
    apply NoDup_fmap_2_strong; [|done]. intros a b Ha Hb. by apply Hinj. }
  rewrite table_lookup by done. split.
  - intros (p & Hp & <- & <-). split; [by apply list_elem_of_fmap_2|by apply Hkey].
  - intros [(p & -> & Hp)%list_elem_of_fmap ->]. exists p. split; [done|]. split; [by apply Hkey|done].
Qed.

Lemma or_failure_inr {A} code (r : res A) a : or_failure code r = inr a ↔ r = Ok a.
Proof. destruct r; cbn; naive_solver. Qed.

Lemma canonicalHash_Ok encoded canonical hash : canonicalHash encoded = Ok (canonical, hash) → hash = HashCanonical canonical.
Proof. unfold canonicalHash. by intros (x & _ & (y & _ & [= <- <-])%bind_Ok)%bind_Ok. Qed.

Lemma finalize_inr d dsl m manifest result : finalizeHashes d dsl m manifest = inr result →
  r_DSL result = dsl ∧ r_SourceMap result = m ∧ r_Manifest result = manifest ∧ hashes_ok d result.
Proof.
  unfold finalizeHashes. intros H.
  apply compiled_bind_inr in H as ([c1 h1] & H1%or_failure_inr & H).
  apply compiled_bind_inr in H as ([c2 h2] & H2%or_failure_inr & H).
  apply compiled_bind_inr in H as ([c3 h3] & H3%or_failure_inr & H).
  apply compiled_bind_inr in H as ([c4 h4] & H4%or_failure_inr & H). injection H as <-. do 3 (split; [done|]).
  unfold CanonicalDocumentHash in H1. apply bind_Ok in H1 as (x1 & H1 & [= <- <-]).
  unfold hashes_ok. cbn [r_Hashes r_CanonicalIR r_DSL r_CanonicalDSL r_SourceMap r_CanonicalSourceMap r_Manifest hs_IRHash hs_DSLHash hs_SourceMapHash hs_DefinitionHash].
  split_and!; try done. by exists c4.
Qed.

(** ** Assembling the documents *)

Section Assembly.
Context (compiler : Compiler) (catalog : NodeCatalog) (request : Request).
Context (start stop : string) (Hir : ir_wf (Some (nc_ValidateNode catalog)) (rq_IR request)) (Hgraph : graph_wf (rq_IR request) start stop).

Local Notation d := (rq_IR request).
Local Notation node_ids := (node_ID <$> doc_Nodes d).
Local Notation edge_ids := (edge_ID <$> doc_Edges d).
Local Notation executionNodes := (execution_ids executionNodeID node_ids).
Local Notation executionEdges := (execution_ids executionEdgeID edge_ids).
Local Notation outcomes := (imap (compile_node (cp_registry compiler) catalog (rq_Policy request) (rq_Resources request) executionNodes) (doc_Nodes d)).
Local Notation nodes := (omap (λ '(n, (_, x)), (λ y, (n, y)) <$> x) (zip (doc_Nodes d) outcomes)).
Local Notation edges := ((λ e, (e, compile_edge (control_graph d) executionNodes executionEdges e)) <$> doc_Edges d).

Lemma compile_edge_ok e : e ∈ doc_Edges d → compiled_edge d e (compile_edge (control_graph d) executionNodes executionEdges e).
Proof using Hir.
  intros He. destruct (iw_edges _ _ Hir e He) as (_ & s & t & Hs & Ht & Hse & Hte & _). unfold compile_edge. constructor; cbn.
  - apply execution_id_of. by apply list_elem_of_fmap_2.
  - apply execution_id_of. rewrite <-Hse. by apply list_elem_of_fmap_2.
  - apply execution_id_of. rewrite <-Hte. by apply list_elem_of_fmap_2.
  - unfold compiled_activation. rewrite <-(source_branch _ d Hir e He). case_bool_decide; [by left|by right].
Qed.

Lemma nodes_compiled : HasErrors (concat (fst <$> outcomes)) = false →
  fst <$> nodes = doc_Nodes d ∧ ∀ n x mappings, (n, (x, mappings)) ∈ nodes → compiled_node compiler catalog request n x mappings.
Proof using.
  intros Hclean. apply (compiled_nodes_zip compiler catalog request (doc_Nodes d) (λ i, i)). intros i n Hn.
  split; [by eapply list_elem_of_lookup_2|]. rewrite clean_forall in Hclean |- *. intros x Hx. apply Hclean.
  apply list_elem_of_In, in_concat. eexists. split; apply list_elem_of_In; [|exact Hx]. apply list_elem_of_fmap.
  eexists. split; [done|]. apply list_elem_of_lookup. exists i. by rewrite list_lookup_imap, Hn.
Qed.

Context (nodes_ok : HasErrors (concat (fst <$> outcomes)) = false).
Context (node_inj : ∀ a b, a ∈ node_ids → b ∈ node_ids → executionNodeID a = executionNodeID b → a = b).
Context (edge_inj : ∀ a b, a ∈ edge_ids → b ∈ edge_ids → executionEdgeID a = executionEdgeID b → a = b).

Lemma node_map_spec x id : sm_Nodes (source_map nodes edges) !! x = Some id ↔ id ∈ node_ids ∧ x = executionNodeID id.
Proof using Hir nodes_ok node_inj.
  destruct (nodes_compiled nodes_ok) as [Hids Hall].
  assert (sm_Nodes (source_map nodes edges) = table (λ p, nd_ID p.1) snd ((λ '(n, (x, _)), (x, node_ID n)) <$> nodes)) as ->.
  { apply table_fmap. by intros m [n [y z]]. }
  assert (snd <$> ((λ '(n, (x, _)), (x, node_ID n)) <$> nodes) = node_ids) as Hsnd.
  { transitivity (node_ID <$> (fst <$> nodes)); [|by rewrite Hids]. rewrite <-!list_fmap_compose. apply list_fmap_ext. by intros i [n [y m]] _. }
  apply (reverse_table _ _ nd_ID executionNodeID); [done|apply (iw_ids _ _ Hir)|done|].
  intros p ([n [y m]] & -> & Hin)%list_elem_of_fmap. cbn. by destruct (Hall n y m Hin).
Qed.

Lemma edge_map_spec x id : sm_Edges (source_map nodes edges) !! x = Some id ↔ id ∈ edge_ids ∧ x = executionEdgeID id.
Proof using Hir edge_inj.
  assert (sm_Edges (source_map nodes edges) = table (λ p, ed_ID p.1) snd ((λ '(e, x), (x, edge_ID e)) <$> edges)) as ->.
  { apply table_fmap. by intros m [e y]. }
  assert (snd <$> ((λ '(e, x), (x, edge_ID e)) <$> edges) = edge_ids) as Hsnd.
  { rewrite <-!list_fmap_compose. by apply list_fmap_ext. }
  apply (reverse_table _ _ ed_ID executionEdgeID); [done|apply (iw_edge_ids _ _ Hir)|done|].
  intros p ([e y] & -> & (e' & [= -> ->] & Hin)%list_elem_of_fmap)%list_elem_of_fmap. by apply compile_edge_ok.
Qed.

Lemma fields_spec n x mappings : (n, (x, mappings)) ∈ nodes → sm_Fields (source_map nodes edges) !! nd_ID x = Some mappings.
Proof using Hir nodes_ok node_inj.
  intros Hin. destruct (nodes_compiled nodes_ok) as [Hids Hall].
  assert (sm_Fields (source_map nodes edges) = table (λ p, nd_ID p.1) snd (snd <$> nodes)) as ->.
  { apply table_fmap. by intros m [n' [y z]]. }
  apply table_lookup.
  - assert ((λ p : Dsl.Node * gmap string string, nd_ID p.1) <$> (snd <$> nodes) = executionNodeID <$> node_ids) as ->.
    { transitivity (executionNodeID <$> (node_ID <$> (fst <$> nodes))); [|by rewrite Hids]. rewrite <-!list_fmap_compose. apply list_fmap_ext. intros i [m [y z]] Hi. cbn.
      by destruct (Hall m y z (list_elem_of_lookup_2 _ _ _ Hi)). }
    apply NoDup_fmap_2_strong; [done|apply (iw_ids _ _ Hir)].
  - exists (x, mappings). split; [|done]. by apply (list_elem_of_fmap_2 snd) in Hin.
Qed.
End Assembly.

Lemma of_type_id d type id : id ∈ of_type type d → id ∈ node_ID <$> doc_Nodes d.
Proof.
  unfold of_type. intros (n & -> & Hn)%list_elem_of_fmap. apply list_elem_of_fmap_2. rewrite list_elem_of_In in Hn |- *.
  by apply filter_In in Hn as [? _].
Qed.

Lemma Compile_success compiler request result : Compile compiler request = inr result →
  ∃ catalog, rq_Catalog request = Some catalog ∧ compile_success compiler catalog request result.
Proof.
  unfold Compile. destruct (rq_Catalog request) as [catalog|]; [|done]. destruct (is_empty _); [done|]. intros H.
  exists catalog. split; [done|]. set (d := rq_IR request) in *.
  apply compiled_bind_inr in H as ([] & Hir%unless_errors_inr%Validator_Validate_wf & H).
  destruct (analyzeControlGraph d) as [graph gd] eqn:Hg.
  apply compiled_bind_inr in H as ([] & Hclean%unless_errors_inr & H).
  assert (graph = control_graph d) as -> by (unfold analyzeControlGraph in Hg; congruence).
  assert (∃ start stop, graph_wf d start stop) as (start & stop & Hgraph).
  { apply (analyzeControlGraph_clean (Some (nc_ValidateNode catalog)) d Hir). by rewrite Hg. }
  apply compiled_bind_inr in H as ([] & Hbind%unless_errors_inr & H).
  cbn [buildExecutionIDs] in H. unfold buildExecutionIDs in H.
  apply compiled_bind_inr in H as ([] & Hcol%unless_errors_inr & H).
  set (outcomes := imap _ (doc_Nodes d)) in H. apply compiled_bind_inr in H as ([] & Hout & H).
  destruct (HasErrors (concat (fst <$> outcomes))) eqn:Hdiag; [done|]. clear Hout.
  set (nodes := omap _ (zip (doc_Nodes d) outcomes)) in H. set (edges := _ <$> doc_Edges d) in H.
  apply compiled_bind_inr in H as ([] & Hval%unless_issues_inr%Validate_doc_wf & H).
  apply compiled_bind_inr in H as ([] & Hcompat%unless_issues_inr & H).
  apply compiled_bind_inr in H as ([] & Hsm%unless_errors_inr & H).
  apply finalize_inr in H as (Hdsl & Hmap & _ & Hhash).
  assert (HasErrors (collision_diagnostics executionNodeID (node_ID <$> doc_Nodes d) "EXECUTION_NODE_ID_COLLISION" "deterministic execution node id collided"
    (λ id index, at_node id (NodePath id index))) = false ∧ HasErrors (collision_diagnostics executionEdgeID (edge_ID <$> doc_Edges d)
    "EXECUTION_EDGE_ID_COLLISION" "deterministic execution edge id collided" (λ id index, at_edge id (EdgePath id index))) = false) as [Hnc Hec].
  { apply clean_app. eapply clean_perm; [|exact Hcol]. apply stable_sort_perm. }
  pose proof (collisions_clean _ _ _ _ _ (iw_ids _ _ Hir) Hnc) as Hninj.
  pose proof (collisions_clean _ _ _ _ _ (iw_edge_ids _ _ Hir) Hec) as Heinj.
  destruct (nodes_compiled compiler catalog request Hdiag) as [Hids Hall].
  rewrite <-Hdsl, <-Hmap in *. constructor; try done.
  - exists start, stop. split; [done|]. rewrite Hdsl. cbn [dc_EntryNodeID dc_ExitNodeID].
    change (ga_start (control_graph d)) with (the_one (of_type "start" d)). change (ga_end (control_graph d)) with (the_one (of_type "end" d)).
    rewrite (gw_start _ _ _ Hgraph), (gw_end _ _ _ Hgraph). split; apply execution_id_of.
    + apply (of_type_id d "start"). rewrite (gw_start _ _ _ Hgraph). by left.
    + apply (of_type_id d "end"). rewrite (gw_end _ _ _ Hgraph). by left.
  - destruct (validateDataBindings_exact (Some (nc_ValidateNode catalog)) d Hir start stop Hgraph) as [[Hd _]|Hexact]; [by rewrite Hd in Hbind|by apply Hexact].
  - rewrite Hdsl, Hmap. cbn [dc_Nodes].
    apply (images_pairs _ _ _ _ _ _ ((λ p, (p.1, p.2.1)) <$> nodes) Hninj).
    + by rewrite <-list_fmap_compose.
    + rewrite stable_sort_perm. by rewrite <-list_fmap_compose.
    + intros p ([n [x m]] & -> & Hin)%list_elem_of_fmap. pose proof (Hall n x m Hin) as Hx. split; [by destruct Hx|].
      exists m. split; [done|]. by apply (fields_spec compiler catalog request Hir Hdiag Hninj n).
  - rewrite Hdsl. cbn [dc_Edges]. apply (images_pairs _ _ _ _ _ _ edges Heinj).
    + unfold edges. rewrite <-list_fmap_compose. by apply list_fmap_id.
    + by rewrite stable_sort_perm.
    + intros p (e & -> & He)%list_elem_of_fmap. pose proof (compile_edge_ok catalog request Hir e He) as Hx. split; [by destruct Hx|done].
  - rewrite Hmap. by apply (node_map_spec compiler catalog request Hir Hdiag).
  - rewrite Hmap. by apply (edge_map_spec compiler catalog request Hir).
Qed.

(** ** Failure *)

Definition reports {A} (m : compiled A) : Prop := ∀ l, m = inl l → HasErrors l = true.

Lemma reports_bind {A B} (m : compiled A) (f : A → compiled B) : reports m → (∀ a, reports (f a)) → reports (m ≫= f).
Proof. intros Hm Hf l. destruct m as [l'|a]; cbn; [intros [= ->]; by apply Hm|apply Hf]. Qed.

Lemma reports_inr {A} (a : A) : reports (inr a).
Proof. by intros l. Qed.

Lemma reports_unless_errors l : reports (unless_errors l).
Proof. unfold unless_errors. intros k. destruct (HasErrors l) eqn:Hl; [by intros [= <-]|done]. Qed.

Lemma HasErrors_issues phase m issues : issues ≠ [] → HasErrors (LimitDiagnostics (SortDiagnostics (issue_diagnostic phase m <$> issues))) = true.
Proof. rewrite HasErrors_limit. by destruct issues. Qed.

Lemma reports_unless_issues issues m : reports (unless_issues issues m).
Proof.
  unfold unless_issues, HasIssues. intros l. destruct (bool_decide (length issues = 0%nat)) eqn:Hi; [done|].
  intros [= <-]. apply HasErrors_issues. by destruct issues.
Qed.

Lemma reports_failure {A} code (r : res A) : reports (or_failure code r).
Proof. intros l. destruct r; cbn; [done|]. by intros [= <-]. Qed.

Lemma Compile_reports compiler request : reports (Compile compiler request).
Proof.
  unfold Compile. destruct (rq_Catalog request) as [catalog|]; [|by intros l [= <-]]. destruct (is_empty _); [by intros l [= <-]|].
  apply reports_bind; [apply reports_unless_errors|]. intros [].
  destruct (analyzeControlGraph _) as [graph gd]. apply reports_bind; [apply reports_unless_errors|]. intros [].
  apply reports_bind; [apply reports_unless_errors|]. intros []. destruct (buildExecutionIDs _) as [[ns es] collisions].
  apply reports_bind; [apply reports_unless_errors|]. intros []. apply reports_bind.
  { destruct (HasErrors (concat _)) eqn:Hd; [|done]. intros l [= <-]. by rewrite HasErrors_limit. }
  intros []. apply reports_bind; [apply reports_unless_issues|]. intros [].
  apply reports_bind; [apply reports_unless_issues|]. intros []. apply reports_bind; [apply reports_unless_errors|]. intros [].
  unfold finalizeHashes. repeat (apply reports_bind; [apply reports_failure|]; intros []). apply reports_inr.
Qed.

(** ** References of an execution node *)

(** What the compiler needs of a handler: an execution node reads an output only
    where the author's node has a reference, and reads the same output. *)
Class FaithfulHandler (h : Handler) : Prop :=
  faithful : ∀ context node product values name b o,
    h_Compile h context node = (product, values) → map_val (np_Inputs product) !! name = Some b → ib_Output b = Some o →
    ∃ i, i ∈ inputs_of node ∧ input_Source i = SourceRef ∧
      cx_executionIDs context !! input_RefNode i = Some (or_NodeID o) ∧ input_RefOutput i = or_Name o.

(** The inputs of a product in progress, and the handlers that only add to them. *)
Definition faithful_inputs (context : CompileContext) (node : Ir.Node) (b : building) : Prop :=
  ∀ name binding o, b_Inputs b !! name = Some binding → ib_Output binding = Some o →
    ∃ i, i ∈ inputs_of node ∧ input_Source i = SourceRef ∧
      cx_executionIDs context !! input_RefNode i = Some (or_NodeID o) ∧ input_RefOutput i = or_Name o.

Section Faithful.
Context (context : CompileContext) (node : Ir.Node).
Local Notation ok := (faithful_inputs context node).

Lemma faithful_empty : ok (emptyProduct node).
Proof. intros name b o Hb. cbn in Hb. by rewrite lookup_empty in Hb. Qed.

Lemma faithful_same b b' : b_Inputs b' = b_Inputs b → ok b → ok b'.
Proof. unfold faithful_inputs. by intros ->. Qed.

Lemma faithful_add name input b : input ∈ inputs_of node → ok b → ok (add_input name (compileInput context node input) b).
Proof.
  intros Hi Hb. unfold add_input. destruct (compileInput context node input) as [values|binding] eqn:Hc; [done|].
  intros k y o. cbn. rewrite lookup_insert. case_decide; [|apply Hb]. intros [= <-] Ho. exists input.
  unfold compileInput in Hc. destruct (input_Source input); [by destruct (CanonicalizeLiteral _); simplify_eq/=| |done].
  destruct (cx_executionIDs context !! input_RefNode input) eqn:Hx; simplify_eq/=. done.
Qed.

Lemma findInput_elem name i input : findInput node name = Some (i, input) → input ∈ inputs_of node.
Proof. intros (Hi & _)%list_find_Some. by eapply list_elem_of_lookup_2. Qed.

Lemma faithful_named name b : ok b → ok (add_input name (compileNamedInput context node name) b).
Proof.
  intros Hb. unfold compileNamedInput. destruct (findInput node name) as [[i input]|] eqn:Hf; [|done].
  apply faithful_add; [by eapply findInput_elem|done].
Qed.

Lemma faithful_present name b : ok b → ok (add_present context node b name).
Proof.
  intros Hb. unfold add_present. destruct (findInput node name) as [[i input]|] eqn:Hf; [|done].
  apply faithful_add; [by eapply findInput_elem|done].
Qed.

Lemma faithful_fold {A} (f : building → A → building) l : (∀ b x, x ∈ l → ok b → ok (f b x)) → ∀ b, ok b → ok (fold_left f l b).
Proof.
  induction l as [|x l IH]; intros Hf b Hb; [done|]. cbn. apply IH; [intros; apply Hf; [by right|done]|]. apply Hf; [by left|done].
Qed.

Lemma faithful_config name b : ok b → ok (add_branch_config context node b name).
Proof.
  intros Hb. unfold add_branch_config. destruct (findInput node name) as [[i input]|]; [|done].
  destruct (negb _); [done|]. by destruct (CanonicalizeLiteral _).
Qed.

Lemma faithful_cases index branchCase b : ok b → ok (case_mappings b index branchCase).
Proof. intros Hb. unfold case_mappings. by apply faithful_fold. Qed.
End Faithful.

Lemma faithful_product context node b product_ values name binding o : faithful_inputs context node b → product b = (product_, values) →
  map_val (np_Inputs product_) !! name = Some binding → ib_Output binding = Some o →
  ∃ i, i ∈ inputs_of node ∧ input_Source i = SourceRef ∧
    cx_executionIDs context !! input_RefNode i = Some (or_NodeID o) ∧ input_RefOutput i = or_Name o.
Proof. intros Hb [= <- <-]. apply Hb. Qed.

#[export] Instance faithful_start t k c : FaithfulHandler (MkHandler t k c compileStart).
Proof. intros context node ? ? ? ? ? H. eapply faithful_product; [|exact H]. apply faithful_empty. Qed.
#[export] Instance faithful_end t k c : FaithfulHandler (MkHandler t k c compileEnd).
Proof. intros context node ? ? ? ? ? H. eapply faithful_product; [|exact H]. apply faithful_named, faithful_empty. Qed.
#[export] Instance faithful_branch t k c : FaithfulHandler (MkHandler t k c compileBranch).
Proof.
  intros context node ? ? ? ? ? H. eapply faithful_product; [|exact H].
  apply faithful_fold; [intros x [index branchCase] _; apply faithful_cases|].
  apply faithful_fold; [intros x y _; apply faithful_config|]. apply faithful_named, faithful_empty.
Qed.

(** The configuration is built before any input. *)
Lemma faithful_none context node b : b_Inputs b = ∅ → faithful_inputs context node b.
Proof. intros Hb name binding o H. by rewrite Hb, lookup_empty in H. Qed.

Ltac no_inputs := apply faithful_none; repeat case_match; done.

#[export] Instance faithful_code t k c : FaithfulHandler (MkHandler t k c compileCode).
Proof.
  intros context node ? ? ? ? ? H. eapply faithful_product; [|exact H].
  apply faithful_fold; [intros x input Hi Hx; destruct (_ || _)%bool; [done|by apply faithful_add]|]. no_inputs.
Qed.
#[export] Instance faithful_http t k c : FaithfulHandler (MkHandler t k c compileHTTP).
Proof.
  intros context node ? ? ? ? ? H. cbn [h_Compile] in H. unfold compileHTTP in H.
  destruct (literalString (found_input node "connection_ref")) as [connectionRef valid]. eapply faithful_product; [|exact H].
  apply faithful_fold; [intros x y _; apply faithful_present|]. no_inputs.
Qed.
#[export] Instance faithful_rpc t k c : FaithfulHandler (MkHandler t k c compileRPC).
Proof.
  intros context node ? ? ? ? ? H. cbn [h_Compile] in H. unfold compileRPC in H.
  destruct (literalString (found_input node "service_ref")) as [serviceRef valid], (literalString (found_input node "operation")) as [operation valid'].
  eapply faithful_product; [|exact H]. apply faithful_present. no_inputs.
Qed.

Definition FaithfulRegistry (registry : Registry) : Prop := ∀ t h, registry !! t = Some h → FaithfulHandler h.

Lemma add_handlers_faithful handlers : ∀ registry registry', (∀ h, h ∈ handlers → FaithfulHandler h) → FaithfulRegistry registry →
  add_handlers registry handlers = Ok registry' → FaithfulRegistry registry'.
Proof.
  induction handlers as [|h handlers IH]; intros registry registry' Hh Hr; cbn [add_handlers]; [by intros [= <-]|].
  intros (_ & (_ & (_ & H)%bind_guard)%bind_guard)%bind_guard. eapply (IH (<[h_NodeType h := h]> registry)); [|intros t x|exact H].
  - intros x Hx. apply Hh. by right.
  - intros [[<- <-]|[_ Hx]]%(lookup_insert_Some (M := gmap string)); [apply Hh; by left|by apply (Hr t)].
Qed.

Lemma builtin_registry_faithful : FaithfulRegistry BuiltinRegistry.
Proof.
  unfold BuiltinRegistry. destruct (NewRegistry _) as [registry|] eqn:Hr; [|intros t h Hx; cbn [res_or] in Hx; by apply (lookup_empty_Some (M := gmap string)) in Hx].
  cbn [res_or]. eapply add_handlers_faithful; [| |exact Hr].
  - intros h Hh. rewrite !elem_of_cons, elem_of_nil in Hh. destruct Hh as [->|[->|[->|[->|[->|[->|[]]]]]]]; apply _.
  - by intros t h Hx%(lookup_empty_Some (M := gmap string)).
Qed.
