(* ===== verification/CompilerProps.v ===== *)
(** * Compiling a workflow: theorems

    The validators of the author's representation accept exactly the documents
    with the properties they are there for, the diagram that decides activation
    is canonical, and a reference is accepted exactly when it is safe. *)

From Stdlib Require Import Ascii.
From S2P Require Import Prelude Json Graph Dsl Ir IrFacts ControlGraph ControlFacts Activation DecisionFacts ActivationFacts.

Open Scope string_scope.
Open Scope list_scope.
Open Scope Z_scope.

(** ** Decision diagrams *)

(** What a sequence of calls on one manager can ask for. *)
Inductive formula : Type :=
  | FTrue | FFalse
  | FRoute (variable : nat) (route : string)
  | FAnd (f g : formula)
  | FOr (f g : formula)
  | FNot (f : formula).

Fixpoint build (f : formula) : dec Z :=
  match f with
  | FTrue => mret decisionTrue
  | FFalse => mret decisionFalse
  | FRoute variable route => equal (Z.of_nat variable) route
  | FAnd f g => a ← build f; b ← build g; and_ a b
  | FOr f g => a ← build f; b ← build g; or_ a b
  | FNot f => a ← build f; not_ a
  end.

(** A choice [σ] gives every variable a position in its domain. *)
Fixpoint satisfies (D : list (list string)) (σ : nat → nat) (f : formula) : Prop :=
  match f with
  | FTrue => True
  | FFalse => False
  | FRoute variable route => takes D variable route σ
  | FAnd f g => satisfies D σ f ∧ satisfies D σ g
  | FOr f g => satisfies D σ f ∨ satisfies D σ g
  | FNot f => ¬ satisfies D σ f
  end.

Fixpoint variables_in (n : nat) (f : formula) : Prop :=
  match f with
  | FTrue | FFalse => True
  | FRoute variable _ => (variable < n)%nat
  | FAnd f g | FOr f g => variables_in n f ∧ variables_in n g
  | FNot f => variables_in n f
  end.

Definition stands_for (m : decisionManager) (id : Z) (f : formula) : Prop :=
  valid m id ∧ ∀ σ, chooses (dm_domains m) σ → (holds (dm_nodes m) σ id ↔ satisfies (dm_domains m) σ f).

Lemma extends_stands_for m m' id f : manager_ok m → extends m m' → stands_for m id f → stands_for m' id f.
Proof.
  intros Hm Hext [Hv Hf]. split; [by apply (extends_valid m)|]. intros σ Hσ.
  pose proof (proj1 Hext) as Hd. rewrite Hd in Hσ |- *. rewrite (extends_holds m m' Hm Hext) by done. by apply Hf.
Qed.

Lemma binary_stands_for o (op : Z → Z → dec Z) f g h m a b :
  (∀ m a b, manager_ok m → valid m a → valid m b → runs m (op a b) (λ m' r, apply_result m' o a b r)) →
  (∀ D σ, satisfies D σ h ↔ denotes_op o (satisfies D σ f) (satisfies D σ g)) →
  manager_ok m → stands_for m a f → stands_for m b g → runs m (op a b) (λ m' r, stands_for m' r h).
Proof.
  intros Hop Hh Hm [Ha Hfa] [Hb Hfb]. eapply runs_weaken; [by apply Hop|].
  intros m1 r Hm1 Hext (Hr & _ & Hfr). split; [done|]. intros σ Hσ. rewrite (Hfr σ Hσ), Hh.
  rewrite (proj1 Hext) in Hσ |- *. destruct o; cbn; rewrite !(extends_holds m m1 Hm Hext) by done; by rewrite (Hfa σ Hσ), (Hfb σ Hσ).
Qed.

Lemma build_binary o (op : Z → Z → dec Z) f g h m :
  (∀ m a b, manager_ok m → valid m a → valid m b → runs m (op a b) (λ m' r, apply_result m' o a b r)) →
  (∀ D σ, satisfies D σ h ↔ denotes_op o (satisfies D σ f) (satisfies D σ g)) →
  runs m (build f) (λ m' id, stands_for m' id f) →
  (∀ m1, manager_ok m1 → extends m m1 → runs m1 (build g) (λ m' id, stands_for m' id g)) →
  runs m (a ← build f; b ← build g; op a b) (λ m' r, stands_for m' r h).
Proof.
  intros Hop Hh Hf Hg. eapply runs_bind; [done|]. intros m1 a Hm1 Hext1 Ha.
  eapply runs_bind; [by apply Hg|]. intros m2 b Hm2 Hext2 Hb.
  apply (binary_stands_for o op f g); [done..|by apply (extends_stands_for m1)|done].
Qed.

Lemma build_runs f : ∀ m, manager_ok m → (∀ d, d ∈ dm_domains m → d ≠ []) → variables_in (length (dm_domains m)) f →
  runs m (build f) (λ m' id, stands_for m' id f).
Proof.
  induction f as [| |variable route|f IHf g IHg|f IHf g IHg|f IHf]; intros m Hm Hne Hvars; cbn [build variables_in] in *.
  - apply runs_ret; [done|]. pose proof (mo_terminals m Hm). split; [unfold valid, decisionTrue; lia|].
    intros σ _. split; [done|]. intros _. constructor.
  - apply runs_ret; [done|]. pose proof (mo_terminals m Hm). split; [unfold valid, decisionFalse; lia|].
    intros σ _. split; [apply holds_false|done].
  - apply equal_runs; [done..|]. unfold domain_at. rewrite Nat2Z.id. apply lookup_lt_is_Some in Hvars as [dom Hdom].
    rewrite Hdom. apply Hne. by eapply list_elem_of_lookup_2.
  - destruct Hvars as [Hvf Hvg]. apply (build_binary OpAnd and_); [apply and_runs|done|by apply IHf|].
    intros m1 Hm1 [Hd1 _]. apply IHg; [done|by rewrite Hd1..].
  - destruct Hvars as [Hvf Hvg]. apply (build_binary OpOr or_); [apply or_runs|done|by apply IHf|].
    intros m1 Hm1 [Hd1 _]. apply IHg; [done|by rewrite Hd1..].
  - eapply runs_bind; [by apply IHf|]. intros m1 a Hm1 Hext1 [Ha Hfa].
    eapply runs_weaken; [by apply not_runs|]. intros m2 r Hm2 Hext2 (Hr & _ & Hfr). split; [done|]. intros σ Hσ.
    rewrite (Hfr σ Hσ). cbn. rewrite !(extends_holds m1 m2 Hm1 Hext2) by done.
    rewrite (proj1 Hext2) in Hσ |- *. by rewrite (Hfa σ Hσ).
Qed.

(** C9: the activation diagram is canonical: two formulas over the routes of the
    branches, built one after the other on one manager, get the same identity
    exactly when the same choices of routes satisfy them; so comparing an
    identity with [decisionFalse] decides satisfiability.  Only a diagram of more
    than 250000 nodes makes a call fail. *)
Theorem diagrams_canonical (domains : list (list string)) (f g : formula) :
  (∀ d, d ∈ domains → d ≠ []) → variables_in (length domains) f → variables_in (length domains) g →
  let m := ((build f ≫= λ a, build g ≫= λ b, mret (a, b)) (newDecisionManager domains)).1 in
  match ((build f ≫= λ a, build g ≫= λ b, mret (a, b)) (newDecisionManager domains)).2 with
  | Ok (a, b) => a = b ↔ ∀ σ, chooses domains σ → (satisfies domains σ f ↔ satisfies domains σ g)
  | Err x => x = too_large ∧ maxActivationDecisionNodes ≤ Z.of_nat (length (dm_nodes m))
  end.
Proof.
  intros Hne Hf Hg m. pose proof (manager_ok_new domains) as Hm0.
  assert (runs (newDecisionManager domains) (build f ≫= λ a, build g ≫= λ b, mret (a, b))
            (λ m' p, stands_for m' p.1 f ∧ stands_for m' p.2 g)) as (Hm & Hext & Hr).
  { eapply runs_bind; [by apply build_runs|]. intros m1 a Hm1 Hext1 Ha. pose proof (proj1 Hext1) as Hd1.
    eapply runs_bind; [apply build_runs; [done|by rewrite Hd1..]|]. intros m2 b Hm2 Hext2 Hb.
    apply runs_ret; [done|]. split; [by apply (extends_stands_for m1 m2)|done]. }
  fold m in Hm, Hext, Hr. pose proof (proj1 Hext) as Hd. cbn in Hd.
  destruct (((build f ≫= λ a, build g ≫= λ b, mret (a, b)) (newDecisionManager domains)).2) as [[a b]|x]; [|done].
  cbn in Hr. destruct Hr as [[Ha Hfa] [Hb Hfb]]. rewrite Hd in Hfa, Hfb. split.
  - intros <- σ Hσ. by rewrite <-(Hfa σ Hσ), (Hfb σ Hσ).
  - intros Heq. apply (canonical m); [done|by rewrite Hd|done..|]. intros σ Hσ. rewrite Hd in Hσ.
    by rewrite (Hfa σ Hσ), (Hfb σ Hσ), Heq.
Qed.

Definition sample_left : formula := FAnd (FRoute 0 "x") (FNot (FRoute 1 "u")).
Definition sample_right : formula := FNot (FOr (FRoute 0 "y") (FRoute 1 "u")).

Lemma diagrams_canonical_witness :
  ((build sample_left ≫= λ a, build sample_right ≫= λ b, mret (a, b)) (newDecisionManager [["x"; "y"]; ["u"; "v"]])).2 = Ok (5, 5) ∧
  ∀ σ, chooses [["x"; "y"]; ["u"; "v"]] σ →
    (satisfies [["x"; "y"]; ["u"; "v"]] σ sample_left ↔ satisfies [["x"; "y"]; ["u"; "v"]] σ sample_right).
Proof.
  assert (((build sample_left ≫= λ a, build sample_right ≫= λ b, mret (a, b)) (newDecisionManager [["x"; "y"]; ["u"; "v"]])).2 = Ok (5, 5)) as Hr
    by (vm_compute; reflexivity).
  split; [exact Hr|].
  pose proof (diagrams_canonical [["x"; "y"]; ["u"; "v"]] sample_left sample_right) as H. cbv zeta in H.
  rewrite Hr in H. apply H; [|cbn; lia..|done].
  intros d [->|[->|[]%elem_of_nil]%elem_of_cons]%elem_of_cons; discriminate.
Defined.

(** ** The author's document *)

(** C10: the validator accepts exactly the well-formed documents, whatever the
    catalog says of each node: unique and safe identifiers, limits, ports with
    valid names and types, literals of their type, references to existing
    outputs of a compatible type, edges between existing nodes with routes where
    they belong, a position for every node and for nothing else. *)
Theorem ir_validation_exact (contract : option (Node → list Diagnostic)) (document : Document) :
  HasErrors (Validator_Validate contract document) = false ↔ ir_wf contract document.
Proof. apply Validator_Validate_wf. Qed.

(** C8: the control-graph analysis accepts exactly the graphs that the engine
    can run: one start and one end, the start alone without incoming and the end
    alone without outgoing edges, branch edges and declared routes that match, no
    cycle, every node reachable from the start and reaching the end. *)
Theorem control_graph_exact (contract : option (Node → list Diagnostic)) (document : Document) :
  HasErrors (Validator_Validate contract document) = false →
  HasErrors (analyzeControlGraph document).2 = false ↔ ∃ start stop, graph_wf document start stop.
Proof. intros Hir%Validator_Validate_wf. by apply (analyzeControlGraph_clean contract). Qed.

(** The rows of bits are the transitive closure of the edges: on an accepted
    graph [isControlUpstream] holds of two nodes exactly when a path of at least
    one edge leads from the first to the second. *)
Theorem control_upstream_closure (contract : option (Node → list Diagnostic)) (document : Document) (source target : string) :
  HasErrors (Validator_Validate contract document) = false → HasErrors (analyzeControlGraph document).2 = false →
  source ∈ node_ID <$> doc_Nodes document →
  isControlUpstream (analyzeControlGraph document).1 source target = true ↔ tc (leads document) source target.
Proof.
  intros Hir%Validator_Validate_wf Hgraph Hs.
  apply (analyzeControlGraph_clean contract _ Hir) in Hgraph as (start & stop & Hgraph).
  by apply (control_upstream contract document Hir start stop Hgraph).
Qed.

(** C7: data bindings are checked exactly: on an accepted graph every reference is
    to a node that comes before and is activated whenever the referring node is,
    under every choice of routes, exactly when the check reports no error.  Else
    the diagram grew past 250000 nodes and the document is refused. *)
Theorem data_bindings_exact (contract : option (Node → list Diagnostic)) (document : Document) :
  HasErrors (Validator_Validate contract document) = false → HasErrors (analyzeControlGraph document).2 = false →
  let analysis := (analyzeControlGraph document).1 in
  let m := (binding_diagnostics document analysis (newDecisionManager (domains analysis))).1 in
  (HasErrors (validateDataBindings document analysis) = false → bindings_safe document) ∧
  (bindings_safe document → HasErrors (validateDataBindings document analysis) = false
     ∨ maxActivationDecisionNodes ≤ Z.of_nat (length (dm_nodes m))).
Proof.
  intros Hir%Validator_Validate_wf Hgraph.
  apply (analyzeControlGraph_clean contract _ Hir) in Hgraph as (start & stop & Hgraph). cbn [fst analyzeControlGraph].
  destruct (validateDataBindings_exact contract document Hir start stop Hgraph) as [[Hd Hlarge]|Hexact].
  - rewrite Hd. split; [done|]. intros _. by right.
  - rewrite Hexact. split; [done|]. intros H. by left.
Qed.

(** *** A document with a branch *)

Definition quoted (s : string) : string := String (ascii_of_N 34) (s +:+ String (ascii_of_N 34) "").
Definition literal_input (name : string) (t : DataType) (value : string) : Input := MkInput name t SourceLiteral (Some value) "" "".
Definition ref_input (name node output : string) : Input := MkInput name TypeObject SourceRef None node output.
Definition sample_node (id type : string) (inputs : list Input) : Node :=
  MkNode id type "title" (Some inputs) (Some [MkOutput "o" TypeObject]).

(** [start], a branch into [p] or [q], [m] after [p], and [stop] after [m] and [q]. *)
Definition sample_document (read : string) : Document :=
  MkDocument "1"
    [sample_node "s" "start" [];
     sample_node "b" "branch" [literal_input "cases" TypeArray ("[{" +:+ quoted "route" +:+ ":" +:+ quoted "x" +:+ "}]");
                               literal_input "default_route" TypeString (quoted "y")];
     sample_node "p" "code" []; sample_node "q" "code" []; sample_node "m" "code" [ref_input "i" "p" "o"];
     sample_node "e" "end" [ref_input "j" read "o"]]
    [MkEdge "1" "s" "b" ""; MkEdge "2" "b" "p" "x"; MkEdge "3" "b" "q" "y"; MkEdge "4" "p" "m" "";
     MkEdge "5" "m" "e" ""; MkEdge "6" "q" "e" ""]
    (list_to_map ((λ id, (id, MkPosition (Some "0") (Some "0"))) <$> ["s"; "b"; "p"; "q"; "m"; "e"])).

Lemma branching_valid : HasErrors (Validator_Validate None (sample_document "s")) = false.
Proof. vm_compute. reflexivity. Qed.
Lemma sample_graph : HasErrors (analyzeControlGraph (sample_document "s")).2 = false.
Proof. vm_compute. reflexivity. Qed.
Lemma sample_bindings : HasErrors (validateDataBindings (sample_document "s") (analyzeControlGraph (sample_document "s")).1) = false.
Proof. vm_compute. reflexivity. Qed.
Lemma sample_small : Z.of_nat (length (dm_nodes (binding_diagnostics (sample_document "p") (analyzeControlGraph (sample_document "p")).1
    (newDecisionManager (domains (analyzeControlGraph (sample_document "p")).1))).1)) < maxActivationDecisionNodes.
Proof. vm_compute. reflexivity. Qed.

Lemma control_graph_exact_witness :
  HasErrors (Validator_Validate None (sample_document "s")) = false ∧ ∃ start stop, graph_wf (sample_document "s") start stop.
Proof.
  split; [exact branching_valid|].
  destruct (control_graph_exact None (sample_document "s") branching_valid) as [H _]. exact (H sample_graph).
Defined.

Lemma control_upstream_closure_witness :
  isControlUpstream (analyzeControlGraph (sample_document "s")).1 "b" "m" = true ∧ tc (leads (sample_document "s")) "b" "m".
Proof.
  assert (isControlUpstream (analyzeControlGraph (sample_document "s")).1 "b" "m" = true) as Hup by (vm_compute; reflexivity).
  split; [exact Hup|].
  destruct (control_upstream_closure None (sample_document "s") "b" "m" branching_valid sample_graph) as [H _]; [|exact (H Hup)].
  right. left.
Defined.

Lemma data_bindings_exact_witness :
  bindings_safe (sample_document "s") ∧ ¬ bindings_safe (sample_document "p").
Proof.
  split.
  - destruct (data_bindings_exact None (sample_document "s") branching_valid sample_graph) as [H _]. exact (H sample_bindings).
  - intros Hsafe.
    destruct (data_bindings_exact None (sample_document "p") ltac:(vm_compute; reflexivity) ltac:(vm_compute; reflexivity)) as [_ H].
    destruct (H Hsafe) as [Hc|Hlarge]; [|pose proof sample_small; lia].
    assert (HasErrors (validateDataBindings (sample_document "p") (analyzeControlGraph (sample_document "p")).1) = true) as He by (vm_compute; reflexivity).
    rewrite He in Hc. discriminate Hc.
Defined.
