(* ===== verification/CatalogProps.v ===== *)
(** * What the catalog accepts

    The check of a node against its description, as a specification of the
    nodes it accepts, and the built-in catalog against the compiler's
    handlers. *)

From Stdlib Require Import Ascii.
From S2P Require Import Prelude Json Digest Graph Dsl Ir IrFacts Canonical SourceMap Marshal Handlers Compiler Catalog.

Open Scope string_scope.
Open Scope list_scope.
Open Scope Z_scope.

(** ** Reports *)

Lemma input_report_nil b node input i c m : input_report b node input i c m = [] ↔ b = false.
Proof. by destruct b. Qed.
Lemma output_report_nil b node output i c m : output_report b node output i c m = [] ↔ b = false.
Proof. by destruct b. Qed.
Lemma node_report_nil b node c m p : node_report b node c m p = [] ↔ b = false.
Proof. by destruct b. Qed.

Lemma imap_nil {A B} (f : nat → A → list B) l : concat (imap f l) = [] ↔ ∀ i x, l !! i = Some x → f i x = [].
Proof.
  revert f. induction l as [|y l IH]; intros f; [by split|]. cbn [imap concat]. rewrite app_nil, IH. split.
  - intros [Hy Hl] [|i] x; cbn [lookup]; [by intros [= <-]|apply Hl].
  - intros H. split; [by apply (H 0%nat)|]. intros i x. apply (H (S i)).
Qed.

(** ** Values *)

Section Conformance.
Context (regexp : string → option (string → bool)).

Definition string_conforms (k : LiteralConstraints) (text : string) : Prop :=
  (0 < lc_MinLength k → lc_MinLength k ≤ rune_count text) ∧
  (0 < lc_MaxLength k → rune_count text ≤ lc_MaxLength k) ∧
  (lc_StringEnum k ≠ [] → text ∈ lc_StringEnum k) ∧
  (lc_StringPattern k ≠ "" → ∃ match_, regexp (lc_StringPattern k) = Some match_ ∧ match_ text = true).

Definition item_conforms (items : ArrayItemConstraint) (item : json) : Prop :=
  ∃ t, json_data_type item = Some t ∧ compatible t (ai_DataType items) = true ∧
    ∀ number, item = JNum number → t = TypeInteger → ∃ z, Int64 number = Some z ∧
      (∀ low, ai_Minimum items = Some low → low ≤ z) ∧ (∀ high, ai_Maximum items = Some high → z ≤ high).

(** A literal that decodes conforms to the constraints of its description. *)
Definition literal_conforms (k : LiteralConstraints) (raw : option string) : Prop :=
  ∀ value t, DecodeLiteral raw = Ok (value, t) →
    match value with
    | JStr text => string_conforms k text
    | JArr values => ∀ items, lc_ArrayItems k = Some items → Forall (item_conforms items) values
    | _ => True
    end.

(** ** Nodes *)

Definition port_allowed (input : Input) (types : list DataType) (sources : list InputSource) : Prop :=
  input_DataType input ∈ types ∧ input_Source input ∈ sources.

Definition described (d : NodeDescription) (name : string) (rule : InputDescription) : Prop :=
  rule ∈ ds_Inputs d ∧ in_Name rule = name.

(** A described input has an allowed type and source and, as a literal, an
    allowed value; another input is one of those the node type takes besides. *)
Definition input_conforms (d : NodeDescription) (input : Input) : Prop :=
  (∃ rule, described d (input_Name input) rule ∧ port_allowed input (in_DataTypes rule) (in_Sources rule) ∧
     ∀ k, in_Constraints rule = Some k → input_Source input = SourceLiteral → literal_conforms k (input_Value input)) ∨
  (∀ rule, ¬ described d (input_Name input) rule) ∧
    ∃ more, ds_AdditionalInputs d = Some more ∧ input_Name input ∉ ad_ReservedNames more ∧
      port_allowed input (ad_DataTypes more) (ad_Sources more).

(** The outputs are exactly the fixed ones, or declared by the author. *)
Definition outputs_conform (d : OutputDescription) (outputs : list Output) : Prop :=
  match ot_Mode d with
  | OutputFixed =>
      (∀ o, o ∈ outputs → ∃ f, f ∈ ot_Fields d ∧ pt_Name f = output_Name o ∧ pt_DataType f = output_DataType o) ∧
      (∀ f, f ∈ ot_Fields d → pt_Name f ∈ output_Name <$> outputs)
  | OutputAuthorDeclared =>
      let count := Z.of_nat (length outputs) in
      ot_MinFields d ≤ count ∧ (0 < ot_MaxFields d → count ≤ ot_MaxFields d) ∧
      (∀ o, o ∈ outputs → output_DataType o ∈ ot_AllowedDataTypes d)
  | OutputModeOther _ => False
  end.

Record node_conforms (d : NodeDescription) (node : Ir.Node) : Prop := {
  nc_inputs : Forall (input_conforms d) (inputs_of node);
  nc_required : ∀ rule, rule ∈ ds_Inputs d → in_Required rule = true → in_Name rule ∈ input_Name <$> inputs_of node;
  nc_outputs : outputs_conform (ds_Outputs d) (outputs_of node) }.

(** What the structural validator has established of the node. *)
Record ports_valid (node : Ir.Node) : Prop := {
  pv_types : Forall (λ i, DataType_Valid (input_DataType i) = true) (inputs_of node);
  pv_sources : Forall (λ i, InputSource_Valid (input_Source i) = true) (inputs_of node);
  pv_literals : Forall (λ i, input_Source i = SourceLiteral → HasValue i = true) (inputs_of node);
  pv_outputs : Forall (λ o, DataType_Valid (output_DataType o) = true) (outputs_of node) }.

(** The names of a description are distinct, which [newCatalog] checks. *)
Record description_ok (d : NodeDescription) : Prop := {
  do_inputs : NoDup (in_Name <$> ds_Inputs d);
  do_outputs : ot_Mode (ds_Outputs d) = OutputFixed → NoDup (pt_Name <$> ot_Fields (ds_Outputs d)) }.

(** ** The checks *)

Lemma validate_string_nil node input i k text : validate_string regexp node input i k text = [] ↔ string_conforms k text.
Proof.
  unfold validate_string, violation, string_conforms. rewrite !app_nil, !input_report_nil, !andb_false_iff, !Z.ltb_ge, !negb_false_iff.
  unfold one_of, is_empty. rewrite !bool_decide_eq_true.
  assert ((Z.of_nat (length (lc_StringEnum k)) ≤ 0) ↔ lc_StringEnum k = []) as -> by (destruct (lc_StringEnum k); cbn; split; intros; [done..|lia|done]).
  assert (match regexp (lc_StringPattern k) with Some match_ => match_ text | None => false end = true ↔
    ∃ match_, regexp (lc_StringPattern k) = Some match_ ∧ match_ text = true) as ->.
  { destruct (regexp (lc_StringPattern k)); [naive_solver|]. split; [done|by intros (? & ? & ?)]. }
  destruct (decide (lc_StringEnum k = [])), (decide (lc_StringPattern k = "")); intuition (try lia; try done).
  all: destruct (Z.le_gt_cases (lc_MinLength k) 0), (Z.le_gt_cases (lc_MaxLength k) 0); tauto.
Qed.

Lemma atoi_bounds number z low high : Int64 number = Some z →
  ((match low with Some low => z <? low | None => false end) || (match high with Some high => high <? z | None => false end)) = false ↔
  (∀ l, low = Some l → l ≤ z) ∧ (∀ h, high = Some h → z ≤ h).
Proof.
  intros _. rewrite orb_false_iff. assert (∀ (P : Z → Prop) (x : Z), (∀ y, Some x = Some y → P y) ↔ P x) as Hsome by (split; [auto|by intros ? ? [= <-]]).
  assert (∀ P : Z → Prop, (∀ y, None = Some y → P y) ↔ True) as Hnone by done.
  destruct low as [l|], high as [h|]; rewrite ?(Hsome (λ l, l ≤ z)), ?(Hsome (λ h, z ≤ h)), ?(Hnone (λ l, l ≤ z)), ?(Hnone (λ h, z ≤ h)), ?Z.ltb_ge; tauto.
Qed.

Lemma validate_item_nil node input i items item : validate_item node input i items item = [] ↔ item_conforms items item.
Proof.
  unfold validate_item, item_conforms, violation, nestedDataType, Compatible. destruct (json_data_type item) as [t|] eqn:Ht; [|naive_solver].
  destruct (compatible t (ai_DataType items)) eqn:Hc; cbn [negb]; [|split; [done|]; intros (? & [= <-] & ? & _); congruence].
  destruct item as [| |number| | |]; try (split; [intros _; exists t; by split_and!|done]).
  rewrite input_report_nil, andb_false_iff, bool_decide_eq_false. destruct (decide (t = TypeInteger)) as [->|Hne].
  - destruct (Int64 number) as [z|] eqn:Hz.
    + rewrite (atoi_bounds number z) by done. split.
      * intros [?|H]; [done|]. exists TypeInteger. split_and!; [done..|]. intros ? [= <-] _. exists z. by rewrite Hz.
      * intros (? & [= <-] & _ & H). right. destruct (H _ eq_refl eq_refl) as (z' & Hz' & H'). rewrite Hz in Hz'. by injection Hz' as ->.
    + split; [by intros [?|?]|]. intros (? & [= <-] & _ & H). destruct (H _ eq_refl eq_refl) as (z' & Hz' & _). by rewrite Hz in Hz'.
  - split; [|by left]. intros _. exists t. split_and!; try done. 
Qed.

Lemma validate_literal_nil node input i k : validateLiteralConstraints regexp node input i k = [] ↔ literal_conforms k (input_Value input).
Proof.
  unfold validateLiteralConstraints, literal_conforms. destruct (DecodeLiteral (input_Value input)) as [[value t]|e]; [|naive_solver].
  assert (∀ P : json → DataType → Prop, (∀ v t', Ok (value, t) = Ok (v, t') :> res (json * DataType) → P v t') ↔ P value t) as Hone by naive_solver.
  rewrite (Hone (λ value t, _)). clear Hone.
  destruct value as [| | |text|values|]; try done; [apply validate_string_nil|].
  destruct (lc_ArrayItems k) as [items|]; [|naive_solver]. rewrite flat_map_nil. split.
  - intros H ? [= <-]. eapply Forall_impl; [exact H|]. intros item. by rewrite validate_item_nil.
  - intros H. eapply Forall_impl; [by apply H|]. intros item. cbn. by rewrite validate_item_nil.
Qed.

Lemma allowed_nil node input i types sources m1 m2 : DataType_Valid (input_DataType input) = true → InputSource_Valid (input_Source input) = true →
  validate_allowed node input i types sources m1 m2 = [] ↔ port_allowed input types sources.
Proof.
  intros Ht Hs. unfold validate_allowed, port_allowed, containsType, containsSource. rewrite app_nil, !input_report_nil, Ht, Hs. cbn [andb].
  by rewrite !negb_false_iff, !bool_decide_eq_true.
Qed.

(** A table built by insertion, when the keys are distinct. *)
Lemma keyed_lookup {A B} (key : A → string) (value : A → B) (l : list A) name b : NoDup (key <$> l) →
  (fold_left (λ m x, <[key x := value x]> m) l ∅ : gmap string B) !! name = Some b ↔ ∃ x, x ∈ l ∧ key x = name ∧ value x = b.
Proof.
  induction l as [|x l IH] using rev_ind; [split; [done|set_solver]|].
  rewrite fmap_app, fold_left_app. intros (Hnd & Hd & _)%NoDup_app. cbn [fold_left]. setoid_rewrite elem_of_app. setoid_rewrite list_elem_of_singleton.
  rewrite lookup_insert. case_decide as Hk.
  - subst name. split; [intros [= <-]; naive_solver|]. intros (y & [Hy| ->] & Hky & <-); [|done].
    destruct (Hd (key x)); [|set_solver]. rewrite <-Hky. by apply list_elem_of_fmap_2.
  - rewrite IH by done. naive_solver.
Qed.

Lemma declared_lookup d name rule : NoDup (in_Name <$> ds_Inputs d) → declared_inputs d !! name = Some rule ↔ described d name rule.
Proof.
  intros Hnd. unfold declared_inputs, described. rewrite (keyed_lookup in_Name id) by done. naive_solver.
Qed.

Lemma validate_input_nil d node i input : description_ok d → DataType_Valid (input_DataType input) = true →
  InputSource_Valid (input_Source input) = true → (input_Source input = SourceLiteral → HasValue input = true) →
  Catalog.validate_input regexp node d i input = [] ↔ input_conforms d input.
Proof.
  intros [Hnd _] Ht Hs Hl. unfold Catalog.validate_input, input_conforms. destruct (declared_inputs d !! input_Name input) as [rule|] eqn:Hr.
  - apply declared_lookup in Hr; [|done]. rewrite app_nil, allowed_nil by done. split.
    + intros [Ha Hc]. left. exists rule. split_and!; [done..|]. intros k Hk Hsrc. rewrite Hk in Hc. rewrite bool_decide_true in Hc by done.
      rewrite (Hl Hsrc) in Hc. by apply validate_literal_nil in Hc.
    + intros [(rule' & Hr' & Ha & Hc)|[Hno _]]; [|by destruct (Hno rule)].
      assert (rule' = rule) as ->.
      { apply declared_lookup in Hr, Hr'; [|done..]. congruence. }
      split; [done|]. destruct (in_Constraints rule) as [k|]; [|done]. case_bool_decide as Hsrc; [|done].
      destruct (HasValue input); [|done]. cbn [andb]. apply validate_literal_nil. by apply Hc.
  - assert (∀ rule, ¬ described d (input_Name input) rule) as Hno.
    { intros rule Hd. apply declared_lookup in Hd; [|done]. congruence. }
    destruct (ds_AdditionalInputs d) as [more|].
    + unfold one_of. case_bool_decide as Hres.
      * split; [done|]. intros [(rule & Hd & _)|(_ & ? & [= <-] & ? & _)]; [by destruct (Hno rule)|done].
      * rewrite allowed_nil by done. split; [intros Ha; right; eauto 6|]. intros [(rule & Hd & _)|(_ & ? & [= <-] & _ & ?)]; [by destruct (Hno rule)|done].
    + split; [done|]. intros [(rule & Hd & _)|(_ & ? & ? & _)]; [by destruct (Hno rule)|done].
Qed.

Lemma forall_positions {A} (P : A → Prop) (Q : nat → A → Prop) (l : list A) : (∀ i x, l !! i = Some x → Q i x ↔ P x) →
  (∀ i x, l !! i = Some x → Q i x) ↔ (∀ x, x ∈ l → P x).
Proof.
  intros H. split.
  - intros HQ x [i Hi]%list_elem_of_lookup. apply (H i); auto.
  - intros HP i x Hi. apply H; [done|]. by eapply HP, list_elem_of_lookup_2.
Qed.

Lemma expected_lookup d name t : NoDup (pt_Name <$> ot_Fields d) →
  expected_outputs d !! name = Some t ↔ ∃ f, f ∈ ot_Fields d ∧ pt_Name f = name ∧ pt_DataType f = t.
Proof. apply keyed_lookup. Qed.

Lemma expected_names d name : NoDup (pt_Name <$> ot_Fields d) →
  name ∈ sorted_keys (expected_outputs d) ↔ ∃ f, f ∈ ot_Fields d ∧ pt_Name f = name.
Proof.
  intros Hnd. rewrite elem_of_sorted_keys. split.
  - intros [t (f & ? & ? & _)%expected_lookup]; eauto.
  - intros (f & Hf & Hn). exists (pt_DataType f). apply expected_lookup; eauto.
Qed.

Lemma validateOutputs_nil d node : (ot_Mode d = OutputFixed → NoDup (pt_Name <$> ot_Fields d)) →
  Forall (λ o, DataType_Valid (output_DataType o) = true) (outputs_of node) →
  Catalog.validateOutputs node d = [] ↔ outputs_conform d (outputs_of node).
Proof.
  intros Hnd Ht. rewrite Forall_forall in Ht. unfold Catalog.validateOutputs, outputs_conform. destruct (ot_Mode d); [| |done].
  - specialize (Hnd eq_refl). rewrite app_nil, imap_nil, flat_map_nil, Forall_forall. apply ZifyClasses.and_morph.
    + apply forall_positions. intros i o Hi. unfold validate_fixed_output. assert (DataType_Valid (output_DataType o) = true) as Hv by (by eapply Ht, list_elem_of_lookup_2).
      destruct (expected_outputs d !! output_Name o) as [t|] eqn:Hx.
      * rewrite output_report_nil, Hv. cbn [andb]. rewrite negb_false_iff, bool_decide_eq_true. split; [intros <-; by apply expected_lookup|].
        intros (f & Hf & Hn & Hd). assert (expected_outputs d !! output_Name o = Some (output_DataType o)) by (apply expected_lookup; eauto). congruence.
      * split; [done|]. intros (f & Hf & Hn & Hd).
        assert (expected_outputs d !! output_Name o = Some (output_DataType o)) by (apply expected_lookup; eauto). congruence.
    + setoid_rewrite node_report_nil. setoid_rewrite negb_false_iff. unfold one_of. setoid_rewrite bool_decide_eq_true.
      setoid_rewrite expected_names; [|done]. naive_solver.
  - rewrite app_nil, node_report_nil, imap_nil, orb_false_iff, andb_false_iff, !Z.ltb_ge.
    rewrite (forall_positions (λ o, output_DataType o ∈ ot_AllowedDataTypes d)).
    + destruct (Z.le_gt_cases (ot_MaxFields d) 0); intuition lia.
    + intros i o Hi. rewrite output_report_nil. rewrite Ht by (by eapply list_elem_of_lookup_2). cbn [andb].
      unfold containsType. by rewrite negb_false_iff, bool_decide_eq_true.
Qed.

Lemma validateDescription_nil d node : description_ok d → ports_valid node →
  validateDescription regexp node d = [] ↔ node_conforms d node.
Proof.
  intros Hd [Ht Hs Hl Ho]. unfold validateDescription. rewrite !app_nil, imap_nil, flat_map_nil.
  rewrite (validateOutputs_nil (ds_Outputs d) node (do_outputs d Hd) Ho).
  rewrite (forall_positions (input_conforms d)), Forall_forall.
  - unfold validate_required_input, one_of. setoid_rewrite node_report_nil. setoid_rewrite andb_false_iff. setoid_rewrite negb_false_iff. setoid_rewrite bool_decide_eq_true. split.
    + intros (Hi & Hr & Hout). constructor; [by apply Forall_forall| |done]. intros rule Hin Hreq. destruct (Hr rule Hin); congruence.
    + intros [Hi Hr Hout]. rewrite Forall_forall in Hi. split_and!; [done| |done]. intros rule Hin. destruct (in_Required rule) eqn:Hreq; auto.
  - intros i input Hi. apply list_elem_of_lookup_2 in Hi. rewrite Forall_forall in Ht, Hs, Hl. apply validate_input_nil; auto.
Qed.

(** ** Catalogs *)

Lemma check_inputs_Ok type names inputs : check_inputs regexp type names inputs = Ok tt → NoDup (in_Name <$> inputs) ∧ ∀ n, n ∈ names → n ∉ in_Name <$> inputs.
Proof.
  revert names. induction inputs as [|x inputs IH]; intros names; [split; [constructor|set_solver]|]. cbn [check_inputs].
  intros ([] & _ & ([] & Hn%guard_Ok & ([] & _ & ([] & _ & [Hnd Hno]%IH)%bind_Ok)%bind_Ok)%bind_Ok)%bind_Ok.
  rewrite bool_decide_eq_false in Hn. rewrite fmap_cons. split; [constructor; [|done]; by apply Hno; left|].
  intros n Hin. rewrite not_elem_of_cons. split; [by intros ->|]. apply Hno. by right.
Qed.

Lemma check_outputs_Ok type names fields : check_outputs type names fields = Ok tt → NoDup (pt_Name <$> fields) ∧ ∀ n, n ∈ names → n ∉ pt_Name <$> fields.
Proof.
  revert names. induction fields as [|x fields IH]; intros names; [split; [constructor|set_solver]|]. cbn [check_outputs].
  intros ([] & _ & ([] & Hn%guard_Ok & [Hnd Hno]%IH)%bind_Ok)%bind_Ok.
  rewrite bool_decide_eq_false in Hn. rewrite fmap_cons. split; [constructor; [|done]; by apply Hno; left|].
  intros n Hin. rewrite not_elem_of_cons. split; [by intros ->|]. apply Hno. by right.
Qed.

Lemma contract_definition_ok value : validateContractDefinition regexp value = Ok tt → description_ok (ct_description value).
Proof.
  unfold validateContractDefinition.
  intros ([] & _ & ([] & _ & ([] & _ & ([] & _ & ([] & [Hi _]%check_inputs_Ok & ([] & _ & H)%bind_Ok)%bind_Ok)%bind_Ok)%bind_Ok)%bind_Ok)%bind_Ok.
  apply bind_Ok in H as ([] & Ho & _). constructor; [done|]. intros Hm. rewrite Hm in Ho. by apply check_outputs_Ok in Ho as [? _].
Qed.

(** What [newCatalog] establishes of the contracts it holds. *)
Definition catalog_ok (c : Catalog) : Prop :=
  ∀ type value, ca_contracts c !! type = Some value → ds_Type (ct_description value) = type ∧ description_ok (ct_description value).

Lemma add_contracts_ok contracts : ∀ c c', add_contracts regexp c contracts = Ok c' → catalog_ok c → catalog_ok c' ∧
  ca_revision c' = ca_revision c ∧
  ∀ type value, ca_contracts c' !! type = Some value ↔ ca_contracts c !! type = Some value ∨ value ∈ contracts ∧ ds_Type (ct_description value) = type.
Proof.
  induction contracts as [|value rest IH]; intros c c'; [intros [= <-] ?; set_solver|]. cbn [add_contracts].
  intros ([] & _ & ([] & _ & ([] & Hv & ([] & Hn%guard_Ok & H)%bind_Ok)%bind_Ok)%bind_Ok)%bind_Ok Hok.
  rewrite bool_decide_eq_false, <-eq_None_not_Some in Hn. apply IH in H as (Hc & Hrev & Hl).
  - split; [done|]. split; [done|]. intros type v. rewrite Hl. cbn [ca_contracts]. rewrite lookup_insert, elem_of_cons. case_decide as Hk.
    + subst type. split; [intros [[= <-]|[? ?]]; auto|]. intros [?|[[->|?] ?]]; [congruence|by left|by right].
    + split; [intros [?|[? ?]]; auto|]. intros [?|[[->|?] ?]]; auto. done.
  - intros type v. cbn [ca_contracts]. rewrite lookup_insert. case_decide as Hk; [|by apply Hok].
    intros [= <-]. split; [done|]. by apply contract_definition_ok.
Qed.

Lemma newCatalog_ok revision contracts c : newCatalog regexp revision contracts = Ok c → catalog_ok c ∧ ca_revision c = revision ∧
  ∀ type value, ca_contracts c !! type = Some value ↔ value ∈ contracts ∧ ds_Type (ct_description value) = type.
Proof.
  unfold newCatalog. intros ([] & _ & H)%bind_Ok. apply add_contracts_ok in H as (Hok & Hrev & Hl); [|done].
  split; [done|]. split; [done|]. intros type value. rewrite Hl. cbn. rewrite lookup_empty. naive_solver.
Qed.

(** ** Documents *)

Lemma ports_valid_node contract node : ir_node_ok contract node → ports_valid node.
Proof.
  intros Hn. pose proof (nk_inputs _ _ Hn) as Hi. pose proof (nk_outputs _ _ Hn) as Ho.
  constructor; apply Forall_forall; intros x Hx; [by apply (ik_type _ (Hi x Hx))|..|by apply Ho].
  all: pose proof (ik_shape _ (Hi x Hx)) as Hs; unfold input_shape_ok in Hs; destruct (input_Source x); try done.
  intros _. destruct Hs as (text & ? & ? & Hv & _). unfold HasValue. by rewrite Hv.
Qed.

(** A node has a published type, conforms to its description, and passes the
    type's own check. *)
Definition node_accepted (contracts : list contract) (node : Ir.Node) : Prop :=
  ∃ value, value ∈ contracts ∧ ds_Type (ct_description value) = node_Type node ∧ node_conforms (ct_description value) node ∧
    ∀ validate, ct_validate value = Some validate → validate node = [].

Lemma ValidateNode_nil revision contracts c node : newCatalog regexp revision contracts = Ok c → ports_valid node →
  ValidateNode regexp c node = [] ↔ node_accepted contracts node.
Proof.
  intros (Hok & _ & Hl)%newCatalog_ok Hp. unfold ValidateNode, node_accepted.
  destruct (ca_contracts c !! node_Type node) as [value|] eqn:Hv.
  - destruct (Hok _ _ Hv) as [_ Hd]. unfold SortDiagnostics. rewrite stable_sort_nil, app_nil, validateDescription_nil by done. split.
    + intros [Hc Hf]. apply Hl in Hv as [? ?]. exists value. split_and!; [done..|]. intros f Hf'. by rewrite Hf' in Hf.
    + intros (value' & Hin & Ht & Hc & Hf). assert (ca_contracts c !! node_Type node = Some value') as Hv' by (by apply Hl).
      assert (value' = value) as -> by congruence. split; [done|]. destruct (ct_validate value); [by apply Hf|done].
  - split; [done|]. intros (value' & Hin & Ht & _). assert (ca_contracts c !! node_Type node = Some value') as Hv' by (by apply Hl). congruence.
Qed.

(** *** Diagnostics that are errors *)

Definition all_errors (l : list Diagnostic) : Prop := Forall (λ x, is_error x = true) l.

Lemma all_errors_clean l : all_errors l → HasErrors l = false ↔ l = [].
Proof. destruct l as [|x l]; [by split|]. intros [Hx _]%Forall_cons. split; [|done]. cbn. by rewrite Hx. Qed.

Lemma errors_nil : all_errors [].
Proof. by constructor. Qed.
Lemma errors_cons x l : is_error x = true → all_errors l → all_errors (x :: l).
Proof. by constructor. Qed.
Lemma errors_app l k : all_errors l → all_errors k → all_errors (l ++ k).
Proof. by apply Forall_app_2. Qed.
Lemma errors_flat_map {A} (f : A → list Diagnostic) l : (∀ x, all_errors (f x)) → all_errors (flat_map f l).
Proof. intros H. induction l; [apply errors_nil|]. by apply errors_app. Qed.
Lemma errors_imap {A} (f : nat → A → list Diagnostic) l : (∀ i x, all_errors (f i x)) → all_errors (concat (imap f l)).
Proof. revert f. induction l as [|x l IH]; intros f H; [apply errors_nil|]. apply errors_app; [done|]. apply IH. intros. apply H. Qed.
Lemma errors_input b node input i c m : all_errors (input_report b node input i c m).
Proof. destruct b; by repeat constructor. Qed.
Lemma errors_output b node output i c m : all_errors (output_report b node output i c m).
Proof. destruct b; by repeat constructor. Qed.
Lemma errors_node b node c m p : all_errors (node_report b node c m p).
Proof. destruct b; by repeat constructor. Qed.

Ltac errors := repeat first
  [ simple apply errors_app | simple apply errors_input | simple apply errors_output | simple apply errors_node | simple apply errors_nil | simple apply errors_cons
  | simple apply errors_flat_map; intros ? | simple apply errors_imap; intros ? ? | reflexivity
  | match goal with |- all_errors (match ?x with _ => _ end) => destruct x end ].

Lemma errors_literal node input i k : all_errors (validateLiteralConstraints regexp node input i k).
Proof. unfold validateLiteralConstraints, validate_string, validate_item, violation. errors. Qed.

Lemma errors_description node d : all_errors (validateDescription regexp node d).
Proof.
  unfold validateDescription, Catalog.validate_input, validate_allowed, validate_required_input, Catalog.validateOutputs, validate_fixed_output.
  errors. all: apply errors_literal.
Qed.

(** A check that reports nothing but errors. *)
Definition reports_errors (contracts : list contract) : Prop :=
  ∀ value validate node, value ∈ contracts → ct_validate value = Some validate → all_errors (validate node).

Lemma errors_ValidateNode revision contracts c node : newCatalog regexp revision contracts = Ok c → reports_errors contracts →
  all_errors (ValidateNode regexp c node).
Proof.
  intros (_ & _ & Hl)%newCatalog_ok Hr. unfold ValidateNode. destruct (ca_contracts c !! node_Type node) as [value|] eqn:Hv; [|errors].
  apply Hl in Hv as [Hin _]. unfold SortDiagnostics, all_errors. rewrite stable_sort_perm. apply errors_app; [apply errors_description|].
  destruct (ct_validate value) as [validate|] eqn:Hf; [by eapply Hr|apply errors_nil].
Qed.

Lemma ir_wf_contract f d : ir_wf (Some f) d ↔ ir_wf None d ∧ ∀ n, n ∈ doc_Nodes d → HasErrors (f n) = false.
Proof.
  split.
  - intros []. split; [|intros n Hn; by eapply nk_contract; [apply iw_nodes|]]. constructor; auto. intros n Hn. by eapply ir_node_ok_weaken, iw_nodes.
  - intros [[] Hf]. constructor; auto. intros n Hn. destruct (iw_nodes n Hn). constructor; auto. intros ? [= <-]. auto.
Qed.

(** C11: the validator with a catalog accepts exactly the documents that it
    accepts without one and whose nodes all have a published type, conform to
    its description (inputs of the allowed types, sources and values, all the
    required ones, and the declared outputs) and pass the type's own check. *)
Theorem catalog_validation_exact revision contracts c document :
  newCatalog regexp revision contracts = Ok c → reports_errors contracts →
  HasErrors (Validator_Validate (Some (ValidateNode regexp c)) document) = false ↔
    HasErrors (Validator_Validate None document) = false ∧ Forall (node_accepted contracts) (doc_Nodes document).
Proof.
  intros Hc Hr. rewrite !Validator_Validate_wf, ir_wf_contract, Forall_forall. split; intros [Hw Hn]; (split; [done|]); intros n Hin.
  all: pose proof (ports_valid_node _ _ (iw_nodes _ _ Hw n Hin)) as Hp; specialize (Hn n Hin).
  - rewrite all_errors_clean in Hn by (by eapply errors_ValidateNode). by eapply ValidateNode_nil.
  - rewrite all_errors_clean by (by eapply errors_ValidateNode). by eapply ValidateNode_nil.
Qed.
End Conformance.

(** ** The built-in catalog *)

Section Builtin.
Context (order : range_order) (ValidateSource : string → option SourceError).

Definition builtin_contracts : list contract :=
  [startContract; endContract; branchContract order; codeContract ValidateSource; httpContract; rpcContract].

Lemma errors_blank node name : all_errors (nonEmptyLiteral node name).
Proof. unfold nonEmptyLiteral. destruct (List.find _ _) as [[index input]|]; [apply errors_input|apply errors_nil]. Qed.

Lemma errors_case node t input i j raw x : validate_case order node t input i j raw = Some x → is_error x = true.
Proof.
  unfold validate_case. intros H. repeat match type of H with
  | match ?x with _ => _ end = _ => destruct x
  end; try done; by injection H as <-.
Qed.

Lemma errors_first_case node t input i cases x : first_case_issue order node t input i cases = Some x → is_error x = true.
Proof.
  unfold first_case_issue. intros H%head_Some_elem_of. apply list_elem_of_omap in H as (y & Hy & Hx). cbn in Hx. subst y.
  apply elem_of_lookup_imap_1 in Hy as (j & raw & Hy & _). by eapply errors_case.
Qed.

Lemma errors_branch node t : ∀ inputs i, all_errors (validate_branch_inputs order node t i inputs).
Proof.
  induction inputs as [|input inputs IH]; intros i; [apply errors_nil|]. cbn [validate_branch_inputs].
  destruct (_ && _ && _); [by apply errors_cons, errors_nil|]. destruct (negb _); [apply IH|].
  destruct (DecodeLiteral _) as [[[| | | |[|value values]|] t']|]; try (by apply errors_cons, errors_nil); [|apply errors_nil].
  destruct (first_case_issue _ _ _ _ _ _) as [x|] eqn:Hx; [|apply IH]. apply errors_cons; [by eapply errors_first_case|apply errors_nil].
Qed.

Lemma errors_source node x : is_error (source_diagnostic node x) = true.
Proof. unfold source_diagnostic. by destruct (0 <? se_Line x). Qed.

Lemma errors_sources node inputs : all_errors (validate_sources ValidateSource node inputs).
Proof.
  induction inputs as [|input inputs IH]; [apply errors_nil|]. cbn [validate_sources]. destruct (negb _); [done|].
  destruct (unmarshal_string _) as [[|a source]|]; [apply errors_nil| |apply errors_nil]. apply errors_app; [|done].
  destruct (ValidateSource _); [apply errors_cons; [apply errors_source|apply errors_nil]|apply errors_nil].
Qed.

Lemma errors_paths node paths l : validate_paths node paths = Some l → all_errors l.
Proof.
  induction paths as [|[i input] paths IH]; [done|]. cbn [validate_paths]. destruct (DecodeLiteral _) as [[[] ?]|]; intros H;
    repeat match type of H with (if ?b then _ else _) = _ => destruct b end; try (by apply IH); injection H as <-;
    (apply errors_cons; [done|]) || idtac; apply errors_nil.
Qed.

Lemma builtin_reports_errors : reports_errors builtin_contracts.
Proof.
  intros value validate node. unfold builtin_contracts. rewrite !elem_of_cons, elem_of_nil.
  intros [->|[->|[->|[->|[->|[->|[]]]]]]]; intros [= <-].
  - apply errors_branch.
  - apply errors_app; [apply errors_blank|apply errors_sources].
  - unfold validateHTTP. destruct (validate_paths _ _) as [l|] eqn:Hl; [by eapply errors_paths|apply errors_blank].
  - apply errors_app; apply errors_blank.
Qed.
End Builtin.

(** *** The order of the fields of a case *)

Lemma find_order (f : string → bool) order order' n id l :
  List.find f (range_perm order n id l) = None → List.find f (range_perm order' n id l) = None.
Proof.
  intros H. destruct (List.find f (range_perm order' n id l)) as [k|] eqn:Hk; [|done]. apply find_some in Hk as [Hin Hf].
  rewrite (find_none f _ H k) in Hf; [done|]. apply list_elem_of_In. apply list_elem_of_In in Hin. revert Hin. by rewrite !range_perm_ok.
Qed.

Section Order.
Context (order order' : range_order).

Lemma validate_case_order node t input i j raw :
  validate_case order node t input i j raw = None → validate_case order' node t input i j raw = None.
Proof.
  destruct raw as [| | | | |item]; try done. cbn [validate_case]. destruct (negb _); [done|]. destruct (negb _); [done|].
  destruct (obj_lookup "value" item); [|done].
  destruct (List.find _ (order _ _ _)) as [k|] eqn:Hk; [done|]. by rewrite (find_order _ order order').
Qed.

Lemma first_case_none o node t input i cases :
  first_case_issue o node t input i cases = None ↔ ∀ j raw, cases !! j = Some raw → validate_case o node t input i j raw = None.
Proof.
  unfold first_case_issue. split.
  - intros H j raw Hj. destruct (validate_case o node t input i j raw) as [x|] eqn:Hx; [|done].
    apply head_None in H. assert (x ∈ omap id (imap (validate_case o node t input i) cases)) as Hin; [|rewrite H in Hin; by apply elem_of_nil in Hin].
    apply list_elem_of_omap. exists (Some x). split; [|done]. rewrite <-Hx. by eapply elem_of_lookup_imap_2.
  - intros H. destruct (head _) as [x|] eqn:Hx; [|done]. apply head_Some_elem_of, list_elem_of_omap in Hx as (y & Hy & Hx). cbn in Hx. subst y.
    apply elem_of_lookup_imap_1 in Hy as (j & raw & Hy & Hraw). by rewrite H in Hy.
Qed.

Lemma validate_branch_order node t : ∀ inputs i, validate_branch_inputs order node t i inputs = [] → validate_branch_inputs order' node t i inputs = [].
Proof.
  induction inputs as [|input inputs IH]; intros i; [done|]. cbn [validate_branch_inputs].
  destruct (_ && _ && _); [done|]. destruct (negb _); [apply IH|].
  destruct (DecodeLiteral _) as [[[| | | |[|value values]|] t']|]; try done.
  destruct (first_case_issue order _ _ _ _ _) as [x|] eqn:Hx; [done|].
  assert (first_case_issue order' node t input i (value :: values) = None) as ->; [|apply IH].
  apply first_case_none. intros j raw Hj. apply validate_case_order. by eapply (first_case_none order).
Qed.
End Order.

Definition example_source : string := "def main(inputs):" +:+ Catalog.newline +:+ "    return {'result': inputs['order']}".

Lemma builtin_examples regexp order VS match_ c : regexp path_pattern = Some match_ → match_ "/v1/orders" = true → VS example_source = None →
  newCatalog regexp BuiltinRevisionV1 (builtin_contracts order VS) = Ok c →
  ∀ value e, value ∈ builtin_contracts order VS → e ∈ ds_Examples (ct_description value) → ValidateNode regexp c e = [].
Proof.
  intros Hp Hm Hs (Hok & _ & Hl)%newCatalog_ok value e Hv He.
  assert (node_Type e = ds_Type (ct_description value)) as Ht.
  { revert Hv He. unfold builtin_contracts. rewrite !elem_of_cons, elem_of_nil.
    by intros [->|[->|[->|[->|[->|[->|[]]]]]]]; intros [->|[]%elem_of_nil]%elem_of_cons. }
  unfold ValidateNode. assert (ca_contracts c !! node_Type e = Some value) as -> by (by apply Hl).
  unfold SortDiagnostics. rewrite stable_sort_nil, app_nil. clear Ht Hl Hok. revert Hv He. unfold builtin_contracts. rewrite !elem_of_cons, elem_of_nil.
  intros [->|[->|[->|[->|[->|[->|[]]]]]]]; intros [->|[]%elem_of_nil]%elem_of_cons; (split; [|try done]).
  all: try (vm_compute; reflexivity).
  - apply (validate_branch_order range_id order). vm_compute. reflexivity.
  - vm_compute in Hs. vm_compute. rewrite Hs. reflexivity.
  - vm_compute in Hp, Hm. vm_compute. rewrite Hp, Hm. reflexivity.
Qed.

Lemma add_contract regexp c value rest :
  (ct_revision value =? 0) = false → ValidNodeType (ds_Type (ct_description value)) = true →
  validateContractDefinition regexp value = Ok tt → ca_contracts c !! ds_Type (ct_description value) = None →
  add_contracts regexp c (value :: rest) =
    add_contracts regexp (MkCatalog (ca_revision c) (<[ds_Type (ct_description value) := value]> (ca_contracts c))) rest.
Proof. intros Hr Ht Hv Hn. cbn [add_contracts]. rewrite Hr, Ht, Hv, Hn. done. Qed.

Lemma builtin_definitions regexp order VS match_ value : regexp path_pattern = Some match_ →
  value ∈ builtin_contracts order VS → validateContractDefinition regexp value = Ok tt.
Proof.
  intros Hp. unfold builtin_contracts. rewrite !elem_of_cons, elem_of_nil. vm_compute in Hp.
  intros [->|[->|[->|[->|[->|[->|[]]]]]]]; vm_compute; try rewrite Hp; reflexivity.
Qed.

Lemma builtin_succeeds regexp order VS match_ : regexp path_pattern = Some match_ → ∃ c, BuiltinV1 regexp order VS = Ok c.
Proof.
  intros Hp. unfold BuiltinV1, newCatalog. cbn [guard_err is_empty]. rewrite res_bind_Ok with (a := tt) by reflexivity.
  do 6 (rewrite add_contract; [|reflexivity|reflexivity|apply (builtin_definitions regexp order VS match_); [exact Hp|unfold builtin_contracts; set_solver]|reflexivity]).
  eexists. reflexivity.
Qed.

Lemma add_handlers_lookup handlers : ∀ registry result type h, add_handlers registry handlers = Ok result → result !! type = Some h →
  registry !! type = Some h ∨ h ∈ handlers ∧ h_NodeType h = type.
Proof.
  induction handlers as [|x rest IH]; intros registry result type h; cbn [add_handlers]; [intros [= <-]; auto|].
  intros ([] & _ & ([] & _ & ([] & _ & H)%bind_Ok)%bind_Ok)%bind_Ok Hh.
  destruct (IH _ _ _ _ H Hh) as [Hx|[Hx Ht]]; [|right; split; [by right|done]].
  apply lookup_insert_Some in Hx as [[<- <-]|[_ Hx]]; [|by left]. right. split; [by left|done].
Qed.

(** Each handler has the contract that its type publishes. *)
Lemma builtin_handler order VS type h : BuiltinRegistry !! type = Some h →
  ∃ value, value ∈ builtin_contracts order VS ∧ ds_Type (ct_description value) = type ∧ handlerMatchesCatalog h (ct_runtime value) = true.
Proof.
  unfold BuiltinRegistry, NewRegistry. match goal with |- res_or ∅ (add_handlers ∅ ?l) !! _ = _ → _ => destruct (add_handlers ∅ l) as [r|e] eqn:Hr end; [|done].
  intros [?|[Hin <-]]%(add_handlers_lookup _ _ _ _ _ Hr); [done|]. rewrite !elem_of_cons, elem_of_nil in Hin.
  destruct Hin as [->|[->|[->|[->|[->|[->|[]]]]]]].
  - exists startContract. split; [unfold builtin_contracts; set_solver|split; reflexivity].
  - exists endContract. split; [unfold builtin_contracts; set_solver|split; reflexivity].
  - exists (branchContract order). split; [unfold builtin_contracts; set_solver|split; reflexivity].
  - exists (codeContract VS). split; [unfold builtin_contracts; set_solver|split; reflexivity].
  - exists httpContract. split; [unfold builtin_contracts; set_solver|split; reflexivity].
  - exists rpcContract. split; [unfold builtin_contracts; set_solver|split; reflexivity].
Qed.

Definition registered (type : string) : bool := match BuiltinRegistry !! type with Some _ => true | None => false end.

Lemma builtin_published order VS value : value ∈ builtin_contracts order VS → is_Some (BuiltinRegistry !! ds_Type (ct_description value)).
Proof.
  intros Hv. assert (registered (ds_Type (ct_description value)) = true) as H; [|unfold registered in H; destruct (BuiltinRegistry !! _); [eauto|done]].
  revert Hv. unfold builtin_contracts. rewrite !elem_of_cons, elem_of_nil. by intros [->|[->|[->|[->|[->|[->|[]]]]]]]; vm_compute.
Qed.

(** C12: wherever its one pattern compiles, the built-in catalog is built
    without a panic; it publishes exactly the types that the compiler has a
    handler for, each handler compiles to the operation of the published
    runtime contract, and every published example is itself accepted, in
    whatever order the fields of a branch case are visited. *)
Theorem builtin_catalog regexp order VS match_ :
  regexp path_pattern = Some match_ → match_ "/v1/orders" = true → VS example_source = None →
  ∃ c, BuiltinV1 regexp order VS = Ok c ∧ ca_revision c = BuiltinRevisionV1 ∧
    (∀ type, is_Some (ca_contracts c !! type) ↔ is_Some (BuiltinRegistry !! type)) ∧
    (∀ type h, BuiltinRegistry !! type = Some h →
       ∃ runtime, Catalog_RuntimeContract c type = Some runtime ∧ handlerMatchesCatalog h runtime = true) ∧
    ∀ type value e, ca_contracts c !! type = Some value → e ∈ ds_Examples (ct_description value) → ValidateNode regexp c e = [].
Proof.
  intros Hp Hm Hs. destruct (builtin_succeeds regexp order VS match_ Hp) as [c Hc]. exists c. split; [done|].
  pose proof (newCatalog_ok _ _ _ _ Hc) as (_ & Hrev & Hl). split; [done|].
  assert (∀ type h, BuiltinRegistry !! type = Some h →
    ∃ value, ca_contracts c !! type = Some value ∧ handlerMatchesCatalog h (ct_runtime value) = true) as Hhandlers.
  { intros type h (value & Hv & Ht & Hok)%(builtin_handler order VS). exists value. split; [by apply Hl|done]. }
  split_and!.
  - intros type. split; [|intros [h Hh]; destruct (Hhandlers type h Hh) as (value & -> & _); eauto].
    intros [value [Hv <-]%Hl]. by eapply builtin_published.
  - intros type h Hh. destruct (Hhandlers type h Hh) as (value & Hv & Hok). exists (ct_runtime value). unfold Catalog_RuntimeContract. by rewrite Hv.
  - intros type value e [Hv _]%Hl He. by eapply (builtin_examples regexp order VS match_).
Qed.

(** *** Instances *)

(** Patterns compiled to the test for a leading slash. *)
Definition slash_regexp (pattern : string) : option (string → bool) := Some (String.prefix "/").
Definition any_source (source : string) : option SourceError := None.

Lemma builtin_catalog_witness :
  ∃ c, BuiltinV1 slash_regexp range_id any_source = Ok c ∧ ca_revision c = BuiltinRevisionV1 ∧
    (∀ type, is_Some (ca_contracts c !! type) ↔ is_Some (BuiltinRegistry !! type)) ∧
    (∀ type h, BuiltinRegistry !! type = Some h →
       ∃ runtime, Catalog_RuntimeContract c type = Some runtime ∧ handlerMatchesCatalog h runtime = true) ∧
    ∀ type value e, ca_contracts c !! type = Some value → e ∈ ds_Examples (ct_description value) → ValidateNode slash_regexp c e = [].
Proof. apply (builtin_catalog slash_regexp range_id any_source (String.prefix "/")); reflexivity. Defined.

(** A start and an end that returns what it is given. *)
Definition echo_document (returned : list Input) : Ir.Document :=
  Ir.MkDocument "1"
    [MkNode "s" "start" "title" (Some []) (Some [MkOutput "workflow_input" TypeObject]);
     MkNode "e" "end" "title" (Some returned) (Some [])]
    [MkEdge "1" "s" "e" ""]
    (list_to_map ((λ id, (id, MkPosition (Some "0") (Some "0"))) <$> ["s"; "e"])).

Definition returned_input : Input := MkInput "workflow_output" TypeObject SourceRef None "s" "workflow_input".

Definition builtin_verdict (d : Ir.Document) : option bool :=
  match BuiltinV1 slash_regexp range_id any_source with
  | Ok c => Some (HasErrors (Validator_Validate (Some (ValidateNode slash_regexp c)) d))
  | Err _ => None
  end.

Example echo_accepted : builtin_verdict (echo_document [returned_input]) = Some false.
Proof. vm_compute. reflexivity. Qed.
Example silent_refused : builtin_verdict (echo_document []) = Some true.
Proof. vm_compute. reflexivity. Qed.

(** The accepted document conforms, and the other one does not. *)
Lemma catalog_validation_exact_witness :
  Forall (node_accepted slash_regexp (builtin_contracts range_id any_source)) (doc_Nodes (echo_document [returned_input])) ∧
  ¬ Forall (node_accepted slash_regexp (builtin_contracts range_id any_source)) (doc_Nodes (echo_document [])).
Proof.
  pose proof echo_accepted as Ha. pose proof silent_refused as Hr. unfold builtin_verdict in Ha, Hr.
  destruct (BuiltinV1 slash_regexp range_id any_source) as [c|e] eqn:Hc; [|discriminate Ha].
  injection Ha as Ha. injection Hr as Hr.
  assert (HasErrors (Validator_Validate None (echo_document [])) = false) as Hstructure by (vm_compute; reflexivity).
  split.
  - destruct (catalog_validation_exact _ _ _ _ (echo_document [returned_input]) Hc (builtin_reports_errors range_id any_source)) as [H _].
    exact (proj2 (H Ha)).
  - intros Hn.
    destruct (catalog_validation_exact _ _ _ _ (echo_document []) Hc (builtin_reports_errors range_id any_source)) as [_ H].
    rewrite (H (conj Hstructure Hn)) in Hr. discriminate Hr.
Defined.
