(* ===== verification/DefinitionService.v ===== *)
(** * The definition service

    Models internal/definition/service.go and errors.go over the repository,
    access-control, resource and compiler interfaces the package states
    (ports.go), and the database of DefinitionStore.v as an implementation of
    those interfaces.  The identities a generator makes are a parameter. *)

From S2P Require Import Prelude Json Digest Graph Dsl Ir Canonical Parser SourceMap Marshal Handlers ControlGraph Activation Compiler.
From S2P Require Import Access Resources DefinitionStore.

Open Scope string_scope.
Open Scope list_scope.
Open Scope Z_scope.

(** ** Errors *)

Definition CodeInvalidArgument : string := "INVALID_ARGUMENT".
Definition CodeResourceNotFound : string := "RESOURCE_NOT_FOUND".
Definition CodePermissionDenied : string := "PERMISSION_DENIED".
Definition CodeDraftRevisionConflict : string := "DRAFT_REVISION_CONFLICT".
Definition CodeIdempotencyKeyReused : string := "IDEMPOTENCY_KEY_REUSED".
Definition CodeWorkflowNotPublished : string := "WORKFLOW_NOT_PUBLISHED".
Definition CodeCatalogUnavailable : string := "CATALOG_REVISION_UNAVAILABLE".

(** The package's [Error], or an error without a code. *)
Inductive service_error : Type :=
  | Coded (code message : string) (details : gmap string string) (cause : option error)
  | Plain (e : error).

Definition wrapError (code message : string) (cause : option error) (details : gmap string string) : service_error :=
  Coded code message details cause.

Definition invalidArgument (message : string) : service_error := wrapError CodeInvalidArgument message None ∅.

Definition repositoryError (operation : string) (err : error) : service_error :=
  if errors_Is err ErrResourceNotFound then wrapError CodeResourceNotFound "resource was not found" (Some err) ∅
  else if errors_Is err ErrDraftRevisionConflict then wrapError CodeDraftRevisionConflict "draft revision has changed" (Some err) ∅
  else if errors_Is err ErrIdempotencyKeyReused
  then wrapError CodeIdempotencyKeyReused "idempotency key was reused with a different request" (Some err) ∅
  else if errors_Is err ErrWorkflowNotPublished then wrapError CodeWorkflowNotPublished "workflow has no active published version" (Some err) ∅
  else Plain (Prefix operation err).

Definition mapAccessError (err : error) : service_error :=
  if errors_Is err ErrPermissionDenied then wrapError CodePermissionDenied "permission denied" (Some err) ∅
  else if errors_Is err ErrAccessNotFound || errors_Is err ErrResourcesNotFound
  then wrapError CodeResourceNotFound "resource was not found" (Some err) ∅
  else Plain err.

(** ** Catalogs *)

Record StaticCatalogRegistry : Type := MkStaticCatalogRegistry {
  cr_current : string; cr_catalogs : gmap string NodeCatalog }.

Fixpoint register_catalogs (catalogs : gmap string NodeCatalog) (values : list (option NodeCatalog)) : res (gmap string NodeCatalog) :=
  match values with
  | [] => Ok catalogs
  | value :: rest =>
      match value with
      | None => Err (Errorf "catalog revision is required" [])
      | Some catalog =>
          guard_err (is_empty (nc_Revision catalog)) (Errorf "catalog revision is required" []) ;;
          guard_err (bool_decide (is_Some (catalogs !! nc_Revision catalog)))
            (Errorf "catalog revision %q is registered twice" [quote (nc_Revision catalog)]) ;;
          register_catalogs (<[nc_Revision catalog := catalog]> catalogs) rest
      end
  end.

Definition NewStaticCatalogRegistry (current : option NodeCatalog) (catalogs : list (option NodeCatalog)) : res StaticCatalogRegistry :=
  match current with
  | None => Err (Errorf "current catalog is required" [])
  | Some catalog =>
      guard_err (is_empty (nc_Revision catalog)) (Errorf "current catalog is required" []) ;;
      MkStaticCatalogRegistry (nc_Revision catalog) <$> register_catalogs ∅ (Some catalog :: catalogs)
  end.

Definition Registry_Current (registry : StaticCatalogRegistry) : option NodeCatalog := cr_catalogs registry !! cr_current registry.
Definition Registry_Get (registry : StaticCatalogRegistry) (revision : string) : option NodeCatalog := cr_catalogs registry !! revision.

(** ** The service *)

Class DefinitionRepository (D : Type) : Type := {
  Repository_CreateWorkflow : CreateWorkflowRecord → tx D (Workflow * DraftRevision);
  Repository_GetWorkflow : string → string → tx D Workflow;
  Repository_GetCurrentDraft : string → string → tx D Draft;
  Repository_GetDraftRevision : string → string → Z → tx D DraftRevision;
  Repository_SaveDraft : SaveDraftRecord → tx D DraftRevision;
  Repository_StoreTestSnapshot : ExecutionSnapshot → tx D ExecutionSnapshot;
  Repository_ResolveDraftTestSnapshot : string → string → Z → tx D ExecutionSnapshot;
  Repository_FindPublishedByIdempotency : string → string → string → string → tx D (option (PublishedVersion * ExecutionSnapshot));
  Repository_Publish : PublishRecord → tx D (PublishedVersion * ExecutionSnapshot);
  Repository_Rollback : RollbackRecord → tx D PublishedVersion;
  Repository_CopyPublishedVersion : CopyRecord → tx D (Workflow * DraftRevision);
  Repository_ResolveProductionDefinition : string → string → tx D ProductionDefinition }.

(** [identity.Generator] *)
Class IdentityGenerator (D : Type) : Type := { New_ : tx D string }.

Record Service : Type := MkService { sv_compiler : Compiler; sv_catalogs : StaticCatalogRegistry; sv_policy : Policy }.

Definition NewService (compiler : Compiler) (catalogs : StaticCatalogRegistry) (policy : Policy) : res Service :=
  guard_err (match Registry_Current catalogs with Some c => is_empty (nc_Revision c) | None => true end || is_empty (po_revision policy))
    (Errorf "definition service requires immutable catalog and policy revisions" []) ;;
  Ok (MkService compiler catalogs policy).

Record CreateWorkflowCommand : Type := MkCreateWorkflowCommand {
  cc_ProjectID : string; cc_PrincipalID : string; cc_Name : string; cc_IRJSON : string; cc_IdempotencyKey : string }.

Record SaveDraftCommand : Type := MkSaveDraftCommand {
  sc_ProjectID : string; sc_PrincipalID : string; sc_WorkflowID : string; sc_ExpectedRevision : Z; sc_IRJSON : string;
  sc_IdempotencyKey : string }.

Record PublishCommand : Type := MkPublishCommand {
  pc_ProjectID : string; pc_PrincipalID : string; pc_WorkflowID : string; pc_ExpectedRevision : Z; pc_ChangeLog : string;
  pc_IdempotencyKey : string }.

Record CopyCommand : Type := MkCopyCommand {
  yc_ProjectID : string; yc_PrincipalID : string; yc_SourceWorkflowID : string; yc_SourceVersionNumber : Z; yc_Name : string;
  yc_IdempotencyKey : string }.

(** *** Checks and hashes *)

Definition validateMutation (projectID principalID idempotencyKey : string) : bool :=
  let length := Z.of_nat (String.length idempotencyKey) in
  negb (is_empty projectID || is_empty principalID || (length <? 8) || (200 <? length) || negb (trimmed idempotencyKey)).

Definition bounded_name (name : string) : bool := negb (blank name) && (Z.of_nat (String.length name) <=? 200).

Definition prefixed {A} (message : string) (r : res A) : res A := match r with Ok a => Ok a | Err x => Err (Prefix message x) end.

(** [requestHash] of a struct, given its encoding. *)
Definition requestHash (encoded : res string) : res string :=
  raw ← prefixed "encode idempotent request" encoded;
  canonical ← prefixed "canonicalize idempotent request" (CanonicalizeJSON raw DefaultParseLimits);
  Ok (HashCanonical canonical).

(** The requests that are hashed. *)
Definition create_request (name canonical : string) : res string :=
  ir ← marshal_raw canonical; Ok (marshal_object [("name", marshal_string name); ("ir", ir)]).
Definition save_request (workflowID : string) (expected : Z) (canonical : string) : res string :=
  ir ← marshal_raw canonical;
  Ok (marshal_object [("workflow_id", marshal_string workflowID); ("expected_revision", pretty expected); ("ir", ir)]).
Definition publish_request (workflowID : string) (revision : Z) (changeLog : string) : res string :=
  Ok (marshal_object [("workflow_id", marshal_string workflowID); ("revision", pretty revision); ("change_log", marshal_string changeLog)]).
Definition copy_request (sourceWorkflowID : string) (sourceVersionNumber : Z) (name : string) : res string :=
  Ok (marshal_object [("source_workflow_id", marshal_string sourceWorkflowID); ("source_version_number", pretty sourceVersionNumber);
                      ("name", marshal_string name)]).

(** The document of a text and its canonical text. *)
Definition parseDraft (raw : string) : list Diagnostic + Ir.Document * string :=
  match parse_default raw with
  | inl diagnostics => inl diagnostics
  | inr document =>
      match CanonicalizeJSON raw DefaultParseLimits with
      | Ok canonical => inr (document, canonical)
      | Err x => inl [ErrorDiagnostic PhaseCanonical "IR_CANONICALIZATION_FAILED" (error_string x) no_location]
      end
  end.

(** A draft revision and what it compiles to. *)
Record compiledRevision : Type := MkCompiledRevision { cl_revision : DraftRevision; cl_result : Compiler.Result }.

Definition compiled_snapshot (value : compiledRevision) (id : string) (origin : SnapshotOrigin) (originID : string) : res ExecutionSnapshot :=
  let result := cl_result value in
  manifest ← prefixed "canonicalize compiler manifest" (CanonicalizeJSON (marshal_manifest (r_Manifest result)) DefaultParseLimits);
  Ok (MkExecutionSnapshot id (rv_ProjectID (cl_revision value)) (rv_WorkflowID (cl_revision value)) origin originID
        (r_CanonicalIR result) (r_CanonicalDSL result) (r_CanonicalSourceMap result) manifest
        (hs_IRHash (r_Hashes result)) (hs_DSLHash (r_Hashes result)) (hs_SourceMapHash (r_Hashes result)) (hs_DefinitionHash (r_Hashes result)) 0).

(** Diagnostics of a step, which hold an error whenever there is no value. *)
Definition or_diagnosed {D A} (r : list Diagnostic + A) : call D service_error A :=
  answer (match r with inl l => Diagnosed l | inr a => Done a end).

Definition refuse {D A} (x : service_error) : call D service_error A := answer (Failed x).

Section Service.
Context {D : Type} `{!DefinitionRepository D, !ResourceRepository D, !Authorizer D, !IdentityGenerator D}.
Context (service : Service).

Definition authorize (projectID principalID permission : string) : call D service_error unit :=
  calling mapAccessError (Require_ projectID principalID permission).

Definition new_id : call D service_error string := calling Plain New_.
Definition twoIDs : call D service_error (string * string) := first ← new_id; second ← new_id; mret (first, second).

Definition plainly {A} (r : res A) : call D service_error A := calling Plain (tx_lift r).

Definition compileRevision (projectID principalID workflowID : string) (revisionNumber : Z) (purpose : Purpose)
    : call D service_error compiledRevision :=
  revision ← calling (repositoryError "get draft revision") (Repository_GetDraftRevision projectID workflowID revisionNumber);
  match Registry_Get (sv_catalogs service) (rv_CatalogRevision revision) with
  | None => refuse (wrapError CodeCatalogUnavailable "draft catalog revision is unavailable" None
                      {["catalog_revision" := rv_CatalogRevision revision]})
  | Some resolvedCatalog =>
      document ← or_diagnosed (parse_default (rv_IRJSON revision));
      bindings ← map_error mapAccessError (Resolve projectID principalID purpose document);
      result ← or_diagnosed (Compile (sv_compiler service) (MkRequest document (Some resolvedCatalog) (sv_policy service) bindings));
      mret (MkCompiledRevision revision result)
  end.

(** *** Operations *)

Definition Service_CreateWorkflow (command : CreateWorkflowCommand) : call D service_error (Workflow * DraftRevision) :=
  authorize (cc_ProjectID command) (cc_PrincipalID command) PermissionWorkflowWrite ;;
  '(_, canonical) ← or_diagnosed (parseDraft (cc_IRJSON command));
  if negb (validateMutation (cc_ProjectID command) (cc_PrincipalID command) (cc_IdempotencyKey command) && bounded_name (cc_Name command))
  then refuse (invalidArgument "project_id, principal_id, idempotency key, and a bounded name are required")
  else
    '(workflowID, draftRevisionID) ← twoIDs;
    hash ← plainly (requestHash (create_request (cc_Name command) canonical));
    let catalogRevision := default "" (nc_Revision <$> Registry_Current (sv_catalogs service)) in
    calling (repositoryError "create workflow") (Repository_CreateWorkflow
      (MkCreateWorkflowRecord workflowID draftRevisionID (cc_ProjectID command) (cc_Name command) canonical catalogRevision
         (cc_PrincipalID command) (cc_IdempotencyKey command) hash)).

Definition Service_GetWorkflow (projectID principalID workflowID : string) : call D service_error Workflow :=
  authorize projectID principalID PermissionWorkflowRead ;;
  calling (repositoryError "get workflow") (Repository_GetWorkflow projectID workflowID).

Definition Service_GetDraft (projectID principalID workflowID : string) : call D service_error Draft :=
  authorize projectID principalID PermissionWorkflowRead ;;
  calling (repositoryError "get draft") (Repository_GetCurrentDraft projectID workflowID).

Definition Service_SaveDraft (command : SaveDraftCommand) : call D service_error DraftRevision :=
  authorize (sc_ProjectID command) (sc_PrincipalID command) PermissionWorkflowWrite ;;
  '(_, canonical) ← or_diagnosed (parseDraft (sc_IRJSON command));
  if negb (validateMutation (sc_ProjectID command) (sc_PrincipalID command) (sc_IdempotencyKey command))
     || is_empty (sc_WorkflowID command) || (sc_ExpectedRevision command <? 1)
  then refuse (invalidArgument "workflow_id, positive expected_revision, and idempotency key are required")
  else
    baseRevision ← calling (repositoryError "get draft base revision")
      (Repository_GetDraftRevision (sc_ProjectID command) (sc_WorkflowID command) (sc_ExpectedRevision command));
    revisionID ← new_id;
    hash ← plainly (requestHash (save_request (sc_WorkflowID command) (sc_ExpectedRevision command) canonical));
    calling (repositoryError "save draft") (Repository_SaveDraft
      (MkSaveDraftRecord revisionID (sc_ProjectID command) (sc_WorkflowID command) (sc_ExpectedRevision command) canonical
         (rv_CatalogRevision baseRevision) (sc_PrincipalID command) (sc_IdempotencyKey command) hash)).

Definition Service_ValidateDraft (projectID principalID workflowID : string) (revisionNumber : Z) : call D service_error unit :=
  authorize projectID principalID PermissionWorkflowWrite ;;
  compileRevision projectID principalID workflowID revisionNumber PurposeTest ;;
  mret tt.

Definition Service_CompileDraftTestSnapshot (projectID principalID workflowID : string) (revisionNumber : Z)
    : call D service_error ExecutionSnapshot :=
  authorize projectID principalID PermissionWorkflowTest ;;
  compiled ← compileRevision projectID principalID workflowID revisionNumber PurposeTest;
  snapshotID ← new_id;
  snapshot ← plainly (compiled_snapshot compiled snapshotID SnapshotOriginDraftTest (rv_ID (cl_revision compiled)));
  calling (repositoryError "store test snapshot") (Repository_StoreTestSnapshot snapshot).

Definition Service_ResolveDraftTestSnapshot (projectID principalID workflowID : string) (revisionNumber : Z)
    : call D service_error ExecutionSnapshot :=
  authorize projectID principalID PermissionWorkflowTest ;;
  if is_empty projectID || is_empty workflowID || (revisionNumber <? 1)
  then refuse (invalidArgument "project_id, workflow_id and positive revision are required")
  else calling (repositoryError "resolve draft test snapshot") (Repository_ResolveDraftTestSnapshot projectID workflowID revisionNumber).

Definition Service_Publish (command : PublishCommand) : call D service_error (PublishedVersion * ExecutionSnapshot) :=
  authorize (pc_ProjectID command) (pc_PrincipalID command) PermissionWorkflowPublish ;;
  if negb (validateMutation (pc_ProjectID command) (pc_PrincipalID command) (pc_IdempotencyKey command))
     || is_empty (pc_WorkflowID command) || (pc_ExpectedRevision command <? 1)
     || (4000 <? Z.of_nat (String.length (pc_ChangeLog command)))
  then refuse (invalidArgument "workflow_id, positive expected_revision, bounded change_log, and idempotency key are required")
  else
    hash ← plainly (requestHash (publish_request (pc_WorkflowID command) (pc_ExpectedRevision command) (pc_ChangeLog command)));
    replayed ← calling (repositoryError "find published idempotency result")
      (Repository_FindPublishedByIdempotency (pc_ProjectID command) (pc_WorkflowID command) (pc_IdempotencyKey command) hash);
    match replayed with
    | Some result => mret result
    | None =>
        compiled ← compileRevision (pc_ProjectID command) (pc_PrincipalID command) (pc_WorkflowID command) (pc_ExpectedRevision command)
          PurposeProduction;
        '(versionID, snapshotID) ← twoIDs;
        snapshot ← plainly (compiled_snapshot compiled snapshotID SnapshotOriginPublished versionID);
        auditID ← new_id;
        calling (repositoryError "publish workflow") (Repository_Publish
          (MkPublishRecord versionID auditID (pc_ProjectID command) (pc_WorkflowID command) (pc_ExpectedRevision command)
             (rv_ID (cl_revision compiled)) (pc_ChangeLog command) (pc_PrincipalID command) (pc_IdempotencyKey command) hash snapshot))
    end.

Definition Service_Rollback (projectID principalID workflowID : string) (versionNumber : Z) : call D service_error PublishedVersion :=
  authorize projectID principalID PermissionWorkflowPublish ;;
  auditID ← new_id;
  calling (repositoryError "rollback workflow") (Repository_Rollback (MkRollbackRecord auditID projectID workflowID versionNumber principalID)).

Definition Service_CopyPublishedVersion (command : CopyCommand) : call D service_error (Workflow * DraftRevision) :=
  authorize (yc_ProjectID command) (yc_PrincipalID command) PermissionWorkflowRead ;;
  authorize (yc_ProjectID command) (yc_PrincipalID command) PermissionWorkflowWrite ;;
  if negb (validateMutation (yc_ProjectID command) (yc_PrincipalID command) (yc_IdempotencyKey command))
     || is_empty (yc_SourceWorkflowID command) || (yc_SourceVersionNumber command <? 1) || negb (bounded_name (yc_Name command))
  then refuse (invalidArgument "source workflow/version, bounded name, and idempotency key are required")
  else
    '(workflowID, revisionID) ← twoIDs;
    hash ← plainly (requestHash (copy_request (yc_SourceWorkflowID command) (yc_SourceVersionNumber command) (yc_Name command)));
    calling (repositoryError "copy published version") (Repository_CopyPublishedVersion
      (MkCopyRecord workflowID revisionID (yc_ProjectID command) (yc_SourceWorkflowID command) (yc_SourceVersionNumber command)
         (yc_Name command) (yc_PrincipalID command) (yc_IdempotencyKey command) hash)).

Definition Service_ResolveProductionDefinition (projectID principalID workflowID : string) : call D service_error ProductionDefinition :=
  authorize projectID principalID PermissionRunCreate ;;
  calling (repositoryError "resolve production definition") (Repository_ResolveProductionDefinition projectID workflowID).
End Service.

(** ** The database as an implementation of the interfaces *)

Section Store.
Context (clock : nat → Time) (others : nat → DefDB → DefDB) (ids : nat → res string).
Context (jsonb : string → string) (jsonb_eqb : string → string → bool) (jsonb_field : string → string → option string).

Definition store_repository : DefinitionRepository DefDB := {|
  Repository_CreateWorkflow := CreateWorkflow clock others jsonb;
  Repository_GetWorkflow := GetWorkflow others;
  Repository_GetCurrentDraft := GetCurrentDraft others;
  Repository_GetDraftRevision := GetDraftRevision others;
  Repository_SaveDraft := SaveDraft clock others jsonb;
  Repository_StoreTestSnapshot := StoreTestSnapshot clock others jsonb jsonb_eqb;
  Repository_ResolveDraftTestSnapshot := ResolveDraftTestSnapshot others;
  Repository_FindPublishedByIdempotency := FindPublishedByIdempotency others;
  Repository_Publish := Publish clock others jsonb jsonb_eqb;
  Repository_Rollback := Rollback clock others;
  Repository_CopyPublishedVersion := CopyPublishedVersion clock others jsonb jsonb_field;
  Repository_ResolveProductionDefinition := ResolveProductionDefinition others |}.

Definition store_access : AccessRepository DefDB := {|
  FindPrincipalByCredentialHash digest := pool others (now ← clock_timestamp clock; db ← tx_get; tx_lift (find_principal (df_access db) now digest));
  HasPermission projectID principalID permission := pool others (db ← tx_get; mret (has_permission (df_access db) projectID principalID permission));
  FindExecutionIdentity projectID := pool others (db ← tx_get; tx_lift (find_identity (df_access db) projectID)) |}.

Definition store_resources : ResourceRepository DefDB := {|
  ResolveConnection projectID identityID reference purpose :=
    pool others (db ← tx_get; tx_lift (find_connection (df_resources db) projectID identityID reference purpose));
  ResolveServiceOperation projectID identityID reference operation purpose :=
    pool others (db ← tx_get; tx_lift (find_operation (df_resources db) projectID identityID reference operation purpose)) |}.

Definition store_ids : IdentityGenerator DefDB := {| New_ := λ db, (db <| df_ticks := S (df_ticks db) |>, ids (df_ticks db)) |}.
End Store.
