(* ===== verification/DefinitionFacts.v ===== *)
(** * Facts about the definition store

    What a statement commits, the history every statement respects (rows are
    only added, and a draft only advances), the invariant of the tables and its
    preservation by every transaction, and both for the calls of the service. *)

From S2P Require Import Prelude Json Digest Graph Dsl Ir Canonical Parser SourceMap Marshal Handlers ControlGraph Activation Compiler.
From S2P Require Import Access Resources DefinitionStore DefinitionService.

Open Scope string_scope.
Open Scope list_scope.
Open Scope Z_scope.

(** ** Lookups *)

Lemma select_one_Some {A} (p : A → bool) (t : gmap string A) x : select_one p t = Some x → ∃ k, t !! k = Some x ∧ p x = true.
Proof.
  unfold select_one. intros ([k y] & Hf & [= <-])%fmap_Some. apply find_some in Hf as [Hin Hp]. exists k. split; [|done].
  by apply elem_of_map_to_list, list_elem_of_In.
Qed.

Lemma select_one_None {A} (p : A → bool) (t : gmap string A) : select_one p t = None ↔ ∀ k x, t !! k = Some x → p x = false.
Proof.
  unfold select_one. rewrite fmap_None. split.
  - intros Hf k x Hk. pose proof (find_none _ _ Hf (k, x)) as H. apply H, list_elem_of_In, elem_of_map_to_list, Hk.
  - intros H. destruct (List.find _ _) as [[k x]|] eqn:Hf; [|done]. apply find_some in Hf as [Hin Hp].
    apply list_elem_of_In, elem_of_map_to_list in Hin. cbn in Hp. by rewrite (H k x Hin) in Hp.
Qed.

Lemma in_workflow_true p w q v : in_workflow p w q v = true ↔ q = p ∧ v = w.
Proof. unfold in_workflow. rewrite andb_true_iff, !bool_decide_eq_true. done. Qed.

Lemma workflow_row_Some db p w row : workflow_row db p w = Some row ↔ df_workflows db !! w = Some row ∧ wf_ProjectID (ww_Workflow row) = p.
Proof.
  unfold workflow_row. rewrite bind_Some. split.
  - intros (x & Hx & H). case_bool_decide; [|done]. by simplify_eq.
  - intros [Hx Hp]. exists row. by rewrite bool_decide_eq_true_2.
Qed.

Lemma revision_by_id_Some db p w k r : revision_by_id db p w k = Some r ↔ df_revisions db !! k = Some r ∧ rv_ProjectID r = p ∧ rv_WorkflowID r = w.
Proof.
  unfold revision_by_id. rewrite bind_Some. split.
  - intros (x & Hx & H). destruct (in_workflow _ _ _ _) eqn:Hw; [|done]. apply in_workflow_true in Hw. by simplify_eq.
  - intros [Hx Hw]. exists r. by rewrite (proj2 (in_workflow_true _ _ _ _) Hw).
Qed.

Lemma version_by_id_Some db p w k v : version_by_id db p w k = Some v ↔ df_versions db !! k = Some v ∧ pv_ProjectID v = p ∧ pv_WorkflowID v = w.
Proof.
  unfold version_by_id. rewrite bind_Some. split.
  - intros (x & Hx & H). destruct (in_workflow _ _ _ _) eqn:Hw; [|done]. apply in_workflow_true in Hw. by simplify_eq.
  - intros [Hx Hw]. exists v. by rewrite (proj2 (in_workflow_true _ _ _ _) Hw).
Qed.

Lemma snapshot_by_id_Some db p w k s : snapshot_by_id db p w k = Some s ↔ df_snapshots db !! k = Some s ∧ es_ProjectID s = p ∧ es_WorkflowID s = w.
Proof.
  unfold snapshot_by_id. rewrite bind_Some. split.
  - intros (x & Hx & H). destruct (in_workflow _ _ _ _) eqn:Hw; [|done]. apply in_workflow_true in Hw. by simplify_eq.
  - intros [Hx Hw]. exists s. by rewrite (proj2 (in_workflow_true _ _ _ _) Hw).
Qed.

Lemma is_revision_true db p w n k : is_revision db p w n k = true ↔ ∃ r, revision_by_id db p w k = Some r ∧ rv_RevisionNumber r = n.
Proof.
  unfold is_revision. destruct (revision_by_id db p w k) as [r|]; [|naive_solver]. rewrite Z.eqb_eq. naive_solver.
Qed.

(** (project, workflow, version number, version) *)
Definition is_version (db : DefDB) (p w : string) (n : Z) (k : string) : Prop := ∃ v, version_by_id db p w k = Some v ∧ pv_VersionNumber v = n.

(** ** What a statement commits *)

Section Statements.
Context (clock : nat → Time) (jsonb : string → string) (jsonb_eqb : string → string → bool).

Lemma clock_Ok db db' now : clock_timestamp clock db = (db', Ok now) → db' = db <| df_ticks := S (df_ticks db) |>.
Proof. by intros [= <- _]. Qed.

Lemma references_Ok b db db' u : references b db = (db', Ok u) → db' = db ∧ b db = true.
Proof. unfold references, mbind, tx_bind, tx_get, tx_lift. intros [= <- H]. apply guard_Ok, negb_false_iff in H. done. Qed.

Lemma query_Ok {A} (q : DefDB → option A) x db db' a : query q x db = (db', Ok a) → db' = db ∧ q db = Some a.
Proof. unfold query, mbind, tx_bind, tx_get, tx_lift, or_err. destruct (q db); by intros [= <- <-]. Qed.

Lemma found_true {A} (o : option A) : DefinitionStore.found o = true ↔ is_Some o.
Proof. apply bool_decide_eq_true. Qed.
End Statements.

(** Down a successful transaction, statement by statement. *)
Ltac tx_inv H :=
  lazymatch type of H with
  | (mbind _ _) _ = (_, Ok _) =>
      let d := fresh "d" in let a := fresh "a" in let Hm := fresh "Hm" in
      apply tx_bind_Ok in H as (d & a & Hm & H); tx_inv Hm; tx_inv H
  | clock_timestamp _ _ = (_, Ok _) => apply clock_Ok in H; subst
  | references _ _ = (_, Ok _) => apply references_Ok in H as [-> H]; rewrite ?andb_true_iff in H
  | query _ _ _ = (_, Ok _) => apply query_Ok in H as [-> H]
  | tx_get _ = (_, Ok _) => injection H as <- <-
  | mret _ _ = (_, Ok _) => injection H; clear H; intros; subst
  | tx_modify _ _ = (_, Ok _) => injection H; clear H; intros; subst
  | tx_fail _ _ = (_, Ok _) => discriminate H
  | tx_lift _ _ = (_, Ok _) => injection H; clear H; intros H ?; subst
  | (if ?b then _ else _) _ = (_, Ok _) => let Hb := fresh "Hb" in destruct b eqn:Hb; tx_inv H
  | (match ?o with Some _ => _ | None => _ end) _ = (_, Ok _) => let Ho := fresh "Ho" in destruct o eqn:Ho; tx_inv H
  | _ => idtac
  end.

(** ** History *)

(** What never changes of a workflow. *)
Definition workflow_identity (row : WorkflowRow) : string * string * string * string * Time * option string :=
  let w := ww_Workflow row in (wf_ID w, wf_ProjectID w, wf_Name w, wf_CreatedBy w, wf_CreatedAt w, ww_ClonedFromVersionID row).

Record extends (db db' : DefDB) : Prop := {
  ex_workflows : ∀ k row, df_workflows db !! k = Some row →
    ∃ row', df_workflows db' !! k = Some row' ∧ workflow_identity row' = workflow_identity row;
  ex_drafts : ∀ k row, df_drafts db !! k = Some row → ∃ row', df_drafts db' !! k = Some row' ∧
    dw_CurrentRevision row ≤ dw_CurrentRevision row' ∧
    dw_CurrentRevision row' - dw_CurrentRevision row = dw_StateVersion row' - dw_StateVersion row;
  ex_revisions : df_revisions db ⊆ df_revisions db';
  ex_snapshots : df_snapshots db ⊆ df_snapshots db';
  ex_versions : df_versions db ⊆ df_versions db';
  ex_audits : df_audits db ⊆ df_audits db';
  ex_idempotency : df_idempotency db ⊆ df_idempotency db';
  ex_links : df_test_snapshots db ⊆ df_test_snapshots db' }.

#[export] Instance extends_preorder : PreOrder extends.
Proof.
  split.
  - intros db. split; try done.
    + intros k row H. by exists row.
    + intros k row H. exists row. split_and!; [done|lia..].
  - intros d1 d2 d3 [W1 D1 R1 S1 V1 A1 I1 L1] [W2 D2 R2 S2 V2 A2 I2 L2]. split; try by etrans.
    + intros k row H. destruct (W1 k row H) as (row2 & H2 & ?), (W2 k row2 H2) as (row3 & H3 & ?). exists row3. split; congruence.
    + intros k row H. destruct (D1 k row H) as (row2 & H2 & ? & ?), (D2 k row2 H2) as (row3 & H3 & ? & ?). exists row3. split_and!; [done|lia..].
Qed.

Section Extends.
Context (db db' : DefDB) (He : extends db db').

Lemma extends_workflow p w : is_Some (workflow_row db p w) → is_Some (workflow_row db' p w).
Proof using He.
  intros [row [Hr Hp]%workflow_row_Some]. destruct (ex_workflows _ _ He w row Hr) as (row' & Hr' & Hi). exists row'.
  apply workflow_row_Some. split; [done|]. unfold workflow_identity in Hi. congruence.
Qed.

Lemma extends_revision p w k r : revision_by_id db p w k = Some r → revision_by_id db' p w k = Some r.
Proof using He. rewrite !revision_by_id_Some. intros [Hr ?]. split; [|done]. eapply lookup_weaken, ex_revisions, He. done. Qed.

Lemma extends_version p w k v : version_by_id db p w k = Some v → version_by_id db' p w k = Some v.
Proof using He. rewrite !version_by_id_Some. intros [Hr ?]. split; [|done]. eapply lookup_weaken, ex_versions, He. done. Qed.

Lemma extends_snapshot p w k s : snapshot_by_id db p w k = Some s → snapshot_by_id db' p w k = Some s.
Proof using He. rewrite !snapshot_by_id_Some. intros [Hr ?]. split; [|done]. eapply lookup_weaken, ex_snapshots, He. done. Qed.

Lemma extends_is_revision p w n k : is_revision db p w n k = true → is_revision db' p w n k = true.
Proof using He. rewrite !is_revision_true. intros (r & Hr%extends_revision & ?). by exists r. Qed.

Lemma extends_is_version p w n k : is_version db p w n k → is_version db' p w n k.
Proof using He. intros (v & Hv%extends_version & ?). by exists v. Qed.
End Extends.

(** ** The invariant *)

(** What the answer under an idempotency key refers to. *)
Definition answered (db : DefDB) (key : string * string * string * string) (row : IdempotencyRow) : Prop :=
  let '(p, command, scope, _) := key in
  (command = "create_workflow" ∨ command = "copy_published_version" →
     is_Some (workflow_row db p (iw_ResponseID row)) ∧
     ∃ k, iw_AuxiliaryID row = Some k ∧ is_Some (revision_by_id db p (iw_ResponseID row) k)) ∧
  (command = "save_draft" → is_Some (revision_by_id db p scope (iw_ResponseID row))) ∧
  (command = "publish_workflow" → is_Some (version_by_id db p scope (iw_ResponseID row))).

Definition workflow_ok (db : DefDB) (w : string) (row : WorkflowRow) : Prop :=
  wf_ID (ww_Workflow row) = w ∧ is_Some (df_drafts db !! (wf_ProjectID (ww_Workflow row), w)) ∧
  ∀ k, wf_ActiveVersionID (ww_Workflow row) = Some k → is_Some (version_by_id db (wf_ProjectID (ww_Workflow row)) w k).

(** The revisions of a draft are numbered from one to the current one. *)
Definition draft_ok (db : DefDB) (k : string * string) (row : DraftRow) : Prop :=
  is_Some (workflow_row db k.1 k.2) ∧ dw_CurrentRevision row < 2 ^ 63 ∧
  is_revision db k.1 k.2 (dw_CurrentRevision row) (dw_CurrentRevisionID row) = true ∧
  ∀ n, 1 ≤ n ≤ dw_CurrentRevision row → ∃ i, is_revision db k.1 k.2 n i = true.

Definition revision_ok (db : DefDB) (k : string) (r : DraftRevision) : Prop :=
  rv_ID r = k ∧ ∃ row, df_drafts db !! (rv_ProjectID r, rv_WorkflowID r) = Some row ∧ 1 ≤ rv_RevisionNumber r ≤ dw_CurrentRevision row.

Definition version_ok (db : DefDB) (k : string) (v : PublishedVersion) : Prop :=
  pv_ID v = k ∧ is_Some (workflow_row db (pv_ProjectID v) (pv_WorkflowID v)) ∧
  is_Some (revision_by_id db (pv_ProjectID v) (pv_WorkflowID v) (pv_SourceDraftRevisionID v)) ∧
  is_Some (snapshot_by_id db (pv_ProjectID v) (pv_WorkflowID v) (pv_ExecutionSnapshotID v)) ∧
  1 ≤ pv_VersionNumber v ∧
  ∀ n, 1 ≤ n ≤ pv_VersionNumber v → ∃ i, is_version db (pv_ProjectID v) (pv_WorkflowID v) n i.

Definition snapshot_ok (db : DefDB) (k : string) (s : ExecutionSnapshot) : Prop :=
  es_ID s = k ∧ is_Some (workflow_row db (es_ProjectID s) (es_WorkflowID s)).

Definition link_ok (db : DefDB) (k : string * string * string * string) (_ : Time) : Prop :=
  is_Some (revision_by_id db k.1.1.1 k.1.1.2 k.1.2) ∧ is_Some (snapshot_by_id db k.1.1.1 k.1.1.2 k.2).

Record def_inv (db : DefDB) : Prop := {
  di_workflow : ∀ k x, df_workflows db !! k = Some x → workflow_ok db k x;
  di_draft : ∀ k x, df_drafts db !! k = Some x → draft_ok db k x;
  di_revision : ∀ k x, df_revisions db !! k = Some x → revision_ok db k x;
  di_revision_unique : ∀ p w n i j, is_revision db p w n i = true → is_revision db p w n j = true → i = j;
  di_version : ∀ k x, df_versions db !! k = Some x → version_ok db k x;
  di_version_unique : ∀ p w n i j, is_version db p w n i → is_version db p w n j → i = j;
  di_snapshot : ∀ k x, df_snapshots db !! k = Some x → snapshot_ok db k x;
  di_snapshot_unique : ∀ i j s t, df_snapshots db !! i = Some s → df_snapshots db !! j = Some t →
    es_ProjectID s = es_ProjectID t → es_WorkflowID s = es_WorkflowID t → es_DefinitionHash s = es_DefinitionHash t → i = j;
  di_link : ∀ k x, df_test_snapshots db !! k = Some x → link_ok db k x;
  di_idempotency : ∀ k x, df_idempotency db !! k = Some x → answered db k x }.

Lemma answered_extends db db' key row : extends db db' → answered db key row → answered db' key row.
Proof.
  intros He. destruct key as [[[p c] s] k]. intros (H1 & H2 & H3). split_and!.
  - intros [Hw (i & Hi & [r Hr])]%H1. split; [by eapply extends_workflow|]. exists i. split; [done|]. exists r. by eapply extends_revision.
  - intros [r Hr]%H2. exists r. by eapply extends_revision.
  - intros [r Hr]%H3. exists r. by eapply extends_version.
Qed.

Section Monotone.
Context (db db' : DefDB) (He : extends db db').

Lemma workflow_ok_extends k x : workflow_ok db k x → workflow_ok db' k x.
Proof using He.
  intros (H1 & [d Hd] & H3). split_and!; [done| |].
  - destruct (ex_drafts _ _ He _ _ Hd) as (d' & -> & _). by exists d'.
  - intros i [v Hv]%H3. exists v. by eapply extends_version.
Qed.

Lemma draft_ok_extends k x : draft_ok db k x → draft_ok db' k x.
Proof using He.
  intros (H1 & H2 & H3 & H4). split_and!; [by eapply extends_workflow|done|by eapply extends_is_revision|].
  intros n [i Hi]%H4. exists i. by eapply extends_is_revision.
Qed.

Lemma revision_ok_extends k x : revision_ok db k x → revision_ok db' k x.
Proof using He.
  intros (H1 & row & H2 & H3). split; [done|]. destruct (ex_drafts _ _ He _ _ H2) as (row' & ? & ? & _). exists row'. split; [done|lia].
Qed.

Lemma version_ok_extends k x : version_ok db k x → version_ok db' k x.
Proof using He.
  intros (H1 & H2 & [r Hr] & [s Hs] & H5 & H6). split_and!; [done|by eapply extends_workflow| | |done|].
  - exists r. by eapply extends_revision.
  - exists s. by eapply extends_snapshot.
  - intros n [i Hi]%H6. exists i. by eapply extends_is_version.
Qed.

Lemma snapshot_ok_extends k x : snapshot_ok db k x → snapshot_ok db' k x.
Proof using He. intros [? ?]. split; [done|by eapply extends_workflow]. Qed.

Lemma link_ok_extends k x : link_ok db k x → link_ok db' k x.
Proof using He. intros [[r Hr] [s Hs]]. split; [exists r; by eapply extends_revision|exists s; by eapply extends_snapshot]. Qed.
End Monotone.

#[export] Hint Resolve workflow_ok_extends draft_ok_extends revision_ok_extends version_ok_extends snapshot_ok_extends link_ok_extends
  answered_extends : evalfrog.

Lemma forall_insert {K A} `{Countable K} (P : K → A → Prop) (m : gmap K A) i x :
  P i x → (∀ k y, m !! k = Some y → P k y) → ∀ k y, <[i := x]> m !! k = Some y → P k y.
Proof. intros Hx Hm k y. rewrite lookup_insert. case_decide as Hk; [intros [= <-]; by subst k|apply Hm]. Qed.

(** The rows a change leaves are transported; those it writes are the subject. *)
Ltac old_rows := first [done | intros ? ? ?; solve [eauto with evalfrog]].

(** ** Transactions that only read *)

(** A transaction that only reads. *)
Definition reads {A} (m : tx DefDB A) : Prop := ∀ db db' a, m db = (db', Ok a) → db' = db.

Lemma reads_query {A} (q : DefDB → option A) x : reads (query q x).
Proof. intros db db' a H. by apply query_Ok in H as [-> _]. Qed.

Lemma reads_ret {A} (a : A) : reads (mret a).
Proof. by intros db db' b [= <- _]. Qed.

Lemma reads_lift {A} (r : res A) : reads (tx_lift r).
Proof. by intros db db' b [= <- _]. Qed.

Lemma reads_get : reads tx_get.
Proof. by intros db db' b [= <- _]. Qed.

Lemma reads_fail {A} x : reads (@tx_fail DefDB A x).
Proof. by intros db db' b [=]. Qed.

Lemma reads_bind {A B} (m : tx DefDB A) (f : A → tx DefDB B) : reads m → (∀ a, reads (f a)) → reads (m ≫= f).
Proof. intros Hm Hf db db' b (d & a & H1 & H2)%tx_bind_Ok. apply Hm in H1 as ->. by apply Hf in H2. Qed.

Create HintDb reads.
#[export] Hint Resolve reads_query reads_ret reads_lift reads_get reads_fail : reads.

Ltac reads := repeat first
  [ progress intros
  | solve [auto with reads]
  | apply reads_bind
  | match goal with
    | |- reads (if ?b then _ else _) => destruct b
    | |- reads (match ?x with _ => _ end) => destruct x
    end ].

Lemma reads_version_and_snapshot p w k : reads (getVersionAndSnapshotByID p w k).
Proof. unfold getVersionAndSnapshotByID. reads. Qed.
Lemma reads_replay_create p r : reads (replay_create p r).
Proof. unfold replay_create, getWorkflow, getDraftRevisionByID. reads. Qed.
Lemma reads_replay_copy p r : reads (replay_copy p r).
Proof. unfold replay_copy, getWorkflow, getDraftRevisionByID. reads. Qed.

(** What is known of a snapshot when it is stored, and stays known. *)
Class Origin (origin : DefDB → ExecutionSnapshot → Prop) : Prop :=
  origin_extends : ∀ db db' s, extends db db' → origin db s → origin db' s.

(** A fact on the store that lasts. *)
Class Lasting (P : DefDB → Prop) : Prop := lasting : ∀ db db', extends db db' → P db → P db'.

#[export] Instance lasting_true : Lasting (λ _, True).
Proof. by intros db db' _ _. Qed.

Section History.
Context (origin : DefDB → ExecutionSnapshot → Prop) {HO : Origin origin}.

(** ** Changes

    The specification of the store: how the tables may change.  The rows that
    are replaced and the rows that are added are those of one workflow. *)

Inductive change (db : DefDB) : DefDB → Prop :=
  | change_create p w r row now :
      df_workflows db !! w = None → df_revisions db !! rv_ID r = None → df_drafts db !! (p, w) = None →
      wf_ID (ww_Workflow row) = w → wf_ProjectID (ww_Workflow row) = p → wf_ActiveVersionID (ww_Workflow row) = None →
      rv_ProjectID r = p → rv_WorkflowID r = w → rv_RevisionNumber r = 1 →
      version_in_project db p (ww_ClonedFromVersionID row) = true → rv_ClonedFromVersionID r = ww_ClonedFromVersionID row →
      change db (db <| df_workflows := <[w := row]> (df_workflows db) |> <| df_revisions := <[rv_ID r := r]> (df_revisions db) |>
                    <| df_drafts := <[(p, w) := MkDraftRow 1 (rv_ID r) 1 now]> (df_drafts db) |>)
  | change_append p w r draft row at_ now :
      workflow_row db p w = Some row → df_drafts db !! (p, w) = Some draft → df_revisions db !! rv_ID r = None →
      rv_ProjectID r = p → rv_WorkflowID r = w → rv_RevisionNumber r = i64 (dw_CurrentRevision draft + 1) → 0 < rv_RevisionNumber r →
      rv_ClonedFromVersionID r = None →
      change db (db <| df_revisions := <[rv_ID r := r]> (df_revisions db) |>
                    <| df_drafts := <[(p, w) := MkDraftRow (rv_RevisionNumber r) (rv_ID r) (dw_StateVersion draft + 1) at_]> (df_drafts db) |>
                    <| df_workflows := <[w := row <| ww_Workflow := touch now (ww_Workflow row) |>]> (df_workflows db) |>)
  | change_snapshot s :
      df_snapshots db !! es_ID s = None → is_Some (workflow_row db (es_ProjectID s) (es_WorkflowID s)) →
      snapshot_by_hash db (es_ProjectID s) (es_WorkflowID s) (es_DefinitionHash s) = None → origin db s →
      change db (db <| df_snapshots := <[es_ID s := s]> (df_snapshots db) |>)
  | change_link p w r s at_ :
      df_test_snapshots db !! (p, w, r, s) = None → is_Some (revision_by_id db p w r) → is_Some (snapshot_by_id db p w s) →
      change db (db <| df_test_snapshots := <[(p, w, r, s) := at_]> (df_test_snapshots db) |>)
  | change_version v row now :
      workflow_row db (pv_ProjectID v) (pv_WorkflowID v) = Some row → df_versions db !! pv_ID v = None →
      is_Some (revision_by_id db (pv_ProjectID v) (pv_WorkflowID v) (pv_SourceDraftRevisionID v)) →
      is_Some (snapshot_by_id db (pv_ProjectID v) (pv_WorkflowID v) (pv_ExecutionSnapshotID v)) →
      pv_VersionNumber v = max_version db (pv_ProjectID v) (pv_WorkflowID v) + 1 →
      change db (db <| df_versions := <[pv_ID v := v]> (df_versions db) |>
                    <| df_workflows := <[pv_WorkflowID v := row <| ww_Workflow := activate (pv_ID v) now (ww_Workflow row) |>]> (df_workflows db) |>)
  | change_activate p w k row now :
      workflow_row db p w = Some row → is_Some (version_by_id db p w k) →
      change db (db <| df_workflows := <[w := row <| ww_Workflow := activate k now (ww_Workflow row) |>]> (df_workflows db) |>)
  | change_answer key row :
      df_idempotency db !! key = None → answered db key row →
      change db (db <| df_idempotency := <[key := row]> (df_idempotency db) |>)
  | change_audit k row :
      df_audits db !! k = None → is_Some (version_by_id db (aw_ProjectID row) (aw_WorkflowID row) (aw_VersionID row)) →
      change db (db <| df_audits := <[k := row]> (df_audits db) |>)
  | change_clock n : change db (db <| df_ticks := n |>).

(** The number after the current one. *)
Lemma next_revision db p w draft : def_inv db → df_drafts db !! (p, w) = Some draft → 0 < i64 (dw_CurrentRevision draft + 1) →
  i64 (dw_CurrentRevision draft + 1) = dw_CurrentRevision draft + 1 ∧ dw_CurrentRevision draft + 1 < 2 ^ 63 ∧ 1 ≤ dw_CurrentRevision draft.
Proof.
  intros Hinv Hd Hpos. destruct (di_draft _ Hinv _ _ Hd) as (_ & Hmax & Hcur & _).
  apply is_revision_true in Hcur as (r0 & [Hr0 _]%revision_by_id_Some & Hr0n). destruct (di_revision _ Hinv _ _ Hr0) as (_ & x & _ & H1).
  cbn [fst snd] in *. destruct (decide (dw_CurrentRevision draft + 1 = 2 ^ 63)) as [He|]; [rewrite He in Hpos; vm_compute in Hpos; discriminate|].
  rewrite i64_small by lia. lia.
Qed.

(** *** Changes respect the history *)

Lemma identity_set {A} (f : WorkflowRow → A) (m : gmap string WorkflowRow) w row row' :
  m !! w = Some row → f row' = f row →
  ∀ k x, m !! k = Some x → ∃ x', <[w := row']> m !! k = Some x' ∧ f x' = f x.
Proof.
  intros Hw Hf k x Hk. destruct (decide (k = w)) as [->|Hne].
  - exists row'. rewrite lookup_insert_eq. split; congruence.
  - exists x. by rewrite lookup_insert_ne.
Qed.

Lemma draft_kept (m : gmap (string * string) DraftRow) k row : m !! k = Some row → ∃ row', m !! k = Some row' ∧
  dw_CurrentRevision row ≤ dw_CurrentRevision row' ∧ dw_CurrentRevision row' - dw_CurrentRevision row = dw_StateVersion row' - dw_StateVersion row.
Proof. intros H. exists row. split_and!; [done|lia..]. Qed.

Lemma change_extends db db' : def_inv db → change db db' → extends db db'.
Proof.
  intros Hinv Hc. destruct Hc as [p w r row now Hw Hr Hd|p w r draft row at_ now Hw Hd Hr _ _ Hn Hpos _|s Hs|p w r s at_ Hl|v row now Hw Hv
    |p w k row now Hw|key row Hk|k row Hk|n]; split; cbn; try done; try (by apply insert_subseteq); try (by intros; eapply draft_kept); try (by eauto).
  - intros k x Hk. exists x. rewrite lookup_insert_ne; [done|]. intros ->. congruence.
  - intros k x Hk. destruct (draft_kept _ _ _ Hk) as (x' & ? & ?). exists x'. rewrite lookup_insert_ne; [done|]. intros <-. congruence.
  - apply workflow_row_Some in Hw as [Hw _]. by eapply identity_set.
  - intros k x Hk. destruct (decide (k = (p, w))) as [->|Hne].
    + eexists. rewrite lookup_insert_eq. split; [done|]. assert (x = draft) as -> by congruence. cbn.
      rewrite Hn in *. destruct (next_revision _ _ _ _ Hinv Hd Hpos) as [-> _]. lia.
    + rewrite lookup_insert_ne by done. by eapply draft_kept.
  - apply workflow_row_Some in Hw as [Hw _]. by eapply identity_set.
  - apply workflow_row_Some in Hw as [Hw _]. by eapply identity_set.
Qed.

(** *** Changes keep the invariant *)

Lemma is_revision_insert db db' r p w n i : df_revisions db' = <[rv_ID r := r]> (df_revisions db) → is_revision db' p w n i = true →
  is_revision db p w n i = true ∨ i = rv_ID r ∧ rv_ProjectID r = p ∧ rv_WorkflowID r = w ∧ rv_RevisionNumber r = n.
Proof.
  intros Hr (x & [Hx Hpw]%revision_by_id_Some & Hn)%is_revision_true. rewrite Hr, lookup_insert in Hx. case_decide as Hi.
  - right. simplify_eq. naive_solver.
  - left. apply is_revision_true. exists x. by rewrite revision_by_id_Some.
Qed.

Lemma is_revision_new db r : df_revisions db !! rv_ID r = Some r → is_revision db (rv_ProjectID r) (rv_WorkflowID r) (rv_RevisionNumber r) (rv_ID r) = true.
Proof. intros Hr. apply is_revision_true. exists r. by rewrite revision_by_id_Some. Qed.

Lemma is_version_insert db db' v p w n i : df_versions db' = <[pv_ID v := v]> (df_versions db) → is_version db' p w n i →
  is_version db p w n i ∨ i = pv_ID v ∧ pv_ProjectID v = p ∧ pv_WorkflowID v = w ∧ pv_VersionNumber v = n.
Proof.
  intros Hr (x & [Hx Hpw]%version_by_id_Some & Hn). rewrite Hr, lookup_insert in Hx. case_decide as Hi.
  - right. simplify_eq. naive_solver.
  - left. exists x. by rewrite version_by_id_Some.
Qed.

Lemma is_version_new db v : df_versions db !! pv_ID v = Some v → is_version db (pv_ProjectID v) (pv_WorkflowID v) (pv_VersionNumber v) (pv_ID v).
Proof. intros Hv. exists v. by rewrite version_by_id_Some. Qed.

Lemma foldr_max (p w : string) (l : list (string * PublishedVersion)) :
  let m := foldr (λ r m, if in_workflow p w (pv_ProjectID r.2) (pv_WorkflowID r.2) then Z.max (pv_VersionNumber r.2) m else m) 0 l in
  0 ≤ m ∧ (∀ k v, (k, v) ∈ l → pv_ProjectID v = p → pv_WorkflowID v = w → pv_VersionNumber v ≤ m) ∧
  (m = 0 ∨ ∃ k v, (k, v) ∈ l ∧ pv_ProjectID v = p ∧ pv_WorkflowID v = w ∧ pv_VersionNumber v = m).
Proof.
  induction l as [|[k v] l (H0 & Hle & Hex)]; cbn [foldr snd]; [split_and!; [lia|set_solver|by left]|].
  set (m := foldr _ _ _) in *. destruct (in_workflow p w (pv_ProjectID v) (pv_WorkflowID v)) eqn:Hv.
  - apply in_workflow_true in Hv as [Hp Hw]. split_and!; [lia| |].
    + intros k' v' [[= -> ->]|Hin]%elem_of_cons ? ?; [lia|]. specialize (Hle k' v' Hin). naive_solver lia.
    + destruct (decide (pv_VersionNumber v ≤ m)).
      * rewrite Z.max_r by done. destruct Hex as [?|(k' & v' & ? & ?)]; [by left|right]. exists k', v'. set_solver.
      * rewrite Z.max_l by lia. right. exists k, v. set_solver.
  - split_and!; [done| |].
    + intros k' v' [[= -> ->]|Hin]%elem_of_cons Hp Hw; [|by apply (Hle k')].
      exfalso. assert (in_workflow p w (pv_ProjectID v) (pv_WorkflowID v) = true) by by apply in_workflow_true. congruence.
    + destruct Hex as [?|(k' & v' & ? & ?)]; [by left|right]. exists k', v'. set_solver.
Qed.

Lemma max_version_le db p w n i : is_version db p w n i → n ≤ max_version db p w.
Proof.
  intros (v & (Hv & Hp & Hw)%version_by_id_Some & <-). destruct (foldr_max p w (map_to_list (df_versions db))) as (_ & Hle & _).
  apply (Hle i v); [by apply elem_of_map_to_list|done|done].
Qed.

Lemma max_version_nonneg db p w : 0 ≤ max_version db p w.
Proof. by destruct (foldr_max p w (map_to_list (df_versions db))). Qed.

Lemma max_version_reached db p w : max_version db p w = 0 ∨ ∃ i, is_version db p w (max_version db p w) i.
Proof.
  destruct (foldr_max p w (map_to_list (df_versions db))) as (_ & _ & [H|(k & v & Hin & Hp & Hw & Hn)]); [by left|right].
  exists k, v. rewrite version_by_id_Some. split; [split; [by apply elem_of_map_to_list|done]|done].
Qed.

(** The versions of a workflow are numbered from one. *)
Lemma version_below db p w n : def_inv db → 1 ≤ n ≤ max_version db p w → ∃ i, is_version db p w n i.
Proof.
  intros Hinv Hn. destruct (max_version_reached db p w) as [H0|(i & v & Hv & Hm)]; [lia|].
  apply version_by_id_Some in Hv as (Hv & <- & <-). destruct (di_version _ Hinv _ _ Hv) as (_ & _ & _ & _ & _ & Hall). apply Hall. lia.
Qed.


Lemma create_keeps db p w r row now :
  def_inv db → df_workflows db !! w = None → df_revisions db !! rv_ID r = None → df_drafts db !! (p, w) = None →
  wf_ID (ww_Workflow row) = w → wf_ProjectID (ww_Workflow row) = p → wf_ActiveVersionID (ww_Workflow row) = None →
  rv_ProjectID r = p → rv_WorkflowID r = w → rv_RevisionNumber r = 1 →
  let db' := db <| df_workflows := <[w := row]> (df_workflows db) |> <| df_revisions := <[rv_ID r := r]> (df_revisions db) |>
                <| df_drafts := <[(p, w) := MkDraftRow 1 (rv_ID r) 1 now]> (df_drafts db) |> in
  extends db db' → def_inv db'.
Proof.
  intros [W D R RU V VU S SU L I] Hw Hr Hd Hid Hp Ha Hrp Hrw Hrn db' He.
  assert (is_revision db' p w 1 (rv_ID r) = true) as Hnew.
  { rewrite <-Hrp, <-Hrw, <-Hrn. apply is_revision_new. apply lookup_insert_eq. }
  split; try old_rows.
  - apply forall_insert; [|eauto with evalfrog]. split_and!; [done| |by rewrite Ha]. rewrite Hp. cbn. rewrite lookup_insert_eq. by eexists.
  - apply forall_insert; [|eauto with evalfrog]. split_and!; cbn [fst snd dw_CurrentRevision dw_CurrentRevisionID]; [|lia|done|].
    + exists row. apply workflow_row_Some. split; [apply lookup_insert_eq|done].
    + intros n Hn. exists (rv_ID r). by assert (n = 1) as -> by lia.
  - apply forall_insert; [|eauto with evalfrog]. split; [done|]. rewrite Hrp, Hrw, Hrn. eexists. split; [apply lookup_insert_eq|cbn; lia].
  - assert (∀ q v n i, is_revision db q v n i = true → rv_ProjectID r = q → rv_WorkflowID r = v → False) as Hnone.
    { intros q v n i (x & [Hx [Hxp Hxw]]%revision_by_id_Some & _)%is_revision_true. destruct (R _ _ Hx) as (_ & y & Hy & _). intros. congruence. }
    intros q v n i j Hi Hj. destruct (is_revision_insert db db' r _ _ _ _ eq_refl Hi) as [Hi'|(-> & ? & ? & ?)],
      (is_revision_insert db db' r _ _ _ _ eq_refl Hj) as [Hj'|(-> & ? & ? & ?)]; try done; [by eapply RU|exfalso; by eapply Hnone..].
Qed.

Lemma append_keeps db p w r draft row at_ now :
  def_inv db → workflow_row db p w = Some row → df_drafts db !! (p, w) = Some draft → df_revisions db !! rv_ID r = None →
  rv_ProjectID r = p → rv_WorkflowID r = w → rv_RevisionNumber r = i64 (dw_CurrentRevision draft + 1) → 0 < rv_RevisionNumber r →
  let db' := db <| df_revisions := <[rv_ID r := r]> (df_revisions db) |>
                <| df_drafts := <[(p, w) := MkDraftRow (rv_RevisionNumber r) (rv_ID r) (dw_StateVersion draft + 1) at_]> (df_drafts db) |>
                <| df_workflows := <[w := row <| ww_Workflow := touch now (ww_Workflow row) |>]> (df_workflows db) |> in
  extends db db' → def_inv db'.
Proof.
  intros Hinv Hw Hd Hr Hrp Hrw Hrn Hpos db' He. rewrite Hrn in Hpos. destruct (next_revision _ _ _ _ Hinv Hd Hpos) as (Hnext & Hmax & Hcur).
  rewrite Hnext in Hrn. destruct Hinv as [W D R RU V VU S SU L I]. pose proof Hw as Hrow. apply workflow_row_Some in Hrow as [Hrow Hproject].
  assert (is_revision db' p w (dw_CurrentRevision draft + 1) (rv_ID r) = true) as Hnew.
  { rewrite <-Hrp, <-Hrw, <-Hrn. apply is_revision_new. apply lookup_insert_eq. }
  split; try old_rows.
  - apply forall_insert; [|eauto with evalfrog]. exact (workflow_ok_extends _ _ He _ _ (W _ _ Hrow)).
  - apply forall_insert; [|eauto with evalfrog]. destruct (D _ _ Hd) as (Hex & _ & _ & Hall).
    split_and!; cbn [fst snd dw_CurrentRevision dw_CurrentRevisionID]; [by eapply extends_workflow|lia|by rewrite Hrn|].
    intros n Hn. destruct (decide (n = dw_CurrentRevision draft + 1)) as [->|Hne]; [by eexists|].
    destruct (Hall n) as [i Hi]; [lia|]. exists i. by eapply extends_is_revision.
  - apply forall_insert; [|eauto with evalfrog]. split; [done|]. rewrite Hrp, Hrw. eexists. split; [apply lookup_insert_eq|cbn; lia].
  - assert (∀ q v n i, is_revision db q v n i = true → rv_ProjectID r = q → rv_WorkflowID r = v → rv_RevisionNumber r = n → False) as Hnone.
    { intros q v n i (x & [Hx [Hxp Hxw]]%revision_by_id_Some & Hxn)%is_revision_true. destruct (R _ _ Hx) as (_ & y & Hy & ?). intros.
      assert (y = draft) as -> by congruence. lia. }
    intros q v n i j Hi Hj. destruct (is_revision_insert db db' r _ _ _ _ eq_refl Hi) as [Hi'|(-> & ? & ? & ?)],
      (is_revision_insert db db' r _ _ _ _ eq_refl Hj) as [Hj'|(-> & ? & ? & ?)]; try done; [by eapply RU|exfalso; by eapply Hnone..].
Qed.

Lemma version_keeps db v row now :
  def_inv db → workflow_row db (pv_ProjectID v) (pv_WorkflowID v) = Some row → df_versions db !! pv_ID v = None →
  is_Some (revision_by_id db (pv_ProjectID v) (pv_WorkflowID v) (pv_SourceDraftRevisionID v)) →
  is_Some (snapshot_by_id db (pv_ProjectID v) (pv_WorkflowID v) (pv_ExecutionSnapshotID v)) →
  pv_VersionNumber v = max_version db (pv_ProjectID v) (pv_WorkflowID v) + 1 →
  let db' := db <| df_versions := <[pv_ID v := v]> (df_versions db) |>
                <| df_workflows := <[pv_WorkflowID v := row <| ww_Workflow := activate (pv_ID v) now (ww_Workflow row) |>]> (df_workflows db) |> in
  extends db db' → def_inv db'.
Proof.
  intros Hinv Hw Hv [r Hr] [s Hs] Hn db' He. pose proof (max_version_nonneg db (pv_ProjectID v) (pv_WorkflowID v)) as Hmax.
  pose proof (version_below db (pv_ProjectID v) (pv_WorkflowID v)) as Hbelow. pose proof Hinv as [W D R RU V VU S SU L I].
  pose proof Hw as Hrow. apply workflow_row_Some in Hrow as [Hrow Hproject].
  assert (is_version db' (pv_ProjectID v) (pv_WorkflowID v) (pv_VersionNumber v) (pv_ID v)) as Hnew by apply is_version_new, lookup_insert_eq.
  split; try old_rows.
  - apply forall_insert; [|eauto with evalfrog]. destruct (workflow_ok_extends _ _ He _ _ (W _ _ Hrow)) as (H1 & H2 & _).
    split_and!; [done|done|]. cbn. intros k [= <-]. rewrite Hproject. destruct Hnew as (x & Hx & _). by exists x.
  - apply forall_insert; [|eauto with evalfrog]. split_and!; [done|by eapply extends_workflow| | |lia|].
    + exists r. by eapply extends_revision.
    + exists s. by eapply extends_snapshot.
    + intros n Hle. destruct (decide (n = pv_VersionNumber v)) as [->|Hne]; [by eexists|].
      destruct (Hbelow n Hinv) as [i Hi]; [lia|]. exists i. by eapply extends_is_version.
  - assert (∀ q w n i, is_version db q w n i → pv_ProjectID v = q → pv_WorkflowID v = w → pv_VersionNumber v = n → False) as Hnone.
    { intros q w n i Hi%max_version_le ? ? ?. subst. lia. }
    intros q u n i j Hi Hj. destruct (is_version_insert db db' v _ _ _ _ eq_refl Hi) as [Hi'|(-> & ? & ? & ?)],
      (is_version_insert db db' v _ _ _ _ eq_refl Hj) as [Hj'|(-> & ? & ? & ?)]; try done; [by eapply VU|exfalso; by eapply Hnone..].
Qed.

Lemma change_keeps db db' : change db db' → def_inv db → def_inv db'.
Proof.
  intros Hc Hinv. pose proof (change_extends _ _ Hinv Hc) as He. destruct Hc as [p w r row now|p w r draft row at_ now|s Hs Hw Hh|p w r s at_ Hl Hr Hs
    |v row now|p w k row now Hw Hk|key row Hk Ha|k row Hk|n].
  - by eapply create_keeps.
  - by eapply append_keeps.
  - pose proof Hinv as [W D R RU V VU S SU L I]. split; try old_rows.
    + apply forall_insert; [|eauto with evalfrog]. split; [done|by eapply extends_workflow].
    + assert (∀ i x, df_snapshots db !! i = Some x → es_ProjectID x = es_ProjectID s → es_WorkflowID x = es_WorkflowID s →
        es_DefinitionHash x = es_DefinitionHash s → False) as Hnone.
      { intros i x Hx Hp Hw' Hd. pose proof (proj1 (select_one_None _ _) Hh i x Hx) as Hno. cbn in Hno.
        rewrite (proj2 (in_workflow_true _ _ _ _) (conj Hp Hw')), bool_decide_eq_true_2 in Hno; done. }
      cbn. intros i j x y. rewrite !lookup_insert. repeat case_decide; [congruence|..].
      * intros [= <-] Hy ? ? ?. exfalso. by eapply (Hnone j y).
      * intros Hx [= <-] ? ? ?. exfalso. by eapply (Hnone i x).
      * by eapply SU.
  - pose proof Hinv as [W D R RU V VU S SU L I]. split; try old_rows. apply forall_insert; [|eauto with evalfrog].
    destruct Hr as [x Hx], Hs as [y Hy]. split; [exists x; by eapply extends_revision|exists y; by eapply extends_snapshot].
  - by eapply version_keeps.
  - pose proof Hinv as [W D R RU V VU S SU L I]. pose proof Hw as Hrow. apply workflow_row_Some in Hrow as [Hrow Hproject].
    split; try old_rows. apply forall_insert; [|eauto with evalfrog]. destruct (workflow_ok_extends _ _ He _ _ (W _ _ Hrow)) as (H1 & H2 & _).
    split_and!; [done|done|]. cbn. intros i [= <-]. rewrite Hproject. destruct Hk as [v Hv]. exists v. by eapply extends_version.
  - pose proof Hinv as [W D R RU V VU S SU L I]. split; try old_rows. apply forall_insert; eauto with evalfrog.
  - pose proof Hinv as [W D R RU V VU S SU L I]. split; old_rows.
  - pose proof Hinv as [W D R RU V VU S SU L I]. split; old_rows.
Qed.

(** [change]s one after the other. *)
Definition changes : DefDB → DefDB → Prop := rtc change.

Lemma changes_keep db db' : changes db db' → def_inv db → def_inv db' ∧ extends db db'.
Proof.
  induction 1 as [db|d1 d2 d3 H1 _ IH]; [done|]. intros Hinv. destruct (IH (change_keeps _ _ H1 Hinv)) as [? ?]. split; [done|].
  etrans; [by eapply change_extends|done].
Qed.

(** ** Transactions are changes *)

#[global] Instance changes_preorder : PreOrder changes.
Proof. unfold changes. apply _. Qed.

Lemma changes_one db db' : change db db' → changes db db'.
Proof. apply rtc_once. Qed.

Lemma changes_clock db n : changes db (db <| df_ticks := n |>).
Proof. apply changes_one, change_clock. Qed.

(** A successful transaction is made of changes. *)
Definition commits {A} (m : tx DefDB A) : Prop := ∀ db db' a, def_inv db → m db = (db', Ok a) → changes db db'.

Lemma reads_commits {A} (m : tx DefDB A) : reads m → commits m.
Proof. intros H db db' a _ Hm. by rewrite (H _ _ _ Hm). Qed.

Lemma commits_bind {A B} (m : tx DefDB A) (f : A → tx DefDB B) : commits m → (∀ a, commits (f a)) → commits (m ≫= f).
Proof.
  intros Hm Hf db db' b Hinv (d & a & H1 & H2)%tx_bind_Ok. pose proof (Hm _ _ _ Hinv H1) as Hc. etrans; [exact Hc|].
  eapply Hf; [|exact H2]. by apply (changes_keep _ _ Hc).
Qed.

Section Transactions.
Context (clock : nat → Time) (others : nat → DefDB → DefDB).
Context (jsonb : string → string) (jsonb_eqb : string → string → bool) (jsonb_field : string → string → option string).

(** *** Writes *)

Lemma answer_commits p c s k hash kind id aux db db' u :
  answered db (p, c, s, k) (MkIdempotencyRow hash kind id aux) →
  insertIdempotency p c s k hash kind id aux db = (db', Ok u) → changes db db'.
Proof. intros Ha H. unfold insertIdempotency in H. tx_inv H. apply changes_one. by apply change_answer. Qed.

(** A change behind clock readings. *)
Lemma commit db n db1 db' : change (db <| df_ticks := n |>) db1 → db' = db1 → changes db db'.
Proof. intros H ->. eapply rtc_l; [apply change_clock|]. by apply rtc_once. Qed.

Lemma new_workflow_commits record name cloned db db' u : def_inv db → new_workflow clock jsonb record name cloned db = (db', Ok u) →
  changes db db' ∧ is_Some (workflow_row db' (sd_ProjectID record) (sd_WorkflowID record)) ∧
  is_Some (revision_by_id db' (sd_ProjectID record) (sd_WorkflowID record) (sd_DraftRevisionID record)).
Proof.
  intros Hinv H. unfold new_workflow, insert_workflow, insertDraftRevision, insert_draft in H. tx_inv H.
  apply orb_false_iff in Hb1 as [Hfree _]. apply bool_decide_eq_false, eq_None_not_Some in Hfree.
  split_and!.
  - eapply (commit _ (S (S (S (df_ticks db))))).
    + apply (change_create _ (sd_ProjectID record) (sd_WorkflowID record)
        (MkDraftRevision (sd_DraftRevisionID record) (sd_ProjectID record) (sd_WorkflowID record) 1 (jsonb (sd_IRJSON record))
           (sd_CatalogRevision record) (sd_PrincipalID record) a2 cloned)
        (MkWorkflowRow (MkWorkflow (sd_WorkflowID record) (sd_ProjectID record) name None (sd_PrincipalID record) a0 a0) cloned) a); done.
    + done.
  - eexists. apply workflow_row_Some. split; [apply lookup_insert_eq|done].
  - eexists. apply revision_by_id_Some. split; [apply lookup_insert_eq|done].
Qed.

Lemma bigint_succ_Ok x y : bigint_succ x = Ok y → y = x + 1.
Proof. unfold bigint_succ. intros H. by apply bind_guard in H as [_ [= <-]]. Qed.

Lemma free_key {K A} `{Countable K} (m : gmap K A) k b : bool_decide (is_Some (m !! k)) || b = false → m !! k = None.
Proof. intros [Hk _]%orb_false_iff. by apply bool_decide_eq_false, eq_None_not_Some in Hk. Qed.

Lemma append_commits record db db' u : append_revision clock jsonb record db = (db', Ok u) →
  changes db db' ∧ is_Some (revision_by_id db' (sd_ProjectID record) (sd_WorkflowID record) (sd_DraftRevisionID record)).
Proof.
  intros H. unfold append_revision, insertDraftRevision, advance_draft, update_workflow in H. tx_inv H.
  2:{ destruct Hm1 as [[row Hrow]%found_true _]. match goal with Ho : workflow_row _ _ _ = None |- _ => cbn in Ho; unfold workflow_row in Hrow, Ho end.
      cbn in *. congruence. }
  apply free_key in Hb1. apply fmap_Some in Hm as (draft & Hd & ->). cbn [df_drafts] in Ho. assert (d0 = draft) as -> by (cbn in Ho; congruence).
  apply bigint_succ_Ok in Hm2. subst. split.
  - eapply (commit _ (S (S (S (df_ticks db))))).
    + apply (change_append _ (sd_ProjectID record) (sd_WorkflowID record)
        (MkDraftRevision (sd_DraftRevisionID record) (sd_ProjectID record) (sd_WorkflowID record) (i64 (dw_CurrentRevision draft + 1))
           (jsonb (sd_IRJSON record)) (sd_CatalogRevision record) (sd_PrincipalID record) a1 None) draft w a3 a0); try done.
      cbn. lia.
    + done.
  - eexists. apply revision_by_id_Some. split; [apply lookup_insert_eq|done].
Qed.
Lemma extends_clock db n : extends db (db <| df_ticks := n |>).
Proof. split; cbn; try done; [by eauto|by intros; eapply draft_kept]. Qed.

Lemma snapshot_by_hash_Some db p w h s : def_inv db → snapshot_by_hash db p w h = Some s →
  snapshot_by_id db p w (es_ID s) = Some s ∧ es_DefinitionHash s = h.
Proof.
  intros Hinv (k & Hk & H)%select_one_Some. apply andb_true_iff in H as [[? ?]%in_workflow_true Hh%bool_decide_eq_true].
  destruct (di_snapshot _ Hinv _ _ Hk) as [<- _]. by rewrite snapshot_by_id_Some.
Qed.

Lemma upsert_commits snapshot db db' stored : def_inv db → (∀ now, origin db (stored_snapshot jsonb snapshot now)) →
  upsertSnapshot clock jsonb jsonb_eqb snapshot db = (db', Ok stored) →
  changes db db' ∧ snapshot_by_id db' (es_ProjectID snapshot) (es_WorkflowID snapshot) (es_ID stored) = Some stored ∧
  es_DefinitionHash stored = es_DefinitionHash snapshot ∧ same_artifacts jsonb_eqb stored snapshot = true.
Proof.
  intros Hinv Ho H. unfold upsertSnapshot, insert_snapshot in H.
  assert (∀ d, changes db d → snapshot_by_hash d (es_ProjectID snapshot) (es_WorkflowID snapshot) (es_DefinitionHash snapshot) = Some stored →
    same_artifacts jsonb_eqb stored snapshot = true →
    changes db d ∧ snapshot_by_id d (es_ProjectID snapshot) (es_WorkflowID snapshot) (es_ID stored) = Some stored ∧
    es_DefinitionHash stored = es_DefinitionHash snapshot ∧ same_artifacts jsonb_eqb stored snapshot = true) as Hfound.
  { intros d Hd Hs Ha. destruct (changes_keep _ _ Hd Hinv) as [Hd' _]. destruct (snapshot_by_hash_Some d _ _ _ _ Hd' Hs). done. }
  tx_inv H; (apply Hfound; [|done|done]).
  - apply changes_clock.
  - eapply (commit _ (S (df_ticks db))).
    + apply (change_snapshot _ (stored_snapshot jsonb snapshot a0)); [|by apply found_true|done|].
      * match goal with Hf : bool_decide _ = false |- _ => by apply bool_decide_eq_false, eq_None_not_Some in Hf end.
      * eapply origin_extends, Ho. apply extends_clock.
    + done.
Qed.

Lemma link_commits p w r s db db' u : link_test_snapshot clock p w r s db = (db', Ok u) → changes db db'.
Proof.
  intros H. unfold link_test_snapshot in H. tx_inv H; [apply changes_clock|]. destruct Hm as [Hr%found_true Hs%found_true].
  eapply (commit _ (S (df_ticks db))); [by apply (change_link _ p w r s a)|done].
Qed.

Lemma activate_commits p w k db db' u : is_Some (workflow_row db p w) → activate_version clock p w k db = (db', Ok u) → changes db db'.
Proof.
  intros [row Hw] H. unfold activate_version, update_workflow in H. tx_inv H.
  - apply found_true in H. eapply (commit _ (S (df_ticks db))); [by apply (change_activate _ p w k w0 a0)|done].
  - cbn in Ho. unfold workflow_row in *. cbn in *. congruence.
Qed.

Lemma audit_commits k p w event v by_ db db' u : insert_audit clock k p w event v by_ db = (db', Ok u) → changes db db'.
Proof.
  intros H. unfold insert_audit in H. tx_inv H. apply found_true in Hm. eapply (commit _ (S (df_ticks db))); [by apply (change_audit _ k (MkAuditRow p w event v by_ a))|done].
Qed.
Lemma reads_check record : reads (check_published_revision record).
Proof. unfold check_published_revision. reads. Qed.

(** A version is inserted and made the active one. *)
Lemma version_commits record snapshotID db db' u :
  (number ← tx_lift (bigint_succ (max_version db (pb_ProjectID record) (pb_WorkflowID record)));
   insert_version clock record number snapshotID ;;
   activate_version clock (pb_ProjectID record) (pb_WorkflowID record) (pb_VersionID record)) db = (db', Ok u) →
  changes db db' ∧ ∃ v, version_by_id db' (pb_ProjectID record) (pb_WorkflowID record) (pb_VersionID record) = Some v.
Proof.
  intros H. unfold insert_version, activate_version, update_workflow in H. tx_inv H; destruct Hm1 as [[Hw%found_true Hr%found_true] Hs%found_true].
  - apply found_true in H. split; [|exact H]. apply bigint_succ_Ok in Hm. apply free_key in Hb. subst.
    eapply (commit _ (S (S (df_ticks d)))).
    + by apply (change_version _ (MkPublishedVersion (pb_VersionID record) (pb_ProjectID record) (pb_WorkflowID record)
        (max_version d (pb_ProjectID record) (pb_WorkflowID record) + 1) (pb_DraftRevisionID record) snapshotID (pb_ChangeLog record)
        (pb_PrincipalID record) a1) w a3).
    + done.
  - destruct Hw as [row Hw]. unfold workflow_row in *. cbn in *. congruence.
Qed.

Lemma publish_commits record db db' stored : def_inv db → (∀ now, origin db (stored_snapshot jsonb (pb_Snapshot record) now)) →
  publish_version clock jsonb jsonb_eqb record db = (db', Ok stored) → changes db db'.
Proof.
  intros Hinv Ho H. unfold publish_version in H. apply tx_bind_Ok in H as (d & [] & Hc & H). apply reads_check in Hc as ->.
  apply tx_bind_Ok in H as (d1 & s & Hs & H). destruct (upsert_commits _ _ _ _ Hinv Ho Hs) as [C1 _].
  apply tx_bind_Ok in H as (d0 & a & [= <- <-] & H). apply tx_bind_Ok in H as (d2 & n & Hn & H). apply tx_bind_Ok in H as (d3 & [] & Hv & H).
  apply tx_bind_Ok in H as (d4 & [] & Ha & H).
  destruct (version_commits record (es_ID s) d1 d4 ()) as [C2 [v Hv']].
  { rewrite (tx_step _ _ _ _ _ Hn). by rewrite (tx_step _ _ _ _ _ Hv). }
  apply tx_bind_Ok in H as (d5 & [] & Hau & H). apply audit_commits in Hau as C3. apply tx_bind_Ok in H as (d6 & [] & Hi & [= <- _]).
  do 3 (etrans; [eassumption|]). eapply answer_commits; [|exact Hi].
  destruct (changes_keep _ _ C1 Hinv) as [I1 _]. destruct (changes_keep _ _ C2 I1) as [I2 _]. destruct (changes_keep _ _ C3 I2) as [_ E3].
  unfold answered. split_and!; [naive_solver|naive_solver|]. intros _. exists v. by eapply extends_version.
Qed.
(** *** Commands *)

Lemma create_commits record : commits
  (new_workflow clock jsonb (created_draft record) (cw_Name record) None ;;
   insertIdempotency (cw_ProjectID record) "create_workflow" "project" (cw_IdempotencyKey record) (cw_RequestHash record) "workflow"
     (cw_WorkflowID record) (Some (cw_DraftRevisionID record))).
Proof.
  intros db db' [] Hinv (d & [] & H1 & H2)%tx_bind_Ok. destruct (new_workflow_commits _ _ _ _ _ _ Hinv H1) as (C1 & Hw & Hr).
  etrans; [exact C1|]. eapply answer_commits; [|exact H2]. unfold answered. split_and!; [|done|done]. intros _. by split; [|eexists].
Qed.

Lemma copy_commits record : commits
  (db ← tx_get;
   '(sourceVersionID, irJSON, catalogRevision) ← tx_lift (copy_source jsonb_field db record);
   new_workflow clock jsonb (copied_draft record irJSON catalogRevision) (cy_Name record) (Some sourceVersionID) ;;
   insertIdempotency (cy_ProjectID record) "copy_published_version" "project" (cy_IdempotencyKey record) (cy_RequestHash record) "workflow"
     (cy_WorkflowID record) (Some (cy_DraftRevisionID record))).
Proof.
  intros db db' [] Hinv (d0 & db0 & [= <- <-] & H)%tx_bind_Ok. apply tx_bind_Ok in H as (d1 & [[version ir] catalog] & [= <- _] & H).
  apply tx_bind_Ok in H as (d & [] & H1 & H2). destruct (new_workflow_commits _ _ _ _ _ _ Hinv H1) as (C1 & Hw & Hr).
  etrans; [exact C1|]. eapply answer_commits; [|exact H2]. unfold answered. split_and!; [|done|done]. intros _. by split; [|eexists].
Qed.

Lemma save_commits record : commits
  (append_revision clock jsonb record ;;
   insertIdempotency (sd_ProjectID record) "save_draft" (sd_WorkflowID record) (sd_IdempotencyKey record) (sd_RequestHash record)
     "draft_revision" (sd_DraftRevisionID record) None).
Proof.
  intros db db' [] Hinv (d & [] & H1 & H2)%tx_bind_Ok. destruct (append_commits _ _ _ _ H1) as (C1 & Hr).
  etrans; [exact C1|]. eapply answer_commits; [|exact H2]. unfold answered. split_and!; [naive_solver|done|done].
Qed.
End Transactions.

(** ** Calls evolve the store *)

Definition evolves (db db' : DefDB) : Prop := def_inv db → changes db db'.

#[global] Instance evolves_preorder : PreOrder evolves.
Proof.
  split; [by intros db _|]. intros d1 d2 d3 H1 H2 Hinv. pose proof (H1 Hinv) as C1. etrans; [exact C1|]. apply H2. by apply (changes_keep _ _ C1).
Qed.

Section Calls.
Context (clock : nat → Time) (others : nat → DefDB → DefDB) (ids : nat → res string).
Context (jsonb : string → string) (jsonb_eqb : string → string → bool) (jsonb_field : string → string → option string).
(** The other processes go through the same store. *)
Context (others_evolve : ∀ n db, evolves db (others n db)).

(** What is done where a fact holds. *)
Definition keeps {B} (P : DefDB → Prop) (m : DefDB → DefDB * B) : Prop := ∀ db, P db → evolves db (m db).1.

Lemma lasts {P} `{!Lasting P} db db' : def_inv db → evolves db db' → P db → P db'.
Proof. intros Hinv He. apply lasting. by apply (changes_keep _ _ (He Hinv)). Qed.

Lemma evolves_inv db db' : def_inv db → evolves db db' → def_inv db'.
Proof. intros Hinv He. by apply (changes_keep _ _ (He Hinv)). Qed.

Lemma keeps_pool {A} (P : DefDB → Prop) `{!Lasting P} (m : tx DefDB A) :
  (∀ db db' a, P db → def_inv db → m db = (db', Ok a) → changes db db') → keeps P (pool others m).
Proof.
  intros Hm db HP Hinv. unfold pool, transaction. set (d := others _ _).
  assert (changes db d) as C1. { etrans; [apply (changes_clock _ (S (df_ticks db)))|]. apply others_evolve. by apply (changes_keep _ _ (changes_clock db _)). }
  destruct (changes_keep _ _ C1 Hinv) as [I1 E1]. destruct (m d) as [d' [a|x]] eqn:Hmd; cbn.
  - etrans; [exact C1|]. eapply Hm; [by eapply lasting|done|done].
  - etrans; [exact C1|apply changes_clock].
Qed.

Lemma keeps_reads {A} (P : DefDB → Prop) `{!Lasting P} (m : tx DefDB A) : reads m → keeps P (pool others m).
Proof. intros Hm. apply (keeps_pool P). intros db db' a _ _ H. by rewrite (Hm _ _ _ H). Qed.

Lemma df_keeps_bind {A B} (P : DefDB → Prop) `{!Lasting P} (m : tx DefDB A) (f : A → tx DefDB B) : keeps P m → (∀ a, keeps P (f a)) → keeps P (m ≫= f).
Proof.
  intros Hm Hf db HP Hinv. specialize (Hm db HP). unfold mbind, tx_bind. destruct (m db) as [d [a|x]]; cbn in *; [|by apply Hm].
  etrans; [by apply Hm|]. apply Hf; [by eapply lasts|by eapply evolves_inv].
Qed.

Lemma df_keeps_ret {A} (P : DefDB → Prop) (a : A) : keeps P (mret a : tx DefDB A).
Proof. by intros db _ _. Qed.
Lemma keeps_lift {A} (P : DefDB → Prop) (r : res A) : keeps P (tx_lift r).
Proof. by intros db _ _. Qed.
Lemma df_keeps_fail {A} (P : DefDB → Prop) x : keeps P (@tx_fail DefDB A x).
Proof. by intros db _ _. Qed.

Lemma keeps_guarded {A B} (P : DefDB → Prop) `{!Lasting P} p c s k h (replay : IdempotencyRow → tx DefDB A) (perform : tx DefDB B) (read : B → tx DefDB A) :
  (∀ r, reads (replay r)) → (∀ db db' b, P db → def_inv db → perform db = (db', Ok b) → changes db db') → (∀ b, keeps P (read b)) →
  keeps P (guarded others p c s k h replay perform read).
Proof.
  intros Hr Hp Hread. unfold guarded. apply df_keeps_bind; [done| |].
  - apply keeps_pool; [done|]. intros db db' b HP Hinv H. apply tx_bind_Ok in H as (d & known & [= <- <-] & H).
    destruct (df_idempotency db !! _) as [row|].
    + destruct (negb _); [done|]. apply tx_bind_Ok in H as (d' & a & Ha & [= <- _]). by rewrite (Hr _ _ _ _ Ha).
    + apply tx_bind_Ok in H as (d' & a & Ha & [= <- _]). by eapply Hp.
  - intros [a|b]; [apply df_keeps_ret|apply Hread].
Qed.

(** *** Operations of the store *)

Section Lasting.
Context (P : DefDB → Prop) `{!Lasting P}.

Ltac keeps := repeat first
  [ match goal with |- ∀ _, _ => intros ? end
  | solve [apply df_keeps_ret | apply keeps_lift | apply df_keeps_fail | apply (keeps_reads P); reads]
  | apply (df_keeps_bind P)
  | match goal with
    | |- keeps _ (if ?b then _ else _) => destruct b
    | |- keeps _ (match ?x with _ => _ end) => destruct x
    | |- keeps _ (let '(_, _) := ?x in _) => destruct x
    end ].

Lemma keeps_get_workflow p w : keeps P (GetWorkflow others p w).
Proof. unfold GetWorkflow, getWorkflow. keeps. Qed.

Lemma keeps_workflow_and_revision p w k : keeps P (GetWorkflowAndRevision others p w k).
Proof. unfold GetWorkflowAndRevision, GetWorkflow, getWorkflow, getDraftRevisionByID. keeps. Qed.

Lemma keeps_create record : keeps P (CreateWorkflow clock others jsonb record).
Proof.
  unfold CreateWorkflow. apply (keeps_guarded P); [intros r; apply reads_replay_create| |intros _; apply keeps_workflow_and_revision].
  intros db db' [] _. by apply create_commits.
Qed.

Lemma keeps_copy record : keeps P (CopyPublishedVersion clock others jsonb jsonb_field record).
Proof.
  unfold CopyPublishedVersion. apply (keeps_guarded P); [intros r; apply reads_replay_copy| |intros _; apply keeps_workflow_and_revision].
  intros db db' [] _. by apply copy_commits.
Qed.

Lemma keeps_save record : keeps P (SaveDraft clock others jsonb record).
Proof.
  unfold SaveDraft. apply (keeps_guarded P); [intros r; unfold getDraftRevisionByID; reads| |intros _; unfold getDraftRevisionByID; keeps].
  intros db db' [] _. by apply save_commits.
Qed.

Lemma keeps_get_revision p w n : keeps P (GetDraftRevision others p w n).
Proof. unfold GetDraftRevision. keeps. Qed.

Lemma keeps_get_draft p w : keeps P (GetCurrentDraft others p w).
Proof. unfold GetCurrentDraft. keeps. Qed.

Lemma keeps_store_snapshot snapshot : (∀ db, P db → ∀ now, origin db (stored_snapshot jsonb snapshot now)) →
  keeps P (StoreTestSnapshot clock others jsonb jsonb_eqb snapshot).
Proof.
  intros Ho. apply (keeps_pool P). intros db db' a HP Hinv (d & stored & H1 & H2)%tx_bind_Ok.
  destruct (upsert_commits clock jsonb jsonb_eqb snapshot db d stored Hinv (Ho db HP) H1) as [C1 _].
  etrans; [exact C1|]. destruct (negb _ || _); [done|]. apply tx_bind_Ok in H2 as (d2 & [] & H2 & [= <- _]). by eapply link_commits.
Qed.

Lemma keeps_resolve_snapshot p w n : keeps P (ResolveDraftTestSnapshot others p w n).
Proof. unfold ResolveDraftTestSnapshot. keeps. Qed.

Lemma keeps_find_published p w k h : keeps P (FindPublishedByIdempotency others p w k h).
Proof. unfold FindPublishedByIdempotency, lockIdempotency. keeps. Qed.

Lemma keeps_publish record : (∀ db, P db → ∀ now, origin db (stored_snapshot jsonb (pb_Snapshot record) now)) →
  keeps P (Publish clock others jsonb jsonb_eqb record).
Proof.
  intros Ho. unfold Publish. apply (keeps_guarded P); [intros r; apply reads_version_and_snapshot| |].
  - intros db db' s HP Hinv H. by eapply publish_commits; [|apply Ho|].
  - intros s. keeps.
Qed.

Lemma keeps_rollback record : keeps P (Rollback clock others record).
Proof.
  apply (keeps_pool P). intros db db' v _ Hinv H. apply tx_bind_Ok in H as (d & row & Hrow & H). apply query_Ok in Hrow as [-> Hrow].
  apply tx_bind_Ok in H as (d & v' & Hv & H). apply query_Ok in Hv as [-> Hv]. destruct (bool_decide _); [by injection H as <- _|].
  apply tx_bind_Ok in H as (d1 & [] & H1 & H). apply tx_bind_Ok in H as (d2 & [] & H2 & [= <- _]).
  etrans; [eapply activate_commits; [by eexists|exact H1]|]. by eapply audit_commits.
Qed.

Lemma keeps_production p w : keeps P (ResolveProductionDefinition others p w).
Proof.
  unfold ResolveProductionDefinition, GetWorkflow, getWorkflow. keeps.
Qed.
End Lasting.
End Calls.
End History.
