(* ===== verification/DefinitionCalls.v ===== *)
(** * The calls of the definition service

    Every operation of the service, on the database and with other processes
    between its calls, is a sequence of changes of the store; what it stores as
    a snapshot was compiled from a revision of the same workflow. *)

From S2P Require Import Prelude Json Digest Graph Dsl Ir Canonical Parser SourceMap Marshal Handlers ControlGraph Activation Compiler.
From S2P Require Import Access Resources DefinitionStore DefinitionService DefinitionFacts.

Open Scope string_scope.
Open Scope list_scope.
Open Scope Z_scope.

(** ** Where a snapshot comes from *)

(** [s] holds the artifacts that [result] has for the revision [r]. *)
Record artifacts_of (jsonb : string → string) (r : DraftRevision) (result : Compiler.Result) (s : ExecutionSnapshot) : Prop := {
  ao_project : es_ProjectID s = rv_ProjectID r;
  ao_workflow : es_WorkflowID s = rv_WorkflowID r;
  ao_ir : es_IRJSON s = jsonb (r_CanonicalIR result);
  ao_dsl : es_DSLJSON s = jsonb (r_CanonicalDSL result);
  ao_source_map : es_SourceMapJSON s = jsonb (r_CanonicalSourceMap result);
  ao_manifest : ∃ m, CanonicalizeJSON (marshal_manifest (r_Manifest result)) DefaultParseLimits = Ok m ∧ es_ManifestJSON s = jsonb m;
  ao_hashes : MkHashes (es_IRHash s) (es_DSLHash s) (es_SourceMapHash s) (es_DefinitionHash s) = r_Hashes result }.

(** The revision compiles to [result] in this service, for some resources. *)
Definition compiles_to (service : Service) (r : DraftRevision) (result : Compiler.Result) : Prop :=
  ∃ catalog document bindings, Registry_Get (sv_catalogs service) (rv_CatalogRevision r) = Some catalog ∧
    parse_default (rv_IRJSON r) = inr document ∧
    Compile (sv_compiler service) (MkRequest document (Some catalog) (sv_policy service) bindings) = inr result.

Definition compiled_from (service : Service) (jsonb : string → string) (db : DefDB) (s : ExecutionSnapshot) : Prop :=
  ∃ r result, df_revisions db !! rv_ID r = Some r ∧ compiles_to service r result ∧ artifacts_of jsonb r result s ∧
    (es_OriginKind s = SnapshotOriginDraftTest → es_OriginID s = rv_ID r).

#[export] Instance compiled_from_origin service jsonb : Origin (compiled_from service jsonb).
Proof. intros db db' s He (r & result & Hr & H). exists r, result. split; [|done]. eapply lookup_weaken; [exact Hr|apply He]. Qed.

Definition snapshots_from (origin : DefDB → ExecutionSnapshot → Prop) (db : DefDB) : Prop := ∀ k s, df_snapshots db !! k = Some s → origin db s.

Lemma change_snapshots origin db db' : Origin origin → def_inv db →
  change origin db db' → snapshots_from origin db → snapshots_from origin db'.
Proof.
  intros Hmono Hinv Hc Hall. pose proof (change_extends origin db db' Hinv Hc) as He.
  assert (∀ k s, df_snapshots db !! k = Some s → origin db' s) as Hold by eauto.
  intros k s. destruct Hc; cbn; try apply Hold. rewrite lookup_insert. case_decide; [intros [= <-]; by eapply Hmono|apply Hold].
Qed.

Lemma changes_snapshots origin db db' : Origin origin → changes origin db db' → def_inv db →
  snapshots_from origin db → snapshots_from origin db'.
Proof.
  intros Hmono. induction 1 as [db|d1 d2 d3 H1 _ IH]; [done|]. intros Hinv Hall. apply IH; [by eapply change_keeps|by eapply change_snapshots].
Qed.

(** ** The service on the database *)

Section Calls.
Context (clock : nat → Time) (others : nat → DefDB → DefDB) (ids : nat → res string).
Context (jsonb : string → string) (jsonb_eqb : string → string → bool) (jsonb_field : string → string → option string).
Context (service : Service).

#[local] Instance the_repository : DefinitionRepository DefDB := store_repository clock others jsonb jsonb_eqb jsonb_field.
#[local] Instance the_access : AccessRepository DefDB := store_access clock others.
#[local] Instance the_resources : ResourceRepository DefDB := store_resources others.
#[local] Instance the_ids : IdentityGenerator DefDB := store_ids ids.

Notation origin := (compiled_from service jsonb).
Context (others_evolve : ∀ n db, evolves origin db (others n db)).

Notation keep := (keeps origin).

Lemma evolves_clock db n : evolves origin db (db <| df_ticks := n |>).
Proof. intros _. apply changes_clock. Qed.

Create HintDb keep.

Section Lasting.
Context (P : DefDB → Prop) `{!Lasting P}.

Lemma keep_bind {E A B} (m : call DefDB E A) (f : A → call DefDB E B) : keep P m → (∀ a, keep P (f a)) → keep P (m ≫= f).
Proof.
  intros Hm Hf db HP Hinv. specialize (Hm db HP). unfold mbind, call_bind. destruct (m db) as [d [a|l|x]]; cbn in *; [|by apply Hm..].
  etrans; [by apply Hm|]. apply Hf; [by eapply (lasts origin)|by eapply (evolves_inv origin)].
Qed.

Lemma keep_answer {E A} (o : outcome E A) : keep P (answer o).
Proof. intros db _ _. apply rtc_refl. Qed.

Lemma keep_calling {E A} (wrap : error → E) (m : tx DefDB A) : keep P m → keep P (calling wrap m).
Proof. intros Hm db HP. specialize (Hm db HP). unfold calling. by destruct (m db). Qed.

Lemma keep_map_error {E F A} (wrap : E → F) (m : call DefDB E A) : keep P m → keep P (map_error wrap m).
Proof. intros Hm db HP. specialize (Hm db HP). unfold map_error. by destruct (m db). Qed.

Lemma keep_try {A} (m : tx DefDB A) : keep P m → keep P (tx_try m).
Proof. intros Hm db HP. specialize (Hm db HP). unfold tx_try. by destruct (m db). Qed.

Lemma keep_new : keep P New_.
Proof. intros db _. apply evolves_clock. Qed.

Lemma keep_require p u permission : keep P (Require_ p u permission).
Proof.
  cbn. unfold Service_Require. apply (df_keeps_bind origin P); [apply keep_try; cbn; apply (keeps_reads origin); [done..|]; reads|].
  intros [[]|x]; [apply df_keeps_ret|apply df_keeps_fail|apply df_keeps_fail].
Qed.

Lemma keep_identity p : keep P (ExecutionIdentity_ p).
Proof.
  cbn. unfold Service_ExecutionIdentity. apply (df_keeps_bind origin P); [apply keep_try; cbn; apply (keeps_reads origin); [done..|]; reads|].
  intros [i|x]; destruct (_ : bool); first [apply df_keeps_ret|apply df_keeps_fail].
Qed.

(** *** Operations *)

Ltac keep := repeat first
  [ match goal with |- ∀ _, _ => intros ? end
  | solve [intros ? _ _; apply rtc_refl | apply keep_require | apply keep_identity | apply keep_new
          | apply (keeps_lift origin P) | eauto with keep]
  | apply keep_bind
  | apply keep_calling
  | apply keep_map_error
  | apply keep_try
  | match goal with
    | |- keep _ (if ?b then _ else _) => destruct b
    | |- keep _ (match ?x with _ => _ end) => destruct x
    | |- keep _ (let '(_, _) := ?x in _) => destruct x
    end ].

Lemma keep_find_connection p i r purpose : keep P (ResolveConnection p i r purpose).
Proof. cbn. apply (keeps_reads origin); [done..|]. reads. Qed.
Lemma keep_find_operation p i r o purpose : keep P (ResolveServiceOperation p i r o purpose).
Proof. cbn. apply (keeps_reads origin); [done..|]. reads. Qed.
#[local] Hint Resolve keep_find_connection keep_find_operation : keep.

Lemma keep_resolve_nodes p u i purpose nodes : ∀ n bindings, keep P (resolve_nodes p u i purpose n nodes bindings).
Proof.
  induction nodes as [|node nodes IH]; intros n bindings; cbn [resolve_nodes]; [intros db _ _; apply rtc_refl|].
  unfold resolve_connection, resolve_service, unavailable. keep; apply IH.
Qed.
#[local] Hint Resolve keep_resolve_nodes : keep.

Lemma keep_resolve p u purpose document : keep P (Resolve p u purpose document).
Proof. unfold Resolve. keep. Qed.
#[local] Hint Resolve keep_resolve : keep.

Lemma keep_compile p u w n purpose : keep P (compileRevision service p u w n purpose).
Proof. unfold compileRevision, or_diagnosed, refuse. keep. cbn. by apply (keeps_get_revision origin). Qed.
#[local] Hint Resolve keep_compile : keep.

Lemma keep_create_workflow command : keep P (Service_CreateWorkflow service command).
Proof. unfold Service_CreateWorkflow, authorize, or_diagnosed, refuse, twoIDs, new_id, plainly. keep. cbn. by apply (keeps_create origin). Qed.

Lemma keep_get_workflow p u w : keep P (Service_GetWorkflow p u w).
Proof. unfold Service_GetWorkflow, authorize. keep. cbn. by apply (keeps_get_workflow origin). Qed.

Lemma keep_get_draft p u w : keep P (Service_GetDraft p u w).
Proof. unfold Service_GetDraft, authorize. keep. cbn. by apply (keeps_get_draft origin). Qed.

Lemma keep_save_draft command : keep P (Service_SaveDraft command).
Proof.
  unfold Service_SaveDraft, authorize, or_diagnosed, refuse, new_id, plainly. keep; cbn.
  - by apply (keeps_get_revision origin).
  - by apply (keeps_save origin).
Qed.

Lemma keep_validate p u w n : keep P (Service_ValidateDraft service p u w n).
Proof. unfold Service_ValidateDraft, authorize. keep. Qed.

Lemma keep_resolve_test p u w n : keep P (Service_ResolveDraftTestSnapshot p u w n).
Proof. unfold Service_ResolveDraftTestSnapshot, authorize, refuse. keep. cbn. by apply (keeps_resolve_snapshot origin). Qed.

Lemma keep_rollback p u w n : keep P (Service_Rollback p u w n).
Proof. unfold Service_Rollback, authorize, new_id. keep. cbn. by apply (keeps_rollback origin). Qed.

Lemma keep_copy command : keep P (Service_CopyPublishedVersion command).
Proof. unfold Service_CopyPublishedVersion, authorize, refuse, twoIDs, new_id, plainly. keep. cbn. by apply (keeps_copy origin). Qed.

Lemma keep_production p u w : keep P (Service_ResolveProductionDefinition p u w).
Proof. unfold Service_ResolveProductionDefinition, authorize. keep. cbn. by apply (keeps_production origin). Qed.
End Lasting.

(** *** What is compiled and stored *)

(** What [compileRevision] answers is a revision of the store and what it
    compiles to. *)
Definition compiled_in (c : compiledRevision) (db : DefDB) : Prop :=
  df_revisions db !! rv_ID (cl_revision c) = Some (cl_revision c) ∧ compiles_to service (cl_revision c) (cl_result c).

#[local] Instance compiled_in_lasting c : Lasting (compiled_in c).
Proof. intros db db' He [Hr ?]. split; [|done]. eapply lookup_weaken; [exact Hr|apply He]. Qed.

Lemma call_bind_Done {E A B} (m : call DefDB E A) (f : A → call DefDB E B) db db' b :
  (m ≫= f) db = (db', Done b) ↔ ∃ d a, m db = (d, Done a) ∧ f a d = (db', Done b).
Proof.
  unfold mbind, call_bind. destruct (m db) as [d [a|l|x]]; split; naive_solver.
Qed.

Lemma keep_inv {B} (m : DefDB → DefDB * B) db : keep (λ _, True) m → def_inv db → def_inv (m db).1 ∧ extends db (m db).1.
Proof. intros Hm Hinv. exact (changes_keep origin _ _ (Hm db I Hinv) Hinv). Qed.

Lemma calling_Done {E A} (wrap : error → E) (m : tx DefDB A) db db' a : calling wrap m db = (db', Done a) → m db = (db', Ok a).
Proof. unfold calling. destruct (m db) as [d [x|x]]; by intros [= -> ->]. Qed.

Lemma compileRevision_compiled p u w n purpose db db' c : def_inv db → compileRevision service p u w n purpose db = (db', Done c) →
  compiled_in c db' ∧ rv_ProjectID (cl_revision c) = p ∧ rv_WorkflowID (cl_revision c) = w ∧ rv_RevisionNumber (cl_revision c) = n.
Proof.
  intros Hinv H. unfold compileRevision in H. apply call_bind_Done in H as (d1 & r & H1%calling_Done & H).
  assert (df_revisions d1 !! rv_ID r = Some r ∧ def_inv d1 ∧ rv_ProjectID r = p ∧ rv_WorkflowID r = w ∧ rv_RevisionNumber r = n) as (Hr & I1 & Hpw).
  { pose proof (keep_inv _ _ (keeps_get_revision origin others others_evolve (λ _, True) p w n) Hinv) as [I1 _].
    change (Repository_GetDraftRevision p w n db) with (GetDraftRevision others p w n db) in H1. rewrite H1 in I1. cbn in I1.
    unfold GetDraftRevision, pool, transaction in H1. destruct (query _ _ _) as [d [r'|x]] eqn:Hq; [|done]. injection H1 as <- <-.
    apply query_Ok in Hq as [-> (k & Hk & Hp)%select_one_Some]. destruct (di_revision _ I1 _ _ Hk) as [<- _].
    apply andb_true_iff in Hp as [[? ?]%in_workflow_true ?%Z.eqb_eq]. done. }
  destruct (Registry_Get _ _) as [catalog|] eqn:Hcat; [|done]. apply call_bind_Done in H as (d2 & document & H2 & H).
  apply call_bind_Done in H as (d3 & bindings & H3 & H). apply call_bind_Done in H as (d4 & result & H4 & [= <- <-]).
  unfold or_diagnosed, answer in H2, H4. injection H2 as <- H2. injection H4 as <- H4.
  destruct (parse_default _) as [l|document'] eqn:Hparse; [done|]. injection H2 as ->. destruct (Compile _ _) as [l|result'] eqn:Hcomp; [done|]. injection H4 as ->.
  split; [|done]. split; [|by exists catalog, document, bindings]. cbn.
  pose proof (keep_inv _ _ (keep_map_error (λ _, True) mapAccessError _ (keep_resolve (λ _, True) p u purpose document)) I1) as [_ E3].
  rewrite H3 in E3. eapply lookup_weaken; [exact Hr|apply E3].
Qed.

Lemma snapshot_origin c id kind originID snapshot db now : compiled_in c db → compiled_snapshot c id kind originID = Ok snapshot →
  (kind = SnapshotOriginDraftTest → originID = rv_ID (cl_revision c)) → origin db (stored_snapshot jsonb snapshot now).
Proof.
  intros [Hr Hc] H Hk. unfold compiled_snapshot in H. apply bind_Ok in H as (m & Hm & [= <-]).
  exists (cl_revision c), (cl_result c). split_and!; [done|done| |done]. split; try done.
  - exists m. split; [|done]. unfold prefixed in Hm. by destruct (CanonicalizeJSON _ _); simplify_eq.
  - by destruct (r_Hashes (cl_result c)).
Qed.

Lemma keep_compiled {E B} (P : DefDB → Prop) {A} (m : call DefDB E A) (f : A → call DefDB E B) (Q : A → DefDB → Prop) `{∀ a, Lasting (Q a)} :
  keep P m → (∀ db db' a, def_inv db → m db = (db', Done a) → Q a db') → (∀ a, keep (Q a) (f a)) → keep P (m ≫= f).
Proof.
  intros Hm Hq Hf db HP Hinv. specialize (Hm db HP). unfold mbind, call_bind. destruct (m db) as [d [a|l|x]] eqn:Hmd; cbn in *; [|by apply Hm..].
  etrans; [by apply Hm|]. apply Hf; [by eapply Hq|]. by eapply (evolves_inv origin), Hm.
Qed.

Lemma keep_plainly {B} (P : DefDB → Prop) {A} (r : res A) (f : A → call DefDB service_error B) :
  (∀ a, r = Ok a → keep P (f a)) → keep P (plainly r ≫= f).
Proof.
  intros Hf db HP. unfold mbind, call_bind, plainly, calling, tx_lift. destruct r as [a|x]; [by apply Hf|]. intros _. apply rtc_refl.
Qed.

Lemma keep_test_snapshot p u w n : keep (λ _, True) (Service_CompileDraftTestSnapshot service p u w n).
Proof.
  unfold Service_CompileDraftTestSnapshot, authorize, new_id. apply keep_bind; [done|apply keep_calling, keep_require; done|]. intros _.
  apply (keep_compiled _ _ _ compiled_in); [by apply keep_compile|intros db db' c Hinv H; by apply (compileRevision_compiled p u w n PurposeTest db)|].
  intros c. apply keep_bind; [apply _|apply keep_calling, keep_new|]. intros id. apply keep_plainly. intros snapshot Hs.
  apply keep_calling. cbn. apply (keeps_store_snapshot origin); [done|apply _|]. intros db Hc now. by eapply snapshot_origin.
Qed.

Lemma keep_publish command : keep (λ _, True) (Service_Publish service command).
Proof.
  unfold Service_Publish, authorize, refuse, twoIDs, new_id. apply keep_bind; [done|apply keep_calling, keep_require; done|]. intros _.
  destruct (negb _ || _ || _ || _); [intros ? _ _; apply rtc_refl|]. apply keep_plainly. intros hash _.
  apply keep_bind; [done|apply keep_calling; cbn; by apply (keeps_find_published origin)|]. intros [found|]; [intros ? _ _; apply rtc_refl|].
  apply (keep_compiled _ _ _ compiled_in); [by apply keep_compile|intros db db' c Hinv H; by eapply compileRevision_compiled|].
  intros c. apply keep_bind; [apply _| |].
  { apply keep_bind; [apply _|apply keep_calling, keep_new|]. intros i. apply keep_bind; [apply _|apply keep_calling, keep_new|].
    intros j ? _ _. apply rtc_refl. }
  intros [versionID snapshotID]. apply keep_plainly. intros snapshot Hs. apply keep_bind; [apply _|apply keep_calling, keep_new|]. intros auditID.
  apply keep_calling. cbn. apply (keeps_publish origin); [done|apply _|]. intros db Hc now. by eapply snapshot_origin.
Qed.
End Calls.
