(* ===== verification/DefinitionProps.v ===== *)
(** * Properties of the definition lifecycle

    The history of the definitions under every sequence of calls, the writing
    of drafts and versions, idempotent commands, permissions and resolution. *)

From S2P Require Import Prelude Json Digest Graph Dsl Ir Canonical Parser SourceMap Marshal Handlers ControlGraph Activation Compiler.
From S2P Require Import Access Resources DefinitionStore DefinitionService DefinitionFacts DefinitionCalls.

Open Scope string_scope.
Open Scope list_scope.
Open Scope Z_scope.

(** ** Sequences of calls *)

Inductive definition_call : Type :=
  | CallCreateWorkflow (command : CreateWorkflowCommand)
  | CallGetWorkflow (projectID principalID workflowID : string)
  | CallGetDraft (projectID principalID workflowID : string)
  | CallSaveDraft (command : SaveDraftCommand)
  | CallValidateDraft (projectID principalID workflowID : string) (revisionNumber : Z)
  | CallCompileTest (projectID principalID workflowID : string) (revisionNumber : Z)
  | CallResolveTest (projectID principalID workflowID : string) (revisionNumber : Z)
  | CallPublish (command : PublishCommand)
  | CallRollback (projectID principalID workflowID : string) (versionNumber : Z)
  | CallCopy (command : CopyCommand)
  | CallResolveProduction (projectID principalID workflowID : string).

(** Who calls, and the permissions that the call asks for, in order. *)
Definition permissions_of (c : definition_call) : string * string * list string :=
  match c with
  | CallCreateWorkflow k => (cc_ProjectID k, cc_PrincipalID k, [PermissionWorkflowWrite])
  | CallGetWorkflow p u _ | CallGetDraft p u _ => (p, u, [PermissionWorkflowRead])
  | CallSaveDraft k => (sc_ProjectID k, sc_PrincipalID k, [PermissionWorkflowWrite])
  | CallValidateDraft p u _ _ => (p, u, [PermissionWorkflowWrite])
  | CallCompileTest p u _ _ | CallResolveTest p u _ _ => (p, u, [PermissionWorkflowTest])
  | CallPublish k => (pc_ProjectID k, pc_PrincipalID k, [PermissionWorkflowPublish])
  | CallRollback p u _ _ => (p, u, [PermissionWorkflowPublish])
  | CallCopy k => (yc_ProjectID k, yc_PrincipalID k, [PermissionWorkflowRead; PermissionWorkflowWrite])
  | CallResolveProduction p u _ => (p, u, [PermissionRunCreate])
  end.

(** The answer without its value: nothing, the diagnostics, or the error. *)
Definition forget {E A} (o : outcome E A) : outcome E unit :=
  match o with Done _ => Done tt | Diagnosed l => Diagnosed l | Failed x => Failed x end.

Section Run.
Context (clock : nat → Time) (others : nat → DefDB → DefDB) (ids : nat → res string).
Context (jsonb : string → string) (jsonb_eqb : string → string → bool) (jsonb_field : string → string → option string).
Context (service : Service).

#[local] Instance run_repository : DefinitionRepository DefDB := store_repository clock others jsonb jsonb_eqb jsonb_field.
#[local] Instance run_access : AccessRepository DefDB := store_access clock others.
#[local] Instance run_resources : ResourceRepository DefDB := store_resources others.
#[local] Instance run_ids : IdentityGenerator DefDB := store_ids ids.

Definition answered_with {A} (m : call DefDB service_error A) : DefDB → DefDB * outcome service_error unit := λ db,
  let '(db', o) := m db in (db', forget o).

Definition definition_run (c : definition_call) : DefDB → DefDB * outcome service_error unit :=
  match c with
  | CallCreateWorkflow k => answered_with (Service_CreateWorkflow service k)
  | CallGetWorkflow p u w => answered_with (Service_GetWorkflow p u w)
  | CallGetDraft p u w => answered_with (Service_GetDraft p u w)
  | CallSaveDraft k => answered_with (Service_SaveDraft k)
  | CallValidateDraft p u w n => answered_with (Service_ValidateDraft service p u w n)
  | CallCompileTest p u w n => answered_with (Service_CompileDraftTestSnapshot service p u w n)
  | CallResolveTest p u w n => answered_with (Service_ResolveDraftTestSnapshot p u w n)
  | CallPublish k => answered_with (Service_Publish service k)
  | CallRollback p u w n => answered_with (Service_Rollback p u w n)
  | CallCopy k => answered_with (Service_CopyPublishedVersion k)
  | CallResolveProduction p u w => answered_with (Service_ResolveProductionDefinition p u w)
  end.

Definition definition_runs (calls : list definition_call) (db : DefDB) : DefDB := fold_left (λ d c, (definition_run c d).1) calls db.

Notation origin := (compiled_from service jsonb).
Context (others_evolve : ∀ n db, evolves origin db (others n db)).

Lemma answered_with_keeps {A} (m : call DefDB service_error A) : keeps origin (λ _, True) m → keeps origin (λ _, True) (answered_with m).
Proof. intros Hm db HP. specialize (Hm db HP). unfold answered_with. by destruct (m db). Qed.

Lemma definition_run_keeps c : keeps origin (λ _, True) (definition_run c).
Proof.
  destruct c; cbn [definition_run]; apply answered_with_keeps.
  - by apply keep_create_workflow.
  - by apply keep_get_workflow.
  - by apply keep_get_draft.
  - by apply keep_save_draft.
  - by apply keep_validate.
  - by apply keep_test_snapshot.
  - by apply keep_resolve_test.
  - by apply keep_publish.
  - by apply keep_rollback.
  - by apply keep_copy.
  - by apply keep_production.
Qed.

Lemma definition_runs_evolve calls db : evolves origin db (definition_runs calls db).
Proof.
  revert db. induction calls as [|c calls IH]; intros db; cbn; [intros _; apply rtc_refl|].
  etrans; [by apply (definition_run_keeps c db)|apply IH].
Qed.
End Run.

(** The database without definitions. *)
Definition no_definitions (access : AccessDB) (resources : ResourcesDB) : DefDB := MkDefDB ∅ ∅ ∅ ∅ ∅ ∅ ∅ ∅ access resources 0.

Lemma no_definitions_inv access resources : def_inv (no_definitions access resources).
Proof.
  split; unfold no_definitions; cbn; try by intros ? ? []%lookup_empty_Some.
  - intros p w n i j (r & [Hr _]%revision_by_id_Some & _)%is_revision_true. cbn in Hr. by apply lookup_empty_Some in Hr.
  - intros p w n i j (v & [Hv _]%version_by_id_Some & _). cbn in Hv. by apply lookup_empty_Some in Hv.
  - by intros ? ? ? ? []%lookup_empty_Some.
Qed.

(** *** A sample

    A project with one principal that may do everything, a service, and a
    workflow with one revision. *)

Definition sample_access : AccessDB :=
  MkAccessDB {["ann" := MkPrincipalRow PrincipalUser "Ann" true]} ∅
    (list_to_set (pair ("shop", "ann") <$>
       [PermissionWorkflowRead; PermissionWorkflowWrite; PermissionWorkflowTest; PermissionWorkflowPublish; PermissionRunCreate])) ∅.
Definition sample_service : Service :=
  MkService (BuiltinV1 (λ _, None)) (MkStaticCatalogRegistry "catalog-1" ∅) (MkPolicy "policy-1" ∅).
Definition sample_clock (n : nat) : Time := Z.of_nat n.
Definition nobody (_ : nat) (db : DefDB) : DefDB := db.
Definition sample_create : CreateWorkflowRecord :=
  MkCreateWorkflowRecord "w1" "r1" "shop" "Orders" "{}" "catalog-1" "ann" "create-01" "h1".
Definition created : DefDB :=
  (CreateWorkflow sample_clock nobody id sample_create (no_definitions sample_access (MkResourcesDB ∅ ∅ ∅ ∅ ∅))).1.

Lemma nobody_evolves origin n db : evolves origin db (nobody n db).
Proof. intros _. apply rtc_refl. Qed.
#[export] Hint Resolve nobody_evolves : evalfrog.

Lemma created_inv : def_inv created ∧ snapshots_from (compiled_from sample_service id) created.
Proof.
  pose proof (no_definitions_inv sample_access (MkResourcesDB ∅ ∅ ∅ ∅ ∅)) as H0.
  pose proof (keeps_create (compiled_from sample_service id) sample_clock nobody id (nobody_evolves _) (λ _, True) sample_create _ I H0) as Hc.
  split; [by apply (changes_keep _ _ _ Hc)|]. eapply changes_snapshots; [apply _|exact Hc|exact H0|]. intros k s Hs. cbn in Hs. by apply lookup_empty_Some in Hs.
Qed.

(** C18: the store of the definitions refines the specification of its history:
    whatever calls are made, with other processes that keep to it in between,
    the store goes through its allowed changes only.  A workflow always has a
    draft whose revisions are numbered from one to the current one without a
    gap, and so are its versions; an active version is a version of the
    workflow, its source revision and its snapshot are rows of the same
    workflow; revisions, snapshots, versions, audits and idempotent answers are
    never changed or removed, and every snapshot that is stored was compiled by
    the service from a revision of its workflow that is in the store. *)
Theorem definition_history (clock : nat → Time) (others : nat → DefDB → DefDB) (ids : nat → res string)
    (jsonb : string → string) (jsonb_eqb : string → string → bool) (jsonb_field : string → string → option string)
    (service : Service) (calls : list definition_call) (db0 : DefDB) :
  (∀ n db, evolves (compiled_from service jsonb) db (others n db)) → def_inv db0 → snapshots_from (compiled_from service jsonb) db0 →
  let db := definition_runs clock others ids jsonb jsonb_eqb jsonb_field service calls db0 in
  changes (compiled_from service jsonb) db0 db ∧ def_inv db ∧ extends db0 db ∧ snapshots_from (compiled_from service jsonb) db.
Proof.
  intros Ho Hinv Hsnap db.
  pose proof (definition_runs_evolve clock others ids jsonb jsonb_eqb jsonb_field service Ho calls db0 Hinv) as Hc.
  destruct (changes_keep _ _ _ Hc Hinv) as [Hi He]. split_and!; [done..|]. by eapply changes_snapshots; [apply _|..].
Qed.

Lemma definition_history_witness :
  let calls := [CallSaveDraft (MkSaveDraftCommand "shop" "ann" "w1" 1 "{}" "save-0001"); CallPublish (MkPublishCommand "shop" "ann" "w1" 1 "" "publish-1");
                CallResolveProduction "shop" "ann" "w1"] in
  extends created (definition_runs sample_clock nobody (λ n, Ok (pretty n)) id String.eqb (λ _ _, None) sample_service calls created).
Proof.
  intros calls.
  destruct (definition_history sample_clock nobody (λ n, Ok (pretty n)) id String.eqb (λ _ _, None) sample_service calls created)
    as (_ & _ & H & _); [apply nobody_evolves|apply created_inv..|exact H].
Defined.

(** ** One transaction *)

(** What a transaction finds: the database after the other processes. *)
Definition seen (others : nat → DefDB → DefDB) (db : DefDB) : DefDB := others (df_ticks db) (db <| df_ticks := S (df_ticks db) |>).

(** Nothing but the clock has moved. *)
Definition untouched (db db' : DefDB) : Prop := ∃ n, db' = db <| df_ticks := n |>.

Lemma untouched_refl db : untouched db db.
Proof. exists (df_ticks db). by destruct db. Qed.

Lemma pool_reads {A} others (m : tx DefDB A) db : reads m → (pool others m db).2 = (m (seen others db)).2 ∧ untouched (seen others db) (pool others m db).1.
Proof.
  intros Hm. unfold pool, transaction. fold (seen others db). destruct (m (seen others db)) as [d [a|x]] eqn:Hmd; cbn; split; try done.
  - rewrite (Hm _ _ _ Hmd). apply untouched_refl.
  - by eexists.
Qed.

Lemma pool_Ok {A} others (m : tx DefDB A) db d a : m (seen others db) = (d, Ok a) → pool others m db = (d, Ok a).
Proof. unfold pool, transaction. fold (seen others db). by intros ->. Qed.

Lemma pool_Err {A} others (m : tx DefDB A) db d x : m (seen others db) = (d, Err x) → pool others m db = ((seen others db) <| df_ticks := df_ticks d |>, Err x).
Proof. unfold pool, transaction. fold (seen others db). by intros ->. Qed.

Section Guarded.
Context (others : nat → DefDB → DefDB) {A B : Type} (p c s k h : string).
Context (replay : IdempotencyRow → tx DefDB A) (perform : tx DefDB B) (read : B → tx DefDB A).
Notation run := (guarded others p c s k h replay perform read).

Lemma guarded_replay db row a d : df_idempotency (seen others db) !! (p, c, s, k) = Some row → iw_RequestHash row = h →
  reads (replay row) → replay row (seen others db) = (d, Ok a) → run db = (seen others db, Ok a).
Proof.
  intros Hk Hh Hr Ha. unfold guarded. erewrite (tx_step _ _ _ (seen others db) (inl a)); [done|]. apply pool_Ok.
  rewrite (tx_step (lockIdempotency p c s k) _ _ _ _ eq_refl), Hk.
  rewrite bool_decide_eq_true_2 by done. cbn [negb]. pose proof (Hr _ _ _ Ha) as ->. by rewrite (tx_step _ _ _ _ _ Ha).
Qed.

Lemma guarded_reused db row : df_idempotency (seen others db) !! (p, c, s, k) = Some row → iw_RequestHash row ≠ h →
  run db = (seen others db, Err ErrIdempotencyKeyReused).
Proof.
  intros Hk Hh. unfold guarded, mbind, tx_bind, pool, transaction. fold (seen others db). unfold lockIdempotency, mbind, tx_bind, tx_get, mret, tx_ret.
  rewrite Hk, bool_decide_eq_false_2 by done. cbn. f_equal. by destruct (seen others db).
Qed.

Lemma guarded_perform db b d : df_idempotency (seen others db) !! (p, c, s, k) = None → perform (seen others db) = (d, Ok b) → run db = read b d.
Proof.
  intros Hk Hb. unfold guarded. erewrite (tx_step _ _ _ d (inr b)); [done|]. apply pool_Ok.
  rewrite (tx_step (lockIdempotency p c s k) _ _ _ _ eq_refl), Hk.
  by rewrite (tx_step _ _ _ _ _ Hb).
Qed.

Lemma guarded_failed db x d : df_idempotency (seen others db) !! (p, c, s, k) = None → perform (seen others db) = (d, Err x) →
  run db = ((seen others db) <| df_ticks := df_ticks d |>, Err x).
Proof.
  intros Hk Hb. unfold guarded, mbind at 1, tx_bind at 1. rewrite (pool_Err _ _ _ d x); [done|].
  rewrite (tx_step (lockIdempotency p c s k) _ _ _ _ eq_refl), Hk.
  unfold mbind, tx_bind. by rewrite Hb.
Qed.
Lemma guarded_Ok db db' a : run db = (db', Ok a) →
  (∃ row, df_idempotency (seen others db) !! (p, c, s, k) = Some row ∧ iw_RequestHash row = h ∧ replay row (seen others db) = (db', Ok a)) ∨
  (df_idempotency (seen others db) !! (p, c, s, k) = None ∧ ∃ b d, perform (seen others db) = (d, Ok b) ∧ read b d = (db', Ok a)).
Proof.
  unfold guarded. intros (d & r & H & Hr)%tx_bind_Ok. unfold pool, transaction in H. fold (seen others db) in H.
  match type of H with context [mbind ?f ?m (seen others db)] => destruct (mbind f m (seen others db)) as [d' [a'|x]] eqn:Hm; [|done] end. injection H as -> ->.
  apply tx_bind_Ok in Hm as (d' & known & [= <- <-] & Hm). destruct (df_idempotency _ !! _) as [row|] eqn:Hk; [left|right].
  - case_bool_decide; [|done]. cbn [negb] in Hm. apply tx_bind_Ok in Hm as (d' & a' & Ha & [= <- <-]). injection Hr as <- <-. by exists row.
  - split; [done|]. apply tx_bind_Ok in Hm as (d' & b & Hb & [= <- <-]). by exists b, d'.
Qed.
End Guarded.

(** ** Drafts *)

Section Store.
Context (clock : nat → Time) (others : nat → DefDB → DefDB).
Context (jsonb : string → string) (jsonb_eqb : string → string → bool) (jsonb_field : string → string → option string).

(** The revision [SaveDraft] writes, and the draft that points to it. *)
Definition saved_revision (record : SaveDraftRecord) (now : Time) : DraftRevision :=
  MkDraftRevision (sd_DraftRevisionID record) (sd_ProjectID record) (sd_WorkflowID record) (sd_ExpectedRevision record + 1)
    (jsonb (sd_IRJSON record)) (sd_CatalogRevision record) (sd_PrincipalID record) now None.

Lemma insert_revision_run record n db : def_inv db → 0 < n → df_revisions db !! sd_DraftRevisionID record = None →
  (∀ i, is_revision db (sd_ProjectID record) (sd_WorkflowID record) n i = false) → is_Some (workflow_row db (sd_ProjectID record) (sd_WorkflowID record)) →
  insertDraftRevision clock jsonb record n None db =
    (db <| df_ticks := S (df_ticks db) |> <| df_revisions := <[sd_DraftRevisionID record :=
       MkDraftRevision (sd_DraftRevisionID record) (sd_ProjectID record) (sd_WorkflowID record) n (jsonb (sd_IRJSON record))
         (sd_CatalogRevision record) (sd_PrincipalID record) (clock (df_ticks db)) None]> (df_revisions db) |>, Ok tt).
Proof.
  intros Hinv Hn Hfree Hnone [row Hrow]. unfold insertDraftRevision. rewrite (tx_step (clock_timestamp clock) _ _ _ _ eq_refl), (tx_step tx_get _ _ _ _ eq_refl).
  set (db1 := db <| df_ticks := _ |>). rewrite (proj2 (Z.leb_gt n 0) Hn).
  assert (revision_by_number db1 (sd_ProjectID record) (sd_WorkflowID record) n = None) as ->.
  { apply select_one_None. intros k r Hr. cbn in Hr. destruct (in_workflow _ _ _ _) eqn:Hw; [|done]. apply in_workflow_true in Hw as [Hp Hw].
    cbn. apply Z.eqb_neq. intros <-. specialize (Hnone k). apply not_true_iff_false in Hnone. apply Hnone, is_revision_true.
    exists r. by rewrite revision_by_id_Some. }
  cbn [df_revisions]. change (df_revisions db1) with (df_revisions db). rewrite Hfree. rewrite !bool_decide_eq_false_2 by by intros []. cbn [orb].
  unfold references, mbind, tx_bind, tx_get, tx_lift, tx_modify. change (workflow_row db1) with (workflow_row db). by rewrite Hrow.
Qed.

Lemma append_run record db draft : def_inv db →
  df_drafts db !! (sd_ProjectID record, sd_WorkflowID record) = Some draft → dw_CurrentRevision draft = sd_ExpectedRevision record →
  df_revisions db !! sd_DraftRevisionID record = None → sd_ExpectedRevision record + 1 < 2 ^ 63 → dw_StateVersion draft + 1 < 2 ^ 63 →
  ∃ db' r, append_revision clock jsonb record db = (db', Ok tt) ∧ df_revisions db' = <[sd_DraftRevisionID record := r]> (df_revisions db) ∧
    r = saved_revision record (rv_CreatedAt r) ∧ df_idempotency db' = df_idempotency db ∧
    ∃ draft', df_drafts db' = <[(sd_ProjectID record, sd_WorkflowID record) := draft']> (df_drafts db) ∧
      dw_CurrentRevision draft' = sd_ExpectedRevision record + 1 ∧ dw_CurrentRevisionID draft' = sd_DraftRevisionID record.
Proof.
  intros Hinv Hd He Hfree Hmax Hver. destruct (di_draft _ Hinv _ _ Hd) as ([row Hrow] & _ & Hcur & _). cbn [fst snd] in *.
  apply is_revision_true in Hcur as (r0 & [Hr0 _]%revision_by_id_Some & Hr0n). destruct (di_revision _ Hinv _ _ Hr0) as (_ & y & _ & H1).
  assert (i64 (sd_ExpectedRevision record + 1) = sd_ExpectedRevision record + 1) as Hi64 by (apply i64_small; lia).
  unfold append_revision. rewrite (tx_step (query _ _) _ db db (sd_ExpectedRevision record)).
  2:{ unfold query, mbind, tx_bind, tx_get, tx_lift, or_err. rewrite Hd. cbn. by rewrite He. }
  rewrite Z.eqb_refl. cbn [negb]. rewrite Hi64. erewrite tx_step.
  2:{ apply insert_revision_run; [done|lia|done| |by eexists]. intros i. apply not_true_iff_false.
      intros (r & [Hr [Hp Hw]]%revision_by_id_Some & Hn)%is_revision_true. destruct (di_revision _ Hinv _ _ Hr) as (_ & x & Hx & Hle).
      rewrite Hp, Hw, Hd in Hx. injection Hx as <-. lia. }
  set (r := MkDraftRevision _ _ _ _ _ _ _ _ _). set (db1 := _ <| df_revisions := _ |>).
  assert (is_revision db1 (sd_ProjectID record) (sd_WorkflowID record) (sd_ExpectedRevision record + 1) (sd_DraftRevisionID record) = true) as Hnew.
  { apply is_revision_true. exists r. rewrite revision_by_id_Some. split; [split; [apply lookup_insert_eq|done]|done]. }
  unfold advance_draft, update_workflow, references, mbind, tx_bind, tx_get, tx_lift, tx_modify, clock_timestamp. cbn [df_drafts].
  change (df_drafts (db1 <| df_ticks := S (df_ticks db1) |>)) with (df_drafts db). rewrite Hd, He, Z.eqb_refl.
  unfold bigint_succ. rewrite (proj2 (Z.leb_gt (2 ^ 63) (dw_StateVersion draft + 1))) by done. cbn [guard_err mbind res_bind].
  change (is_revision (db1 <| df_ticks := S (df_ticks db1) |>)) with (is_revision db1). rewrite Hnew. cbn [negb guard_err].
  match goal with |- context [workflow_row ?d _ _] => change (workflow_row d) with (workflow_row db) end. rewrite Hrow.
  eexists _, r. split_and!; [done..|]. by eexists.
Qed.

Context (origin : DefDB → ExecutionSnapshot → Prop) {HO : Origin origin} (others_evolve : ∀ n db, evolves origin db (others n db)).

Lemma seen_evolves db : evolves origin db (seen others db).
Proof. etrans; [intros _; apply changes_clock|apply others_evolve]. Qed.

Lemma seen_extends db : def_inv db → def_inv (seen others db) ∧ extends db (seen others db).
Proof. intros Hinv. exact (changes_keep origin _ _ (seen_evolves db Hinv) Hinv). Qed.

(** What is read behind a transaction was committed by it. *)
Lemma read_revision db p w k r : def_inv db → revision_by_id db p w k = Some r →
  pool others (getDraftRevisionByID p w k) db = (seen others db, Ok r).
Proof.
  intros Hinv Hr. apply pool_Ok. destruct (seen_extends db Hinv) as [_ He]. unfold getDraftRevisionByID, query, mbind, tx_bind, tx_get, tx_lift.
  by rewrite (extends_revision _ _ He _ _ _ _ Hr).
Qed.

Definition save_key (record : SaveDraftRecord) : string * string * string * string :=
  (sd_ProjectID record, "save_draft", sd_WorkflowID record, sd_IdempotencyKey record).

Lemma save_fails record db x : df_idempotency (seen others db) !! save_key record = None →
  append_revision clock jsonb record (seen others db) = (seen others db, Err x) →
  SaveDraft clock others jsonb record db = (seen others db, Err x).
Proof.
  intros Hk Hx. unfold SaveDraft. rewrite (guarded_failed _ _ _ _ _ _ _ _ _ _ x (seen others db) Hk); [by destruct (seen others db)|].
  unfold mbind, tx_bind. by rewrite Hx.
Qed.

Lemma append_conflict record db draft : df_drafts db !! (sd_ProjectID record, sd_WorkflowID record) = Some draft →
  dw_CurrentRevision draft ≠ sd_ExpectedRevision record → append_revision clock jsonb record db = (db, Err ErrDraftRevisionConflict).
Proof.
  intros Hd Hne. unfold append_revision, query, mbind, tx_bind, tx_get, tx_lift, or_err. rewrite Hd. cbn.
  by rewrite (proj2 (Z.eqb_neq _ _) Hne).
Qed.

Lemma save_run record db draft : def_inv db → let d := seen others db in df_idempotency d !! save_key record = None →
  df_drafts d !! (sd_ProjectID record, sd_WorkflowID record) = Some draft → dw_CurrentRevision draft = sd_ExpectedRevision record →
  df_revisions d !! sd_DraftRevisionID record = None → sd_ExpectedRevision record + 1 < 2 ^ 63 → dw_StateVersion draft + 1 < 2 ^ 63 →
  ∃ committed r, changes origin d committed ∧ SaveDraft clock others jsonb record db = (seen others committed, Ok r) ∧
    r = saved_revision record (rv_CreatedAt r) ∧ df_revisions committed = <[rv_ID r := r]> (df_revisions d) ∧
    ∃ draft', df_drafts committed = <[(sd_ProjectID record, sd_WorkflowID record) := draft']> (df_drafts d) ∧
      dw_CurrentRevision draft' = rv_RevisionNumber r ∧ dw_CurrentRevisionID draft' = rv_ID r.
Proof.
  intros Hinv d Hk Hd He Hfree Hmax Hver. destruct (seen_extends db Hinv) as [Hdinv _].
  destruct (append_run record d draft Hdinv Hd He Hfree Hmax Hver) as (d1 & r & Hrun & Hrevs & Hr & Hidem & draft' & Hdrafts & Hcur & Hcurid).
  set (committed := d1 <| df_idempotency := <[save_key record := MkIdempotencyRow (sd_RequestHash record) "draft_revision" (sd_DraftRevisionID record) None]>
    (df_idempotency d1) |>).
  assert (insertIdempotency (sd_ProjectID record) "save_draft" (sd_WorkflowID record) (sd_IdempotencyKey record) (sd_RequestHash record)
    "draft_revision" (sd_DraftRevisionID record) None d1 = (committed, Ok tt)) as Hidem1.
  { unfold insertIdempotency, mbind, tx_bind, tx_get, tx_modify. rewrite Hidem. unfold save_key in Hk. by rewrite Hk. }
  assert (changes origin d committed) as Hc.
  { destruct (append_commits origin clock jsonb _ _ _ _ Hrun) as [C1 Hsome]. etrans; [exact C1|].
    eapply (answer_commits origin); [|exact Hidem1]. unfold answered. split_and!; [naive_solver|done|done]. }
  destruct (changes_keep origin _ _ Hc Hdinv) as [Hcinv _]. rewrite Hr in Hrevs.
  exists committed, r. split_and!; [done| |done|by rewrite Hr at 1; cbn; rewrite Hr|exists draft'; rewrite Hr at 1 2; done].
  unfold SaveDraft. rewrite (guarded_perform _ _ _ _ _ _ _ _ _ _ tt committed Hk).
  - apply read_revision; [done|]. apply revision_by_id_Some. cbn. rewrite Hrevs, lookup_insert_eq, Hr. done.
  - by rewrite (tx_step _ _ _ _ _ Hrun).
Qed.
(** The answer to a draft that was saved is a revision of the store. *)
Lemma save_answer record db db' r : def_inv db → SaveDraft clock others jsonb record db = (db', Ok r) →
  revision_by_id db' (sd_ProjectID record) (sd_WorkflowID record) (rv_ID r) = Some r.
Proof.
  intros Hinv Hrun. pose proof (keeps_save origin clock others jsonb others_evolve (λ _, True) record db I Hinv) as Hc. rewrite Hrun in Hc. cbn in Hc.
  destruct (changes_keep origin _ _ Hc Hinv) as [Hinv' _].
  assert (∃ k, revision_by_id db' (sd_ProjectID record) (sd_WorkflowID record) k = Some r) as [k Hk].
  { apply guarded_Ok in Hrun as [(row & _ & _ & Hq)|(_ & [] & d & _ & Hq)].
    - apply query_Ok in Hq as [-> Hq]. by eexists.
    - unfold pool, transaction in Hq. destruct (getDraftRevisionByID _ _ _ _) as [d' [r'|x]] eqn:Hg; [|done]. injection Hq as <- <-.
      apply query_Ok in Hg as [-> Hg]. by eexists. }
  pose proof Hk as [Hr _]%revision_by_id_Some. by destruct (di_revision _ Hinv' _ _ Hr) as [-> _].
Qed.

(** Once the revision after the expected one is there, the draft has moved on. *)
Lemma save_superseded record db k r : def_inv db → revision_by_id db (sd_ProjectID record) (sd_WorkflowID record) k = Some r →
  rv_RevisionNumber r = sd_ExpectedRevision record + 1 → df_idempotency (seen others db) !! save_key record = None →
  SaveDraft clock others jsonb record db = (seen others db, Err ErrDraftRevisionConflict).
Proof.
  intros Hinv Hr Hn Hk. destruct (seen_extends db Hinv) as [Hd He]. apply (extends_revision _ _ He) in Hr as [Hr [Hp Hw]]%revision_by_id_Some.
  destruct (di_revision _ Hd _ _ Hr) as (_ & draft & Hdraft & Hle). rewrite Hp, Hw in Hdraft.
  apply save_fails; [done|]. eapply append_conflict; [exact Hdraft|lia].
Qed.
End Store.

(** C24: what saving a draft does, case by case: a key that was used for the same
    request is answered with the revision it made, a key used for another
    request is refused, a workflow without a draft is not found, a draft that
    has moved on is a conflict, and in all four cases nothing is written.
    Otherwise the revision after the expected one is added with the given text
    and becomes the current one, and the answer is that revision. *)
Theorem save_draft_decides (clock : nat → Time) (others : nat → DefDB → DefDB) (jsonb : string → string)
    (origin : DefDB → ExecutionSnapshot → Prop) (record : SaveDraftRecord) (db : DefDB) :
  Origin origin → (∀ n db, evolves origin db (others n db)) → def_inv db →
  let d := seen others db in
  let run := SaveDraft clock others jsonb record db in
  let here := (sd_ProjectID record, sd_WorkflowID record) in
  match df_idempotency d !! save_key record with
  | Some row =>
      if bool_decide (iw_RequestHash row = sd_RequestHash record)
      then ∃ r, revision_by_id d (sd_ProjectID record) (sd_WorkflowID record) (iw_ResponseID row) = Some r ∧ run = (d, Ok r)
      else run = (d, Err ErrIdempotencyKeyReused)
  | None =>
      match df_drafts d !! here with
      | None => run = (d, Err ErrResourceNotFound)
      | Some draft =>
          (dw_CurrentRevision draft ≠ sd_ExpectedRevision record → run = (d, Err ErrDraftRevisionConflict)) ∧
          (dw_CurrentRevision draft = sd_ExpectedRevision record → df_revisions d !! sd_DraftRevisionID record = None →
           sd_ExpectedRevision record + 1 < 2 ^ 63 → dw_StateVersion draft + 1 < 2 ^ 63 →
           ∃ committed r, changes origin d committed ∧ run = (seen others committed, Ok r) ∧
             r = saved_revision jsonb record (rv_CreatedAt r) ∧ df_revisions committed = <[rv_ID r := r]> (df_revisions d) ∧
             ∃ draft', df_drafts committed = <[here := draft']> (df_drafts d) ∧
               dw_CurrentRevision draft' = rv_RevisionNumber r ∧ dw_CurrentRevisionID draft' = rv_ID r)
      end
  end.
Proof.
  intros HO Ho Hinv d run here. destruct (seen_extends others origin Ho db Hinv) as [Hd _]. fold d in Hd.
  destruct (df_idempotency d !! save_key record) as [row|] eqn:Hk.
  - case_bool_decide as Hh; [|by apply (guarded_reused _ _ _ _ _ _ _ _ _ _ row)].
    pose proof (di_idempotency _ Hd _ _ Hk) as (_ & Hs & _). destruct (Hs eq_refl) as [r Hr]. exists r. split; [done|].
    apply (guarded_replay _ _ _ _ _ _ _ _ _ _ row r d); [done..| |]; unfold getDraftRevisionByID; [apply reads_query|].
    unfold query, mbind, tx_bind, tx_get, tx_lift. fold d. by rewrite Hr.
  - destruct (df_drafts d !! here) as [draft|] eqn:Hdr.
    + split; intros He; [apply save_fails; [done|]; by eapply append_conflict|]. intros. by eapply (save_run _ _ _ _ Ho).
    + apply save_fails; [done|]. fold d. unfold append_revision, query, mbind, tx_bind, tx_get, tx_lift, or_err. fold here. by rewrite Hdr.
Qed.

Definition sample_save (id_ key hash : string) : SaveDraftRecord :=
  MkSaveDraftRecord id_ "shop" "w1" 1 "{}" "catalog-1" "ann" key hash.

Lemma save_draft_decides_witness : ∃ db r,
  SaveDraft sample_clock nobody id (sample_save "r2" "save-0001" "h2") created = (db, Ok r) ∧ rv_RevisionNumber r = 2 ∧ rv_ID r = "r2".
Proof.
  pose proof (save_draft_decides sample_clock nobody id (λ _ _, True) (sample_save "r2" "save-0001" "h2") created
    (λ _ _ _ _ _, I) (nobody_evolves _) (proj1 created_inv)) as H. cbv zeta in H.
  assert (df_idempotency (seen nobody created) !! save_key (sample_save "r2" "save-0001" "h2") = None) as Hk by (vm_compute; reflexivity).
  assert (df_drafts (seen nobody created) !! ("shop", "w1") = Some (MkDraftRow 1 "r1" 1 3)) as Hd by (vm_compute; reflexivity).
  rewrite Hk in H. cbn [sd_ProjectID sd_WorkflowID sample_save] in H. rewrite Hd in H. destruct H as [_ H].
  destruct H as (c & r & _ & Hrun & Hr & _); [reflexivity|vm_compute; reflexivity|reflexivity|reflexivity|].
  exists (seen nobody c), r. split; [exact Hrun|]. rewrite Hr. split; reflexivity.
Defined.

(** C20: no update of a draft is lost: after a save that made the revision behind
    the expected one, and whatever calls were made since, a save that expects
    the same revision under another key is a conflict and writes nothing. *)
Theorem save_draft_no_lost_update (clock : nat → Time) (others : nat → DefDB → DefDB) (ids : nat → res string)
    (jsonb : string → string) (jsonb_eqb : string → string → bool) (jsonb_field : string → string → option string)
    (service : Service) (calls : list definition_call) (first second : SaveDraftRecord) (db db1 : DefDB) (saved : DraftRevision) :
  (∀ n db, evolves (compiled_from service jsonb) db (others n db)) → def_inv db →
  SaveDraft clock others jsonb first db = (db1, Ok saved) → rv_RevisionNumber saved = sd_ExpectedRevision first + 1 →
  sd_ProjectID second = sd_ProjectID first → sd_WorkflowID second = sd_WorkflowID first → sd_ExpectedRevision second = sd_ExpectedRevision first →
  let db2 := definition_runs clock others ids jsonb jsonb_eqb jsonb_field service calls db1 in
  df_idempotency (seen others db2) !! save_key second = None →
  SaveDraft clock others jsonb second db2 = (seen others db2, Err ErrDraftRevisionConflict).
Proof.
  intros Ho Hinv Hrun Hn Hp Hw He db2 Hk.
  pose proof (save_answer clock others jsonb _ Ho _ _ _ _ Hinv Hrun) as Hr.
  pose proof (keeps_save _ clock others jsonb Ho (λ _, True) first db I Hinv) as Hc. rewrite Hrun in Hc.
  destruct (changes_keep _ _ _ Hc Hinv) as [Hinv1 _].
  destruct (changes_keep _ _ _ (definition_runs_evolve clock others ids jsonb jsonb_eqb jsonb_field service Ho calls db1 Hinv1) Hinv1) as [Hinv2 E2].
  eapply (save_superseded clock others jsonb _ Ho _ _ (rv_ID saved) saved); [done|rewrite Hp, Hw; by eapply extends_revision|congruence|done].
Qed.

Lemma save_draft_no_lost_update_witness : ∃ db1,
  SaveDraft sample_clock nobody id (sample_save "r3" "save-0002" "h3") db1 = (seen nobody db1, Err ErrDraftRevisionConflict).
Proof.
  assert (match SaveDraft sample_clock nobody id (sample_save "r2" "save-0001" "h2") created with (_, Ok r) => rv_RevisionNumber r | _ => 0 end = 2) as Hn
    by (vm_compute; reflexivity).
  destruct (SaveDraft sample_clock nobody id (sample_save "r2" "save-0001" "h2") created) as [db1 [saved|x]] eqn:Hrun; [|discriminate Hn].
  exists db1. apply (save_draft_no_lost_update sample_clock nobody (λ n, Ok (pretty n)) id String.eqb (λ _ _, None) sample_service []
    (sample_save "r2" "save-0001" "h2") (sample_save "r3" "save-0002" "h3") created db1 saved).
  - apply nobody_evolves.
  - apply created_inv.
  - exact Hrun.
  - exact Hn.
  - reflexivity.
  - reflexivity.
  - reflexivity.
  - assert (df_idempotency (seen nobody (SaveDraft sample_clock nobody id (sample_save "r2" "save-0001" "h2") created).1)
      !! save_key (sample_save "r3" "save-0002" "h3") = None) as H by (vm_compute; reflexivity).
    rewrite Hrun in H. exact H.
Defined.
