(* ===== verification/DefinitionPublish.v ===== *)
(** * Publishing, idempotent commands and permissions

    What publishing does case by case, the commands under an idempotency key,
    the permissions of the calls and the definition that production runs. *)

From S2P Require Import Prelude Json Digest Graph Dsl Ir Canonical Parser SourceMap Marshal Handlers ControlGraph Activation Compiler.
From S2P Require Import Access Resources DefinitionStore DefinitionService DefinitionFacts DefinitionCalls DefinitionProps.

Open Scope string_scope.
Open Scope list_scope.
Open Scope Z_scope.

(** ** Commands under an idempotency key *)

Inductive store_command : Type :=
  | StoreCreate (record : CreateWorkflowRecord)
  | StoreCopy (record : CopyRecord)
  | StoreSave (record : SaveDraftRecord)
  | StorePublish (record : PublishRecord).

Definition store_key (c : store_command) : string * string * string * string :=
  match c with
  | StoreCreate r => (cw_ProjectID r, "create_workflow", "project", cw_IdempotencyKey r)
  | StoreCopy r => (cy_ProjectID r, "copy_published_version", "project", cy_IdempotencyKey r)
  | StoreSave r => save_key r
  | StorePublish r => (pb_ProjectID r, "publish_workflow", pb_WorkflowID r, pb_IdempotencyKey r)
  end.

Definition store_hash (c : store_command) : string :=
  match c with
  | StoreCreate r => cw_RequestHash r | StoreCopy r => cy_RequestHash r
  | StoreSave r => sd_RequestHash r | StorePublish r => pb_RequestHash r
  end.

(** The identities a command was answered with. *)
Definition identity_of (c : store_command) (row : IdempotencyRow) : string * option string :=
  match c with
  | StoreCreate _ | StoreCopy _ => (iw_ResponseID row, iw_AuxiliaryID row)
  | StoreSave _ | StorePublish _ => (iw_ResponseID row, None)
  end.

(** A change of the store does not depend on where snapshots come from. *)
Lemma change_mono (o1 o2 : DefDB → ExecutionSnapshot → Prop) db db' : (∀ d s, o1 d s → o2 d s) → change o1 db db' → change o2 db db'.
Proof.
  intros Ho []; [eapply change_create|eapply change_append|eapply change_snapshot|eapply change_link|eapply change_version|eapply change_activate
    |eapply change_answer|eapply change_audit|eapply change_clock]; eauto.
Qed.

Lemma evolves_mono (o1 o2 : DefDB → ExecutionSnapshot → Prop) db db' : (∀ d s, o1 d s → o2 d s) → evolves o1 db db' → evolves o2 db db'.
Proof. intros Ho Hc Hinv. specialize (Hc Hinv). clear Hinv. induction Hc as [|d1 d2 d3 H1 H2 IH]; [apply rtc_refl|]. eapply rtc_l; [exact (change_mono o1 o2 _ _ Ho H1)|done]. Qed.

Notation anything := (λ (_ : DefDB) (_ : ExecutionSnapshot), True).
#[local] Instance anything_origin : Origin anything.
Proof. by intros db db' s _ _. Qed.

(** ** Statements behind a transaction *)

Lemma pool_Ok_inv {A} others (m : tx DefDB A) db db' a : pool others m db = (db', Ok a) → m (seen others db) = (db', Ok a).
Proof. unfold pool, transaction. fold (seen others db). destruct (m (seen others db)) as [d [x|x]]; [by intros [= -> ->]|done]. Qed.

Lemma insertIdempotency_Ok p c s k hash kind id aux db db' u : insertIdempotency p c s k hash kind id aux db = (db', Ok u) →
  df_idempotency db' !! (p, c, s, k) = Some (MkIdempotencyRow hash kind id aux).
Proof.
  unfold insertIdempotency, mbind, tx_bind, tx_get. destruct (df_idempotency db !! _); [done|]. intros [= <- _]. apply lookup_insert_eq.
Qed.

Lemma tx_stop {D A B} (m : tx D A) (f : A → tx D B) db d x : m db = (d, Err x) → (m ≫= f) db = (d, Err x).
Proof. unfold mbind, tx_bind. by intros ->. Qed.

Section Commands.
Context (clock : nat → Time) (others : nat → DefDB → DefDB).
Context (jsonb : string → string) (jsonb_eqb : string → string → bool) (jsonb_field : string → string → option string).
Context (others_evolve : ∀ n db, evolves anything db (others n db)).

Definition store_run (c : store_command) : tx DefDB (string * option string) :=
  match c with
  | StoreCreate r => '(w, v) ← CreateWorkflow clock others jsonb r; mret (wf_ID w, Some (rv_ID v))
  | StoreCopy r => '(w, v) ← CopyPublishedVersion clock others jsonb jsonb_field r; mret (wf_ID w, Some (rv_ID v))
  | StoreSave r => v ← SaveDraft clock others jsonb r; mret (rv_ID v, None)
  | StorePublish r => '(v, _) ← Publish clock others jsonb jsonb_eqb r; mret (pv_ID v, None)
  end.

Lemma store_run_keeps c : keeps anything (λ _, True) (store_run c).
Proof.
  destruct c; cbn [store_run]; apply (df_keeps_bind anything (λ _, True));
    [by apply keeps_create|intros []; apply df_keeps_ret|by apply keeps_copy|intros []; apply df_keeps_ret
    |by apply keeps_save|intros ?; apply df_keeps_ret|by apply keeps_publish|intros []; apply df_keeps_ret].
Qed.

(** *** What is read has the identity it is read by *)

Lemma read_workflow db p w row : def_inv db → ww_Workflow <$> workflow_row db p w = Some row → wf_ID row = w.
Proof. intros Hinv (x & [Hx _]%workflow_row_Some & ->)%fmap_Some. by destruct (di_workflow _ Hinv _ _ Hx). Qed.

Lemma read_revision_id db p w k r : def_inv db → revision_by_id db p w k = Some r → rv_ID r = k.
Proof. intros Hinv [Hr _]%revision_by_id_Some. by destruct (di_revision _ Hinv _ _ Hr). Qed.

Lemma read_version_id db p w k v : def_inv db → version_by_id db p w k = Some v → pv_ID v = k.
Proof. intros Hinv [Hr _]%version_by_id_Some. by destruct (di_version _ Hinv _ _ Hr). Qed.

Lemma workflow_and_revision_Ok p w k db db' workflow revision : def_inv db → GetWorkflowAndRevision others p w k db = (db', Ok (workflow, revision)) →
  extends db db' ∧ wf_ID workflow = w ∧ rv_ID revision = k.
Proof.
  intros Hinv H. pose proof (keeps_workflow_and_revision anything others others_evolve (λ _, True) p w k db I Hinv) as Hc.
  rewrite H in Hc. destruct (changes_keep _ _ _ Hc Hinv) as [_ He]. split; [done|]. clear Hc.
  unfold GetWorkflowAndRevision in H. apply tx_bind_Ok in H as (d & x & Hx & H). apply pool_Ok_inv, query_Ok in Hx as [-> Hx].
  apply tx_bind_Ok in H as (d & y & Hy & H). apply pool_Ok_inv, query_Ok in Hy as [-> Hy]. injection H as _ <- <-.
  destruct (seen_extends others anything others_evolve db Hinv) as [I1 _]. destruct (seen_extends others anything others_evolve _ I1) as [I2 _].
  split; [exact (read_workflow _ _ _ _ I1 Hx)|exact (read_revision_id _ _ _ _ _ I2 Hy)].
Qed.

Lemma version_and_snapshot_Ok p w k db db' v s : getVersionAndSnapshotByID p w k db = (db', Ok (v, s)) →
  db' = db ∧ version_by_id db p w k = Some v ∧ snapshot_by_id db p w (pv_ExecutionSnapshotID v) = Some s.
Proof.
  intros (d & v' & [-> Hv]%query_Ok & (d' & s' & [-> Hs]%query_Ok & [= <- <- <-])%tx_bind_Ok)%tx_bind_Ok. done.
Qed.

(** *** A command leaves its answer *)

Lemma command_performed {A} (read : tx DefDB A) p c s k hash kind id aux d db1 a : def_inv d →
  df_idempotency d !! (p, c, s, k) = Some (MkIdempotencyRow hash kind id aux) → keeps anything (λ _, True) read → read d = (db1, Ok a) →
  df_idempotency db1 !! (p, c, s, k) = Some (MkIdempotencyRow hash kind id aux).
Proof.
  intros Hinv Hk Hkeep Hr. specialize (Hkeep d I Hinv). rewrite Hr in Hkeep. destruct (changes_keep _ _ _ Hkeep Hinv) as [_ He].
  eapply lookup_weaken; [exact Hk|apply He].
Qed.

(** A command that performs ends with its answer in the store. *)
Lemma guarded_recorded {A B} p c s k h (replay : IdempotencyRow → tx DefDB A) (perform : tx DefDB B) (read : B → tx DefDB A) (f : A → string * option string)
    (g : IdempotencyRow → string * option string) db db1 a :
  def_inv db → guarded others p c s k h replay perform read db = (db1, Ok a) →
  (∀ row d, def_inv d → answered d (p, c, s, k) row → replay row d = (db1, Ok a) → db1 = d ∧ f a = g row) →
  (∀ d b, commits anything perform → perform (seen others db) = (d, Ok b) →
     ∃ row, df_idempotency d !! (p, c, s, k) = Some row ∧ iw_RequestHash row = h ∧
       (def_inv d → read b d = (db1, Ok a) → f a = g row)) →
  commits anything perform → (∀ b, keeps anything (λ _, True) (read b)) →
  ∃ row, df_idempotency db1 !! (p, c, s, k) = Some row ∧ iw_RequestHash row = h ∧ g row = f a.
Proof.
  intros Hinv Hrun Hreplay Hperform Hc Hkeep. destruct (seen_extends others anything others_evolve db Hinv) as [I1 _].
  apply guarded_Ok in Hrun as [(row & Hk & Hh & Hr)|(Hk & b & d & Hp & Hr)].
  - destruct (Hreplay row _ I1 (di_idempotency _ I1 _ _ Hk) Hr) as [-> Hf]. by exists row.
  - destruct (Hperform d b Hc Hp) as ([hash kind id aux] & Hd & Hh & Hf).
    destruct (changes_keep _ _ _ (Hc _ _ _ I1 Hp) I1) as [I2 _].
    eexists. split; [by eapply (command_performed (read b))|]. split; [done|]. symmetry. by apply Hf.
Qed.

(** The rows a known key refers to are there. *)
Lemma replay_create_Ok p k row d (f : IdempotencyRow → tx DefDB (Workflow * DraftRevision)) c s :
  (c = "create_workflow" ∧ f = replay_create p ∨ c = "copy_published_version" ∧ f = replay_copy p) →
  def_inv d → answered d (p, c, s, k) row →
  ∃ w v, f row d = (d, Ok (w, v)) ∧ (wf_ID w, Some (rv_ID v)) = (iw_ResponseID row, iw_AuxiliaryID row).
Proof.
  intros Hc Hinv (H1 & _ & _). destruct H1 as [[w Hw] (i & Hi & [v Hv])]; [naive_solver|].
  exists (ww_Workflow w), v. split.
  - destruct Hc as [[_ ->]|[_ ->]]; unfold replay_create, replay_copy, getWorkflow, getDraftRevisionByID, query, mbind, tx_bind, tx_get, tx_lift, or_err;
      by rewrite Hi, Hw; cbn; rewrite Hv.
  - rewrite Hi. f_equal; [|f_equal; by eapply read_revision_id]. apply (read_workflow d p (iw_ResponseID row)); [done|]. by rewrite Hw.
Qed.

Lemma replay_save_Ok p k w row d : def_inv d → answered d (p, "save_draft", w, k) row →
  ∃ v, getDraftRevisionByID p w (iw_ResponseID row) d = (d, Ok v) ∧ rv_ID v = iw_ResponseID row.
Proof.
  intros Hinv (_ & H & _). destruct (H eq_refl) as [v Hv]. exists v. split; [|by eapply read_revision_id].
  unfold getDraftRevisionByID, query, mbind, tx_bind, tx_get, tx_lift. by rewrite Hv.
Qed.

Lemma replay_publish_Ok p k w row d : def_inv d → answered d (p, "publish_workflow", w, k) row →
  ∃ v x, getVersionAndSnapshotByID p w (iw_ResponseID row) d = (d, Ok (v, x)) ∧ pv_ID v = iw_ResponseID row.
Proof.
  intros Hinv (_ & _ & H). destruct (H eq_refl) as [v Hv]. pose proof Hv as [Hk [Hp Hw]]%version_by_id_Some.
  destruct (di_version _ Hinv _ _ Hk) as (_ & _ & _ & [x Hx] & _). rewrite Hp, Hw in Hx. exists v, x. split; [|by eapply read_version_id].
  unfold getVersionAndSnapshotByID, query, mbind, tx_bind, tx_get, tx_lift. rewrite Hv. cbn. by rewrite Hx.
Qed.

Lemma command_replayed c db row : def_inv db → df_idempotency (seen others db) !! store_key c = Some row →
  store_run c db = (seen others db, if bool_decide (iw_RequestHash row = store_hash c) then Ok (identity_of c row) else Err ErrIdempotencyKeyReused).
Proof.
  intros Hinv Hk. destruct (seen_extends others anything others_evolve db Hinv) as [I1 _].
  pose proof (di_idempotency _ I1 _ _ Hk) as Ha. case_bool_decide as Hh.
  - destruct c as [r|r|r|r]; cbn [store_key store_hash store_run identity_of] in *.
    + destruct (replay_create_Ok _ _ _ _ _ _ _ (or_introl (conj eq_refl eq_refl)) I1 Ha) as (w & v & Hr & <-).
      rewrite (tx_step _ _ _ (seen others db) (w, v)); [done|]. by eapply guarded_replay; [..|apply reads_replay_create|].
    + destruct (replay_create_Ok _ _ _ _ _ _ _ (or_intror (conj eq_refl eq_refl)) I1 Ha) as (w & v & Hr & <-).
      rewrite (tx_step _ _ _ (seen others db) (w, v)); [done|]. by eapply guarded_replay; [..|apply reads_replay_copy|].
    + destruct (replay_save_Ok _ _ _ _ _ I1 Ha) as (v & Hr & <-).
      rewrite (tx_step _ _ _ (seen others db) v); [done|]. by eapply guarded_replay; [..|apply reads_query|].
    + destruct (replay_publish_Ok _ _ _ _ _ I1 Ha) as (v & x & Hr & <-).
      rewrite (tx_step _ _ _ (seen others db) (v, x)); [done|]. by eapply guarded_replay; [..|apply reads_version_and_snapshot|].
  - destruct c as [r|r|r|r]; cbn [store_key store_hash store_run] in *; apply tx_stop; by eapply guarded_reused.
Qed.

Lemma command_recorded c db db1 i : def_inv db → store_run c db = (db1, Ok i) →
  ∃ row, df_idempotency db1 !! store_key c = Some row ∧ iw_RequestHash row = store_hash c ∧ identity_of c row = i.
Proof.
  intros Hinv H. destruct c as [r|r|r|r]; cbn [store_run] in H; apply tx_bind_Ok in H as (d & a & H & Hi).
  - destruct a as [w v]. injection Hi as -> <-.
    apply (guarded_recorded _ _ _ _ _ _ _ _ (λ x, (wf_ID x.1, Some (rv_ID x.2))) (λ row, (iw_ResponseID row, iw_AuxiliaryID row)) _ _ _ Hinv H).
    + intros row d I1 Ha Hr. destruct (replay_create_Ok _ _ _ _ _ _ _ (or_introl (conj eq_refl eq_refl)) I1 Ha) as (w' & v' & Hr' & Hid).
      rewrite Hr' in Hr. injection Hr as <- <- <-. by split; [|exact Hid].
    + intros d [] _ (d' & [] & _ & Hk%insertIdempotency_Ok)%tx_bind_Ok. eexists. split_and!; [exact Hk|done|].
      intros I2 Hr. destruct (workflow_and_revision_Ok _ _ _ _ _ _ _ I2 Hr) as (_ & Hw & Hv). cbn. by rewrite Hw, Hv.
    + by apply create_commits.
    + intros _. by apply keeps_workflow_and_revision.
  - destruct a as [w v]. injection Hi as -> <-.
    apply (guarded_recorded _ _ _ _ _ _ _ _ (λ x, (wf_ID x.1, Some (rv_ID x.2))) (λ row, (iw_ResponseID row, iw_AuxiliaryID row)) _ _ _ Hinv H).
    + intros row d I1 Ha Hr. destruct (replay_create_Ok _ _ _ _ _ _ _ (or_intror (conj eq_refl eq_refl)) I1 Ha) as (w' & v' & Hr' & Hid).
      rewrite Hr' in Hr. injection Hr as <- <- <-. by split; [|exact Hid].
    + intros d [] _ (d0 & db0 & _ & Hp)%tx_bind_Ok. apply tx_bind_Ok in Hp as (d1 & [[x y] z] & _ & Hp).
      apply tx_bind_Ok in Hp as (d2 & [] & _ & Hk%insertIdempotency_Ok). eexists. split_and!; [exact Hk|done|].
      intros I2 Hr. destruct (workflow_and_revision_Ok _ _ _ _ _ _ _ I2 Hr) as (_ & Hw & Hv). cbn. by rewrite Hw, Hv.
    + by apply copy_commits.
    + intros _. by apply keeps_workflow_and_revision.
  - injection Hi as -> <-.
    apply (guarded_recorded _ _ _ _ _ _ _ _ (λ v, (rv_ID v, None)) (λ row, (iw_ResponseID row, None)) _ _ _ Hinv H).
    + intros row d I1 Ha Hr. destruct (replay_save_Ok _ _ _ _ _ I1 Ha) as (v' & Hr' & <-). rewrite Hr' in Hr. by injection Hr as <- <-.
    + intros d [] _ (d' & [] & _ & Hk%insertIdempotency_Ok)%tx_bind_Ok. eexists. split_and!; [exact Hk|done|].
      intros I2 [-> Hr]%pool_Ok_inv%query_Ok. destruct (seen_extends others anything others_evolve d I2) as [I3 _].
      cbn. by rewrite (read_revision_id _ _ _ _ _ I3 Hr).
    + by apply save_commits.
    + intros _. apply (keeps_reads anything others others_evolve (λ _, True)). apply reads_query.
  - destruct a as [v s]. injection Hi as -> <-.
    apply (guarded_recorded _ _ _ _ _ _ _ _ (λ x, (pv_ID x.1, None)) (λ row, (iw_ResponseID row, None)) _ _ _ Hinv H).
    + intros row d I1 Ha Hr. destruct (replay_publish_Ok _ _ _ _ _ I1 Ha) as (v' & x' & Hr' & <-). rewrite Hr' in Hr. by injection Hr as <- <- <-.
    + intros d b _ Hp. unfold publish_version in Hp. do 8 (apply tx_bind_Ok in Hp as (? & ? & ?Hs & Hp)). injection Hp as -> _.
      apply insertIdempotency_Ok in Hs6. eexists. split_and!; [exact Hs6|done|].
      intros I2 (d3 & [v' x'] & Hr%pool_Ok_inv & [= _ <- _])%tx_bind_Ok. apply version_and_snapshot_Ok in Hr as (-> & Hr & _).
      destruct (seen_extends others anything others_evolve d I2) as [I3 _]. cbn. by rewrite (read_version_id _ _ _ _ _ I3 Hr).
    + intros d1 d2 b I1 Hp. by eapply publish_commits.
    + intros s'. apply (df_keeps_bind anything (λ _, True)); [|intros [? ?]; apply df_keeps_ret].
      apply (keeps_reads anything others others_evolve (λ _, True)). apply reads_version_and_snapshot.
Qed.
End Commands.

(** C21: commands under an idempotency key run once: after a command was answered,
    and whatever calls were made since, a command of the same kind and scope
    under the same key writes nothing and is answered with the identities of
    the first, or, when its request hashes otherwise, is refused. *)
Theorem commands_idempotent (clock : nat → Time) (others : nat → DefDB → DefDB) (ids : nat → res string)
    (jsonb : string → string) (jsonb_eqb : string → string → bool) (jsonb_field : string → string → option string)
    (service : Service) (calls : list definition_call) (first second : store_command) (db db1 : DefDB) (i : string * option string) :
  (∀ n db, evolves (compiled_from service jsonb) db (others n db)) → def_inv db →
  store_run clock others jsonb jsonb_eqb jsonb_field first db = (db1, Ok i) → store_key second = store_key first →
  let db2 := definition_runs clock others ids jsonb jsonb_eqb jsonb_field service calls db1 in
  store_run clock others jsonb jsonb_eqb jsonb_field second db2 =
    (seen others db2, if bool_decide (store_hash second = store_hash first) then Ok i else Err ErrIdempotencyKeyReused).
Proof.
  intros Ho Hinv Hrun Hkey db2.
  assert (∀ n db, evolves anything db (others n db)) as Ho' by (intros n d; by apply (evolves_mono (compiled_from service jsonb))).
  pose proof (store_run_keeps clock others jsonb jsonb_eqb jsonb_field Ho' first db I Hinv) as Hc. rewrite Hrun in Hc.
  destruct (changes_keep _ _ _ Hc Hinv) as [Hinv1 _].
  destruct (changes_keep _ _ _ (definition_runs_evolve clock others ids jsonb jsonb_eqb jsonb_field service Ho calls db1 Hinv1) Hinv1) as [Hinv2 E2].
  destruct (command_recorded clock others jsonb jsonb_eqb jsonb_field Ho' _ _ _ _ Hinv Hrun) as (row & Hk & Hh & <-).
  destruct (seen_extends others anything Ho' db2 Hinv2) as [_ E3].
  rewrite (command_replayed clock others jsonb jsonb_eqb jsonb_field Ho' second db2 row Hinv2).
  - assert (identity_of second row = identity_of first row) as -> by (destruct first, second; try done; unfold store_key, save_key in Hkey; by injection Hkey).
    rewrite Hh. by case_bool_decide as H1; case_bool_decide as H2.
  - rewrite Hkey. eapply lookup_weaken; [|apply E3]. eapply lookup_weaken; [exact Hk|apply E2].
Qed.

Lemma commands_idempotent_witness : ∃ db1,
  store_run sample_clock nobody id String.eqb (λ _ _, None) (StoreCreate sample_create) db1 = (seen nobody db1, Ok ("w1", Some "r1")).
Proof.
  assert ((store_run sample_clock nobody id String.eqb (λ _ _, None) (StoreCreate sample_create)
    (no_definitions sample_access (MkResourcesDB ∅ ∅ ∅ ∅ ∅))).2 = Ok ("w1", Some "r1")) as H by (vm_compute; reflexivity).
  destruct (store_run sample_clock nobody id String.eqb (λ _ _, None) (StoreCreate sample_create)
    (no_definitions sample_access (MkResourcesDB ∅ ∅ ∅ ∅ ∅))) as [db1 o] eqn:Hrun. cbn in H. subst o. exists db1.
  exact (commands_idempotent sample_clock nobody (λ n, Ok (pretty n)) id String.eqb (λ _ _, None) sample_service [] (StoreCreate sample_create)
    (StoreCreate sample_create) _ db1 ("w1", Some "r1") (nobody_evolves _) (no_definitions_inv _ _) Hrun eq_refl).
Defined.

(** ** Publishing *)

(** The tables that storing a snapshot leaves alone. *)
Record same_but_snapshots (db db' : DefDB) : Prop := {
  sb_workflows : df_workflows db' = df_workflows db; sb_revisions : df_revisions db' = df_revisions db; sb_drafts : df_drafts db' = df_drafts db;
  sb_versions : df_versions db' = df_versions db; sb_audits : df_audits db' = df_audits db; sb_idempotency : df_idempotency db' = df_idempotency db }.

(** The version [Publish] writes. *)
Definition published_version (record : PublishRecord) (number : Z) (snapshotID : string) (now : Time) : PublishedVersion :=
  MkPublishedVersion (pb_VersionID record) (pb_ProjectID record) (pb_WorkflowID record) number (pb_DraftRevisionID record) snapshotID
    (pb_ChangeLog record) (pb_PrincipalID record) now.

Lemma found_Some {A} (x : A) : DefinitionStore.found (Some x) = true.
Proof. by apply bool_decide_eq_true_2. Qed.

Section Publish.
Context (clock : nat → Time) (others : nat → DefDB → DefDB).
Context (jsonb : string → string) (jsonb_eqb : string → string → bool).

(** The snapshot can be stored: it is new to the workflow under a free identity
    and its manifest reads back, or the stored one holds the same artifacts. *)
Definition storable (db : DefDB) (snapshot : ExecutionSnapshot) : Prop :=
  match snapshot_by_hash db (es_ProjectID snapshot) (es_WorkflowID snapshot) (es_DefinitionHash snapshot) with
  | Some stored => same_artifacts jsonb_eqb stored snapshot = true
  | None => df_snapshots db !! es_ID snapshot = None ∧ jsonb_eqb (jsonb (es_ManifestJSON snapshot)) (es_ManifestJSON snapshot) = true
  end.

Lemma upsert_run snapshot db : def_inv db → is_Some (workflow_row db (es_ProjectID snapshot) (es_WorkflowID snapshot)) → storable db snapshot →
  ∃ db' stored, upsertSnapshot clock jsonb jsonb_eqb snapshot db = (db', Ok stored) ∧ same_but_snapshots db db' ∧
    snapshot_by_id db' (es_ProjectID snapshot) (es_WorkflowID snapshot) (es_ID stored) = Some stored ∧ same_artifacts jsonb_eqb stored snapshot = true.
Proof.
  intros Hinv [row Hrow] Hs. unfold storable in Hs. set (db1 := db <| df_ticks := S (df_ticks db) |>).
  destruct (snapshot_by_hash db _ _ _) as [stored|] eqn:Hh.
  - exists db1, stored. unfold upsertSnapshot, insert_snapshot. split_and!; [|done| |done].
    + unfold mbind, tx_bind, clock_timestamp, tx_get. fold db1. change (snapshot_by_hash db1) with (snapshot_by_hash db). rewrite Hh.
      cbn. change (snapshot_by_hash db1) with (snapshot_by_hash db). by rewrite Hh, Hs.
    + by apply (snapshot_by_hash_Some db) in Hh as [Hh _].
  - destruct Hs as [Hfree Hm]. set (s := stored_snapshot jsonb snapshot (clock (df_ticks db))).
    set (db2 := db1 <| df_snapshots := <[es_ID snapshot := s]> (df_snapshots db) |>).
    assert (insert_snapshot clock jsonb snapshot db = (db2, Ok tt)) as Hins.
    { unfold insert_snapshot. rewrite (tx_step (clock_timestamp clock) _ _ _ _ eq_refl), (tx_step tx_get _ _ _ _ eq_refl). fold db1.
      change (snapshot_by_hash db1) with (snapshot_by_hash db). rewrite Hh. change (df_snapshots db1) with (df_snapshots db). rewrite Hfree.
      rewrite bool_decide_eq_false_2 by by intros []. unfold references, mbind, tx_bind, tx_get, tx_lift.
      change (workflow_row db1) with (workflow_row db). by rewrite Hrow. }
    assert (snapshot_by_hash db2 (es_ProjectID snapshot) (es_WorkflowID snapshot) (es_DefinitionHash snapshot) = Some s) as Hfound.
    { destruct (snapshot_by_hash db2 _ _ _) as [t|] eqn:Ht.
      - apply select_one_Some in Ht as (k & Hk & Hp). cbn in Hk. rewrite lookup_insert in Hk. case_decide; [done|].
        rewrite (proj1 (select_one_None _ _) Hh _ _ Hk) in Hp. done.
      - pose proof (proj1 (select_one_None _ _) Ht (es_ID snapshot) s) as Hno. cbn in Hno. rewrite lookup_insert_eq in Hno. specialize (Hno eq_refl).
        cbn in Hno. rewrite (proj2 (in_workflow_true _ _ _ _)), bool_decide_eq_true_2 in Hno by done. done. }
    exists db2, s. split_and!; [|done| |].
    + unfold upsertSnapshot. rewrite (tx_step _ _ _ _ _ Hins), (tx_step tx_get _ _ _ _ eq_refl), Hfound.
      unfold same_artifacts. cbn. rewrite !bool_decide_eq_true_2 by done. by rewrite Hm.
    + apply snapshot_by_id_Some. split; [apply lookup_insert_eq|done].
    + unfold same_artifacts. cbn. rewrite !bool_decide_eq_true_2 by done. by rewrite Hm.
Qed.

Lemma max_version_same db db' p w : df_versions db' = df_versions db → max_version db' p w = max_version db p w.
Proof. intros He. unfold max_version. by rewrite He. Qed.

(** A version is inserted behind the greatest one and becomes the active one. *)
Lemma version_run record snapshotID db row :
  workflow_row db (pb_ProjectID record) (pb_WorkflowID record) = Some row →
  is_Some (revision_by_id db (pb_ProjectID record) (pb_WorkflowID record) (pb_DraftRevisionID record)) →
  is_Some (snapshot_by_id db (pb_ProjectID record) (pb_WorkflowID record) snapshotID) →
  df_versions db !! pb_VersionID record = None →
  ∃ db' now at_, let v := published_version record (max_version db (pb_ProjectID record) (pb_WorkflowID record) + 1) snapshotID now in
    (insert_version clock record (max_version db (pb_ProjectID record) (pb_WorkflowID record) + 1) snapshotID ;;
     activate_version clock (pb_ProjectID record) (pb_WorkflowID record) (pb_VersionID record)) db = (db', Ok tt) ∧
    df_versions db' = <[pb_VersionID record := v]> (df_versions db) ∧
    df_workflows db' = <[pb_WorkflowID record := row <| ww_Workflow := activate (pb_VersionID record) at_ (ww_Workflow row) |>]> (df_workflows db) ∧
    df_audits db' = df_audits db ∧ df_idempotency db' = df_idempotency db ∧ df_snapshots db' = df_snapshots db ∧
    df_drafts db' = df_drafts db.
Proof.
  intros Hrow [r Hr] [s Hs] Hfree.
  set (n := max_version db _ _ + 1).
  assert (version_by_number db (pb_ProjectID record) (pb_WorkflowID record) n = None) as Hn.
  { apply select_one_None. intros k v Hk. apply andb_false_iff. destruct (in_workflow _ _ _ _) eqn:Hw; [right|by left].
    apply Z.eqb_neq. intros Heq. pose proof (max_version_le anything db (pb_ProjectID record) (pb_WorkflowID record) n k) as Hle.
    apply in_workflow_true in Hw. assert (n ≤ max_version db (pb_ProjectID record) (pb_WorkflowID record)); [|lia].
    apply Hle. exists v. by rewrite version_by_id_Some. }
  do 3 eexists. split_and!.
  - unfold insert_version, activate_version, update_workflow, references, mbind, tx_bind, tx_get, tx_lift, tx_modify, clock_timestamp.
    set (db1 := db <| df_ticks := S (df_ticks db) |>). change (df_versions db1) with (df_versions db).
    change (version_by_number db1) with (version_by_number db). rewrite Hfree, Hn. rewrite !bool_decide_eq_false_2 by by intros []. cbn [orb].
    change (workflow_row db1) with (workflow_row db). change (revision_by_id db1) with (revision_by_id db).
    change (snapshot_by_id db1) with (snapshot_by_id db). rewrite Hrow, Hr, Hs, !found_Some. cbn [guard_err negb andb].
    match goal with |- context [workflow_row ?d _ _] => change (workflow_row d) with (workflow_row db) end. rewrite Hrow.
    match goal with |- context [version_by_id ?d ?p ?w ?k] => assert (is_Some (version_by_id d p w k)) as [v ->] end.
    { eexists. apply version_by_id_Some. split; [apply lookup_insert_eq|done]. }
    rewrite found_Some. reflexivity.
  - done.
  - done.
  - done.
  - done.
  - done.
  - done.
Qed.
(** The revision that may be published. *)
Definition publishable (db : DefDB) (record : PublishRecord) (draft : DraftRow) : bool :=
  (dw_CurrentRevision draft =? pb_ExpectedRevision record)
  && is_revision db (pb_ProjectID record) (pb_WorkflowID record) (pb_ExpectedRevision record) (pb_DraftRevisionID record).

Lemma check_run record db draft : def_inv db → df_drafts db !! (pb_ProjectID record, pb_WorkflowID record) = Some draft →
  check_published_revision record db = (db, if publishable db record draft then Ok tt else Err ErrDraftRevisionConflict).
Proof.
  intros Hinv Hd. destruct (di_draft _ Hinv _ _ Hd) as ([row Hrow] & _ & Hcur & _). cbn [fst snd] in *.
  unfold check_published_revision, query, mbind, tx_bind, tx_get, tx_lift, or_err, publishable. rewrite Hrow. cbn. rewrite Hd. cbn.
  destruct (_ =? _) eqn:He; cbn [negb andb]; [apply Z.eqb_eq in He|done].
  destruct (revision_by_number db _ _ _) as [r|] eqn:Hr.
  - apply select_one_Some in Hr as (k & Hk & [[Hp Hw]%in_workflow_true Hn%Z.eqb_eq]%andb_true_iff).
    destruct (di_revision _ Hinv _ _ Hk) as [<- _].
    assert (revision_by_id db (pb_ProjectID record) (pb_WorkflowID record) (rv_ID r) = Some r) as Hid by by apply revision_by_id_Some.
    case_bool_decide as Hid1; cbn [negb].
    + rewrite <- Hid1. by rewrite (proj2 (is_revision_true _ _ _ _ _)) by by exists r.
    + destruct (is_revision db _ _ (pb_ExpectedRevision record) (pb_DraftRevisionID record)) eqn:Hi; [|done]. destruct Hid1.
      apply (di_revision_unique _ Hinv (pb_ProjectID record) (pb_WorkflowID record) (pb_ExpectedRevision record)); [|done].
      apply is_revision_true. by exists r.
  - rewrite He in Hcur. apply is_revision_true in Hcur as (r & [Hk [Hp Hw]]%revision_by_id_Some & Hn).
    pose proof (proj1 (select_one_None _ _) Hr _ _ Hk) as Hno. cbn in Hno.
    rewrite (proj2 (in_workflow_true _ _ _ _)), (proj2 (Z.eqb_eq _ _)) in Hno by done. done.
Qed.

Definition publish_key (record : PublishRecord) : string * string * string * string :=
  (pb_ProjectID record, "publish_workflow", pb_WorkflowID record, pb_IdempotencyKey record).

(** Nothing stands in the way of a new version. *)
Record version_ready (db : DefDB) (record : PublishRecord) : Prop := {
  vr_project : es_ProjectID (pb_Snapshot record) = pb_ProjectID record;
  vr_workflow : es_WorkflowID (pb_Snapshot record) = pb_WorkflowID record;
  vr_snapshot : storable db (pb_Snapshot record);
  vr_version : df_versions db !! pb_VersionID record = None;
  vr_audit : df_audits db !! pb_AuditID record = None;
  vr_number : max_version db (pb_ProjectID record) (pb_WorkflowID record) + 1 < 2 ^ 63 }.

(** What a publication has committed. *)
Record published (record : PublishRecord) (db db' : DefDB) (v : PublishedVersion) (s : ExecutionSnapshot) : Prop := {
  pu_version : v = published_version record (max_version db (pb_ProjectID record) (pb_WorkflowID record) + 1) (es_ID s) (pv_CreatedAt v);
  pu_versions : df_versions db' = <[pv_ID v := v]> (df_versions db);
  pu_active : ∃ row, workflow_row db' (pb_ProjectID record) (pb_WorkflowID record) = Some row ∧ wf_ActiveVersionID (ww_Workflow row) = Some (pv_ID v);
  pu_snapshot : snapshot_by_id db' (pb_ProjectID record) (pb_WorkflowID record) (es_ID s) = Some s;
  pu_artifacts : same_artifacts jsonb_eqb s (pb_Snapshot record) = true;
  pu_drafts : df_drafts db' = df_drafts db }.

Lemma same_row db db' p w : df_workflows db' = df_workflows db → workflow_row db' p w = workflow_row db p w.
Proof. intros He. unfold workflow_row. by rewrite He. Qed.

Lemma same_revision db db' p w k : df_revisions db' = df_revisions db → revision_by_id db' p w k = revision_by_id db p w k.
Proof. intros He. unfold revision_by_id. by rewrite He. Qed.

Lemma same_snapshot db db' p w k : df_snapshots db' = df_snapshots db → snapshot_by_id db' p w k = snapshot_by_id db p w k.
Proof. intros He. unfold snapshot_by_id. by rewrite He. Qed.

Lemma publish_version_run record db draft : def_inv db → df_drafts db !! (pb_ProjectID record, pb_WorkflowID record) = Some draft →
  publishable db record draft = true → version_ready db record → df_idempotency db !! publish_key record = None →
  ∃ db' v s, publish_version clock jsonb jsonb_eqb record db = (db', Ok s) ∧ published record db db' v s.
Proof.
  intros Hinv Hd Hpub [Hp Hw Hs Hv Ha Hn] Hk. destruct (di_draft _ Hinv _ _ Hd) as ([row Hrow] & _). cbn [fst snd] in Hrow.
  apply andb_true_iff in Hpub as Hrev. destruct Hrev as [_ (r & Hr & _)%is_revision_true].
  destruct (upsert_run (pb_Snapshot record) db) as (d1 & s & Hup & Hsame & Hsnap & Hart); [done|rewrite Hp, Hw; by eexists|done|].
  destruct Hsame as [W1 R1 D1 V1 A1 I1]. rewrite Hp, Hw in Hsnap.
  destruct (version_run record (es_ID s) d1 row) as (d2 & now & at_ & Hrun & V2 & W2 & A2 & I2 & S2 & D2).
  { by rewrite (same_row _ _ _ _ W1). } { rewrite (same_revision _ _ _ _ _ R1). by eexists. } { by eexists. } { by rewrite V1. }
  cbv zeta in *. rewrite (max_version_same _ _ _ _ V1) in Hrun, V2. set (v := published_version _ _ _ _) in V2.
  set (d3 := d2 <| df_ticks := S (df_ticks d2) |> <| df_audits := <[pb_AuditID record :=
    MkAuditRow (pb_ProjectID record) (pb_WorkflowID record) AuditPublish (pb_VersionID record) (pb_PrincipalID record) (clock (df_ticks d2))]> (df_audits d2) |>).
  assert (version_by_id d2 (pb_ProjectID record) (pb_WorkflowID record) (pb_VersionID record) = Some v) as Hv2.
  { apply version_by_id_Some. split; [rewrite V2; apply lookup_insert_eq|done]. }
  assert (insert_audit clock (pb_AuditID record) (pb_ProjectID record) (pb_WorkflowID record) AuditPublish (pb_VersionID record)
    (pb_PrincipalID record) d2 = (d3, Ok tt)) as Haudit.
  { unfold insert_audit, references, mbind, tx_bind, tx_get, tx_lift, tx_modify, clock_timestamp.
    change (df_audits (d2 <| df_ticks := S (df_ticks d2) |>)) with (df_audits d2). rewrite A2, A1, Ha.
    change (version_by_id (d2 <| df_ticks := S (df_ticks d2) |>)) with (version_by_id d2). rewrite Hv2, found_Some. cbn [negb guard_err].
    reflexivity. }
  set (d4 := d3 <| df_idempotency := <[publish_key record :=
    MkIdempotencyRow (pb_RequestHash record) "published_version" (pb_VersionID record) (Some (es_ID s))]> (df_idempotency d3) |>).
  assert (insertIdempotency (pb_ProjectID record) "publish_workflow" (pb_WorkflowID record) (pb_IdempotencyKey record) (pb_RequestHash record)
    "published_version" (pb_VersionID record) (Some (es_ID s)) d3 = (d4, Ok tt)) as Hidem.
  { unfold insertIdempotency, mbind, tx_bind, tx_get, tx_modify. change (df_idempotency d3) with (df_idempotency d2).
    rewrite I2, I1. unfold publish_key in Hk. by rewrite Hk. }
  exists d4, v, s. split.
  - unfold publish_version. rewrite (tx_step (check_published_revision record) _ _ _ tt) by (rewrite (check_run _ _ _ Hinv Hd), Hpub; done).
    rewrite (tx_step _ _ _ _ _ Hup), (tx_step tx_get _ _ _ _ eq_refl), (max_version_same _ _ _ _ V1).
    rewrite (tx_step _ _ d1 d1 (max_version db (pb_ProjectID record) (pb_WorkflowID record) + 1)).
    2:{ unfold tx_lift, bigint_succ. by rewrite (proj2 (Z.leb_gt _ _) Hn). }
    unfold mbind, tx_bind in Hrun |- *. destruct (insert_version _ _ _ _ d1) as [d1' [[]|x]]; [|done]. rewrite Hrun, Haudit, Hidem. done.
  - split; try done.
    + change (df_versions d4) with (df_versions d2). rewrite V2, V1. done.
    + change (workflow_row d4) with (workflow_row d2). eexists. split; [apply workflow_row_Some; rewrite W2; split; [apply lookup_insert_eq|]|done].
      by apply workflow_row_Some in Hrow as [_ Hrow].
    + change (snapshot_by_id d4) with (snapshot_by_id d2). by rewrite (same_snapshot _ _ _ _ _ S2).
    + change (df_drafts d4) with (df_drafts d2). by rewrite D2, D1.
Qed.
End Publish.

(** C19: what publishing does, case by case: a key that was used for the same
    request is answered with the version and the snapshot it made, a key used
    for another request is refused, a workflow without a draft is not found,
    and a draft that has moved on, or whose revision is not the one that was
    compiled, is a conflict; in all these cases nothing is written.  Otherwise
    a version with the number behind the greatest one is added, it becomes the
    active one, its source is the current revision and its snapshot holds the
    compiled artifacts. *)
Theorem publish_decides (clock : nat → Time) (others : nat → DefDB → DefDB) (jsonb : string → string) (jsonb_eqb : string → string → bool)
    (record : PublishRecord) (db : DefDB) :
  (∀ n db, evolves anything db (others n db)) → def_inv db →
  let d := seen others db in
  let run := Publish clock others jsonb jsonb_eqb record db in
  match df_idempotency d !! publish_key record with
  | Some row =>
      if bool_decide (iw_RequestHash row = pb_RequestHash record)
      then ∃ v s, version_by_id d (pb_ProjectID record) (pb_WorkflowID record) (iw_ResponseID row) = Some v ∧
                  snapshot_by_id d (pb_ProjectID record) (pb_WorkflowID record) (pv_ExecutionSnapshotID v) = Some s ∧ run = (d, Ok (v, s))
      else run = (d, Err ErrIdempotencyKeyReused)
  | None =>
      match df_drafts d !! (pb_ProjectID record, pb_WorkflowID record) with
      | None => run = (d, Err ErrResourceNotFound)
      | Some draft =>
          if publishable d record draft then
            version_ready jsonb jsonb_eqb d record →
            ∃ committed v s, changes anything d committed ∧ run = (seen others committed, Ok (v, s)) ∧ published jsonb_eqb record d committed v s
          else run = (d, Err ErrDraftRevisionConflict)
      end
  end.
Proof.
  intros Ho Hinv d run. destruct (seen_extends others anything Ho db Hinv) as [Hd _]. fold d in Hd.
  destruct (df_idempotency d !! publish_key record) as [row|] eqn:Hk.
  - case_bool_decide as Hh; [|by apply (guarded_reused _ _ _ _ _ _ _ _ _ _ row)].
    destruct (replay_publish_Ok _ _ _ _ _ Hd (di_idempotency _ Hd _ _ Hk)) as (v & s & Hr & _).
    pose proof (version_and_snapshot_Ok _ _ _ _ _ _ _ Hr) as (_ & Hv & Hs). exists v, s. split_and!; [done..|].
    by apply (guarded_replay _ _ _ _ _ _ _ _ _ _ row (v, s) d); [..|apply reads_version_and_snapshot|].
  - assert (∀ x, publish_version clock jsonb jsonb_eqb record d = (d, Err x) → run = (d, Err x)) as Hfail.
    { intros x Hx. subst run. unfold Publish. rewrite (guarded_failed _ _ _ _ _ _ _ _ _ _ x d Hk Hx). fold d. by destruct d. }
    destruct (df_drafts d !! (pb_ProjectID record, pb_WorkflowID record)) as [draft|] eqn:Hdr.
    + destruct (publishable d record draft) eqn:Hpub.
      * intros Hready. destruct (publish_version_run clock jsonb jsonb_eqb record d draft Hd Hdr Hpub Hready Hk) as (c & v & s & Hrun & Hc).
        assert (changes anything d c) as Hch by by eapply publish_commits.
        exists c, v, s. split_and!; [done| |done]. subst run. unfold Publish. rewrite (guarded_perform _ _ _ _ _ _ _ _ _ _ s c Hk Hrun).
        destruct (changes_keep _ _ _ Hch Hd) as [Hcinv _]. destruct (seen_extends others anything Ho c Hcinv) as [_ He].
        destruct Hc as [Hv Hvs _ Hs _ _]. assert (version_by_id c (pb_ProjectID record) (pb_WorkflowID record) (pb_VersionID record) = Some v) as Hvc.
        { apply version_by_id_Some. rewrite Hvs. split; [|by rewrite Hv]. assert (pv_ID v = pb_VersionID record) as <- by by rewrite Hv. apply lookup_insert_eq. }
        apply (extends_version _ _ He) in Hvc. apply (extends_snapshot _ _ He) in Hs.
        assert (pv_ExecutionSnapshotID v = es_ID s) as Hid by by rewrite Hv. rewrite <- Hid in Hs.
        rewrite (tx_step _ _ _ (seen others c) (v, s)); [done|]. apply pool_Ok.
        unfold getVersionAndSnapshotByID, query, mbind, tx_bind, tx_get, tx_lift. rewrite Hvc. cbn. by rewrite Hs.
      * apply Hfail. unfold publish_version. apply tx_stop. by rewrite (check_run _ _ _ Hd Hdr), Hpub.
    + apply Hfail. unfold publish_version. apply tx_stop.
      unfold check_published_revision, query, mbind, tx_bind, tx_get, tx_lift, or_err. rewrite Hdr. by destruct (workflow_row _ _ _).
Qed.

Definition sample_publish : PublishRecord :=
  MkPublishRecord "v1" "a1" "shop" "w1" 1 "r1" "first" "ann" "publish-1" "h3"
    (MkExecutionSnapshot "s1" "shop" "w1" SnapshotOriginPublished "v1" "{}" "{}" "{}" "{}" "i" "d" "m" "f" 0).

Lemma publish_decides_witness : ∃ db v s,
  Publish sample_clock nobody id String.eqb sample_publish created = (db, Ok (v, s)) ∧ pv_VersionNumber v = 1 ∧
  pv_SourceDraftRevisionID v = "r1" ∧ es_DSLHash s = "d".
Proof.
  pose proof (publish_decides sample_clock nobody id String.eqb sample_publish created (nobody_evolves _) (proj1 created_inv)) as H. cbv zeta in H.
  assert (df_idempotency (seen nobody created) !! publish_key sample_publish = None) as Hk by (vm_compute; reflexivity).
  assert (df_drafts (seen nobody created) !! ("shop", "w1") = Some (MkDraftRow 1 "r1" 1 3)) as Hd by (vm_compute; reflexivity).
  assert (publishable (seen nobody created) sample_publish (MkDraftRow 1 "r1" 1 3) = true) as Hp by (vm_compute; reflexivity).
  assert (max_version (seen nobody created) "shop" "w1" = 0) as Hm by (vm_compute; reflexivity).
  rewrite Hk in H. cbn [pb_ProjectID pb_WorkflowID sample_publish] in H. rewrite Hd, Hp in H.
  destruct H as (c & v & s & _ & Hrun & [Hv _ _ _ Hs _]).
  - split; [reflexivity|reflexivity| |vm_compute; reflexivity|vm_compute; reflexivity|cbn [pb_ProjectID pb_WorkflowID sample_publish]; rewrite Hm; reflexivity].
    unfold storable. assert (snapshot_by_hash (seen nobody created) "shop" "w1" "f" = None) as Hs by (vm_compute; reflexivity).
    cbn [pb_Snapshot sample_publish es_ProjectID es_WorkflowID es_DefinitionHash]. rewrite Hs. split; [vm_compute; reflexivity|reflexivity].
  - exists (seen nobody c), v, s. split; [exact Hrun|]. cbn [pb_ProjectID pb_WorkflowID sample_publish] in Hv. rewrite Hm in Hv.
    apply andb_true_iff in Hs as [Hs _]. apply andb_true_iff in Hs as [Hs _]. apply andb_true_iff in Hs as [_ Hs]. apply bool_decide_eq_true in Hs.
    rewrite Hv. split; [reflexivity|]. split; [reflexivity|exact Hs].
Defined.

(** ** Permissions *)

Definition permission_denied : service_error := mapAccessError ErrPermissionDenied.

Section Access.
Context (clock : nat → Time) (others : nat → DefDB → DefDB).

#[local] Instance guard_access : AccessRepository DefDB := store_access clock others.

Lemma require_run p u permission db : Require_ p u permission db =
  (seen others db, if has_permission (df_access (seen others db)) p u permission then Ok tt else Err ErrPermissionDenied).
Proof.
  change (Service_Require p u permission db = (seen others db, if has_permission (df_access (seen others db)) p u permission then Ok tt else Err ErrPermissionDenied)).
  unfold Service_Require. rewrite (tx_step _ _ _ (seen others db) (Ok (has_permission (df_access (seen others db)) p u permission))).
  - by destruct (has_permission _ _ _ _).
  - unfold tx_try. cbn [HasPermission guard_access store_access]. by erewrite (pool_Ok others _ db (seen others db)).
Qed.

Lemma call_step {E A B} (m : call DefDB E A) (f : A → call DefDB E B) db d a : m db = (d, Done a) → (m ≫= f) db = f a d.
Proof. unfold mbind, call_bind. by intros ->. Qed.

Lemma call_stop {E A B} (m : call DefDB E A) (f : A → call DefDB E B) db d x : m db = (d, Failed x) → (m ≫= f) db = (d, Failed x).
Proof. unfold mbind, call_bind. by intros ->. Qed.

Lemma authorize_run p u permission db : authorize p u permission db =
  (seen others db, if has_permission (df_access (seen others db)) p u permission then Done tt else Failed permission_denied).
Proof. unfold authorize, calling. rewrite require_run. by destruct (has_permission _ _ _ _). Qed.





End Access.




(** ** What production runs *)

(** C22: resolving the production definition, case by case: without permission,
    without the workflow or without an active version there is an error;
    otherwise the answer is the active version of the workflow with the
    snapshot it was published with, and that snapshot was compiled by the
    service from a revision of that workflow that is in the store. *)
Theorem production_decides (clock : nat → Time) (others : nat → DefDB → DefDB)
    (jsonb : string → string) (jsonb_eqb : string → string → bool) (jsonb_field : string → string → option string)
    (service : Service) (projectID principalID workflowID : string) (db : DefDB) :
  (∀ n db, evolves (compiled_from service jsonb) db (others n db)) → def_inv db → snapshots_from (compiled_from service jsonb) db →
  let run := @Service_ResolveProductionDefinition DefDB (store_repository clock others jsonb jsonb_eqb jsonb_field)
               (@access_authorizer DefDB (store_access clock others)) projectID principalID workflowID db in
  let refused x := Failed (repositoryError "resolve production definition" x) in
  let d1 := seen others db in let d2 := seen others d1 in let d3 := seen others d2 in
  if has_permission (df_access d1) projectID principalID PermissionRunCreate then
    match workflow_row d2 projectID workflowID with
    | None => run = (d2, refused ErrResourceNotFound)
    | Some row =>
        match wf_ActiveVersionID (ww_Workflow row) with
        | None => run = (d2, refused ErrWorkflowNotPublished)
        | Some k => ∃ v s, run = (d3, Done (MkProductionDefinition (ww_Workflow row) v s)) ∧
            version_by_id d2 projectID workflowID k = Some v ∧
            snapshot_by_id d2 projectID workflowID (pv_ExecutionSnapshotID v) = Some s ∧ compiled_from service jsonb d2 s
        end
    end
  else run = (d1, Failed permission_denied).
Proof.
  intros Ho Hinv Hsnap run refused d1 d2 d3. subst run. unfold Service_ResolveProductionDefinition.
  pose proof (authorize_run clock others projectID principalID PermissionRunCreate db) as Ha. fold d1 in Ha.
  destruct (has_permission _ _ _ _); [|by apply call_stop]. rewrite (call_step _ _ _ _ _ Ha). clear Ha.
  destruct (seen_extends others _ Ho db Hinv) as [I1 _]. destruct (seen_extends others _ Ho d1 I1) as [I2 _]. fold d1 d2 in I1, I2.
  assert (snapshots_from (compiled_from service jsonb) d2) as Hs2.
  { eapply changes_snapshots; [apply _|exact (seen_evolves others _ Ho d1 I1)|done|].
    eapply changes_snapshots; [apply _|exact (seen_evolves others _ Ho db Hinv)|done..]. }
  cbn [Repository_ResolveProductionDefinition store_repository]. unfold calling, ResolveProductionDefinition, GetWorkflow, getWorkflow.
  destruct (workflow_row d2 projectID workflowID) as [row|] eqn:Hrow.
  - rewrite (tx_step _ _ _ d2 (ww_Workflow row)).
    2:{ apply pool_Ok. unfold query, mbind, tx_bind, tx_get, tx_lift. fold d2. by rewrite Hrow. }
    destruct (wf_ActiveVersionID (ww_Workflow row)) as [k|] eqn:Hact; [|done].
    pose proof Hrow as [Hw Hp]%workflow_row_Some. destruct (di_workflow _ I2 _ _ Hw) as (_ & _ & Hv). destruct (Hv _ Hact) as [v Hvk]. rewrite Hp in Hvk.
    pose proof Hvk as [Hv2 [Hvp Hvw]]%version_by_id_Some. destruct (di_version _ I2 _ _ Hv2) as (_ & _ & _ & [s Hs] & _). rewrite Hvp, Hvw in Hs.
    destruct (seen_extends others _ Ho d2 I2) as [_ E3]. fold d3 in E3. exists v, s. split_and!; [|done|done|].
    + rewrite (tx_step _ _ _ d3 (v, s)); [done|]. apply pool_Ok. fold d3.
      unfold getVersionAndSnapshotByID, query, mbind, tx_bind, tx_get, tx_lift. rewrite (extends_version _ _ E3 _ _ _ _ Hvk). cbn.
      by rewrite (extends_snapshot _ _ E3 _ _ _ _ Hs).
    + apply snapshot_by_id_Some in Hs as [Hs _]. by eapply Hs2.
  - unfold mbind, tx_bind. unfold mbind, tx_bind. erewrite pool_Err; [|unfold query, mbind, tx_bind, tx_get, tx_lift; fold d2; by rewrite Hrow].
    cbn. f_equal. fold d2. by destruct d2.
Qed.

Lemma production_decides_witness :
  (@Service_ResolveProductionDefinition DefDB (store_repository sample_clock nobody id String.eqb (λ _ _, None))
     (@access_authorizer DefDB (store_access sample_clock nobody)) "shop" "ann" "w1" created).2
  = Failed (repositoryError "resolve production definition" ErrWorkflowNotPublished).
Proof.
  pose proof (production_decides sample_clock nobody id String.eqb (λ _ _, None) sample_service "shop" "ann" "w1" created (nobody_evolves _)
    (proj1 created_inv) (proj2 created_inv)) as H. cbv zeta in H.
  assert (has_permission (df_access (seen nobody created)) "shop" "ann" PermissionRunCreate = true) as Hp by (vm_compute; reflexivity).
  assert (wf_ActiveVersionID ∘ ww_Workflow <$> workflow_row (seen nobody (seen nobody created)) "shop" "w1" = Some None) as Ha by (vm_compute; reflexivity).
  rewrite Hp in H. destruct (workflow_row _ _ _) as [row|]; [|discriminate Ha]. cbn in Ha. injection Ha as Ha. rewrite Ha in H.
  rewrite H. reflexivity.
Defined.

(** ** The limits of a request

    A draft is hashed inside a request, under the limits of a draft: one that
    is nested as deeply as a draft may be is accepted and cannot be stored. *)

Fixpoint repeated (n : nat) (s : string) : string := match n with O => "" | S n => s +:+ repeated n s end.

(** A draft with an input whose value is [n] empty lists inside each other. *)
Definition nested_draft (n : nat) : string :=
  let input := marshal_object [("name", marshal_string "x"); ("value", repeated n "[" +:+ repeated n "]")] in
  let node := marshal_object [("id", marshal_string "n"); ("inputs", "[" +:+ input +:+ "]")] in
  marshal_object [("ir_version", marshal_string "v1"); ("nodes", "[" +:+ node +:+ "]"); ("edges", "[]"); ("layout", "{}")].

Example nested_draft_unstorable :
  match parseDraft (nested_draft 59) with
  | inr (_, canonical) =>
      requestHash (create_request "Orders" canonical) =
        Err (Prefix "canonicalize idempotent request" (Errorf "%s" ["IR exceeds the JSON nesting depth limit"]))
  | inl _ => False
  end.
Proof. vm_compute. reflexivity. Qed.
