(* ===== verification/Branch.v ===== *)
(** * Branch evaluation

    Models internal/runtime/engine/branch.go: the decoding of a branch
    configuration, path lookup, and the comparison operators over decoded JSON
    values.  A comparison of two objects visits the members in map order, given
    as a [range_order]. *)

From Stdlib Require Import Ascii QArith.
From S2P Require Import Prelude Json Dsl.

Open Scope string_scope.
Open Scope list_scope.
Open Scope Z_scope.

Definition FailureBranchPathNotFound : string := "BRANCH_PATH_NOT_FOUND".
Definition FailureBranchOperatorMismatch : string := "BRANCH_OPERATOR_TYPE_MISMATCH".

Record branchCase : Type := MkBranchCase {
  bc_Route : string; bc_Path : string; bc_Operator : string; bc_Value : string }.

#[export] Instance branchCase_eta : Eta branchCase := λ c,
  MkBranchCase (bc_Route c) (bc_Path c) (bc_Operator c) (bc_Value c).

(** ** Decoding the configuration *)

(** A string field of a struct: null leaves it alone, another type is an
    error. *)
Definition decode_string_field (old : string) (v : jsyn) : option string :=
  match v with SStr x => Some x | SNull => Some old | _ => None end.

Definition decode_case_member (acc : option branchCase) (member : string * string * jsyn) : option branchCase :=
  let '(key, raw, v) := member in
  c ← acc;
  if field_is "route" key then (λ s, c <| bc_Route := s |>) <$> decode_string_field (bc_Route c) v
  else if field_is "path" key then (λ s, c <| bc_Path := s |>) <$> decode_string_field (bc_Path c) v
  else if field_is "operator" key then (λ s, c <| bc_Operator := s |>) <$> decode_string_field (bc_Operator c) v
  else if field_is "value" key then Some (c <| bc_Value := raw |>)
  else Some c.

Definition decode_branch_case (s : jsyn) : option branchCase :=
  match s with
  | SObj m => fold_left decode_case_member m (Some (MkBranchCase "" "" "" ""))
  | SNull => Some (MkBranchCase "" "" "" "")
  | _ => None
  end.

Definition decode_branch (n : Node) : option (list branchCase * string) :=
  cases ← unmarshal_syn (default "" (config n !! "cases")) ≫= decode_list decode_branch_case;
  fallback ← unmarshal_string (default "" (config n !! "default_route"));
  Some (cases, fallback).

Definition decodeJSON (raw : string) : res json :=
  match decode_any raw with Some j => Ok j | None => Err (Errorf "invalid JSON text" []) end.

(** ** Operands *)

Fixpoint lookup_segments (current : json) (segments : list string) : option json :=
  match segments with
  | [] => Some current
  | s :: r => match current with JObj m => next ← obj_lookup s m; lookup_segments next r | _ => None end
  end.

Definition lookupPath (value : json) (path : string) : option json := lookup_segments value (split_dots path).

Definition rational (value : json) : option Q :=
  match value with JNum l => rat_set_string l | _ => None end.

Definition comparableKinds (left right : json) : bool :=
  match rational left, rational right with
  | Some _, Some _ => true
  | Some _, None | None, Some _ => false
  | None, None =>
      match left, right with
      | JNull, JNull | JStr _, JStr _ | JBool _, JBool _ | JArr _, JArr _ | JObj _, JObj _ => true
      | _, _ => false
      end
  end.

(** The loop [if err != nil || !equal { return false, err }]. *)
Fixpoint all_equal (results : list (res bool)) : res bool :=
  match results with
  | [] => Ok true
  | Ok true :: r => all_equal r
  | Ok false :: _ => Ok false
  | Err e :: _ => Err e
  end.

Section Order.
Context (order : range_order).

(** Members of an object comparison in the order of the loop. *)
Definition in_range_order (results : list (string * res bool)) : list (res bool) :=
  omap (λ k, obj_lookup k results) (order 0%nat "equalJSON" results.*1).

Fixpoint equalJSON (left right : json) : res bool :=
  match rational left, rational right with
  | Some a, Some b => Ok (Qeq_bool a b)
  | Some _, None | None, Some _ => Ok false
  | None, None =>
      match left with
      | JNull => Ok (match right with JNull => true | _ => false end)
      | JStr a => Ok (match right with JStr b => bool_decide (a = b) | _ => false end)
      | JBool a => Ok (match right with JBool b => Bool.eqb a b | _ => false end)
      | JArr items =>
          match right with
          | JArr items' =>
              if negb (Nat.eqb (length items) (length items')) then Ok false
              else all_equal (zip_with equalJSON items items')
          | _ => Ok false
          end
      | JObj members =>
          match right with
          | JObj members' =>
              if negb (Nat.eqb (length members) (length members')) then Ok false
              else all_equal (in_range_order (map (λ '(k, v),
                     (k, match obj_lookup k members' with Some w => equalJSON v w | None => Ok false end)) members))
          | _ => Ok false
          end
      | JNum _ => Err (Errorf "unsupported JSON value type" [])
      end
  end.

(** ** Strings *)

Fixpoint str_contains (s sub : string) : bool :=
  String.prefix sub s || match s with "" => false | String _ r => str_contains r sub end.
Definition has_suffix (s suffix : string) : bool :=
  bool_decide (String.length suffix ≤ String.length s)%nat
  && bool_decide (String.substring (String.length s - String.length suffix) (String.length suffix) s = suffix).

(** The loop of [contains] over an array. *)
Fixpoint array_contains (items : list json) (expected : json) : res bool :=
  match items with
  | [] => Ok false
  | x :: r => equal ← equalJSON x expected; if equal : bool then Ok true else array_contains r expected
  end.

(** ** Operators *)

Definition flip_if (b : bool) (r : res bool) : res bool := xorb b <$> r.

Definition compare_numbers (operator : string) (c : comparison) : bool :=
  if bool_decide (operator = "gt") then bool_decide (c = Gt)
  else if bool_decide (operator = "gte") then negb (bool_decide (c = Lt))
  else if bool_decide (operator = "lt") then bool_decide (c = Lt)
  else negb (bool_decide (c = Gt)).

Definition compareBranch (actual : json) (operator : string) (expected : json) : res bool :=
  if one_of equality_operators operator then
    guard_err (negb (comparableKinds actual expected))
      (Errorf "equality operands have incompatible JSON types" []) ;;
    flip_if (bool_decide (operator = "neq")) (equalJSON actual expected)
  else if one_of order_operators operator then
    match rational actual, rational expected with
    | Some l, Some r => Ok (compare_numbers operator (Qcompare l r))
    | _, _ => Err (Errorf "numeric operator requires numbers" [])
    end
  else if one_of ["contains"; "not_contains"] operator then
    flip_if (bool_decide (operator = "not_contains"))
      match actual with
      | JStr s =>
          match expected with
          | JStr sub => Ok (str_contains s sub)
          | _ => Err (Errorf "string contains requires a string" [])
          end
      | JArr items => array_contains items expected
      | _ => Err (Errorf "contains requires string or array" [])
      end
  else if one_of ["starts_with"; "ends_with"] operator then
    match actual, expected with
    | JStr l, JStr r => Ok (if bool_decide (operator = "starts_with") then String.prefix r l else has_suffix l r)
    | _, _ => Err (Errorf "string operator requires strings" [])
    end
  else if one_of ["has_key"; "not_has_key"] operator then
    match actual, expected with
    | JObj m, JStr k => Ok (xorb (bool_decide (operator = "not_has_key")) (bool_decide (is_Some (obj_lookup k m))))
    | _, _ => Err (Errorf "has_key requires object and string" [])
    end
  else Err (Errorf "operator %q is unsupported" [quote operator]).

(** ** Evaluation *)

Definition branch_error (code : string) (n : Node) (field : string) (cause : option error) : error :=
  EngineError code (nd_ID n) field cause.

(** One case: does it match? *)
Definition evaluate_case (n : Node) (value : json) (index : nat) (c : branchCase) : res bool :=
  let field := "operation.config.cases." +:+ pretty index in
  let mismatch f e := Err (branch_error FailureBranchOperatorMismatch n f (Some e)) in
  match (if bool_decide (bc_Path c = "") then Some value else lookupPath value (bc_Path c)) with
  | None => Err (branch_error FailureBranchPathNotFound n (field +:+ ".path") None)
  | Some actual =>
      match decodeJSON (bc_Value c) with
      | Err e => mismatch (field +:+ ".value") e
      | Ok expected =>
          match compareBranch actual (bc_Operator c) expected with
          | Err e => mismatch field e
          | Ok matched => Ok matched
          end
      end
  end.

Fixpoint evaluate_cases (n : Node) (value : json) (index : nat) (cases : list branchCase) (fallback : string)
    : res string :=
  match cases with
  | [] => Ok fallback
  | c :: r =>
      matched ← evaluate_case n value index c;
      if matched : bool then Ok (bc_Route c) else evaluate_cases n value (S index) r fallback
  end.

Definition evaluateBranch (n : Node) (raw : string) : res string :=
  match decode_branch n with
  | None => Err (branch_error FailureBranchOperatorMismatch n "operation.config" None)
  | Some (cases, fallback) =>
      match decodeJSON raw with
      | Err e => Err (branch_error FailureBranchOperatorMismatch n "inputs.value" (Some e))
      | Ok value => evaluate_cases n value 0 cases fallback
      end
  end.
End Order.

(** ** The values that JSON texts denote

    A number denotes a rational in lowest terms, an object its members in key
    order; [None] where a number exceeds what [big.Rat] reads. *)

Inductive value : Type :=
  | VNull
  | VBool (b : bool)
  | VNum (q : Q)
  | VStr (s : string)
  | VArr (items : list value)
  | VObj (members : list (string * value)).

Fixpoint denote (j : json) : option value :=
  match j with
  | JNull => Some VNull
  | JBool b => Some (VBool b)
  | JNum l => VNum ∘ Qred <$> rat_set_string l
  | JStr s => Some (VStr s)
  | JArr l => VArr <$> mapM denote l
  | JObj m => VObj <$> mapM (λ p, pair p.1 <$> denote p.2) m
  end.

(** Keys of every object are distinct and in order, as [to_any] builds them. *)
Fixpoint sorted_json (j : json) : Prop :=
  match j with
  | JArr l => foldr (λ x P, sorted_json x ∧ P) True l
  | JObj m => StronglySorted String.le (map fst m) ∧ NoDup (map fst m) ∧ foldr (λ p P, sorted_json p.2 ∧ P) True m
  | _ => True
  end.

Lemma obj_lookup_elem {A} (m : list (string * A)) k v :
  NoDup m.*1 → obj_lookup k m = Some v ↔ (k, v) ∈ m.
Proof.
  induction m as [|[k' v'] m IH]; simpl; intros Hnd; [set_solver|].
  apply NoDup_cons in Hnd as [Hk Hnd]. rewrite elem_of_cons. case_bool_decide as Heq.
  - subst k'. split; [intros [= ->]; auto|]. intros [[= ->]|Hin]; [done|].
    destruct Hk. apply list_elem_of_fmap. by exists (k, v).
  - rewrite (IH Hnd). split; [auto|]. intros [[= -> ->]|]; done.
Qed.

(** The loop over results that are all decided. *)
Lemma all_equal_spec (l : list (res bool)) (P : Prop) :
  Forall (λ r, ∃ b, r = Ok b) l → (P ↔ Forall (λ r, r = Ok true) l) →
  ∃ b, all_equal l = Ok b ∧ (b = true ↔ P).
Proof.
  intros Hl HP. setoid_rewrite HP. clear HP P.
  induction Hl as [|r l [b ->] _ (b' & IH1 & IH2)]; simpl; [by exists true|].
  destruct b.
  - exists b'. split; [done|]. rewrite IH2, Forall_cons. tauto.
  - exists false. split; [done|]. rewrite Forall_cons. split; [done|]. by intros [[=] _].
Qed.

Lemma forall_in_range_order order (results : list (string * res bool)) (P : res bool → Prop) :
  NoDup results.*1 → Forall P (in_range_order order results) ↔ Forall P results.*2.
Proof.
  intros Hnd. unfold in_range_order. rewrite !Forall_forall. split.
  - intros H r ([k r'] & -> & Hin)%list_elem_of_fmap. apply H, list_elem_of_omap. exists k.
    split; [rewrite (range_perm_ok order); apply list_elem_of_fmap; by exists (k, r')|].
    by apply obj_lookup_elem.
  - intros H r (k & _ & Hk)%list_elem_of_omap. apply obj_lookup_elem in Hk; [|done].
    apply H, list_elem_of_fmap. by exists (k, r).
Qed.

Lemma rational_denote j v : denote j = Some v →
  match rational j with Some q => v = VNum (Qred q) | None => ∀ q, v ≠ VNum q end.
Proof.
  destruct j; simpl; intros H; simplify_eq; try done;
    repeat (apply fmap_Some in H as (? & H & ->)); try done. by rewrite H.
Qed.

Lemma denote_arr l v : denote (JArr l) = Some v → ∃ vs, v = VArr vs ∧ Forall2 (λ j w, denote j = Some w) l vs.
Proof. simpl. intros (vs & Hvs & ->)%fmap_Some. exists vs. split; [done|]. by apply mapM_Some. Qed.

Lemma denote_obj m v : denote (JObj m) = Some v →
  ∃ vs, v = VObj vs ∧ Forall2 (λ p q, p.1 = q.1 ∧ denote p.2 = Some q.2) m vs.
Proof.
  simpl. intros (vs & Hvs & ->)%fmap_Some. exists vs. split; [done|].
  apply mapM_Some in Hvs. eapply Forall2_impl; [exact Hvs|].
  intros [k j] [k' w] H. simpl in *. apply fmap_Some in H as (w' & Hw & [= -> ->]). done.
Qed.

Section EqualJSON.
Context (order : range_order).

Definition decides (a : json) : Prop := ∀ b va vb,
  denote a = Some va → denote b = Some vb → sorted_json a → sorted_json b →
  ∃ eq, equalJSON order a b = Ok eq ∧ (eq = true ↔ va = vb).

Lemma equal_arrays l l' vs vs' :
  Forall decides l → length l = length l' →
  Forall2 (λ j w, denote j = Some w) l vs → Forall2 (λ j w, denote j = Some w) l' vs' →
  sorted_json (JArr l) → sorted_json (JArr l') →
  ∃ eq, all_equal (zip_with (equalJSON order) l l') = Ok eq ∧ (eq = true ↔ vs = vs').
Proof.
  intros Hl Hlen H1 H2 S1 S2.
  assert (Forall (λ r, ∃ b, r = Ok b) (zip_with (equalJSON order) l l') ∧
          (vs = vs' ↔ Forall (λ r, r = Ok true) (zip_with (equalJSON order) l l'))) as [Ha Hb];
    [|by apply all_equal_spec].
  revert l' vs' Hlen H2 S2. induction H1 as [|j v l vs Hj H1 IH]; intros [|j' l'] vs' Hlen H2 S2; try done.
  - inversion H2; subst. simpl. by rewrite !Forall_nil.
  - inversion H2 as [|? v' ? vs2 Hj' H2']; subst. simpl in S1, S2 |- *.
    apply Forall_cons in Hl as [Hd Hl]. destruct S1 as [S1 S1'], S2 as [S2 S2'].
    destruct (Hd j' v v' Hj Hj' S1 S2) as (eq & He & Heq).
    destruct (IH Hl S1' l' vs2) as [IHa IHb]; [simpl in Hlen; lia|done..|].
    rewrite He, !Forall_cons. split; [eauto|]. rewrite <-IHb.
    split; [intros [= -> ->]; split; [|done]; f_equal; by apply Heq|].
    intros [[= ->] ->]. f_equal. by apply Heq.
Qed.

(** Two objects with as many members: equal when every member of the first
    has an equal one in the second. *)
Lemma equal_members m m' vs vs' :
  Forall2 (λ p q, p.1 = q.1 ∧ denote p.2 = Some q.2) m vs →
  Forall2 (λ p q, p.1 = q.1 ∧ denote p.2 = Some q.2) m' vs' →
  StronglySorted String.le (map fst m) → StronglySorted String.le (map fst m') →
  NoDup (map fst m) → NoDup (map fst m') → length m = length m' →
  (∀ k v w, (k, v) ∈ m → (k, w) ∈ m' → denote v = denote w) →
  (∀ k, k ∈ map fst m → k ∈ map fst m') → vs = vs'.
Proof.
  intros H1 H2 S1 S2 N1 N2 Hlen Heq Hkeys.
  assert (map fst m = map fst m') as Hk.
  { apply (StronglySorted_unique String.le); [done|done|].
    apply submseteq_length_Permutation; [by apply NoDup_submseteq|rewrite !length_map; lia]. }
  clear S1 S2 Hkeys N1 Hlen.
  revert m' vs' H2 N2 Heq Hk; induction H1 as [|[k j] [k0 v] m vs [Hk0 Hj] H1 IH];
    intros m' vs' H2 N2 Heq Hk; simpl in *.
  - destruct m'; [|done]. by inversion H2.
  - destruct m' as [|[k' j'] m']; [done|]. inversion H2 as [|? [k1 v'] ? vs2 [Hk1 Hj'] H2']; subst. simpl in *.
    injection Hk as <- Hk. apply NoDup_cons in N2 as [_ N2].
    assert (denote j = denote j') as Hd by (apply (Heq k0); set_solver).
    f_equal; [f_equal; congruence|]. eapply IH; eauto.
    intros k v1 w ? ?. apply (Heq k); set_solver.
Qed.

Definition member_result (m' : list (string * json)) (p : string * json) : res bool :=
  match obj_lookup p.1 m' with Some w => equalJSON order p.2 w | None => Ok false end.

Lemma sorted_members (m : list (string * json)) p : foldr (λ p P, sorted_json p.2 ∧ P) True m → p ∈ m → sorted_json p.2.
Proof. induction m as [|x m IH]; simpl; [set_solver|]. intros [? ?] [->|?]%elem_of_cons; auto. Qed.

Lemma denoted_member m vs k v :
  Forall2 (λ p q : string * _, p.1 = q.1 ∧ denote p.2 = Some q.2) m vs → (k, v) ∈ m →
  ∃ w, (k, w) ∈ vs ∧ denote v = Some w.
Proof.
  intros HF [i Hi]%list_elem_of_lookup.
  destruct (Forall2_lookup_l _ _ _ _ _ HF Hi) as ([k' w] & Hw & [Hk Hd]). simpl in *. subst.
  exists w. split; [by apply list_elem_of_lookup_2 in Hw|done].
Qed.

Lemma denoted_keys m vs :
  Forall2 (λ p q : string * _, p.1 = q.1 ∧ denote p.2 = Some q.2) m vs → vs.*1 = map fst m.
Proof. induction 1 as [|p q m vs [Hk _] _ IH]; [done|]. rewrite fmap_cons. cbn [map]. by rewrite <-Hk, IH. Qed.

Lemma member_results m m' vs vs' :
  Forall (λ p : string * json, decides p.2) m →
  Forall2 (λ p q, p.1 = q.1 ∧ denote p.2 = Some q.2) m vs →
  Forall2 (λ p q, p.1 = q.1 ∧ denote p.2 = Some q.2) m' vs' →
  sorted_json (JObj m) → sorted_json (JObj m') → length m = length m' →
  Forall (λ r, ∃ b, r = Ok b) (member_result m' <$> m) ∧
  (vs = vs' ↔ Forall (λ r, r = Ok true) (member_result m' <$> m)).
Proof.
  intros Hd H1 H2 (S1 & N1 & M1) (S2 & N2 & M2) Hlen.
  assert (∀ k v w, (k, v) ∈ m → (k, w) ∈ m' → ∃ va vb eq, (k, va) ∈ vs ∧ (k, vb) ∈ vs' ∧
     denote v = Some va ∧ denote w = Some vb ∧ member_result m' (k, v) = Ok eq ∧ (eq = true ↔ va = vb)) as Hone.
  { intros k v w Hv Hw. destruct (denoted_member _ _ _ _ H1 Hv) as (va & ? & Hva).
    destruct (denoted_member _ _ _ _ H2 Hw) as (vb & ? & Hvb). rewrite Forall_forall in Hd.
    destruct (Hd (k, v) Hv w va vb Hva Hvb) as (eq & He & Heq);
      [by apply (sorted_members m (k, v))|by apply (sorted_members m' (k, w))|].
    exists va, vb, eq. split_and!; try done. unfold member_result. simpl.
    assert (obj_lookup k m' = Some w) as -> by (by apply obj_lookup_elem). done. }
  rewrite !Forall_fmap, !Forall_forall. split.
  - intros [k v] Hv. unfold compose. destruct (obj_lookup k m') as [w|] eqn:Hw.
    + apply obj_lookup_elem in Hw; [|done]. destruct (Hone k v w Hv Hw) as (? & ? & eq & _ & _ & _ & _ & -> & _). eauto.
    + unfold member_result. simpl. rewrite Hw. eauto.
  - split.
    + intros <- [k v] Hv. unfold compose.
      assert (k ∈ map fst m') as ([k' w] & Hk' & Hw)%list_elem_of_fmap.
      { rewrite <-(denoted_keys _ _ H2), (denoted_keys _ _ H1). apply list_elem_of_fmap. by exists (k, v). }
      simpl in Hk'. subst k'.
      destruct (Hone k v w Hv Hw) as (va & vb & eq & Ha & Hb & _ & _ & -> & Heq). f_equal. apply Heq.
      assert (NoDup vs.*1) as Hnd by (by rewrite (denoted_keys _ _ H1)).
      apply obj_lookup_elem in Ha, Hb; [|done..]. congruence.
    + intros Hall. eapply (equal_members m m'); eauto.
      * intros k v w Hv Hw. destruct (Hone k v w Hv Hw) as (va & vb & eq & _ & _ & -> & -> & Hr & Heq).
        specialize (Hall _ Hv). unfold compose in Hall. rewrite Hr in Hall. injection Hall as ->. f_equal. by apply Heq.
      * intros k ([k' v] & -> & Hv)%list_elem_of_fmap. specialize (Hall _ Hv). unfold compose, member_result in Hall.
        simpl in *. destruct (obj_lookup k' m') as [w|] eqn:Hw; [|done].
        apply obj_lookup_elem in Hw; [|done]. apply list_elem_of_fmap. by exists (k', w).
Qed.

(** A number on either side settles the comparison. *)
Lemma equalJSON_number a b va vb :
  denote a = Some va → denote b = Some vb → is_Some (rational a) ∨ is_Some (rational b) →
  ∃ eq, equalJSON order a b = Ok eq ∧ (eq = true ↔ va = vb).
Proof.
  intros Ha Hb Hn. pose proof (rational_denote _ _ Ha) as Ra. pose proof (rational_denote _ _ Hb) as Rb.
  assert (equalJSON order a b = match rational a, rational b with
    | Some x, Some y => Ok (Qeq_bool x y) | _, _ => Ok false end) as ->.
  { destruct a, b; simpl in *; try (by destruct Hn as [[? ?]|[? ?]]);
      destruct (rat_set_string _); try done; try (destruct (rat_set_string _); done);
      by destruct Hn as [[? ?]|[? ?]]. }
  destruct (rational a) as [x|], (rational b) as [y|]; subst.
  - exists (Qeq_bool x y). split; [done|]. rewrite Qeq_bool_iff. split.
    + intros H. f_equal. by apply Qred_complete.
    + intros [= H]. by rewrite <-(Qred_correct x), H, Qred_correct.
  - exists false. split; [done|]. split; [done|]. intros Heq. by destruct (Rb (Qred x)).
  - exists false. split; [done|]. split; [done|]. intros Heq. by destruct (Ra (Qred y)).
  - by destruct Hn as [[? ?]|[? ?]].
Qed.

(** [equalJSON] decides equality of the denoted values, in any visiting order. *)
Lemma equalJSON_decides a : decides a.
Proof.
  induction a as [|x|l|s|l IH|m IH] using json_ind'; intros b va vb Ha Hb Sa Sb;
    destruct (rational b) as [y|] eqn:Rb; try (eapply equalJSON_number; eauto; done).
  - cbn [equalJSON rational]. rewrite Rb. simpl in Ha. injection Ha as <-. eexists. split; [done|].
    destruct b; simpl in *; repeat (apply fmap_Some in Hb as (? & Hb & ->)); naive_solver.
  - cbn [equalJSON rational]. rewrite Rb. simpl in Ha. injection Ha as <-. eexists. split; [done|].
    destruct b; simpl in *; repeat (apply fmap_Some in Hb as (? & Hb & ->)); rewrite ?Bool.eqb_true_iff; naive_solver.
  - simpl in Ha. apply fmap_Some in Ha as (q & Hq & ->).
    eapply equalJSON_number; [simpl; by rewrite Hq|done|]. left. simpl. by rewrite Hq.
  - cbn [equalJSON rational]. rewrite Rb. simpl in Ha. injection Ha as <-. eexists. split; [done|].
    destruct b; simpl in *; repeat (apply fmap_Some in Hb as (? & Hb & ->)); rewrite ?bool_decide_eq_true; naive_solver.
  - apply denote_arr in Ha as (vs & -> & Hvs). cbn [equalJSON rational]. rewrite Rb.
    destruct b as [| | | |l'|m']; try (eexists; split; [done|]; simpl in Hb;
      repeat (apply fmap_Some in Hb as (? & Hb & ->)); naive_solver).
    apply denote_arr in Hb as (vs' & -> & Hvs'). destruct (Nat.eqb _ _) eqn:Hlen; simpl.
    + apply Nat.eqb_eq in Hlen. destruct (equal_arrays l l' vs vs') as (eq & -> & Heq); auto.
      exists eq. split; [done|]. rewrite Heq. naive_solver.
    + apply Nat.eqb_neq in Hlen. exists false. split; [done|]. split; [done|]. intros [= <-].
      apply Forall2_length in Hvs, Hvs'. lia.
  - apply denote_obj in Ha as (vs & -> & Hvs). cbn [equalJSON rational]. rewrite Rb.
    destruct b as [| | | |l'|m']; try (eexists; split; [done|]; simpl in Hb;
      repeat (apply fmap_Some in Hb as (? & Hb & ->)); naive_solver).
    apply denote_obj in Hb as (vs' & -> & Hvs'). destruct (Nat.eqb _ _) eqn:Hlen; simpl.
    + apply Nat.eqb_eq in Hlen. destruct (member_results m m' vs vs') as [Hok Heq]; auto.
      set (results := map _ m).
      assert (results.*1 = map fst m) as Hkeys.
      { subst results. clear. induction m as [|[k v] m IH]; [done|]. cbn [map]. by rewrite fmap_cons, IH. }
      assert (results.*2 = member_result m' <$> m) as Hres.
      { subst results. clear. induction m as [|[k v] m IH]; [done|]. cbn [map]. by rewrite fmap_cons, IH. }
      destruct (all_equal_spec (in_range_order order results) (vs = vs')) as (eq & -> & He).
      * rewrite forall_in_range_order, Hres by (rewrite Hkeys; apply Sa). done.
      * rewrite forall_in_range_order, Hres by (rewrite Hkeys; apply Sa). done.
      * exists eq. split; [done|]. rewrite He. naive_solver.
    + apply Nat.eqb_neq in Hlen. exists false. split; [done|]. split; [done|]. intros [= <-].
      apply Forall2_length in Hvs, Hvs'. lia.
Qed.
End EqualJSON.

(** ** Decoded values are sorted *)

Lemma obj_insert_keys {A} k (v : A) m k' : k' ∈ (obj_insert k v m).*1 ↔ k' = k ∨ k' ∈ m.*1.
Proof.
  induction m as [|[k0 v0] m IH]; simpl; [set_solver|].
  destruct (String.compare k k0) eqn:Hc; simpl; rewrite ?fmap_cons, ?elem_of_cons, ?IH; simpl; try set_solver.
  apply String.compare_eq_iff in Hc. subst. set_solver.
Qed.

Lemma compare_lt_le k k' : String.compare k k' = Lt → String.le k k' ∧ k ≠ k'.
Proof.
  intros Hc. unfold String.le, String.leb. rewrite Hc. split; [done|]. intros ->.
  pose proof (String.compare_antisym k' k') as Ha. by rewrite Hc in Ha.
Qed.

Definition keys_ok {A} (m : list (string * A)) : Prop := StronglySorted String.le m.*1 ∧ NoDup m.*1.

Lemma obj_insert_ok {A} k (v : A) m : keys_ok m → keys_ok (obj_insert k v m).
Proof.
  unfold keys_ok. induction m as [|[k0 v0] m IH]; intros [Hs Hnd].
  { split; [repeat constructor|apply NoDup_singleton]. }
  cbn [obj_insert]. rewrite fmap_cons in Hs, Hnd. cbn [fst] in *.
  apply StronglySorted_inv in Hs as [Hs Hf]. apply NoDup_cons in Hnd as [Hk Hnd]. rewrite Forall_forall in Hf.
  destruct (String.compare k k0) eqn:Hc; rewrite !fmap_cons; cbn [fst].
  - apply String.compare_eq_iff in Hc. subst. split; [|by constructor].
    constructor; [done|]. by apply Forall_forall.
  - apply compare_lt_le in Hc as [Hle Hne]. split.
    + constructor; [constructor; [done|by apply Forall_forall]|].
      constructor; [done|]. apply Forall_forall. intros x Hx. etrans; [exact Hle|]. by apply Hf.
    + constructor; [|by constructor]. rewrite elem_of_cons. intros [->|Hin]; [done|].
      specialize (Hf _ Hin). destruct Hne. by apply (anti_symm String.le).
  - rewrite String.compare_antisym in Hc. destruct (String.compare k0 k) eqn:Hc'; try done.
    apply compare_lt_le in Hc' as [Hle Hne]. destruct (IH (conj Hs Hnd)) as [IHs IHn]. split.
    + constructor; [done|]. apply Forall_forall. intros x [->|Hx]%obj_insert_keys; auto.
    + constructor; [|done]. rewrite obj_insert_keys. intros [->|?]; done.
Qed.

Lemma obj_insert_all {A} (P : A → Prop) k v (m : list (string * A)) :
  P v → Forall (λ p, P p.2) m → Forall (λ p, P p.2) (obj_insert k v m).
Proof.
  intros Hv. induction 1 as [|[k0 v0] m Hp Hm IH]; simpl; [by repeat constructor|].
  destruct (String.compare k k0); repeat constructor; auto.
Qed.

Lemma jsyn_ind' (P : jsyn → Prop) :
  P SNull → (∀ b, P (SBool b)) → (∀ l, P (SNum l)) → (∀ s, P (SStr s)) →
  (∀ l, Forall P l → P (SArr l)) → (∀ m, Forall (λ p, P p.2) m → P (SObj m)) → ∀ s, P s.
Proof.
  intros HN HB HM HS HA HO. fix rec 1. intros [| b | l | s | l | m].
  - exact HN.
  - apply HB.
  - apply HM.
  - apply HS.
  - apply HA. revert l. fix go 1. intros [|j l]; constructor; [apply rec | apply go].
  - apply HO. revert m. fix go 1. intros [|[[k r] j] m]; constructor; [apply rec | apply go].
Qed.

Lemma sorted_json_forall {A} (f : A → json) (l : list A) :
  foldr (λ x P, sorted_json (f x) ∧ P) True l ↔ Forall (λ x, sorted_json (f x)) l.
Proof. induction l as [|x l IH]; simpl; [by rewrite Forall_nil|]. by rewrite IH, Forall_cons. Qed.

Lemma to_any_sorted s : sorted_json (to_any s).
Proof.
  induction s as [| | | |l IH|m IH] using jsyn_ind'; simpl; try done.
  - apply (sorted_json_forall id). induction IH; constructor; auto.
  - assert (∀ acc, keys_ok acc → Forall (λ p : string * json, sorted_json p.2) acc →
      let out := fold_left (λ acc '(k, _, v), obj_insert k (to_any v) acc) m acc in
      keys_ok out ∧ Forall (λ p : string * json, sorted_json p.2) out) as H.
    { induction IH as [|[[k r] v] m Hv _ IHm]; intros acc Hk Hf; simpl; [done|].
      apply IHm; [by apply obj_insert_ok|by apply obj_insert_all]. }
    destruct (H []) as [[Hs Hn] Hf]; [split; constructor|constructor|].
    split_and!; [done..|]. by apply (sorted_json_forall snd).
Qed.

Lemma decode_any_sorted raw j : decode_any raw = Some j → sorted_json j.
Proof. unfold decode_any. intros ([s r] & _ & ->)%fmap_Some. apply to_any_sorted. Qed.

(** ** Routes *)

Lemma decode_member_route acc m c : fold_left decode_case_member m acc = Some c →
  ∃ c0, acc = Some c0 ∧ bc_Route c = fold_left (λ r '(k, _, v),
      if field_is "route" k then match v with SStr x => x | _ => r end else r) m (bc_Route c0).
Proof.
  revert acc; induction m as [|[[k raw] v] m IH]; intros acc H; simpl in *; [by subst; eauto|].
  apply IH in H as (c1 & H & ->). destruct acc as [c0|]; [|done]. exists c0. split; [done|]. f_equal.
  simpl in H. repeat case_match; simplify_eq/=; try done;
    apply fmap_Some in H as (s & Hs & ->); simpl; try done;
    unfold decode_string_field in Hs; repeat case_match; simplify_eq; done.
Qed.

Lemma decode_case_route s c : decode_branch_case s = Some c → bc_Route c = lenient_route s.
Proof.
  destruct s; simpl; intros H; simplify_eq; try done.
  apply decode_member_route in H as (c0 & [= <-] & ->). done.
Qed.

Lemma decode_branch_routes n cases fallback :
  decode_branch n = Some (cases, fallback) → (bc_Route <$> cases) ⊆ declared_routes n ∧ fallback ∈ declared_routes n.
Proof.
  unfold decode_branch, declared_routes, lenient_routes, lenient_string, unmarshal_string.
  intros (cases' & Hc & (f & Hf & [= <- <-])%bind_Some)%bind_Some.
  apply bind_Some in Hc as (syn & -> & Hc). apply bind_Some in Hf as (syn' & -> & Hf). split.
  - intros r (c & -> & Hin)%list_elem_of_fmap. apply elem_of_cons. right.
    unfold decode_list in Hc. destruct syn as [| | | |l|]; simplify_eq; [set_solver|].
    apply mapM_Some in Hc. apply list_elem_of_lookup in Hin as [i Hi].
    destruct (Forall2_lookup_r _ _ _ _ _ Hc Hi) as (s & Hs & Hd).
    apply list_elem_of_fmap. exists s. split; [by apply decode_case_route|by apply list_elem_of_lookup_2 in Hs].
  - destruct syn'; simpl in *; simplify_eq; set_solver.
Qed.

Section Routing.
Context (order : range_order) (n : Node) (v : json).

(** The first case that holds decides; if none does, the fallback. *)
Definition routes_to (cases : list branchCase) (fallback : string) (base : nat) (route : string) : Prop :=
  (∃ i c, cases !! i = Some c ∧ evaluate_case order n v (base + i) c = Ok true ∧ route = bc_Route c ∧
     ∀ j c', (j < i)%nat → cases !! j = Some c' → evaluate_case order n v (base + j) c' = Ok false) ∨
  route = fallback ∧ ∀ j c', cases !! j = Some c' → evaluate_case order n v (base + j) c' = Ok false.

Lemma evaluate_cases_first cases fallback base route :
  evaluate_cases order n v base cases fallback = Ok route → routes_to cases fallback base route.
Proof.
  revert base; induction cases as [|c cases IH]; intros base; simpl; intros H.
  { injection H as <-. right. split; [done|]. set_solver. }
  apply bind_Ok in H as ([] & Hc & H).
  - injection H as <-. left. exists 0%nat, c. rewrite Nat.add_0_r. split_and!; try done. lia.
  - apply IH in H as [(i & c' & Hi & He & -> & Hbefore)|[-> Hall]].
    + left. exists (S i), c'. rewrite <-plus_n_Sm. split_and!; try done.
      intros [|j] c'' Hj Hl; simpl in Hl; [simplify_eq; by rewrite Nat.add_0_r|].
      rewrite <-plus_n_Sm. apply Hbefore; [lia|done].
    + right. split; [done|]. intros [|j] c'' Hl; simpl in Hl; [simplify_eq; by rewrite Nat.add_0_r|].
      rewrite <-plus_n_Sm. by apply Hall.
Qed.
End Routing.

Lemma evaluateBranch_Ok order n raw route :
  evaluateBranch order n raw = Ok route →
  ∃ cases fallback v, decode_branch n = Some (cases, fallback) ∧ decode_any raw = Some v ∧
    routes_to order n v cases fallback 0 route ∧ route ∈ declared_routes n.
Proof.
  unfold evaluateBranch, decodeJSON. destruct (decode_branch n) as [[cases fallback]|] eqn:Hd; [|done].
  destruct (decode_any raw) as [v|]; [|done]. intros H%evaluate_cases_first.
  exists cases, fallback, v. split_and!; try done.
  apply decode_branch_routes in Hd as [Hc Hf].
  destruct H as [(i & c & Hi & _ & -> & _)|[-> _]]; [|done].
  apply Hc, list_elem_of_fmap. exists c. split; [done|by apply list_elem_of_lookup_2 in Hi].
Qed.

(** ** Properties *)

(** [equalJSON] compares values, not texts: on two decoded texts whose
    numbers are in the range of [big.Rat] it never fails, whatever order the
    object members are visited in, and it answers whether the texts denote the
    same value (numbers as rationals, objects as maps). *)
Theorem equal_json_semantic order left right a b va vb :
  decode_any left = Some a → decode_any right = Some b → denote a = Some va → denote b = Some vb →
  ∃ eq, equalJSON order a b = Ok eq ∧ (eq = true ↔ va = vb).
Proof.
  intros Ha Hb. intros. apply equalJSON_decides; auto; by eapply decode_any_sorted.
Qed.

Definition sample_left : string := "{" +:+ q "a" +:+ ": 1.0, " +:+ q "b" +:+ ": [true, null]}".
Definition sample_right : string := "{" +:+ q "b" +:+ ":[true,null]," +:+ q "a" +:+ ":10e-1}".
Definition json_or (o : option json) : json := default JNull o.

Lemma equal_json_semantic_witness :
  ∃ eq, equalJSON range_id (json_or (decode_any sample_left)) (json_or (decode_any sample_right)) = Ok eq ∧
        (eq = true ↔ default VNull (denote (json_or (decode_any sample_left)))
                     = default VNull (denote (json_or (decode_any sample_right)))).
Proof. apply (equal_json_semantic range_id sample_left sample_right); vm_compute; reflexivity. Defined.

(** A branch that evaluates takes the first case that holds, all earlier
    cases having been decided false, and the default route when no case holds;
    the route is always one that the branch's configuration declares. *)
Theorem evaluate_branch_first_match order n raw route :
  evaluateBranch order n raw = Ok route →
  ∃ cases fallback v, decode_branch n = Some (cases, fallback) ∧ decode_any raw = Some v ∧
    routes_to order n v cases fallback 0 route ∧ route ∈ declared_routes n.
Proof. apply evaluateBranch_Ok. Qed.

Definition sample_branch : Node := match dc_Nodes sample_document !! 1%nat with Some n => n | None => sample_task "0" end.

Lemma evaluate_branch_first_match_witness :
  ∃ cases fallback v, decode_branch sample_branch = Some (cases, fallback) ∧
    decode_any ("{" +:+ q "score" +:+ ": 10.5}") = Some v ∧
    routes_to range_id sample_branch v cases fallback 0 "high" ∧ "high" ∈ declared_routes sample_branch.
Proof. apply evaluate_branch_first_match. vm_compute. reflexivity. Defined.
