(* ===== verification/CanonicalNumbers.v ===== *)
(** * Canonical numbers

    A number of a JSON text is a numeral: a sign, digits around a point, and an
    exponent.  Its canonical form is again a numeral, of the same value, and two
    numerals of one value have one canonical form. *)

From Stdlib Require Import Ascii QArith Qpower.
From S2P Require Import Prelude Json Graph Dsl Ir Canonical.

Open Scope string_scope.
Open Scope list_scope.
Open Scope Z_scope.

(** ** Digits *)

Notation digits s := (string_all is_digit s = true) (only parsing).

(** The text does not go on with a byte that [p] accepts. *)
Definition stops (p : ascii → bool) (s : string) : bool := match s with String a _ => negb (p a) | "" => true end.

Lemma scan_digits_app d r : digits d → stops is_digit r = true → scan_digits (d +:+ r) = (d, r).
Proof.
  induction d as [|a d IH]; intros Hd Hr.
  - destruct r as [|b r]; [done|]. cbn [stops] in Hr. change ("" +:+ String b r) with (String b r). cbn [scan_digits]. by destruct (is_digit b).
  - cbn [string_all] in Hd. apply andb_true_iff in Hd as [Ha Hd]. rewrite app_cons. cbn [scan_digits]. by rewrite Ha, IH.
Qed.

Lemma scan_digits_split s d r : scan_digits s = (d, r) → s = d +:+ r ∧ digits d ∧ stops is_digit r = true.
Proof.
  revert d r. induction s as [|a s IH]; intros d r; cbn [scan_digits]; [intros [= <- <-]; by split_and!|].
  destruct (is_digit a) eqn:Ha; [|intros [= <- <-]; split_and!; [done..|]; cbn; by rewrite Ha].
  destruct (scan_digits s) as [d' r'] eqn:Hs. intros [= <- <-]. destruct (IH d' r' eq_refl) as (-> & Hd & Hr).
  cbn [string_all]. rewrite Ha. by split_and!.
Qed.

(** ** Numerals *)

Record numeral : Type := MkNumeral { nu_neg : bool; nu_whole : string; nu_fraction : string; nu_exponent : option (ascii * string * string) }.

Definition sign_text (neg : bool) : string := if neg then "-" else "".
Definition fraction_text (f : string) : string := match f with "" => "" | _ => "." +:+ f end.
Definition exponent_text (x : option (ascii * string * string)) : string :=
  match x with Some (e, sg, d) => String e (sg +:+ d) | None => "" end.
Definition numeral_text (n : numeral) : string :=
  sign_text (nu_neg n) +:+ nu_whole n +:+ fraction_text (nu_fraction n) +:+ exponent_text (nu_exponent n).

Definition whole_ok (i : string) : bool :=
  match i with "" => false | String a d => if (code a =? 48)%N then is_empty d else in_range 49 57 a && string_all is_digit d end.
Definition exponent_ok (x : option (ascii * string * string)) : bool :=
  match x with
  | Some (e, sg, d) => is_exponent e && (is_empty sg || bool_decide (sg = "+") || bool_decide (sg = "-")) && negb (is_empty d) && string_all is_digit d
  | None => true
  end.
Record numeral_ok (n : numeral) : Prop := {
  no_whole : whole_ok (nu_whole n) = true;
  no_fraction : digits (nu_fraction n);
  no_exponent : exponent_ok (nu_exponent n) = true }.

Lemma digit_range a : in_range 49 57 a = true → is_digit a = true.
Proof. unfold is_digit, in_range. rewrite !andb_true_iff, !N.leb_le. lia. Qed.

Lemma whole_digits i : whole_ok i = true → digits i.
Proof.
  destruct i as [|a d]; [done|]. cbn [whole_ok string_all]. destruct (code a =? 48)%N eqn:Ha.
  - intros Hd. unfold is_empty in Hd. apply bool_decide_eq_true in Hd as ->. apply N.eqb_eq in Ha. unfold is_digit, in_range. by rewrite Ha.
  - intros [Hr Hd]%andb_true_iff. by rewrite (digit_range a Hr), Hd.
Qed.

(** What may follow a number. *)
Definition number_byte (a : ascii) : bool := is_digit a || is_dot a || is_exponent a.

Lemma stops_weaken (p q : ascii → bool) s : (∀ a, q a = true → p a = true) → stops p s = true → stops q s = true.
Proof. destruct s as [|a s]; [done|]. cbn. rewrite !negb_true_iff. intros H Hp. destruct (q a) eqn:Hq; [|done]. by rewrite H in Hp. Qed.

Lemma stops_fraction f x r : stops number_byte r = true → exponent_ok x = true → stops is_digit (fraction_text f +:+ exponent_text x +:+ r) = true.
Proof.
  intros Hr Hx. destruct f as [|a f]; [|done]. destruct x as [[[e sg] d]|].
  - cbn in Hx. cbn. unfold is_digit, in_range. rewrite !andb_true_iff in Hx. destruct Hx as [[[He _] _] _]. unfold is_exponent in He.
    apply negb_true_iff, andb_false_iff. rewrite !N.leb_gt. apply orb_true_iff in He as [He|He]; apply N.eqb_eq in He; rewrite He; lia.
  - cbn. eapply stops_weaken, Hr. intros a Ha. unfold number_byte. by rewrite Ha.
Qed.

Lemma scan_whole i r : whole_ok i = true → stops is_digit r = true → scan_integer (i +:+ r) = Some (i, r).
Proof.
  destruct i as [|a d]; [done|]. cbn [whole_ok]. rewrite app_cons. cbn [scan_integer]. destruct (code a =? 48)%N eqn:Ha.
  - intros Hd Hr. unfold is_empty in Hd. apply bool_decide_eq_true in Hd as ->. apply N.eqb_eq in Ha.
    f_equal. f_equal. rewrite <-(ascii_N_embedding a). unfold code in Ha. by rewrite Ha.
  - intros [Hr Hd]%andb_true_iff Hs. by rewrite Hr, scan_digits_app.
Qed.

Lemma scan_fraction_text f r : digits f → stops is_dot r = true → (f ≠ "" → stops is_digit r = true) →
  scan_fraction (fraction_text f +:+ r) = Some (fraction_text f, r).
Proof.
  intros Hf Hdot Hr. destruct f as [|a f].
  - change (scan_fraction r = Some ("", r)). destruct r as [|b r]; [done|]. cbn [stops scan_fraction] in *. unfold is_dot in Hdot. by destruct (code b =? 46)%N.
  - change (scan_fraction (String "." (String a f +:+ r)) = Some (String "." (String a f), r)). cbn [scan_fraction].
    rewrite scan_digits_app by auto. done.
Qed.

Lemma exponent_spec e sg d : exponent_ok (Some (e, sg, d)) = true →
  is_exponent e = true ∧ (sg = "" ∨ sg = "+" ∨ sg = "-") ∧ d ≠ "" ∧ digits d.
Proof.
  unfold exponent_ok, is_empty. rewrite !andb_true_iff, !orb_true_iff, negb_true_iff, !bool_decide_eq_true, bool_decide_eq_false. tauto.
Qed.

Lemma digit_no_sign a : is_digit a = true → (code a =? 43)%N = false ∧ (code a =? 45)%N = false.
Proof. unfold is_digit, in_range. rewrite andb_true_iff, !N.leb_le, !N.eqb_neq. lia. Qed.

Lemma scan_sign_text sg d r : sg = "" ∨ sg = "+" ∨ sg = "-" → d ≠ "" → digits d → scan_sign (sg +:+ d +:+ r) = (sg, d +:+ r).
Proof.
  intros [->|[->| ->]] Hne Hd; try done. destruct d as [|a d]; [done|]. cbn [string_all] in Hd. apply andb_true_iff in Hd as [Ha _].
  change (scan_sign (String a (d +:+ r)) = ("", String a (d +:+ r))). cbn [scan_sign]. by destruct (digit_no_sign a Ha) as [-> ->].
Qed.

Lemma scan_exponent_text x r : exponent_ok x = true → stops is_exponent r = true → (is_Some x → stops is_digit r = true) →
  scan_exponent (exponent_text x +:+ r) = Some (exponent_text x, r).
Proof.
  intros Hx He Hr. destruct x as [[[e sg] d]|].
  - apply exponent_spec in Hx as (He' & Hsg & Hne & Hd). cbn [exponent_text]. rewrite app_cons, string_app_assoc. cbn [scan_exponent].
    unfold is_exponent in He'. rewrite He', scan_sign_text, scan_digits_app by eauto. by destruct d.
  - change (scan_exponent r = Some ("", r)). destruct r as [|a r]; [done|]. cbn [stops scan_exponent] in *. unfold is_exponent in He. by destruct (_ || _).
Qed.

Lemma whole_no_minus i r : whole_ok i = true → scan_minus (i +:+ r) = ("", i +:+ r).
Proof.
  destruct i as [|a i]; [done|]. intros Hi%whole_digits. cbn [string_all] in Hi. apply andb_true_iff in Hi as [Ha _].
  rewrite app_cons. cbn [scan_minus]. destruct (digit_no_sign a Ha) as [_ H]. by rewrite H.
Qed.

Lemma number_stops r : stops number_byte r = true → stops is_digit r = true ∧ stops is_dot r = true ∧ stops is_exponent r = true.
Proof.
  intros H. split_and!; eapply stops_weaken, H; intros a Ha; unfold number_byte; rewrite Ha; by rewrite ?orb_true_r.
Qed.

(** A numeral is read whole. *)
Lemma scan_numeral n r : numeral_ok n → stops number_byte r = true → scan_number (numeral_text n +:+ r) = Some (numeral_text n, r).
Proof.
  destruct n as [neg i f x]. intros [Hi Hf Hx] Hr. cbn [nu_whole nu_fraction nu_exponent] in *.
  destruct (number_stops r Hr) as (Hdigit & Hdot & He). unfold scan_number, numeral_text. cbn [nu_neg nu_whole nu_fraction nu_exponent].
  rewrite !string_app_assoc.
  assert (scan_minus (sign_text neg +:+ i +:+ fraction_text f +:+ exponent_text x +:+ r) = (sign_text neg, i +:+ fraction_text f +:+ exponent_text x +:+ r)) as ->.
  { destruct neg; [done|]. change (scan_minus (i +:+ fraction_text f +:+ exponent_text x +:+ r) = ("", i +:+ fraction_text f +:+ exponent_text x +:+ r)). by apply whole_no_minus. }
  rewrite scan_whole by (try done; by apply stops_fraction). cbn [mbind option_bind].
  rewrite scan_fraction_text; [|done|..].
  - cbn [mbind option_bind]. rewrite scan_exponent_text by done. done.
  - destruct x as [[[e sg] d]|]; [|done]. apply exponent_spec in Hx as (He' & _). cbn [exponent_text]. rewrite app_cons. cbn [stops]. unfold is_exponent in He'. unfold is_dot.
    apply orb_true_iff in He' as [He'|He']; apply N.eqb_eq in He'; by rewrite He'.
  - intros _. change (stops is_digit (fraction_text "" +:+ exponent_text x +:+ r) = true). by apply stops_fraction.
Qed.

(** What is read as a number is a numeral. *)
Lemma scan_number_shape s lit r : scan_number s = Some (lit, r) → ∃ n, numeral_ok n ∧ lit = numeral_text n.
Proof.
  unfold scan_number. destruct (scan_minus s) as [sg s0] eqn:Hm. intros ([i s1] & Hi & ([f s2] & Hf & ([e s3] & He & [= <- <-])%bind_Some)%bind_Some)%bind_Some.
  assert (∃ neg, sg = sign_text neg) as [neg ->].
  { unfold scan_minus in Hm. destruct s as [|a s]; [injection Hm as <- _; by exists false|]. destruct (code a =? 45)%N; injection Hm as <- _; [by exists true|by exists false]. }
  assert (whole_ok i = true) as Hwhole.
  { unfold scan_integer in Hi. destruct s0 as [|a s0]; [done|]. destruct (code a =? 48)%N eqn:Ha; [by injection Hi as <- _|].
    destruct (in_range 49 57 a) eqn:Hr; [|done]. destruct (scan_digits s0) as [d r'] eqn:Hd. injection Hi as <- _.
    apply scan_digits_split in Hd as (_ & Hd & _). cbn [whole_ok]. by rewrite Ha, Hr, Hd. }
  assert (∃ g, f = fraction_text g ∧ digits g) as (g & -> & Hg).
  { unfold scan_fraction in Hf. destruct s1 as [|a s1]; [injection Hf as <- _; by exists ""|].
    destruct (code a =? 46)%N eqn:Ha; [|injection Hf as <- _; by exists ""].
    destruct (scan_digits s1) as [d r'] eqn:Hd. apply scan_digits_split in Hd as (_ & Hd & _). destruct d as [|b d]; [done|]. injection Hf as <- _.
    exists (String b d). split; [|done]. apply N.eqb_eq in Ha. rewrite <-(ascii_N_embedding a). unfold code in Ha. by rewrite Ha. }
  assert (∃ x, e = exponent_text x ∧ exponent_ok x = true) as (x & -> & Hx).
  { unfold scan_exponent in He. destruct s2 as [|a s2]; [injection He as <- _; by exists None|].
    destruct (_ || _) eqn:Ha; [|injection He as <- _; by exists None].
    destruct (scan_sign s2) as [sg r1] eqn:Hs. destruct (scan_digits r1) as [d r'] eqn:Hd. apply scan_digits_split in Hd as (_ & Hd & _).
    destruct d as [|b d]; [done|]. injection He as <- _. exists (Some (a, sg, String b d)). split; [done|]. cbn [exponent_ok].
    unfold is_exponent. rewrite Ha, Hd. cbn [negb is_empty]. unfold is_empty. rewrite (bool_decide_false (String b d = "")) by done. cbn [andb negb]. rewrite !andb_true_r.
    unfold scan_sign in Hs. destruct s2 as [|c s2]; [by injection Hs as <- _|]. destruct (code c =? 43)%N; [by injection Hs as <- _|].
    by destruct (code c =? 45)%N; injection Hs as <- _. }
  exists (MkNumeral neg i g x). split; [by constructor|]. done.
Qed.

(** ** The value of a numeral *)

Definition nu_power (n : numeral) : Z :=
  match nu_exponent n with
  | Some (_, sg, d) => if bool_decide (sg = "-") then - digits_value 0 d else digits_value 0 d
  | None => 0
  end.
Definition nu_digits (n : numeral) : string := nu_whole n +:+ nu_fraction n.
Definition nu_scale (n : numeral) : Z := nu_power n - Z.of_nat (String.length (nu_fraction n)).

Lemma strip_one a s : strip (String a "") (String a s) = Some s.
Proof.
  unfold strip. cbn [String.prefix]. destruct (ascii_dec a a); [|done]. destruct s; cbn [String.prefix String.length String.substring]; [done|].
  f_equal. rewrite substring_all; [done|cbn; lia].
Qed.

Lemma strip_minus i r : whole_ok i = true → strip "-" (i +:+ r) = None.
Proof.
  destruct i as [|a i]; [done|]. intros Hi%whole_digits. cbn [string_all] in Hi. apply andb_true_iff in Hi as [Ha _].
  destruct (digit_no_sign a Ha) as [_ H]. unfold strip. rewrite app_cons. cbn [String.prefix]. destruct (ascii_dec "-"%char a) as [<-|]; [done|done].
Qed.

Lemma split_numeral n : numeral_ok n → split_number (numeral_text n) = Some (nu_neg n, nu_whole n, nu_fraction n, nu_power n).
Proof.
  destruct n as [neg i f x]. intros [Hi Hf Hx]. cbn [nu_whole nu_fraction nu_exponent] in *. unfold split_number, numeral_text, nu_power. cbn [nu_neg nu_whole nu_fraction nu_exponent].
  assert (∀ r, match strip "-" (sign_text neg +:+ i +:+ r) with Some r => (true, r) | None => (false, sign_text neg +:+ i +:+ r) end = (neg, i +:+ r)) as ->.
  { intros r. destruct neg; [change (sign_text true +:+ i +:+ r) with (String "-" (i +:+ r)); by rewrite (strip_one "-"%char)|]. change (sign_text false +:+ i +:+ r) with (i +:+ r). by rewrite strip_minus. }
  pose proof (stops_fraction f x "" eq_refl Hx) as Hs. rewrite string_app_nil in Hs.
  rewrite scan_whole by done. cbn [mbind option_bind].
  rewrite scan_fraction_text; [|done|..].
  - cbn [mbind option_bind].
    assert (default "" (strip "." (fraction_text f)) = f) as -> by (destruct f as [|a f]; [done|]; change (fraction_text (String a f)) with (String "." (String a f)); by rewrite (strip_one "."%char)).
    destruct x as [[[e sg] d]|]; [|done]. cbn [exponent_text]. apply exponent_spec in Hx as (_ & Hsg & Hne & Hd).
    pose proof (scan_sign_text sg d "" Hsg Hne Hd) as H. rewrite string_app_nil in H. by rewrite H.
  - destruct x as [[[e sg] d]|]; [|done]. apply exponent_spec in Hx as (He' & _). cbn [exponent_text stops]. unfold is_exponent in He'. unfold is_dot.
    apply orb_true_iff in He' as [He'|He']; apply N.eqb_eq in He'; by rewrite He'.
  - intros _. pose proof (stops_fraction "" x "" eq_refl Hx) as H. by rewrite string_app_nil in H.
Qed.

Definition signed (neg : bool) (m : Z) : Z := if neg then - m else m.

(** The rational at the digits [s] and the decimal exponent [e]. *)
Definition decimal (neg : bool) (s : string) (e : Z) : Q := inject_Z (signed neg (digits_value 0 s)) * Qpower (inject_Z 10) e.

Lemma ten_nonzero : ¬ inject_Z 10 == 0.
Proof. done. Qed.

Lemma rat_of_decimal m e : rat_of m e == inject_Z m * Qpower (inject_Z 10) e.
Proof.
  unfold rat_of. destruct (Z.leb_spec 0 e).
  - by rewrite inject_Z_mult, Zpower_Qpower.
  - rewrite <-(Z.opp_involutive e) at 2. rewrite Qpower_opp, <-Zpower_Qpower by lia.
    rewrite Qmake_Qdiv, Z2Pos.id by (apply Z.pow_pos_nonneg; lia). done.
Qed.

Lemma rat_numeral n : numeral_ok n → - 2 ^ 63 ≤ nu_power n < 2 ^ 63 → Z.abs (nu_scale n) ≤ 1000000 →
  ∃ r, rat_set_string (numeral_text n) = Some r ∧ r == decimal (nu_neg n) (nu_digits n) (nu_scale n).
Proof.
  intros Hn Hp Hs. unfold rat_set_string. rewrite split_numeral by done. cbn [mbind option_bind].
  destruct (Z.ltb_spec (nu_power n) (- 2 ^ 63)); [lia|]. destruct (Z.leb_spec (2 ^ 63) (nu_power n)); [lia|]. cbn [orb].
  fold (nu_digits n). fold (nu_scale n). unfold decimal. destruct (Z.eqb_spec (digits_value 0 (nu_digits n)) 0) as [Hz|Hz].
  - eexists. split; [done|]. rewrite Hz. destruct (nu_neg n); cbn [signed]; by rewrite Qmult_0_l.
  - destruct (Z.ltb_spec 1000000 (Z.abs (nu_scale n))); [lia|]. eexists. split; [done|]. apply rat_of_decimal.
Qed.

(** ** Digits and their value *)

Lemma digit_bound a : is_digit a = true → 0 ≤ Z.of_N (code a) - 48 ≤ 9.
Proof. unfold is_digit, in_range. rewrite andb_true_iff, !N.leb_le. lia. Qed.

Definition len (s : string) : Z := Z.of_nat (String.length s).

Lemma len_app s r : len (s +:+ r) = len s + len r.
Proof. unfold len. rewrite length_string_app. lia. Qed.
Lemma len_cons a s : len (String a s) = len s + 1.
Proof. unfold len. cbn [String.length]. lia. Qed.
Lemma len_nonneg s : 0 ≤ len s.
Proof. unfold len. lia. Qed.

Lemma digits_value_acc s : digits s → ∀ acc, digits_value acc s = acc * 10 ^ len s + digits_value 0 s.
Proof.
  induction s as [|a s IH]; intros Hs acc; [change (len "") with 0; cbn [digits_value]; lia|]. cbn [string_all] in Hs. apply andb_true_iff in Hs as [Ha Hs].
  cbn [digits_value]. rewrite Ha, IH by done. rewrite (IH Hs (0 * 10 + _)), len_cons, Z.pow_add_r, Z.pow_1_r by (pose proof (len_nonneg s); lia). lia.
Qed.

Lemma digits_value_app s r : digits s → digits r → digits_value 0 (s +:+ r) = digits_value 0 s * 10 ^ len r + digits_value 0 r.
Proof.
  intros Hs Hr. assert (∀ acc, digits_value acc (s +:+ r) = digits_value (digits_value acc s) r) as H.
  { induction s as [|a s IH]; intros acc; [done|]. cbn [string_all] in Hs. apply andb_true_iff in Hs as [Ha Hs].
    rewrite app_cons. cbn [digits_value]. rewrite Ha. by apply IH. }
  rewrite H. by apply digits_value_acc.
Qed.

Lemma digits_value_bounds s : digits s → 0 ≤ digits_value 0 s < 10 ^ len s.
Proof.
  induction s as [|a s IH]; intros Hs; [change (len "") with 0; cbn [digits_value]; lia|]. cbn [string_all] in Hs. apply andb_true_iff in Hs as [Ha Hs].
  cbn [digits_value]. rewrite Ha, digits_value_acc by done. rewrite len_cons, Z.pow_add_r, Z.pow_1_r by (pose proof (len_nonneg s); lia).
  specialize (IH Hs). pose proof (digit_bound a Ha). nia.
Qed.

Lemma zeros_succ n : 0 ≤ n → zeros (n + 1) = String "0" (zeros n).
Proof.
  intros Hn. unfold zeros. replace (Z.to_nat (n + 1)) with (S (Z.to_nat n)) by lia. cbn [replicate String.concat].
  destruct (Z.to_nat n); [done|]. done.
Qed.

Lemma zeros_spec n : 0 ≤ n → digits (zeros n) ∧ len (zeros n) = n ∧ digits_value 0 (zeros n) = 0.
Proof.
  intros Hn. pattern n. apply natlike_ind; [done| |done]. intros m Hm (Hd & Hl & Hv). rewrite <-Z.add_1_r, zeros_succ by done.
  rewrite len_cons, Hl. split_and!; [done|done|]. cbn [digits_value]. by rewrite Hv.
Qed.

(** *** Leading and trailing zeros *)

Lemma trim_zeros_spec s : digits s → digits (trim_zeros s) ∧ digits_value 0 (trim_zeros s) = digits_value 0 s ∧ len (trim_zeros s) ≤ len s ∧
  match trim_zeros s with String a _ => in_range 49 57 a = true | "" => True end.
Proof.
  induction s as [|a s IH]; intros Hs; [done|]. pose proof Hs as Hs'. cbn [string_all] in Hs. apply andb_true_iff in Hs as [Ha Hs]. cbn [trim_zeros].
  destruct (code a =? 48)%N eqn:H0.
  - destruct (IH Hs) as (Hd & Hv & Hl & Hh). rewrite Hv, len_cons. split_and!; [done| |lia|done].
    cbn [digits_value]. rewrite Ha. apply N.eqb_eq in H0. by rewrite H0.
  - split_and!; [done|done|lia|]. apply N.eqb_neq in H0. unfold is_digit, in_range in *. rewrite andb_true_iff, !N.leb_le in *. lia.
Qed.

Lemma strip_zeros_spec s x k : digits s → strip_zeros s = (x, k) →
  0 ≤ k ∧ s = x +:+ zeros k ∧ digits x ∧ (x ≠ "" → digits_value 0 x mod 10 ≠ 0).
Proof.
  revert x k. induction s as [|a s IH]; intros x k Hs; [by intros [= <- <-]|]. cbn [string_all] in Hs. apply andb_true_iff in Hs as [Ha Hs].
  cbn [strip_zeros]. destruct (strip_zeros s) as [y j] eqn:Hy. destruct (IH y j Hs eq_refl) as (Hj & -> & Hd & Hv).
  unfold is_empty. destruct (decide (y = "")) as [->|Hne].
  - rewrite bool_decide_true by done. cbn [andb]. destruct (code a =? 48)%N eqn:H0; intros [= <- <-].
    + split_and!; [lia| |done|done]. apply N.eqb_eq in H0. rewrite zeros_succ by done. change ("" +:+ zeros j) with (zeros j).
      f_equal. rewrite <-(ascii_N_embedding a). unfold code in H0. by rewrite H0.
    + split_and!; [lia|done|cbn [string_all]; by rewrite Ha|]. intros _. cbn [digits_value]. rewrite Ha. apply N.eqb_neq in H0.
      pose proof (digit_bound a Ha). rewrite Z.mod_small by lia. lia.
  - rewrite bool_decide_false by done. cbn [andb]. intros [= <- <-]. split_and!; [done|done|cbn [string_all]; by rewrite Ha|].
    intros _. cbn [digits_value]. rewrite Ha, digits_value_acc by done. specialize (Hv Hne).
    destruct y as [|b y]; [done|]. rewrite len_cons, Z.pow_add_r, Z.pow_1_r by (pose proof (len_nonneg y); lia).
    rewrite Z.mul_assoc. rewrite Z.add_comm. by rewrite Z_mod_plus_full.
Qed.

(** Digits without a zero at either end. *)
Record trimmed (s : string) : Prop := {
  tr_digits : digits s;
  tr_head : match s with String a _ => in_range 49 57 a = true | "" => False end;
  tr_last : digits_value 0 s mod 10 ≠ 0 }.

Lemma normal_digits s x k : digits s → trim_zeros s ≠ "" → strip_zeros (trim_zeros s) = (x, k) →
  trimmed x ∧ 0 ≤ k ∧ digits_value 0 s = digits_value 0 x * 10 ^ k ∧ len x + k ≤ len s.
Proof.
  intros Hs Hne Hx. destruct (trim_zeros_spec s Hs) as (Hd & Hv & Hl & Hh). destruct (strip_zeros_spec _ _ _ Hd Hx) as (Hk & Heq & Hdx & Hm).
  destruct (zeros_spec k Hk) as (Hzd & Hzl & Hzv).
  assert (x ≠ "") as Hxne.
  { intros ->. change ("" +:+ zeros k) with (zeros k) in Heq. rewrite Heq in Hh, Hne. destruct (Z.eq_dec k 0) as [->|Hk0]; [done|].
    replace k with (k - 1 + 1) in Hh by lia. by rewrite zeros_succ in Hh by lia. }
  split_and!; [|done| |].
  - constructor; [done| |by apply Hm]. rewrite Heq in Hh. destruct x as [|a x]; [done|]. by rewrite app_cons in Hh.
  - rewrite <-Hv, Heq, digits_value_app, Hzl, Hzv by done. lia.
  - rewrite Heq, len_app, Hzl in Hl. lia.
Qed.

(** *** Decimal texts of integers *)

Lemma pretty_char x : (x < 10)%N → is_digit (pretty_N_char x) = true ∧ Z.of_N (code (pretty_N_char x)) - 48 = Z.of_N x.
Proof.
  intros Hx. assert (x = 0 ∨ x = 1 ∨ x = 2 ∨ x = 3 ∨ x = 4 ∨ x = 5 ∨ x = 6 ∨ x = 7 ∨ x = 8 ∨ x = 9)%N as H by lia.
  repeat destruct H as [->|H]; [done..|]. by subst x.
Qed.

Lemma pretty_go x : ∀ s, digits s →
  digits (pretty_N_go x s) ∧ digits_value 0 (pretty_N_go x s) = Z.of_N x * 10 ^ len s + digits_value 0 s ∧ (s ≠ "" ∨ (0 < x)%N → pretty_N_go x s ≠ "").
Proof.
  induction x as [x IH] using (well_founded_induction N.lt_wf_0). intros s Hs.
  assert (x = 0 ∨ 0 < x)%N as [->|Hx] by lia.
  - rewrite pretty_N_go_0. split_and!; [done|lia|]. by intros [?|?]; [|lia].
  - rewrite pretty_N_go_step by done. destruct (pretty_char (x `mod` 10)) as [Hc Hv]; [by apply N.mod_lt|].
    destruct (IH (x `div` 10)%N) with (s := String (pretty_N_char (x `mod` 10)) s) as (Hd & Hval & Hne); [by apply N.div_lt|by cbn [string_all]; rewrite Hc|].
    split_and!; [done| |intros _; by apply Hne; left].
    rewrite Hval. cbn [digits_value]. rewrite Hc, Hv, (digits_value_acc s Hs (_ + _)), len_cons, Z.pow_add_r, Z.pow_1_r by (pose proof (len_nonneg s); lia).
    assert (Z.of_N x = 10 * Z.of_N (x `div` 10) + Z.of_N (x `mod` 10)) as ->; [|lia].
    rewrite (N.div_mod x 10) at 1 by done. lia.
Qed.

Lemma pretty_digits (x : N) : digits (pretty x) ∧ digits_value 0 (pretty x) = Z.of_N x ∧ pretty x ≠ "".
Proof.
  unfold pretty, pretty_N. case_decide as Hx; [by subst|]. destruct (pretty_go x "") as (Hd & Hv & Hne); [done|].
  split_and!; [done| |apply Hne; right; lia]. rewrite Hv. change (len "") with 0. cbn [digits_value]. lia.
Qed.

(** *** Formatting *)

Lemma substring_split s : ∀ k m, (k ≤ String.length s ≤ m)%nat →
  String.substring 0 k s +:+ String.substring k m s = s ∧ String.length (String.substring 0 k s) = k.
Proof.
  induction s as [|a s IH]; intros [|k] m [Hk Hm]; cbn [String.length] in *; try lia.
  - split; [|done]. by destruct m.
  - split; [|done]. change (String.substring 0 m (String a s) = String a s). apply substring_all. cbn. lia.
  - destruct (IH k m) as [H1 H2]; [lia|]. change (String.substring 0 (S k) (String a s)) with (String a (String.substring 0 k s)).
    change (String.substring (S k) m (String a s)) with (String.substring k m s). rewrite app_cons, H1. cbn [String.length]. by rewrite H2.
Qed.

Lemma split_at n s : 0 ≤ n ≤ len s → prefix_of n s +:+ suffix_of n s = s ∧ len (prefix_of n s) = n ∧ len (suffix_of n s) = len s - n.
Proof.
  unfold len. intros Hn. destruct (substring_split s (Z.to_nat n) (String.length s)) as [H1 H2]; [lia|].
  assert (len (prefix_of n s) = n) as Hp by (unfold len, prefix_of; lia). split_and!; [done|done|].
  fold (len s). rewrite <-H1 at 2. fold (prefix_of n s) (suffix_of n s). rewrite len_app, Hp. unfold len. lia.
Qed.

Lemma digits_split n s : 0 ≤ n ≤ len s → digits s → digits (prefix_of n s) ∧ digits (suffix_of n s).
Proof. intros Hn Hs. destruct (split_at n s Hn) as (H & _). rewrite <-H, string_all_app in Hs. by apply andb_true_iff in Hs. Qed.

Lemma whole_head a d : in_range 49 57 a = true → digits d → whole_ok (String a d) = true.
Proof.
  intros Ha Hd. cbn [whole_ok]. rewrite Ha, Hd. unfold in_range in Ha. rewrite andb_true_iff, !N.leb_le in Ha.
  destruct (N.eqb_spec (code a) 48); [lia|done].
Qed.

Lemma prefix_head n s a : 0 < n → (∃ r, s = String a r) → ∃ r, prefix_of n s = String a r.
Proof. intros Hn [r ->]. unfold prefix_of. destruct (Z.to_nat n) as [|k] eqn:Hk; [lia|]. by eexists. Qed.

(** The text is a numeral with the digits [ds] at the exponent [sc], or with
    these and [k] of the zeros that the exponent stands for. *)
Definition numeral_at (ds : string) (sc : Z) (text : string) : Prop := ∃ n k,
  numeral_ok n ∧ nu_neg n = false ∧ text = numeral_text n ∧ 0 ≤ k ≤ 21 ∧
  digits_value 0 (nu_digits n) = digits_value 0 ds * 10 ^ k ∧ nu_scale n = sc - k ∧ Z.abs (nu_power n) ≤ Z.abs sc + len ds.

Section Format.
Context (ds : string) (sc : Z) (HT : trimmed ds).

Lemma trimmed_whole r : digits r → whole_ok (ds +:+ r) = true.
Proof.
  intros Hr. destruct HT as [Hd Hh _]. destruct ds as [|a d]; [done|]. rewrite app_cons. apply whole_head; [done|].
  cbn [string_all] in Hd. apply andb_true_iff in Hd as [_ Hd]. by rewrite string_all_app, Hd, Hr.
Qed.

Lemma trimmed_prefix n : 0 < n ≤ len ds → whole_ok (prefix_of n ds) = true.
Proof.
  intros Hn. destruct HT as [Hd Hh _]. destruct (digits_split n ds) as [Hp _]; [lia|done|].
  destruct ds as [|a d]; [done|]. destruct (prefix_head n (String a d) a) as [r Hr]; [lia|by eexists|]. rewrite Hr in Hp |- *.
  apply whole_head; [done|]. cbn [string_all] in Hp. by apply andb_true_iff in Hp as [_ ?].
Qed.

Lemma trimmed_len : 1 ≤ len ds.
Proof. destruct HT as [_ Hh _]. destruct ds as [|a d]; [done|]. rewrite len_cons. pose proof (len_nonneg d). lia. Qed.

Lemma plain_text i : i +:+ fraction_text "" +:+ exponent_text None = i.
Proof. apply string_app_nil. Qed.

Lemma at_whole : 0 ≤ sc ≤ 21 → numeral_at ds sc (ds +:+ zeros sc).
Proof.
  intros Hsc. destruct (zeros_spec sc) as (Hzd & Hzl & Hzv); [lia|]. exists (MkNumeral false (ds +:+ zeros sc) "" None), sc.
  split_and!; try done; try lia.
  - constructor; [|done|done]. by apply trimmed_whole.
  - symmetry. apply (plain_text (ds +:+ zeros sc)).
  - unfold nu_digits. cbn [nu_whole nu_fraction]. rewrite string_app_nil, digits_value_app, Hzl, Hzv by (done || apply HT). lia.
  - unfold nu_scale, nu_power. cbn. lia.
  - unfold nu_power. cbn [nu_exponent]. pose proof trimmed_len. lia.
Qed.

Lemma at_point n : 0 < n < len ds → n = len ds + sc → numeral_at ds sc (prefix_of n ds +:+ "." +:+ suffix_of n ds).
Proof.
  intros Hn Hsc. destruct (split_at n ds) as (Hcat & Hpl & Hsl); [lia|]. destruct (digits_split n ds) as [Hpd Hsd]; [lia|apply HT|].
  exists (MkNumeral false (prefix_of n ds) (suffix_of n ds) None), 0. split_and!; try done; try lia.
  - constructor; [|done|done]. apply trimmed_prefix. lia.
  - unfold numeral_text. cbn [nu_neg nu_whole nu_fraction nu_exponent exponent_text]. rewrite string_app_nil.
    change (sign_text false +:+ ?x) with x. f_equal. destruct (suffix_of n ds) eqn:Hsuf; [|done]. change (len "") with 0 in Hsl. lia.
  - unfold nu_digits. cbn [nu_whole nu_fraction]. rewrite Hcat. lia.
  - unfold nu_scale, nu_power. cbn [nu_fraction nu_exponent]. fold (len (suffix_of n ds)). lia.
  - unfold nu_power. cbn [nu_exponent]. pose proof trimmed_len. lia.
Qed.

Lemma at_small n : 0 ≤ n → n = - (len ds + sc) → numeral_at ds sc ("0." +:+ zeros n +:+ ds).
Proof.
  intros Hn Hsc. destruct (zeros_spec n) as (Hzd & Hzl & Hzv); [lia|]. exists (MkNumeral false "0" (zeros n +:+ ds) None), 0.
  split_and!; try done; try lia.
  - constructor; [done| |done]. cbn [nu_fraction]. by rewrite string_all_app, Hzd, (tr_digits _ HT).
  - unfold numeral_text. cbn [nu_neg nu_whole nu_fraction nu_exponent exponent_text]. rewrite string_app_nil.
    destruct (zeros n +:+ ds) eqn:Hz; [|done]. pose proof trimmed_len. pose proof (len_app (zeros n) ds) as Hl. rewrite Hz in Hl. change (len "") with 0 in Hl. lia.
  - unfold nu_digits. cbn [nu_whole nu_fraction]. change ("0" +:+ zeros n +:+ ds) with (String "0" (zeros n +:+ ds)). cbn [digits_value].
    change (0 * 10 + (Z.of_N (code "0") - 48)) with 0. change (is_digit "0") with true. cbn match.
    rewrite digits_value_app by (done || apply HT). lia.
  - unfold nu_scale, nu_power. cbn [nu_fraction nu_exponent]. fold (len (zeros n +:+ ds)). rewrite len_app. lia.
  - unfold nu_power. cbn [nu_exponent]. pose proof trimmed_len. lia.
Qed.

Lemma exponent_numeral (z : Z) : ∃ sg d, pretty z = sg +:+ d ∧ exponent_ok (Some ("e"%char, sg, d)) = true ∧
  (if bool_decide (sg = "-") then - digits_value 0 d else digits_value 0 d) = z.
Proof.
  assert (∀ sg d, (sg = "" ∨ sg = "-") → digits d → d ≠ "" → exponent_ok (Some ("e"%char, sg, d)) = true) as Hok.
  { intros sg d Hsg Hd Hne. cbn [exponent_ok]. unfold is_empty. rewrite Hd, (bool_decide_false _ Hne). by destruct Hsg as [->| ->]. }
  destruct z as [|p|p]; [by exists "", "0"|..]; destruct (pretty_digits (N.pos p)) as (Hd & Hv & Hne).
  - exists "", (pretty (N.pos p)). split_and!; [done|by apply Hok; auto|]. rewrite bool_decide_false by done. by rewrite Hv.
  - exists "-", (pretty (N.pos p)). split_and!; [done|by apply Hok; auto|]. rewrite bool_decide_true by done. by rewrite Hv.
Qed.

Lemma at_exponent : numeral_at ds sc (prefix_of 1 ds +:+ (if 1 <? len ds then "." +:+ suffix_of 1 ds else "") +:+ "e" +:+ pretty (len ds + sc - 1)).
Proof.
  pose proof trimmed_len as Hlen. destruct (split_at 1 ds) as (Hcat & Hpl & Hsl); [lia|]. destruct (digits_split 1 ds) as [Hpd Hsd]; [lia|apply HT|].
  destruct (exponent_numeral (len ds + sc - 1)) as (sg & d & -> & Hok & Hv).
  exists (MkNumeral false (prefix_of 1 ds) (suffix_of 1 ds) (Some ("e"%char, sg, d))), 0. split_and!; try done; try lia.
  - constructor; [|done|done]. apply trimmed_prefix. lia.
  - unfold numeral_text. cbn [nu_neg nu_whole nu_fraction nu_exponent exponent_text]. change (sign_text false +:+ ?x) with x. f_equal. f_equal.
    destruct (Z.ltb_spec 1 (len ds)); destruct (suffix_of 1 ds) eqn:Hsuf; try done; [change (len "") with 0 in Hsl; lia|].
    rewrite len_cons in Hsl. pose proof (len_nonneg s). lia.
  - unfold nu_digits. cbn [nu_whole nu_fraction]. rewrite Hcat. lia.
  - unfold nu_scale, nu_power. cbn [nu_fraction nu_exponent]. rewrite Hv. fold (len (suffix_of 1 ds)). lia.
  - unfold nu_power. cbn [nu_exponent]. rewrite Hv. lia.
Qed.

(** The canonical text of digits at an exponent. *)
Lemma format_numeral : numeral_at ds sc (format_number ds sc).
Proof.
  unfold format_number. fold (len ds). destruct (Z.eqb_spec sc 0) as [H0|H0].
  { pose proof (at_whole ltac:(lia)) as H. assert (zeros sc = "") as Hz by (by rewrite H0). by rewrite Hz, string_app_nil in H. }
  destruct (Z.ltb_spec 0 (len ds + sc)), (Z.leb_spec (len ds + sc) 21); cbn [andb].
  2-4: destruct (Z.leb_spec (len ds + sc) 0), (Z.leb_spec (-5) (len ds + sc)); cbn [andb]; try apply at_exponent; apply at_small; [lia|done].
  destruct (Z.leb_spec (len ds) (len ds + sc)).
  - replace (len ds + sc - len ds) with sc by lia. apply at_whole. pose proof trimmed_len. lia.
  - apply at_point; [lia|done].
Qed.
End Format.

(** ** Normalization *)

Lemma split_byte_app p s r : string_all (λ a, negb (p a)) s = true →
  split_byte p (s +:+ r) = '(x, y) ← split_byte p r; Some (s +:+ x, y).
Proof.
  induction s as [|a s IH]; intros Hs; [change ("" +:+ r) with r; by destruct (split_byte p r) as [[]|]|]. cbn [string_all] in Hs. apply andb_true_iff in Hs as [Ha Hs].
  rewrite app_cons. cbn [split_byte]. apply negb_true_iff in Ha. rewrite Ha, IH by done. by destruct (split_byte p r) as [[]|].
Qed.

Lemma split_byte_none p s : string_all (λ a, negb (p a)) s = true → split_byte p s = None.
Proof. intros Hs. rewrite <-(string_app_nil s), split_byte_app by done. done. Qed.

Lemma digit_plain a : is_digit a = true → is_exponent a = false ∧ is_dot a = false.
Proof. unfold is_digit, in_range, is_exponent, is_dot. rewrite andb_true_iff, orb_false_iff, !N.leb_le, !N.eqb_neq. lia. Qed.

Lemma digits_no_exponent s : digits s → string_all (λ a, negb (is_exponent a)) s = true.
Proof. apply string_all_weaken. intros a Ha. by destruct (digit_plain a Ha) as [-> _]. Qed.
Lemma digits_no_dot s : digits s → string_all (λ a, negb (is_dot a)) s = true.
Proof. apply string_all_weaken. intros a Ha. by destruct (digit_plain a Ha) as [_ ->]. Qed.

Lemma fraction_no_exponent f : digits f → string_all (λ a, negb (is_exponent a)) (fraction_text f) = true.
Proof. intros Hf. destruct f as [|a f]; [done|]. change (string_all (λ a, negb (is_exponent a)) (String a f) = true). by apply digits_no_exponent. Qed.

Lemma atoi_text sg d : sg = "" ∨ sg = "+" ∨ sg = "-" → d ≠ "" → digits d →
  atoi (sg +:+ d) = let v := if bool_decide (sg = "-") then - digits_value 0 d else digits_value 0 d in
    if (v <? - 2 ^ 63) || (2 ^ 63 <=? v) then None else Some v.
Proof.
  intros Hsg Hne Hd. unfold atoi. pose proof (scan_sign_text sg d "" Hsg Hne Hd) as H. rewrite string_app_nil in H. rewrite H.
  unfold is_empty. by rewrite (bool_decide_false _ Hne), Hd.
Qed.

Lemma number_exponent_numeral n m p : numeral_ok n →
  number_exponent (nu_whole n +:+ fraction_text (nu_fraction n) +:+ exponent_text (nu_exponent n)) = Ok (m, p) →
  m = nu_whole n +:+ fraction_text (nu_fraction n) ∧ p = nu_power n ∧ Z.abs (nu_power n) ≤ MaxDecimalExponent.
Proof.
  destruct n as [neg i f x]. intros [Hi Hf Hx]. unfold nu_power. cbn [nu_whole nu_fraction nu_exponent] in *. unfold number_exponent.
  rewrite <-string_app_assoc. rewrite split_byte_app by (by rewrite string_all_app, digits_no_exponent, fraction_no_exponent by (done || by apply whole_digits)).
  destruct x as [[[e sg] d]|]; cbn [exponent_text]; [|cbn; rewrite string_app_nil; by intros [= <- <-]].
  apply exponent_spec in Hx as (He & Hsg & Hne & Hd). cbn [split_byte]. rewrite He. cbn [mbind option_bind]. rewrite string_app_nil, atoi_text by done.
  cbv zeta. set (v := if bool_decide (sg = "-") then _ else _). destruct (_ || _); [done|].
  destruct (_ || _) eqn:Hb; [done|]. cbn. intros [= <- <-]. apply orb_false_iff in Hb as [H1%Z.ltb_ge H2%Z.ltb_ge]. split_and!; [done|done|]. lia.
Qed.

Lemma number_digits_numeral i f : digits i → digits f → number_digits (i +:+ fraction_text f) = (i +:+ f, Z.of_nat (String.length f)).
Proof.
  intros Hi Hf. unfold number_digits. rewrite split_byte_app by (by apply digits_no_dot). destruct f as [|a f]; [cbn; by rewrite !string_app_nil|].
  change (fraction_text (String a f)) with (String "." (String a f)). cbn [split_byte]. change (is_dot ".") with true. cbn [mbind option_bind]. by rewrite string_app_nil.
Qed.

Lemma scan_minus_numeral n : numeral_ok n →
  scan_minus (numeral_text n) = (sign_text (nu_neg n), nu_whole n +:+ fraction_text (nu_fraction n) +:+ exponent_text (nu_exponent n)).
Proof. destruct n as [[] i f x]; intros [Hi _ _]; [done|]. unfold numeral_text. cbn [nu_neg nu_whole nu_fraction nu_exponent] in *.
  change (sign_text false +:+ ?x) with x. by apply whole_no_minus. Qed.

Lemma numeral_not_empty n : numeral_ok n → is_empty (numeral_text n) = false.
Proof.
  intros [Hi _ _]. apply bool_decide_eq_false. intros H. apply (f_equal String.length) in H. unfold numeral_text in H. rewrite !length_string_app in H.
  destruct (nu_whole n); [done|]. cbn in H. lia.
Qed.

(** What the normal form of a numeral is. *)
Lemma normalize_numeral n t : numeral_ok n → normalizeJSONNumber (numeral_text n) = Ok t → Z.abs (nu_power n) ≤ MaxDecimalExponent ∧
  (digits_value 0 (nu_digits n) = 0 ∧ t = "0" ∨
   ∃ ds k, trimmed ds ∧ 0 ≤ k ∧ digits_value 0 (nu_digits n) = digits_value 0 ds * 10 ^ k ∧ len ds + k ≤ len (nu_digits n) ∧
     t = sign_text (nu_neg n) +:+ format_number ds (nu_scale n + k)).
Proof.
  intros Hn. unfold normalizeJSONNumber. rewrite numeral_not_empty by done. cbn [guard_err]. rewrite (res_bind_Ok (Ok tt) _ tt) by done.
  rewrite scan_minus_numeral by done. intros ([m p] & Hm & H)%bind_Ok. apply number_exponent_numeral in Hm as (-> & -> & Hp); [|done].
  split; [done|]. destruct Hn as [Hi Hf Hx]. apply whole_digits in Hi. rewrite number_digits_numeral in H by done.
  fold (nu_digits n) in H. assert (digits (nu_digits n)) as Hd by (unfold nu_digits; by rewrite string_all_app, Hi, Hf).
  unfold is_empty in H. case_bool_decide as He.
  - injection H as <-. left. destruct (trim_zeros_spec _ Hd) as (_ & Hv & _). by rewrite <-Hv, He.
  - destruct (strip_zeros (trim_zeros (nu_digits n))) as [ds k] eqn:Hs. injection H as <-. right. exists ds, k.
    destruct (normal_digits _ _ _ Hd He Hs) as (Ht & Hk & Hv & Hl). done.
Qed.

(** ** Values of normal forms *)

Lemma signed_mul neg m k : signed neg (m * k) = signed neg m * k.
Proof. destruct neg; cbn; lia. Qed.

Lemma scale_shift m k e : 0 ≤ k → inject_Z (m * 10 ^ k) * Qpower (inject_Z 10) e == inject_Z m * Qpower (inject_Z 10) (e + k).
Proof.
  intros Hk. rewrite inject_Z_mult, Zpower_Qpower by done. rewrite Z.add_comm, Qpower_plus by apply ten_nonzero. by rewrite Qmult_assoc.
Qed.

Lemma decimal_shift neg s r e k : 0 ≤ k → digits_value 0 s = digits_value 0 r * 10 ^ k → decimal neg s e == decimal neg r (e + k).
Proof. intros Hk Hv. unfold decimal. by rewrite Hv, signed_mul, scale_shift. Qed.

Lemma decimal_zero neg s e : digits_value 0 s = 0 → decimal neg s e == 0.
Proof. intros Hv. unfold decimal. rewrite Hv. destruct neg; cbn [signed]; apply Qmult_0_l. Qed.

Lemma power_positive e : ¬ Qpower (inject_Z 10) e == 0.
Proof. apply Qpower_not_0, ten_nonzero. Qed.

(** Two integers that ten does not divide. *)
Lemma decimal_unique m1 m2 e1 e2 : m1 mod 10 ≠ 0 → m2 mod 10 ≠ 0 →
  inject_Z m1 * Qpower (inject_Z 10) e1 == inject_Z m2 * Qpower (inject_Z 10) e2 → m1 = m2 ∧ e1 = e2.
Proof.
  assert (∀ m1 m2 e1 e2, e1 ≤ e2 → m1 mod 10 ≠ 0 → inject_Z m1 * Qpower (inject_Z 10) e1 == inject_Z m2 * Qpower (inject_Z 10) e2 → m1 = m2 ∧ e1 = e2) as Hle.
  { clear. intros m1 m2 e1 e2 He H1 Heq. replace e2 with (e1 + (e2 - e1)) in Heq by lia. rewrite <-scale_shift in Heq by lia.
    apply Qmult_inj_r in Heq; [|apply power_positive]. apply (inject_Z_injective m1 (m2 * 10 ^ (e2 - e1))) in Heq.
    destruct (Z.eq_dec e1 e2) as [->|Hne]; [rewrite Z.sub_diag, Z.pow_0_r, Z.mul_1_r in Heq; done|].
    destruct H1. rewrite Heq. replace (e2 - e1) with (1 + (e2 - e1 - 1)) by lia. rewrite Z.pow_add_r, Z.pow_1_r by lia.
    replace (m2 * (10 * 10 ^ (e2 - e1 - 1))) with (m2 * 10 ^ (e2 - e1 - 1) * 10) by lia. by apply Z_mod_mult. }
  intros H1 H2 Heq. destruct (Z.le_ge_cases e1 e2) as [He|He]; [by apply Hle|]. destruct (Hle m2 m1 e2 e1) as [-> ->]; done.
Qed.

(** Digits of equal value and equal length. *)
Lemma digits_unique s : ∀ r, digits s → digits r → len s = len r → digits_value 0 s = digits_value 0 r → s = r.
Proof.
  induction s as [|a s IH]; intros [|b r] Hs Hr Hl Hv; rewrite ?len_cons in Hl; change (len "") with 0 in *;
    [done|pose proof (len_nonneg r); lia|pose proof (len_nonneg s); lia|].
  cbn [string_all] in Hs, Hr. apply andb_true_iff in Hs as [Ha Hs], Hr as [Hb Hr].
  cbn [digits_value] in Hv. rewrite Ha, Hb, (digits_value_acc s Hs), (digits_value_acc r Hr) in Hv.
  assert (len s = len r) as Hlen by lia. rewrite Hlen in Hv. pose proof (digits_value_bounds s Hs) as Bs. pose proof (digits_value_bounds r Hr) as Br. rewrite Hlen in Bs.
  assert (Z.of_N (code a) = Z.of_N (code b) ∧ digits_value 0 s = digits_value 0 r) as [Hab Hsr].
  { revert Hv. generalize (Z.of_N (code a)) (Z.of_N (code b)). intros x y Hv. destruct (Z.lt_trichotomy x y) as [H|[->|H]]; [nia|split; [done|lia]|nia]. }
  f_equal; [|by apply IH]. apply N2Z.inj in Hab. unfold code in Hab. by rewrite <-(ascii_N_embedding a), Hab, ascii_N_embedding.
Qed.

Lemma trimmed_bound s : trimmed s → 10 ^ (len s - 1) ≤ digits_value 0 s < 10 ^ len s.
Proof.
  intros [Hd Hh _]. split; [|by apply digits_value_bounds]. destruct s as [|a s]; [done|].
  cbn [string_all] in Hd. apply andb_true_iff in Hd as [Ha Hs]. cbn [digits_value]. rewrite Ha, (digits_value_acc s Hs), len_cons.
  replace (len s + 1 - 1) with (len s) by lia. pose proof (digits_value_bounds s Hs).
  unfold in_range in Hh. rewrite andb_true_iff, !N.leb_le in Hh. nia.
Qed.

Lemma trimmed_unique s r : trimmed s → trimmed r → digits_value 0 s = digits_value 0 r → s = r.
Proof.
  intros Hs Hr Hv. apply digits_unique; [apply Hs|apply Hr| |done]. pose proof (trimmed_bound s Hs) as Bs. pose proof (trimmed_bound r Hr) as Br.
  rewrite <-Hv in Br. pose proof (trimmed_len s Hs). pose proof (trimmed_len r Hr).
  assert (∀ x y, 0 ≤ x → 0 ≤ y → 10 ^ x ≤ digits_value 0 s → digits_value 0 s < 10 ^ y → x < y) as Hlt.
  { intros x y Hx Hy H1 H2. apply (Z.pow_lt_mono_r_iff 10); lia. }
  assert (len s - 1 < len r) by (apply Hlt; lia). assert (len r - 1 < len s) by (apply Hlt; lia). lia.
Qed.

Lemma signed_mod neg m : m mod 10 ≠ 0 → signed neg m mod 10 ≠ 0.
Proof. destruct neg; cbn [signed]; [|done]. intros H H'. destruct H. apply Z_mod_zero_opp_full in H'. by rewrite Z.opp_involutive in H'. Qed.

Lemma trimmed_positive s : trimmed s → 0 < digits_value 0 s.
Proof. intros Hs. pose proof (trimmed_bound s Hs) as [H _]. pose proof (trimmed_len s Hs). assert (0 < 10 ^ (len s - 1)) by (apply Z.pow_pos_nonneg; lia). lia. Qed.

Lemma signed_inj neg neg' m m' : 0 < m → 0 < m' → signed neg m = signed neg' m' → neg = neg' ∧ m = m'.
Proof. destruct neg, neg'; cbn; intros ? ? ?; first [split; [done|lia]|exfalso; lia]. Qed.

Lemma decimal_nonzero neg s e : trimmed s → ¬ decimal neg s e == 0.
Proof.
  intros Hs H. unfold decimal in H. apply Qmult_integral in H as [H|H]; [|by apply power_positive in H].
  change (inject_Z (signed neg (digits_value 0 s)) == inject_Z 0) in H. rewrite inject_Z_injective in H. pose proof (trimmed_positive s Hs).
  destruct neg; cbn [signed] in H; lia.
Qed.

(** ** The claims on numbers *)

(** A normal form is read as a number of the same value. *)
Lemma normalized_value n t : numeral_ok n → normalizeJSONNumber (numeral_text n) = Ok t → len (numeral_text n) ≤ 100000 →
  (∃ n', numeral_ok n' ∧ t = numeral_text n') ∧
  ∃ r r', rat_set_string (numeral_text n) = Some r ∧ rat_set_string t = Some r' ∧ r == decimal (nu_neg n) (nu_digits n) (nu_scale n) ∧ r == r'.
Proof.
  intros Hn Ht Hlen. destruct (normalize_numeral n t Hn Ht) as [Hp Hcase]. unfold MaxDecimalExponent in Hp.
  assert (len (nu_digits n) + len (nu_fraction n) ≤ 200000) as Hl.
  { assert (∀ f, len f ≤ len (fraction_text f)) as Hf by (intros [|a f]; [done|]; change (fraction_text (String a f)) with (String "." (String a f)); rewrite !len_cons; lia).
    specialize (Hf (nu_fraction n)). unfold numeral_text in Hlen. rewrite !len_app in Hlen. unfold nu_digits. rewrite len_app.
    pose proof (len_nonneg (sign_text (nu_neg n))). pose proof (len_nonneg (exponent_text (nu_exponent n))). pose proof (len_nonneg (nu_whole n)). lia. }
  pose proof (len_nonneg (nu_fraction n)). pose proof (len_nonneg (nu_digits n)).
  assert (- 210000 ≤ nu_scale n ≤ 10000) as Hs by (unfold nu_scale; fold (len (nu_fraction n)); lia).
  destruct (rat_numeral n Hn) as (r & Hr & Hv); [lia|lia|].
  destruct Hcase as [[Hz ->]|(ds & k & Hds & Hk & Hdv & Hdl & ->)].
  - split; [exists (MkNumeral false "0" "" None); split; [by constructor|done]|]. exists r, (inject_Z 0). split_and!; [done|done|done|]. rewrite Hv. by apply decimal_zero.
  - destruct (format_numeral ds (nu_scale n + k) Hds) as (n0 & j & Hn0 & Hneg & -> & Hj & Hdig & Hsc & Hpw).
    set (n1 := MkNumeral (nu_neg n) (nu_whole n0) (nu_fraction n0) (nu_exponent n0)).
    assert (numeral_ok n1) as Hn1 by (destruct Hn0; by constructor).
    assert (sign_text (nu_neg n) +:+ numeral_text n0 = numeral_text n1) as Htext.
    { unfold numeral_text. rewrite Hneg. done. }
    rewrite Htext. pose proof (trimmed_len ds Hds).
    destruct (rat_numeral n1 Hn1) as (r1 & Hr1 & Hv1); [change (nu_power n1) with (nu_power n0); lia|change (nu_scale n1) with (nu_scale n0); lia|].
    split; [by exists n1|]. exists r, r1. split_and!; [done..|]. rewrite Hv, Hv1.
    change (nu_neg n1) with (nu_neg n). change (nu_digits n1) with (nu_digits n0). change (nu_scale n1) with (nu_scale n0).
    rewrite (decimal_shift _ _ ds _ k) by done. symmetry. rewrite (decimal_shift _ _ ds _ j) by (done || lia). rewrite Hsc.
    by replace (nu_scale n + k - j + j) with (nu_scale n + k) by lia.
Qed.

(** Numerals of one value have one normal form. *)
Lemma normalized_unique n1 n2 t1 t2 : numeral_ok n1 → numeral_ok n2 →
  normalizeJSONNumber (numeral_text n1) = Ok t1 → normalizeJSONNumber (numeral_text n2) = Ok t2 →
  decimal (nu_neg n1) (nu_digits n1) (nu_scale n1) == decimal (nu_neg n2) (nu_digits n2) (nu_scale n2) → t1 = t2.
Proof.
  intros H1 H2 Ht1 Ht2 Heq. destruct (normalize_numeral n1 t1 H1 Ht1) as [_ C1], (normalize_numeral n2 t2 H2 Ht2) as [_ C2].
  destruct C1 as [[Z1 ->]|(d1 & k1 & T1 & K1 & V1 & _ & ->)], C2 as [[Z2 ->]|(d2 & k2 & T2 & K2 & V2 & _ & ->)]; [done|..].
  - exfalso. pose proof (decimal_zero (nu_neg n1) _ (nu_scale n1) Z1) as S1. pose proof (decimal_shift (nu_neg n2) _ d2 (nu_scale n2) k2 K2 V2) as S2.
    apply (decimal_nonzero (nu_neg n2) d2 (nu_scale n2 + k2) T2). by rewrite <-S2, <-Heq.
  - exfalso. pose proof (decimal_zero (nu_neg n2) _ (nu_scale n2) Z2) as S2. pose proof (decimal_shift (nu_neg n1) _ d1 (nu_scale n1) k1 K1 V1) as S1.
    apply (decimal_nonzero (nu_neg n1) d1 (nu_scale n1 + k1) T1). by rewrite <-S1, Heq.
  - pose proof (decimal_shift (nu_neg n1) _ d1 (nu_scale n1) k1 K1 V1) as S1. pose proof (decimal_shift (nu_neg n2) _ d2 (nu_scale n2) k2 K2 V2) as S2.
    rewrite S1, S2 in Heq. unfold decimal in Heq.
    apply decimal_unique in Heq as [Hm ->]; [|apply signed_mod, T1|apply signed_mod, T2].
    apply signed_inj in Hm as [-> Hv]; [|by apply trimmed_positive..]. by rewrite (trimmed_unique d1 d2).
Qed.
