(* ===== verification/CanonicalTexts.v ===== *)
(** * Canonical texts

    A canonical text is read back as the value it was written from, with its
    numbers in normal form, so it denotes what the original text denotes; and
    two texts have one canonical form exactly when they denote one value. *)

From Stdlib Require Import Ascii QArith.
From S2P Require Import Prelude Json Graph Dsl Ir Canonical Branch CanonicalNumbers.

Open Scope string_scope.
Open Scope list_scope.
Open Scope Z_scope.

(** ** UTF-8 *)

(** Sequences of well-formed runes. *)
Inductive utf8 : string → Prop :=
  | utf8_nil : utf8 ""
  | utf8_one a r : (code a < 128)%N → utf8 r → utf8 (String a r)
  | utf8_two a b r : (∀ c d, rune_size a b c d = 2%nat) → utf8 r → utf8 (String a (String b r))
  | utf8_three a b c r : (∀ d, rune_size a b c d = 3%nat) → utf8 r → utf8 (String a (String b (String c r)))
  | utf8_four a b c d r : rune_size a b c d = 4%nat → utf8 r → utf8 (String a (String b (String c (String d r)))).

Lemma rune_two a b c d : rune_size a b c d = 2%nat → ∀ c' d', rune_size a b c' d' = 2%nat.
Proof. unfold rune_size. intros H c' d'. destruct (in_range 194 223 a && cont b); [done|]. by repeat case_match. Qed.

Lemma rune_three a b c d : rune_size a b c d = 3%nat → ∀ d', rune_size a b c d' = 3%nat.
Proof. unfold rune_size. intros H d'. destruct (in_range 194 223 a && cont b); [done|]. destruct (_ || _ || _); [done|]. by repeat case_match. Qed.

Lemma in_range_le lo hi a : in_range lo hi a = true → (lo ≤ code a ≤ hi)%N.
Proof. unfold in_range. by rewrite andb_true_iff, !N.leb_le. Qed.

(** The bytes of a sequence of more than one byte are above 127. *)
Lemma rune_bytes a b c d : let n := rune_size a b c d in n ≠ 0%nat →
  (128 ≤ code a ∧ 128 ≤ code b)%N ∧ ((n = 3%nat ∨ n = 4%nat) → (128 ≤ code c)%N) ∧ (n = 4%nat → (128 ≤ code d)%N).
Proof.
  cbv zeta. unfold rune_size, cont.
  destruct (in_range 194 223 a && in_range 128 191 b) eqn:H2.
  { intros _. apply andb_true_iff in H2 as [Ha%in_range_le Hb%in_range_le]. repeat split; (lia || by intros [?|?]). }
  match goal with |- context [if ?b then 3%nat else _] => destruct b eqn:H3 end.
  { intros _. rewrite !orb_true_iff, !andb_true_iff, !orb_true_iff in H3.
    destruct H3 as [[[[Ha Hb] Hc]|[[[Ha|Ha] Hb] Hc]]|[[Ha Hb] Hc]]; apply in_range_le in Ha, Hb, Hc; repeat split; intros; (lia || done). }
  match goal with |- context [if ?b then 4%nat else _] => destruct b eqn:H4 end; [|by intros H; destruct H].
  intros _. rewrite !orb_true_iff, !andb_true_iff in H4.
  destruct H4 as [[[[[Ha Hb] Hc] Hd]|[[[Ha Hb] Hc] Hd]]|[[[Ha Hb] Hc] Hd]]; apply in_range_le in Ha, Hb, Hc, Hd; repeat split; intros; lia.
Qed.

(** *** Encoded runes *)

Lemma code_chr n : (n < 256)%N → code (chr n) = n.
Proof. apply N_ascii_embedding. Qed.

Lemma in_range_chr lo hi n : (n < 256)%N → in_range lo hi (chr n) = ((lo <=? n) && (n <=? hi))%N.
Proof. intros Hn. unfold in_range. by rewrite code_chr. Qed.

Lemma in_range_true lo hi n : (n < 256)%N → (lo ≤ n ≤ hi)%N → in_range lo hi (chr n) = true.
Proof. intros Hn ?. rewrite in_range_chr, andb_true_iff, !N.leb_le by done. lia. Qed.

Lemma cont_chr n : (128 ≤ n ≤ 191)%N → cont (chr n) = true.
Proof. intros Hn. apply in_range_true; lia. Qed.

(** A rune that is not half of a surrogate pair. *)
Definition rune_ok (v : N) : Prop := (v < 1114112)%N ∧ ¬ (55296 ≤ v < 57344)%N.

Lemma in_range_false lo hi n : (n < 256)%N → (n < lo ∨ hi < n)%N → in_range lo hi (chr n) = false.
Proof. intros Hn ?. rewrite in_range_chr, andb_false_iff, !N.leb_gt by done. lia. Qed.

Lemma rune_size_three q m l d : (q < 16 ∧ m < 64 ∧ l < 64)%N → (2048 ≤ 4096 * q + 64 * m + l)%N →
  ¬ (55296 ≤ 4096 * q + 64 * m + l < 57344)%N → rune_size (chr (224 + q)) (chr (128 + m)) (chr (128 + l)) d = 3%nat.
Proof.
  intros (Hq & Hm & Hl) Hlow Hsur. unfold rune_size. rewrite (in_range_false 194%N 223%N), !cont_chr by lia. cbn [andb].
  destruct (N.eq_dec q 0%N) as [->|H0]; [by rewrite (in_range_true 224%N 224%N), (in_range_true 160%N 191%N) by lia|].
  rewrite (in_range_false 224%N 224%N) by lia. cbn [andb orb].
  destruct (N.eq_dec q 13%N) as [->|H13]; [rewrite (in_range_true 237%N 237%N), (in_range_true 128%N 159%N) by lia; by rewrite orb_true_r|].
  destruct (N.lt_ge_cases q 13%N); [by rewrite (in_range_true 225%N 236%N) by lia|]. rewrite (in_range_true 238%N 239%N) by lia. by rewrite orb_true_r.
Qed.

Lemma rune_size_four q m l k : (q < 5 ∧ m < 64 ∧ l < 64 ∧ k < 64)%N → (65536 ≤ 262144 * q + 4096 * m < 1114112)%N →
  rune_size (chr (240 + q)) (chr (128 + m)) (chr (128 + l)) (chr (128 + k)) = 4%nat.
Proof.
  intros (Hq & Hm & Hl & Hk) Hr. unfold rune_size.
  rewrite (in_range_false 194%N 223%N), (in_range_false 224%N 224%N), (in_range_false 225%N 236%N), (in_range_false 238%N 239%N), (in_range_false 237%N 237%N), !cont_chr by lia.
  cbn [andb orb]. destruct (N.eq_dec q 0%N) as [->|H0]; [by rewrite (in_range_true 240%N 240%N), (in_range_true 144%N 191%N) by lia|].
  rewrite (in_range_false 240%N 240%N) by lia. destruct (N.eq_dec q 4%N) as [->|H4].
  - rewrite (in_range_false 241%N 243%N), (in_range_true 244%N 244%N), (in_range_true 128%N 143%N) by lia. done.
  - rewrite (in_range_true 241%N 243%N) by lia. done.
Qed.

Lemma utf8_encode v x : rune_ok v → utf8 x → utf8 (encode_rune v +:+ x).
Proof.
  intros [Hmax Hsur] Hx. unfold encode_rune.
  destruct (N.ltb_spec v 128); [apply utf8_one; [rewrite code_chr; lia|done]|].
  assert (∀ k, ∃ q m, k / 64 = q ∧ k mod 64 = m ∧ k = 64 * q + m ∧ m < 64)%N as Hdiv.
  { intros k. exists (k / 64)%N, (k mod 64)%N. split_and!; [done|done|by apply N.div_mod|by apply N.mod_lt]. }
  replace (v / 4096)%N with (v / 64 / 64)%N by (by rewrite N.Div0.div_div). replace (v / 262144)%N with (v / 64 / 64 / 64)%N by (by rewrite !N.Div0.div_div).
  destruct (Hdiv v) as (q1 & m1 & -> & -> & Hv & ?), (Hdiv q1) as (q2 & m2 & -> & -> & Hq1 & ?), (Hdiv q2) as (q3 & m3 & -> & -> & Hq2 & ?). clear Hdiv.
  destruct (N.ltb_spec v 2048).
  { apply utf8_two; [|done]. intros c d. unfold rune_size. rewrite in_range_true, cont_chr by lia. done. }
  destruct (N.ltb_spec v 65536).
  { apply utf8_three; [|done]. intros d. apply rune_size_three; lia. }
  apply utf8_four; [|done]. apply rune_size_four; lia.
Qed.

(** *** What decoding a string gives *)

Lemma hex_bound a x : hex_value a = Some x → (x < 16)%N.
Proof.
  unfold hex_value. destruct (in_range 48 57 a) eqn:H1; [intros [= <-]; apply in_range_le in H1; lia|].
  destruct (in_range 97 102 a) eqn:H2; [intros [= <-]; apply in_range_le in H2; lia|].
  destruct (in_range 65 70 a) eqn:H3; [intros [= <-]; apply in_range_le in H3; lia|done].
Qed.

Lemma hex4_bound a b c d x : hex4 a b c d = Some x → (x < 65536)%N.
Proof.
  unfold hex4. intros (p & Hp%hex_bound & (q & Hq%hex_bound & (r & Hr%hex_bound & (s & Hs%hex_bound & [= <-])%bind_Some)%bind_Some)%bind_Some)%bind_Some. lia.
Qed.

Lemma pair_ok hi lo v : surrogate_pair hi lo = Some v → rune_ok v.
Proof.
  unfold surrogate_pair. destruct (_ && _ && _ && _) eqn:H; [|done]. intros [= <-].
  rewrite !andb_true_iff, !N.leb_le, !N.ltb_lt in H. split; lia.
Qed.

Lemma replacement_ok : rune_ok 65533.
Proof. split; lia. Qed.

Lemma simple_escape_ascii e x : simple_escape e = Some x → (code x < 128)%N.
Proof. destruct e as [[] [] [] [] [] [] [] []]; cbn; intros [= <-]; by vm_compute. Qed.

(** The rest [r] behind a backslash. *)
Definition unquote_escape (r : string) : string :=
  match r with
  | "" => ""
  | String e r1 =>
      if (code e =? 117)%N then
        match r1 with
        | String h1 (String h2 (String h3 (String h4 r4))) =>
            match hex4 h1 h2 h3 h4 with
            | Some u =>
                if is_surrogate u then
                  match next_u4 r4 ≫= surrogate_pair u with
                  | Some v => encode_rune v +:+ unquote 11 r
                  | None => replacement +:+ unquote 5 r
                  end
                else encode_rune u +:+ unquote 5 r
            | None => unquote 0 r
            end
        | _ => unquote 0 r
        end
      else match simple_escape e with Some x => String x (unquote 1 r) | None => unquote 0 r end
  end.

Lemma unquote_backslash a r : (code a =? 92)%N = true → unquote 0 (String a r) = unquote_escape r.
Proof.
  intros Ha. cbn [unquote]. rewrite Ha. destruct r as [|e r1]; [done|]. unfold unquote_escape.
  destruct e as [[] [] [] [] [] [] [] []]; reflexivity.
Qed.

Lemma unquote_plain a r : (code a =? 92)%N = false → unquote 0 (String a r) =
  if (code a <? 128)%N then String a (unquote 0 r)
  else let b := head_or_nul r in let c := head_or_nul (tail r) in let d := head_or_nul (tail (tail r)) in
    match rune_size a b c d with
    | 2%nat => String a (String b (unquote 1 r))
    | 3%nat => String a (String b (String c (unquote 2 r)))
    | 4%nat => String a (String b (String c (String d (unquote 3 r))))
    | _ => replacement +:+ unquote 0 r
    end.
Proof. intros Ha. cbn [unquote]. by rewrite Ha. Qed.

Lemma utf8_replacement x : utf8 x → utf8 (replacement +:+ x).
Proof. apply utf8_encode, replacement_ok. Qed.

Lemma surrogate_not_ok u : (u < 65536)%N → is_surrogate u = false → rune_ok u.
Proof. unfold is_surrogate. rewrite andb_false_iff, N.leb_gt, N.ltb_ge. split; lia. Qed.

Lemma unquote_utf8 s : ∀ skip, utf8 (unquote skip s).
Proof.
  induction s as [|a r IH]; intros skip; [by destruct skip; constructor|]. destruct skip as [|k]; [|apply IH].
  destruct (code a =? 92)%N eqn:Ha.
  - rewrite unquote_backslash by done. unfold unquote_escape. destruct r as [|e r1]; [constructor|].
    destruct (code e =? 117)%N.
    + destruct r1 as [|h1 [|h2 [|h3 [|h4 r4]]]]; try apply IH. destruct (hex4 h1 h2 h3 h4) as [u|] eqn:Hu; [|apply IH].
      destruct (is_surrogate u) eqn:Hs; [|apply utf8_encode; [apply surrogate_not_ok; [by eapply hex4_bound|done]|apply IH]].
      destruct (next_u4 r4 ≫= surrogate_pair u) as [v|] eqn:Hv; [|by apply utf8_replacement].
      apply bind_Some in Hv as (lo & _ & Hv). apply utf8_encode; [by eapply pair_ok|apply IH].
    + destruct (simple_escape e) as [x|] eqn:Hx; [|apply IH]. apply utf8_one; [by eapply simple_escape_ascii|apply IH].
  - rewrite unquote_plain by done. destruct (N.ltb_spec (code a) 128); [by apply utf8_one|]. cbv zeta.
    destruct (rune_size _ _ _ _) as [|[|[|[|[|n]]]]] eqn:Hn; try by apply utf8_replacement.
    + apply utf8_two; [|apply IH]. by eapply rune_two.
    + apply utf8_three; [|apply IH]. by eapply rune_three.
    + by apply utf8_four.
Qed.

(** ** Writing a string *)

Lemma utf8_fixed s : utf8 s → to_valid_utf8 0 s = s.
Proof.
  induction 1 as [|a r Ha _ IH|a b r Hn _ IH|a b c r Hn _ IH|a b c d r Hn _ IH]; [done|..]; cbn [to_valid_utf8].
  - apply N.ltb_lt in Ha. by rewrite Ha, IH.
  - pose proof (rune_bytes a b "000"%char "000"%char) as Hb. cbv zeta in Hb. rewrite Hn in Hb. destruct Hb as [[Ha _] _]; [done|].
    apply N.ltb_ge in Ha. rewrite Ha. cbn [head_or_nul tail]. by rewrite Hn, IH.
  - pose proof (rune_bytes a b c "000"%char) as Hb. cbv zeta in Hb. rewrite Hn in Hb. destruct Hb as [[Ha _] _]; [done|].
    apply N.ltb_ge in Ha. rewrite Ha. cbn [head_or_nul tail]. by rewrite Hn, IH.
  - pose proof (rune_bytes a b c d) as Hb. cbv zeta in Hb. rewrite Hn in Hb. destruct Hb as [[Ha _] _]; [done|].
    apply N.ltb_ge in Ha. rewrite Ha. cbn [head_or_nul tail]. by rewrite Hn, IH.
Qed.

Lemma escape_high a : (128 ≤ code a)%N → escape_byte a = String a "".
Proof.
  intros Ha. unfold escape_byte. repeat match goal with |- context [N.eqb (code a) ?k] => destruct (N.eqb_spec (code a) k); [lia|] end.
  destruct (N.ltb_spec (code a) 32); [lia|done].
Qed.

(** A byte below 128 is written as itself or as an escape that reads back. *)
Lemma escape_read a r : (code a < 128)%N → unquote 0 (escape_byte a +:+ r) = String a (unquote 0 r).
Proof. destruct a as [[] [] [] [] [] [] [] []]; intros Ha; try (by exfalso; revert Ha; vm_compute); reflexivity. Qed.

(** Every byte is scanned over, whatever it is. *)
Lemma escape_scan a t b r : scan_string t = Some (b, r) → scan_string (escape_byte a +:+ t) = Some (escape_byte a +:+ b, r).
Proof.
  intros Ht. unfold escape_byte.
  assert (∀ e x, simple_escape e = Some x → (code e =? 117)%N = false → scan_string (String "\" (String e t)) = Some (String "\" (String e b), r)) as Hsimple.
  { intros e x He Hu. cbn [scan_string]. change (code "\" =? 34)%N with false. change (code "\" =? 92)%N with true. cbn match. by rewrite Hu, He, Ht. }
  destruct (code a =? 34)%N eqn:H34; [|destruct (code a =? 92)%N eqn:H92; [by eapply (Hsimple "\"%char)|]].
  { apply N.eqb_eq in H34. assert (a = "034"%char) as -> by (rewrite <-(ascii_N_embedding a); unfold code in H34; by rewrite H34). by eapply (Hsimple "034"%char). }
  destruct (code a =? 8)%N; [by eapply (Hsimple "b"%char)|]. destruct (code a =? 12)%N; [by eapply (Hsimple "f"%char)|].
  destruct (code a =? 10)%N; [by eapply (Hsimple "n"%char)|]. destruct (code a =? 13)%N; [by eapply (Hsimple "r"%char)|].
  destruct (code a =? 9)%N; [by eapply (Hsimple "t"%char)|].
  destruct (N.ltb_spec (code a) 32) as [H32|H32].
  - assert (∀ n, (n < 16)%N → is_Some (hex_value (hex_digit n))) as Hhex.
    { intros n Hn. unfold hex_digit, hex_value. destruct (N.ltb_spec n 10); [rewrite (in_range_true 48%N 57%N) by lia; eauto|].
      rewrite (in_range_false 48%N 57%N), (in_range_true 97%N 102%N) by lia. eauto. }
    destruct (Hhex (code a / 16)%N) as [x Hx]; [apply N.Div0.div_lt_upper_bound; lia|]. destruct (Hhex (code a mod 16)%N) as [y Hy]; [by apply N.mod_lt|].
    unfold unicode_escape. change (("\u00" +:+ String (hex_digit (code a / 16)) (String (hex_digit (code a mod 16)) "")) +:+ ?z)
      with (String "\" (String "u" (String "0" (String "0" (String (hex_digit (code a / 16)) (String (hex_digit (code a mod 16)) z)))))).
    cbn [scan_string]. change (code "\" =? 34)%N with false. change (code "\" =? 92)%N with true. change (code "u" =? 117)%N with true. cbn match.
    unfold hex4. rewrite Hx, Hy, Ht. done.
  - change (String a "" +:+ ?z) with (String a z). cbn [scan_string]. rewrite H34, H92. destruct (N.ltb_spec (code a) 32); [lia|]. by rewrite Ht.
Qed.

Lemma scan_escaped s r : scan_string (escape_bytes s +:+ String "034" r) = Some (escape_bytes s, r).
Proof.
  induction s as [|a s IH]; [done|]. cbn [escape_bytes]. rewrite string_app_assoc. by apply escape_scan.
Qed.

Lemma read_escaped s : utf8 s → unquote 0 (escape_bytes s) = s.
Proof.
  induction 1 as [|a r Ha _ IH|a b r Hn _ IH|a b c r Hn _ IH|a b c d r Hn _ IH]; [done|..]; cbn [escape_bytes].
  - by rewrite escape_read, IH.
  - pose proof (rune_bytes a b "000"%char "000"%char) as Hb. cbv zeta in Hb. rewrite Hn in Hb. destruct Hb as [[Ha Hb] _]; [done|].
    rewrite !escape_high by done. change (unquote 0 (String a (String b (escape_bytes r))) = String a (String b r)).
    rewrite unquote_plain by (apply N.eqb_neq; lia). destruct (N.ltb_spec (code a) 128); [lia|]. cbn [head_or_nul tail]. rewrite Hn. repeat f_equal. exact IH.
  - pose proof (rune_bytes a b c "000"%char) as Hb. cbv zeta in Hb. rewrite Hn in Hb. destruct Hb as [[Ha Hb] [Hc _]]; [done|].
    rewrite !escape_high by (done || apply Hc; auto). change (unquote 0 (String a (String b (String c (escape_bytes r)))) = String a (String b (String c r))).
    rewrite unquote_plain by (apply N.eqb_neq; lia). destruct (N.ltb_spec (code a) 128); [lia|]. cbn [head_or_nul tail]. rewrite Hn. repeat f_equal. exact IH.
  - pose proof (rune_bytes a b c d) as Hb. cbv zeta in Hb. rewrite Hn in Hb. destruct Hb as [[Ha Hb] [Hc Hd]]; [done|].
    rewrite !escape_high by (done || (apply Hc; auto) || (apply Hd; auto)).
    change (unquote 0 (String a (String b (String c (String d (escape_bytes r))))) = String a (String b (String c (String d r)))).
    rewrite unquote_plain by (apply N.eqb_neq; lia). destruct (N.ltb_spec (code a) 128); [lia|]. cbn [head_or_nul tail]. rewrite Hn. repeat f_equal. exact IH.
Qed.

(** ** What inspection and decoding establish *)

Section Inspected.
Context (limits : ParseLimits).

(** A number as it was read and inspected. *)
Definition number_ok (lit : string) : Prop := (∃ n, numeral_ok n ∧ lit = numeral_text n) ∧ len lit ≤ MaxNumberBytes limits.

(** The value at nesting depth [d]. *)
Fixpoint json_ok (d : N) (j : json) : Prop :=
  match j with
  | JNum lit => number_ok lit
  | JStr s => utf8 s
  | JArr l => (d < max_nesting)%N ∧ foldr (λ x P, json_ok (d + 1) x ∧ P) True l
  | JObj m => (d < max_nesting)%N ∧ foldr (λ p P, (utf8 p.1 ∧ json_ok (d + 1) p.2) ∧ P) True m
  | _ => True
  end.

Lemma foldr_forall {A} (P : A → Prop) l : foldr (λ x Q, P x ∧ Q) True l ↔ Forall P l.
Proof. induction l as [|x l IH]; cbn [foldr]; [by rewrite Forall_nil|]. by rewrite IH, Forall_cons. Qed.

Lemma insert_forall {A} (P : string * A → Prop) k v (m : list (string * A)) : P (k, v) → Forall P m → Forall P (obj_insert k v m).
Proof.
  intros Hv. induction 1 as [|[k' v'] m Hp Hm IH]; [by repeat constructor|]. cbn [obj_insert].
  destruct (String.compare k k'); repeat constructor; auto.
Qed.

Lemma object_ok d m : (d < max_nesting)%N → Forall (λ p, utf8 p.1.1 ∧ json_ok (d + 1) (to_any p.2)) m → json_ok d (to_any (SObj m)).
Proof.
  intros Hd Hm. cbn [to_any json_ok]. split; [done|]. rewrite (foldr_forall (λ p, utf8 p.1 ∧ json_ok (d + 1) p.2)).
  assert (∀ acc, Forall (λ p, utf8 p.1 ∧ json_ok (d + 1) p.2) acc →
    Forall (λ p, utf8 p.1 ∧ json_ok (d + 1) p.2) (fold_left (λ acc '(k, _, v), obj_insert k (to_any v) acc) m acc)) as H; [|by apply H].
  induction Hm as [|[[k raw] v] m Hp _ IH]; intros acc Hacc; [done|]. cbn [fold_left]. apply IH. by apply insert_forall.
Qed.

Lemma array_ok d l : (d < max_nesting)%N → Forall (λ v, json_ok (d + 1) (to_any v)) l → json_ok d (to_any (SArr l)).
Proof.
  intros Hd Hl. cbn [to_any json_ok]. split; [done|]. rewrite (foldr_forall (json_ok (d + 1))). by apply Forall_map.
Qed.

(** *** The scan goes along with the decoding *)

Lemma skip_space_twice s : skip_space (skip_space s) = skip_space s.
Proof. induction s as [|a s IH]; [done|]. cbn [skip_space]. destruct (is_space a) eqn:Ha; [done|]. cbn [skip_space]. by rewrite Ha. Qed.

Lemma parse_value_skip f d s : parse_value f d (skip_space s) = parse_value f d s.
Proof. destruct f; [done|]. cbn [parse_value]. unfold value_body. by rewrite skip_space_twice. Qed.

Lemma parse_items_skip f d s : parse_items f d (skip_space s) = parse_items f d s.
Proof. destruct f; [done|]. cbn [parse_items]. unfold items_body. by rewrite parse_value_skip. Qed.

Lemma parse_members_skip f d s : parse_members f d (skip_space s) = parse_members f d s.
Proof. destruct f; [done|]. cbn [parse_members]. unfold members_body. by rewrite skip_space_twice. Qed.

Lemma scan_value_skip f d s : scanJSONValue limits f d (skip_space s) = scanJSONValue limits f d s.
Proof. destruct f; [done|]. cbn [scanJSONValue]. by rewrite skip_space_twice. Qed.

Lemma code_inv a n : code a = n → a = chr n.
Proof. unfold code, chr. intros <-. symmetry. apply ascii_N_embedding. Qed.

(** A value does not start with a closing bracket. *)
Lemma value_more f d s x : parse_value f d s = Some x → more s = true.
Proof.
  destruct f; [done|]. cbn [parse_value]. unfold value_body, more. destruct (skip_space s) as [|a r]; [done|].
  destruct (code a =? 93)%N eqn:H93; [|destruct (code a =? 125)%N eqn:H125; [|done]].
  - apply N.eqb_eq, code_inv in H93. by subst a.
  - apply N.eqb_eq, code_inv in H125. by subst a.
Qed.

Lemma members_more f d s x : parse_members f d s = Some x → more s = true.
Proof.
  destruct f; [done|]. cbn [parse_members]. unfold members_body, more. destruct (skip_space s) as [|a r]; [done|].
  destruct (N.eqb_spec (code a) 34) as [->|]; done.
Qed.

Lemma guard_inr b c m (next : scanned) r : scan_guard b c m next = inr r → b = false ∧ next = inr r.
Proof. by destruct b. Qed.

Lemma scan_then_inr s f r : scan_then s f = inr r → ∃ t, s = inr t ∧ f t = inr r.
Proof. destruct s; [done|]. cbn. eauto. Qed.

(** The scan from an item, and from a member, on. *)
Definition scan_item (fs : nat) (d n : Z) (s : string) : scanned := scan_then (scanJSONValue limits fs d s) (scan_items limits fs d n false).

Lemma items_from fs d n s r : scan_items limits fs d n true s = inr r → more s = true → ∃ fs' n', scan_item fs' d n' s = inr r.
Proof.
  destruct fs as [|fs]; [done|]. cbn [scan_items]. intros H Hm. rewrite Hm in H. cbn [negb separated] in H. apply guard_inr in H as [_ H].
  exists fs, (n + 1). unfold scan_item. by rewrite scan_value_skip in H.
Qed.

Lemma items_after fs d n s a t r : scan_items limits fs d n false s = inr r → skip_space s = String a t →
  if (code a =? 44)%N then ∃ fs' n', scan_item fs' d n' t = inr r else (code a =? 93)%N = true → r = t.
Proof.
  destruct fs as [|fs]; [done|]. cbn [scan_items]. unfold more, closing. intros H Hs. rewrite Hs in H.
  destruct (N.eqb_spec (code a) 44) as [H44|H44].
  - rewrite H44 in H. cbn [N.eqb negb orb separated] in H. apply guard_inr in H as [_ H]. cbn [N.eqb Pos.eqb] in H. rewrite H44 in H. by exists fs, (n + 1).
  - intros H93. rewrite H93 in H. cbn in H. by injection H as <-.
Qed.

Lemma scalar_ok d s v r r' : skip_space s = s → (∀ a t, s = String a t → (code a =? 123)%N = false ∧ (code a =? 91)%N = false) →
  value_body (λ _ _, None) (λ _ _, None) d s = Some (v, r) → scan_scalar limits s = inr r' → r' = r ∧ json_ok d (to_any v).
Proof.
  intros Hs Hne. unfold value_body, scan_scalar. rewrite Hs. destruct s as [|a s]; [done|]. destruct (Hne a s eq_refl) as [-> ->]. unfold is_quote.
  destruct (code a =? 34)%N.
  { intros ([body t] & Hb & [= <- <-])%bind_Some. rewrite Hb. intros [_ [= <-]]%guard_inr. split; [done|]. apply unquote_utf8. }
  destruct (code a =? 116)%N; [intros (t & Ht & [= <- <-])%bind_Some; rewrite Ht; by intros [= <-]|].
  destruct (code a =? 102)%N; [intros (t & Ht & [= <- <-])%bind_Some; rewrite Ht; by intros [= <-]|].
  destruct (code a =? 110)%N; [intros (t & Ht & [= <- <-])%bind_Some; rewrite Ht; by intros [= <-]|].
  intros ([lit t] & Hl & [= <- <-])%bind_Some. rewrite Hl. intros [Hlen [_ [= <-]]%guard_inr]%guard_inr. split; [done|].
  split; [by eapply scan_number_shape|]. apply Z.ltb_ge in Hlen. exact Hlen.
Qed.

Lemma value_body_scalar members items d s : (∀ a t, skip_space s = String a t → (code a =? 123)%N = false ∧ (code a =? 91)%N = false) →
  value_body members items d s = value_body (λ _ _, None) (λ _ _, None) d s.
Proof. intros Hne. unfold value_body. destruct (skip_space s) as [|a t]; [done|]. by destruct (Hne a t eq_refl) as [-> ->]. Qed.

Definition scan_member (fs : nat) (d : Z) (seen : gset string) (n : Z) (s : string) : scanned :=
  match scan_key s with
  | Some (key, Some s') => scan_then (scanJSONValue limits fs d s') (scan_members limits fs d seen n false)
  | _ => inl syntax_issue
  end.

Lemma scan_key_skip s : scan_key (skip_space s) = scan_key s.
Proof. unfold scan_key. by rewrite skip_space_twice. Qed.

Lemma member_guards limits' (key : string) (value : option string) (seen : gset string) n (f : string → scanned) r :
  scan_guard (MaxStringBytes limits' <? Z.of_nat (String.length key)) "JSON_STRING_TOO_LARGE" "IR contains an oversized object key"
    (scan_guard (bool_decide (key ∈ seen)) "JSON_DUPLICATE_KEY" ("duplicate JSON object key " +:+ key)
    (scan_guard (MaxCollectionItems limits' <? n + 1) "JSON_COLLECTION_TOO_LARGE" "IR contains an oversized object"
    match value with None => inl syntax_issue | Some s' => f s' end)) = inr r → ∃ s', value = Some s' ∧ f s' = inr r.
Proof. intros [_ [_ [_ H]%guard_inr]%guard_inr]%guard_inr. destruct value; [eauto|done]. Qed.

Lemma members_from fs d seen n s r : scan_members limits fs d seen n true s = inr r → more s = true → ∃ fs' seen' n', scan_member fs' d seen' n' s = inr r.
Proof.
  destruct fs as [|fs]; [done|]. cbn [scan_members]. intros H Hm. rewrite Hm in H. cbn [negb separated] in H. cbn [mbind option_bind] in H.
  rewrite scan_key_skip in H. unfold scan_member. destruct (scan_key s) as [[key value]|]; [|done].
  apply member_guards in H as (s' & -> & H). eauto.
Qed.

Lemma members_after fs d seen n s a t r : scan_members limits fs d seen n false s = inr r → skip_space s = String a t →
  if (code a =? 44)%N then ∃ fs' seen' n', scan_member fs' d seen' n' t = inr r else (code a =? 125)%N = true → r = t.
Proof.
  destruct fs as [|fs]; [done|]. cbn [scan_members]. unfold more, closing. intros H Hs. rewrite Hs in H.
  destruct (N.eqb_spec (code a) 44) as [H44|H44].
  - apply code_inv in H44. subst a. change (negb (negb ((code (chr 44) =? 93)%N || (code (chr 44) =? 125)%N))) with false in H.
    cbn [separated] in H. change (code (chr 44) =? 44)%N with true in H. cbn [mbind option_bind] in H. unfold scan_member. destruct (scan_key t) as [[key value]|]; [|done].
    apply member_guards in H as (s' & -> & H). eauto.
  - intros H125. rewrite H125, orb_true_r in H. cbn in H. by injection H as <-.
Qed.

(** Where both succeed, they end at the same place, and the value is as
    inspected. *)
Lemma scanned_ok f :
  (∀ d s v r fs dz r', parse_value f d s = Some (v, r) → scanJSONValue limits fs dz s = inr r' → r' = r ∧ json_ok d (to_any v)) ∧
  (∀ d s l r fs dz n r', parse_items f d s = Some (l, r) → scan_item fs dz n s = inr r' → r' = r ∧ Forall (λ v, json_ok d (to_any v)) l) ∧
  (∀ d s m r fs dz seen n r', parse_members f d s = Some (m, r) → scan_member fs dz seen n s = inr r' →
     r' = r ∧ Forall (λ p, utf8 p.1.1 ∧ json_ok d (to_any p.2)) m).
Proof.
  induction f as [|f (IHv & IHi & IHm)]; [done|]. split_and!.
  - intros d s v r fs dz r' Hp Hs. destruct fs as [|fs]; [done|]. cbn [parse_value scanJSONValue] in Hp, Hs.
    destruct (skip_space s) as [|a t] eqn:Hsk; [done|].
    destruct (code a =? 123)%N eqn:H123; [|destruct (code a =? 91)%N eqn:H91].
    + unfold value_body in Hp. rewrite Hsk, H123 in Hp. destruct (N.leb_spec max_nesting d); [done|]. apply guard_inr in Hs as [_ Hs].
      destruct (skip_space t) as [|b t'] eqn:Ht; [done|]. destruct (code b =? 125)%N eqn:H125.
      * injection Hp as <- <-. split; [|by apply object_ok]. destruct fs as [|fs]; [done|]. cbn [scan_members] in Hs. unfold more, closing in Hs.
        rewrite Ht, H125, orb_true_r in Hs. cbn in Hs. by injection Hs as <-.
      * apply bind_Some in Hp as ([m r0] & Hm & [= <- <-]). apply members_from in Hs as (fs' & seen' & n' & Hs); [|by eapply members_more].
        destruct (IHm _ _ _ _ _ _ _ _ _ Hm Hs) as [-> Hok]. split; [done|by apply object_ok].
    + unfold value_body in Hp. rewrite Hsk, H123, H91 in Hp. destruct (N.leb_spec max_nesting d); [done|]. apply guard_inr in Hs as [_ Hs].
      destruct (skip_space t) as [|b t'] eqn:Ht; [done|]. destruct (code b =? 93)%N eqn:H93.
      * injection Hp as <- <-. split; [|by apply array_ok]. destruct fs as [|fs]; [done|]. cbn [scan_items] in Hs. unfold more, closing in Hs.
        rewrite Ht, H93 in Hs. cbn in Hs. by injection Hs as <-.
      * apply bind_Some in Hp as ([l r0] & Hl & [= <- <-]). apply items_from in Hs as (fs' & n' & Hs).
        -- destruct (IHi _ _ _ _ _ _ _ _ Hl Hs) as [-> Hok]. split; [done|by apply array_ok].
        -- destruct f; [done|]. cbn [parse_items] in Hl. unfold items_body in Hl. apply bind_Some in Hl as (x & Hx & _). by eapply value_more.
    + apply (scalar_ok d (String a t) v r r'); [by rewrite <-Hsk, skip_space_twice|by intros ? ? [= <- <-]| |done].
      rewrite value_body_scalar in Hp by (rewrite Hsk; by intros ? ? [= <- <-]). rewrite <-Hp. unfold value_body. by rewrite <-Hsk, skip_space_twice.
  - intros d s l r fs dz n r' Hp Hs. cbn [parse_items] in Hp. unfold items_body in Hp. apply bind_Some in Hp as ([v r0] & Hv & Hp).
    apply scan_then_inr in Hs as (t & Ht & Hs). destruct (IHv _ _ _ _ _ _ _ Hv Ht) as [-> Hok].
    destruct (skip_space r0) as [|b t] eqn:Hr0; [done|]. pose proof (items_after _ _ _ _ _ _ _ Hs Hr0) as Hafter.
    destruct (code b =? 44)%N.
    + apply bind_Some in Hp as ([l' r1] & Hl & [= <- <-]). destruct Hafter as (fs' & n' & Hs').
      destruct (IHi _ _ _ _ _ _ _ _ Hl Hs') as [-> Hall]. split; [done|by constructor].
    + destruct (code b =? 93)%N; [|done]. injection Hp as <- <-. split; [by apply Hafter|by repeat constructor].
  - intros d s m r fs dz seen n r' Hp Hs. cbn [parse_members] in Hp. unfold members_body in Hp. unfold scan_member, scan_key in Hs.
    destruct (skip_space s) as [|q s0]; [done|]. unfold is_quote in Hs. destruct (code q =? 34)%N; [|done].
    apply bind_Some in Hp as ([body s1] & Hb & Hp). rewrite Hb in Hs. cbn [mbind option_bind] in Hs.
    destruct (skip_space s1) as [|c s2]; [done|]. destruct (code c =? 58)%N; [|done].
    apply bind_Some in Hp as ([v r0] & Hv & Hp). cbn zeta in Hp.
    apply scan_then_inr in Hs as (t & Ht & Hs). destruct (IHv _ _ _ _ _ _ _ Hv Ht) as [-> Hok].
    destruct (skip_space r0) as [|b t] eqn:Hr0; [done|]. pose proof (members_after _ _ _ _ _ _ _ _ Hs Hr0) as Hafter.
    assert (utf8 (unquote 0 body) ∧ json_ok d (to_any v)) as Hmember by (split; [apply unquote_utf8|done]).
    destruct (code b =? 44)%N.
    + apply bind_Some in Hp as ([m' r1] & Hm & [= <- <-]). destruct Hafter as (fs' & seen' & n' & Hs').
      destruct (IHm _ _ _ _ _ _ _ _ _ Hm Hs') as [-> Hall]. split; [done|by constructor].
    + destruct (code b =? 125)%N; [|done]. injection Hp as <- <-. split; [by apply Hafter|]. constructor; [exact Hmember|constructor].
Qed.
End Inspected.

(** ** Reading a canonical text *)

(** The value with its numbers in normal form. *)
Fixpoint normal (j : json) : json :=
  match j with
  | JNum lit => JNum (res_or lit (normalizeJSONNumber lit))
  | JArr l => JArr (map normal l)
  | JObj m => JObj (map (λ p, (p.1, normal p.2)) m)
  | _ => j
  end.

Lemma canonical_array l t : appendCanonical (JArr l) = Ok t →
  ∃ ts, Forall2 (λ v x, appendCanonical v = Ok x) l ts ∧ t = "[" +:+ String.concat "," ts +:+ "]".
Proof.
  cbn [appendCanonical]. intros (ts & Hts & [= <-])%bind_Ok. exists ts. split; [|done]. clear -Hts.
  revert ts Hts. induction l as [|v l IH]; intros ts H; [by injection H as <-|].
  apply bind_Ok in H as (x & Hx & (xs & Hxs & [= <-])%bind_Ok). constructor; [done|by apply IH].
Qed.

Definition member_text (k x : string) : string := marshalJSONString k +:+ ":" +:+ x.

Lemma canonical_object m t : appendCanonical (JObj m) = Ok t →
  ∃ ts, Forall2 (λ p x, ∃ y, appendCanonical p.2 = Ok y ∧ x = member_text p.1 y) m ts ∧ t = "{" +:+ String.concat "," ts +:+ "}".
Proof.
  cbn [appendCanonical]. intros (ts & Hts & [= <-])%bind_Ok. exists ts. split; [|done]. clear -Hts.
  revert ts Hts. induction m as [|[k v] m IH]; intros ts H; [by injection H as <-|].
  apply bind_Ok in H as (x & Hx & (xs & Hxs & [= <-])%bind_Ok). constructor; [by exists x|by apply IH].
Qed.

(** *** The first byte *)

(** A text that starts a value. *)
Definition starts (t : string) : bool :=
  match t with String a _ => negb (is_space a || (code a =? 93)%N || (code a =? 125)%N || (code a =? 44)%N) | "" => false end.

Lemma starts_app t r : starts t = true → starts (t +:+ r) = true.
Proof. by destruct t. Qed.

Lemma starts_skip t : starts t = true → skip_space t = t.
Proof. destruct t as [|a t]; [done|]. cbn [starts skip_space]. rewrite negb_true_iff, !orb_false_iff. by intros [[[-> _] _] _]. Qed.

Lemma starts_plain a : is_digit a = true ∨ a = "-"%char → negb (is_space a || (code a =? 93)%N || (code a =? 125)%N || (code a =? 44)%N) = true.
Proof.
  intros [Ha| ->]; [|done]. apply in_range_le in Ha. unfold is_space. rewrite negb_true_iff, !orb_false_iff, !N.eqb_neq. lia.
Qed.

Lemma numeral_head n : numeral_ok n → ∃ a t, numeral_text n = String a t ∧ (is_digit a = true ∨ a = "-"%char).
Proof.
  destruct n as [neg i f x]. intros [Hi _ _]. unfold numeral_text. cbn [nu_neg nu_whole nu_fraction nu_exponent] in *. destruct neg; [do 2 eexists; split; [reflexivity|by right]|].
  apply whole_digits in Hi as Hd. destruct i as [|a i]; [done|]. exists a, (i +:+ fraction_text f +:+ exponent_text x). split; [done|left].
  cbn [string_all] in Hd. by apply andb_true_iff in Hd as [? _].
Qed.

Section Read.
Context (limits : ParseLimits) (Hlimits : MaxNumberBytes limits ≤ 100000).

Lemma canonical_number lit t : number_ok limits lit → normalizeJSONNumber lit = Ok t → ∃ n, numeral_ok n ∧ t = numeral_text n.
Proof. intros [(n & Hn & ->) Hl] Ht. destruct (normalized_value n t Hn Ht) as [H _]; [lia|done]. Qed.

Lemma canonical_starts d j t : json_ok limits d j → appendCanonical j = Ok t → starts t = true.
Proof.
  destruct j as [|b|lit|s|l|m]; cbn [json_ok].
  - by intros _ [= <-].
  - intros _ [= <-]. by destruct b.
  - intros Hn Ht. cbn [appendCanonical] in Ht. destruct (canonical_number lit t Hn Ht) as (n & Hok & ->).
    destruct (numeral_head n Hok) as (a & r & -> & Ha). by apply starts_plain.
  - by intros _ [= <-].
  - intros _ (ts & _ & ->)%canonical_array. done.
  - intros _ (ts & _ & ->)%canonical_object. done.
Qed.

(** *** Parts *)

Definition reads (j : json) : Prop := ∀ t rest f d, json_ok limits d j → sorted_json j → appendCanonical j = Ok t → stops number_byte rest = true →
  (2 * String.length (t +:+ rest) < f)%nat → ∃ v, parse_value f d (t +:+ rest) = Some (v, rest) ∧ to_any v = normal j.

Lemma concat_cons x y ts : String.concat "," (x :: y :: ts) = x +:+ "," +:+ String.concat "," (y :: ts).
Proof. done. Qed.

Lemma skip_string a s : is_space a = false → skip_space (String a s) = String a s.
Proof. intros Ha. cbn [skip_space]. by rewrite Ha. Qed.

Lemma items_reads l : Forall reads l → ∀ ts rest f d, Forall2 (λ v x, appendCanonical v = Ok x) l ts → l ≠ [] →
  Forall (json_ok limits d) l → Forall sorted_json l → (2 * String.length (String.concat "," ts +:+ String "]" rest) + 1 < f)%nat →
  ∃ vs, parse_items f d (String.concat "," ts +:+ String "]" rest) = Some (vs, rest) ∧ map to_any vs = map normal l.
Proof.
  induction 1 as [|j l Hj _ IH]; intros ts rest f d Hts Hne Hok Hs Hf; [done|].
  inversion Hts as [|? x ? ts' Hx Hts' E1 E2]; subst. apply Forall_cons in Hok as [Hokj Hok], Hs as [Hsj Hs].
  destruct f as [|f]; [lia|]. cbn [parse_items]. unfold items_body.
  destruct l as [|j' l].
  - inversion Hts'; subst. destruct (Hj x (String "]" rest) f d Hokj Hsj Hx eq_refl) as (v & Hv & Hn); [cbn [String.concat] in Hf; lia|].
    cbn [String.concat]. rewrite Hv. cbn [mbind option_bind]. rewrite skip_string by done. exists [v]. split; [done|]. cbn [map]. by rewrite Hn.
  - inversion Hts' as [|? y ? ts2 Hy Hts2 E1 E2]; subst. rewrite concat_cons, !string_app_assoc in Hf |- *.
    change ("," +:+ String.concat "," (y :: ts2) +:+ String "]" rest) with (String "," (String.concat "," (y :: ts2) +:+ String "]" rest)) in *.
    rewrite length_string_app in Hf. cbn [String.length] in Hf.
    destruct (Hj x (String "," (String.concat "," (y :: ts2) +:+ String "]" rest)) f d Hokj Hsj Hx eq_refl) as (v & -> & Hn).
    { rewrite length_string_app. cbn [String.length]. lia. }
    cbn [mbind option_bind]. rewrite skip_string by done. change (code "," =? 44)%N with true. cbn match.
    destruct (IH (y :: ts2) rest f d Hts' ltac:(done) Hok Hs) as (vs & -> & Hvs); [lia|]. exists (v :: vs). split; [done|]. cbn [map] in *. by rewrite Hn, Hvs.
Qed.

Lemma quotation_app z : quotation +:+ z = String "034" z.
Proof. done. Qed.

Lemma member_read_text k x rest f d j : utf8 k → reads j → json_ok limits d j → sorted_json j → appendCanonical j = Ok x → stops number_byte rest = true →
  (2 * String.length (member_text k x +:+ rest) < f)%nat →
  ∃ raw v, (∀ members, members_body (parse_value f) members d (member_text k x +:+ rest) =
    let member := (k, raw, v) in
    match skip_space rest with
    | String b r4 =>
        if (code b =? 44)%N then '(m, r5) ← members d r4; Some (member :: m, r5)
        else if (code b =? 125)%N then Some ([member], r4) else None
    | "" => None
    end) ∧ to_any v = normal j.
Proof.
  intros Hk Hj Hok Hs Hx Hr Hf. unfold member_text, marshalJSONString in *. rewrite (utf8_fixed k Hk) in Hf |- *. rewrite !string_app_assoc in Hf |- *.
  rewrite !quotation_app in Hf |- *. change (":" +:+ ?z) with (String ":" z) in *.
  do 3 (cbn [String.length] in Hf; rewrite ?length_string_app in Hf).
  destruct (Hj x rest f d Hok Hs Hx Hr) as (v & Hv & Hn); [rewrite length_string_app; lia|].
  exists (consumed (skip_space (x +:+ rest)) rest), v. split; [|done]. intros members. unfold members_body.
  rewrite skip_string by done. change (code "034" =? 34)%N with true. cbn match. rewrite scan_escaped. cbn [mbind option_bind].
  rewrite skip_string by done. change (code ":" =? 58)%N with true. cbn match. rewrite Hv. cbn [mbind option_bind]. by rewrite read_escaped.
Qed.

Lemma members_read_text m : Forall (reads ∘ snd) m → ∀ ts rest f d, Forall2 (λ p x, ∃ y, appendCanonical p.2 = Ok y ∧ x = member_text p.1 y) m ts → m ≠ [] →
  Forall (λ p, utf8 p.1 ∧ json_ok limits d p.2) m → Forall (λ p, sorted_json p.2) m → (2 * String.length (String.concat "," ts +:+ String "}" rest) + 1 < f)%nat →
  ∃ vs, parse_members f d (String.concat "," ts +:+ String "}" rest) = Some (vs, rest) ∧
    map (λ p, (p.1.1, to_any p.2)) vs = map (λ p, (p.1, normal p.2)) m.
Proof.
  induction 1 as [|[k j] m Hj _ IH]; intros ts rest f d Hts Hne Hok Hs Hf; [done|].
  inversion Hts as [|? x ? ts' (y & Hx & ->) Hts' E1 E2]; subst. apply Forall_cons in Hok as [[Hk Hokj] Hok], Hs as [Hsj Hs]. cbn [fst snd] in *.
  destruct f as [|f]; [lia|]. cbn [parse_members].
  destruct m as [|p' m].
  - inversion Hts'; subst. cbn [String.concat] in *. destruct (member_read_text k y (String "}" rest) f d j Hk Hj Hokj Hsj Hx eq_refl) as (raw & v & Hv & Hn); [lia|].
    rewrite Hv. cbv zeta. rewrite skip_string by done. exists [(k, raw, v)]. split; [done|]. cbn [map fst snd]. by rewrite Hn.
  - inversion Hts' as [|? z ? ts2 Hz Hts2 E1 E2]; subst. rewrite concat_cons, (string_app_assoc (member_text k y)) in Hf |- *.
    change (("," +:+ String.concat "," (z :: ts2)) +:+ String "}" rest) with (String "," (String.concat "," (z :: ts2) +:+ String "}" rest)) in *.
    destruct (member_read_text k y (String "," (String.concat "," (z :: ts2) +:+ String "}" rest)) f d j Hk Hj Hokj Hsj Hx eq_refl) as (raw & v & Hv & Hn); [lia|].
    rewrite Hv. cbv zeta. rewrite skip_string by done. change (code "," =? 44)%N with true. cbn match.
    rewrite length_string_app in Hf. cbn [String.length] in Hf.
    destruct (IH (z :: ts2) rest f d Hts' ltac:(done) Hok Hs) as (vs & -> & Hvs); [lia|]. exists ((k, raw, v) :: vs). split; [done|]. cbn [map fst snd] in *. by rewrite Hn, Hvs.
Qed.

(** *** Objects keep their order *)

Lemma insert_last {A} k (v : A) m : Forall (λ p, String.compare k p.1 = Gt) m → obj_insert k v m = m ++ [(k, v)].
Proof. induction 1 as [|[k' v'] m Hk _ IH]; [done|]. cbn [obj_insert fst] in *. by rewrite Hk, IH. Qed.

Lemma compare_greater k k' : String.le k' k → k ≠ k' → String.compare k k' = Gt.
Proof.
  intros Hle Hne. unfold String.le, String.leb in Hle. rewrite String.compare_antisym in Hle.
  destruct (String.compare k k') eqn:Hc; [by apply String.compare_eq_iff in Hc|done|done].
Qed.

Lemma insert_sorted {A} (m : list (string * A)) : keys_ok m → fold_left (λ acc p, obj_insert p.1 p.2 acc) m [] = m.
Proof.
  unfold keys_ok. induction m as [|[k v] m IH] using rev_ind; intros [Hs Hn]; [done|]. rewrite fmap_app in Hs, Hn. cbn [fmap list_fmap fst] in Hs, Hn.
  rewrite fold_left_app. cbn [fold_left fst snd].
  apply StronglySorted_app in Hs as (Hle & Hs & _). apply NoDup_app in Hn as (Hn & Hd & _). rewrite IH by done.
  apply insert_last. apply Forall_forall. intros [k' v'] Hin. cbn [fst]. apply (list_elem_of_fmap_2 fst) in Hin. cbn [fst] in Hin. apply compare_greater.
  - apply Hle; [done|set_solver].
  - intros <-. by apply (Hd k Hin); left.
Qed.

Lemma normal_keys m : (map (λ p : string * json, (p.1, normal p.2)) m).*1 = m.*1.
Proof. induction m as [|p m IH]; [done|]. cbn [map]. by rewrite !fmap_cons, IH. Qed.

Lemma object_to_any vs m : keys_ok m → map (λ p, (p.1.1, to_any p.2)) vs = map (λ p, (p.1, normal p.2)) m → to_any (SObj vs) = normal (JObj m).
Proof.
  intros Hk Hvs. cbn [to_any normal]. f_equal. rewrite <-(insert_sorted (map (λ p, (p.1, normal p.2)) m)) by (unfold keys_ok; by rewrite normal_keys).
  rewrite <-Hvs. generalize (@nil (string * json)). clear. induction vs as [|[[k raw] v] vs IH]; intros acc; [done|]. cbn [map fold_left fst snd]. apply IH.
Qed.

Lemma strip_newlines_app p s : strip p (p +:+ s) = Some s.
Proof.
  unfold strip. assert (String.prefix p (p +:+ s) = true) as ->.
  { induction p as [|a p IH]; [by destruct s|]. rewrite app_cons. cbn [String.prefix]. by destruct (ascii_dec a a). }
  f_equal. assert (∀ k, (String.length s ≤ k)%nat → String.substring (String.length p) k (p +:+ s) = s) as H; [|apply H; rewrite length_string_app; lia].
  intros k Hk. induction p as [|a p IH]; [by apply substring_all|]. rewrite app_cons. cbn [String.length]. exact IH.
Qed.

(** Every canonical text is read back as the normal form of its value. *)
Lemma canonical_reads j : reads j.
Proof.
  induction j as [|b|lit|s|l IH|m IH] using json_ind'; intros t rest f d Hok Hs Ht Hr Hf; (destruct f as [|f]; [lia|]); cbn [parse_value]; unfold value_body.
  - injection Ht as <-. exists SNull. split; [|done]. pose proof (strip_newlines_app "null" rest) as Hstrip.
    change ("null" +:+ rest) with (String "n" ("ull" +:+ rest)) in *. rewrite skip_string by done. cbn -[strip]. by rewrite Hstrip.
  - injection Ht as <-. exists (SBool b). split; [|done]. destruct b.
    + pose proof (strip_newlines_app "true" rest) as Hstrip. change ("true" +:+ rest) with (String "t" ("rue" +:+ rest)) in *.
      rewrite skip_string by done. cbn -[strip]. by rewrite Hstrip.
    + pose proof (strip_newlines_app "false" rest) as Hstrip. change ("false" +:+ rest) with (String "f" ("alse" +:+ rest)) in *.
      rewrite skip_string by done. cbn -[strip]. by rewrite Hstrip.
  - cbn [appendCanonical json_ok] in *. destruct (canonical_number lit t Hok Ht) as (n & Hn & Htn).
    destruct (numeral_head n Hn) as (a & t' & Ha & Hhead). pose proof (starts_plain a Hhead) as Hst. subst t.
    pose proof (scan_numeral n rest Hn Hr) as Hscan. rewrite Ha in Hscan |- *. rewrite app_cons in Hscan |- *.
    rewrite skip_string by (by rewrite negb_true_iff, !orb_false_iff in Hst; apply Hst).
    assert ((code a =? 123)%N = false ∧ (code a =? 91)%N = false ∧ (code a =? 34)%N = false ∧ (code a =? 116)%N = false ∧ (code a =? 102)%N = false ∧ (code a =? 110)%N = false) as (-> & -> & -> & -> & -> & ->).
    { destruct Hhead as [Hd| ->]; [|done]. apply in_range_le in Hd. rewrite !N.eqb_neq. lia. }
    rewrite Hscan. cbn [mbind option_bind]. eexists. split; [reflexivity|]. cbn [to_any normal]. by rewrite Ht, <-Ha.
  - injection Ht as <-. cbn [json_ok] in Hok. unfold marshalJSONString. rewrite (utf8_fixed s Hok), !string_app_assoc, !quotation_app.
    rewrite skip_string by done. change (code "034" =? 123)%N with false. change (code "034" =? 91)%N with false. change (code "034" =? 34)%N with true. cbn match.
    rewrite scan_escaped. cbn [mbind option_bind]. eexists. split; [reflexivity|]. cbn [to_any normal]. by rewrite read_escaped.
  - apply canonical_array in Ht as (ts & Hts & ->). cbn [json_ok] in Hok. destruct Hok as [Hd Hok]. rewrite (foldr_forall (json_ok limits (d + 1))) in Hok.
    cbn [sorted_json] in Hs. rewrite (foldr_forall sorted_json) in Hs.
    rewrite !string_app_assoc in Hf |- *. change ("[" +:+ ?z) with (String "[" z) in *. change ("]" +:+ ?z) with (String "]" z) in *. cbn [String.length] in Hf.
    rewrite skip_string by done. change (code "[" =? 123)%N with false. change (code "[" =? 91)%N with true. cbn match.
    destruct (N.leb_spec max_nesting d); [lia|]. destruct l as [|j l].
    + inversion Hts; subst. change (String.concat "," [] +:+ ?z) with z. rewrite skip_string by done. by exists (SArr []).
    + destruct (items_reads (j :: l) IH ts rest f (d + 1)%N Hts) as (vs & Hvs & Hn); [done..|lia|].
      assert (skip_space (String.concat "," ts +:+ String "]" rest) = String.concat "," ts +:+ String "]" rest ∧ starts (String.concat "," ts +:+ String "]" rest) = true) as [Hskip Hst].
      { inversion Hts as [|? x ? ts' Hx Hts' E1 E2]; subst. apply Forall_cons in Hok as [Hokj _]. pose proof (canonical_starts _ _ _ Hokj Hx) as Hx'.
        assert (starts (String.concat "," (x :: ts') +:+ String "]" rest) = true) as Hstart; [|split; [by apply starts_skip|done]].
        apply starts_app. destruct ts'; [done|]. rewrite concat_cons. by apply starts_app. }
      rewrite Hskip. destruct (String.concat "," ts +:+ String "]" rest) as [|b r] eqn:Hr'; [done|].
      assert ((code b =? 93)%N = false) as -> by (cbn [starts] in Hst; rewrite negb_true_iff, !orb_false_iff in Hst; apply Hst).
      rewrite Hvs. cbn [mbind option_bind]. exists (SArr vs). split; [done|]. cbn [to_any normal]. by rewrite Hn.
  - apply canonical_object in Ht as (ts & Hts & ->). cbn [json_ok] in Hok. destruct Hok as [Hd Hok]. rewrite (foldr_forall (λ p, utf8 p.1 ∧ json_ok limits (d + 1) p.2)) in Hok.
    cbn [sorted_json] in Hs. destruct Hs as (Hk1 & Hk2 & Hs). rewrite (foldr_forall (λ p : string * json, sorted_json p.2)) in Hs.
    rewrite !string_app_assoc in Hf |- *. change ("{" +:+ ?z) with (String "{" z) in *. change ("}" +:+ ?z) with (String "}" z) in *. cbn [String.length] in Hf.
    rewrite skip_string by done. change (code "{" =? 123)%N with true. cbn match.
    destruct (N.leb_spec max_nesting d); [lia|]. destruct m as [|p m].
    + inversion Hts; subst. change (String.concat "," [] +:+ ?z) with z. rewrite skip_string by done. by exists (SObj []).
    + destruct (members_read_text (p :: m) IH ts rest f (d + 1)%N Hts) as (vs & Hvs & Hn); [done..|lia|].
      assert (skip_space (String.concat "," ts +:+ String "}" rest) = String.concat "," ts +:+ String "}" rest ∧ starts (String.concat "," ts +:+ String "}" rest) = true) as [Hskip Hst].
      { inversion Hts as [|? x ? ts' (y & Hy & ->) Hts' E1 E2]; subst.
        assert (starts (String.concat "," (member_text p.1 y :: ts') +:+ String "}" rest) = true) as Hstart; [|split; [by apply starts_skip|done]].
        apply starts_app. destruct ts'; [done|]. rewrite concat_cons. by apply starts_app. }
      rewrite Hskip. destruct (String.concat "," ts +:+ String "}" rest) as [|b r] eqn:Hr'; [done|].
      assert ((code b =? 125)%N = false) as -> by (cbn [starts] in Hst; rewrite negb_true_iff, !orb_false_iff in Hst; apply Hst).
      rewrite Hvs. cbn [mbind option_bind]. exists (SObj vs). split; [done|]. by apply object_to_any.
Qed.
End Read.

(** ** Values *)

Section Values.
Context (limits : ParseLimits) (Hlimits : MaxNumberBytes limits ≤ 100000).

Lemma number_value lit t : number_ok limits lit → normalizeJSONNumber lit = Ok t →
  ∃ q, denote (JNum lit) = Some (VNum q) ∧ denote (JNum t) = Some (VNum q).
Proof.
  intros [(n & Hn & ->) Hl] Ht. destruct (normalized_value n t Hn Ht) as (_ & r & r' & Hr & Hr' & _ & Heq); [lia|].
  exists (Qred r). cbn [denote]. rewrite Hr, Hr'. split; [done|]. cbn. by rewrite (Qred_complete _ _ Heq).
Qed.

Lemma mapM_same {A B C} (f : A → option C) (g : B → option C) l k : Forall2 (λ x y, ∃ z, f x = Some z ∧ g y = Some z) l k →
  ∃ zs, mapM f l = Some zs ∧ mapM g k = Some zs.
Proof.
  induction 1 as [|x y l k (z & Hx & Hy) _ (zs & Hl & Hk)]; [by exists []|]. exists (z :: zs). cbn. rewrite Hx, Hy. cbn. by rewrite Hl, Hk.
Qed.

(** What is canonical denotes a value, and its normal form the same one. *)
Lemma normal_denotes j : ∀ d t, json_ok limits d j → appendCanonical j = Ok t → ∃ v, denote j = Some v ∧ denote (normal j) = Some v.
Proof.
  induction j as [|b|lit|s|l IH|m IH] using json_ind'; intros d t Hok Ht; try (eexists; split; reflexivity).
  - cbn [json_ok appendCanonical] in *. destruct (number_value lit t Hok Ht) as (q & H1 & H2). exists (VNum q). split; [done|]. cbn [normal]. by rewrite Ht.
  - apply canonical_array in Ht as (ts & Hts & _). cbn [json_ok] in Hok. destruct Hok as [_ Hok]. rewrite (foldr_forall (json_ok limits (d + 1))) in Hok.
    destruct (mapM_same denote denote l (map normal l)) as (vs & H1 & H2); [|exists (VArr vs); cbn [denote normal]; by rewrite H1, H2].
    clear -IH Hts Hok. revert ts Hts. induction IH as [|j l Hj _ IHl]; intros ts Hts; [constructor|].
    inversion Hts; subst. apply Forall_cons in Hok as [Hokj Hok]. cbn [map]. constructor; [by eapply Hj|by eapply IHl].
  - apply canonical_object in Ht as (ts & Hts & _). cbn [json_ok] in Hok. destruct Hok as [_ Hok]. rewrite (foldr_forall (λ p, utf8 p.1 ∧ json_ok limits (d + 1) p.2)) in Hok.
    destruct (mapM_same (λ p : string * json, pair p.1 <$> denote p.2) (λ p : string * json, pair p.1 <$> denote p.2) m (map (λ p, (p.1, normal p.2)) m)) as (vs & H1 & H2);
      [|exists (VObj vs); cbn [denote normal]; by rewrite H1, H2].
    clear -IH Hts Hok. revert ts Hts. induction IH as [|[k j] m Hj _ IHm]; intros ts Hts; [constructor|].
    inversion Hts as [|? x ? ts' (y & Hy & ->) Hts' E1 E2]; subst. apply Forall_cons in Hok as [[_ Hokj] Hok]. cbn [map fst snd] in *. constructor; [|by eapply IHm].
    destruct (Hj _ _ Hokj Hy) as (v & Hv1 & Hv2). cbn [snd] in Hv1, Hv2. exists (k, v). change ((pair k <$> denote j) = Some (k, v) ∧ (pair k <$> denote (normal j)) = Some (k, v)). by rewrite Hv1, Hv2.
Qed.

Lemma number_unique lit1 lit2 t1 t2 q : number_ok limits lit1 → number_ok limits lit2 → normalizeJSONNumber lit1 = Ok t1 → normalizeJSONNumber lit2 = Ok t2 →
  denote (JNum lit1) = Some (VNum q) → denote (JNum lit2) = Some (VNum q) → t1 = t2.
Proof.
  intros [(n1 & H1 & ->) L1] [(n2 & H2 & ->) L2] Ht1 Ht2 D1 D2.
  destruct (normalized_value n1 t1 H1 Ht1) as (_ & r1 & _ & R1 & _ & V1 & _); [lia|]. destruct (normalized_value n2 t2 H2 Ht2) as (_ & r2 & _ & R2 & _ & V2 & _); [lia|].
  cbn [denote] in D1, D2. rewrite R1 in D1. rewrite R2 in D2. injection D1 as <-. injection D2 as D2.
  apply (normalized_unique n1 n2); try done. rewrite <-V1, <-V2, <-(Qred_correct r1), <-(Qred_correct r2). by rewrite D2.
Qed.

Lemma denote_shape j v : denote j = Some v → match v with
  | VNull => j = JNull | VBool b => j = JBool b | VStr s => j = JStr s
  | VNum _ => ∃ lit, j = JNum lit | VArr _ => ∃ l, j = JArr l | VObj _ => ∃ m, j = JObj m end.
Proof.
  destruct j; cbn [denote]; try (by intros [= <-]); intros (? & _ & ->)%fmap_Some; cbn; eauto.
Qed.

(** One value, one canonical text. *)
Lemma canonical_unique j1 : ∀ j2 d t1 t2 v, json_ok limits d j1 → json_ok limits d j2 →
  appendCanonical j1 = Ok t1 → appendCanonical j2 = Ok t2 → denote j1 = Some v → denote j2 = Some v → t1 = t2.
Proof.
  induction j1 as [|b|lit|s|l IH|m IH] using json_ind'; intros j2 d t1 t2 v O1 O2 T1 T2 D1 D2; pose proof (denote_shape j2 v D2) as Hshape.
  - injection D1 as <-. subst j2. congruence.
  - injection D1 as <-. subst j2. congruence.
  - pose proof D1 as D1'. cbn [denote] in D1'. apply fmap_Some in D1' as (q & _ & ->). destruct Hshape as [lit2 ->]. cbn [json_ok appendCanonical] in *. by apply (number_unique lit lit2 t1 t2 (Qred q)).
  - injection D1 as <-. subst j2. congruence.
  - apply denote_arr in D1 as (vs & -> & D1). destruct Hshape as [l2 ->].
    apply denote_arr in D2 as (vs' & [= <-] & D2). apply canonical_array in T1 as (ts1 & T1 & ->), T2 as (ts2 & T2 & ->).
    cbn [json_ok] in O1, O2. destruct O1 as [_ O1], O2 as [_ O2]. rewrite (foldr_forall (json_ok limits (d + 1))) in O1, O2.
    assert (ts1 = ts2) as ->; [|done]. revert l2 ts1 ts2 vs D1 D2 T1 T2 O2. induction IH as [|j l Hj _ IHl]; intros l2 ts1 ts2 vs D1 D2 T1 T2 O2.
    + inversion D1; subst. inversion D2; subst. inversion T1; subst. by inversion T2.
    + inversion D1; subst. inversion D2; subst. inversion T1; subst. inversion T2; subst. apply Forall_cons in O1 as [O1j O1], O2 as [O2j O2].
      f_equal; [by eapply Hj|by eapply IHl].
  - apply denote_obj in D1 as (vs & -> & D1).
    destruct Hshape as [m2 ->].
    apply denote_obj in D2 as (vs' & [= <-] & D2). apply canonical_object in T1 as (ts1 & T1 & ->), T2 as (ts2 & T2 & ->).
    cbn [json_ok] in O1, O2. destruct O1 as [_ O1], O2 as [_ O2]. rewrite (foldr_forall (λ p, utf8 p.1 ∧ json_ok limits (d + 1) p.2)) in O1, O2.
    assert (ts1 = ts2) as ->; [|done]. revert m2 ts1 ts2 vs D1 D2 T1 T2 O2. induction IH as [|[k j] m Hj _ IHm]; intros m2 ts1 ts2 vs D1 D2 T1 T2 O2.
    + inversion D1; subst. inversion D2; subst. inversion T1; subst. by inversion T2.
    + inversion D1 as [|? ? ? ? [K1 J1] D1' E1 E2]; subst. inversion D2 as [|? ? ? ? [K2 J2] D2' E1 E2]; subst.
      inversion T1 as [|? ? ? ? (y1 & Y1 & ->) T1' E1 E2]; subst. inversion T2 as [|? ? ? ? (y2 & Y2 & ->) T2' E1 E2]; subst.
      apply Forall_cons in O1 as [[_ O1j] O1], O2 as [[_ O2j] O2]. cbn [fst snd] in *. f_equal; [|by eapply IHm].
      rewrite K2. rewrite <-K1. by rewrite (Hj _ _ _ _ _ O1j O2j Y1 Y2 J1 J2).
Qed.
End Values.

(** ** The claims *)

Lemma canonicalized raw limits c : CanonicalizeJSON raw limits = Ok c →
  ∃ j, decode_any raw = Some j ∧ json_ok (normalizeLimits limits) 0 j ∧ sorted_json j ∧ appendCanonical j = Ok c.
Proof.
  unfold CanonicalizeJSON. destruct (inspectJSON raw (normalizeLimits limits)) eqn:Hi; [done|].
  destruct (decode_any raw) as [j|] eqn:Hj; [|done]. intros Hc. exists j. split_and!; [done| |by apply decode_any_sorted in Hj|done].
  unfold inspectJSON in Hi. destruct (_ <? _); [done|]. destruct (negb (utf8_valid raw)); [done|]. destruct (negb (validUnicodeEscapes false raw)); [done|].
  destruct (scanJSONValue _ _ _ _) as [issue|rest] eqn:Hs; [done|]. unfold decode_any, parse in Hj.
  destruct (parse_value _ 0 raw) as [[v r]|] eqn:Hp; [|done]. injection Hj as <-. by eapply scanned_ok.
Qed.

Lemma canonical_decodes limits j c : MaxNumberBytes limits ≤ 100000 → json_ok limits 0 j → sorted_json j → appendCanonical j = Ok c →
  decode_any c = Some (normal j) ∧ json_valid c = true.
Proof.
  intros Hl Hok Hs Hc. destruct (canonical_reads limits Hl j c "" (2 * String.length c + 2)%nat 0%N Hok Hs Hc eq_refl) as (v & Hv & Hn).
  { rewrite string_app_nil. lia. }
  rewrite string_app_nil in Hv. unfold decode_any, json_valid, parse. rewrite Hv. split; [cbn; by rewrite Hn|done].
Qed.

(** The value that a text denotes. *)
Definition denoted (raw : string) : option value := decode_any raw ≫= denote.

Lemma canonical_denoted raw limits c : MaxNumberBytes (normalizeLimits limits) ≤ 100000 → CanonicalizeJSON raw limits = Ok c →
  ∃ v, denoted raw = Some v ∧ denoted c = Some v.
Proof.
  intros Hl (j & Hj & Hok & Hs & Hc)%canonicalized. destruct (normal_denotes _ Hl j 0%N c Hok Hc) as (v & H1 & H2).
  destruct (canonical_decodes _ j c Hl Hok Hs Hc) as [Hd _]. exists v. unfold denoted. by rewrite Hj, Hd.
Qed.

Lemma json_ok_weaken limits limits' j : MaxNumberBytes limits ≤ MaxNumberBytes limits' → ∀ d, json_ok limits d j → json_ok limits' d j.
Proof.
  intros Hl. induction j as [|b|lit|s|l IH|m IH] using json_ind'; intros d; cbn [json_ok]; try done.
  - intros [H1 H2]. split; [done|lia].
  - intros [Hd H]. split; [done|]. induction IH as [|j l Hj _ IHl]; [done|]. cbn [foldr] in *. destruct H as [H1 H2]. split; [by apply Hj|by apply IHl].
  - intros [Hd H]. split; [done|]. induction IH as [|p m Hp _ IHm]; [done|]. cbn [foldr] in *. destruct H as [[Hk H1] H2]. split; [split; [done|by apply Hp]|by apply IHm].
Qed.

(** C14: two texts have one canonical form exactly when they denote one value,
    numbers compared as rationals, objects as maps, strings as texts; so equal
    digests of canonical texts mean equal values, up to collisions. *)
Theorem canonical_text_unique raw1 raw2 limits1 limits2 c1 c2 :
  MaxNumberBytes (normalizeLimits limits1) ≤ 100000 → MaxNumberBytes (normalizeLimits limits2) ≤ 100000 →
  CanonicalizeJSON raw1 limits1 = Ok c1 → CanonicalizeJSON raw2 limits2 = Ok c2 →
  c1 = c2 ↔ denoted raw1 = denoted raw2.
Proof.
  intros L1 L2 H1 H2. destruct (canonical_denoted raw1 limits1 c1 L1 H1) as (v1 & D1 & E1), (canonical_denoted raw2 limits2 c2 L2 H2) as (v2 & D2 & E2).
  split; [intros ->; congruence|]. intros Heq. rewrite D1, D2 in Heq. injection Heq as <-. unfold denoted in D1, D2.
  apply canonicalized in H1 as (j1 & J1 & O1 & _ & C1), H2 as (j2 & J2 & O2 & _ & C2). rewrite J1 in D1. rewrite J2 in D2. cbn [mbind option_bind] in D1, D2.
  set (limits := MkParseLimits 0 0 0 100000 0). eapply (canonical_unique limits (Z.le_refl 100000) j1 j2 0%N); [exact (json_ok_weaken _ limits j1 L1 0%N O1)|exact (json_ok_weaken _ limits j2 L2 0%N O2)|done..].
Qed.

(** C15: a canonical text is valid JSON; it decodes to the value of the original
    text with every number in normal form, so it denotes what the original
    denotes, and whatever limits it is canonicalized under again, the result, if
    there is one, is the same text.  There may be none: 10e10000 becomes 1e10001,
    whose exponent is refused. *)
Theorem canonical_text_faithful raw limits c :
  MaxNumberBytes (normalizeLimits limits) ≤ 100000 → CanonicalizeJSON raw limits = Ok c →
  json_valid c = true ∧ (∃ j, decode_any raw = Some j ∧ decode_any c = Some (normal j)) ∧
  (∃ v, denoted raw = Some v ∧ denoted c = Some v) ∧
  ∀ again c', MaxNumberBytes (normalizeLimits again) ≤ 100000 → CanonicalizeJSON c again = Ok c' → c' = c.
Proof.
  intros Hl Hc. pose proof (canonical_denoted raw limits c Hl Hc) as (v & Hv & Hv').
  pose proof (canonicalized _ _ _ Hc) as (j & Hj & Hok & Hs & Hj'). destruct (canonical_decodes _ j c Hl Hok Hs Hj') as [Hd Hvalid].
  split_and!; [done|by exists j|by exists v|]. intros again c' Ha Hc'.
  pose proof (canonical_denoted c again c' Ha Hc') as (w & Hw & _). unfold denoted in Hv, Hv', Hw.
  pose proof (canonicalized _ _ _ Hc') as (j2 & J2 & O2 & _ & C2). rewrite Hj in Hv. rewrite J2 in Hv'. cbn [mbind option_bind] in Hv, Hv'.
  set (limits' := MkParseLimits 0 0 0 100000 0).
  eapply (canonical_unique limits' (Z.le_refl 100000) j2 j 0%N); [exact (json_ok_weaken _ limits' j2 Ha 0%N O2)|exact (json_ok_weaken _ limits' j Hl 0%N Hok)|done..].
Qed.

Definition loose_text : string := " {" +:+ q "b" +:+ " : [1.0, -0e5, 1E2 ], " +:+ q "a" +:+ ":" +:+ q "\u0041\n" +:+ "}".
Definition tight_text : string := "{" +:+ q "a" +:+ ":" +:+ q "A\u000a" +:+ "," +:+ q "b" +:+ ":[10e-1,0,100]}".
Definition one_text : string := "{" +:+ q "a" +:+ ":" +:+ q "A\n" +:+ "," +:+ q "b" +:+ ":[1,0,100]}".

Lemma loose_canonical : CanonicalizeJSON loose_text DefaultParseLimits = Ok one_text.
Proof. vm_compute. reflexivity. Qed.
Lemma tight_canonical : CanonicalizeJSON tight_text DefaultParseLimits = Ok one_text.
Proof. vm_compute. reflexivity. Qed.
Lemma default_small : MaxNumberBytes (normalizeLimits DefaultParseLimits) ≤ 100000.
Proof. vm_compute. discriminate. Qed.

Lemma canonical_text_unique_witness : denoted loose_text = denoted tight_text.
Proof.
  apply (canonical_text_unique loose_text tight_text DefaultParseLimits DefaultParseLimits one_text one_text default_small default_small loose_canonical tight_canonical).
  reflexivity.
Defined.

Lemma canonical_text_faithful_witness : json_valid one_text = true ∧ ∃ v, denoted loose_text = Some v ∧ denoted one_text = Some v.
Proof.
  destruct (canonical_text_faithful loose_text DefaultParseLimits one_text default_small loose_canonical) as (Hvalid & _ & Hv & _).
  split; [exact Hvalid|exact Hv].
Defined.

(** A canonical text that is refused when it is canonicalized again. *)
Example canonical_refused : CanonicalizeJSON "10e10000" DefaultParseLimits = Ok "1e10001" ∧
  is_ok (CanonicalizeJSON "1e10001" DefaultParseLimits) = false.
Proof. split; vm_compute; reflexivity. Qed.
