(* ===== verification/Engine.v ===== *)
(** * The workflow engine

    Models internal/runtime/engine/engine.go: one in-memory aggregate that owns
    the Workflow Run, its Node Runs and Attempts, and the state of every
    control edge, and that advances them when an attempt completes, a retry
    falls due, or the run is canceled or times out.  Operations run in a state
    and error monad in which a state change made before an error stays, as it
    does on the Go pointer receiver.  Loops over Go maps whose order can be
    observed take it from a [range_order].  A nil dereference is the error
    [nil_pointer]; the invariant of EngineFacts excludes it. *)

From Stdlib Require Import Ascii.
From S2P Require Import Prelude Json Dsl Branch Runtime.

Open Scope string_scope.
Open Scope list_scope.
Open Scope Z_scope.

(** ** State *)

Definition FailureNodeFailed : string := "NODE_FAILED".
Definition FailureNodeTimeout : string := "NODE_TIMEOUT".
Definition FailureRunCanceled : string := "RUN_CANCELED".
Definition FailureRunTimedOut : string := "RUN_TIMED_OUT".
Definition FailureOutputContract : string := "RUNTIME_OUTPUT_CONTRACT_VIOLATION".
Definition FailureInputContract : string := "RUNTIME_INPUT_CONTRACT_VIOLATION".

Record Snapshot : Type := MkSnapshot { sn_ID : string; sn_DefinitionHash : string; sn_DSL : Document }.

Inductive EdgeState : Type := EdgePending | EdgeActive | EdgeInactive.
#[export] Instance EdgeState_eq_dec : EqDecision EdgeState.
Proof. solve_decision. Defined.

(** [doc] is the DSL of the snapshot. *)
Record Engine : Type := MkEngine {
  en_snapshot : Snapshot;
  en_run : WorkflowRun;
  en_nodeDefs : gmap string Node;
  en_nodes : gmap string NodeRun;
  en_attempts : gmap string NodeAttempt;
  en_attemptNodes : gmap string string;
  en_edges : gmap string EdgeState;
  en_incoming : gmap string (list Edge);
  en_outgoing : gmap string (list Edge) }.

#[export] Instance Engine_eta : Eta Engine := λ e,
  MkEngine (en_snapshot e) (en_run e) (en_nodeDefs e) (en_nodes e) (en_attempts e) (en_attemptNodes e)
    (en_edges e) (en_incoming e) (en_outgoing e).

Definition en_doc (e : Engine) : Document := sn_DSL (en_snapshot e).

(** ** The monad of engine operations *)

Definition eng (A : Type) : Type := Engine → Engine * res A.

#[export] Instance eng_ret : MRet eng := λ A a e, (e, Ok a).
#[export] Instance eng_bind : MBind eng := λ A B f m e,
  match m e with
  | (e', Ok a) => f a e'
  | (e', Err x) => (e', Err x)
  end.

Definition get : eng Engine := λ e, (e, Ok e).
Definition modify (f : Engine → Engine) : eng unit := λ e, (f e, Ok tt).
Definition fail {A} (x : error) : eng A := λ e, (e, Err x).
Definition lift {A} (r : res A) : eng A := λ e, (e, r).

Definition nil_pointer : error := Errorf "invalid memory address or nil pointer dereference" [].

Definition set_node (id : string) (n : NodeRun) (e : Engine) : Engine :=
  e <| en_nodes := <[id := n]> (en_nodes e) |>.
Definition set_run (r : WorkflowRun) (e : Engine) : Engine := e <| en_run := r |>.
Definition set_attempt (id : string) (a : NodeAttempt) (e : Engine) : Engine :=
  e <| en_attempts := <[id := a]> (en_attempts e) |>.

(** A method call on the Node Run behind [engine.nodes[id]]. *)
Definition on_node (id : string) (f : NodeRun → res NodeRun) : eng unit := λ e,
  match en_nodes e !! id with
  | None => (e, Err nil_pointer)
  | Some n => match f n with Ok n' => (set_node id n' e, Ok tt) | Err x => (e, Err x) end
  end.

(** [_, _ = engine.run.RequestTermination(intent)] *)
Definition request_termination (intent : TerminationIntent) : eng unit := λ e,
  match WorkflowRun_RequestTermination (en_run e) intent with
  | Ok (r, _) => (set_run r e, Ok tt)
  | Err _ => (e, Ok tt)
  end.

(** ** Reading the state *)

Definition node_state (e : Engine) (id : string) : option NodeState := nr_state <$> en_nodes e !! id.
Definition terminal_node (n : NodeRun) : bool := NodeState_Terminal (nr_state n).

Definition sortedNodeIDs (e : Engine) : list string := sorted_keys (en_nodes e).
Definition allNodeRuns (e : Engine) : list NodeRun := omap (λ id, en_nodes e !! id) (sortedNodeIDs e).

Definition incoming_of (e : Engine) (id : string) : list Edge := default [] (en_incoming e !! id).
Definition outgoing_of (e : Engine) (id : string) : list Edge := default [] (en_outgoing e !! id).

Definition allIncomingSettled (e : Engine) (id : string) : bool :=
  forallb (λ d, negb (bool_decide (en_edges e !! ed_ID d = Some EdgePending))) (incoming_of e id).
Definition anyIncomingActive (e : Engine) (id : string) : bool :=
  existsb (λ d, bool_decide (en_edges e !! ed_ID d = Some EdgeActive)) (incoming_of e id).
Definition allNodesTerminal (e : Engine) : bool := forallb (λ p, terminal_node p.2) (map_to_list (en_nodes e)).
Definition allOtherNodesTerminal (e : Engine) (except : string) : bool :=
  forallb (λ p, bool_decide (p.1 = except) || terminal_node p.2) (map_to_list (en_nodes e)).

Definition zero_policy : ExecutionPolicy := MkExecutionPolicy 0 0 0 None [].
Definition zero_node : Node := MkNode "" (KindOther "") (MkOperation "" 0 None) None None zero_policy.
Definition definition_of (e : Engine) (id : string) : Node := default zero_node (en_nodeDefs e !! id).

Definition ReadyNodeIDs (e : Engine) : list string :=
  match wr_termination (en_run e) with
  | Some _ => []
  | None => List.filter (λ id, bool_decide (node_state e id = Some NodeReady)) (sortedNodeIDs e)
  end.

Definition failure (e : Engine) (code phase message nodeID attemptID field : string) (retryable : bool) : Failure :=
  {| fl_Code := code; fl_Phase := phase; fl_Retryable := retryable; fl_RunID := wr_id (en_run e);
     fl_SnapshotID := sn_ID (en_snapshot e); fl_DefinitionHash := sn_DefinitionHash (en_snapshot e);
     fl_ExecutionNodeID := nodeID; fl_DSLField := field; fl_ExecutionEdgeID := ""; fl_AttemptID := attemptID;
     fl_Expected := ""; fl_Actual := ""; fl_Message := message; fl_Details := None |}.

Definition retryable (policy : ExecutionPolicy) (code : string) : bool :=
  bool_decide (code ∈ ep_RetryableErrorCodes policy).

(** [at.Add(time.Duration(DelayMS) * time.Millisecond)], with the conversion
    and the product in [int64]. *)
Definition retryDueAt (at_ : Time) (policy : ExecutionPolicy) : res Time :=
  match ep_RetryBackoff policy with
  | Some b => Ok (at_ + i64 (i64 (rb_DelayMS b) * 1000000))
  | None => Err nil_pointer
  end.

Definition cancelReason (kind : TerminationKind) : string :=
  match kind with
  | TerminationCanceled => FailureRunCanceled
  | TerminationTimedOut => FailureRunTimedOut
  | _ => FailureNodeFailed
  end.

Definition atOrCreated (at_ : Time) (run : WorkflowRun) : Time := if IsZero at_ then wr_createdAt run else at_.

(** ** Values *)

(** Unlike the validator's function, a number that [big.Rat] does not read has
    no type. *)
Definition engine_rawDataType (raw : string) : option DataType :=
  if negb (json_valid raw) then None
  else decode_any raw ≫= λ j,
    match j with
    | JNum l => (λ q, if rat_is_int q then TypeInteger else TypeNumber) <$> rat_set_string l
    | _ => json_data_type j
    end.

Definition output_error (values : gmap string string) (name : string) (t : DataType) : option error :=
  match values !! name with
  | None => Some (Errorf "required output %s is missing" [name])
  | Some value =>
      let actual := engine_rawDataType value in
      if match actual with
         | Some a => bool_decide (a = t) || bool_decide (a = TypeInteger) && bool_decide (t = TypeNumber)
         | None => false
         end
      then None
      else Some (Errorf "output %s has type %s, expected %s"
                   [name; from_option data_type_string "" actual; data_type_string t])
  end.

(** ** Cloning a document through JSON *)

Definition clean (s : string) : string := to_valid_utf8 0 s.
Definition clean_type (t : DataType) : DataType := match t with TypeOther raw => TypeOther (clean raw) | _ => t end.

(** A map is written in key order and read back member by member. *)
Definition clone_map {A B} (f : A → option B) (m : gmap string A) : option (gmap string B) :=
  l ← mapM (λ p, pair (clean p.1) <$> f p.2) (sorted_items m);
  Some (fold_left (λ acc p, <[p.1 := p.2]> acc) l ∅).

Definition clone_binding (b : InputBinding) : option InputBinding :=
  value ← (if bool_decide (ib_Value b = "") then Some "" else clone_raw (ib_Value b));
  Some (MkInputBinding
    (match ib_Kind b with BindingOther raw => BindingOther (clean raw) | k => k end)
    (clean_type (ib_DataType b)) value
    ((λ o, MkOutputReference (clean (or_NodeID o)) (clean (or_Name o))) <$> ib_Output b)).

Definition clone_nilable {A B} (f : A → option B) (m : option (gmap string A)) : option (option (gmap string B)) :=
  match m with None => Some None | Some m => Some <$> clone_map f m end.

Definition clone_policy (p : ExecutionPolicy) : ExecutionPolicy :=
  MkExecutionPolicy (ep_MaxAttempts p) (ep_MaxRecoveries p) (ep_AttemptTimeoutMS p)
    ((λ b, MkRetryBackoff (clean (rb_Kind b)) (rb_DelayMS b)) <$> ep_RetryBackoff p)
    (clean <$> ep_RetryableErrorCodes p).

Definition clone_node (n : Node) : option Node :=
  let o := nd_Operation n in
  configuration ← clone_nilable clone_raw (op_Config o);
  ins ← clone_nilable clone_binding (nd_Inputs n);
  outs ← clone_nilable (Some ∘ clean_type) (nd_Outputs n);
  Some (MkNode (clean (nd_ID n)) (match nd_Kind n with KindOther raw => KindOther (clean raw) | k => k end)
    (MkOperation (clean (op_Type o)) (op_Version o) configuration) ins outs (clone_policy (nd_ExecutionPolicy n))).

Definition clone_edge (d : Edge) : Edge :=
  MkEdge (clean (ed_ID d)) (clean (ed_SourceNodeID d)) (clean (ed_TargetNodeID d))
    (MkActivation (match ac_Kind (ed_Activation d) with ActivationOther raw => ActivationOther (clean raw) | k => k end)
       (clean (ac_Route (ed_Activation d)))).

Definition cloneDocument (d : Document) : res Document :=
  match mapM clone_node (dc_Nodes d) with
  | None => Err (Errorf "json: error calling MarshalJSON for type json.RawMessage" [])
  | Some nodes =>
      Ok (MkDocument (clean (dc_DSLVersion d)) (clean (dc_EntryNodeID d)) (clean (dc_ExitNodeID d))
            nodes (clone_edge <$> dc_Edges d))
  end.

Section Engine.
Context (order : range_order).

(** The first failing output in map order is the error reported. *)
Definition validateOutputs (definition : Node) (values : gmap string string) : res unit :=
  guard_err (negb (bool_decide (size values = size (outputs definition))))
    (Errorf "output field count does not match DSL contract" []) ;;
  match omap (λ name, t ← outputs definition !! name; output_error values name t)
          (order 0%nat "validateOutputs" (sorted_keys (outputs definition))) with
  | [] => Ok tt
  | e :: _ => Err e
  end.

(** One input binding: its value, not available yet ([None]), or an error. *)
Definition resolve_binding (e : Engine) (b : InputBinding) : res (option string) :=
  match ib_Kind b with
  | BindingLiteral => Ok (Some (ib_Value b))
  | BindingNodeOutput =>
      match ib_Output b with
      | None => Err (Errorf "binding output is missing" [])
      | Some o =>
          match en_nodes e !! or_NodeID o with
          | None => Err (Errorf "source node is missing" [])
          | Some source =>
              if negb (bool_decide (nr_state source = NodeSucceeded)) then
                if terminal_node source then Err (Errorf "source node did not succeed" []) else Ok None
              else
                match nr_effectiveOutputs source !! or_Name o with
                | None => Err (Errorf "effective output is missing" [])
                | Some value => Ok (Some value)
                end
          end
      end
  | BindingOther _ => Err (Errorf "input binding kind is unsupported" [])
  end.

Fixpoint resolve_bindings (e : Engine) (bindings : gmap string InputBinding) (names : list string)
    (acc : gmap string string) : res (option (gmap string string)) :=
  match names with
  | [] => Ok (Some acc)
  | name :: rest =>
      match bindings !! name with
      | None => resolve_bindings e bindings rest acc
      | Some b =>
          value ← resolve_binding e b;
          match value with
          | None => Ok None
          | Some v => resolve_bindings e bindings rest (<[name := v]> acc)
          end
      end
  end.

Definition resolveInputs (pass : nat) (e : Engine) (definition : Node) : res (option (gmap string string)) :=
  resolve_bindings e (inputs definition)
    (order pass (nd_ID definition) (sorted_keys (inputs definition))) ∅.

(** ** Settling edges *)

Definition edge_state_for (sourceState : NodeState) (selectedRoute : string) (a : Activation) : EdgeState :=
  if bool_decide (sourceState = NodeSucceeded)
     && (bool_decide (ac_Kind a = ActivationAlways)
         || bool_decide (ac_Kind a = ActivationRoute) && bool_decide (ac_Route a = selectedRoute))
  then EdgeActive else EdgeInactive.

Definition settle_edges (edges : gmap string EdgeState) (out : list Edge) (state : NodeState) (route : string)
    : gmap string EdgeState :=
  fold_left (λ m d, <[ed_ID d := edge_state_for state route (ed_Activation d)]> m) out edges.

Definition settleOutgoing (source selectedRoute : string) : eng unit := λ e,
  match outgoing_of e source, en_nodes e !! source with
  | [], _ => (e, Ok tt)
  | _, None => (e, Err nil_pointer)
  | out, Some n => (e <| en_edges := settle_edges (en_edges e) out (nr_state n) selectedRoute |>, Ok tt)
  end.

(** ** Driving the run *)

(** What one node of the sweep does: go on (did it change anything?), or start
    over because the run was terminated. *)
Inductive outcome : Type := Next (changed : bool) | Restart.

Definition fail_node (at_ : Time) (id : string) (fl : Failure) (f : NodeRun → res NodeRun) : eng outcome :=
  on_node id f ;;
  e ← get;
  request_termination {| ti_Kind := TerminationFailed; ti_RequestedAt := atOrCreated at_ (en_run e); ti_Cause := fl |} ;;
  mret Restart.

(** A control node whose inputs are resolved. *)
Definition drive_control (at_ : Time) (id : string) (definition : Node) (values : gmap string string) : eng outcome :=
  e ← get;
  let type := op_Type (nd_Operation definition) in
  if bool_decide (type = "control.branch") then
    match evaluateBranch order definition (default "" (values !! "value")) with
    | Err err =>
        let '(code, field) := match err with EngineError c _ f _ => (c, f) | _ => ("", "") end in
        let fl := failure e code "control_evaluation" (error_string err) id "" field false in
        fail_node at_ id fl (λ n, NodeRun_FailControl n fl)
    | Ok route =>
        on_node id (λ n, NodeRun_SucceedControl n route ∅) ;;
        settleOutgoing id route ;;
        mret (Next true)
    end
  else if bool_decide (type = "control.end") then
    if negb (allOtherNodesTerminal e id) then mret (Next false)
    else
      match en_nodes e !! id with
      | None => fail nil_pointer
      | Some n =>
          '(run, end_) ← lift (CompleteWorkflowSuccess (en_run e) n (allNodeRuns e)
                                 (default "" (values !! "workflow_output")));
          modify (λ e, set_node id end_ (set_run run e)) ;;
          mret (Next true)
      end
  else if bool_decide (type = "control.start") then fail (Errorf "unexpected second start node" [])
  else fail (Errorf "unsupported control operation %s" [type]).

(** The body of the sweep for one node that is pending and settled. *)
Definition drive_pending (pass : nat) (at_ : Time) (id : string) : eng outcome :=
  e ← get;
  if negb (anyIncomingActive e id) then
    on_node id NodeRun_Skip ;; settleOutgoing id "" ;; mret (Next true)
  else
    on_node id NodeRun_Activate ;;
    e ← get;
    let definition := definition_of e id in
    match resolveInputs pass e definition with
    | Err err =>
        let fl := failure e FailureInputContract "input_binding" (error_string err) id "" "inputs" false in
        fail_node at_ id fl (λ n,
          if bool_decide (nr_kind n = NodeControl) then NodeRun_FailControl n fl else NodeRun_FailBeforeAttempt n fl)
    | Ok None => mret (Next false)
    | Ok (Some values) =>
        if bool_decide (nd_Kind definition = KindTask) then
          on_node id (λ n, NodeRun_Ready n values) ;; mret (Next true)
        else drive_control at_ id definition values
    end.

Definition drive_node (pass : nat) (at_ : Time) (id : string) : eng outcome :=
  e ← get;
  match en_nodes e !! id with
  | None => fail nil_pointer
  | Some n =>
      if negb (bool_decide (nr_state n = NodePending)) || bool_decide (id = dc_EntryNodeID (en_doc e))
         || negb (allIncomingSettled e id)
      then mret (Next false)
      else drive_pending pass at_ id
  end.

Fixpoint sweep (pass : nat) (at_ : Time) (ids : list string) (changed : bool) : eng outcome :=
  match ids with
  | [] => mret (Next changed)
  | id :: rest =>
      o ← drive_node pass at_ id;
      match o with
      | Restart => mret Restart
      | Next c => sweep pass at_ rest (changed || c)
      end
  end.

(** While terminating: a node whose current attempt still runs is waited for,
    every other one is canceled. *)
Definition awaits_attempt (e : Engine) (n : NodeRun) : bool :=
  match nr_state n with
  | NodeQueued | NodeRunning =>
      match en_attempts e !! nr_currentAttemptID n with
      | Some a => negb (AttemptState_Terminal (na_state a))
      | None => false
      end
  | _ => false
  end.

Fixpoint cancel_nodes (intent : TerminationIntent) (ids : list string) : eng unit :=
  match ids with
  | [] => mret tt
  | id :: rest =>
      e ← get;
      match en_nodes e !! id with
      | None => fail nil_pointer
      | Some n =>
          if terminal_node n || awaits_attempt e n then cancel_nodes intent rest
          else
            on_node id (λ n, NodeRun_Cancel n (cancelReason (ti_Kind intent))) ;;
            settleOutgoing id "" ;;
            cancel_nodes intent rest
      end
  end.

Definition drive_terminating (intent : TerminationIntent) : eng unit :=
  e ← get;
  cancel_nodes intent (sortedNodeIDs e) ;;
  e ← get;
  if allNodesTerminal e then
    run ← lift (WorkflowRun_CompleteTermination (en_run e) (allNodeRuns e));
    modify (set_run run)
  else mret tt.

(** Every pass but the last takes a node out of [NodePending] or sets the
    termination intent; [drive_fuel] is one pass more than that allows. *)
Fixpoint drive_loop (fuel : nat) (at_ : Time) : eng unit :=
  match fuel with
  | O => fail (Errorf "drive does not settle" [])
  | S fuel' =>
      e ← get;
      match wr_termination (en_run e) with
      | Some intent => drive_terminating intent
      | None =>
          o ← sweep fuel at_ (sortedNodeIDs e) false;
          e ← get;
          match o with
          | Restart => drive_loop fuel' at_
          | Next changed =>
              if RunState_Terminal (wr_state (en_run e)) || negb changed then mret tt else drive_loop fuel' at_
          end
      end
  end.

Definition drive_fuel (e : Engine) : nat := (2 + size (en_nodes e))%nat.
Definition drive (at_ : Time) : eng unit := λ e, drive_loop (drive_fuel e) at_ e.

(** ** Initialization *)

Definition initialize : eng unit :=
  e ← get;
  run ← lift (WorkflowRun_Start (en_run e) (sortedNodeIDs e));
  modify (set_run run) ;;
  let entry := dc_EntryNodeID (en_doc e) in
  on_node entry NodeRun_Activate ;;
  on_node entry (λ n, NodeRun_SucceedControl n "" {["workflow_input" := wr_workflowInput run]}) ;;
  settleOutgoing entry "" ;;
  drive 0.

Definition runtime_kind (k : Dsl.NodeKind) : NodeKind := if bool_decide (k = KindControl) then NodeControl else NodeTask.

(** The loop over the nodes of the document. *)
Fixpoint add_nodes (runID : string) (nodes : list Node) (acc : gmap string Node * gmap string NodeRun)
    : res (gmap string Node * gmap string NodeRun) :=
  match nodes with
  | [] => Ok acc
  | definition :: rest =>
      n ← NewNodeRun runID (nd_ID definition) (runtime_kind (nd_Kind definition));
      add_nodes runID rest (<[nd_ID definition := definition]> acc.1, <[nd_ID definition := n]> acc.2)
  end.

Definition sort_edges (l : list Edge) : list Edge := stable_sort (λ a b, String.leb (ed_ID a) (ed_ID b)) l.
Definition group_edges (key : Edge → string) (edges : list Edge) : gmap string (list Edge) :=
  sort_edges <$> fold_left (λ m d, <[key d := default [] (m !! key d) ++ [d]]> m) edges ∅.

Definition first_issue (code : option string) (issues : list Issue) : res unit :=
  match issues with
  | [] => Ok tt
  | i :: _ => Err (EngineError (default (is_Code i) code) (is_NodeID i) (is_Field i) None)
  end.

(** The engine before its initialization. *)
Definition build (snapshot : Snapshot) (command : CreateRunCommand) (contract : Contract)
    (compatibility : CompatibilityChecker) : res Engine :=
  guard_err (bool_decide (sn_ID snapshot = "") || bool_decide (sn_DefinitionHash snapshot = "")
             || negb (bool_decide (dr_SnapshotID (cc_Definition command) = sn_ID snapshot))
             || negb (bool_decide (dr_DefinitionHash (cc_Definition command) = sn_DefinitionHash snapshot)))
    (EngineError "RUNTIME_SNAPSHOT_BINDING_INVALID" "" "" None) ;;
  match cloneDocument (sn_DSL snapshot) with
  | Err e => Err (EngineError "RUNTIME_DSL_INVALID" "" "" (Some e))
  | Ok document =>
      first_issue None (CheckAll compatibility document) ;;
      first_issue (Some "RUNTIME_DSL_INVALID") (Validate contract document) ;;
      run ← NewWorkflowRun command;
      '(defs, nodes) ← add_nodes (cc_RunID command) (dc_Nodes document) (∅, ∅);
      Ok (MkEngine (MkSnapshot (sn_ID snapshot) (sn_DefinitionHash snapshot) document) run defs nodes ∅ ∅
            (fold_left (λ m d, <[ed_ID d := EdgePending]> m) (dc_Edges document) ∅)
            (group_edges ed_TargetNodeID (dc_Edges document))
            (group_edges ed_SourceNodeID (dc_Edges document)))
  end.

Definition New (snapshot : Snapshot) (command : CreateRunCommand) (contract : Contract)
    (compatibility : CompatibilityChecker) : res Engine :=
  instance ← build snapshot command contract compatibility;
  let '(e, r) := initialize instance in
  r ;; Ok e.

(** ** Operations *)

Definition QueueNode (nodeID attemptID : string) : eng NodeAttempt := λ e,
  match wr_termination (en_run e), en_attempts e !! attemptID, en_nodes e !! nodeID with
  | Some _, _, _ => (e, Err (Errorf "run is terminating" []))
  | None, Some _, _ => (e, Err (Errorf "attempt id already exists" []))
  | None, None, None => (e, Err (Errorf "node does not exist" []))
  | None, None, Some n =>
      match NodeRun_QueueAttempt n attemptID with
      | Err x => (e, Err x)
      | Ok (n', (sequence, kind)) =>
          let e := set_node nodeID n' e in
          match NewNodeAttempt attemptID (ExecutionIdempotencyKey n') sequence kind with
          | Err x => (e, Err x)
          | Ok a => (set_attempt attemptID a e <| en_attemptNodes := <[attemptID := nodeID]> (en_attemptNodes e) |>, Ok a)
          end
      end
  end.

(** [engine.nodes[engine.attemptNodes[attemptID]]] *)
Definition attempt_node (e : Engine) (attemptID : string) : string := default "" (en_attemptNodes e !! attemptID).

Definition StartAttempt (attemptID : string) : eng unit := λ e,
  match en_attempts e !! attemptID with
  | None => (e, Err (Errorf "attempt does not exist" []))
  | Some a =>
      if bool_decide (na_state a = AttemptRunning) then (e, Ok tt)
      else
        match NodeAttempt_Start a with
        | Err x => (e, Err x)
        | Ok a' => on_node (attempt_node e attemptID) (λ n, NodeRun_AttemptStarted n attemptID) (set_attempt attemptID a' e)
        end
  end.

Definition RecordAttemptResult (attemptID : string) (result : AttemptResult) : eng bool := λ e,
  match en_attempts e !! attemptID with
  | None => (e, Err (Errorf "attempt does not exist" []))
  | Some a =>
      match en_nodes e !! attempt_node e attemptID with
      | None => (e, Err (Errorf "attempt node does not exist" []))
      | Some n =>
          if negb (bool_decide (nr_currentAttemptID n = attemptID)) then (e, Ok false)
          else
            match na_result a with
            | Some recorded =>
                if AttemptResult_Equal recorded result then (e, Ok false)
                else (e, Err (Errorf "attempt result conflicts with recorded terminal fact" []))
            | None =>
                match NodeAttempt_Complete a result with
                | Err x => (e, Err x)
                | Ok a' => (set_attempt attemptID a' e, Ok true)
                end
            end
      end
  end.

Definition acceptSuccess (id : string) (definition : Node) (attemptID : string) (values : gmap string string) : eng unit :=
  lift (validateOutputs definition values) ;;
  on_node id (λ n, NodeRun_SucceedAttempt n attemptID values) ;;
  settleOutgoing (nd_ID definition) "".

(** Try an operation and hand its error on as a value; its effects stay. *)
Definition attempt_op {A} (m : eng A) : eng (res A) := λ e, let '(e', r) := m e in (e', Ok r).

(** A completion that arrives while the run is terminating. *)
Definition complete_terminating (intent : TerminationIntent) (key : string) (n : NodeRun) (attemptID : string)
    (result : AttemptResult) (at_ : Time) : eng unit :=
  let cancel := on_node key (λ n, NodeRun_Cancel n (cancelReason (ti_Kind intent))) in
  e ← get;
  (if bool_decide (ar_State result = AttemptSucceeded) then
     r ← attempt_op (acceptSuccess key (definition_of e (nr_executionNodeID n)) attemptID (ar_Outputs result));
     match r with Ok _ => mret tt | Err _ => cancel end
   else cancel) ;;
  drive at_.

(** Fail the node for good and ask the run to terminate. *)
Definition fail_attempt (key : string) (fl : Failure) (at_ : Time) (f : NodeRun → res NodeRun) : eng unit :=
  on_node key f ;;
  request_termination {| ti_Kind := TerminationFailed; ti_RequestedAt := at_; ti_Cause := fl |} ;;
  drive at_.

Definition retry_wait (key attemptID : string) (kind : RetryKind) (at_ : Time) (policy : ExecutionPolicy) : eng unit :=
  due ← lift (retryDueAt at_ policy);
  on_node key (λ n, NodeRun_RetryWait n attemptID kind due).

Definition complete_running (key : string) (n : NodeRun) (attemptID : string) (result : AttemptResult) (at_ : Time) : eng unit :=
  e ← get;
  let id := nr_executionNodeID n in
  let definition := definition_of e id in
  let policy := nd_ExecutionPolicy definition in
  let fl code := (failure e code "node_execution" (ar_Message result) id attemptID (ar_DSLField result) false)
                   <| fl_Details := ar_ErrorDetails result |> in
  match ar_State result with
  | AttemptSucceeded =>
      r ← attempt_op (acceptSuccess key definition attemptID (ar_Outputs result));
      match r with
      | Ok _ => drive at_
      | Err x =>
          let fl := failure e FailureOutputContract "output_binding" (error_string x) id attemptID "outputs" false in
          fail_attempt key fl at_ (λ n, NodeRun_FailAttempt n attemptID NodeFailed fl)
      end
  | AttemptLost =>
      if nr_recoveryCount n <? ep_MaxRecoveries policy then retry_wait key attemptID AttemptRecovery at_ policy
      else fail_attempt key (fl (ar_ErrorCode result)) at_
             (λ n, NodeRun_FailAttempt n attemptID NodeFailed (fl (ar_ErrorCode result)))
  | AttemptFailed | AttemptTimedOut =>
      if retryable policy (ar_ErrorCode result) && (nr_businessAttemptCount n <? ep_MaxAttempts policy)
      then retry_wait key attemptID AttemptBusiness at_ policy
      else
        let timed_out := bool_decide (ar_State result = AttemptTimedOut) in
        let code := if timed_out && bool_decide (ar_ErrorCode result = "") then FailureNodeTimeout else ar_ErrorCode result in
        fail_attempt key (fl code) at_
          (λ n, NodeRun_FailAttempt n attemptID (if timed_out then NodeTimedOut else NodeFailed) (fl code))
  | AttemptCanceled =>
      fail_attempt key (fl (ar_ErrorCode result)) at_ (λ n, NodeRun_Cancel n FailureNodeFailed)
  | _ => fail (Errorf "attempt result state is unsupported" [])
  end.

Definition HandleAttemptCompleted (attemptID : string) (at_ : Time) : eng unit :=
  e ← get;
  match en_attempts e !! attemptID with
  | None => fail (Errorf "attempt does not exist" [])
  | Some a =>
      lift (guard_err (IsZero at_) (Errorf "completion timestamp is required" [])) ;;
      lift (guard_err (Before at_ (wr_createdAt (en_run e))) (Errorf "completion timestamp cannot predate the run" [])) ;;
      match na_result a with
      | None => fail (Errorf "attempt result has not been recorded" [])
      | Some result =>
          match en_nodes e !! attempt_node e attemptID with
          | None => fail (Errorf "attempt node does not exist" [])
          | Some n =>
              if negb (bool_decide (nr_currentAttemptID n = attemptID)) then mret tt
              else if terminal_node n || bool_decide (nr_state n = NodeRetryWait) || bool_decide (nr_state n = NodeReady)
              then mret tt
              else
                match wr_termination (en_run e) with
                | Some intent => complete_terminating intent (attempt_node e attemptID) n attemptID result at_
                | None => complete_running (attempt_node e attemptID) n attemptID result at_
                end
          end
      end
  end.

Definition RetryDue (nodeID : string) (at_ : Time) : eng unit :=
  e ← get;
  match wr_termination (en_run e) with
  | Some _ => drive at_
  | None =>
      match en_nodes e !! nodeID with
      | None => fail (Errorf "node does not exist" [])
      | Some n =>
          if negb (bool_decide (nr_state n = NodeRetryWait)) then mret tt
          else on_node nodeID (λ n, fst <$> NodeRun_RetryDue n at_)
      end
  end.

Definition terminate (at_ : Time) (kind : TerminationKind) (fl : Failure) : eng bool :=
  e ← get;
  '(run, applied) ← lift (WorkflowRun_RequestTermination (en_run e)
     {| ti_Kind := kind; ti_RequestedAt := at_; ti_Cause := fl |});
  modify (set_run run) ;;
  drive at_ ;;
  mret applied.

Definition RequestCancel (at_ : Time) (cause : string) : eng bool :=
  e ← get;
  if RunState_Terminal (wr_state (en_run e)) then mret false
  else terminate at_ TerminationCanceled (failure e FailureRunCanceled "run_control" cause "" "" "" false).

Definition DeadlineReached (at_ : Time) : eng bool :=
  e ← get;
  if RunState_Terminal (wr_state (en_run e)) then mret false
  else if Before at_ (wr_deadlineAt (en_run e)) then mret false
  else terminate at_ TerminationTimedOut (failure e FailureRunTimedOut "run_deadline" "workflow deadline reached" "" "" "" false).

Definition cancel_result : AttemptResult :=
  MkAttemptResult AttemptCanceled ∅ "ATTEMPT_CANCELED" "attempt cancellation acknowledged" "" None.

Definition CancelAttempt (attemptID : string) (at_ : Time) : eng unit :=
  _ ← RecordAttemptResult attemptID cancel_result;
  HandleAttemptCompleted attemptID at_.
End Engine.

(** ** A sample run *)

Definition sample_snapshot : Snapshot := MkSnapshot "snap" "hash" sample_document.
Definition sample_input : string := "{" +:+ q "score" +:+ ": 11}".
Definition sample_start : CreateRunCommand :=
  {| cc_RunID := "run"; cc_ProjectID := "project"; cc_WorkflowID := "workflow"; cc_Purpose := RunPurposeTest;
     cc_Definition := {| dr_SnapshotID := "snap"; dr_DefinitionHash := "hash"; dr_Source := DefinitionDraftSnapshot;
                         dr_PublishedVersionID := "" |};
     cc_WorkflowInput := sample_input; cc_DeadlineAt := 1000000; cc_CreatedAt := 10 |}.

Definition empty_engine : Engine :=
  MkEngine sample_snapshot
    (MkWorkflowRun "" "" "" RunPurposeTest (cc_Definition sample_start) "" "" 0 0 RunPending 0 0 ∅ None) ∅ ∅ ∅ ∅ ∅ ∅ ∅.
Definition sample_engine : Engine :=
  res_or empty_engine (New range_id sample_snapshot sample_start sample_contract BuiltinV1Compatibility).

(** The branch chose the task on the route [high]; the other task is skipped. *)
Example sample_engine_ready : ReadyNodeIDs sample_engine = [sample_id "3"] ∧
  node_state sample_engine (sample_id "4") = Some NodeSkipped.
Proof. vm_compute. split; reflexivity. Qed.

Definition after {A} (m : eng A) (e : Engine) : Engine := (m e).1.
Definition sample_success : AttemptResult := MkAttemptResult AttemptSucceeded {["out" := "1.5"]} "" "" "" None.
Definition sample_completed : Engine :=
  after (HandleAttemptCompleted range_id "a1" 30) (after (RecordAttemptResult "a1" sample_success)
    (after (StartAttempt "a1") (after (QueueNode (sample_id "3") "a1") sample_engine))).

Example sample_completes : wr_state (en_run sample_completed) = RunSucceeded ∧
  wr_workflowOutput (en_run sample_completed) = sample_input.
Proof. vm_compute. split; reflexivity. Qed.
