(* ===== verification/EngineSteps.v ===== *)
(** * Engine steps and the engine invariant

    The atomic changes of the engine state as a step relation: a Node Run
    moves together with the control edges, the run, and the attempt it moves
    with.  [engine_inv] collects what holds between steps: identities and
    kinds, control flow, fail-fast termination, attempts, and the retry budget.
    Every step preserves it; EngineFacts shows that every operation of the
    engine is a sequence of steps. *)

From S2P Require Import Prelude Json Dsl Branch Runtime Engine.

Open Scope string_scope.
Open Scope list_scope.
Open Scope Z_scope.

(** ** Edges *)

(** [settleOutgoing] on a state that has the node. *)
Definition settle (id route : string) (e : Engine) : Engine :=
  e <| en_edges := settle_edges (en_edges e) (outgoing_of e id) (default NodePending (node_state e id)) route |>.

Lemma settleOutgoing_settle id route e n :
  en_nodes e !! id = Some n → settleOutgoing id route e = (settle id route e, Ok tt).
Proof.
  intros Hn. unfold settleOutgoing, settle, node_state. rewrite Hn. simpl.
  destruct (outgoing_of e id) eqn:Ho; [|done]. unfold settle_edges. simpl. by destruct e.
Qed.

Lemma settle_edges_other edges out st route k :
  (∀ d, d ∈ out → ed_ID d ≠ k) → settle_edges edges out st route !! k = edges !! k.
Proof.
  unfold settle_edges. revert edges; induction out as [|d out IH]; intros edges Hk; simpl; [done|].
  rewrite IH by set_solver. rewrite lookup_insert_ne; [done|]. apply Hk. set_solver.
Qed.

Lemma settle_edges_out edges out st route d :
  (∀ d', d' ∈ out → ed_ID d' = ed_ID d → d' = d) → d ∈ out →
  settle_edges edges out st route !! ed_ID d = Some (edge_state_for st route (ed_Activation d)).
Proof.
  revert edges; induction out as [|d' out IH] using rev_ind; intros edges Huniq Hin; [set_solver|].
  unfold settle_edges. rewrite fold_left_app. simpl. destruct (decide (ed_ID d' = ed_ID d)) as [Heq|Hne].
  - assert (d' = d) as -> by (apply Huniq; set_solver). by rewrite lookup_insert_eq.
  - rewrite lookup_insert_ne by done. apply IH; [set_solver|]. set_solver.
Qed.

(** ** Steps *)

Section Steps.
Context (order : range_order).

(** A binding read at a moment when it has a value. *)
Definition resolved (e : Engine) (definition : Node) (values : gmap string string) : Prop :=
  ∀ name b, inputs definition !! name = Some b →
    ∃ v, values !! name = Some v ∧ resolve_binding e b = Ok (Some v).

Definition idle_node (e : Engine) (id : string) (n : NodeRun) : Prop :=
  en_nodes e !! id = Some n ∧ nr_state n = NodePending ∧ wr_termination (en_run e) = None ∧
  wr_state (en_run e) = RunRunning ∧ id ≠ dc_EntryNodeID (en_doc e).

(** The current attempt of a node and its recorded result. *)
Definition completed (e : Engine) (id : string) (n : NodeRun) (attemptID : string) (result : AttemptResult) : Prop :=
  en_nodes e !! id = Some n ∧ nr_currentAttemptID n = attemptID ∧ attemptID ≠ "" ∧
  ∃ a, en_attempts e !! attemptID = Some a ∧ na_result a = Some result.

Inductive engine_step (e : Engine) : Engine → Prop :=
  | step_activate id n n' :
      idle_node e id n → allIncomingSettled e id = true → anyIncomingActive e id = true →
      NodeRun_Activate n = Ok n' → engine_step e (set_node id n' e)
  | step_skip id n n' :
      idle_node e id n → allIncomingSettled e id = true → anyIncomingActive e id = false →
      NodeRun_Skip n = Ok n' → engine_step e (settle id "" (set_node id n' e))
  | step_ready id n n' values :
      idle_node e id n → resolved e (definition_of e id) values →
      NodeRun_Ready n values = Ok n' → engine_step e (set_node id n' e)
  | step_branch id n n' values route :
      idle_node e id n → resolved e (definition_of e id) values →
      op_Type (nd_Operation (definition_of e id)) = "control.branch" →
      evaluateBranch order (definition_of e id) (default "" (values !! "value")) = Ok route →
      NodeRun_SucceedControl n route ∅ = Ok n' → engine_step e (settle id route (set_node id n' e))
  | step_end id n values run' n' :
      idle_node e id n → resolved e (definition_of e id) values →
      op_Type (nd_Operation (definition_of e id)) = "control.end" →
      CompleteWorkflowSuccess (en_run e) n (allNodeRuns e) (default "" (values !! "workflow_output")) = Ok (run', n') →
      engine_step e (set_node id n' (set_run run' e))
  | step_fail_pending id n n' op fl intent run' :
      idle_node e id n →
      op = OpFailControl fl ∨ op = OpFailBeforeAttempt fl → node_apply op n = Ok n' →
      ti_Kind intent = TerminationFailed → ti_Cause intent = fl →
      WorkflowRun_RequestTermination (en_run e) intent = Ok (run', true) →
      engine_step e (set_run run' (set_node id n' e))
  | step_fail_attempt id n n' attemptID result op intent run' :
      completed e id n attemptID result → wr_termination (en_run e) = None →
      op = OpCancel FailureNodeFailed ∨ (∃ target fl, op = OpFailAttempt attemptID target fl) →
      node_apply op n = Ok n' → ti_Kind intent = TerminationFailed →
      WorkflowRun_RequestTermination (en_run e) intent = Ok (run', true) →
      engine_step e (set_run run' (set_node id n' e))
  | step_queue id n n' attemptID sequence kind a :
      en_nodes e !! id = Some n → wr_termination (en_run e) = None → en_attempts e !! attemptID = None →
      NodeRun_QueueAttempt n attemptID = Ok (n', (sequence, kind)) →
      NewNodeAttempt attemptID (ExecutionIdempotencyKey n') sequence kind = Ok a →
      engine_step e (set_attempt attemptID a (set_node id n' e)
                       <| en_attemptNodes := <[attemptID := id]> (en_attemptNodes e) |>)
  | step_start id n n' attemptID a a' :
      en_nodes e !! id = Some n → en_attempts e !! attemptID = Some a → en_attemptNodes e !! attemptID = Some id →
      NodeAttempt_Start a = Ok a' → NodeRun_AttemptStarted n attemptID = Ok n' →
      engine_step e (set_node id n' (set_attempt attemptID a' e))
  | step_record id n attemptID a a' result :
      en_nodes e !! id = Some n → en_attempts e !! attemptID = Some a → en_attemptNodes e !! attemptID = Some id →
      nr_currentAttemptID n = attemptID → na_result a = None → NodeAttempt_Complete a result = Ok a' →
      engine_step e (set_attempt attemptID a' e)
  | step_accept id n n' attemptID result :
      completed e id n attemptID result → ar_State result = AttemptSucceeded →
      validateOutputs order (definition_of e id) (ar_Outputs result) = Ok tt →
      NodeRun_SucceedAttempt n attemptID (ar_Outputs result) = Ok n' →
      engine_step e (settle id "" (set_node id n' e))
  | step_retry_wait id n n' attemptID result kind due :
      completed e id n attemptID result → wr_termination (en_run e) = None →
      (kind = AttemptRecovery ∧ nr_recoveryCount n < ep_MaxRecoveries (nd_ExecutionPolicy (definition_of e id))) ∨
      (kind = AttemptBusiness ∧ nr_businessAttemptCount n < ep_MaxAttempts (nd_ExecutionPolicy (definition_of e id))) →
      NodeRun_RetryWait n attemptID kind due = Ok n' → engine_step e (set_node id n' e)
  | step_retry_due id n n' at_ :
      en_nodes e !! id = Some n → wr_termination (en_run e) = None →
      NodeRun_RetryDue n at_ = Ok (n', true) → engine_step e (set_node id n' e)
  | step_terminate intent run' :
      ti_Kind intent ≠ TerminationFailed →
      WorkflowRun_RequestTermination (en_run e) intent = Ok (run', true) → engine_step e (set_run run' e)
  | step_cancel id n n' intent settled :
      en_nodes e !! id = Some n → wr_termination (en_run e) = Some intent →
      NodeState_Terminal (nr_state n) = false → awaits_attempt e n = false →
      NodeRun_Cancel n (cancelReason (ti_Kind intent)) = Ok n' →
      engine_step e (if settled : bool then settle id "" (set_node id n' e) else set_node id n' e)
  | step_complete run' :
      WorkflowRun_CompleteTermination (en_run e) (allNodeRuns e) = Ok run' → engine_step e (set_run run' e).
End Steps.

(** ** The invariant *)

Definition failed_state (s : NodeState) : bool :=
  match s with NodeFailed | NodeTimedOut | NodeCanceled => true | _ => false end.

(** The state of an edge, given its source: settled by success and by
    skipping, never active otherwise. *)
Definition edge_ok (n : NodeRun) (d : Edge) (st : EdgeState) : Prop :=
  match nr_state n with
  | NodeSucceeded => st = edge_state_for NodeSucceeded (nr_selectedRoute n) (ed_Activation d)
  | NodeSkipped => st = EdgeInactive
  | NodeFailed | NodeTimedOut | NodeCanceled => st ≠ EdgeActive
  | _ => st = EdgePending
  end.

(** The current attempt of a node is terminal unless the node waits for it. *)
Definition phase_ok (s : NodeState) (a : AttemptState) : Prop :=
  AttemptState_Terminal a = true ∨ s = NodeQueued ∧ a = AttemptQueued ∨ s = NodeRunning ∧ a = AttemptRunning.

Record static_inv (c : Contract) (command : CreateRunCommand) (e : Engine) : Prop := {
  sv_doc : doc_wf c (en_doc e);
  sv_defs : en_nodeDefs e = node_map (dc_Nodes (en_doc e));
  sv_in : ∀ id d, d ∈ incoming_of e id ↔ d ∈ dc_Edges (en_doc e) ∧ ed_TargetNodeID d = id;
  sv_out : ∀ id d, d ∈ outgoing_of e id ↔ d ∈ dc_Edges (en_doc e) ∧ ed_SourceNodeID d = id;
  sv_run : run_wf command (en_run e);
  sv_started : wr_state (en_run e) ≠ RunPending;
  sv_ids : ∀ id, id ∈ wr_executionNodeIDs (en_run e) ↔ is_Some (en_nodes e !! id);
  sv_nodes : ∀ id, is_Some (en_nodes e !! id) ↔ is_Some (en_nodeDefs e !! id);
  sv_node : ∀ id n, en_nodes e !! id = Some n →
    node_wf n ∧ nr_executionNodeID n = id ∧ nr_runID n = wr_id (en_run e) ∧
    nr_kind n = runtime_kind (nd_Kind (definition_of e id)) }.

Record flow_inv (e : Engine) : Prop := {
  fv_entry : ∃ n, en_nodes e !! dc_EntryNodeID (en_doc e) = Some n ∧ nr_state n = NodeSucceeded;
  fv_edge : ∀ d n, d ∈ dc_Edges (en_doc e) → en_nodes e !! ed_SourceNodeID d = Some n →
    ∃ st, en_edges e !! ed_ID d = Some st ∧ edge_ok n d st;
  fv_active : ∀ id n, en_nodes e !! id = Some n → nr_activated n = true →
    id = dc_EntryNodeID (en_doc e) ∨ allIncomingSettled e id = true ∧ anyIncomingActive e id = true;
  fv_skipped : ∀ id n, en_nodes e !! id = Some n → nr_state n = NodeSkipped →
    allIncomingSettled e id = true ∧ anyIncomingActive e id = false;
  fv_fail_fast : ∀ id n, en_nodes e !! id = Some n → failed_state (nr_state n) = true →
    is_Some (wr_termination (en_run e));
  fv_done : RunState_Terminal (wr_state (en_run e)) = true →
    ∀ id n, en_nodes e !! id = Some n → NodeState_Terminal (nr_state n) = true;
  fv_success : wr_state (en_run e) = RunSucceeded →
    ∀ id n, en_nodes e !! id = Some n → succeeded_or_skipped (nr_state n) = true }.

Record attempt_inv (e : Engine) : Prop := {
  av_attempt : ∀ aid a, en_attempts e !! aid = Some a →
    attempt_wf a ∧ na_id a = aid ∧
    ∃ id n, en_attemptNodes e !! aid = Some id ∧ en_nodes e !! id = Some n ∧
            na_nodeRunID a = ExecutionIdempotencyKey n;
  av_owner : ∀ aid id, en_attemptNodes e !! aid = Some id → is_Some (en_attempts e !! aid);
  av_current : ∀ id n, en_nodes e !! id = Some n → nr_currentAttemptID n ≠ "" →
    ∃ a, en_attempts e !! nr_currentAttemptID n = Some a ∧ en_attemptNodes e !! nr_currentAttemptID n = Some id ∧
         phase_ok (nr_state n) (na_state a);
  av_single : ∀ aid a id n, en_attempts e !! aid = Some a → en_attemptNodes e !! aid = Some id →
    en_nodes e !! id = Some n → AttemptState_Terminal (na_state a) = false → nr_currentAttemptID n = aid }.

(** Attempts used, and the one a waiting node may still make. *)
Definition budget_ok (p : ExecutionPolicy) (n : NodeRun) : Prop :=
  0 ≤ nr_businessAttemptCount n ≤ ep_MaxAttempts p ∧ 0 ≤ nr_recoveryCount n ≤ ep_MaxRecoveries p ∧
  (match nr_state n with NodePending | NodeReady | NodeRetryWait => True | _ => False end →
   if bool_decide (nr_nextAttemptKind n = AttemptRecovery) then nr_recoveryCount n < ep_MaxRecoveries p
   else nr_businessAttemptCount n < ep_MaxAttempts p).

Definition budget_inv (e : Engine) : Prop :=
  ∀ id n, en_nodes e !! id = Some n → nr_kind n = NodeTask →
    budget_ok (nd_ExecutionPolicy (definition_of e id)) n.

(** A succeeded task holds its declared outputs, each of its type. *)
Definition outputs_ok (definition : Node) (values : gmap string string) : Prop :=
  ∀ name t, outputs definition !! name = Some t → output_error values name t = None.

Definition data_inv (e : Engine) : Prop :=
  ∀ id n, en_nodes e !! id = Some n → nr_state n = NodeSucceeded → nr_kind n = NodeTask →
    outputs_ok (definition_of e id) (nr_effectiveOutputs n).

(** Policies as the compiler resolves them: [uint32] counters that do not wrap. *)
Definition policies_ok (d : Document) : Prop :=
  ∀ n, n ∈ dc_Nodes d → let p := nd_ExecutionPolicy n in
    0 ≤ ep_MaxAttempts p ∧ 0 ≤ ep_MaxRecoveries p ∧ ep_MaxAttempts p + ep_MaxRecoveries p < 2 ^ 32.

Record engine_inv (c : Contract) (command : CreateRunCommand) (e : Engine) : Prop := {
  ev_static : static_inv c command e;
  ev_flow : flow_inv e;
  ev_attempts : attempt_inv e;
  ev_policies : policies_ok (en_doc e);
  ev_budget : budget_inv e;
  ev_data : data_inv e }.

(** ** Frames *)

Lemma definition_of_set_node id n e k : definition_of (set_node id n e) k = definition_of e k.
Proof. done. Qed.

Lemma lookup_set_node id n' e k n :
  en_nodes (set_node id n' e) !! k = Some n → k = id ∧ n = n' ∨ k ≠ id ∧ en_nodes e !! k = Some n.
Proof. cbn. rewrite lookup_insert. case_decide; naive_solver. Qed.

Lemma node_apply_identity op n n' : node_apply op n = Ok n' →
  nr_runID n' = nr_runID n ∧ nr_executionNodeID n' = nr_executionNodeID n ∧ nr_kind n' = nr_kind n.
Proof. intros [->|(_ & _ & ? & ? & ?)]%node_apply_step; auto. Qed.

Lemma static_set_node c command e id n n' :
  static_inv c command e → en_nodes e !! id = Some n → node_wf n' →
  nr_runID n' = nr_runID n ∧ nr_executionNodeID n' = nr_executionNodeID n ∧ nr_kind n' = nr_kind n →
  static_inv c command (set_node id n' e).
Proof.
  intros [H1 H2 H3 H4 H5 H6 H7 H8 H9] Hn Hwf (Hr & He & Hk).
  constructor; try done.
  - intros k. cbn. rewrite H7, lookup_insert_is_Some'. split; [auto|]. intros [<-|?]; eauto.
  - intros k. rewrite <-H8. cbn. rewrite lookup_insert_is_Some'. split; [|auto]. intros [<-|?]; eauto.
  - intros k m [[-> ->]|[_ Hm]]%lookup_set_node; [|by apply H9].
    destruct (H9 id n Hn) as (_ & ? & ? & ?).
    split_and!; [done|by rewrite He|by rewrite Hr|by rewrite Hk].
Qed.

Lemma static_node_apply c command e id n op n' :
  static_inv c command e → en_nodes e !! id = Some n → node_apply op n = Ok n' →
  static_inv c command (set_node id n' e).
Proof.
  intros Hs Hn Ha. eapply static_set_node; eauto using node_apply_identity.
  eapply node_wf_step; [|done]. by destruct (sv_node _ _ _ Hs id n Hn).
Qed.

Lemma static_settle c command e id route : static_inv c command e → static_inv c command (settle id route e).
Proof. by intros []. Qed.

Lemma static_attempts c command e m m' :
  static_inv c command e → static_inv c command (e <| en_attempts := m |> <| en_attemptNodes := m' |>).
Proof. by intros []. Qed.

Lemma run_apply_identity op run run' : run_apply op run = Ok run' →
  match op with OpRunStart _ | OpFailInitialization _ _ => True | _ =>
    wr_id run' = wr_id run ∧ wr_executionNodeIDs run' = wr_executionNodeIDs run ∧
    wr_createdAt run' = wr_createdAt run ∧ wr_deadlineAt run' = wr_deadlineAt run ∧
    (wr_state run ≠ RunPending → wr_state run' ≠ RunPending) end.
Proof.
  destruct op; simpl; intros H; try done.
  - destruct (WorkflowRun_RequestTermination run intent) as [[r b]|] eqn:E; simpl in H; [|done].
    injection H as <-. apply RequestTermination_Ok in E as (_ & _ & _ & [(_ & _ & ->)|(_ & _ & ->)]); done.
  - apply CompleteTermination_Ok in H as (t & target & _ & Hk & _ & Hv & ->). simpl. split_and!; try done.
    intros _ ->. set_unfold in Hk. naive_solver.
  - destruct (CompleteWorkflowSuccess _ _ _ _) as [[r x]|] eqn:E; simpl in H; [|done].
    injection H as <-. apply CompleteWorkflowSuccess_Ok in E as (_ & _ & _ & _ & _ & _ & _ & -> & _). done.
Qed.

Definition late_op (op : RunOp) : Prop :=
  match op with OpRunStart _ | OpFailInitialization _ _ => False | _ => True end.

Lemma static_set_run c command e op run' :
  late_op op → static_inv c command e → run_apply op (en_run e) = Ok run' → static_inv c command (set_run run' e).
Proof.
  intros Hop [H1 H2 H3 H4 H5 H6 H7 H8 H9] Ha. pose proof (run_apply_identity _ _ _ Ha) as Hid.
  assert (wr_id run' = wr_id (en_run e) ∧ wr_executionNodeIDs run' = wr_executionNodeIDs (en_run e) ∧
          wr_state run' ≠ RunPending) as (Hi & He & Hp) by (destruct op; naive_solver).
  constructor; try done; cbn.
  - by eapply run_wf_step.
  - intros id. by rewrite He.
  - intros id n Hn. destruct (H9 id n Hn) as (? & ? & ? & ?). split_and!; try done. congruence.
Qed.

Lemma request_apply run intent run' b :
  WorkflowRun_RequestTermination run intent = Ok (run', b) → run_apply (OpRequestTermination intent) run = Ok run'.
Proof. simpl. by intros ->. Qed.

Lemma success_apply run n nodes output run' n' :
  CompleteWorkflowSuccess run n nodes output = Ok (run', n') → run_apply (OpCompleteSuccess n nodes output) run = Ok run'.
Proof. simpl. by intros ->. Qed.

Lemma end_node_wf run n nodes output run' n' :
  CompleteWorkflowSuccess run n nodes output = Ok (run', n') → node_wf n →
  node_wf n' ∧ nr_runID n' = nr_runID n ∧ nr_executionNodeID n' = nr_executionNodeID n ∧ nr_kind n' = nr_kind n.
Proof.
  intros (_ & _ & Hk & Ha & Hs & _ & _ & _ & ->)%CompleteWorkflowSuccess_Ok [H1 H2 H3 H4 H5 H6].
  unfold node_state_facts in H4. rewrite Hs in H4. split; [|done].
  constructor; simpl; try done. unfold node_state_facts; simpl. rewrite Hk. naive_solver.
Qed.

(** The node call behind a step's update, for the steps that make one. *)
Lemma queue_apply n aid n' x : NodeRun_QueueAttempt n aid = Ok (n', x) → node_apply (OpQueueAttempt aid) n = Ok n'.
Proof. simpl. by intros ->. Qed.
Lemma retry_due_apply n at_ n' b : NodeRun_RetryDue n at_ = Ok (n', b) → node_apply (OpRetryDue at_) n = Ok n'.
Proof. simpl. by intros ->. Qed.

Ltac step_op H :=
  lazymatch type of H with
  | NodeRun_Activate ?n = ?r => change (node_apply OpActivate n = r) in H
  | NodeRun_Skip ?n = ?r => change (node_apply OpSkip n = r) in H
  | NodeRun_Ready ?n ?v = ?r => change (node_apply (OpReady v) n = r) in H
  | NodeRun_SucceedControl ?n ?t ?o = ?r => change (node_apply (OpSucceedControl t o) n = r) in H
  | NodeRun_AttemptStarted ?n ?a = ?r => change (node_apply (OpAttemptStarted a) n = r) in H
  | NodeRun_SucceedAttempt ?n ?a ?o = ?r => change (node_apply (OpSucceedAttempt a o) n = r) in H
  | NodeRun_RetryWait ?n ?a ?k ?d = ?r => change (node_apply (OpRetryWait a k d) n = r) in H
  | NodeRun_Cancel ?n ?t = ?r => change (node_apply (OpCancel t) n = r) in H
  | NodeRun_QueueAttempt _ _ = _ => apply queue_apply in H
  | NodeRun_RetryDue _ _ = _ => apply retry_due_apply in H
  end.

Lemma count_one_unique co l n m : count_coordinate co l = 1%nat → n ∈ l → m ∈ l →
  coordinate n = co → coordinate m = co → n = m.
Proof.
  unfold count_coordinate. intros Hc Hn Hm Hnc Hmc.
  assert (∀ x, x ∈ l → coordinate x = co → x ∈ List.filter (λ n, bool_decide (coordinate n = co)) l) as Hf.
  { intros x Hx Hxc. apply list_elem_of_In, filter_In. rewrite <-list_elem_of_In, bool_decide_eq_true. done. }
  apply Hf in Hn; [|done]. apply Hf in Hm; [|done].
  destruct (List.filter _ l) as [|x [|y r]]; try done. set_solver.
Qed.

(** The state a call starts from and ends in. *)
Lemma node_apply_target op n n' : node_apply op n = Ok n' →
  match op with
  | OpActivate => nr_state n = NodePending ∧ nr_state n' = NodePending
  | OpReady _ => nr_state n' = NodeReady
  | OpSkip => nr_state n = NodePending ∧ nr_state n' = NodeSkipped
  | OpSucceedControl r _ => nr_state n = NodePending ∧ nr_state n' = NodeSucceeded ∧ nr_selectedRoute n' = r
  | OpFailControl _ | OpFailBeforeAttempt _ => nr_state n' = NodeFailed
  | OpQueueAttempt a => nr_state n = NodeReady ∧ nr_state n' = NodeQueued ∧ nr_currentAttemptID n' = a ∧ nr_kind n = NodeTask
  | OpAttemptStarted a => nr_state n = NodeQueued ∧ nr_state n' = NodeRunning ∧ nr_currentAttemptID n = a
  | OpRetryWait a _ _ => nr_state n = NodeRunning ∧ nr_state n' = NodeRetryWait ∧ nr_currentAttemptID n = a
  | OpRetryDue _ => n' = n ∨ nr_state n = NodeRetryWait ∧ nr_state n' = NodeReady
  | OpSucceedAttempt a _ => nr_state n = NodeRunning ∧ nr_state n' = NodeSucceeded ∧ nr_kind n = NodeTask ∧ nr_currentAttemptID n = a
  | OpFailAttempt a t _ => nr_state n' = t ∧ failed_state t = true
  | OpCancel _ => nr_state n' = NodeCanceled
  end ∧
  (op ≠ OpActivate → nr_activated n' = nr_activated n) ∧
  (n' = n ∨ NodeState_Terminal (nr_state n) = false) ∧
  ((∃ a, op = OpQueueAttempt a) ∨ nr_currentAttemptID n' = nr_currentAttemptID n).
Proof.
  intros H. destruct op; node_op_inv H;
    repeat match goal with t : NodeState |- _ => destruct t; try done end;
    try match goal with
    | Hv : validNodeTransition (nr_kind ?x) (nr_state ?x) _ = true |- _ =>
        unfold validNodeTransition in Hv; destruct (nr_kind x) eqn:?, (nr_state x) eqn:?; try done
    end;
    try case_bool_decide; simpl; split_and!; intros; try done;
    first [by left | by right | by left; eauto | right; by split | right;
      match goal with Hs : nr_state _ = _ |- _ => rewrite Hs; done end].
Qed.

(** ** What the engine asks of a contract *)

Class EngineContract (c : Contract) : Prop := {
  ec_branch : ∀ n, validateNode c n = [] → is_branch n → nd_Kind n = KindControl;
  ec_end : ∀ n, validateNode c n = [] → op_Type (nd_Operation n) = "control.end" → coordinate n = endCoordinate;
  ec_control : ∀ n, validateNode c n = [] → nd_Kind n = KindControl →
    coordinate n = startCoordinate ∨ coordinate n = endCoordinate ∨ coordinate n = branchCoordinate;
  ec_control_outputs : ∀ n name t, validateNode c n = [] → nd_Kind n = KindControl → outputs n !! name = Some t →
    coordinate n = startCoordinate ∧ name = "workflow_input";
  ec_kind : ∀ n, validateNode c n = [] → NodeKind_Valid (nd_Kind n) = true;
  ec_task_policy : ∀ n, validateNode c n = [] → nd_Kind n = KindTask → validateTaskPolicy n = [];
  ec_end_kind : ∀ n, validateNode c n = [] → coordinate n = endCoordinate → nd_Kind n = KindControl;
  ec_end_input : ∀ n, validateNode c n = [] → coordinate n = endCoordinate →
    ∃ b, inputs n !! "workflow_output" = Some b ∧ ib_DataType b = TypeObject }.

Lemma validateNode_nil c n : validateNode c n = [] →
  ∃ spec, ct_specs c !! coordinate n = Some spec ∧ nd_Kind n = sp_Kind spec ∧ NodeKind_Valid (nd_Kind n) = true ∧
    has_containers n = true ∧ Dsl.validateOutputs n spec = [] ∧
    validateInputs (nd_ID n) (inputs n) (sp_Inputs spec) (sp_AllowExtraInputs spec) = [] ∧
    (nd_Kind n ≠ KindControl → validateTaskPolicy n = []).
Proof.
  unfold validateNode. rewrite app_nil, node_issue_nil, negb_false_iff. intros [Hv H].
  destruct (ct_specs c !! coordinate n) as [spec|]; [|done].
  rewrite app_nil, node_issue_nil, negb_false_iff, bool_decide_eq_true in H. destruct H as [Hk H].
  destruct (has_containers n); simpl in H; [|done]. rewrite !app_nil in H. destruct H as (_ & Hi & Ho & Hp & _).
  exists spec. split_and!; try done. intros Hn. by rewrite bool_decide_false in Hp.
Qed.

(** An output that the operation does not declare is rejected. *)
Lemma output_declared n spec name t :
  Dsl.validateOutputs n spec = [] → sp_AllowExtraOutputs spec = false → outputs n !! name = Some t →
  is_Some (sp_Outputs spec !! name).
Proof.
  unfold Dsl.validateOutputs. rewrite app_nil, (flat_map_nil _ (sorted_items (outputs n))). intros [_ H] Hx Ho.
  rewrite Forall_forall in H. specialize (H (name, t)). simpl in H.
  rewrite elem_of_sorted_items in H. specialize (H Ho). unfold validate_output in H.
  rewrite app_nil in H. destruct H as [_ H]. destruct (sp_Outputs spec !! name); [eauto|].
  by rewrite node_issue_nil, negb_false_iff, Hx in H.
Qed.

(** A required input of one type. *)
Lemma input_typed id actual rules extra name t :
  validateInputs id actual rules extra = [] → rules !! name = Some (MkPortRule true [t]) →
  ∃ b, actual !! name = Some b ∧ ib_DataType b = t.
Proof.
  unfold validateInputs. rewrite app_nil, !flat_map_nil, !Forall_forall. intros [H1 H2] Hr.
  specialize (H1 (name, MkPortRule true [t])). rewrite elem_of_sorted_items in H1. specialize (H1 Hr). simpl in H1.
  rewrite node_issue_nil, negb_false_iff, bool_decide_eq_true in H1. destruct H1 as [b Hb]. exists b. split; [done|].
  specialize (H2 (name, b)). rewrite elem_of_sorted_items in H2. specialize (H2 Hb). unfold validate_input in H2.
  rewrite !app_nil, Hr in H2. destruct H2 as (_ & H2 & _). rewrite node_issue_nil, negb_false_iff in H2.
  unfold containsType in H2. apply bool_decide_eq_true, list_elem_of_singleton in H2. done.
Qed.

Lemma builtin_spec VS co spec : ct_specs (BuiltinV1Contract VS) !! co = Some spec →
  spec ∈ builtin_specs VS ∧ sp_Coordinate spec = co.
Proof.
  change (ct_specs (BuiltinV1Contract VS)) with
    (fold_left (λ m s, <[sp_Coordinate s := s]> m) (builtin_specs VS) (∅ : gmap Coordinate OperationSpec)).
  induction (builtin_specs VS) as [|s l IH] using rev_ind; simpl; [by rewrite lookup_empty|].
  rewrite fold_left_app. simpl. rewrite lookup_insert. case_decide; [intros [= <-]; set_solver|].
  intros [? ?]%IH. set_solver.
Qed.

(** Coordinate, kind, and the outputs of a control operation. *)
Definition spec_shape (s : OperationSpec) : Coordinate * Dsl.NodeKind * bool * list string :=
  (sp_Coordinate s, sp_Kind s, sp_AllowExtraOutputs s,
   if bool_decide (sp_Kind s = KindControl) then sorted_keys (sp_Outputs s) else []).

Lemma builtin_shapes VS : spec_shape <$> builtin_specs VS =
  [ (startCoordinate, KindControl, false, ["workflow_input"]); (endCoordinate, KindControl, false, []);
    (branchCoordinate, KindControl, false, []); (MkCoordinate "task.python" 1, KindTask, true, []);
    (MkCoordinate "task.http" 1, KindTask, false, []); (MkCoordinate "task.rpc" 1, KindTask, false, [])].
Proof. vm_compute. reflexivity. Qed.

Lemma builtin_shape VS spec : spec ∈ builtin_specs VS →
  spec_shape spec ∈ [ (startCoordinate, KindControl, false, ["workflow_input"]); (endCoordinate, KindControl, false, []);
    (branchCoordinate, KindControl, false, []); (MkCoordinate "task.python" 1, KindTask, true, []);
    (MkCoordinate "task.http" 1, KindTask, false, []); (MkCoordinate "task.rpc" 1, KindTask, false, [])].
Proof. intros Hs. rewrite <-(builtin_shapes VS). by apply list_elem_of_fmap_2. Qed.

Lemma builtin_node VS n : validateNode (BuiltinV1Contract VS) n = [] →
  ∃ spec, spec ∈ builtin_specs VS ∧ coordinate n = sp_Coordinate spec ∧
    nd_Kind n = sp_Kind spec ∧ NodeKind_Valid (nd_Kind n) = true ∧ Dsl.validateOutputs n spec = [] ∧
    (nd_Kind n ≠ KindControl → validateTaskPolicy n = []).
Proof.
  intros (spec & Hs & Hk & Hv & _ & Ho & _ & Hp)%validateNode_nil.
  apply builtin_spec in Hs as [Hs Hc]. exists spec. split_and!; auto.
Qed.

Lemma builtin_coordinate VS n : validateNode (BuiltinV1Contract VS) n = [] →
  (coordinate n, nd_Kind n) ∈ [(startCoordinate, KindControl); (endCoordinate, KindControl); (branchCoordinate, KindControl);
    (MkCoordinate "task.python" 1, KindTask); (MkCoordinate "task.http" 1, KindTask); (MkCoordinate "task.rpc" 1, KindTask)].
Proof.
  intros (spec & Hs & -> & -> & _)%builtin_node. apply builtin_shape in Hs. unfold spec_shape in Hs.
  rewrite !elem_of_cons in Hs.
  repeat (destruct Hs as [Hs|Hs]; [injection Hs as -> -> _ _; set_solver|]). by apply not_elem_of_nil in Hs.
Qed.

Lemma coordinate_type n c : coordinate n = c → op_Type (nd_Operation n) = co_Type c.
Proof. by intros <-. Qed.

Ltac coordinate_cases H :=
  apply builtin_coordinate in H; rewrite !elem_of_cons in H;
  repeat (destruct H as [H|H]; [let Hc := fresh "Hc" in let Hk := fresh "Hk" in
    let Ht := fresh "Ht" in apply pair_equal_spec in H as [Hc Hk];
    pose proof (coordinate_type _ _ Hc) as Ht; cbn in Ht|]); [..|by apply not_elem_of_nil in H].

#[export] Instance builtin_engine_contract VS : EngineContract (BuiltinV1Contract VS).
Proof.
  constructor.
  - intros n H Hb. unfold is_branch in Hb. coordinate_cases H; congruence || done.
  - intros n H Hb. coordinate_cases H; congruence || done.
  - intros n H Hb. coordinate_cases H; auto; congruence.
  - intros n name t (spec & Hs & -> & Hk & _ & Ho & _)%builtin_node Hc Hn.
    apply builtin_shape in Hs. unfold spec_shape in Hs. rewrite bool_decide_true in Hs by congruence.
    assert (sp_AllowExtraOutputs spec = false → name ∈ sorted_keys (sp_Outputs spec)) as Hname.
    { intros Hx. apply elem_of_sorted_keys. by eapply output_declared. }
    rewrite !elem_of_cons in Hs.
    repeat (destruct Hs as [Hs|Hs]; [injection Hs as Hcc Hkk Hx Hl; rewrite Hl in Hname; try congruence|]);
      try (by apply not_elem_of_nil in Hs); specialize (Hname Hx); set_solver.
  - intros n (spec & _ & _ & _ & Hv & _)%builtin_node. done.
  - intros n (spec & _ & _ & _ & _ & _ & Hp)%builtin_node Hk. apply Hp. by rewrite Hk.
  - intros n H Hco. coordinate_cases H; first [done | congruence | by rewrite Hc in Hco].
  - intros n (spec & Hs & _ & _ & _ & _ & Hi & _)%validateNode_nil Hc. rewrite Hc in Hs.
    assert (Some spec = Some (MkOperationSpec endCoordinate KindControl ∅ {["workflow_output" := must object]} false ∅ false None))
      as [= ->] by (by rewrite <-Hs).
    eapply input_typed; [exact Hi|]. cbn. by apply lookup_singleton_eq.
Qed.

Section Preservation.
Context (order : range_order) (c : Contract) {HC : EngineContract c} (command : CreateRunCommand).
Local Notation step := (engine_step order).

Lemma static_step e e' : static_inv c command e → step e e' → static_inv c command e'.
Proof.
  intros Hs Hstep. destruct Hstep as
    [id n n' (Hn & _) _ _ H|id n n' (Hn & _) _ _ H|id n n' v (Hn & _) _ H|id n n' v r (Hn & _) _ _ _ H
    |id n v run' n' (Hn & _) _ _ H|id n n' op fl intent run' (Hn & _) _ H _ _ Hr
    |id n n' aid result op intent run' (Hn & _) _ _ H _ Hr|id n n' aid sq k a Hn _ _ H Ha
    |id n n' aid a a' Hn _ _ _ H|id n aid a a' result Hn _ _ _ _ H|id n n' aid result (Hn & _) _ _ H
    |id n n' aid result k due (Hn & _) _ _ H|id n n' at_ Hn _ H|intent run' _ Hr
    |id n n' intent settled Hn _ _ _ H|run' H]; try step_op H.
  - by eapply static_node_apply.
  - apply static_settle. by eapply static_node_apply.
  - by eapply static_node_apply.
  - apply static_settle. by eapply static_node_apply.
  - destruct (sv_node _ _ _ Hs id n Hn) as (Hwf & _). destruct (end_node_wf _ _ _ _ _ _ H Hwf) as [Hwf' Hid].
    apply (static_set_node c command _ id n); [|done..].
    eapply static_set_run; [| |by eapply success_apply]; done.
  - eapply (static_set_run _ _ _ (OpRequestTermination intent)); [done| |by eapply request_apply].
    by eapply static_node_apply.
  - eapply (static_set_run _ _ _ (OpRequestTermination intent)); [done| |by eapply request_apply].
    by eapply static_node_apply.
  - apply (static_attempts c command (set_node id n' e) (<[aid:=a]> (en_attempts e)) (<[aid:=id]> (en_attemptNodes e))).
    by eapply static_node_apply.
  - eapply (static_node_apply c command (set_attempt aid a' e)); [|done|done].
    apply (static_attempts c command e (<[aid:=a']> (en_attempts e)) (en_attemptNodes e)). done.
  - apply (static_attempts c command e (<[aid:=a']> (en_attempts e)) (en_attemptNodes e)). done.
  - apply static_settle. by eapply static_node_apply.
  - by eapply static_node_apply.
  - by eapply static_node_apply.
  - eapply (static_set_run _ _ _ (OpRequestTermination intent)); [done..|by eapply request_apply].
  - destruct settled; [apply static_settle|]; by eapply static_node_apply.
  - by eapply (static_set_run _ _ _ (OpCompleteTermination (allNodeRuns e))).
Qed.

(** *** Documents of the engine *)

Lemma edge_unique e d d' : static_inv c command e → d ∈ dc_Edges (en_doc e) → d' ∈ dc_Edges (en_doc e) →
  ed_ID d = ed_ID d' → d = d'.
Proof.
  intros Hs Hd Hd' Hid. pose proof (ew_ids _ _ (dw_edges _ _ (sv_doc _ _ _ Hs))) as Hnd.
  apply list_elem_of_lookup in Hd as [i Hi], Hd' as [j Hj].
  assert (i = j) as ->; [|congruence].
  eapply (NoDup_lookup (ed_ID <$> _)); [done|by rewrite list_lookup_fmap, Hi|by rewrite list_lookup_fmap, Hj, Hid].
Qed.

Lemma definition_lookup e id n : static_inv c command e → en_nodes e !! id = Some n →
  definition_of e id ∈ dc_Nodes (en_doc e) ∧ nd_ID (definition_of e id) = id ∧ validateNode c (definition_of e id) = [].
Proof.
  intros Hs Hn. pose proof (dw_nodes _ _ (sv_doc _ _ _ Hs)) as Hw.
  assert (is_Some (en_nodeDefs e !! id)) as [m Hm] by (apply (sv_nodes _ _ _ Hs); eauto).
  unfold definition_of. rewrite Hm. simpl. rewrite (sv_defs _ _ _ Hs) in Hm.
  apply node_map_lookup in Hm as [Hin Hid]; [|apply Hw]. split_and!; auto. by apply (nw_node _ _ Hw).
Qed.

Lemma definition_unique e m : static_inv c command e → m ∈ dc_Nodes (en_doc e) → definition_of e (nd_ID m) = m.
Proof.
  intros Hs Hm. unfold definition_of. rewrite (sv_defs _ _ _ Hs).
  rewrite (proj2 (node_map_lookup (dc_Nodes (en_doc e)) (nd_ID m) m (nw_ids _ _ (dw_nodes _ _ (sv_doc _ _ _ Hs))))); done.
Qed.

Lemma edge_source e d : static_inv c command e → d ∈ dc_Edges (en_doc e) →
  ∃ n, en_nodes e !! ed_SourceNodeID d = Some n ∧
       activation_ok (definition_of e (ed_SourceNodeID d)) (ed_Activation d).
Proof.
  intros Hs Hd. destruct (ew_ends _ _ (dw_edges _ _ (sv_doc _ _ _ Hs)) d Hd) as (m & t & Hm & _ & Hid & _ & Ha).
  assert (en_nodeDefs e !! ed_SourceNodeID d = Some m) as Hdef.
  { rewrite (sv_defs _ _ _ Hs). apply node_map_lookup; [apply (dw_nodes _ _ (sv_doc _ _ _ Hs))|done]. }
  destruct (proj2 (sv_nodes _ _ _ Hs (ed_SourceNodeID d))) as [n Hn]; [eauto|]. exists n.
  unfold definition_of. by rewrite Hdef.
Qed.

(** A task's edges are unconditional. *)
Lemma task_edge e d n : static_inv c command e → d ∈ dc_Edges (en_doc e) →
  en_nodes e !! ed_SourceNodeID d = Some n → nr_kind n = NodeTask → ac_Kind (ed_Activation d) = ActivationAlways.
Proof.
  intros Hs Hd Hn Hk. destruct (edge_source e d Hs Hd) as (n' & Hn' & Ha). simplify_eq.
  destruct (sv_node _ _ _ Hs _ _ Hn) as (_ & _ & _ & Hkind).
  destruct (definition_lookup _ _ _ Hs Hn) as (_ & _ & Hv).
  unfold activation_ok in Ha. case_decide as Hb; [|by destruct Ha].
  apply ec_branch in Hb; [|done]. unfold runtime_kind in Hkind. rewrite bool_decide_true in Hkind by done. congruence.
Qed.

(** *** Control flow *)

(** The incoming edges of a settled node do not change any more. *)
Lemma incoming_stable e e' id :
  static_inv c command e → flow_inv e → en_incoming e' = en_incoming e →
  (∀ d st, d ∈ dc_Edges (en_doc e) → en_edges e !! ed_ID d = Some st → st ≠ EdgePending →
     en_edges e' !! ed_ID d = Some st) →
  allIncomingSettled e id = true →
  allIncomingSettled e' id = true ∧ anyIncomingActive e' id = anyIncomingActive e id.
Proof.
  intros Hs Hf Hin Hmono. unfold allIncomingSettled, anyIncomingActive, incoming_of. rewrite Hin.
  assert (∀ d, d ∈ default [] (en_incoming e !! id) → d ∈ dc_Edges (en_doc e)) as Hdoc.
  { intros d Hd. by apply (sv_in _ _ _ Hs id d). }
  revert Hdoc. generalize (default [] (en_incoming e !! id)). intros l.
  induction l as [|d l IH]; intros Hdoc; simpl; [done|]. rewrite !andb_true_iff. intros [Hd Hl].
  destruct IH as [IH1 IH2]; [set_solver|done|]. bool_prop.
  destruct (edge_source e d Hs) as (n & Hn & _); [set_solver|].
  destruct (fv_edge _ Hf d n) as (st & Hst & _); [set_solver|done|].
  assert (st ≠ EdgePending) as Hne by (by intros ->).
  rewrite (Hmono d st), Hst, IH2 by (done || set_solver).
  split; [|done]. split; [|done]. rewrite negb_true_iff, bool_decide_eq_false. congruence.
Qed.

(** One node changes, with its edges and the run. *)
Lemma flow_update e id n n' edges' run' m1 m2 :
  static_inv c command e → flow_inv e → en_nodes e !! id = Some n →
  NodeState_Terminal (nr_state n) = false →
  (∀ d, d ∈ dc_Edges (en_doc e) → ed_SourceNodeID d = id → ∃ st, edges' !! ed_ID d = Some st ∧ edge_ok n' d st) →
  (∀ d, d ∈ dc_Edges (en_doc e) → ed_SourceNodeID d ≠ id → edges' !! ed_ID d = en_edges e !! ed_ID d) →
  (nr_activated n' = true → nr_activated n = true ∨ allIncomingSettled e id = true ∧ anyIncomingActive e id = true) →
  (nr_state n' = NodeSkipped → allIncomingSettled e id = true ∧ anyIncomingActive e id = false) →
  (failed_state (nr_state n') = true ∨ is_Some (wr_termination (en_run e)) → is_Some (wr_termination run')) →
  (RunState_Terminal (wr_state run') = true →
     ∀ k m, <[id := n']> (en_nodes e) !! k = Some m → succeeded_or_skipped (nr_state m) = true) →
  flow_inv (MkEngine (en_snapshot e) run' (en_nodeDefs e) (<[id := n']> (en_nodes e)) m1 m2 edges'
              (en_incoming e) (en_outgoing e)).
Proof.
  intros Hs Hf Hn Hnt Hout Hoth Hact Hskip Hfail Hdone.
  set (e' := MkEngine _ _ _ _ _ _ _ _ _).
  assert (∀ d st, d ∈ dc_Edges (en_doc e) → en_edges e !! ed_ID d = Some st → st ≠ EdgePending →
     en_edges e' !! ed_ID d = Some st) as Hmono.
  { intros d st Hd Hst Hne. destruct (decide (ed_SourceNodeID d = id)) as [Heq|Hneq]; [|by cbn; rewrite Hoth].
    rewrite <-Heq in Hn. destruct (fv_edge _ Hf d n Hd Hn) as (st' & Hst' & Hok). simplify_eq.
    unfold edge_ok in Hok. by destruct (nr_state n). }
  assert (id ≠ dc_EntryNodeID (en_doc e)) as Hentry.
  { intros ->. destruct (fv_entry _ Hf) as (m & Hm & Hst). simplify_eq. by rewrite Hst in Hnt. }
  assert (∀ k, allIncomingSettled e k = true →
    allIncomingSettled e' k = true ∧ anyIncomingActive e' k = anyIncomingActive e k) as Hin
    by (intros; by apply (incoming_stable e e')).
  assert (∀ k m, en_nodes e' !! k = Some m → k = id ∧ m = n' ∨ k ≠ id ∧ en_nodes e !! k = Some m) as Hl.
  { intros k m. cbn. rewrite lookup_insert. case_decide; naive_solver. }
  constructor.
  - destruct (fv_entry _ Hf) as (m & Hm & Hst). exists m. split; [|done]. cbn. by rewrite lookup_insert_ne.
  - intros d m Hd Hm. destruct (Hl _ _ Hm) as [[Heq ->]|[Hne Hm']]; [by apply Hout|].
    cbn. rewrite Hoth by done. by apply (fv_edge _ Hf).
  - intros k m Hm Ha. destruct (Hl _ _ Hm) as [[-> ->]|[Hne Hm']].
    + destruct (Hact Ha) as [Ha'|[H1 H2]].
      * destruct (fv_active _ Hf id n Hn Ha') as [?|[H1 H2]]; [done|]. right. destruct (Hin id H1) as [? ->]. done.
      * right. destruct (Hin id H1) as [? ->]. done.
    + destruct (fv_active _ Hf k m Hm' Ha) as [?|[H1 H2]]; [by left|]. right. destruct (Hin k H1) as [? ->]. done.
  - intros k m Hm Hst. destruct (Hl _ _ Hm) as [[-> ->]|[Hne Hm']].
    + destruct (Hskip Hst) as [H1 H2]. destruct (Hin id H1) as [? ->]. done.
    + destruct (fv_skipped _ Hf k m Hm' Hst) as [H1 H2]. destruct (Hin k H1) as [? ->]. done.
  - intros k m Hm Hst. destruct (Hl _ _ Hm) as [[-> ->]|[Hne Hm']]; apply Hfail; [by left|].
    right. by eapply (fv_fail_fast _ Hf).
  - intros Ht k m Hm. specialize (Hdone Ht k m Hm). by destruct (nr_state m).
  - intros Ht k m Hm. apply (Hdone) with (k := k); [|done]. cbn in Ht. by rewrite Ht.
Qed.

Lemma settle_lookup e id st route d : static_inv c command e → d ∈ dc_Edges (en_doc e) →
  settle_edges (en_edges e) (outgoing_of e id) st route !! ed_ID d =
  if decide (ed_SourceNodeID d = id) then Some (edge_state_for st route (ed_Activation d)) else en_edges e !! ed_ID d.
Proof.
  intros Hs Hd. case_decide as Hid.
  - apply settle_edges_out; [|by apply (sv_out _ _ _ Hs)].
    intros d' Hd' Heq. apply (sv_out _ _ _ Hs) in Hd' as [Hd' _]. by apply (edge_unique e).
  - apply settle_edges_other. intros d' [Hd' Hsrc]%(sv_out _ _ _ Hs) Heq.
    assert (d' = d) as -> by (by apply (edge_unique e)). done.
Qed.

Lemma flow_keep e id n n' m1 m2 :
  static_inv c command e → flow_inv e → en_nodes e !! id = Some n →
  NodeState_Terminal (nr_state n) = false → NodeState_Terminal (nr_state n') = false →
  (∀ s, nr_state n' ≠ NodeStateOther s) →
  (nr_activated n' = true → nr_activated n = true ∨ allIncomingSettled e id = true ∧ anyIncomingActive e id = true) →
  flow_inv (set_node id n' e <| en_attempts := m1 |> <| en_attemptNodes := m2 |>).
Proof.
  intros Hs Hf Hn Ht Ht' Ho Ha. apply (flow_update e id n n' (en_edges e) (en_run e)); auto.
  - intros d Hd <-. destruct (fv_edge _ Hf d n Hd Hn) as (st & Hst & Hok). exists st. split; [done|].
    unfold edge_ok in *. destruct (nr_state n), (nr_state n'); done.
  - intros Hst. by rewrite Hst in Ht'.
  - intros [Hx|?]; [|done]. by destruct (nr_state n').
  - intros Hterm. pose proof (fv_done _ Hf Hterm id n Hn). congruence.
Qed.

Lemma flow_settle e id n n' route :
  static_inv c command e → flow_inv e → en_nodes e !! id = Some n →
  NodeState_Terminal (nr_state n) = false →
  (nr_activated n' = true → nr_activated n = true) →
  (nr_state n' = NodeSkipped ∧ allIncomingSettled e id = true ∧ anyIncomingActive e id = false ∨
   nr_state n' = NodeSucceeded ∧ (nr_selectedRoute n' = route ∨ nr_kind n = NodeTask) ∨
   nr_state n' = NodeCanceled ∧ is_Some (wr_termination (en_run e))) →
  flow_inv (settle id route (set_node id n' e)).
Proof.
  intros Hs Hf Hn Ht Ha Hst. unfold settle, node_state. cbn. rewrite lookup_insert_eq. cbn.
  apply (flow_update e id n n' (settle_edges (en_edges e) (outgoing_of e id) (nr_state n') route) (en_run e)); auto.
  - intros d Hd Hsrc. eexists. rewrite (settle_lookup e) by done. rewrite decide_True by done. split; [done|].
    unfold edge_ok, edge_state_for. destruct Hst as [[-> _]|[[-> Hr]|[-> _]]]; try done.
    destruct Hr as [->|Hk]; [done|]. subst id. by rewrite (task_edge e d n).
  - intros d Hd Hsrc. by rewrite (settle_lookup e), decide_False.
  - intros Hsk. destruct Hst as [(_ & ? & ?)|[[Hx _]|[Hx _]]]; congruence || done.
  - intros [Hx|?]; [|done]. by destruct Hst as [[Hy _]|[[Hy _]|[_ ?]]]; rewrite ?Hy in Hx.
  - intros Hterm. pose proof (fv_done _ Hf Hterm id n Hn). congruence.
Qed.

Lemma flow_fail e id n n' run' :
  static_inv c command e → flow_inv e → en_nodes e !! id = Some n →
  NodeState_Terminal (nr_state n) = false → failed_state (nr_state n') = true →
  (nr_activated n' = true → nr_activated n = true) →
  is_Some (wr_termination run') → wr_state run' = wr_state (en_run e) →
  flow_inv (set_run run' (set_node id n' e)).
Proof.
  intros Hs Hf Hn Ht Hfs Ha Hterm Hst. apply (flow_update e id n n' (en_edges e) run'); auto.
  - intros d Hd <-. destruct (fv_edge _ Hf d n Hd Hn) as (st & Hs' & Hok). exists st. split; [done|].
    unfold edge_ok in *. destruct (nr_state n), (nr_state n'); try done; by rewrite Hok.
  - intros Hx. by rewrite Hx in Hfs.
  - intros Hx. rewrite Hst in Hx. pose proof (fv_done _ Hf Hx id n Hn). congruence.
Qed.

Lemma flow_set_run e run' : flow_inv e →
  (is_Some (wr_termination (en_run e)) → is_Some (wr_termination run')) →
  (RunState_Terminal (wr_state run') = true → ∀ id n, en_nodes e !! id = Some n → NodeState_Terminal (nr_state n) = true) →
  (wr_state run' = RunSucceeded → wr_state (en_run e) = RunSucceeded) →
  flow_inv (set_run run' e).
Proof.
  intros [H1 H2 H3 H4 H5 H6 H7] Ht Hd Hs. constructor; try done.
  - intros id n Hn Hfs. apply Ht. by eapply H5.
  - intros Hx. by apply H7, Hs.
Qed.

Lemma elem_of_allNodeRuns e n : n ∈ allNodeRuns e ↔ ∃ id, en_nodes e !! id = Some n.
Proof.
  unfold allNodeRuns, sortedNodeIDs. rewrite list_elem_of_omap. split; [intros (id & _ & ?); eauto|].
  intros [id Hid]. exists id. split; [apply elem_of_sorted_keys; eauto|done].
Qed.

(** The end node is the exit, and no edge leaves it. *)
Lemma end_no_edges e id n d : static_inv c command e → en_nodes e !! id = Some n →
  op_Type (nd_Operation (definition_of e id)) = "control.end" → d ∈ dc_Edges (en_doc e) → ed_SourceNodeID d ≠ id.
Proof.
  intros Hs Hn Ho Hd Hsrc. destruct (definition_lookup _ _ _ Hs Hn) as (Hin & Hid & Hv).
  pose proof (ec_end _ Hv Ho) as Hc. pose proof (sv_doc _ _ _ Hs) as Hw.
  assert (id = dc_ExitNodeID (en_doc e)) as Hex.
  { destruct (dw_exit _ _ Hw) as (m & Hm & Hmid & Hmc). rewrite <-Hid, <-Hmid. f_equal.
    apply (count_one_unique endCoordinate (dc_Nodes (en_doc e))); auto. apply Hw. }
  rewrite <-Hid in Hex. apply (proj1 (dw_sinks _ _ Hw _ Hin) Hex (ed_TargetNodeID d)).
  rewrite Hid, <-Hsrc. unfold flows, edge_pairs. apply list_elem_of_fmap. by exists d.
Qed.

Lemma requested run intent run' : WorkflowRun_RequestTermination run intent = Ok (run', true) →
  wr_termination run = None ∧ wr_termination run' = Some intent ∧ wr_state run' = wr_state run ∧
  RunState_Terminal (wr_state run) = false.
Proof. intros (Ht & _ & _ & [(_ & [=] & _)|(Hn & _ & ->)])%RequestTermination_Ok. done. Qed.

Lemma flow_end e id n output run' n' :
  static_inv c command e → flow_inv e → en_nodes e !! id = Some n →
  op_Type (nd_Operation (definition_of e id)) = "control.end" →
  CompleteWorkflowSuccess (en_run e) n (allNodeRuns e) output = Ok (run', n') →
  flow_inv (set_node id n' (set_run run' e)).
Proof.
  intros Hs Hf Hn Ho (Hrun & Hterm & Hk & Ha & Hst & Hall & _ & -> & ->)%CompleteWorkflowSuccess_Ok.
  apply (flow_update e id n _ (en_edges e)); auto.
  - by rewrite Hst.
  - intros d Hd Hsrc. exfalso. by eapply end_no_edges.
  - done.
  - intros [[=]|?]. done.
  - intros _ k m. rewrite lookup_insert. case_decide as Hki; [by intros [= <-]|]. intros Hm.
    rewrite Forall_forall in Hall. destruct (Hall m) as [Heq|?]; [|exfalso|done].
    + apply elem_of_allNodeRuns. eauto.
    + apply Hki. destruct (sv_node _ _ _ Hs _ _ Hm) as (_ & <- & _). destruct (sv_node _ _ _ Hs _ _ Hn) as (_ & <- & _). done.
Qed.

Lemma flow_step e e' : static_inv c command e → flow_inv e → step e e' → flow_inv e'.
Proof.
  intros Hs Hf Hstep. destruct Hstep as
    [id n n' (Hn & Hp & _) Hin Hact H|id n n' (Hn & Hp & _) Hin Hact H|id n n' v (Hn & Hp & _) _ H
    |id n n' v r (Hn & Hp & _) _ _ _ H|id n v run' n' (Hn & _) _ Ho H
    |id n n' op fl intent run' (Hn & Hp & _) Hop H _ _ Hr
    |id n n' aid result op intent run' (Hn & _) _ Hop H _ Hr|id n n' aid sq k a Hn _ _ H Ha
    |id n n' aid a a' Hn _ _ _ H|id n aid a a' result Hn _ _ _ _ H|id n n' aid result (Hn & _) _ _ H
    |id n n' aid result k due (Hn & _) _ _ H|id n n' at_ Hn _ H|intent run' _ Hr
    |id n n' intent settled Hn Hterm Hnt _ H|run' H]; try step_op H;
    try (apply node_apply_target in H as (Ht & Hac & Hnt' & _)).
  - destruct Ht as [Ht Ht']. eapply (flow_keep e id n n' (en_attempts e) (en_attemptNodes e)); eauto; by rewrite ?Ht, ?Ht'.
  - destruct Ht as [Ht Ht']. eapply flow_settle; [done|done|done|by rewrite Ht|by rewrite Hac|]. left. auto.
  - eapply (flow_keep e id n n' (en_attempts e) (en_attemptNodes e)); eauto; rewrite ?Hp, ?Ht; auto. rewrite Hac by done. auto.
  - destruct Ht as (Ht & Ht' & Hroute). eapply flow_settle; [done|done|done|by rewrite Ht|by rewrite Hac|]. right; left. auto.
  - by eapply flow_end.
  - apply requested in Hr as (_ & Hr1 & Hr2 & _).
    assert (nr_state n' = NodeFailed) as Hnf by (by destruct Hop; subst).
    eapply flow_fail; eauto; [by rewrite Hp|by rewrite Hnf|destruct Hop; subst; by rewrite Hac].
  - apply requested in Hr as (Hr0 & Hr1 & Hr2 & _).
    assert (failed_state (nr_state n') = true) as Hnf.
    { destruct Hop as [->|(? & ? & ->)]; [by rewrite Ht|by destruct Ht as [-> ?]]. }
    destruct Hnt' as [->|Hnt']; [destruct (fv_fail_fast _ Hf id n Hn Hnf); congruence|].
    eapply flow_fail; eauto. rewrite Hac; [done|]. by destruct Hop as [->|(? & ? & ->)].
  - destruct Ht as (Ht & Ht' & _).
    apply (flow_keep e id n n' (<[aid:=a]> (en_attempts e)) (<[aid:=id]> (en_attemptNodes e))); eauto;
      rewrite ?Ht, ?Ht'; auto. rewrite Hac by done. auto.
  - destruct Ht as (Ht & Ht' & _).
    apply (flow_keep e id n n' (<[aid:=a']> (en_attempts e)) (en_attemptNodes e)); eauto; rewrite ?Ht, ?Ht'; auto.
    rewrite Hac by done. auto.
  - by destruct Hf.
  - destruct Ht as (Ht & Ht' & Hk & _). eapply flow_settle; [done|done|done|by rewrite Ht|by rewrite Hac|]. right; left. auto.
  - destruct Ht as (Ht & Ht' & _).
    apply (flow_keep e id n n' (en_attempts e) (en_attemptNodes e)); eauto; rewrite ?Ht, ?Ht'; auto. rewrite Hac by done. auto.
  - destruct Ht as [->|[Ht Ht']].
    + by unfold set_node; rewrite insert_id; destruct e, Hf.
    + apply (flow_keep e id n n' (en_attempts e) (en_attemptNodes e)); eauto; rewrite ?Ht, ?Ht'; auto. rewrite Hac by done. auto.
  - apply requested in Hr as (_ & Hr1 & Hr2 & _). apply flow_set_run; eauto; rewrite Hr2; eauto using fv_done.
  - destruct settled.
    + eapply flow_settle; [done|done|done|done|by rewrite Hac|]. right; right. split; [done|by rewrite Hterm].
    + apply (flow_fail e id n n' (en_run e)); [done|done|done|done|by rewrite Ht|by rewrite Hac|by rewrite Hterm|done].
  - apply CompleteTermination_Ok in H as (t & target & Ht & Hk & Hall & _ & ->). apply flow_set_run; [done..| |].
    + intros _ k m Hm. rewrite Forall_forall in Hall. apply Hall, elem_of_allNodeRuns. eauto.
    + simpl. intros ->. set_unfold in Hk. naive_solver.
Qed.

End Preservation.
