(* ===== verification/EngineInv.v ===== *)
(** * Attempts, retry budget and outputs

    The remaining parts of the engine invariant and their preservation by every
    step of EngineSteps: each Node Run has at most one live attempt and it is
    the current one, the retry counters stay within the node's policy, and a
    succeeded task holds outputs of its declared types. *)

From S2P Require Import Prelude Json Dsl Branch Runtime Engine EngineSteps.

Open Scope string_scope.
Open Scope list_scope.
Open Scope Z_scope.

Section Preservation.
Context (order : range_order) (c : Contract) {HC : EngineContract c} (command : CreateRunCommand).
Local Notation step := (engine_step order).

(** *** Attempts *)

Lemma key_identity n n' : nr_runID n' = nr_runID n → nr_executionNodeID n' = nr_executionNodeID n →
  ExecutionIdempotencyKey n' = ExecutionIdempotencyKey n.
Proof. unfold ExecutionIdempotencyKey. by intros -> ->. Qed.

Lemma attempts_node e e' id n n' :
  attempt_inv e → en_nodes e !! id = Some n →
  en_nodes e' = <[id := n']> (en_nodes e) → en_attempts e' = en_attempts e → en_attemptNodes e' = en_attemptNodes e →
  ExecutionIdempotencyKey n' = ExecutionIdempotencyKey n → nr_currentAttemptID n' = nr_currentAttemptID n →
  (∀ a, nr_currentAttemptID n ≠ "" → en_attempts e !! nr_currentAttemptID n = Some a →
     phase_ok (nr_state n) (na_state a) → phase_ok (nr_state n') (na_state a)) →
  attempt_inv e'.
Proof.
  intros [H1 H2 H3 H4] Hn Hnodes Hatt Hown Hkey Hcur Hph.
  constructor; rewrite ?Hatt, ?Hown, ?Hnodes; auto.
  - intros aid a Ha. destruct (H1 aid a Ha) as (? & ? & k & m & ? & Hm & ?). split_and!; auto.
    exists k. rewrite lookup_insert. case_decide; [|by eauto]. subst k. simplify_eq. exists n'. by rewrite Hkey.
  - intros k m. rewrite lookup_insert. case_decide as Hk; [|by apply H3]. intros [= <-]. subst k.
    rewrite Hcur. intros Hne. destruct (H3 id n Hn Hne) as (a & Ha & Ho & Hp). eauto.
  - intros aid a k m Ha Ho. rewrite lookup_insert. case_decide as Hk; [|by apply H4]. intros [= <-] Ht. subst k.
    rewrite Hcur. by eapply H4.
Qed.

(** Calls that keep the current attempt. *)
Lemma attempts_apply e e' id n op n' :
  attempt_inv e → en_nodes e !! id = Some n → node_apply op n = Ok n' →
  en_nodes e' = <[id := n']> (en_nodes e) → en_attempts e' = en_attempts e → en_attemptNodes e' = en_attemptNodes e →
  (∀ a, op ≠ OpQueueAttempt a) →
  (∀ a, nr_currentAttemptID n ≠ "" → en_attempts e !! nr_currentAttemptID n = Some a →
     phase_ok (nr_state n) (na_state a) → phase_ok (nr_state n') (na_state a)) →
  attempt_inv e'.
Proof.
  intros Hi Hn Ha ? ? ? Hop Hph. destruct (node_apply_identity _ _ _ Ha) as (? & ? & _).
  destruct (node_apply_target _ _ _ Ha) as (_ & _ & _ & [[a ->]|Hcur]); [by destruct (Hop a)|].
  eapply attempts_node; eauto using key_identity.
Qed.

Lemma pending_no_attempt e id n : static_inv c command e → en_nodes e !! id = Some n → nr_state n = NodePending →
  nr_currentAttemptID n = "".
Proof.
  intros Hs Hn Hp. destruct (sv_node _ _ _ Hs _ _ Hn) as (Hwf & _).
  pose proof (nwf_facts _ Hwf) as Hf. unfold node_state_facts in Hf. rewrite Hp in Hf. by destruct Hf.
Qed.

Lemma completed_terminal e id n aid result a :
  attempt_inv e → completed e id n aid result → en_attempts e !! nr_currentAttemptID n = Some a →
  AttemptState_Terminal (na_state a) = true.
Proof.
  intros Hi (_ & <- & _ & a' & Ha' & Hr) Ha. assert (a' = a) as -> by congruence. destruct (av_attempt _ Hi _ _ Ha) as (Hwf & _).
  pose proof (awf_result _ Hwf) as Hw. rewrite Hr in Hw. by destruct Hw.
Qed.

Lemma attempts_queue e id n n' aid sq k a :
  static_inv c command e → attempt_inv e → en_nodes e !! id = Some n → en_attempts e !! aid = None →
  node_apply (OpQueueAttempt aid) n = Ok n' → NewNodeAttempt aid (ExecutionIdempotencyKey n') sq k = Ok a →
  attempt_inv (set_attempt aid a (set_node id n' e) <| en_attemptNodes := <[aid := id]> (en_attemptNodes e) |>).
Proof.
  intros Hs [H1 H2 H3 H4] Hn Hnew Ha Hna.
  destruct (node_apply_target _ _ _ Ha) as ((Hst & Hst' & Hcur & Hk) & _).
  destruct (node_apply_identity _ _ _ Ha) as (Hr & He & _).
  unfold NewNodeAttempt in Hna. destruct (_ || _) eqn:Hg; [done|]. injection Hna as <-. bool_prop.
  assert (∀ x k', en_attemptNodes e !! x = Some k' → x ≠ aid) as Hfresh.
  { intros x k' Hx ->. apply H2 in Hx as [? Hx]. congruence. }
  assert (∀ x b m, en_attempts e !! x = Some b → en_attemptNodes e !! x = Some id → en_nodes e !! id = Some m →
    AttemptState_Terminal (na_state b) = true) as Hterm.
  { intros x b m Hb Hx Hm. assert (m = n) as -> by congruence.
    destruct (AttemptState_Terminal (na_state b)) eqn:Ht; [done|].
    pose proof (H4 x b id n Hb Hx Hn Ht) as Hc. destruct (H1 x b Hb) as (Hwf & Hid & _).
    destruct (H3 id n Hn) as (b' & Hb' & _ & Hp).
    { rewrite Hc. destruct (awf_ids _ Hwf) as (? & _). congruence. }
    rewrite Hc in Hb'. assert (b' = b) as -> by congruence. rewrite Hst in Hp.
    destruct Hp as [?|[[? _]|[? _]]]; congruence. }
  constructor; cbn.
  - intros x b. rewrite lookup_insert. case_decide as Hx.
    + intros [= <-]. subst x. split; [by constructor|]. split; [done|].
      exists id, n'. by rewrite !lookup_insert_eq.
    + intros Hb. destruct (H1 x b Hb) as (? & ? & k' & m & ? & Hm & ?). split_and!; auto.
      exists k'. rewrite (lookup_insert_ne (en_attemptNodes e)) by done.
      rewrite lookup_insert. case_decide; [|by eauto]. subst k'. simplify_eq. exists n'.
      by rewrite (key_identity n n') by done.
  - intros x k'. rewrite !lookup_insert. case_decide; [by eauto|]. apply H2.
  - intros k' m. rewrite lookup_insert. case_decide as Hx.
    + intros [= <-] _. subst k'. rewrite Hcur. eexists. rewrite !lookup_insert_eq. split_and!; [done..|].
      right; left. done.
    + intros Hm Hne. destruct (H3 k' m Hm Hne) as (b & Hb & Ho & Hp).
      exists b. rewrite !lookup_insert_ne by (by eapply not_eq_sym, Hfresh). done.
  - intros x b k' m. rewrite !lookup_insert. case_decide as Hx.
    + intros [= <-] [= <-]. rewrite decide_True by done. intros [= <-] _. by subst.
    + intros Hb Ho. case_decide as Hk'; [|by apply H4].
      intros [= <-] Ht. subst k'. pose proof (Hterm x b n Hb Ho Hn). congruence.
Qed.

Lemma attempt_apply_identity op a a' : attempt_apply op a = Ok a' →
  na_id a' = na_id a ∧ na_nodeRunID a' = na_nodeRunID a ∧
  match op with
  | OpStart => na_state a = AttemptQueued ∧ na_state a' = AttemptRunning
  | OpComplete r => AttemptState_Terminal (na_state a') = true ∧ (AttemptState_Terminal (na_state a) = true → a' = a)
  end.
Proof.
  destruct op as [|r]; simpl; intros H.
  - apply NodeAttempt_transition_Ok in H as [Hv ->]. by destruct (na_state a).
  - apply NodeAttempt_Complete_Ok in H as [(Ht & _ & ->)|(Ht & _ & Hv & ->)]; [done|].
    split_and!; try done. intros Hx. by destruct (na_state a).
Qed.

(** The current attempt moves, with its node or without. *)
Lemma attempts_change e e' id n n' op aid a a' :
  attempt_inv e → en_nodes e !! id = Some n → en_attempts e !! aid = Some a → en_attemptNodes e !! aid = Some id →
  nr_currentAttemptID n = aid → nr_currentAttemptID n' = aid → ExecutionIdempotencyKey n' = ExecutionIdempotencyKey n →
  attempt_apply op a = Ok a' → phase_ok (nr_state n') (na_state a') →
  en_nodes e' = <[id := n']> (en_nodes e) → en_attempts e' = <[aid := a']> (en_attempts e) →
  en_attemptNodes e' = en_attemptNodes e → attempt_inv e'.
Proof.
  intros [H1 H2 H3 H4] Hn Ha Ho Hcur Hcur' Hkey Hop Hph Hnodes Hatt Hown.
  destruct (attempt_apply_identity _ _ _ Hop) as (Hid & Hnid & _).
  constructor; rewrite ?Hnodes, ?Hatt, ?Hown.
  - intros x b Hx.
    assert (∃ b', en_attempts e !! x = Some b' ∧ (attempt_wf b' → attempt_wf b) ∧ na_id b = na_id b' ∧
      na_nodeRunID b = na_nodeRunID b') as (b' & Hb' & Hwf & Hi & Hni).
    { rewrite lookup_insert in Hx. case_decide; [subst x; injection Hx as <-|by eauto].
      exists a. eauto using attempt_wf_step. }
    destruct (H1 x b' Hb') as (? & ? & k & m & Hk & Hm & ?). split_and!; [auto|congruence|].
    exists k. rewrite lookup_insert. case_decide as Hki; [subst k; exists n'|exists m; split_and!; [done..|congruence]].
    assert (m = n) as -> by congruence. split_and!; [done..|congruence].
  - intros x k Hx. rewrite lookup_insert_is_Some'. right. by eapply H2.
  - intros k m Hm Hne. rewrite lookup_insert in Hm. case_decide as Hk.
    + subst k. injection Hm as <-. exists a'. rewrite Hcur', lookup_insert_eq. done.
    + destruct (H3 k m Hm Hne) as (b & Hb & Hbo & Hp). exists b.
      rewrite lookup_insert_ne; [done|]. intros Heq. rewrite <-Heq in Hbo. congruence.
  - intros x b k m Hx Hk Hm Ht. destruct (decide (aid = x)) as [<-|Hxi].
    + assert (k = id) as -> by congruence. rewrite lookup_insert_eq in Hm. by injection Hm as <-.
    + rewrite lookup_insert_ne in Hx by done. rewrite lookup_insert in Hm. case_decide as Hki; [|by eapply H4].
      subst k. injection Hm as <-. rewrite Hcur', <-Hcur. by eapply H4.
Qed.

Lemma awaits_terminal e id n a : attempt_inv e → en_nodes e !! id = Some n → awaits_attempt e n = false →
  nr_currentAttemptID n ≠ "" → en_attempts e !! nr_currentAttemptID n = Some a → AttemptState_Terminal (na_state a) = true.
Proof.
  intros Hi Hn Haw Hne Ha. destruct (av_current _ Hi id n Hn Hne) as (b & Hb & _ & Hp).
  assert (b = a) as -> by congruence. unfold awaits_attempt in Haw. rewrite Ha in Haw.
  destruct Hp as [?|[[Hs Hx]|[Hs Hx]]]; [done|..]; by rewrite Hs, Hx in Haw.
Qed.

Lemma attempt_inv_step e e' : static_inv c command e → attempt_inv e → step e e' → attempt_inv e'.
Proof.
  intros Hs Hi Hstep. destruct Hstep as
    [id n n' (Hn & Hp & _) _ _ H|id n n' (Hn & Hp & _) _ _ H|id n n' v (Hn & Hp & _) _ H|id n n' v r (Hn & Hp & _) _ _ _ H
    |id n v run' n' (Hn & Hp & _) _ _ H|id n n' op fl intent run' (Hn & Hp & _) Hop H _ _ Hr
    |id n n' aid result op intent run' Hc _ Hop H _ Hr|id n n' aid sq k a Hn _ Hnew H Ha
    |id n n' aid a a' Hn Ha Ho Hst H|id n aid a a' result Hn Ha Ho Hcur Hr H|id n n' aid result Hc _ _ H
    |id n n' aid result k due Hc _ _ H|id n n' at_ Hn _ H|intent run' _ Hr
    |id n n' intent settled Hn _ _ Haw H|run' H]; try step_op H;
    try match type of Hp with nr_state _ = NodePending => pose proof (pending_no_attempt e id n Hs Hn Hp) as Hno end.
  - eapply attempts_apply; eauto; done.
  - eapply attempts_apply; eauto; done.
  - eapply attempts_apply; eauto; done.
  - eapply attempts_apply; eauto; done.
  - apply CompleteWorkflowSuccess_Ok in H as (_ & _ & _ & _ & _ & _ & _ & _ & ->).
    by eapply (attempts_node e _ id n).
  - eapply attempts_apply; eauto; [by destruct Hop; subst|done].
  - pose proof Hc as (Hn & _). eapply attempts_apply; eauto; [by destruct Hop as [->|(? & ? & ->)]|].
    intros b _ Hb _. left. by eapply completed_terminal.
  - by eapply attempts_queue.
  - destruct (node_apply_target _ _ _ H) as ((Hst1 & Hst2 & Hcur) & _ & _ & [[? [=]]|Hcur']).
    destruct (node_apply_identity _ _ _ H) as (? & ? & _).
    eapply (attempts_change e _ id n n' OpStart aid a a'); eauto using key_identity; [by rewrite Hcur'|].
    destruct (attempt_apply_identity OpStart _ _ Hst) as (_ & _ & _ & Hrun). right; right. done.
  - eapply (attempts_change e _ id n n (OpComplete result) aid a a'); eauto.
    + left. by destruct (attempt_apply_identity (OpComplete result) _ _ H) as (_ & _ & ? & _).
    + cbn. by rewrite insert_id.
  - pose proof Hc as (Hn & _). eapply attempts_apply; eauto; try done.
    intros b _ Hb _. left. by eapply completed_terminal.
  - pose proof Hc as (Hn & _). eapply attempts_apply; eauto; try done.
    intros b _ Hb _. left. by eapply completed_terminal.
  - eapply attempts_apply; eauto; try done. intros b _ _ Hph.
    destruct (node_apply_target _ _ _ H) as ([->|[Hx _]] & _); [done|].
    destruct Hph as [?|[[? _]|[? _]]]; [by left|congruence..].
  - by destruct Hi.
  - destruct settled;
    eapply attempts_apply; eauto; try done; intros b Hne Hb _; left; by eapply awaits_terminal.
  - by destruct Hi.
Qed.

(** *** Retry budget *)

Lemma definition_policy e id n : static_inv c command e → policies_ok (en_doc e) → en_nodes e !! id = Some n →
  let p := nd_ExecutionPolicy (definition_of e id) in
  0 ≤ ep_MaxAttempts p ∧ 0 ≤ ep_MaxRecoveries p ∧ ep_MaxAttempts p + ep_MaxRecoveries p < 2 ^ 32.
Proof. intros Hs Hp Hn. destruct (definition_lookup c command e id n Hs Hn) as (Hin & _). by apply Hp. Qed.

Definition waiting (s : NodeState) : bool :=
  match s with NodePending | NodeReady | NodeRetryWait => true | _ => false end.

(** Calls that neither use an attempt nor schedule one. *)
Lemma budget_apply p op n n' : node_apply op n = Ok n' →
  (∀ a, op ≠ OpQueueAttempt a) → (∀ a k d, op ≠ OpRetryWait a k d) → budget_ok p n → budget_ok p n'.
Proof.
  intros H Hq Hw Hb.
  assert (nr_businessAttemptCount n' = nr_businessAttemptCount n ∧ nr_recoveryCount n' = nr_recoveryCount n ∧
    nr_nextAttemptKind n' = nr_nextAttemptKind n ∧ (waiting (nr_state n') = true → waiting (nr_state n) = true))
    as (H1 & H2 & H3 & H4).
  { destruct op; try (by edestruct Hq); try (by edestruct Hw); node_op_inv H; split_and!; try done.
    all: repeat match goal with
      | t : NodeState |- _ => destruct t; done
      | Hv : validNodeTransition (nr_kind ?x) (nr_state ?x) _ = true |- _ => destruct (nr_kind x), (nr_state x); done
      end. }
  unfold budget_ok in *. rewrite H1, H2, H3. destruct Hb as (? & ? & Hb). split_and!; try lia.
  intros Hx. apply Hb. destruct (nr_state n'), (nr_state n); try done; by specialize (H4 eq_refl).
Qed.

Lemma budget_queue p n aid n' :
  node_apply (OpQueueAttempt aid) n = Ok n' → budget_ok p n → ep_MaxAttempts p + ep_MaxRecoveries p < 2 ^ 32 →
  budget_ok p n'.
Proof.
  intros H (Hb & Hr & Hw) Hp. destruct (node_apply_target _ _ _ H) as ((Hst & Hst' & _) & _).
  rewrite Hst in Hw. specialize (Hw I). node_op_inv H. unfold budget_ok. cbn. clear Hst'.
  repeat case_bool_decide; simpl; try done; split_and!; try done; try lia; unfold u32; rewrite Z.mod_small by lia; lia.
Qed.

Lemma budget_node e e' id n n' :
  budget_inv e → en_nodes e !! id = Some n → en_nodeDefs e' = en_nodeDefs e → en_nodes e' = <[id := n']> (en_nodes e) →
  nr_kind n' = nr_kind n →
  (∀ p, p = nd_ExecutionPolicy (definition_of e id) → nr_kind n = NodeTask → budget_ok p n → budget_ok p n') →
  budget_inv e'.
Proof.
  intros Hi Hn Hd Hnodes Hk Hb k m Hm Ht. unfold definition_of. rewrite Hd. fold (definition_of e k).
  rewrite Hnodes, lookup_insert in Hm. case_decide as Hki; [|by apply Hi].
  subst k. injection Hm as <-. rewrite Hk in Ht. by apply Hb, Hi.
Qed.

Lemma budget_op e e' id n op n' :
  budget_inv e → en_nodes e !! id = Some n → node_apply op n = Ok n' → (∀ a, op ≠ OpQueueAttempt a) →
  (∀ a k d, op ≠ OpRetryWait a k d) → en_nodeDefs e' = en_nodeDefs e → en_nodes e' = <[id := n']> (en_nodes e) →
  budget_inv e'.
Proof.
  intros. destruct (node_apply_identity op n n') as (_ & _ & ?); [done|].
  eapply budget_node; eauto. intros p _ _. by eapply budget_apply.
Qed.

Lemma budget_step e e' : static_inv c command e → policies_ok (en_doc e) → budget_inv e → step e e' → budget_inv e'.
Proof.
  intros Hs Hpol Hi Hstep. destruct Hstep as
    [id n n' (Hn & Hp & _) _ _ H|id n n' (Hn & Hp & _) _ _ H|id n n' v (Hn & Hp & _) _ H|id n n' v r (Hn & Hp & _) _ _ _ H
    |id n v run' n' (Hn & Hp & _) _ _ H|id n n' op fl intent run' (Hn & Hp & _) Hop H _ _ Hr
    |id n n' aid result op intent run' (Hn & _) _ Hop H _ Hr|id n n' aid sq k a Hn _ Hnew H Ha
    |id n n' aid a a' Hn Ha Ho Hst H|id n aid a a' result Hn Ha Ho Hcur Hr H|id n n' aid result (Hn & _) _ _ H
    |id n n' aid result k due (Hn & _) _ Hk H|id n n' at_ Hn _ H|intent run' _ Hr
    |id n n' intent settled Hn _ _ Haw H|run' H]; try step_op H;
    try (destruct settled); try done; try (by eapply budget_op).
  - apply CompleteWorkflowSuccess_Ok in H as (_ & _ & Hk & _ & _ & _ & _ & _ & ->).
    eapply (budget_node e _ id n); eauto. intros p _ Ht. congruence.
  - eapply budget_op; eauto; by destruct Hop; subst.
  - eapply budget_op; eauto; by destruct Hop as [->|(? & ? & ->)].
  - destruct (node_apply_identity _ _ _ H) as (_ & _ & ?).
    eapply (budget_node e _ id n); eauto. intros p -> _ Hb. eapply budget_queue; eauto.
    by destruct (definition_policy e id n Hs Hpol Hn) as (_ & _ & ?).
  - destruct (node_apply_identity _ _ _ H) as (_ & _ & ?).
    eapply (budget_node e _ id n); eauto. intros p -> _ (Hb & Hr & _). clear Hn. node_op_inv H. unfold budget_ok. cbn.
    split_and!; try lia. intros _. destruct Hk as [[-> ?]|[-> ?]]; done.
Qed.

(** *** Outputs *)

Lemma validateOutputs_Ok definition values : validateOutputs order definition values = Ok tt →
  outputs_ok definition values ∧ size values = size (outputs definition).
Proof.
  unfold validateOutputs. intros H. apply bind_guard in H as [Hsz H]. bool_prop. split; [|done].
  intros name t Hn. destruct (output_error values name t) as [err|] eqn:He; [|done]. exfalso.
  assert (err ∈ omap (λ name, t ← outputs definition !! name; output_error values name t)
    (order 0%nat "validateOutputs" (sorted_keys (outputs definition)))) as Hin.
  { apply list_elem_of_omap. exists name. rewrite (range_perm_ok order), Hn. split; [|done]. apply elem_of_sorted_keys. eauto. }
  by destruct (omap _ _); [apply not_elem_of_nil in Hin|].
Qed.

Lemma data_node e e' id n n' :
  data_inv e → en_nodes e !! id = Some n → en_nodeDefs e' = en_nodeDefs e → en_nodes e' = <[id := n']> (en_nodes e) →
  (nr_state n' = NodeSucceeded → nr_kind n' = NodeTask → n' = n ∨ outputs_ok (definition_of e id) (nr_effectiveOutputs n')) →
  data_inv e'.
Proof.
  intros Hi Hn Hd Hnodes Hb k m Hm Hst Ht. unfold definition_of. rewrite Hd. fold (definition_of e k).
  rewrite Hnodes, lookup_insert in Hm. case_decide as Hki; [|by apply Hi].
  subst k. injection Hm as <-. destruct (Hb Hst Ht) as [->|?]; [|done]. by apply Hi.
Qed.

(** Calls that do not end in a succeeded task. *)
Lemma data_op e e' id n op n' :
  data_inv e → en_nodes e !! id = Some n → node_apply op n = Ok n' → (∀ a o, op ≠ OpSucceedAttempt a o) →
  en_nodeDefs e' = en_nodeDefs e → en_nodes e' = <[id := n']> (en_nodes e) → data_inv e'.
Proof.
  intros Hi Hn H Hop Hd Hnodes. eapply data_node; eauto. intros Hst Hk. left.
  destruct (node_apply_target _ _ _ H) as (Ht & _). destruct (node_apply_identity _ _ _ H) as (_ & _ & Hk').
  destruct op; try (by edestruct Hop); try (by destruct Ht as [->|[_ ?]]); try (destruct_and? Ht; congruence).
  - rewrite Hk in Hk'. clear Ht. node_op_inv H. congruence.
  - destruct Ht as [?|[_ ?]]; [done|congruence].
  - destruct Ht as [Ht Hf]. rewrite <-Ht, Hst in Hf. done.
Qed.

Lemma data_step e e' : data_inv e → step e e' → data_inv e'.
Proof.
  intros Hi Hstep. destruct Hstep as
    [id n n' (Hn & Hp & _) _ _ H|id n n' (Hn & Hp & _) _ _ H|id n n' v (Hn & Hp & _) _ H|id n n' v r (Hn & Hp & _) _ _ _ H
    |id n v run' n' (Hn & Hp & _) _ _ H|id n n' op fl intent run' (Hn & Hp & _) Hop H _ _ Hr
    |id n n' aid result op intent run' (Hn & _) _ Hop H _ Hr|id n n' aid sq k a Hn _ Hnew H Ha
    |id n n' aid a a' Hn Ha Ho Hst H|id n aid a a' result Hn Ha Ho Hcur Hr H|id n n' aid result (Hn & _) _ Hv H
    |id n n' aid result k due (Hn & _) _ Hk H|id n n' at_ Hn _ H|intent run' _ Hr
    |id n n' intent settled Hn _ _ Haw H|run' H]; try step_op H;
    try (destruct settled); try done; try (by eapply data_op).
  - apply CompleteWorkflowSuccess_Ok in H as (_ & _ & Hk & _ & _ & _ & _ & _ & ->).
    eapply (data_node e _ id n); eauto. cbn. congruence.
  - eapply data_op; eauto; by destruct Hop; subst.
  - eapply data_op; eauto; by destruct Hop as [->|(? & ? & ->)].
  - eapply (data_node e _ id n); eauto. intros _ _. right. apply validateOutputs_Ok in Hv as [Hv _].
    clear Hn. by node_op_inv H.
Qed.

(** *** The invariant *)

Lemma engine_step_doc e e' : step e e' → en_doc e' = en_doc e.
Proof. by destruct 1; try destruct settled. Qed.

Lemma engine_inv_step e e' : engine_inv c command e → step e e' → engine_inv c command e'.
Proof.
  intros [H1 H2 H3 H4 H5 H6] Hstep. constructor.
  - by eapply static_step.
  - by eapply flow_step.
  - by eapply attempt_inv_step.
  - by rewrite (engine_step_doc _ _ Hstep).
  - by eapply budget_step.
  - by eapply data_step.
Qed.

Lemma engine_inv_steps e e' : engine_inv c command e → rtc step e e' → engine_inv c command e'.
Proof. intros Hi. induction 1; eauto using engine_inv_step. Qed.

End Preservation.
