(* ===== verification/EngineFacts.v ===== *)
(** * The engine refines its steps

    Every operation of Engine, whatever it returns, is a sequence of the steps
    of EngineSteps, so that the invariant holds of every engine a caller can
    reach; [New] establishes it. *)

From S2P Require Import Prelude Json Dsl Branch Runtime Engine EngineSteps EngineInv.

Open Scope string_scope.
Open Scope list_scope.
Open Scope Z_scope.

(** ** Running the monad *)

Lemma bind_inv {A B} (m : eng A) (f : A → eng B) e e' b :
  (m ≫= f) e = (e', Ok b) → ∃ e1 a, m e = (e1, Ok a) ∧ f a e1 = (e', Ok b).
Proof. unfold mbind, eng_bind. destruct (m e) as [e1 [a|x]]; [eauto|done]. Qed.

Lemma on_node_run id f e e' r : on_node id f e = (e', r) → en_run e' = en_run e.
Proof. unfold on_node. repeat case_match; naive_solver. Qed.

Lemma settleOutgoing_run id route e e' r : settleOutgoing id route e = (e', r) → en_run e' = en_run e.
Proof. unfold settleOutgoing. repeat case_match; naive_solver. Qed.

Ltac eng_inv H :=
  repeat match type of H with
  | (get ≫= ?f) ?e = ?r => change (f e e = r) in H; cbv beta in H
  | (lift _ ≫= _) _ = _ => let r := fresh "Hlift" in apply bind_inv in H as (? & ? & r & H); injection r as <- r
  | (modify ?g ≫= ?f) ?e = ?r => change (f tt (g e) = r) in H; cbv beta in H
  | (_ ≫= _) _ = (_, Ok _) => let r := fresh "Hm" in apply bind_inv in H as (? & ? & r & H)
  | mret _ _ = _ => injection H as ? ?; subst
  | (_, Ok _) = (_, Ok _) => injection H as ? ?; subst
  | fail _ _ = (_, Ok _) => discriminate H
  end.

Lemma on_node_Ok id f e n : en_nodes e !! id = Some n →
  on_node id f e = match f n with Ok n' => (set_node id n' e, Ok tt) | Err x => (e, Err x) end.
Proof. unfold on_node. by intros ->. Qed.

Section Refinement.
Context (order : range_order) (c : Contract) {HC : EngineContract c} (command : CreateRunCommand).
Local Notation step := (engine_step order).
Local Notation inv := (engine_inv c command).

(** An operation run from [e] makes steps only. *)
Definition steps {A} (m : eng A) (e : Engine) : Prop := rtc step e (m e).1.

Lemma steps_refl {A} (m : eng A) e : (m e).1 = e → steps m e.
Proof. unfold steps. by intros ->. Qed.

Lemma steps_bind {A B} (m : eng A) (f : A → eng B) e :
  steps m e → (∀ a e', m e = (e', Ok a) → rtc step e e' → steps (f a) e') → steps (m ≫= f) e.
Proof.
  unfold steps, mbind, eng_bind. destruct (m e) as [e' [a|x]] eqn:Hm; simpl; intros H1 H2; [|done].
  etrans; [done|]. by apply H2.
Qed.

Lemma steps_get {B} (f : Engine → eng B) e : steps (f e) e → steps (get ≫= f) e.
Proof. done. Qed.

Lemma steps_lift {A B} (r : res A) (f : A → eng B) e : (∀ a, r = Ok a → steps (f a) e) → steps (lift r ≫= f) e.
Proof. intros H. apply steps_bind; [by apply steps_refl|]. intros a e' [= <- ->] _. by apply H. Qed.

(** ** Facts of an engine that satisfies the invariant *)

Lemma running e id n : inv e → en_nodes e !! id = Some n → NodeState_Terminal (nr_state n) = false →
  wr_state (en_run e) = RunRunning.
Proof.
  intros [Hs Hf _ _ _ _] Hn Ht.
  assert (RunState_Terminal (wr_state (en_run e)) = false) as Hr.
  { destruct (RunState_Terminal _) eqn:E; [|done]. pose proof (fv_done _ Hf E id n Hn). congruence. }
  pose proof (rwf_facts _ _ (sv_run _ _ _ Hs)) as Hfacts. pose proof (sv_started _ _ _ Hs) as Hst.
  unfold run_state_facts in Hfacts. by destruct (wr_state (en_run e)).
Qed.

Lemma created_at e : inv e → wr_createdAt (en_run e) ≠ 0.
Proof.
  intros [Hs _ _ _ _ _]. pose proof (rwf_origin _ _ (sv_run _ _ _ Hs)) as Ho.
  apply NewWorkflowRun_Ok in Ho as (Heq & _ & _ & _ & Hc & _). apply (f_equal wr_createdAt) in Heq. simpl in Heq.
  congruence.
Qed.

(** A termination request on a run that is not terminating. *)
Lemma request_succeeds run intent :
  wr_state run = RunRunning → wr_termination run = None → ti_RequestedAt intent ≠ 0 →
  wr_createdAt run ≤ ti_RequestedAt intent → fl_Code (ti_Cause intent) ≠ "" →
  valid_termination_kind (ti_Kind intent) = true →
  ∃ run', WorkflowRun_RequestTermination run intent = Ok (run', true).
Proof.
  intros Hst Ht Hz Hc Hcode Hk. unfold WorkflowRun_RequestTermination, IsZero, Before. rewrite Hst, Ht, Hk. simpl.
  rewrite (proj2 (Z.eqb_neq _ _) Hz), bool_decide_eq_false_2 by done. simpl.
  rewrite (proj2 (Z.ltb_ge _ _) Hc). simpl. eauto.
Qed.

Definition timely (e : Engine) (at_ : Time) : Prop := at_ = 0 ∨ wr_createdAt (en_run e) ≤ at_.

Lemma timely_at e at_ : inv e → timely e at_ →
  atOrCreated at_ (en_run e) ≠ 0 ∧ wr_createdAt (en_run e) ≤ atOrCreated at_ (en_run e).
Proof.
  intros Hi Ht. unfold atOrCreated, IsZero. pose proof (created_at e Hi).
  destruct (Z.eqb_spec at_ 0); [split; [done|lia]|]. destruct Ht; [done|]. done.
Qed.

Lemma step_created e e' : inv e → step e e' → wr_createdAt (en_run e') = wr_createdAt (en_run e).
Proof.
  intros Hi Hstep. pose proof (engine_inv_step _ _ _ _ _ Hi Hstep) as Hi'.
  pose proof (rwf_origin _ _ (sv_run _ _ _ (ev_static _ _ _ Hi))) as H1.
  pose proof (rwf_origin _ _ (sv_run _ _ _ (ev_static _ _ _ Hi'))) as H2.
  rewrite H1 in H2. by apply (f_equal (λ r, match r with Ok x => wr_createdAt x | Err _ => 0 end)) in H2.
Qed.

(** The termination intent is final. *)
Lemma step_termination e e' t : wr_termination (en_run e) = Some t → step e e' → wr_termination (en_run e') = Some t.
Proof.
  intros Ht Hstep. destruct Hstep; try destruct settled; try done; cbn.
  - apply success_apply in H2. by eapply run_apply_termination.
  - apply request_apply in H4. by eapply run_apply_termination.
  - apply request_apply in H4. by eapply run_apply_termination.
  - apply request_apply in H0. by eapply run_apply_termination.
  - by eapply (run_apply_termination _ (OpCompleteTermination _)).
Qed.

Lemma steps_timely e e' at_ : inv e → rtc step e e' → timely e at_ → timely e' at_.
Proof.
  intros Hi Hsteps. induction Hsteps as [|x y z Hxy _ IH]; [done|]. intros Ht.
  apply IH; [by eapply engine_inv_step|]. unfold timely. by rewrite (step_created x y).
Qed.

(** ** Resolving inputs *)

Lemma resolve_bindings_resolved e bindings names acc values :
  resolve_bindings e bindings names acc = Ok (Some values) →
  (∀ name, name ∉ names → values !! name = acc !! name) ∧
  (∀ name b, name ∈ names → NoDup names → bindings !! name = Some b →
     ∃ v, values !! name = Some v ∧ resolve_binding e b = Ok (Some v)).
Proof.
  revert acc. induction names as [|x names IH]; intros acc H; simpl in H.
  { injection H as ->. split; [done|]. intros ? ? ?%not_elem_of_nil. done. }
  destruct (bindings !! x) as [b|] eqn:Hb.
  - apply bind_Ok in H as (o & Ho & H). destruct o as [v|]; [|done]. destruct (IH _ H) as [H1 H2]. split.
    + intros name Hn. rewrite not_elem_of_cons in Hn. rewrite H1 by apply Hn. destruct Hn as [Hn _]. by rewrite lookup_insert_ne by congruence.
    + intros name b' Hin [Hx Hnd]%NoDup_cons Hb'. apply elem_of_cons in Hin as [->|Hin]; [|by eapply H2].
      exists v. rewrite H1, lookup_insert_eq by done. split; congruence.
  - destruct (IH _ H) as [H1 H2]. split.
    + intros name Hn. rewrite not_elem_of_cons in Hn. apply H1, Hn.
    + intros name b' Hin [Hx Hnd]%NoDup_cons Hb'. apply elem_of_cons in Hin as [->|Hin]; [congruence|by eapply H2].
Qed.

Lemma resolveInputs_resolved pass e definition values :
  resolveInputs order pass e definition = Ok (Some values) → resolved e definition values.
Proof.
  unfold resolveInputs. intros [_ H]%resolve_bindings_resolved name b Hb. apply H; [..|done].
  - rewrite (range_perm_ok order). apply elem_of_sorted_keys. eauto.
  - rewrite (range_perm_ok order). apply NoDup_sorted_keys.
Qed.

(** ** Driving *)

Lemma fail_node_steps at_ id n fl f e :
  inv e → idle_node e id n → timely e at_ →
  (∀ n', f n = Ok n' → ∃ op, (op = OpFailControl fl ∨ op = OpFailBeforeAttempt fl) ∧ node_apply op n = Ok n') →
  steps (fail_node at_ id fl f) e.
Proof.
  intros Hi Hidle Ht Hf. pose proof Hidle as (Hn & Hp & Hterm & Hrun & _).
  unfold steps, fail_node, mbind, eng_bind. rewrite (on_node_Ok id f e n Hn).
  destruct (f n) as [n'|x] eqn:Hfn; [|done]. destruct (Hf n' eq_refl) as (op & Hop & Ha). cbn.
  destruct (timely_at e at_ Hi Ht) as [H1 H2]. unfold request_termination. cbn.
  set (intent := Build_TerminationIntent _ _ _).
  destruct (request_succeeds (en_run e) intent Hrun Hterm H1 H2) as [run' Hr]; [|done|].
  { destruct Hop as [->| ->]; simpl in Ha; unfold_node_op Ha; apply bind_guard in Ha as [Ha _]; by bool_prop. }
  rewrite Hr. apply rtc_once. by apply (step_fail_pending order e id n n' op fl intent run').
Qed.
Lemma settle_steps {A} id f route (k : eng A) e n :
  en_nodes e !! id = Some n →
  (∀ n', f n = Ok n' → step e (settle id route (set_node id n' e)) ∧ steps k (settle id route (set_node id n' e))) →
  steps (on_node id f ;; settleOutgoing id route ;; k) e.
Proof.
  intros Hn H. unfold steps, mbind, eng_bind. rewrite (on_node_Ok id f e n Hn).
  destruct (f n) as [n'|x]; [|done]. destruct (H n' eq_refl) as [H1 H2].
  rewrite (settleOutgoing_settle id route _ n'); [|cbn; apply lookup_insert_eq]. by eapply rtc_l.
Qed.

Lemma node_steps {A} id f (k : eng A) e n :
  en_nodes e !! id = Some n →
  (∀ n', f n = Ok n' → step e (set_node id n' e) ∧ steps k (set_node id n' e)) →
  steps (on_node id f ;; k) e.
Proof.
  intros Hn H. unfold steps, mbind, eng_bind. rewrite (on_node_Ok id f e n Hn).
  destruct (f n) as [n'|x]; [|done]. destruct (H n' eq_refl) as [H1 H2]. by eapply rtc_l.
Qed.

Lemma ret_steps {A} (a : A) e : steps (mret a) e.
Proof. by apply steps_refl. Qed.

Lemma drive_control_steps at_ id n values e :
  inv e → idle_node e id n → timely e at_ → resolved e (definition_of e id) values →
  steps (drive_control order at_ id (definition_of e id) values) e.
Proof.
  intros Hi Hidle Ht Hres. unfold drive_control. apply steps_get.
  case_bool_decide as Hb; [|case_bool_decide as He].
  - destruct (evaluateBranch _ _ _) as [route|err] eqn:Hev.
    + apply (settle_steps id _ _ _ e n); [apply Hidle|]. intros n' Hn'. split; [by eapply step_branch|apply ret_steps].
    + destruct (match err with EngineError _ _ _ _ => _ | _ => _ end) as [code field].
      eapply fail_node_steps; eauto.
  - destruct (negb _); [apply ret_steps|]. rewrite (proj1 Hidle). apply steps_lift. intros [run' n'] Hc.
    apply rtc_once. by eapply step_end.
  - case_bool_decide; by apply steps_refl.
Qed.

Lemma drive_pending_steps pass at_ id n e :
  inv e → idle_node e id n → timely e at_ → allIncomingSettled e id = true →
  steps (drive_pending order pass at_ id) e.
Proof.
  intros Hi Hidle Ht Hset. pose proof Hidle as (Hn & Hp & Hterm & Hrun & Hentry).
  unfold drive_pending. apply steps_get. destruct (anyIncomingActive e id) eqn:Hact; cbn [negb].
  - apply (node_steps id _ _ e n Hn). intros n' Hn'.
    assert (step e (set_node id n' e)) as Hstep by (by eapply step_activate). split; [done|].
    assert (inv (set_node id n' e)) as Hi' by (by eapply engine_inv_step).
    assert (nr_state n' = NodePending) as Hp' by (by apply (node_apply_target OpActivate) in Hn' as [[_ ?] _]).
    assert (idle_node (set_node id n' e) id n') as Hidle'
      by (split_and!; [cbn; apply lookup_insert_eq|done..]).
    apply steps_get. destruct (resolveInputs _ _ _ _) as [[values|]|err] eqn:Hr.
    + apply resolveInputs_resolved in Hr. case_bool_decide.
      * apply (node_steps id _ _ _ n'); [apply Hidle'|]. intros n'' Hn''. split; [by eapply step_ready|apply ret_steps].
      * by eapply drive_control_steps.
    + apply ret_steps.
    + cbv zeta. set (fl := failure _ _ _ _ _ _ _ _). eapply fail_node_steps; eauto. intros n''. case_bool_decide; intros Hn'';
        [exists (OpFailControl fl)|exists (OpFailBeforeAttempt fl)]; eauto.
  - apply (settle_steps id _ _ _ e n Hn). intros n' Hn'. split; [by eapply step_skip|apply ret_steps].
Qed.

Lemma drive_node_steps pass at_ id e :
  inv e → timely e at_ → wr_termination (en_run e) = None → steps (drive_node order pass at_ id) e.
Proof.
  intros Hi Ht Hterm. unfold drive_node. apply steps_get.
  destruct (en_nodes e !! id) as [n|] eqn:Hn; [|by apply steps_refl].
  destruct (_ || _) eqn:Hg; [apply ret_steps|]. bool_prop.
  apply (drive_pending_steps pass at_ id n); auto.
  split_and!; try done. eapply running; [done..|]. by match goal with Hs : nr_state n = _ |- _ => rewrite Hs end.
Qed.
(** *** The run across one node of the sweep *)

Lemma fail_node_restart at_ id fl f e e' o : fail_node at_ id fl f e = (e', Ok o) → o = Restart.
Proof. unfold fail_node. intros H. by eng_inv H. Qed.

Lemma drive_control_next at_ id definition values e e' b :
  drive_control order at_ id definition values e = (e', Ok (Next b)) →
  wr_termination (en_run e') = wr_termination (en_run e).
Proof.
  unfold drive_control. intros H. eng_inv H. case_bool_decide; [|case_bool_decide].
  - destruct (evaluateBranch _ _ _) as [route|err].
    + eng_inv H. apply on_node_run in Hm. apply settleOutgoing_run in Hm0. congruence.
    + destruct (match err with EngineError _ _ _ _ => _ | _ => _ end). by apply fail_node_restart in H.
  - destruct (negb _); [by eng_inv H|]. destruct (en_nodes e !! id) as [n|]; [|by eng_inv H].
    eng_inv H. destruct x0 as [run' n']. eng_inv H. cbn.
    by apply CompleteWorkflowSuccess_Ok in Hlift as (_ & _ & _ & _ & _ & _ & _ & -> & _).
  - case_bool_decide; by eng_inv H.
Qed.

Lemma drive_node_next pass at_ id e e' b :
  drive_node order pass at_ id e = (e', Ok (Next b)) → wr_termination (en_run e') = wr_termination (en_run e).
Proof.
  unfold drive_node. intros H. eng_inv H. destruct (en_nodes e !! id) as [n|]; [|by eng_inv H].
  destruct (_ || _); [by eng_inv H|]. unfold drive_pending in H. eng_inv H. destruct (negb _).
  - eng_inv H. apply on_node_run in Hm. apply settleOutgoing_run in Hm0. congruence.
  - eng_inv H. apply on_node_run in Hm. rewrite <-Hm. destruct (resolveInputs _ _ _ _) as [[values|]|err].
    + case_bool_decide; [|by apply drive_control_next in H]. eng_inv H. apply on_node_run in Hm0. congruence.
    + by eng_inv H.
    + by apply fail_node_restart in H.
Qed.

Lemma sweep_next pass at_ ids changed e e' b :
  sweep order pass at_ ids changed e = (e', Ok (Next b)) → wr_termination (en_run e') = wr_termination (en_run e).
Proof.
  revert changed e. induction ids as [|id ids IH]; intros changed e H; cbn [sweep] in H; eng_inv H; [done|].
  destruct x0 as [b'|]; [|by eng_inv H]. apply drive_node_next in Hm. apply IH in H. congruence.
Qed.

Lemma sweep_steps pass at_ ids changed e :
  inv e → timely e at_ → wr_termination (en_run e) = None → steps (sweep order pass at_ ids changed) e.
Proof.
  revert changed e. induction ids as [|id ids IH]; intros changed e Hi Ht Hterm; [apply ret_steps|].
  cbn [sweep]. apply steps_bind; [by apply drive_node_steps|]. intros o e' Ho Hs.
  destruct o as [b|]; [|apply ret_steps]. apply IH.
  - by eapply engine_inv_steps.
  - by eapply steps_timely.
  - apply drive_node_next in Ho. congruence.
Qed.

(** *** Terminating *)

Lemma cancel_nodes_steps intent ids e :
  wr_termination (en_run e) = Some intent → steps (cancel_nodes intent ids) e.
Proof.
  revert e. induction ids as [|id ids IH]; intros e Hterm; [apply ret_steps|].
  cbn [cancel_nodes]. apply steps_get. destruct (en_nodes e !! id) as [n|] eqn:Hn; [|by apply steps_refl].
  destruct (_ || _) eqn:Hg; [by apply IH|]. bool_prop. unfold terminal_node in *.
  apply (settle_steps id _ _ _ e n Hn). intros n' Hn'. split; [by apply (step_cancel order e id n n' intent true)|].
  by apply IH.
Qed.

Lemma cancel_nodes_run intent ids e e' r : cancel_nodes intent ids e = (e', r) → en_run e' = en_run e.
Proof.
  revert e. induction ids as [|id ids IH]; intros e H; cbn [cancel_nodes] in H; [by injection H as <- _|].
  eng_inv H. destruct (en_nodes e !! id) as [n|]; [|by injection H as <- _].
  destruct (_ || _); [by apply IH in H|]. unfold mbind, eng_bind in H.
  destruct (on_node _ _ e) as [e1 [|]] eqn:H1; [|injection H as <- _; by apply on_node_run in H1].
  destruct (settleOutgoing _ _ e1) as [e2 [|]] eqn:H2;
    [|injection H as <- _; apply on_node_run in H1; apply settleOutgoing_run in H2; congruence].
  apply on_node_run in H1. apply settleOutgoing_run in H2. apply IH in H. congruence.
Qed.

Lemma drive_terminating_steps intent e :
  wr_termination (en_run e) = Some intent → steps (drive_terminating intent) e.
Proof.
  intros Hterm. unfold drive_terminating. apply steps_get.
  apply steps_bind; [by apply cancel_nodes_steps|]. intros u e' He' _. apply steps_get.
  destruct (allNodesTerminal e'); [|apply ret_steps]. apply steps_lift. intros run' Hr.
  apply rtc_once. by apply step_complete.
Qed.

Lemma drive_loop_steps fuel at_ e : inv e → (wr_termination (en_run e) = None → timely e at_) →
  steps (drive_loop order fuel at_) e.
Proof.
  revert e. induction fuel as [|fuel IH]; intros e Hi Ht; [by apply steps_refl|].
  cbn [drive_loop]. apply steps_get. destruct (wr_termination (en_run e)) as [intent|] eqn:Hterm.
  { by apply drive_terminating_steps. }
  apply steps_bind; [by apply sweep_steps; auto|]. intros o e' Ho Hs. apply steps_get.
  assert (steps (drive_loop order fuel at_) e') as Hl.
  { apply IH; [by eapply engine_inv_steps|]. intros _. eapply steps_timely; eauto. }
  destruct o as [b|]; [|done]. destruct (_ || _); [apply ret_steps|done].
Qed.

Lemma drive_steps at_ e : inv e → (wr_termination (en_run e) = None → timely e at_) → steps (drive order at_) e.
Proof. intros. by apply drive_loop_steps. Qed.
(** ** Attempts *)

(** The attempt of a node that was queued within its budget has an identity. *)
Lemma queued_attempt e id n aid n' sq k : inv e → en_nodes e !! id = Some n →
  NodeRun_QueueAttempt n aid = Ok (n', (sq, k)) → ∃ a, NewNodeAttempt aid (ExecutionIdempotencyKey n') sq k = Ok a.
Proof.
  intros Hi Hn H. pose proof Hi as [Hs _ _ Hpol Hbud _]. destruct (sv_node _ _ _ Hs id n Hn) as (Hwf & _).
  pose proof (queue_apply _ _ _ _ H) as Ha. destruct (node_apply_target _ _ _ Ha) as ((Hst & _ & _ & Hk) & _).
  destruct (Hbud id n Hn Hk) as (Hb & Hr & Hw). rewrite Hst in Hw. specialize (Hw I).
  destruct (definition_policy c command e id n Hs Hpol Hn) as (_ & _ & Hmax).
  assert (aid ≠ "" ∧ sq = u32 (nr_nextAttemptSeq n + 1) ∧ k = nr_nextAttemptKind n) as (Haid & -> & ->).
  { clear Ha Hw. unfold NodeRun_QueueAttempt in H. res_inv.
    repeat match goal with Ht : NodeRun_transition _ _ = Ok _ |- _ => apply NodeRun_transition_Ok in Ht as [_ ->] end.
    bool_prop. simplify_eq/=. by case_bool_decide. }
  unfold NewNodeAttempt. rewrite (nwf_next _ Hwf), (nwf_counts _ Hwf), u32_add_l, bool_decide_eq_false_2 by done.
  rewrite bool_decide_eq_false_2; [|unfold ExecutionIdempotencyKey; by destruct (nr_runID n')].
  assert (0 ≤ nr_businessAttemptCount n + nr_recoveryCount n < 2 ^ 32 - 1) as Hlt by (case_bool_decide; lia).
  unfold u32. rewrite Z.mod_small by lia. simpl. destruct (Z.eqb_spec (nr_businessAttemptCount n + nr_recoveryCount n + 1) 0); [lia|simpl; eauto].
Qed.

Lemma QueueNode_steps id aid e : inv e → steps (QueueNode id aid) e.
Proof.
  intros Hi. unfold steps, QueueNode. destruct (wr_termination (en_run e)) eqn:Ht; [done|].
  destruct (en_attempts e !! aid) eqn:Ha; [done|]. destruct (en_nodes e !! id) as [n|] eqn:Hn; [|done].
  destruct (NodeRun_QueueAttempt n aid) as [[n' [sq k]]|] eqn:Hq; [|done].
  destruct (queued_attempt e id n aid n' sq k Hi Hn Hq) as [a Hnew]. rewrite Hnew.
  apply rtc_once. by apply (step_queue order e id n n' aid sq k a).
Qed.

Lemma attempt_owner e aid a : inv e → en_attempts e !! aid = Some a →
  ∃ n, en_attemptNodes e !! aid = Some (attempt_node e aid) ∧ en_nodes e !! attempt_node e aid = Some n.
Proof.
  intros Hi Ha. destruct (av_attempt _ (ev_attempts _ _ _ Hi) aid a Ha) as (_ & _ & id & n & Hid & Hn & _).
  unfold attempt_node. rewrite Hid. simpl. eauto.
Qed.

Lemma StartAttempt_steps aid e : inv e → steps (StartAttempt aid) e.
Proof.
  intros Hi. unfold steps, StartAttempt. destruct (en_attempts e !! aid) as [a|] eqn:Ha; [|done].
  case_bool_decide; [done|]. destruct (NodeAttempt_Start a) as [a'|] eqn:Hst; [|done].
  destruct (attempt_owner e aid a Hi Ha) as (n & Ho & Hn).
  destruct (attempt_apply_identity OpStart a a' Hst) as (_ & _ & Hq & _).
  pose proof Hi as [_ _ Hatt _ _ _].
  pose proof (av_single _ Hatt aid a _ n Ha Ho Hn ltac:(by rewrite Hq)) as Hcur.
  destruct (av_attempt _ Hatt aid a Ha) as (Hwf & Hid & _). destruct (awf_ids _ Hwf) as (Hne & _).
  destruct (av_current _ Hatt _ n Hn ltac:(congruence)) as (b & Hb & _ & Hp).
  assert (b = a) as -> by congruence. rewrite Hq in Hp.
  assert (nr_state n = NodeQueued) as Hns by (by destruct Hp as [?|[[? _]|[_ ?]]]).
  destruct (sv_node _ _ _ (ev_static _ _ _ Hi) _ n Hn) as (Hnwf & _).
  pose proof (nwf_facts _ Hnwf) as Hf. unfold node_state_facts in Hf. rewrite Hns in Hf. destruct Hf as (Hk & _).
  assert (∃ n', NodeRun_AttemptStarted n aid = Ok n') as [n' Hn'].
  { unfold NodeRun_AttemptStarted, NodeRun_transition. rewrite bool_decide_eq_true_2 by done. simpl.
    rewrite Hk, Hns. simpl. eauto. }
  rewrite (on_node_Ok _ _ (set_attempt aid a' e) n Hn), Hn'. apply rtc_once. by eapply step_start.
Qed.

Lemma RecordAttemptResult_steps aid result e : inv e → steps (RecordAttemptResult aid result) e.
Proof.
  intros Hi. unfold steps, RecordAttemptResult. destruct (en_attempts e !! aid) as [a|] eqn:Ha; [|done].
  destruct (attempt_owner e aid a Hi Ha) as (n & Ho & Hn). rewrite Hn.
  case_bool_decide as Hcur; simpl; [|done]. destruct (na_result a) as [r|] eqn:Hr; [by case_match|].
  destruct (NodeAttempt_Complete a result) as [a'|] eqn:Hc; [|done].
  apply rtc_once. by eapply step_record.
Qed.

(** ** Completion *)

Lemma accept_steps key n aid result e :
  inv e → completed e key n aid result → ar_State result = AttemptSucceeded →
  let m := acceptSuccess order key (definition_of e key) aid (ar_Outputs result) in
  (∃ e', m e = (e', Ok tt) ∧ step e e' ∧ en_run e' = en_run e) ∨ ∃ x, m e = (e, Err x).
Proof.
  intros Hi Hc Hst m. pose proof Hc as (Hn & _).
  destruct (definition_lookup c command e key n (ev_static _ _ _ Hi) Hn) as (_ & Hdef & _).
  unfold m, acceptSuccess. rewrite Hdef. unfold mbind, eng_bind, lift.
  destruct (validateOutputs _ _ _) as [[]|x] eqn:Hv; [|by eauto].
  rewrite (on_node_Ok key _ e n Hn). destruct (NodeRun_SucceedAttempt _ _ _) as [n'|x] eqn:Hs; [|by eauto].
  left. rewrite (settleOutgoing_settle key "" _ n') by (cbn; apply lookup_insert_eq).
  eexists; split; [done|]. split; [by eapply step_accept|done].
Qed.

Lemma fail_attempt_state key n aid result fl at_ f e :
  inv e → completed e key n aid result → NodeState_Terminal (nr_state n) = false →
  wr_termination (en_run e) = None → at_ ≠ 0 → wr_createdAt (en_run e) ≤ at_ →
  (∀ n', f n = Ok n' → fl_Code fl ≠ "" ∧ ∃ op, node_apply op n = Ok n' ∧
     (op = OpCancel FailureNodeFailed ∨ ∃ target fl', op = OpFailAttempt aid target fl')) →
  (∃ x, f n = Err x ∧ fail_attempt order key fl at_ f e = (e, Err x)) ∨
  ∃ e1, step e e1 ∧ is_Some (wr_termination (en_run e1)) ∧ wr_state (en_run e1) = RunRunning ∧
    fail_attempt order key fl at_ f e = drive order at_ e1.
Proof.
  intros Hi Hc Hnt Hterm Hz Hat Hf. pose proof Hc as (Hn & _).
  set (intent := Build_TerminationIntent TerminationFailed at_ fl).
  assert (fail_attempt order key fl at_ f e =
    match f n with
    | Ok n' => drive order at_ match WorkflowRun_RequestTermination (en_run e) intent with
                               | Ok (r, _) => set_run r (set_node key n' e) | Err _ => set_node key n' e end
    | Err x => (e, Err x)
    end) as Heq.
  { unfold fail_attempt, mbind, eng_bind, request_termination. rewrite (on_node_Ok key f e n Hn).
    destruct (f n); [|done]. cbn. by destruct (WorkflowRun_RequestTermination _ _) as [[]|]. }
  rewrite Heq. destruct (f n) as [n'|x] eqn:Hfn; [right|by left; eauto].
  destruct (Hf n' eq_refl) as (Hcode & op & Ha & Hop). pose proof (running e key n Hi Hn Hnt) as Hrun.
  destruct (request_succeeds (en_run e) intent Hrun Hterm Hz Hat Hcode eq_refl) as [run' Hr].
  exists (set_run run' (set_node key n' e)).
  split; [by eapply (step_fail_attempt order e key n n' aid result op intent)|].
  pose proof (requested _ _ _ Hr) as (_ & Ht & Hs & _). cbn. rewrite Ht, Hs. split_and!; [by eauto|done|].
  by rewrite Hr.
Qed.

Lemma fail_attempt_steps key n aid result fl at_ f e :
  inv e → completed e key n aid result → NodeState_Terminal (nr_state n) = false →
  wr_termination (en_run e) = None → at_ ≠ 0 → wr_createdAt (en_run e) ≤ at_ →
  (∀ n', f n = Ok n' → fl_Code fl ≠ "" ∧ ∃ op, node_apply op n = Ok n' ∧
     (op = OpCancel FailureNodeFailed ∨ ∃ target fl', op = OpFailAttempt aid target fl')) →
  steps (fail_attempt order key fl at_ f) e.
Proof.
  intros Hi Hc Hnt Hterm Hz Hat Hf. unfold steps.
  destruct (fail_attempt_state key n aid result fl at_ f e) as [(x & _ & ->)|(e1 & Hstep & [t Ht] & _ & ->)]; [done..|].
  eapply rtc_l; [exact Hstep|]. apply drive_steps; [by eapply engine_inv_step|]. by rewrite Ht.
Qed.

Lemma fail_op n aid target fl n' : NodeRun_FailAttempt n aid target fl = Ok n' →
  fl_Code fl ≠ "" ∧ ∃ op, node_apply op n = Ok n' ∧
     (op = OpCancel FailureNodeFailed ∨ ∃ target fl', op = OpFailAttempt aid target fl').
Proof.
  intros H. split; [|exists (OpFailAttempt aid target fl); eauto].
  unfold NodeRun_FailAttempt in H. apply bind_guard in H as [H _]. by bool_prop.
Qed.

Lemma retry_wait_steps key n aid result kind at_ e :
  completed e key n aid result → wr_termination (en_run e) = None →
  (kind = AttemptRecovery ∧ nr_recoveryCount n < ep_MaxRecoveries (nd_ExecutionPolicy (definition_of e key))) ∨
  (kind = AttemptBusiness ∧ nr_businessAttemptCount n < ep_MaxAttempts (nd_ExecutionPolicy (definition_of e key))) →
  steps (retry_wait key aid kind at_ (nd_ExecutionPolicy (definition_of e key))) e.
Proof.
  intros Hc Hterm Hk. unfold retry_wait. apply steps_lift. intros due _. unfold steps.
  rewrite (on_node_Ok key _ e n (proj1 Hc)). destruct (NodeRun_RetryWait _ _ _ _) as [n'|] eqn:Hr; [|done].
  apply rtc_once. by eapply step_retry_wait.
Qed.
Lemma attempt_op_steps {A B} (m : eng A) (f : res A → eng B) e :
  steps m e → (∀ r e', m e = (e', r) → steps (f r) e') → steps (attempt_op m ≫= f) e.
Proof.
  unfold steps, mbind, eng_bind, attempt_op. destruct (m e) as [e' r] eqn:Hm. simpl. intros H1 H2.
  etrans; [exact H1|]. by apply (H2 r e').
Qed.

Lemma completed_code e key n aid result : inv e → completed e key n aid result →
  ar_State result ≠ AttemptSucceeded → ar_ErrorCode result ≠ "".
Proof.
  intros Hi (_ & _ & _ & a & Ha & Hr) Hne Hcode.
  destruct (av_attempt _ (ev_attempts _ _ _ Hi) aid a Ha) as (Hwf & _).
  pose proof (awf_result _ Hwf) as Hw. rewrite Hr in Hw. destruct Hw as (_ & _ & Hw). by apply Hne, Hw.
Qed.

Lemma complete_running_steps key n aid result at_ e :
  inv e → completed e key n aid result → NodeState_Terminal (nr_state n) = false →
  wr_termination (en_run e) = None → at_ ≠ 0 → wr_createdAt (en_run e) ≤ at_ →
  steps (complete_running order key n aid result at_) e.
Proof.
  intros Hi Hc Hnt Hterm Hz Hat. pose proof Hc as (Hn & _). unfold complete_running. apply steps_get.
  destruct (sv_node _ _ _ (ev_static _ _ _ Hi) key n Hn) as (_ & -> & _).
  pose proof (completed_code e key n aid result Hi Hc) as Hcode.
  assert (∀ target fl, steps (fail_attempt order key fl at_ (λ n, NodeRun_FailAttempt n aid target fl)) e) as Hfail.
  { intros target fl. eapply fail_attempt_steps; eauto using fail_op. }
  destruct (ar_State result) eqn:Hst; try (by apply steps_refl).
  - pose proof (accept_steps key n aid result e Hi Hc Hst) as Hacc. cbv zeta in Hacc.
    apply attempt_op_steps.
    { unfold steps. destruct Hacc as [(e' & -> & H & _)|[x ->]]; [by apply rtc_once|done]. }
    intros r e' Hr. destruct Hacc as [(e1 & Hacc & H & _)|[x Hacc]]; rewrite Hacc in Hr; injection Hr as <- <-; [|apply Hfail].
    apply drive_steps; [by eapply engine_inv_step|]. intros _. eapply steps_timely; [done|by apply rtc_once|]. by right.
  - case_match; [|apply Hfail]. eapply retry_wait_steps; eauto. right. by bool_prop.
  - case_match; [|apply Hfail]. eapply retry_wait_steps; eauto. right. by bool_prop.
  - eapply fail_attempt_steps; eauto. intros n' H. split; [by apply Hcode|].
    exists (OpCancel FailureNodeFailed). eauto.
  - case_match; [|apply Hfail]. eapply retry_wait_steps; eauto. left. by bool_prop.
Qed.

Lemma completed_settled e key n aid result : inv e → completed e key n aid result → awaits_attempt e n = false.
Proof.
  intros Hi Hc. pose proof Hc as (_ & <- & _ & a & Ha & _).
  unfold awaits_attempt. rewrite Ha, (completed_terminal e key n (nr_currentAttemptID n) result a); [|apply Hi|done..]. by case_match.
Qed.

Lemma complete_terminating_steps intent key n aid result at_ e :
  inv e → completed e key n aid result → NodeState_Terminal (nr_state n) = false →
  wr_termination (en_run e) = Some intent → steps (complete_terminating order intent key n aid result at_) e.
Proof.
  intros Hi Hc Hnt Hterm. pose proof Hc as (Hn & _). unfold complete_terminating. apply steps_get.
  destruct (sv_node _ _ _ (ev_static _ _ _ Hi) key n Hn) as (_ & -> & _).
  set (cancel := on_node key _).
  assert (∀ e1, cancel e = (e1, Ok tt) → step e e1) as Hcstep.
  { intros e1 H1. unfold cancel in H1. rewrite (on_node_Ok key _ e n Hn) in H1.
    destruct (NodeRun_Cancel _ _) as [n'|] eqn:Hx; [|done]. injection H1 as <-.
    apply (step_cancel order e key n n' intent false); eauto using completed_settled. }
  assert (∀ x e1, cancel e = (e1, Err x) → e1 = e) as Hcerr.
  { intros x e1 H1. unfold cancel in H1. rewrite (on_node_Ok key _ e n Hn) in H1.
    destruct (NodeRun_Cancel _ _); [done|]. by injection H1. }
  assert (steps cancel e) as Hcancel.
  { unfold steps. destruct (cancel e) as [e1 [[]|x]] eqn:H1; simpl; [by apply rtc_once, Hcstep|].
    by rewrite (Hcerr x e1). }
  assert (∀ e1, rtc step e e1 → steps (drive order at_) e1) as Hdrive.
  { intros e1 H1. apply drive_steps; [by eapply engine_inv_steps|]. intros Hno. exfalso.
    clear -Hterm H1 Hno HC. revert Hterm Hno. induction H1 as [|x y z Hxy _ IH]; [congruence|].
    intros Hx. apply IH. by eapply step_termination. }
  apply steps_bind; [|intros u e1 _ H1; by apply Hdrive].
  case_bool_decide as Hst; [|done].
  pose proof (accept_steps key n aid result e Hi Hc Hst) as Hacc. cbv zeta in Hacc. apply attempt_op_steps.
  { unfold steps. destruct Hacc as [(e' & -> & H & _)|[x ->]]; [by apply rtc_once|done]. }
  intros r e' Hr. destruct Hacc as [(e1 & Hacc & H & _)|[x Hacc]]; rewrite Hacc in Hr; injection Hr as <- <-;
    [apply ret_steps|done].
Qed.

Lemma HandleAttemptCompleted_steps aid at_ e : inv e → steps (HandleAttemptCompleted order aid at_) e.
Proof.
  intros Hi. unfold HandleAttemptCompleted. apply steps_get.
  destruct (en_attempts e !! aid) as [a|] eqn:Ha; [|by apply steps_refl].
  apply steps_lift. intros u Hz. apply steps_lift. intros u' Hb. res_inv.
  unfold IsZero, Before in *. bool_prop.
  destruct (na_result a) as [result|] eqn:Hr; [|by apply steps_refl].
  destruct (en_nodes e !! attempt_node e aid) as [n|] eqn:Hn; [|by apply steps_refl].
  case_bool_decide as Hcur; simpl; [|apply ret_steps].
  destruct (_ || _) eqn:Hg; [apply ret_steps|]. bool_prop. unfold terminal_node in *.
  destruct (av_attempt _ (ev_attempts _ _ _ Hi) aid a Ha) as (Hwf & Hid & _).
  assert (completed e (attempt_node e aid) n aid result) as Hc.
  { split_and!; [done|done| |by exists a]. destruct (awf_ids _ Hwf) as (? & _). congruence. }
  destruct (wr_termination (en_run e)) as [intent|] eqn:Hterm.
  - by apply complete_terminating_steps.
  - by apply complete_running_steps.
Qed.

Lemma set_node_same id n e : en_nodes e !! id = Some n → set_node id n e = e.
Proof. intros Hn. unfold set_node. rewrite insert_id by done. by destruct e. Qed.

Lemma RetryDue_steps id at_ e : inv e → steps (RetryDue order id at_) e.
Proof.
  intros Hi. unfold RetryDue. apply steps_get. destruct (wr_termination (en_run e)) eqn:Hterm.
  { apply drive_steps; [done|]. congruence. }
  destruct (en_nodes e !! id) as [n|] eqn:Hn; [|by apply steps_refl].
  destruct (negb _); [apply ret_steps|]. unfold steps. rewrite (on_node_Ok id _ e n Hn).
  destruct (NodeRun_RetryDue n at_) as [[n' [|]]|] eqn:Hr; simpl; [|..|done].
  - apply rtc_once. by eapply step_retry_due.
  - rewrite set_node_same; [done|]. unfold NodeRun_RetryDue in Hr. case_match; [by simplify_eq|].
    apply bind_Ok in Hr as (m & _ & [=]).
Qed.

Lemma terminate_steps at_ kind fl e : inv e → kind ≠ TerminationFailed → steps (terminate order at_ kind fl) e.
Proof.
  intros Hi Hk. unfold terminate. apply steps_get. apply steps_lift. intros [run' applied] Hr.
  assert (steps (modify (set_run run')) e ∧ is_Some (wr_termination run')) as [Hs Hterm].
  { unfold steps. cbn. destruct applied.
    - split; [apply rtc_once; by eapply (step_terminate order e (Build_TerminationIntent kind at_ fl))|].
      apply requested in Hr as (_ & -> & _). eauto.
    - apply RequestTermination_Ok in Hr as (_ & _ & _ & [(? & _ & ->)|(_ & [=] & _)]).
      split; [|done]. by destruct e. }
  apply steps_bind; [done|]. intros u e' [= <- <-] Hs'. apply steps_bind.
  - apply drive_steps; [by eapply engine_inv_steps|]. cbn. intros Hno. rewrite Hno in Hterm. by destruct Hterm.
  - intros. apply ret_steps.
Qed.

Lemma RequestCancel_steps at_ cause e : inv e → steps (RequestCancel order at_ cause) e.
Proof.
  intros Hi. unfold RequestCancel. apply steps_get. case_match; [apply ret_steps|]. by apply terminate_steps.
Qed.

Lemma DeadlineReached_steps at_ e : inv e → steps (DeadlineReached order at_) e.
Proof.
  intros Hi. unfold DeadlineReached. apply steps_get. case_match; [apply ret_steps|].
  case_match; [apply ret_steps|]. by apply terminate_steps.
Qed.

Lemma CancelAttempt_steps aid at_ e : inv e → steps (CancelAttempt order aid at_) e.
Proof.
  intros Hi. unfold CancelAttempt. apply steps_bind; [by apply RecordAttemptResult_steps|].
  intros u e' _ Hs. apply HandleAttemptCompleted_steps. by eapply engine_inv_steps.
Qed.

(** ** Every operation of the engine *)

Inductive EngineOp : Type :=
  | DoQueueNode (nodeID attemptID : string)
  | DoStartAttempt (attemptID : string)
  | DoRecordAttemptResult (attemptID : string) (result : AttemptResult)
  | DoHandleAttemptCompleted (attemptID : string) (at_ : Time)
  | DoRetryDue (nodeID : string) (at_ : Time)
  | DoRequestCancel (at_ : Time) (cause : string)
  | DoDeadlineReached (at_ : Time)
  | DoCancelAttempt (attemptID : string) (at_ : Time).

Definition discard {A} (m : eng A) : eng unit := _ ← m; mret tt.

Definition engine_apply (op : EngineOp) : eng unit :=
  match op with
  | DoQueueNode id aid => discard (QueueNode id aid)
  | DoStartAttempt aid => StartAttempt aid
  | DoRecordAttemptResult aid r => discard (RecordAttemptResult aid r)
  | DoHandleAttemptCompleted aid at_ => HandleAttemptCompleted order aid at_
  | DoRetryDue id at_ => RetryDue order id at_
  | DoRequestCancel at_ cause => discard (RequestCancel order at_ cause)
  | DoDeadlineReached at_ => discard (DeadlineReached order at_)
  | DoCancelAttempt aid at_ => CancelAttempt order aid at_
  end.

Lemma discard_steps {A} (m : eng A) e : steps m e → steps (discard m) e.
Proof. intros H. apply steps_bind; [done|]. intros. apply ret_steps. Qed.

Lemma engine_apply_steps op e : inv e → steps (engine_apply op) e.
Proof.
  destruct op; intros Hi; simpl; eauto using discard_steps, QueueNode_steps, StartAttempt_steps,
    RecordAttemptResult_steps, HandleAttemptCompleted_steps, RetryDue_steps, RequestCancel_steps,
    DeadlineReached_steps, CancelAttempt_steps.
Qed.

Lemma engine_apply_inv op e : inv e → inv (engine_apply op e).1.
Proof. intros Hi. eapply engine_inv_steps; [done..|]. by apply engine_apply_steps. Qed.
End Refinement.
