(* ===== verification/EngineInit.v ===== *)
(** * Starting an engine, and what holds of every engine

    [New] builds an engine that satisfies the invariant; with the refinement
    of EngineFacts the invariant holds of every engine a caller can reach. *)

From S2P Require Import Prelude Json Graph Dsl Branch Runtime Engine EngineSteps EngineInv EngineFacts.

Open Scope string_scope.
Open Scope list_scope.
Open Scope Z_scope.

(** ** Building *)

Lemma group_edges_elem key l id d :
  d ∈ default [] (group_edges key l !! id) ↔ d ∈ l ∧ key d = id.
Proof.
  unfold group_edges. rewrite lookup_fmap.
  set (m := fold_left _ l _).
  assert (∀ id, default [] (m !! id) = filter (λ d, key d = id) l) as Hm.
  { clear. intros id. subst m. induction l as [|d l IH] using rev_ind; [done|].
    rewrite fold_left_app, filter_app. simpl. rewrite lookup_insert, filter_cons, filter_nil.
    destruct (decide (key d = id)) as [->|]; simpl; [by rewrite IH|]. by rewrite IH, app_nil_r. }
  specialize (Hm id). destruct (m !! id) as [r|]; simpl in *.
  - unfold sort_edges. rewrite stable_sort_perm, Hm, list_elem_of_filter. tauto.
  - assert (d ∉ filter (λ d, key d = id) l) as Hno by (rewrite <-Hm; apply not_elem_of_nil).
    rewrite list_elem_of_filter in Hno. rewrite elem_of_nil. tauto.
Qed.

Lemma pending_edges_lookup l d : d ∈ l →
  fold_left (λ (m : gmap string EdgeState) d, <[ed_ID d := EdgePending]> m) l ∅ !! ed_ID d = Some EdgePending.
Proof.
  induction l as [|x l IH] using rev_ind; [by intros ?%not_elem_of_nil|].
  rewrite elem_of_app, list_elem_of_singleton, fold_left_app. simpl. rewrite lookup_insert. case_decide; [done|].
  intros [?| ->]; [auto|done].
Qed.

(** A Node Run as [NewNodeRun] makes it. *)
Definition fresh_node (runID : string) (definition : Node) (n : NodeRun) : Prop :=
  NewNodeRun runID (nd_ID definition) (runtime_kind (nd_Kind definition)) = Ok n.

Lemma add_nodes_Ok runID nodes defs runs defs' runs' :
  add_nodes runID nodes (defs, runs) = Ok (defs', runs') →
  (∀ id, is_Some (runs !! id) ↔ is_Some (defs !! id)) →
  (∀ id n, runs !! id = Some n → fresh_node runID (default zero_node (defs !! id)) n) →
  defs' = fold_left (λ m n, <[nd_ID n := n]> m) nodes defs ∧
  (∀ id, is_Some (runs' !! id) ↔ is_Some (defs' !! id)) ∧
  (∀ id n, runs' !! id = Some n → fresh_node runID (default zero_node (defs' !! id)) n).
Proof.
  revert defs runs. induction nodes as [|d nodes IH]; intros defs runs H Hdom Hfresh; simpl in H.
  { injection H as <- <-. done. }
  apply bind_Ok in H as (n & Hn & H). apply IH in H; [done|..].
  - intros id. by rewrite !lookup_insert_is_Some', Hdom.
  - intros id m. rewrite !lookup_insert. case_decide; [|by apply Hfresh]. by intros [= <-].
Qed.

Record built (c : Contract) (command : CreateRunCommand) (e : Engine) : Prop := {
  bt_doc : doc_wf c (en_doc e);
  bt_defs : en_nodeDefs e = node_map (dc_Nodes (en_doc e));
  bt_in : ∀ id d, d ∈ incoming_of e id ↔ d ∈ dc_Edges (en_doc e) ∧ ed_TargetNodeID d = id;
  bt_out : ∀ id d, d ∈ outgoing_of e id ↔ d ∈ dc_Edges (en_doc e) ∧ ed_SourceNodeID d = id;
  bt_edges : ∀ d, d ∈ dc_Edges (en_doc e) → en_edges e !! ed_ID d = Some EdgePending;
  bt_run : NewWorkflowRun command = Ok (en_run e);
  bt_attempts : en_attempts e = ∅ ∧ en_attemptNodes e = ∅;
  bt_nodes : ∀ id, is_Some (en_nodes e !! id) ↔ is_Some (en_nodeDefs e !! id);
  bt_fresh : ∀ id n, en_nodes e !! id = Some n → fresh_node (cc_RunID command) (definition_of e id) n }.

Lemma build_built snapshot command c compat e :
  build snapshot command c compat = Ok e → built c command e ∧ cloneDocument (sn_DSL snapshot) = Ok (en_doc e).
Proof.
  unfold build. intros H. apply bind_guard in H as [_ H].
  destruct (cloneDocument _) as [d|] eqn:Hd; [|done].
  apply bind_Ok in H as (u1 & _ & H). apply bind_Ok in H as (u2 & Hv & H). apply bind_Ok in H as (run & Hrun & H).
  apply bind_Ok in H as ([defs nodes] & Hadd & H). injection H as <-. split; [|done].
  assert (Validate c d = []) as Hval by (unfold first_issue in Hv; by destruct (Validate c d)).
  apply add_nodes_Ok in Hadd as (Hdefs & Hdom & Hfresh); [|by intros id; rewrite !lookup_empty|done].
  constructor; cbn; try done.
  - by apply Validate_doc_wf.
  - intros id e. apply group_edges_elem.
  - intros id e. apply group_edges_elem.
  - intros e He. by apply pending_edges_lookup.
Qed.

(** The clone keeps the numbers of every policy. *)
Lemma clone_policies d d' : cloneDocument d = Ok d' → policies_ok d → policies_ok d'.
Proof.
  unfold cloneDocument. destruct (mapM clone_node (dc_Nodes d)) as [nodes|] eqn:Hm; [|done]. intros [= <-] Hp.
  apply mapM_Some in Hm. intros n Hn. cbn in Hn.
  apply list_elem_of_lookup in Hn as [i Hi]. destruct (Forall2_lookup_r _ _ _ _ _ Hm Hi) as (m & Hi' & Hc).
  unfold clone_node in Hc. repeat (apply bind_Some in Hc as (? & _ & Hc)). injection Hc as <-. cbn.
  apply Hp. by eapply list_elem_of_lookup_2.
Qed.

(** ** The start of the run *)

Section Init.
Context (order : range_order) (c : Contract) {HC : EngineContract c} (command : CreateRunCommand).
Local Notation inv := (engine_inv c command).

(** The engine when [initialize] reaches [drive]. *)
Definition started (e0 e : Engine) : Prop := ∃ run n n1 n2,
  let entry := dc_EntryNodeID (en_doc e0) in
  WorkflowRun_Start (en_run e0) (sortedNodeIDs e0) = Ok run ∧ en_nodes e0 !! entry = Some n ∧
  NodeRun_Activate n = Ok n1 ∧
  NodeRun_SucceedControl n1 "" {["workflow_input" := wr_workflowInput run]} = Ok n2 ∧
  e = settle entry "" (set_node entry n2 (set_run run e0)).

Lemma initialize_started e0 e : initialize order e0 = (e, Ok tt) →
  ∃ e1, started e0 e1 ∧ drive order 0 e1 = (e, Ok tt).
Proof.
  unfold initialize. intros H. eng_inv H. cbn in H.
  set (entry := dc_EntryNodeID (en_doc e0)) in *. set (e1 := set_run x0 e0) in *.
  destruct (en_nodes e1 !! entry) as [n|] eqn:Hn; [|by unfold on_node in Hm; rewrite Hn in Hm].
  rewrite (on_node_Ok entry _ e1 n Hn) in Hm. destruct (NodeRun_Activate n) as [n1|] eqn:Hact; [|done].
  injection Hm as <- _. rewrite (on_node_Ok entry _ _ n1) in Hm0 by apply lookup_insert_eq.
  destruct (NodeRun_SucceedControl _ _ _) as [n2|] eqn:Hs; [|done]. injection Hm0 as <- _.
  rewrite (settleOutgoing_settle entry "" _ n2) in Hm1 by apply lookup_insert_eq. injection Hm1 as <- _.
  eexists. split; [|exact H]. exists x0, n, n1, n2. cbv zeta. split_and!; try done.
  f_equal. unfold set_node, set_run. cbn. by rewrite insert_insert_eq.
Qed.
Lemma fresh_facts runID definition n : fresh_node runID definition n →
  node_wf n ∧ nr_runID n = runID ∧ nr_executionNodeID n = nd_ID definition ∧
  nr_kind n = runtime_kind (nd_Kind definition) ∧ nr_state n = NodePending ∧ nr_activated n = false ∧
  nr_currentAttemptID n = "" ∧ nr_businessAttemptCount n = 0 ∧ nr_recoveryCount n = 0 ∧
  nr_nextAttemptKind n = AttemptInitial.
Proof.
  intros H. split; [by eapply node_wf_new|]. unfold fresh_node, NewNodeRun in H. case_match; [done|]. by injection H as <-.
Qed.

Lemma started_run e0 run : built c command e0 → WorkflowRun_Start (en_run e0) (sortedNodeIDs e0) = Ok run →
  run_wf command run ∧ wr_state run = RunRunning ∧ wr_termination run = None ∧ wr_id run = cc_RunID command ∧
  wr_workflowInput run = cc_WorkflowInput command ∧ (∀ id, id ∈ wr_executionNodeIDs run ↔ is_Some (en_nodes e0 !! id)).
Proof.
  intros Hb H. pose proof (NewWorkflowRun_Ok _ _ (bt_run _ _ _ Hb)) as (Hrun & _).
  split; [eapply (run_wf_step command (en_run e0) (OpRunStart _)); [apply run_wf_new, Hb|exact H]|].
  unfold WorkflowRun_Start in H. apply bind_guard in H as [_ H]. apply bind_Ok in H as (ids & Hids & H).
  apply bind_Ok in H as (r & Hr & H). injection H as <-. apply WorkflowRun_transition_Ok in Hr as [_ ->].
  apply collect_identities_Ok in Hids as (_ & _ & _ & ->). rewrite Hrun. cbn. split_and!; try done.
  intros id. rewrite elem_of_union, elem_of_list_to_set, elem_of_empty. unfold sortedNodeIDs.
  rewrite elem_of_sorted_keys. tauto.
Qed.

Lemma entry_succeeded n n1 n2 outs : NodeRun_Activate n = Ok n1 → NodeRun_SucceedControl n1 "" outs = Ok n2 →
  nr_state n2 = NodeSucceeded ∧ nr_kind n = NodeControl ∧ nr_selectedRoute n2 = "" ∧
  nr_effectiveOutputs n2 = outs ∧ nr_currentAttemptID n2 = nr_currentAttemptID n ∧
  (nr_runID n2 = nr_runID n ∧ nr_executionNodeID n2 = nr_executionNodeID n ∧ nr_kind n2 = nr_kind n) ∧
  (node_wf n → node_wf n2).
Proof.
  intros H1 H2.
  destruct (node_apply_identity OpActivate _ _ H1) as (R1 & I1 & K1).
  destruct (node_apply_identity (OpSucceedControl "" outs) _ _ H2) as (R2 & I2 & K2).
  assert (node_wf n → node_wf n2).
  { intros Hw. eapply (node_wf_step n1 (OpSucceedControl "" outs)); [|exact H2].
    by eapply (node_wf_step n OpActivate). }
  destruct (node_apply_target OpActivate _ _ H1) as (_ & _ & _ & [[? [=]]|C1]).
  destruct (node_apply_target (OpSucceedControl "" outs) _ _ H2) as ((_ & S2 & T2) & _ & _ & [[? [=]]|C2]).
  assert (nr_kind n1 = NodeControl ∧ nr_effectiveOutputs n2 = outs) as [Hk Ho].
  { unfold NodeRun_SucceedControl in H2. apply bind_guard in H2 as [Hg H2]. apply bind_Ok in H2 as (m & _ & [= <-]).
    by bool_prop. }
  split_and!; try done; congruence.
Qed.

Lemma started_static e0 e : built c command e0 → started e0 e → static_inv c command e.
Proof.
  intros Hb (run & n & n1 & n2 & Hrun & Hn & Hact & Hsuc & ->). cbn zeta.
  destruct (started_run e0 run Hb Hrun) as (Hwf & Hst & _ & Hid & _ & Hids).
  destruct (entry_succeeded n n1 n2 _ Hact Hsuc) as (_ & _ & _ & _ & _ & Hsame & Hwf2).
  apply static_settle. apply (static_set_node c command (set_run run e0) _ n); [|exact Hn| |exact Hsame].
  - destruct Hb. constructor; cbn; try done; [by rewrite Hst|].
    intros id m Hm. destruct (fresh_facts _ _ _ (bt_fresh0 id m Hm)) as (? & ? & Hmid & ? & _).
    split_and!; [done| |congruence|done].
    rewrite Hmid. assert (is_Some (en_nodeDefs e0 !! id)) as [d Hd] by (apply bt_nodes0; eauto).
    unfold definition_of. rewrite Hd. cbn. rewrite bt_defs0 in Hd. apply node_map_lookup in Hd; [apply Hd|].
    apply (dw_nodes _ _ bt_doc0).
  - apply Hwf2. by destruct (fresh_facts _ _ _ (bt_fresh _ _ _ Hb _ _ Hn)).
Qed.
(** The nodes of a started engine: the entry has succeeded, the rest are new. *)
Lemma started_nodes e0 e id m : built c command e0 → started e0 e → en_nodes e !! id = Some m →
  (id = dc_EntryNodeID (en_doc e) ∧ nr_state m = NodeSucceeded ∧ nr_kind m = NodeControl ∧
   nr_selectedRoute m = "" ∧ nr_effectiveOutputs m = {["workflow_input" := cc_WorkflowInput command]} ∧
   nr_currentAttemptID m = "") ∨
  (id ≠ dc_EntryNodeID (en_doc e) ∧ fresh_node (cc_RunID command) (definition_of e id) m).
Proof.
  intros Hb (run & n & n1 & n2 & Hrun & Hn & Hact & Hsuc & ->) Hm. cbn in Hm.
  destruct (started_run e0 run Hb Hrun) as (_ & _ & _ & _ & Hin & _).
  destruct (entry_succeeded n n1 n2 _ Hact Hsuc) as (S2 & K2 & R2 & O2 & C2 & (_ & _ & K2') & _).
  rewrite lookup_insert in Hm. case_decide as Hid.
  - injection Hm as <-. left. split_and!; [done|done|congruence|done|congruence|].
    rewrite C2. by destruct (fresh_facts _ _ _ (bt_fresh _ _ _ Hb _ _ Hn)) as (_ & _ & _ & _ & _ & _ & ? & _).
  - right. split; [done|]. by apply (bt_fresh _ _ _ Hb).
Qed.

Lemma started_flow e0 e : built c command e0 → started e0 e → flow_inv e.
Proof.
  intros Hb Hs. pose proof (started_static e0 e Hb Hs) as Hst.
  pose proof (λ id m, started_nodes e0 e id m Hb Hs) as Hnodes.
  pose proof Hs as (run & n & n1 & n2 & Hrun & Hn & Hact & Hsuc & ->).
  destruct (started_run e0 run Hb Hrun) as (_ & Hr1 & Hr2 & _).
  destruct (entry_succeeded n n1 n2 _ Hact Hsuc) as (S2 & _).
  set (entry := dc_EntryNodeID (en_doc e0)) in *.
  assert (∀ id m, en_nodes (settle entry "" (set_node entry n2 (set_run run e0))) !! id = Some m →
    id = entry ∧ nr_state m = NodeSucceeded ∨
    id ≠ entry ∧ nr_state m = NodePending ∧ nr_activated m = false) as Hcase.
  { intros id m Hm. destruct (Hnodes id m Hm) as [(? & ? & _)|(? & (_ & _ & _ & _ & ? & ? & _)%fresh_facts)]; auto. }
  constructor.
  - exists n2. split; [|done]. cbn. apply lookup_insert_eq.
  - intros d m Hd Hm. unfold settle, node_state. cbn. rewrite lookup_insert_eq. cbn.
    assert (static_inv c command (set_node entry n2 (set_run run e0))) as Hst' by (by destruct Hst).
    rewrite (settle_lookup c command (set_node entry n2 (set_run run e0)) entry _ _ d Hst' Hd).
    destruct (Hnodes _ _ Hm) as [(He & Hms & _ & Hroute & _)|(Hne & (_ & _ & _ & _ & Hp & _)%fresh_facts)].
    + rewrite decide_True by done. eexists; split; [done|]. unfold edge_ok. by rewrite Hms, S2, Hroute.
    + rewrite decide_False by done. exists EdgePending. split; [by apply (bt_edges _ _ _ Hb)|]. unfold edge_ok. by rewrite Hp.
  - intros id m Hm Ha. destruct (Hcase id m Hm) as [[-> _]|(_ & _ & Hx)]; [by left|congruence].
  - intros id m Hm Hx. destruct (Hcase id m Hm) as [[_ Hy]|(_ & Hy & _)]; congruence.
  - intros id m Hm Hx. destruct (Hcase id m Hm) as [[_ Hy]|(_ & Hy & _)]; by rewrite Hy in Hx.
  - cbn. by rewrite Hr1.
  - cbn. by rewrite Hr1.
Qed.

Lemma started_inv e0 e : built c command e0 → policies_ok (en_doc e0) → started e0 e → inv e.
Proof.
  intros Hb Hp Hs. pose proof (started_static e0 e Hb Hs) as Hst.
  pose proof (λ id m, started_nodes e0 e id m Hb Hs) as Hnodes.
  assert (en_doc e = en_doc e0 ∧ en_attempts e = ∅ ∧ en_attemptNodes e = ∅) as (Hdoc & Ha1 & Ha2).
  { destruct Hs as (run & n & n1 & n2 & _ & _ & _ & _ & ->). cbn. destruct (bt_attempts _ _ _ Hb). done. }
  constructor.
  - done.
  - by apply (started_flow e0).
  - constructor; rewrite ?Ha1, ?Ha2.
    + intros aid a. by rewrite lookup_empty.
    + intros aid a. by rewrite lookup_empty.
    + intros id m Hm Hne. exfalso. apply Hne.
      destruct (Hnodes id m Hm) as [(_ & _ & _ & _ & _ & ?)|(_ & (_ & _ & _ & _ & _ & _ & ? & _)%fresh_facts)]; done.
    + intros aid a id n. by rewrite lookup_empty.
  - by rewrite Hdoc.
  - intros id m Hm Hk. destruct (Hnodes id m Hm) as [(_ & _ & ? & _)|(_ & Hf)]; [congruence|].
    apply fresh_facts in Hf as (_ & _ & _ & Hkind & _ & _ & _ & B0 & R0 & N0).
    destruct (definition_lookup c command e id m Hst Hm) as (Hin & _ & Hv).
    rewrite Hdoc in Hin. destruct (Hp _ Hin) as (P1 & P2 & _).
    assert (ep_MaxAttempts (nd_ExecutionPolicy (definition_of e id)) ≠ 0) as Hpos.
    { assert (nd_Kind (definition_of e id) = KindTask) as Hkt.
      { pose proof (ec_kind _ Hv) as Hvk. unfold runtime_kind in Hkind. rewrite Hk in Hkind.
        case_bool_decide; [done|]. by destruct (nd_Kind _). }
      pose proof (ec_task_policy _ Hv Hkt) as Hpol. unfold validateTaskPolicy in Hpol.
      destruct (ep_RetryBackoff _); [|done]. by destruct (Z.eqb_spec (ep_MaxAttempts (nd_ExecutionPolicy (definition_of e id))) 0). }
    unfold budget_ok. rewrite B0, R0, N0. split_and!; try lia. intros _. rewrite bool_decide_eq_false_2 by done. lia.
  - intros id m Hm Hx Hk. destruct (Hnodes id m Hm) as [(_ & _ & ? & _)|(_ & (_ & _ & _ & _ & ? & _)%fresh_facts)]; congruence.
Qed.

(** ** Engines in use *)

(** An engine that [New] returned and callers then used in any order, whatever
    the calls answered. *)
Inductive engine_reachable (snapshot : Snapshot) (compat : CompatibilityChecker) : Engine → Prop :=
  | engine_new e : New order snapshot command c compat = Ok e → engine_reachable snapshot compat e
  | engine_call e op : engine_reachable snapshot compat e → engine_reachable snapshot compat (engine_apply order op e).1.

Lemma New_started snapshot compat e : New order snapshot command c compat = Ok e →
  ∃ e0 e1, built c command e0 ∧ cloneDocument (sn_DSL snapshot) = Ok (en_doc e0) ∧ started e0 e1 ∧
    drive order 0 e1 = (e, Ok tt).
Proof.
  unfold New. intros H. apply bind_Ok in H as (e0 & Hb & H). apply build_built in Hb as [Hb Hd].
  destruct (initialize order e0) as [e' r] eqn:Hi. apply bind_Ok in H as ([] & -> & [= ->]).
  apply initialize_started in Hi as (e1 & Hs & Hdr). eauto 10.
Qed.

Lemma New_inv snapshot compat e :
  policies_ok (sn_DSL snapshot) → New order snapshot command c compat = Ok e → inv e.
Proof.
  intros Hp (e0 & e1 & Hb & Hd & Hs & Hdr)%New_started.
  assert (inv e1) as Hi by (eapply started_inv; eauto using clone_policies).
  replace e with (drive order 0 e1).1 by (by rewrite Hdr).
  eapply engine_inv_steps; [done..|]. apply (drive_steps order c command); [done|]. intros _. by left.
Qed.

Lemma reachable_inv snapshot compat e :
  policies_ok (sn_DSL snapshot) → engine_reachable snapshot compat e → inv e.
Proof. intros Hp. induction 1; eauto using New_inv, engine_apply_inv. Qed.
End Init.
