(* ===== verification/EngineProgress.v ===== *)
(** * Progress of the engine

    [drive] never fails and never runs out of passes on an engine that
    satisfies the invariant, and it stops only when nothing is left to do: in a
    run that is not terminating, every pending node waits for another one.  From
    this, a run that is not finished always has a node that is ready, in
    flight, or waiting for its retry. *)

From S2P Require Import Prelude Json Graph Dsl Branch Runtime Engine EngineSteps EngineInv EngineFacts EngineInit.

Open Scope string_scope.
Open Scope list_scope.
Open Scope Z_scope.

(** ** JSON objects *)

Lemma decode_object v j : json_valid v = true → decode_any v = Some j → json_data_type j = Some TypeObject →
  cloneJSONObject v = Ok v.
Proof.
  unfold json_valid, decode_any, cloneJSONObject, unmarshal_syn. destruct (parse v) as [[s r]|]; [|done]. cbn.
  intros ->. intros [= <-]. destruct s; try done. cbn. by repeat case_match.
Qed.

Lemma raw_object v : rawDataType v = Some TypeObject → cloneJSONObject v = Ok v.
Proof.
  unfold rawDataType. destruct (json_valid v) eqn:Hv; [|done]. intros H.
  apply bind_Some in H as (j & Hj & H). by eapply decode_object.
Qed.

Lemma engine_raw_object v : engine_rawDataType v = Some TypeObject → cloneJSONObject v = Ok v.
Proof.
  unfold engine_rawDataType. destruct (json_valid v) eqn:Hv; [|done]. intros H.
  apply bind_Some in H as (j & Hj & H). destruct j; try (by eapply decode_object).
  apply fmap_Some in H as (x & _ & H). by destruct (rat_is_int x).
Qed.

Lemma compatible_object t : compatible t TypeObject = true → t = TypeObject.
Proof. unfold compatible. by destruct t. Qed.

(** What the validator guarantees of one binding. *)
Lemma binding_valid c n name b : validateNode c n = [] → inputs n !! name = Some b →
  (ib_Kind b = BindingLiteral ∧ ∃ t, rawDataType (ib_Value b) = Some t ∧ compatible t (ib_DataType b) = true) ∨
  (ib_Kind b = BindingNodeOutput ∧ is_Some (ib_Output b)).
Proof.
  intros (spec & _ & _ & _ & _ & _ & Hi & _)%validateNode_nil Hb.
  unfold validateInputs in Hi. rewrite app_nil, !flat_map_nil, !Forall_forall in Hi. destruct Hi as [_ Hi].
  specialize (Hi (name, b)). rewrite elem_of_sorted_items in Hi. specialize (Hi Hb). unfold validate_input in Hi.
  rewrite !app_nil in Hi. destruct Hi as (_ & _ & _ & Hi). unfold validate_binding in Hi.
  destruct (ib_Kind b); [left|right|by rewrite node_issue_nil in Hi].
  - case_match; [by rewrite node_issue_nil in Hi|]. rewrite node_issue_nil in Hi. split; [done|].
    unfold rejects in Hi. destruct (rawDataType _) as [t|]; [|done]. exists t. by rewrite negb_false_iff in Hi.
  - rewrite node_issue_nil, orb_false_iff in Hi. destruct Hi as [_ Hi]. split; [done|].
    unfold rejects in Hi. destruct (ib_Output b); [eauto|done].
Qed.

(** Nodes and engines that look the same to a pending node. *)
Record node_alike (n n' : NodeRun) : Prop := {
  lk_pending : nr_state n = NodePending ↔ nr_state n' = NodePending;
  lk_succeeded : nr_state n = NodeSucceeded ↔ nr_state n' = NodeSucceeded;
  lk_terminal : NodeState_Terminal (nr_state n) = NodeState_Terminal (nr_state n');
  lk_outputs : nr_effectiveOutputs n = nr_effectiveOutputs n' }.

Record alike (e e' : Engine) : Prop := {
  al_snapshot : en_snapshot e' = en_snapshot e;
  al_defs : en_nodeDefs e' = en_nodeDefs e;
  al_incoming : en_incoming e' = en_incoming e;
  al_edges : en_edges e' = en_edges e;
  al_nodes : ∀ id : string, option_Forall2 node_alike (en_nodes e !! id) (en_nodes e' !! id) }.
#[export] Instance node_alike_refl : Reflexive node_alike.
Proof. by constructor. Qed.
#[export] Instance node_alike_trans : Transitive node_alike.
Proof. intros n1 n2 n3 [] []. constructor; etrans; eauto. Qed.
#[export] Instance alike_refl : Reflexive alike.
Proof. by constructor. Qed.
#[export] Instance alike_trans : Transitive alike.
Proof. intros e1 e2 e3 [] []. constructor; etrans; eauto. Qed.

Section Progress.
Context (order : range_order) (c : Contract) {HC : EngineContract c} (command : CreateRunCommand).
Local Notation step := (engine_step order).
Local Notation inv := (engine_inv c command).

(** ** Nodes that are done *)

(** A step changes one node, and only one that is not terminal. *)
Lemma step_node e e' : inv e → step e e' →
  en_nodes e' = en_nodes e ∨
  ∃ id n n', en_nodes e !! id = Some n ∧ NodeState_Terminal (nr_state n) = false ∧
    en_nodes e' = <[id := n']> (en_nodes e) ∧
    (nr_state n' = NodeSucceeded → nr_kind n = NodeTask ∨
      (op_Type (nd_Operation (definition_of e id)) = "control.branch" ∧
       ∃ raw, evaluateBranch order (definition_of e id) raw = Ok (nr_selectedRoute n')) ∨
      (op_Type (nd_Operation (definition_of e id)) = "control.end" ∧ wr_state (en_run e') = RunSucceeded)).
Proof.
  intros Hi Hstep. pose proof Hi as [Hs Hf _ _ _ _]. destruct Hstep as
    [id n n' (Hn & Hp & _) Hin Hact H|id n n' (Hn & Hp & _) Hin Hact H|id n n' v (Hn & Hp & _) _ H
    |id n n' v r (Hn & Hp & _) _ Hop Hev H|id n v run' n' (Hn & Hp & _) _ Ho H
    |id n n' op fl intent run' (Hn & Hp & _) Hop H _ _ Hr
    |id n n' aid result op intent run' (Hn & _) Hterm Hop H _ Hr|id n n' aid sq k a Hn _ _ H Ha
    |id n n' aid a a' Hn _ _ _ H|id n aid a a' result Hn _ _ _ _ H|id n n' aid result (Hn & _) _ _ H
    |id n n' aid result k due (Hn & _) _ _ H|id n n' at_ Hn _ H|intent run' _ Hr
    |id n n' intent settled Hn Hterm Hnt _ H|run' H]; try step_op H;
    try (apply node_apply_target in H as (Ht & _ & Hnt' & _)); try (by left);
    try (destruct settled); try (destruct Hnt' as [->|Hnt']; [left; cbn; by rewrite insert_id|]);
    try (right; exists id, n, n'; split_and!; [done|rewrite ?Hp; done|done|]).
  all: try (intros Hx; by destruct_and? Ht; congruence).
  - intros _. right; left. split; [done|]. destruct Ht as (_ & _ & ->). eauto.
  - apply CompleteWorkflowSuccess_Ok in H as (_ & _ & _ & _ & Hst & _ & _ & -> & ->).
    intros _. right; right. done.
  - intros Hx. destruct Hop as [->| ->]; congruence.
  - intros Hx. destruct Hop as [->|(? & ? & ->)]; [congruence|]. destruct Ht as [<- Hy]. by rewrite Hx in Hy.
  - intros _. left. by destruct Ht as (_ & _ & ? & _).
  - intros Hx. destruct Ht as [->|[_ ?]]; [|congruence]. by rewrite Hx in Hnt'.
Qed.

(** A finished run does not change. *)
Lemma step_run e e' : inv e → step e e' → RunState_Terminal (wr_state (en_run e)) = true → en_run e' = en_run e.
Proof.
  intros Hi Hstep Ht. destruct Hstep; try destruct settled; try done; exfalso.
  - eapply run_apply_terminal; [done|]. by eapply success_apply.
  - eapply run_apply_terminal; [done|]. by eapply request_apply.
  - eapply run_apply_terminal; [done|]. by eapply request_apply.
  - eapply run_apply_terminal; [done|]. by eapply request_apply.
  - by eapply (run_apply_terminal _ (OpCompleteTermination _)).
Qed.
Lemma step_definition e e' id : step e e' → definition_of e' id = definition_of e id.
Proof. by destruct 1; try destruct settled. Qed.

Lemma steps_nodes e e' id : inv e → rtc step e e' → is_Some (en_nodes e !! id) → is_Some (en_nodes e' !! id).
Proof.
  intros Hi Hs. pose proof (engine_inv_steps order c command e e' Hi Hs) as Hi'.
  assert (en_nodeDefs e' = en_nodeDefs e) as Hd.
  { clear Hi Hi'. induction Hs as [|x y z Hxy _ IH]; [done|]. rewrite IH. by destruct Hxy; try destruct settled. }
  rewrite (sv_nodes _ _ _ (ev_static _ _ _ Hi)), (sv_nodes _ _ _ (ev_static _ _ _ Hi')), Hd. done.
Qed.

(** ** What success of a control node means *)

Record control_inv (e : Engine) : Prop := {
  cv_entry : ∃ n, en_nodes e !! dc_EntryNodeID (en_doc e) = Some n ∧
    nr_effectiveOutputs n = {["workflow_input" := cc_WorkflowInput command]};
  cv_exit : ∀ n, en_nodes e !! dc_ExitNodeID (en_doc e) = Some n → nr_state n = NodeSucceeded →
    wr_state (en_run e) = RunSucceeded;
  cv_route : ∀ id n, en_nodes e !! id = Some n → nr_state n = NodeSucceeded → is_branch (definition_of e id) →
    ∃ raw, evaluateBranch order (definition_of e id) raw = Ok (nr_selectedRoute n) }.

Lemma exit_definition e n : inv e → en_nodes e !! dc_ExitNodeID (en_doc e) = Some n →
  coordinate (definition_of e (dc_ExitNodeID (en_doc e))) = endCoordinate ∧ nr_kind n = NodeControl.
Proof.
  intros [Hs _ _ _ _ _] Hn. destruct (definition_lookup c command e _ n Hs Hn) as (Hin & Hid & Hv).
  destruct (dw_exit _ _ (sv_doc _ _ _ Hs)) as (m & Hm & Hmid & Hc).
  pose proof (definition_unique c command e m Hs Hm) as Hd. rewrite Hmid in Hd.
  destruct (sv_node _ _ _ Hs _ n Hn) as (_ & _ & _ & ->). rewrite Hd in *. split; [done|].
  unfold runtime_kind. by rewrite (ec_end_kind _ Hv Hc), bool_decide_eq_true_2.
Qed.

Lemma branch_control e id n : inv e → en_nodes e !! id = Some n → is_branch (definition_of e id) → nr_kind n = NodeControl.
Proof.
  intros [Hs _ _ _ _ _] Hn Hb. destruct (definition_lookup c command e _ n Hs Hn) as (_ & _ & Hv).
  destruct (sv_node _ _ _ Hs _ n Hn) as (_ & _ & _ & ->).
  unfold runtime_kind. by rewrite (ec_branch _ Hv Hb), bool_decide_eq_true_2.
Qed.

Lemma control_step e e' : inv e → control_inv e → step e e' → control_inv e'.
Proof.
  intros Hi [H1 H2 H3] Hstep. pose proof (engine_step_doc order _ _ Hstep) as Hdoc.
  assert (∀ n, en_nodes e !! dc_ExitNodeID (en_doc e) = Some n → nr_state n = NodeSucceeded →
    wr_state (en_run e') = RunSucceeded) as Hex.
  { intros n Hn Hst. pose proof (H2 n Hn Hst) as Hr. by rewrite (step_run e e' Hi Hstep) by (by rewrite Hr). }
  destruct (step_node e e' Hi Hstep) as [Heq|(id & n & n' & Hn & Hnt & Heq & Hsuc)].
  { constructor; rewrite ?Hdoc, ?Heq; auto. intros k m. rewrite (step_definition _ _ _ Hstep). apply H3. }
  assert (dc_EntryNodeID (en_doc e) ≠ id) as Hentry.
  { intros <-. destruct (fv_entry _ (ev_flow _ _ _ Hi)) as (m & Hm & Hst).
    assert (m = n) as -> by congruence. by rewrite Hst in Hnt. }
  constructor; rewrite ?Hdoc, ?Heq.
  - destruct H1 as (m & Hm & Ho). exists m. by rewrite lookup_insert_ne.
  - intros m Hm Hst. rewrite lookup_insert in Hm. case_decide as Hid; [|by eapply Hex].
    subst id. injection Hm as <-. destruct (exit_definition e n Hi Hn) as [Hco Hk].
    destruct (Hsuc Hst) as [?|[[Hb _]|[_ ?]]]; [congruence| |done].
    apply coordinate_type in Hco. rewrite Hb in Hco. done.
  - intros k m Hm Hst. rewrite (step_definition _ _ _ Hstep). intros Hb.
    rewrite lookup_insert in Hm. case_decide as Hid; [|by eapply H3]. subst k. injection Hm as <-.
    destruct (Hsuc Hst) as [Hk|[[_ ?]|[Ho _]]]; [|done|].
    + pose proof (branch_control e id n Hi Hn Hb). congruence.
    + unfold is_branch in Hb. congruence.
Qed.

Lemma control_steps e e' : inv e → control_inv e → rtc step e e' → control_inv e'.
Proof. intros Hi Hc Hs. induction Hs; eauto using control_step, engine_inv_step. Qed.

(** ** The output of the run *)

Lemma end_output_object e id n values :
  inv e → control_inv e → en_nodes e !! id = Some n →
  op_Type (nd_Operation (definition_of e id)) = "control.end" → resolved e (definition_of e id) values →
  let v := default "" (values !! "workflow_output") in cloneJSONObject v = Ok v.
Proof.
  intros Hi Hc Hn Ho Hres. pose proof Hi as [Hs _ _ _ _ Hd].
  destruct (definition_lookup c command e id n Hs Hn) as (Hin & _ & Hv).
  destruct (ec_end_input _ Hv (ec_end _ Hv Ho)) as (b & Hb & Ht).
  destruct (Hres _ _ Hb) as (v & -> & Hrv). cbn. unfold resolve_binding in Hrv.
  destruct (binding_valid c _ _ _ Hv Hb) as [[Hk (t & Hraw & Hcomp)]|[Hk [o Hout]]]; rewrite Hk in Hrv.
  - injection Hrv as <-. apply raw_object. rewrite Ht in Hcomp. by rewrite (compatible_object t Hcomp) in Hraw.
  - rewrite Hout in Hrv. destruct (en_nodes e !! or_NodeID o) as [src|] eqn:Hsrc; [|done].
    case_bool_decide as Hst; simpl in Hrv; [|by destruct (terminal_node src)].
    destruct (nr_effectiveOutputs src !! or_Name o) as [v'|] eqn:Hv'; [|done]. injection Hrv as ->.
    destruct (dw_references _ _ (sv_doc _ _ _ Hs) _ _ _ Hin Hb o Hk Hout) as (m & t & Hm & Hmid & Hmo & Hcomp).
    pose proof (definition_unique c command e m Hs Hm) as Hdef. rewrite Hmid in Hdef.
    rewrite Ht in Hcomp. rewrite (compatible_object t Hcomp) in Hmo.
    destruct (sv_node _ _ _ Hs _ src Hsrc) as (Hwf & _ & _ & Hkind). rewrite Hdef in Hkind.
    destruct (definition_lookup c command e _ src Hs Hsrc) as (_ & _ & Hvm). rewrite Hdef in Hvm.
    destruct (nwf_kind _ Hwf) as [Hctl|Htask].
    + assert (nd_Kind m = KindControl) as Hkm by (unfold runtime_kind in Hkind; case_bool_decide; [done|congruence]).
      destruct (ec_control_outputs _ _ _ Hvm Hkm Hmo) as [Hco Hname].
      destruct (dw_entry _ _ (sv_doc _ _ _ Hs)) as (m' & Hm' & Hmid' & Hco').
      assert (m = m') as <- by (apply (count_one_unique startCoordinate (dc_Nodes (en_doc e))); auto; apply (sv_doc _ _ _ Hs)).
      destruct (cv_entry _ Hc) as (n0 & Hn0 & Hout0). rewrite <-Hmid', Hmid in Hn0.
      assert (n0 = src) as -> by congruence. rewrite Hout0, Hname, lookup_singleton_eq in Hv'. injection Hv' as <-.
      pose proof (rwf_origin _ _ (sv_run _ _ _ Hs)) as Horig. unfold NewWorkflowRun in Horig. cbv zeta in Horig.
      do 6 (apply bind_guard in Horig as [_ Horig]).
      destruct (cloneJSONObject (cc_WorkflowInput command)) as [i|] eqn:Hi'; [|done].
      by rewrite <-(cloneJSONObject_id _ _ Hi').
    + pose proof (Hd _ _ Hsrc Hst Htask _ _ ltac:(rewrite Hdef; exact Hmo)) as Herr.
      unfold output_error in Herr. rewrite Hv' in Herr. destruct (engine_rawDataType v) as [a|] eqn:Ha; [|done].
      apply engine_raw_object. rewrite Ha. destruct a; done.
Qed.

(** ** The node set of the run *)

Lemma check_node_set_Ok run expected seen nodes :
  (∀ n, n ∈ nodes → nr_runID n = wr_id run ∧ nr_executionNodeID n ≠ "" ∧ nr_executionNodeID n ∈ wr_executionNodeIDs run ∧
     nr_executionNodeID n ∉ seen) →
  NoDup (nr_executionNodeID <$> nodes) → check_node_set run expected seen nodes = Ok tt.
Proof.
  revert seen. induction nodes as [|n nodes IH]; intros seen Hall Hnd; [done|]. cbn in Hnd.
  apply NoDup_cons in Hnd as [Hn Hnd]. destruct (Hall n) as (H1 & H2 & H3 & H4); [by left|]. cbn [check_node_set].
  rewrite !bind_guard, (bool_decide_eq_true_2 _ H1), (bool_decide_eq_false_2 _ H2), (bool_decide_eq_false_2 _ H4),
    (bool_decide_eq_true_2 _ H3), andb_false_r. split_and!; try done. apply IH; [|done].
  intros m Hm. destruct (Hall m) as (M1 & M2 & M3 & M4); [by right|]. split_and!; try done.
  rewrite not_elem_of_union, not_elem_of_singleton. split; [|done]. intros Heq. apply Hn. rewrite <-Heq.
  by apply list_elem_of_fmap_2.
Qed.

Lemma allNodeRuns_ids e : inv e → nr_executionNodeID <$> allNodeRuns e = sortedNodeIDs e.
Proof.
  intros [Hs _ _ _ _ _]. unfold allNodeRuns.
  assert (∀ id, id ∈ sortedNodeIDs e → ∃ n, en_nodes e !! id = Some n ∧ nr_executionNodeID n = id) as Hall.
  { intros id Hid. apply elem_of_sorted_keys in Hid as [n Hn]. exists n. split; [done|]. by apply (sv_node _ _ _ Hs) in Hn as (_ & ? & _). }
  induction (sortedNodeIDs e) as [|id l IH]; [done|]. cbn. destruct (Hall id) as (n & -> & Hid); [by left|].
  cbn. rewrite Hid. f_equal. apply IH. intros k Hk. apply Hall. by right.
Qed.

Lemma node_set_valid e : inv e → validateNodeSet (en_run e) (allNodeRuns e) = Ok tt.
Proof.
  intros Hi. pose proof Hi as [Hs _ _ _ _ _]. unfold validateNodeSet. cbv zeta.
  assert (expected_node_count (en_run e) = wr_nodeRunCount (en_run e)) as ->.
  { unfold expected_node_count. pose proof (sv_started _ _ _ Hs). by destruct (wr_state (en_run e)). }
  assert (wr_executionNodeIDs (en_run e) = dom (en_nodes e)) as Hdom.
  { apply set_eq. intros id. by rewrite (sv_ids _ _ _ Hs), elem_of_dom. }
  apply bind_guard. split.
  - rewrite (rwf_count _ _ (sv_run _ _ _ Hs)), Hdom, size_dom.
    rewrite <-(length_fmap nr_executionNodeID), allNodeRuns_ids by done. unfold sortedNodeIDs.
    by rewrite length_sorted_keys, Z.eqb_refl.
  - apply check_node_set_Ok.
    + intros n [id Hn]%elem_of_allNodeRuns. destruct (sv_node _ _ _ Hs id n Hn) as (Hwf & Hid & Hr & _).
      split_and!; [done|apply (nwf_ids _ Hwf)| |by apply not_elem_of_empty]. rewrite Hid, Hdom. by eapply elem_of_dom_2.
    + rewrite allNodeRuns_ids by done. apply NoDup_sorted_keys.
Qed.

Lemma success_completes e id n v : inv e → idle_node e id n → nr_activated n = true → nr_kind n = NodeControl →
  allOtherNodesTerminal e id = true → cloneJSONObject v = Ok v →
  ∃ run' n', CompleteWorkflowSuccess (en_run e) n (allNodeRuns e) v = Ok (run', n').
Proof.
  intros Hi (Hn & Hp & Hterm & Hrun & _) Ha Hk Hoth Hv. pose proof Hi as [Hs Hf _ _ _ _].
  destruct (sv_node _ _ _ Hs id n Hn) as (_ & Hid & _).
  unfold CompleteWorkflowSuccess. rewrite (node_set_valid e Hi), Hrun, Hterm, Ha, Hk, Hp, Hv.
  rewrite (bool_decide_eq_false_2 (is_Some None)) by (by intros [? [=]]). cbn.
  rewrite (proj2 (forallb_forall _ _)); cbn.
  2: { intros m Hm%list_elem_of_In%elem_of_allNodeRuns. destruct Hm as [k Hm]. rewrite Hid.
       destruct (sv_node _ _ _ Hs k m Hm) as (_ & -> & _). apply orb_true_iff.
       unfold allOtherNodesTerminal in Hoth. rewrite forallb_forall in Hoth.
       specialize (Hoth (k, m)). rewrite <-list_elem_of_In, elem_of_map_to_list in Hoth. specialize (Hoth Hm).
       cbn in Hoth. apply orb_true_iff in Hoth as [?|Ht]; [by left|right]. unfold terminal_node in Ht.
       destruct (failed_state (nr_state m)) eqn:Hfs; [|by destruct (nr_state m)].
       destruct (fv_fail_fast _ Hf k m Hm Hfs); congruence. }
  rewrite (proj2 (existsb_exists _ _)); cbn; [eauto|].
  exists n. rewrite <-list_elem_of_In, elem_of_allNodeRuns, bool_decide_eq_true_2 by done. eauto.
Qed.

Lemma termination_completes e intent : inv e → wr_state (en_run e) = RunRunning →
  wr_termination (en_run e) = Some intent → allNodesTerminal e = true →
  ∃ run', WorkflowRun_CompleteTermination (en_run e) (allNodeRuns e) = Ok run' ∧
    RunState_Terminal (wr_state run') = true.
Proof.
  intros Hi Hrun Hterm Hall. pose proof Hi as [Hs Hf _ _ _ _].
  unfold WorkflowRun_CompleteTermination. rewrite Hterm, (node_set_valid e Hi). cbn.
  rewrite (proj2 (forallb_forall _ _)); cbn.
  2: { intros m Hm%list_elem_of_In%elem_of_allNodeRuns. destruct Hm as [k Hm].
       unfold allNodesTerminal in Hall. rewrite forallb_forall in Hall.
       specialize (Hall (k, m)). rewrite <-list_elem_of_In, elem_of_map_to_list in Hall. by apply Hall. }
  pose proof (rwf_facts _ _ (sv_run _ _ _ Hs)) as Hfacts. unfold run_state_facts in Hfacts.
  rewrite Hrun, Hterm in Hfacts. destruct Hfacts as (_ & _ & Hk).
  unfold WorkflowRun_transition. rewrite Hrun. destruct (ti_Kind intent); try done; cbn; eauto.
Qed.

(** ** Calls that succeed on a pending node *)

Lemma pending_transition n target : nr_state n = NodePending → nr_kind n = NodeControl ∨ nr_kind n = NodeTask →
  match target with
  | NodeSkipped | NodeFailed | NodeCanceled => True
  | NodeSucceeded => nr_kind n = NodeControl
  | NodeReady => nr_kind n = NodeTask
  | _ => False
  end → ∃ n', NodeRun_transition n target = Ok n' ∧ nr_state n' = target.
Proof.
  intros Hp Hk Ht. unfold NodeRun_transition. rewrite Hp.
  destruct Hk as [Hk|Hk], target; rewrite ?Hk in *; try done; cbn; eauto.
Qed.

Lemma activate_succeeds n : nr_state n = NodePending → ∃ n', NodeRun_Activate n = Ok n' ∧ nr_state n' = NodePending ∧
  nr_activated n' = true ∧ nr_kind n' = nr_kind n ∧ nr_effectiveOutputs n' = nr_effectiveOutputs n ∧
  nr_currentAttemptID n' = nr_currentAttemptID n.
Proof.
  intros Hp. unfold NodeRun_Activate. rewrite Hp. cbn. destruct (nr_activated n) eqn:Ha; [by exists n|eauto 10].
Qed.

Lemma evaluateBranch_error n raw x : evaluateBranch order n raw = Err x →
  ∃ code id field cause, x = EngineError code id field cause ∧ code ≠ "".
Proof.
  assert (∀ value cases index fallback, evaluate_cases order n value index cases fallback = Err x →
    ∃ code id field cause, x = EngineError code id field cause ∧ code ≠ "") as Hcases.
  { intros value cases. induction cases as [|bc cases IH]; intros index fallback H; [done|]. cbn [evaluate_cases] in H.
    unfold mbind, res_bind in H. destruct (evaluate_case _ _ _ _ _) as [[|]|y] eqn:He; [done|by eapply IH|].
    injection H as ->. unfold evaluate_case in He. cbv zeta in He.
    repeat match type of He with
    | match ?o with _ => _ end = _ => destruct o; [try discriminate He|try discriminate He]
    end; injection He as <-; unfold branch_error; by eauto 10. }
  unfold evaluateBranch. destruct (decode_branch n) as [[cases fallback]|]; [|intros [= <-]; by eauto 10].
  destruct (decodeJSON raw); [by apply Hcases|intros [= <-]; by eauto 10].
Qed.

(** ** One node of the sweep *)

Lemma alike_set_node e id n n' : en_nodes e !! id = Some n → node_alike n n' → alike e (set_node id n' e).
Proof.
  intros Hn Hl. constructor; try done. intros k. cbn. rewrite lookup_insert. case_decide; [subst; rewrite Hn; by constructor|].
  by destruct (en_nodes e !! k); constructor.
Qed.

(** Why the sweep leaves a node alone. *)
Definition blocked (e : Engine) (id : string) : Prop :=
  node_state e id ≠ Some NodePending ∨ id = dc_EntryNodeID (en_doc e) ∨ allIncomingSettled e id = false ∨
  anyIncomingActive e id = true ∧
  ((∃ name b, inputs (definition_of e id) !! name = Some b ∧ resolve_binding e b = Ok None) ∨
   op_Type (nd_Operation (definition_of e id)) = "control.end" ∧ allOtherNodesTerminal e id = false).

Lemma alike_resolve e e' b : alike e e' → resolve_binding e' b = resolve_binding e b.
Proof.
  intros Ha. unfold resolve_binding. destruct (ib_Kind b); try done. destruct (ib_Output b) as [o|]; [|done].
  destruct (al_nodes _ _ Ha (or_NodeID o)) as [n n' [H1 H2 H3 H4]|]; [|done].
  unfold terminal_node. rewrite H3, H4. by rewrite (bool_decide_ext _ _ H2).
Qed.

Lemma alike_others e e' id : alike e e' → allOtherNodesTerminal e' id = allOtherNodesTerminal e id.
Proof.
  intros Ha. unfold allOtherNodesTerminal. apply eq_iff_eq_true. rewrite !forallb_forall.
  assert (∀ e, (∀ p, In p (map_to_list (en_nodes e)) → bool_decide (p.1 = id) || terminal_node p.2 = true) ↔
    ∀ k n, en_nodes e !! k = Some n → bool_decide (k = id) || terminal_node n = true) as Heq.
  { intros x. split.
    - intros H k n Hn. apply (H (k, n)). by apply list_elem_of_In, elem_of_map_to_list.
    - intros H [k n] Hin%list_elem_of_In%elem_of_map_to_list. by apply H. }
  rewrite !Heq. unfold terminal_node. split; intros H k n Hn; pose proof (al_nodes _ _ Ha k) as Hk; rewrite Hn in Hk;
    inversion Hk as [m m' Hl Hm Hm'|]; subst.
  - rewrite (lk_terminal _ _ Hl). by eapply H.
  - rewrite <-(lk_terminal _ _ Hl). by eapply H.
Qed.

Lemma alike_blocked e e' id : alike e e' → blocked e id → blocked e' id.
Proof.
  intros Ha Hb. pose proof Ha as [H1 H2 H3 H4 H5]. unfold blocked in *.
  unfold en_doc, definition_of, allIncomingSettled, anyIncomingActive, incoming_of, node_state in *.
  rewrite H1, H2, H3, H4, (alike_others e e' id Ha). destruct Hb as [Hb|[Hb|[Hb|[Hb1 Hb2]]]]; auto.
  - left. intros Hp. apply Hb. destruct (H5 id) as [n n' [Hx _ _ _]|]; [|done]. cbn in *. injection Hp as Hp. f_equal. by apply Hx.
  - right; right; right. split; [done|]. destruct Hb2 as [(name & b & ? & ?)|?]; [left|by right].
    exists name, b. by rewrite (alike_resolve e e' b Ha).
Qed.

Definition pending_count (e : Engine) : nat := size (filter (λ p, nr_state p.2 = NodePending) (en_nodes e)).

Lemma alike_pending e e' : alike e e' → pending_count e' = pending_count e.
Proof.
  intros Ha. unfold pending_count. rewrite <-!size_dom. f_equal. apply set_eq. intros id.
  rewrite !elem_of_dom. unfold is_Some. setoid_rewrite map_lookup_filter_Some. cbn.
  pose proof (al_nodes _ _ Ha id) as Hid. split; intros (n & Hn & Hp); rewrite Hn in Hid;
    inversion Hid as [m m' Hl Hm Hm'|]; subst; eexists; (split; [done|]); by apply (lk_pending _ _ Hl).
Qed.

Lemma pending_less e e' id n n' : en_nodes e !! id = Some n → nr_state n = NodePending → nr_state n' ≠ NodePending →
  en_nodes e' = <[id := n']> (en_nodes e) → (pending_count e' < pending_count e)%nat.
Proof.
  intros Hn Hp Hp' Heq. unfold pending_count. rewrite Heq, map_filter_insert_False, map_filter_delete, map_size_delete by done.
  set (m := filter _ (en_nodes e)). assert (m !! id = Some n) as Hm by (by apply map_lookup_filter_Some).
  rewrite Hm. assert (size m ≠ 0%nat) by (rewrite map_size_ne_0_lookup; eauto). lia.
Qed.
(** What one node of the sweep does. *)
Definition outcome_ok (e : Engine) (id : string) (o : outcome) (e' : Engine) : Prop :=
  match o with
  | Restart => is_Some (wr_termination (en_run e')) ∧ wr_state (en_run e') = RunRunning
  | Next true => wr_termination (en_run e') = None ∧ (pending_count e' < pending_count e)%nat
  | Next false => alike e e' ∧ en_run e' = en_run e ∧ blocked e' id
  end.

Definition gives {A} (m : eng A) (e : Engine) (P : A → Engine → Prop) : Prop := ∃ e' a, m e = (e', Ok a) ∧ P a e'.

Lemma gives_bind {A B} (m : eng A) (f : A → eng B) e P :
  gives m e (λ a e', gives (f a) e' P) → gives (m ≫= f) e P.
Proof. intros (e1 & a & Hm & e2 & b & Hf & HP). exists e2, b. unfold mbind, eng_bind. by rewrite Hm. Qed.

Lemma gives_node {A} id f n n' (k : eng A) e P : en_nodes e !! id = Some n → f n = Ok n' →
  gives k (set_node id n' e) P → gives (on_node id f ;; k) e P.
Proof. intros Hn Hf Hk. apply gives_bind. exists (set_node id n' e), tt. by rewrite (on_node_Ok id f e n Hn), Hf. Qed.

Lemma gives_settle {A} id route f n n' (k : eng A) e P : en_nodes e !! id = Some n → f n = Ok n' →
  gives k (settle id route (set_node id n' e)) P → gives (on_node id f ;; settleOutgoing id route ;; k) e P.
Proof.
  intros Hn Hf Hk. eapply gives_node; [done..|]. apply gives_bind. eexists _, tt.
  rewrite (settleOutgoing_settle id route _ n') by apply lookup_insert_eq. done.
Qed.

Lemma gives_ret {A} (a : A) e (P : A → Engine → Prop) : P a e → gives (mret a) e P.
Proof. intros H. by exists e, a. Qed.

Lemma fail_node_gives at_ id fl f n n' e0 e :
  inv e → timely e at_ → wr_termination (en_run e) = None → wr_state (en_run e) = RunRunning →
  en_nodes e !! id = Some n → f n = Ok n' → fl_Code fl ≠ "" →
  gives (fail_node at_ id fl f) e (outcome_ok e0 id).
Proof.
  intros Hi Ht Hterm Hrun Hn Hf Hcode. eapply gives_node; [done..|].
  destruct (timely_at c command e at_ Hi Ht) as [H1 H2].
  set (intent := Build_TerminationIntent TerminationFailed (atOrCreated at_ (en_run e)) fl).
  destruct (request_succeeds (en_run e) intent Hrun Hterm H1 H2 Hcode eq_refl) as [run' Hr].
  exists (set_run run' (set_node id n' e)), Restart. split.
  - unfold mbind, eng_bind, get, request_termination. cbn. subst intent. by rewrite Hr.
  - cbn. apply requested in Hr as (_ & -> & -> & _). eauto.
Qed.

Lemma drive_control_gives at_ id n values e :
  inv e → control_inv e → timely e at_ → idle_node e id n → nr_activated n = true → nr_kind n = NodeControl →
  anyIncomingActive e id = true → resolved e (definition_of e id) values →
  gives (drive_control order at_ id (definition_of e id) values) e (outcome_ok e id).
Proof.
  intros Hi Hc Ht Hidle Hact Hk Hany Hres. pose proof Hidle as (Hn & Hp & Hterm & Hrun & Hentry).
  pose proof Hi as [Hs _ _ _ _ _]. destruct (definition_lookup c command e id n Hs Hn) as (Hin & Hdid & Hv).
  destruct (sv_node _ _ _ Hs id n Hn) as (_ & _ & _ & Hkind).
  assert (nd_Kind (definition_of e id) = KindControl) as Hkd
    by (unfold runtime_kind in Hkind; case_bool_decide; [done|congruence]).
  unfold drive_control. apply gives_bind. exists e, e. split; [done|]. cbv beta zeta.
  case_bool_decide as Hb; [|case_bool_decide as He].
  - destruct (evaluateBranch _ _ _) as [route|err] eqn:Hev.
    + destruct (pending_transition n NodeSucceeded Hp (or_introl Hk) Hk) as (m & Hm & Hms).
      eapply gives_settle; [done|by unfold NodeRun_SucceedControl; rewrite Hk, Hact; cbn; rewrite Hm|].
      apply gives_ret. split; [done|]. eapply (pending_less e _ id n); [done|done| |reflexivity]. cbn. by rewrite Hms.
    + apply evaluateBranch_error in Hev as (code & i & f & cause & -> & Hcode).
      destruct (pending_transition n NodeFailed Hp (or_introl Hk) I) as (m & Hm & _).
      eapply fail_node_gives; [done..| |done].
      unfold NodeRun_FailControl. rewrite Hk, bool_decide_eq_true_2, bool_decide_eq_false_2 by done. cbn. by rewrite Hm.
  - destruct (allOtherNodesTerminal e id) eqn:Hoth; cbn.
    + pose proof (end_output_object e id n values Hi Hc Hn He Hres) as Hobj. cbv zeta in Hobj.
      destruct (success_completes e id n _ Hi Hidle Hact Hk Hoth Hobj) as (run' & n' & Hcs). rewrite Hn.
      exists (set_node id n' (set_run run' e)), (Next true). split.
      { unfold mbind, eng_bind, lift. by rewrite Hcs. }
      apply CompleteWorkflowSuccess_Ok in Hcs as (_ & _ & _ & _ & _ & _ & _ & -> & ->).
      split; [done|]. by eapply (pending_less e _ id n); [done|done| |reflexivity].
    + apply gives_ret. split_and!; [done|done|]. right; right; right. eauto.
  - exfalso. destruct (ec_control _ Hv Hkd) as [Hco|[Hco|Hco]].
    + apply Hentry. destruct (dw_entry _ _ (sv_doc _ _ _ Hs)) as (m' & Hm' & <- & Hco').
      rewrite <-Hdid at 1. f_equal. apply (count_one_unique startCoordinate (dc_Nodes (en_doc e))); auto. apply (sv_doc _ _ _ Hs).
    + by apply coordinate_type in Hco.
    + by apply coordinate_type in Hco.
Qed.
Lemma outcome_alike e e1 id o e' : alike e e1 → en_run e1 = en_run e → outcome_ok e1 id o e' → outcome_ok e id o e'.
Proof.
  intros Ha Hr. destruct o as [[|]|]; cbn; [|..|done].
  - by rewrite (alike_pending e e1 Ha).
  - intros (? & ? & ?). split_and!; [by etrans|congruence|done].
Qed.

Lemma gives_mono {A} (m : eng A) e (P Q : A → Engine → Prop) : (∀ a e', P a e' → Q a e') → gives m e P → gives m e Q.
Proof. intros H (e' & a & Hm & HP). exists e', a. auto. Qed.

Lemma resolve_bindings_waits e bindings names acc : resolve_bindings e bindings names acc = Ok None →
  ∃ name b, bindings !! name = Some b ∧ resolve_binding e b = Ok None.
Proof.
  revert acc. induction names as [|x names IH]; intros acc H; simpl in H; [done|].
  destruct (bindings !! x) as [b|] eqn:Hb; [|by eapply IH]. apply bind_Ok in H as (o & Ho & H).
  destruct o; [by eapply IH|eauto].
Qed.

Lemma drive_pending_gives pass at_ id n e :
  inv e → control_inv e → timely e at_ → idle_node e id n → allIncomingSettled e id = true →
  gives (drive_pending order pass at_ id) e (outcome_ok e id).
Proof.
  intros Hi Hc Ht Hidle Hset. pose proof Hidle as (Hn & Hp & Hterm & Hrun & Hentry). pose proof Hi as [Hs Hf _ _ _ _].
  destruct (sv_node _ _ _ Hs id n Hn) as (Hwf & _ & _ & Hkind). pose proof (nwf_kind _ Hwf) as Hk.
  unfold drive_pending. apply gives_bind. exists e, e. split; [done|]. cbv beta.
  destruct (anyIncomingActive e id) eqn:Hany; cbn [negb].
  2: { assert (nr_activated n = false) as Hna.
       { destruct (nr_activated n) eqn:Ha; [|done]. destruct (fv_active _ Hf id n Hn Ha) as [?|[_ ?]]; congruence. }
       destruct (pending_transition n NodeSkipped Hp Hk I) as (m & Hm & Hms).
       eapply gives_settle; [done|by unfold NodeRun_Skip; rewrite Hna; cbn|].
       apply gives_ret. split; [done|]. eapply (pending_less e _ id n); [done|done| |reflexivity]. by rewrite Hms. }
  destruct (activate_succeeds n Hp) as (n1 & Hact & Hp1 & Ha1 & Hk1 & Ho1 & Hc1).
  eapply gives_node; [done..|]. set (e1 := set_node id n1 e).
  assert (step e e1) as Hstep by (by eapply step_activate).
  assert (inv e1) as Hi1 by (by eapply engine_inv_step). assert (control_inv e1) as Hci1 by (by apply (control_step e e1)).
  assert (idle_node e1 id n1) as Hidle1 by (split_and!; [apply lookup_insert_eq|done..]).
  assert (alike e e1) as Hal by (eapply alike_set_node; [done|]; by constructor; rewrite ?Hp, ?Hp1).
  assert (nr_currentAttemptID n1 = "") as Hcur by (rewrite Hc1; by eapply pending_no_attempt).
  apply gives_bind. exists e1, e1. split; [done|]. cbv beta zeta.
  destruct (resolveInputs _ _ _ _) as [[values|]|err] eqn:Hr.
  - apply resolveInputs_resolved in Hr. case_bool_decide as Htask.
    + assert (nr_kind n1 = NodeTask) as Hkt.
      { rewrite Hk1, Hkind. unfold runtime_kind. change (definition_of e1 id) with (definition_of e id) in Htask. by rewrite Htask. }
      destruct (pending_transition n1 NodeReady Hp1 (or_intror Hkt) Hkt) as (m & Hm & Hms).
      eapply gives_node; [apply Hidle1|by unfold NodeRun_Ready; rewrite Hkt, Ha1; cbn; rewrite Hm|].
      apply gives_ret. apply (outcome_alike e e1); [done..|]. split; [done|].
      eapply (pending_less e1 _ id n1); [apply Hidle1|done| |reflexivity]. cbn. by rewrite Hms.
    + eapply gives_mono; [intros o e'; by apply (outcome_alike e e1)|].
      eapply drive_control_gives; eauto. rewrite Hk1, Hkind. unfold runtime_kind.
      change (definition_of e1 id) with (definition_of e id) in Htask.
      destruct (definition_lookup c command e id n Hs Hn) as (_ & _ & Hv). pose proof (ec_kind _ Hv) as Hvk.
      by destruct (nd_Kind (definition_of e id)).
  - apply gives_ret. split_and!; [done|done|]. right; right; right. split; [done|]. left.
    by apply resolve_bindings_waits in Hr.
  - destruct (pending_transition n1 NodeFailed Hp1 ltac:(by rewrite Hk1) I) as (m & Hm & _).
    eapply (fail_node_gives _ _ _ _ n1); [done|done|done|done|apply Hidle1| |done].
    rewrite <-Hk1 in Hk. destruct Hk as [Hk|Hk]; rewrite Hk; cbn.
    + unfold NodeRun_FailControl. rewrite Hk. cbn. by rewrite Hm.
    + unfold NodeRun_FailBeforeAttempt. rewrite Hk, Ha1, Hcur. cbn. by rewrite Hm.
Qed.

Lemma drive_node_gives pass at_ id n e :
  inv e → control_inv e → timely e at_ → wr_termination (en_run e) = None → en_nodes e !! id = Some n →
  gives (drive_node order pass at_ id) e (outcome_ok e id).
Proof.
  intros Hi Hc Ht Hterm Hn. unfold drive_node. apply gives_bind. exists e, e. split; [done|]. cbv beta. rewrite Hn.
  destruct (_ || _) eqn:Hg.
  - apply gives_ret. split_and!; [done|done|]. unfold blocked, node_state. rewrite Hn. cbn.
    rewrite !orb_true_iff, !negb_true_iff, !bool_decide_eq_true, bool_decide_eq_false in Hg.
    destruct Hg as [[?|?]|?]; [left; congruence|auto..].
  - bool_prop. eapply drive_pending_gives; eauto. split_and!; try done.
    eapply (running c command); [done..|]. by match goal with Hs : nr_state n = _ |- _ => rewrite Hs end.
Qed.

(** ** A sweep *)

Definition sweep_ok (e : Engine) (ids : list string) (changed : bool) (o : outcome) (e' : Engine) : Prop :=
  match o with
  | Restart => is_Some (wr_termination (en_run e')) ∧ wr_state (en_run e') = RunRunning
  | Next b => wr_termination (en_run e') = None ∧
      (if b then changed = true ∧ (pending_count e' ≤ pending_count e)%nat ∨ (pending_count e' < pending_count e)%nat
       else changed = false ∧ alike e e' ∧ en_run e' = en_run e ∧ ∀ id, id ∈ ids → blocked e' id)
  end.

Lemma sweep_gives pass at_ ids changed e :
  inv e → control_inv e → timely e at_ → wr_termination (en_run e) = None →
  (∀ id, id ∈ ids → is_Some (en_nodes e !! id)) →
  gives (sweep order pass at_ ids changed) e (sweep_ok e ids changed).
Proof.
  revert changed e. induction ids as [|id ids IH]; intros changed e Hi Hc Ht Hterm Hids; cbn [sweep].
  { apply gives_ret. split; [done|]. destruct changed; [left; split; [done|lia]|].
    split_and!; [done..|]. by intros ? ?%not_elem_of_nil. }
  destruct (Hids id) as [n Hn]; [by left|].
  destruct (drive_node_gives pass at_ id n e Hi Hc Ht Hterm Hn) as (e1 & o & Hd & Ho).
  pose proof (drive_node_steps order c command pass at_ id e Hi Ht Hterm) as Hst. unfold steps in Hst. rewrite Hd in Hst.
  apply gives_bind. exists e1, o. split; [done|]. destruct o as [b|]; [|by apply gives_ret].
  assert (wr_termination (en_run e1) = None) as Hterm1.
  { destruct b; [by destruct Ho|]. destruct Ho as (_ & -> & _). done. }
  eapply gives_mono; [|apply IH; [by eapply engine_inv_steps|by eapply control_steps|by eapply (steps_timely order c command)|done|]].
  - intros o' e'. destruct o' as [b'|]; [|done]. cbn. intros [Hx Hy]. split; [done|].
    destruct b; cbn in Ho; [destruct Ho as [_ Ho]|destruct Ho as (Ho1 & Ho2 & Ho3); pose proof (alike_pending _ _ Ho1) as Ho4].
    + rewrite orb_true_r in Hy. destruct b'; [right; lia|]. by destruct Hy.
    + rewrite orb_false_r, Ho4 in Hy. destruct b'; [done|]. destruct Hy as (? & Hy & ? & Hz).
      split_and!; [done|by etrans|congruence|]. intros k [->|Hk]%elem_of_cons; [by eapply alike_blocked|auto].
  - intros k Hk. apply (steps_nodes e e1); [done..|]. apply Hids. by right.
Qed.
(** ** Terminating *)

Lemma cancel_succeeds n reason : node_wf n → NodeState_Terminal (nr_state n) = false → reason ≠ "" →
  ∃ n', NodeRun_Cancel n reason = Ok n' ∧ nr_state n' = NodeCanceled.
Proof.
  intros Hwf Ht Hr. pose proof (nwf_facts _ Hwf) as Hf. unfold node_state_facts in Hf.
  unfold NodeRun_Cancel, NodeRun_transition. rewrite bool_decide_eq_false_2 by done. cbn.
  assert (validNodeTransition (nr_kind n) (nr_state n) NodeCanceled = true) as ->.
  { destruct (nwf_kind _ Hwf) as [Hk|Hk]; rewrite Hk in *; destruct (nr_state n); try done; by destruct Hf. }
  cbn. eauto.
Qed.

Definition settled_node (e : Engine) (n : NodeRun) : Prop := terminal_node n = true ∨ awaits_attempt e n = true.

Definition cancels (e e' : Engine) : Prop :=
  en_run e' = en_run e ∧ en_attempts e' = en_attempts e ∧
  ∀ k n', en_nodes e' !! k = Some n' → en_nodes e !! k = Some n' ∨ terminal_node n' = true.

Lemma cancel_nodes_gives intent ids e :
  inv e → wr_termination (en_run e) = Some intent → (∀ id, id ∈ ids → is_Some (en_nodes e !! id)) →
  gives (cancel_nodes intent ids) e (λ _ e', cancels e e' ∧
    ∀ id n, id ∈ ids → en_nodes e' !! id = Some n → settled_node e' n).
Proof.
  revert e. induction ids as [|id ids IH]; intros e Hi Hterm Hids; cbn [cancel_nodes].
  { apply gives_ret. split; [by split_and!; auto|]. by intros ? ? ?%not_elem_of_nil. }
  apply gives_bind. exists e, e. split; [done|]. cbv beta. destruct (Hids id) as [n Hn]; [by left|]. rewrite Hn.
  assert (∀ e1 e', cancels e1 e' → (∀ m, en_nodes e1 !! id = Some m → settled_node e1 m) →
    ∀ m, en_nodes e' !! id = Some m → settled_node e' m) as Hkeep.
  { intros e1 e' (_ & Ha & Hc) He1 m Hm. destruct (Hc id m Hm) as [Hm1|?]; [|by left].
    destruct (He1 m Hm1) as [?|Haw]; [by left|right]. unfold awaits_attempt in *. by rewrite Ha. }
  destruct (_ || _) eqn:Hg.
  - eapply gives_mono; [|apply IH; [done|done|intros k Hk; apply Hids; by right]]. cbv beta.
    intros _ e' [Hc He']. split; [done|]. intros k m [->|Hk]%elem_of_cons Hm; [|by eapply He'].
    eapply Hkeep; [exact Hc| |exact Hm]. intros m' Hm'. assert (m' = n) as -> by congruence. by apply orb_true_iff in Hg.
  - apply orb_false_iff in Hg as [Hnt Haw]. unfold terminal_node in Hnt.
    destruct (sv_node _ _ _ (ev_static _ _ _ Hi) id n Hn) as (Hwf & _).
    destruct (cancel_succeeds n (cancelReason (ti_Kind intent)) Hwf Hnt ltac:(by destruct (ti_Kind intent))) as (n' & Hn' & Hst).
    eapply gives_settle; [done..|]. set (e1 := settle id "" (set_node id n' e)).
    assert (step e e1) as Hstep by (by apply (step_cancel order e id n n' intent true)).
    assert (cancels e e1) as (R1 & A1 & N1).
    { split_and!; [done..|]. intros k m Hm. cbn in Hm. rewrite lookup_insert in Hm. case_decide; [|by left].
      injection Hm as <-. right. unfold terminal_node. by rewrite Hst. }
    eapply gives_mono; [|apply IH; [by eapply engine_inv_step|done|]].
    + intros _ e' [Hc He']. pose proof Hc as (R2 & A2 & N2). split.
      { split_and!; [congruence..|]. intros k m Hm. destruct (N2 k m Hm) as [Hm1|?]; [auto|by right]. }
      intros k m [->|Hk]%elem_of_cons Hm; [|by eapply He'].
      eapply Hkeep; [exact Hc| |exact Hm]. intros m' Hm'. left. cbn in Hm'. rewrite lookup_insert_eq in Hm'.
      injection Hm' as <-. unfold terminal_node. by rewrite Hst.
    + intros k Hk. cbn. rewrite lookup_insert_is_Some'. right. apply Hids. by right.
Qed.

(** Every node is done or has an attempt out, and the run is finished unless
    there is such an attempt. *)
Definition busy (n : NodeRun) : bool := match nr_state n with NodeQueued | NodeRunning => true | _ => false end.

Lemma awaits_busy e n : awaits_attempt e n = true → busy n = true.
Proof. unfold awaits_attempt, busy. by destruct (nr_state n). Qed.

Definition terminating_rest (e : Engine) : Prop :=
  (∀ id n, en_nodes e !! id = Some n → terminal_node n = true ∨ busy n = true) ∧
  (RunState_Terminal (wr_state (en_run e)) = true ∨ ∃ id n, en_nodes e !! id = Some n ∧ busy n = true).

Lemma drive_terminating_gives intent e :
  inv e → wr_state (en_run e) = RunRunning → wr_termination (en_run e) = Some intent →
  gives (drive_terminating intent) e (λ _ e', is_Some (wr_termination (en_run e')) ∧ terminating_rest e').
Proof.
  intros Hi Hrun Hterm. unfold drive_terminating. apply gives_bind. exists e, e. split; [done|]. cbv beta.
  destruct (cancel_nodes_gives intent (sortedNodeIDs e) e Hi Hterm) as (e1 & [] & Hc & (R & A & N) & Hall).
  { intros id Hid. by apply elem_of_sorted_keys. }
  pose proof (cancel_nodes_steps order intent (sortedNodeIDs e) e Hterm) as Hst. unfold steps in Hst. rewrite Hc in Hst.
  assert (inv e1) as Hi1 by (by eapply engine_inv_steps).
  apply gives_bind. exists e1, tt. split; [done|]. apply gives_bind. exists e1, e1. split; [done|]. cbv beta.
  assert (∀ id n, en_nodes e1 !! id = Some n → settled_node e1 n) as Hset.
  { intros id n Hn. apply (Hall id n); [|done]. apply elem_of_sorted_keys.
    destruct (en_nodes e !! id) as [m|] eqn:Hm; [eauto|exfalso].
    pose proof (proj2 (sv_ids _ _ _ (ev_static _ _ _ Hi1) id) (ex_intro _ n Hn)) as Hin. rewrite R in Hin.
    apply (sv_ids _ _ _ (ev_static _ _ _ Hi)) in Hin as [? Hin]. congruence. }
  assert (∀ id n, en_nodes e1 !! id = Some n → terminal_node n = true ∨ busy n = true) as Hset'.
  { intros id n Hn. destruct (Hset id n Hn) as [?|?%awaits_busy]; auto. }
  destruct (allNodesTerminal e1) eqn:Hterm1.
  - destruct (termination_completes e1 intent Hi1) as (run' & Hr & Ht'); [congruence..|].
    exists (set_run run' e1), tt. split; [unfold mbind, eng_bind, lift; by rewrite Hr|].
    assert (wr_termination run' = Some intent) as Ht''
      by (eapply (run_apply_termination _ (OpCompleteTermination _)); [|exact Hr]; by rewrite R).
    split; [cbn; by rewrite Ht''|]. split; [exact Hset'|by left].
  - apply gives_ret. split; [by rewrite R, Hterm|]. split; [done|right].
    unfold allNodesTerminal in Hterm1. apply not_true_iff_false in Hterm1. rewrite forallb_forall in Hterm1.
    destruct (decide (Exists (λ p, busy p.2 = true) (map_to_list (en_nodes e1)))) as [Hex|Hno].
    + apply Exists_exists in Hex as ([id n] & Hin%elem_of_map_to_list & Haw). eauto.
    + exfalso. apply Hterm1. intros [id n] Hin%list_elem_of_In. apply elem_of_map_to_list in Hin as Hn.
      destruct (Hset' id n Hn) as [?|Haw]; [done|]. exfalso. apply Hno, Exists_exists. by exists (id, n).
Qed.

(** ** Driving to rest *)

Definition rest (e : Engine) : Prop :=
  match wr_termination (en_run e) with
  | Some _ => terminating_rest e
  | None => RunState_Terminal (wr_state (en_run e)) = true ∨ ∀ id, is_Some (en_nodes e !! id) → blocked e id
  end.

Lemma drive_loop_gives fuel at_ e :
  inv e → control_inv e →
  match wr_termination (en_run e) with
  | Some _ => wr_state (en_run e) = RunRunning ∧ (1 ≤ fuel)%nat
  | None => timely e at_ ∧ (pending_count e + 2 ≤ fuel)%nat
  end → gives (drive_loop order fuel at_) e (λ _, rest).
Proof.
  revert e. induction fuel as [|fuel IH]; intros e Hi Hc Hpre; [destruct (wr_termination _); lia|]. cbn [drive_loop].
  apply gives_bind. exists e, e. split; [done|]. cbv beta.
  destruct (wr_termination (en_run e)) as [intent|] eqn:Hterm.
  { destruct Hpre as [Hrun _]. eapply gives_mono; [|by apply drive_terminating_gives]. cbv beta.
    intros _ e' [[t Ht] Hr]. unfold rest. by rewrite Ht. }
  destruct Hpre as [Ht Hfuel].
  destruct (sweep_gives (S fuel) at_ (sortedNodeIDs e) false e Hi Hc Ht Hterm) as (e1 & o & Hsw & Ho).
  { intros id Hid. by apply elem_of_sorted_keys. }
  pose proof (sweep_steps order c command (S fuel) at_ (sortedNodeIDs e) false e Hi Ht Hterm) as Hst.
  unfold steps in Hst. rewrite Hsw in Hst.
  assert (inv e1) as Hi1 by (by eapply engine_inv_steps). assert (control_inv e1) as Hc1 by (by apply (control_steps e e1)).
  assert (timely e1 at_) as Ht1 by (by apply (steps_timely order c command e e1)).
  apply gives_bind. exists e1, o. split; [done|]. apply gives_bind. exists e1, e1. split; [done|]. cbv beta.
  destruct o as [b|]; cbn in Ho.
  2: { apply IH; [done..|]. destruct Ho as [[t ->] ?]. split; [done|lia]. }
  destruct Ho as [Hterm1 Ho]. destruct (RunState_Terminal (wr_state (en_run e1))) eqn:Hrt; cbn.
  { apply gives_ret. unfold rest. rewrite Hterm1. by left. }
  destruct b; cbn.
  - apply IH; [done..|]. rewrite Hterm1. split; [done|]. destruct Ho as [[[=] _]|?]. lia.
  - apply gives_ret. unfold rest. rewrite Hterm1. right. destruct Ho as (_ & Hal & _ & Hb).
    intros id [n Hn]. apply Hb, elem_of_sorted_keys. pose proof (al_nodes _ _ Hal id) as Hid. rewrite Hn in Hid.
    inversion Hid; subst; eauto.
Qed.

Lemma drive_gives at_ e :
  inv e → control_inv e →
  match wr_termination (en_run e) with Some _ => wr_state (en_run e) = RunRunning | None => timely e at_ end →
  gives (drive order at_) e (λ _, rest).
Proof.
  intros Hi Hc Hpre. unfold drive, gives. apply drive_loop_gives; [done..|]. unfold drive_fuel.
  destruct (wr_termination (en_run e)); (split; [done|]); [lia|].
  assert (pending_count e ≤ size (en_nodes e))%nat; [|lia]. unfold pending_count. apply map_size_filter.
Qed.
End Progress.
