(* ===== verification/EngineLive.v ===== *)
(** * Runs do not get stuck

    Every operation leaves the engine at rest, and an engine at rest whose run
    is not finished has a node that is ready, in flight, or waiting for its
    retry. *)

From S2P Require Import Prelude Json Graph Dsl Branch Runtime Engine EngineSteps EngineInv EngineFacts EngineInit EngineProgress.

Open Scope string_scope.
Open Scope list_scope.
Open Scope Z_scope.

Section Live.
Context (order : range_order) (c : Contract) {HC : EngineContract c} (command : CreateRunCommand).
Local Notation step := (engine_step order).
Local Notation inv := (engine_inv c command).
Local Notation ctl := (control_inv order command).

(** ** Operations that leave the control flow alone *)

Lemma rest_alike e e' :
  alike e e' → en_run e' = en_run e →
  (wr_termination (en_run e) = None ∨
   ∀ id n n', en_nodes e !! id = Some n → en_nodes e' !! id = Some n' → busy n = true → busy n' = true) →
  rest e → rest e'.
Proof.
  intros Ha Hr Hb Hrest. unfold rest in *. rewrite Hr. destruct (wr_termination (en_run e)) as [t|].
  - destruct Hb as [[=]|Hb]. destruct Hrest as [H1 H2].
    assert (∀ id n', en_nodes e' !! id = Some n' → ∃ n, en_nodes e !! id = Some n ∧ node_alike n n') as Hback.
    { intros id n' Hn'. pose proof (al_nodes _ _ Ha id) as Hid. rewrite Hn' in Hid. inversion Hid; subst; eauto. }
    split.
    + intros id n' Hn'. destruct (Hback id n' Hn') as (n & Hn & Hl).
      destruct (H1 id n Hn) as [Ht|Hbz]; [left|right; by eapply Hb].
      unfold terminal_node in *. by rewrite <-(lk_terminal _ _ Hl).
    + destruct H2 as [?|(id & n & Hn & Hbz)]; [left; congruence|right].
      pose proof (al_nodes _ _ Ha id) as Hid. rewrite Hn in Hid. inversion Hid as [m n' Hl Hm Hn'|]; subst.
      exists id, n'. split; [done|]. by eapply Hb.
  - destruct Hrest as [?|Hbl]; [left; congruence|right]. intros id [n' Hn'].
    apply (alike_blocked e e' id Ha), Hbl. pose proof (al_nodes _ _ Ha id) as Hid. rewrite Hn' in Hid. inversion Hid; eauto.
Qed.

Lemma rest_node e e' id n op n' :
  en_nodes e !! id = Some n → node_apply op n = Ok n' →
  match op with OpQueueAttempt _ | OpAttemptStarted _ | OpRetryWait _ _ _ | OpRetryDue _ => True | _ => False end →
  wr_termination (en_run e) = None ∨ (∃ a, op = OpAttemptStarted a) →
  en_snapshot e' = en_snapshot e → en_nodeDefs e' = en_nodeDefs e → en_incoming e' = en_incoming e →
  en_edges e' = en_edges e → en_run e' = en_run e → en_nodes e' = <[id := n']> (en_nodes e) → rest e → rest e'.
Proof.
  intros Hn Ha Hop Hterm H1 H2 H3 H4 H5 H6. 
  assert (node_alike n n') as Hl.
  { destruct (node_apply_target _ _ _ Ha) as (Ht & _).
    assert (nr_effectiveOutputs n = nr_effectiveOutputs n') as Ho.
    { destruct op; try done; clear Ht; node_op_inv Ha; try done. by case_bool_decide. }
    destruct op; try done; destruct_and? Ht.
    1-3: constructor; [..|done]; repeat match goal with Hs : nr_state _ = _ |- _ => rewrite Hs; clear Hs end; done.
    destruct Ht as [->|[Hs1 Hs2]]; [done|]. constructor; rewrite ?Hs1, ?Hs2; done. }
  apply rest_alike; [|done|].
  - constructor; [done..|]. intros k. rewrite H6, lookup_insert. case_decide; [subst; rewrite Hn; by constructor|].
    by destruct (en_nodes e !! k); constructor.
  - destruct Hterm as [?|[a ->]]; [by left|right]. intros k m m' Hm. rewrite H6, lookup_insert. case_decide as Hk.
    + intros [= <-] _. apply node_apply_target in Ha as ((_ & Hs & _) & _). unfold busy. by rewrite Hs.
    + intros Hm'. assert (m = m') as -> by congruence. done.
Qed.

Lemma rest_record aid a e : rest e → rest (set_attempt aid a e).
Proof.
  apply rest_alike; [by constructor|done|right]. cbn. intros id n n' Hn Hn'. by rewrite Hn in Hn'; injection Hn' as <-.
Qed.

Lemma QueueNode_rest id aid e : rest e → rest (QueueNode id aid e).1.
Proof.
  intros Hr. unfold QueueNode. destruct (wr_termination (en_run e)) eqn:Ht; [done|].
  destruct (en_attempts e !! aid); [done|]. destruct (en_nodes e !! id) as [n|] eqn:Hn; [|done].
  destruct (NodeRun_QueueAttempt n aid) as [[n' [sq k]]|] eqn:Hq; [|done]. apply queue_apply in Hq.
  destruct (NewNodeAttempt _ _ _ _) as [a|]; cbn; by eapply rest_node; eauto.
Qed.

Lemma StartAttempt_rest aid e : rest e → rest (StartAttempt aid e).1.
Proof.
  intros Hr. unfold StartAttempt. destruct (en_attempts e !! aid) as [a|]; [|done]. case_bool_decide; [done|].
  destruct (NodeAttempt_Start a) as [a'|]; [|done]. apply (rest_record aid a') in Hr. unfold on_node.
  destruct (en_nodes _ !! _) as [n|] eqn:Hn; [|done].
  destruct (NodeRun_AttemptStarted n aid) as [n'|] eqn:Hs; [|done].
  eapply (rest_node (set_attempt aid a' e) _ _ n (OpAttemptStarted aid)); eauto.
Qed.

Lemma RecordAttemptResult_rest aid result e : rest e → rest (RecordAttemptResult aid result e).1.
Proof. intros Hr. unfold RecordAttemptResult. repeat case_match; try done; by apply rest_record. Qed.

(** ** Operations that drive *)

Lemma gives_state {A} (m : eng A) e P : gives m e (λ _, P) → P (m e).1.
Proof. by intros (e' & a & -> & HP). Qed.

(** Driving, whatever the state of the run. *)
Lemma drive_rest at_ e :
  inv e → ctl e → wr_termination (en_run e) = None ∧ timely e at_ ∨ wr_state (en_run e) = RunRunning →
  is_Some (wr_termination (en_run e)) ∨ timely e at_ → rest (drive order at_ e).1.
Proof.
  intros Hi Hc H1 H2. apply gives_state, (drive_gives order c command); [done..|].
  destruct (wr_termination (en_run e)); [by destruct H1 as [[? _]|?]|]. by destruct H1 as [[_ ?]|_], H2 as [[? [=]]|?].
Qed.

(** A finished run is left alone. *)
Lemma drive_finished at_ e intent :
  inv e → RunState_Terminal (wr_state (en_run e)) = true → wr_termination (en_run e) = Some intent →
  (drive order at_ e).1 = e.
Proof.
  intros Hi Ht Hterm. unfold drive, drive_fuel. cbn [drive_loop Nat.add].
  unfold mbind, eng_bind, get. rewrite Hterm. unfold drive_terminating, mbind, eng_bind, get.
  assert (∀ ids, (∀ id, id ∈ ids → is_Some (en_nodes e !! id)) → cancel_nodes intent ids e = (e, Ok tt)) as Hcancel.
  { induction ids as [|id ids IH]; intros Hids; [done|]. cbn [cancel_nodes]. unfold mbind at 1, eng_bind at 1, get.
    destruct (Hids id) as [n Hn]; [by left|]. rewrite Hn. unfold terminal_node.
    rewrite (fv_done _ (ev_flow _ _ _ Hi) Ht id n Hn). cbn. apply IH. intros k Hk. apply Hids. by right. }
  rewrite Hcancel by (intros id; apply elem_of_sorted_keys).
  destruct (allNodesTerminal e); [|done]. unfold lift.
  destruct (WorkflowRun_CompleteTermination _ _) as [run'|] eqn:Hr; [|done].
  by apply (run_apply_terminal _ (OpCompleteTermination (allNodeRuns e)) run') in Ht.
Qed.

Lemma RetryDue_rest id at_ e : inv e → ctl e → rest e → rest (RetryDue order id at_ e).1.
Proof.
  intros Hi Hc Hr. unfold RetryDue, mbind, eng_bind, get. destruct (wr_termination (en_run e)) as [intent|] eqn:Hterm.
  - destruct (RunState_Terminal (wr_state (en_run e))) eqn:Ht; [by rewrite (drive_finished at_ e intent)|].
    apply drive_rest; [done..| |by left; eauto]. right.
    pose proof (rwf_facts _ _ (sv_run _ _ _ (ev_static _ _ _ Hi))) as Hf. unfold run_state_facts in Hf.
    pose proof (sv_started _ _ _ (ev_static _ _ _ Hi)). by destruct (wr_state (en_run e)).
  - destruct (en_nodes e !! id) as [n|] eqn:Hn; [|done]. destruct (negb _); [done|].
    rewrite (on_node_Ok id _ e n Hn). destruct (fst <$> NodeRun_RetryDue n at_) as [n'|] eqn:Hd; [|done].
    eapply (rest_node e _ id n (OpRetryDue at_)); eauto.
Qed.

Lemma terminate_rest at_ kind fl e :
  inv e → ctl e → kind ≠ TerminationFailed → rest e → rest (terminate order at_ kind fl e).1.
Proof.
  intros Hi Hc Hk Hr. unfold terminate, mbind, eng_bind, get, lift.
  destruct (WorkflowRun_RequestTermination _ _) as [[run' applied]|] eqn:Hreq; [|done].
  unfold modify. set (e1 := set_run run' e).
  assert (rtc step e e1 ∧ is_Some (wr_termination run') ∧ wr_state run' = wr_state (en_run e) ∧
    RunState_Terminal (wr_state (en_run e)) = false) as (Hst & Hterm & Hs' & Hnt).
  { destruct applied.
    - split; [apply rtc_once; by eapply (step_terminate order e (Build_TerminationIntent kind at_ fl))|].
      apply requested in Hreq as (_ & -> & -> & ?). eauto.
    - apply RequestTermination_Ok in Hreq as (? & _ & _ & [(? & _ & ->)|(_ & [=] & _)]).
      split_and!; try done. subst e1. by destruct e. }
  assert (inv e1) as Hi1 by (by eapply engine_inv_steps). assert (ctl e1) as Hc1 by (by eapply (control_steps order c command e)).
  assert (rest (drive order at_ e1).1); [|by destruct (drive order at_ e1) as [e2 [|]]].
  apply drive_rest; [done..| |by left]. right. cbn. rewrite Hs'.
  pose proof (rwf_facts _ _ (sv_run _ _ _ (ev_static _ _ _ Hi))) as Hf. unfold run_state_facts in Hf.
  pose proof (sv_started _ _ _ (ev_static _ _ _ Hi)). by destruct (wr_state (en_run e)).
Qed.
Lemma fail_attempt_rest key n aid result fl at_ f e :
  inv e → ctl e → rest e → completed e key n aid result → NodeState_Terminal (nr_state n) = false →
  wr_termination (en_run e) = None → at_ ≠ 0 → wr_createdAt (en_run e) ≤ at_ →
  (∀ n', f n = Ok n' → fl_Code fl ≠ "" ∧ ∃ op, node_apply op n = Ok n' ∧
     (op = OpCancel FailureNodeFailed ∨ ∃ target fl', op = OpFailAttempt aid target fl')) →
  rest (fail_attempt order key fl at_ f e).1.
Proof.
  intros Hi Hc Hr Hcomp Hnt Hterm Hz Hat Hf.
  destruct (fail_attempt_state order c command key n aid result fl at_ f e) as [(x & _ & ->)|(e1 & Hstep & Ht & Hrun & ->)];
    [done..|].
  apply drive_rest; [by eapply engine_inv_step|by eapply (control_step order c command e)|by right|by left].
Qed.

Lemma retry_wait_rest key n aid kind at_ policy e :
  en_nodes e !! key = Some n → wr_termination (en_run e) = None → rest e →
  rest (retry_wait key aid kind at_ policy e).1.
Proof.
  intros Hn Hterm Hr. unfold retry_wait, mbind, eng_bind, lift. destruct (retryDueAt at_ policy) as [due|]; [|done].
  rewrite (on_node_Ok key _ e n Hn). destruct (NodeRun_RetryWait _ _ _ _) as [n'|] eqn:Hw; [|done].
  eapply (rest_node e _ key n (OpRetryWait aid kind due)); eauto.
Qed.

Lemma complete_running_rest key n aid result at_ e :
  inv e → ctl e → rest e → completed e key n aid result → NodeState_Terminal (nr_state n) = false →
  wr_termination (en_run e) = None → at_ ≠ 0 → wr_createdAt (en_run e) ≤ at_ →
  rest (complete_running order key n aid result at_ e).1.
Proof.
  intros Hi Hctl Hr Hc Hnt Hterm Hz Hat. pose proof Hc as (Hn & _). unfold complete_running, mbind at 1, eng_bind at 1, get.
  destruct (sv_node _ _ _ (ev_static _ _ _ Hi) key n Hn) as (_ & -> & _).
  pose proof (completed_code c command e key n aid result Hi Hc) as Hcode.
  assert (∀ target fl, rest (fail_attempt order key fl at_ (λ n, NodeRun_FailAttempt n aid target fl) e).1) as Hfail.
  { intros target fl. eapply fail_attempt_rest; eauto using fail_op. }
  destruct (ar_State result) eqn:Hst; try done.
  - pose proof (accept_steps order c command key n aid result e Hi Hc Hst) as Hacc. cbv zeta in Hacc.
    unfold mbind, eng_bind, attempt_op. destruct Hacc as [(e1 & -> & Hstep & Hrun)|[x ->]]; [|apply Hfail].
    apply drive_rest; [by eapply engine_inv_step|by eapply (control_step order c command e)|left|right];
      unfold timely; rewrite Hrun; [split; [done|]|]; by right.
  - case_match; [|apply Hfail]. by eapply retry_wait_rest.
  - case_match; [|apply Hfail]. by eapply retry_wait_rest.
  - eapply fail_attempt_rest; eauto. intros n' H. split; [by apply Hcode|]. exists (OpCancel FailureNodeFailed). eauto.
  - case_match; [|apply Hfail]. by eapply retry_wait_rest.
Qed.

Lemma complete_terminating_rest intent key n aid result at_ e :
  inv e → ctl e → completed e key n aid result → NodeState_Terminal (nr_state n) = false →
  wr_termination (en_run e) = Some intent → rest (complete_terminating order intent key n aid result at_ e).1.
Proof.
  intros Hi Hctl Hc Hnt Hterm. pose proof Hc as (Hn & _).
  destruct (sv_node _ _ _ (ev_static _ _ _ Hi) key n Hn) as (Hwf & Hid & _).
  set (cancel := on_node key (λ n, NodeRun_Cancel n (cancelReason (ti_Kind intent)))).
  destruct (cancel_succeeds n (cancelReason (ti_Kind intent)) Hwf Hnt ltac:(by destruct (ti_Kind intent))) as (n' & Hn' & _).
  assert (∃ e1, cancel e = (e1, Ok tt) ∧ step e e1 ∧ en_run e1 = en_run e) as (e1 & Hcancel & Hs1 & Hr1).
  { exists (set_node key n' e). unfold cancel. rewrite (on_node_Ok key _ e n Hn), Hn'. split_and!; [done| |done].
    apply (step_cancel order e key n n' intent false); eauto. by eapply (completed_settled c command). }
  assert (∀ e1, step e e1 → en_run e1 = en_run e → rest (drive order at_ e1).1) as Hdrive.
  { intros x Hstep Hrun. apply drive_rest; [by eapply engine_inv_step|by eapply (control_step order c command e)|right|left]; rewrite Hrun.
    - by eapply (running c command).
    - by rewrite Hterm. }
  unfold complete_terminating. rewrite Hid. fold cancel. unfold mbind, eng_bind, get. case_bool_decide as Hst.
  - pose proof (accept_steps order c command key n aid result e Hi Hc Hst) as Hacc. cbv zeta in Hacc.
    unfold attempt_op. destruct Hacc as [(e2 & -> & Hs2 & Hr2)|[x ->]]; [by apply Hdrive|].
    rewrite Hcancel. by apply Hdrive.
  - rewrite Hcancel. by apply Hdrive.
Qed.

Lemma HandleAttemptCompleted_rest aid at_ e : inv e → ctl e → rest e → rest (HandleAttemptCompleted order aid at_ e).1.
Proof.
  intros Hi Hctl Hrest. unfold HandleAttemptCompleted, mbind, eng_bind, get, lift.
  destruct (en_attempts e !! aid) as [a|] eqn:Ha; [|done].
  destruct (guard_err (IsZero at_) _) eqn:Hz; [|done]. destruct (guard_err (Before at_ _) _) eqn:Hb; [|done].
  res_inv. unfold IsZero, Before in *. bool_prop.
  destruct (na_result a) as [result|] eqn:Hr; [|done].
  destruct (en_nodes e !! attempt_node e aid) as [n|] eqn:Hn; [|done].
  case_bool_decide as Hcur; simpl; [|done]. destruct (_ || _) eqn:Hg; [done|]. bool_prop. unfold terminal_node in *.
  destruct (av_attempt _ (ev_attempts _ _ _ Hi) aid a Ha) as (Hwf & Hid & _).
  assert (completed e (attempt_node e aid) n aid result) as Hc.
  { split_and!; [done|done| |by exists a]. destruct (awf_ids _ Hwf) as (? & _). congruence. }
  destruct (wr_termination (en_run e)) as [intent|] eqn:Hterm.
  - by apply complete_terminating_rest.
  - by apply complete_running_rest.
Qed.

(** ** Every operation leaves the engine at rest *)

Lemma discard_state {A} (m : eng A) e : (discard m e).1 = (m e).1.
Proof. unfold discard, mbind, eng_bind. by destruct (m e) as [e' [|]]. Qed.

Lemma engine_apply_rest op e : inv e → ctl e → rest e → rest (engine_apply order op e).1.
Proof.
  intros Hi Hc Hr. destruct op; cbn [engine_apply]; rewrite ?discard_state;
    eauto using QueueNode_rest, StartAttempt_rest, RecordAttemptResult_rest, HandleAttemptCompleted_rest, RetryDue_rest.
  - unfold RequestCancel, mbind, eng_bind, get. case_match; [done|]. by apply terminate_rest.
  - unfold DeadlineReached, mbind, eng_bind, get. repeat (case_match; [done|]). by apply terminate_rest.
  - unfold CancelAttempt, mbind, eng_bind.
    pose proof (RecordAttemptResult_rest attemptID cancel_result e Hr) as Hr1.
    pose proof (RecordAttemptResult_steps order c command attemptID cancel_result e Hi) as Hs1. unfold steps in Hs1.
    destruct (RecordAttemptResult attemptID cancel_result e) as [e1 [|]]; [|done]. cbn in *.
    apply HandleAttemptCompleted_rest; [by eapply engine_inv_steps|by eapply (control_steps order c command e)|done].
Qed.

Lemma started_control e0 e : built c command e0 → started e0 e → ctl e.
Proof.
  intros Hb Hs. pose proof (started_static c command e0 e Hb Hs) as Hst.
  pose proof (λ id m, started_nodes c command e0 e id m Hb Hs) as Hnodes.
  assert (dc_ExitNodeID (en_doc e) ≠ dc_EntryNodeID (en_doc e)) as Hne.
  { destruct (dw_exit _ _ (sv_doc _ _ _ Hst)) as (m & Hm & <- & Hco).
    destruct (dw_entry _ _ (sv_doc _ _ _ Hst)) as (m' & Hm' & <- & Hco'). intros Heq.
    pose proof (definition_unique c command e m Hst Hm) as D1. pose proof (definition_unique c command e m' Hst Hm') as D2.
    rewrite Heq, D2 in D1. rewrite D1, Hco in Hco'. done. }
  constructor.
  - destruct (fv_entry _ (started_flow c command e0 e Hb Hs)) as (n & Hn & _). exists n. split; [done|].
    by destruct (Hnodes _ _ Hn) as [(_ & _ & _ & _ & ? & _)|[? _]].
  - intros n Hn Hx. destruct (Hnodes _ _ Hn) as [[? _]|(_ & (_ & _ & _ & _ & ? & _)%fresh_facts)]; congruence.
  - intros id n Hn Hx Hbr. destruct (Hnodes _ _ Hn) as [[-> _]|(_ & (_ & _ & _ & _ & ? & _)%fresh_facts)]; [|congruence].
    exfalso. destruct (dw_entry _ _ (sv_doc _ _ _ Hst)) as (m & Hm & Hid & Hco).
    pose proof (definition_unique c command e m Hst Hm) as Hd. rewrite Hid in Hd. rewrite Hd in Hbr.
    apply coordinate_type in Hco. unfold is_branch in Hbr. by rewrite Hbr in Hco.
Qed.

Lemma reachable_rest snapshot compat e :
  policies_ok (sn_DSL snapshot) → engine_reachable order c command snapshot compat e → inv e ∧ ctl e ∧ rest e.
Proof.
  intros Hp. induction 1 as [e Hnew|e op Hr (Hi & Hc & Hrest)].
  - split; [by eapply New_inv|]. apply New_started in Hnew as (e0 & e1 & Hb & Hd & Hs & Hdr).
    assert (inv e1) as Hi by (eapply started_inv; eauto using clone_policies).
    pose proof (started_control e0 e1 Hb Hs) as Hc.
    assert (rtc step e1 e) as Hst.
    { replace e with (drive order 0 e1).1 by (by rewrite Hdr). apply (drive_steps order c command); [done|]. by left. }
    split; [by eapply (control_steps order c command e1)|].
    destruct (drive_gives order c command 0 e1 Hi Hc) as (e' & [] & Hg & Hrest).
    + destruct Hs as (run & n & n1 & n2 & Hrun & _ & _ & _ & ->). cbn.
      destruct (started_run c command e0 run Hb Hrun) as (_ & _ & -> & _). by left.
    + rewrite Hdr in Hg. by injection Hg as ->.
  - split; [by apply engine_apply_inv|]. split; [|by apply engine_apply_rest].
    eapply (control_steps order c command e); [done..|]. by apply (engine_apply_steps order c command).
Qed.

(** ** What the compiler adds to a valid document *)

(** A node reads outputs of nodes that come before it in the control flow. *)
Definition upstream_bindings (d : Document) : Prop := ∀ n name b o,
  n ∈ dc_Nodes d → inputs n !! name = Some b → ib_Kind b = BindingNodeOutput → ib_Output b = Some o →
  tc (flows d) (or_NodeID o) (nd_ID n).

(** Every route of a branch has a name. *)
Definition named_routes (d : Document) : Prop := ∀ n, n ∈ dc_Nodes d → is_branch n → "" ∉ declared_routes n.

(** A node that work goes on with: to be queued, in flight, or to be retried. *)
Definition working (n : NodeRun) : bool :=
  match nr_state n with NodeReady | NodeQueued | NodeRunning | NodeRetryWait => true | _ => false end.

Lemma rank_tc (d : Document) rank : (∀ s t, (s, t) ∈ edge_pairs d → (rank s < rank t)%nat) →
  ∀ s t, tc (flows d) s t → (rank s < rank t)%nat.
Proof. intros Hr s t. induction 1 as [s t H|s u t H _ IH]; apply Hr in H; lia. Qed.

Lemma idle_states e id n : inv e → wr_termination (en_run e) = None → en_nodes e !! id = Some n → working n = false →
  nr_state n = NodePending ∨ nr_state n = NodeSucceeded ∨ nr_state n = NodeSkipped.
Proof.
  intros Hi Hterm Hn Hw. destruct (failed_state (nr_state n)) eqn:Hfs.
  { destruct (fv_fail_fast _ (ev_flow _ _ _ Hi) id n Hn Hfs). congruence. }
  destruct (sv_node _ _ _ (ev_static _ _ _ Hi) id n Hn) as (Hwf & _). pose proof (nwf_facts _ Hwf) as Hf.
  unfold node_state_facts in Hf. unfold working in Hw. destruct (nr_state n); try done; auto.
Qed.

(** A node all of whose predecessors are done is not blocked. *)
Lemma first_pending_moves e id n :
  inv e → wr_termination (en_run e) = None → upstream_bindings (en_doc e) →
  en_nodes e !! id = Some n → nr_state n = NodePending → blocked e id →
  (∀ k m, en_nodes e !! k = Some m → tc (flows (en_doc e)) k id → nr_state m = NodeSucceeded ∨ nr_state m = NodeSkipped) →
  (∀ k m, en_nodes e !! k = Some m → working m = false) → False.
Proof.
  intros Hi Hterm Hup Hn Hp Hb Hanc Hidle. pose proof Hi as [Hs Hf _ _ _ _].
  destruct (definition_lookup c command e id n Hs Hn) as (Hin & Hid & Hv).
  destruct Hb as [Hb|[Hb|[Hb|[_ Hb]]]].
  - apply Hb. unfold node_state. rewrite Hn. cbn. by f_equal.
  - subst id. destruct (fv_entry _ Hf) as (m & Hm & Hst). congruence.
  - apply not_true_iff_false in Hb. apply Hb. unfold allIncomingSettled. rewrite forallb_forall.
    intros d Hd%list_elem_of_In. apply (sv_in _ _ _ Hs) in Hd as [Hd Htgt].
    destruct (edge_source c command e d Hs Hd) as (m & Hm & _). destruct (fv_edge _ Hf d m Hd Hm) as (st & Hst & Hok).
    rewrite Hst, negb_true_iff, bool_decide_eq_false. intros [= ->].
    assert (tc (flows (en_doc e)) (ed_SourceNodeID d) id) as Htc.
    { apply tc_once. rewrite <-Htgt. apply list_elem_of_fmap. by exists d. }
    unfold edge_ok in Hok. destruct (Hanc _ m Hm Htc) as [Hx|Hx]; rewrite Hx in Hok; [|done].
    unfold edge_state_for in Hok. by destruct (_ && _).
  - destruct Hb as [(name & b & Hb & Hr)|[Ho Hoth]].
    + unfold resolve_binding in Hr. destruct (binding_valid c _ _ _ Hv Hb) as [[Hk _]|[Hk [o Hout]]]; rewrite Hk in Hr; [done|].
      rewrite Hout in Hr. destruct (en_nodes e !! or_NodeID o) as [src|] eqn:Hsrc; [|done].
      pose proof (Hup _ _ _ _ Hin Hb Hk Hout) as Htc. rewrite Hid in Htc.
      destruct (Hanc _ src Hsrc Htc) as [Hx|Hx]; unfold terminal_node in Hr; rewrite Hx in Hr; cbn in Hr; [|done].
      by destruct (nr_effectiveOutputs src !! or_Name o).
    + apply not_true_iff_false in Hoth. apply Hoth. unfold allOtherNodesTerminal. rewrite forallb_forall.
      intros [k m] Hm%list_elem_of_In%elem_of_map_to_list. cbn. case_bool_decide as Hk; [done|]. cbn.
      destruct (definition_lookup c command e k m Hs Hm) as (Hkin & Hkid & _).
      assert (id = dc_ExitNodeID (en_doc e)) as Hex.
      { destruct (dw_exit _ _ (sv_doc _ _ _ Hs)) as (x & Hx & <- & Hco). rewrite <-Hid. f_equal.
        apply (count_one_unique endCoordinate (dc_Nodes (en_doc e))); auto; [apply (sv_doc _ _ _ Hs)|].
        by apply (ec_end _ Hv). }
      pose proof (dw_to_exit _ _ (sv_doc _ _ _ Hs) _ Hkin) as Hrtc. rewrite Hkid, <-Hex in Hrtc.
      apply rtc_tc in Hrtc as [?|Htc]; [done|]. unfold terminal_node.
      by destruct (Hanc k m Hm Htc) as [-> | ->].
Qed.

Lemma no_pending e :
  inv e → wr_termination (en_run e) = None → upstream_bindings (en_doc e) →
  (∀ id, is_Some (en_nodes e !! id) → blocked e id) →
  (∀ k m, en_nodes e !! k = Some m → working m = false) →
  ∀ k m, en_nodes e !! k = Some m → nr_state m = NodeSucceeded ∨ nr_state m = NodeSkipped.
Proof.
  intros Hi Hterm Hup Hb Hidle.
  destruct (dw_acyclic _ _ (sv_doc _ _ _ (ev_static _ _ _ Hi))) as [rank Hrank].
  intros k. remember (rank k) as r eqn:Hr. revert k Hr. induction r as [r IH] using lt_wf_ind. intros k -> m Hm.
  destruct (idle_states e k m Hi Hterm Hm (Hidle k m Hm)) as [Hp|?]; [|done]. exfalso.
  apply (first_pending_moves e k m Hi Hterm Hup Hm Hp); [by apply Hb; eauto| |done].
  intros j x Hx Htc. by eapply (IH (rank j) (rank_tc _ rank Hrank _ _ Htc) j eq_refl).
Qed.

(** An active path leads from every succeeded node to the exit. *)
Lemma success_reaches_exit e :
  inv e → ctl e → named_routes (en_doc e) →
  (∀ k m, en_nodes e !! k = Some m → nr_state m = NodeSucceeded ∨ nr_state m = NodeSkipped) →
  ∀ k m, en_nodes e !! k = Some m → nr_state m = NodeSucceeded →
  ∃ x, en_nodes e !! dc_ExitNodeID (en_doc e) = Some x ∧ nr_state x = NodeSucceeded.
Proof.
  intros Hi Hc Hnamed Hdone. pose proof Hi as [Hs Hf _ _ _ _]. pose proof (sv_doc _ _ _ Hs) as Hw.
  destruct (dw_acyclic _ _ Hw) as [rank Hrank].
  intros k. remember (rank (dc_ExitNodeID (en_doc e)) - rank k)%nat as r eqn:Hr. revert k Hr.
  induction r as [r IH] using lt_wf_ind. intros k -> m Hm Hst.
  destruct (definition_lookup c command e k m Hs Hm) as (Hin & Hid & Hv).
  destruct (decide (k = dc_ExitNodeID (en_doc e))) as [->|Hne]; [by eauto|].
  assert (∃ d, d ∈ dc_Edges (en_doc e) ∧ ed_SourceNodeID d = k ∧
    edge_state_for NodeSucceeded (nr_selectedRoute m) (ed_Activation d) = EdgeActive) as (d & Hd & Hsrc & Hact).
  { destruct (decide (is_branch (definition_of e k))) as [Hb|Hb].
    - destruct (cv_route _ _ _ Hc k m Hm Hst Hb) as (raw & (_ & _ & _ & _ & _ & _ & Hev)%evaluateBranch_Ok).
      destruct (dw_routes _ _ Hw _ Hin Hb) as [_ Hroutes].
      destruct (Hroutes _ Hev) as (d & Hd & Hroute); [intros Hx; rewrite Hx in Hev; by apply (Hnamed _ Hin Hb)|].
      apply list_elem_of_filter in Hd as [Hsrc Hd]. rewrite Hid in Hsrc. exists d. split_and!; [done..|].
      destruct (edge_source c command e d Hs Hd) as (_ & _ & Ha). rewrite Hsrc in Ha. unfold activation_ok in Ha.
      rewrite decide_True in Ha by done. destruct Ha as [Hk _]. unfold edge_state_for. rewrite Hk, Hroute. by rewrite (bool_decide_eq_true_2 (nr_selectedRoute m = nr_selectedRoute m)).
    - assert (∃ t, flows (en_doc e) k t) as [t Ht].
      { pose proof (dw_to_exit _ _ Hw _ Hin) as Hrtc. rewrite Hid in Hrtc. inversion Hrtc; subst; [done|eauto]. }
      apply list_elem_of_fmap in Ht as (d & Heq & Hd). injection Heq as Hsrc _. exists d. split_and!; [done..|].
      destruct (edge_source c command e d Hs Hd) as (_ & _ & Ha). rewrite <-Hsrc in Ha. unfold activation_ok in Ha.
      rewrite decide_False in Ha by done. destruct Ha as [Hk _]. unfold edge_state_for. by rewrite Hk. }
  destruct (ew_ends _ _ (dw_edges _ _ Hw) d Hd) as (_ & t & _ & Htin & _ & Htid & _).
  assert (is_Some (en_nodes e !! ed_TargetNodeID d)) as [x Hx].
  { apply (sv_nodes _ _ _ Hs). rewrite (sv_defs _ _ _ Hs), node_map_is_Some, <-Htid. by apply list_elem_of_fmap_2. }
  assert (flows (en_doc e) k (ed_TargetNodeID d)) as Hflow.
  { rewrite <-Hsrc. apply list_elem_of_fmap. by exists d. }
  assert (nr_state x = NodeSucceeded) as Hxs.
  { destruct (Hdone _ _ Hx) as [?|Hsk]; [done|]. exfalso.
    destruct (fv_skipped _ Hf _ _ Hx Hsk) as [_ Hno]. apply not_true_iff_false in Hno. apply Hno.
    apply existsb_exists. exists d. split; [apply list_elem_of_In; by apply (sv_in _ _ _ Hs)|].
    rewrite <-Hsrc in Hm. destruct (fv_edge _ Hf d m Hd Hm) as (st & -> & Hok). unfold edge_ok in Hok.
    rewrite Hst, Hact in Hok. by rewrite Hok. }
  apply (IH (rank (dc_ExitNodeID (en_doc e)) - rank (ed_TargetNodeID d))%nat) with (k := ed_TargetNodeID d) (m := x); auto.
  pose proof (Hrank _ _ Hflow) as H1.
  assert (rank (ed_TargetNodeID d) ≤ rank (dc_ExitNodeID (en_doc e)))%nat; [|lia].
  pose proof (dw_to_exit _ _ Hw _ Htin) as Hrtc. rewrite Htid in Hrtc.
  apply rtc_tc in Hrtc as [->|Htc]; [done|]. pose proof (rank_tc _ rank Hrank _ _ Htc). lia.
Qed.

Lemma rest_works e :
  inv e → ctl e → rest e → upstream_bindings (en_doc e) → named_routes (en_doc e) →
  RunState_Terminal (wr_state (en_run e)) = true ∨ ∃ id n, en_nodes e !! id = Some n ∧ working n = true.
Proof.
  intros Hi Hc Hr Hup Hnamed. destruct (RunState_Terminal (wr_state (en_run e))) eqn:Ht; [by left|right].
  unfold rest in Hr. destruct (wr_termination (en_run e)) as [t|] eqn:Hterm.
  { destruct Hr as [_ [?|(id & n & Hn & Hb)]]; [congruence|]. exists id, n. split; [done|].
    unfold busy, working in *. by destruct (nr_state n). }
  destruct Hr as [?|Hb]; [congruence|].
  destruct (decide (Exists (λ p, working p.2 = true) (map_to_list (en_nodes e)))) as [Hex|Hno].
  { apply Exists_exists in Hex as ([id n] & Hin%elem_of_map_to_list & Hw). eauto. }
  assert (∀ k m, en_nodes e !! k = Some m → working m = false) as Hidle.
  { intros k m Hm. destruct (working m) eqn:Hw; [|done]. exfalso. apply Hno, Exists_exists. exists (k, m).
    by rewrite elem_of_map_to_list. }
  exfalso. pose proof (no_pending e Hi Hterm Hup Hb Hidle) as Hdone.
  destruct (fv_entry _ (ev_flow _ _ _ Hi)) as (n0 & Hn0 & Hs0).
  destruct (success_reaches_exit e Hi Hc Hnamed Hdone _ n0 Hn0 Hs0) as (x & Hx & Hxs).
  pose proof (cv_exit _ _ _ Hc x Hx Hxs) as Hrun. by rewrite Hrun in Ht.
Qed.

(** ** Finishing a terminating run *)

(** Once the run is terminating, no node gets an attempt any more. *)
Lemma step_busy e e' k n' : inv e → step e e' → is_Some (wr_termination (en_run e)) →
  en_nodes e' !! k = Some n' → busy n' = true → ∃ n, en_nodes e !! k = Some n ∧ busy n = true.
Proof.
  intros Hi Hstep [t Ht] Hk Hb.
  assert (∀ id n op m, en_nodes e !! id = Some n → node_apply op n = Ok m → (∀ a, op ≠ OpQueueAttempt a) →
    <[id := m]> (en_nodes e) !! k = Some n' → ∃ n, en_nodes e !! k = Some n ∧ busy n = true) as Hnode.
  { intros id n op m Hn Ha Hop Hm. rewrite lookup_insert in Hm. case_decide as Hid; [|by eauto].
    subst k. injection Hm as ->. exists n. split; [done|].
    destruct (node_apply_target _ _ _ Ha) as (Hx & _). unfold busy in *.
    destruct op; try (by edestruct Hop); destruct_and? Hx;
      repeat match goal with Hs : nr_state _ = _ |- _ => rewrite Hs in *; clear Hs end; try done.
    - destruct Hx as [->|[_ Hs]]; [done|]. by rewrite Hs in Hb.
    - match goal with Hf : failed_state ?s = true |- _ => by destruct s end. }
  destruct Hstep as
    [id n n1 (Hn & Hp & Hnt & _) _ _ H|id n n1 (Hn & Hp & Hnt & _) _ _ H|id n n1 v (Hn & Hp & Hnt & _) _ H
    |id n n1 v r (Hn & Hp & Hnt & _) _ _ _ H|id n v run' n1 (Hn & Hp & Hnt & _) _ _ H
    |id n n1 op fl intent run' (Hn & Hp & Hnt & _) Hop H _ _ Hr
    |id n n1 aid result op intent run' Hc Hnt Hop H _ Hr|id n n1 aid sq kd a Hn Hnt Hnew H Ha
    |id n n1 aid a a' Hn Ha Ho Hst H|id n aid a a' result Hn Ha Ho Hcur Hr H|id n n1 aid result (Hn & _) _ _ H
    |id n n1 aid result kd due Hc Hnt _ H|id n n1 at_ Hn Hnt H|intent run' _ Hr
    |id n n1 intent settled Hn _ _ Haw H|run' H]; try congruence; try step_op H; try (by eauto).
  - destruct settled; by eapply Hnode.
Qed.

Lemma steps_busy e e' k n' : inv e → rtc step e e' → is_Some (wr_termination (en_run e)) →
  en_nodes e' !! k = Some n' → busy n' = true → ∃ n, en_nodes e !! k = Some n ∧ busy n = true.
Proof.
  intros Hi Hs. revert n'. induction Hs as [|x y z Hxy Hyz IH]; intros n' Ht Hn Hb; [eauto|].
  destruct (IH (engine_inv_step order c command _ _ Hi Hxy) n') as (m & Hm & Hmb); [|done..|by eapply step_busy].
  destruct Ht as [t Ht]. by rewrite (step_termination order x y t).
Qed.

Definition terminal_state_of (k : TerminationKind) : RunState :=
  match k with
  | TerminationFailed => RunFailed | TerminationCanceled => RunCanceled | TerminationTimedOut => RunTimedOut
  | TerminationKindOther raw => RunStateOther raw
  end.

Lemma terminated_state e intent : inv e → wr_termination (en_run e) = Some intent →
  RunState_Terminal (wr_state (en_run e)) = true → wr_state (en_run e) = terminal_state_of (ti_Kind intent).
Proof.
  intros Hi Hterm Ht. pose proof (rwf_facts _ _ (sv_run _ _ _ (ev_static _ _ _ Hi))) as Hf.
  unfold run_state_facts, terminated_as in Hf. rewrite Hterm in Hf.
  destruct (wr_state (en_run e)); try done; destruct_and? Hf; try done;
    match goal with Hk : ti_Kind _ = _ |- _ => by rewrite Hk end.
Qed.

Lemma terminate_finishes at_ kind fl e :
  inv e → ctl e → wr_state (en_run e) = RunRunning → wr_termination (en_run e) = None →
  at_ ≠ 0 → wr_createdAt (en_run e) ≤ at_ → fl_Code fl ≠ "" → kind = TerminationCanceled ∨ kind = TerminationTimedOut →
  (∀ id n, en_nodes e !! id = Some n → busy n = false) →
  gives (terminate order at_ kind fl) e (λ applied e', applied = true ∧ wr_state (en_run e') = terminal_state_of kind).
Proof.
  intros Hi Hc Hrun Hterm Hz Hat Hcode Hk Hbusy. set (intent := Build_TerminationIntent kind at_ fl).
  destruct (request_succeeds (en_run e) intent Hrun Hterm Hz Hat Hcode ltac:(by destruct Hk as [-> | ->])) as [run' Hr].
  assert (step e (set_run run' e)) as Hstep by (eapply (step_terminate order e intent); [by destruct Hk as [-> | ->]|done]).
  pose proof (engine_inv_step order c command _ _ Hi Hstep) as Hi1.
  pose proof (control_step order c command _ _ Hi Hc Hstep) as Hc1.
  pose proof (requested _ _ _ Hr) as (_ & Ht1 & Hs1 & _).
  destruct (drive_gives order c command at_ (set_run run' e) Hi1 Hc1) as (e' & [] & Hd & Hrest).
  { cbn. by rewrite Ht1, Hs1. }
  assert (rtc step (set_run run' e) e') as Hsteps.
  { replace e' with (drive order at_ (set_run run' e)).1 by (by rewrite Hd).
    apply (drive_steps order c command); [done|]. cbn. by rewrite Ht1. }
  exists e', true. split.
  { unfold terminate, mbind, eng_bind, get, lift, modify. subst intent. by rewrite Hr, Hd. }
  split; [done|]. assert (wr_termination (en_run e') = Some intent) as Ht'.
  { assert (wr_termination (en_run (set_run run' e)) = Some intent) as Hx by done.
    clear -Hsteps Hx HC. induction Hsteps as [|x y z Hxy _ IH]; [done|]. apply IH. by eapply step_termination. }
  apply (terminated_state e' intent); [by eapply engine_inv_steps|done|].
  unfold rest in Hrest. rewrite Ht' in Hrest. destruct Hrest as [_ [?|(id & n & Hn & Hb)]]; [done|]. exfalso.
  destruct (steps_busy (set_run run' e) e' id n Hi1 Hsteps) as (m & Hm & Hmb); [cbn; by rewrite Ht1|done..|].
  pose proof (Hbusy id m Hm). congruence.
Qed.
End Live.
