(* ===== verification/BranchRoutes.v ===== *)
(** * Branch routes have names

    The validator reads a branch's cases from the raw text of their members and
    the engine reads them from the parsed value.  A raw text is the text that
    the value was parsed from, so the two agree, and no route of an accepted
    document is empty. *)

From Stdlib Require Import Ascii.
From S2P Require Import Prelude Json Graph Dsl Branch Runtime Engine EngineSteps EngineInv EngineFacts EngineInit EngineProgress EngineLive.

Open Scope string_scope.
Open Scope list_scope.
Open Scope Z_scope.

(** ** Strings *)

Lemma consumed_app p r : consumed (p +:+ r) r = p.
Proof.
  unfold consumed. rewrite length_string_app.
  replace (String.length p + String.length r - String.length r)%nat with (String.length p) by lia.
  induction p as [|a p IH]; [by destruct r|].
  change (String a (String.substring 0 (String.length p) (p +:+ r)) = String a p). by rewrite IH.
Qed.

(** A scanned string is a body between quotes, whatever follows it. *)
Lemma scan_string_split s b r : scan_string s = Some (b, r) →
  s = b +:+ String "034" r ∧ ∀ t, scan_string (b +:+ String "034" t) = Some (b, t).
Proof.
  remember (String.length s) as n eqn:Hn. revert s Hn b r.
  induction n as [n IH] using lt_wf_ind. intros s Hn b r H.
  assert (∀ s' b' r', (String.length s' < String.length s)%nat → scan_string s' = Some (b', r') →
    s' = b' +:+ String "034" r' ∧ ∀ t, scan_string (b' +:+ String "034" t) = Some (b', t)) as IH'.
  { intros s' b' r' Hl. apply (IH (String.length s')); [lia|done]. }
  clear IH. subst n. destruct s as [|a s]; [done|]. cbn [scan_string String.length] in H, IH'.
  destruct (code a =? 34)%N eqn:Hq.
  { injection H as <- <-. apply N.eqb_eq in Hq. split; [|done].
    change (String a s = String "034" s). f_equal. rewrite <-(ascii_N_embedding a). unfold code in Hq. by rewrite Hq. }
  destruct (code a =? 92)%N eqn:Hb.
  - destruct s as [|e s1]; [done|]. destruct (code e =? 117)%N eqn:Hu.
    + destruct s1 as [|h1 [|h2 [|h3 [|h4 s2]]]]; try done. apply bind_Some in H as (x & Hx & H).
      apply bind_Some in H as ([body r'] & [Hs Ht]%IH' & H); [|cbn; lia]. injection H as <- <-. split; [by rewrite Hs|].
      intros t. change (scan_string (String a (String e (String h1 (String h2 (String h3 (String h4 (body +:+ String "034" t))))))) =
        Some (String a (String e (String h1 (String h2 (String h3 (String h4 body))))), t)).
      cbn [scan_string]. rewrite Hq, Hb, Hu, Hx. cbn [mbind option_bind]. by rewrite Ht.
    + apply bind_Some in H as (x & Hx & H). apply bind_Some in H as ([body r'] & [Hs Ht]%IH' & H); [|cbn; lia].
      injection H as <- <-. split; [by rewrite Hs|]. intros t.
      change (scan_string (String a (String e (body +:+ String "034" t))) = Some (String a (String e body), t)).
      cbn [scan_string]. rewrite Hq, Hb, Hu, Hx. cbn [mbind option_bind]. by rewrite Ht.
  - destruct (code a <? 32)%N eqn:Hc; [done|]. apply bind_Some in H as ([body r'] & [Hs Ht]%IH' & H); [|lia].
    injection H as <- <-. split; [by rewrite Hs|]. intros t.
    change (scan_string (String a (body +:+ String "034" t)) = Some (String a body, t)).
    cbn [scan_string]. rewrite Hq, Hb, Hc. cbn [mbind option_bind]. by rewrite Ht.
Qed.

(** ** The raw text of a member *)

Definition was_read (v : jsyn) : Prop := ∃ fuel d s r, parse_value fuel d s = Some (v, r).

Definition member_read (p : string * string * jsyn) : Prop :=
  ∃ fuel d s r, parse_value fuel d s = Some (p.2, r) ∧ p.1.2 = consumed (skip_space s) r.

Lemma members_read fuel : ∀ d s m r, parse_members fuel d s = Some (m, r) → Forall member_read m.
Proof.
  induction fuel as [|fuel IH]; [done|]. intros d s m r. cbn [parse_members]. unfold members_body.
  destruct (skip_space s) as [|q r0]; [done|]. destruct (code q =? 34)%N; [|done].
  intros ([body r1] & _ & H)%bind_Some. destruct (skip_space r1) as [|c r2]; [done|]. destruct (code c =? 58)%N; [|done].
  apply bind_Some in H as ([v r3] & Hv & H). cbn zeta in H.
  assert (member_read (unquote 0 body, consumed (skip_space r2) r3, v)) as Hread by (by exists fuel, d, r2, r3).
  destruct (skip_space r3) as [|b r4]; [done|]. destruct (code b =? 44)%N.
  - apply bind_Some in H as ([m' r5] & Hm & [= <- <-]). constructor; [done|]. by apply (IH d r4 m' r5).
  - destruct (code b =? 125)%N; [|done]. injection H as <- <-. by constructor.
Qed.

Lemma items_read fuel : ∀ d s l r, parse_items fuel d s = Some (l, r) → Forall was_read l.
Proof.
  induction fuel as [|fuel IH]; [done|]. intros d s l r. cbn [parse_items]. unfold items_body.
  intros ([v r0] & Hv & H)%bind_Some. assert (was_read v) as Hread by (by exists fuel, d, s, r0).
  destruct (skip_space r0) as [|b r']; [done|]. destruct (code b =? 44)%N.
  - apply bind_Some in H as ([l' r''] & Hl & [= <- <-]). constructor; [done|]. by apply (IH d r' l' r'').
  - destruct (code b =? 93)%N; [|done]. injection H as <- <-. by constructor.
Qed.

Lemma value_parts v : was_read v → match v with SObj m => Forall member_read m | SArr l => Forall was_read l | _ => True end.
Proof.
  intros ([|fuel] & d & s & r & H); [done|]. cbn [parse_value] in H. unfold value_body in H.
  destruct (skip_space s) as [|a r0]; [done|].
  repeat match type of H with (if ?b then _ else _) = _ => destruct b end; try done;
    try (by apply bind_Some in H as ([] & _ & [= <- <-])); try (by apply bind_Some in H as (? & _ & [= <- <-])).
  - destruct (skip_space r0) as [|b r']; [done|]. destruct (code b =? 125)%N; [by injection H as <- <-|].
    apply bind_Some in H as ([m r''] & Hm & [= <- <-]). by apply (members_read fuel _ _ _ _ Hm).
  - destruct (skip_space r0) as [|b r']; [done|]. destruct (code b =? 93)%N; [by injection H as <- <-|].
    apply bind_Some in H as ([l r''] & Hl & [= <- <-]). by apply (items_read fuel _ _ _ _ Hl).
Qed.

Lemma unmarshal_read raw v : unmarshal_syn raw = Some v → was_read v.
Proof.
  unfold unmarshal_syn, parse. destruct (parse_value _ 0 raw) as [[x r]|] eqn:H; [|done].
  case_bool_decide; [|done]. intros [= <-]. by eexists _, 0%N, raw, r.
Qed.

Lemma skip_space_head s a r : skip_space s = String a r → skip_space (String a r) = String a r.
Proof.
  induction s as [|b s IH]; [done|]. cbn [skip_space]. destruct (is_space b) eqn:Hb; [done|]. intros [= -> ->]. by rewrite Hb.
Qed.

Lemma skip_space_fixed a r : skip_space (String a r) = String a r → is_space a = false.
Proof.
  cbn [skip_space]. destruct (is_space a); [|done]. intros H. pose proof (skip_space_length r) as Hl. rewrite H in Hl. cbn in Hl. lia.
Qed.

Lemma consumed_head a s r : (String.length r ≤ String.length s)%nat → ∃ raw, consumed (String a s) r = String a raw.
Proof. intros Hl. unfold consumed. cbn [String.length]. rewrite Nat.sub_succ_l by done. by eexists. Qed.

(** A value that does not start with a quote is no string. *)
Lemma value_not_string members items d a s v r x : skip_space (String a s) = String a s → (code a =? 34)%N = false →
  value_body members items d (String a s) = Some (v, r) → decode_string v = Some x → x = "".
Proof.
  intros Hs Hq H Hx. unfold value_body in H. rewrite Hs, Hq in H.
  destruct v; try done; [by injection Hx as <-|]. exfalso.
  repeat match type of H with
  | (if ?b then _ else _) = _ => destruct b
  | match ?t with String _ _ => _ | EmptyString => _ end = _ => destruct t
  end; try done; by apply bind_Some in H as (? & _ & H); repeat case_match; simplify_eq.
Qed.

(** A member whose raw text decodes to a string that is not empty is a string,
    and the same one. *)
Lemma member_string p x : member_read p → unmarshal_string p.1.2 = Some x → x ≠ "" → p.2 = SStr x.
Proof.
  intros ([|fuel] & d & s & r & Hv & ->) Hx Hne; [done|]. pose proof (proj1 (parse_length (S fuel)) d (skip_space s) p.2 r) as Hlen.
  cbn [parse_value] in Hv, Hlen. unfold value_body in Hv, Hlen.
  destruct (skip_space s) as [|a r0] eqn:Hs; [done|]. apply skip_space_head in Hs. rewrite Hs in Hlen. specialize (Hlen Hv).
  unfold unmarshal_string in Hx. apply bind_Some in Hx as (v & Hu & Hx). unfold unmarshal_syn in Hu.
  destruct (parse (consumed (String a r0) r)) as [[v0 t]|] eqn:Hp; [|done]. case_bool_decide; [|done]. injection Hu as ->.
  unfold parse in Hp. rewrite Nat.add_comm in Hp. cbn [plus parse_value] in Hp.
  destruct (code a =? 34)%N eqn:Hq.
  - assert (∃ body, scan_string r0 = Some (body, r) ∧ p.2 = SStr (unquote 0 body)) as (body & Hb & ->).
    { apply N.eqb_eq in Hq. rewrite Hq in Hv. cbn in Hv. apply bind_Some in Hv as ([body r'] & Hb & [= <- <-]). eauto. }
    apply scan_string_split in Hb as [-> Hb].
    assert (consumed (String a (body +:+ String "034" r)) r = String a (body +:+ String "034" "")) as Hc.
    { rewrite <-(consumed_app (String a (body +:+ String "034" "")) r). f_equal.
      change (String a (body +:+ String "034" r) = String a ((body +:+ String "034" "") +:+ r)). f_equal. by rewrite string_app_assoc. }
    rewrite Hc in Hp. apply skip_space_fixed in Hs as Hsp.
    unfold value_body in Hp. apply N.eqb_eq in Hq.
    cbn [skip_space] in Hp. rewrite Hsp, Hq in Hp. cbn in Hp. rewrite Hb in Hp. injection Hp as <- <-. injection Hx as <-. done.
  - destruct (consumed_head a r0 r) as [raw Hraw]; [cbn in Hlen; lia|]. rewrite Hraw in Hp.
    apply skip_space_fixed in Hs as Hsp.
    exfalso. apply Hne. eapply value_not_string; [..|exact Hx]; [|exact Hq|exact Hp]. cbn. by rewrite Hsp.
Qed.

(** ** The routes of a branch *)

Definition case_fields : list string := ["route"; "path"; "operator"; "value"].

Lemma route_field k : k ∈ case_fields → field_is "route" k = bool_decide (k = "route").
Proof. unfold case_fields. rewrite !elem_of_cons, elem_of_nil. intros [->|[->|[->|[->|[]]]]]; reflexivity. Qed.

Lemma route_pattern_named r : routePattern r = true → r ≠ "".
Proof. by intros H ->. Qed.

Definition raw_members (m : list (string * string * jsyn)) : gmap string string :=
  fold_left (λ acc '(k, raw, _), <[k := raw]> acc) m ∅.

Lemma raw_members_snoc m k raw v : raw_members (m ++ [(k, raw, v)]) = <[k := raw]> (raw_members m).
Proof. unfold raw_members. by rewrite fold_left_app. Qed.

Lemma raw_members_key m p : p ∈ m → is_Some (raw_members m !! p.1.1).
Proof.
  induction m as [|[[k raw] v] m IH] using rev_ind; [by intros ?%elem_of_nil|].
  rewrite raw_members_snoc, elem_of_app, list_elem_of_singleton. intros [H| ->]; rewrite lookup_insert.
  - case_decide; eauto.
  - rewrite decide_True by done. eauto.
Qed.

Lemma lenient_route_read m raw x : Forall member_read m → (∀ p, p ∈ m → p.1.1 ∈ case_fields) →
  raw_members m !! "route" = Some raw → unmarshal_string raw = Some x → x ≠ "" → lenient_route (SObj m) = x.
Proof.
  intros Hm Hk Hr Hx Hne. cbn [lenient_route].
  induction m as [|[[k raw'] v] m IH] using rev_ind; [done|].
  rewrite raw_members_snoc, lookup_insert in Hr. rewrite fold_left_app. cbn [fold_left].
  apply Forall_app in Hm as [Hm [Hread _]%Forall_cons].
  rewrite route_field by (apply (Hk (k, raw', v)); set_solver). case_decide as Hkr.
  - injection Hr as ->. rewrite bool_decide_true by done. pose proof (member_string _ x Hread Hx Hne) as Hv. cbn in Hv. by subst v.
  - rewrite bool_decide_false by done. apply IH; [done|set_solver|done].
Qed.

Lemma validate_case_route n i branchCase : validate_branch_case n i branchCase = [] →
  (∃ raw r, branchCase !! "route" = Some raw ∧ unmarshal_string raw = Some r ∧ r ≠ "") ∧
  ∀ k, is_Some (branchCase !! k) → k ∈ case_fields.
Proof.
  unfold validate_branch_case. rewrite !app_nil, !node_issue_nil. intros (Hroute & _ & _ & _ & Hfields). split.
  - destruct (branchCase !! "route") as [raw|]; [|done]. cbn in Hroute.
    destruct (unmarshal_string raw) as [r|] eqn:Hur; [|done]. cbn in Hroute. apply negb_false_iff, route_pattern_named in Hroute. by exists raw, r.
  - intros k [v Hv]. rewrite flat_map_nil in Hfields.
    rewrite Forall_forall in Hfields. assert ((k, v) ∈ sorted_items branchCase) as Hin by (by apply elem_of_sorted_items).
    specialize (Hfields _ Hin). cbn in Hfields. rewrite node_issue_nil, negb_false_iff in Hfields.
    by apply bool_decide_eq_true in Hfields.
Qed.

Lemma imap_case_nil (f : nat → gmap string string → list Issue) l : concat (imap f l) = [] → ∀ i x, l !! i = Some x → f i x = [].
Proof.
  revert f. induction l as [|y l IH]; intros f; [done|]. cbn [imap concat]. rewrite app_nil. intros [Hy Hl] [|i] x; cbn [lookup]; [by intros [= <-]|].
  intros Hx. by apply (IH (f ∘ S) Hl i).
Qed.

Lemma branch_config_named n : validateBranchConfig n = [] → "" ∉ declared_routes n.
Proof.
  unfold validateBranchConfig. rewrite app_nil, node_issue_nil. intros [Hdefault Hcases].
  unfold declared_routes. rewrite not_elem_of_cons. split.
  - unfold decodeConfig in Hdefault. destruct (config n !! "default_route") as [raw|]; [|done]. cbn in Hdefault |- *.
    unfold lenient_string. destruct (unmarshal_syn raw) as [v|]; [|done]. cbn in Hdefault.
    destruct v; try done. cbn in Hdefault. apply negb_false_iff, route_pattern_named in Hdefault. by intros <-.
  - unfold decodeConfig in Hcases. destruct (config n !! "cases") as [raw|]; [|done]. cbn in Hcases |- *.
    unfold lenient_routes. destruct (unmarshal_syn raw) as [v|] eqn:Hu; [|done]. cbn in Hcases.
    apply unmarshal_read, value_parts in Hu. destruct v as [| | | |l|]; try done. cbn in Hcases.
    destruct (mapM decode_raw_map l) as [cases|] eqn:Hm; [|done]. apply mapM_Some in Hm.
    assert (concat (imap (validate_branch_case n) cases) = []) as Hnil by (by destruct cases). clear Hcases.
    intros ([| | | | |m] & Hr & Hin)%list_elem_of_fmap; apply list_elem_of_lookup in Hin as [i Hi];
      destruct (Forall2_lookup_l _ _ _ _ _ Hm Hi) as (c & Hc & Hd); try done;
      injection Hd as <-; apply (imap_case_nil _ _ Hnil) in Hc; apply validate_case_route in Hc as ((raw' & r & Hraw & Hdec & Hne) & Hk); [done|].
    rewrite Forall_forall in Hu. pose proof (value_parts _ (Hu _ (list_elem_of_lookup_2 _ _ _ Hi))) as Hread. cbn in Hread.
    rewrite (lenient_route_read m raw' r) in Hr; [by subst r|done| |done..]. intros p Hp. by apply Hk, raw_members_key.
Qed.

(** ** Contracts *)

(** What progress needs of a contract: it accepts no branch with a route that
    has no name. *)
Class NamedRoutes (c : Contract) : Prop :=
  contract_routes : ∀ n, validateNode c n = [] → is_branch n → "" ∉ declared_routes n.

Lemma doc_named_routes c {HN : NamedRoutes c} d : doc_wf c d → named_routes d.
Proof. intros Hw n Hn. apply contract_routes. by apply (nw_node _ _ (dw_nodes _ _ Hw)). Qed.

#[export] Instance builtin_named_routes VS : NamedRoutes (BuiltinV1Contract VS).
Proof.
  intros n H Hb. pose proof H as Hv. apply validateNode_nil in H as (spec & Hspec & _ & _ & Hcont & _).
  pose proof (builtin_spec _ _ _ Hspec) as [Hin Hco]. unfold is_branch in Hb. apply branch_config_named.
  assert (sp_ValidateConfig spec = Some validateBranchConfig) as Hconfig.
  { symmetry in Hco. apply coordinate_type in Hco. rewrite Hb in Hco. unfold builtin_specs in Hin. rewrite !elem_of_cons, elem_of_nil in Hin.
    by destruct Hin as [->|[->|[->|[->|[->|[->|[]]]]]]]. }
  unfold validateNode in Hv. rewrite app_nil in Hv. destruct Hv as [_ Hv]. rewrite Hspec, app_nil, Hcont in Hv. destruct Hv as [_ Hv].
  cbn [negb] in Hv. rewrite !app_nil, Hconfig in Hv. by destruct Hv as (_ & _ & _ & _ & Hv).
Qed.
