(* ===== verification/BranchSound.v ===== *)
(** * Accepted branches decide

    The contract checks the cases of a branch against the declared type of the
    value, and the engine compares without the types.  For a value of the
    declared type the comparison of a case that has no path always succeeds, so
    an accepted branch can only stop at a case that reads a path. *)

From Stdlib Require Import Ascii QArith.
From S2P Require Import Prelude Json Graph Dsl Branch Runtime Engine EngineSteps EngineInv EngineFacts EngineInit EngineProgress EngineLive BranchRoutes.

Open Scope string_scope.
Open Scope list_scope.
Open Scope Z_scope.

(** ** Types of values *)

(** [big.Rat] reads the numbers of the value. *)
Definition readable (j : json) : Prop := is_Some (denote j).

Lemma type_string j : json_data_type j = Some TypeString → ∃ s, j = JStr s.
Proof. destruct j; simpl; repeat case_match; naive_solver. Qed.
Lemma type_boolean j : json_data_type j = Some TypeBoolean → ∃ b, j = JBool b.
Proof. destruct j; simpl; repeat case_match; naive_solver. Qed.
Lemma type_array j : json_data_type j = Some TypeArray → ∃ l, j = JArr l.
Proof. destruct j; simpl; repeat case_match; naive_solver. Qed.
Lemma type_object j : json_data_type j = Some TypeObject → ∃ m, j = JObj m.
Proof. destruct j; simpl; repeat case_match; naive_solver. Qed.

Lemma type_numeric j : readable j → is_numeric (json_data_type j) = true → ∃ q, rational j = Some q.
Proof.
  intros [v Hv] H. destruct j as [| |l| | |]; try done. cbn [denote] in Hv. apply fmap_Some in Hv as (q & Hq & _).
  exists q. done.
Qed.

Lemma compatible_inv s t : compatible s t = true → s = t ∨ s = TypeInteger ∧ t = TypeNumber.
Proof. unfold compatible. rewrite orb_true_iff, andb_true_iff, !bool_decide_eq_true. tauto. Qed.

(** A value of a declared type is of that type, or a number where numbers are
    declared. *)
Lemma value_of_type j s t : json_data_type j = Some s → compatible s t = true →
  json_data_type j = Some t ∨ is_numeric (json_data_type j) = true ∧ t = TypeNumber.
Proof. intros Hj [->|[-> ->]]%compatible_inv; [by left|right]. by rewrite Hj. Qed.

Lemma rawDataType_type raw j : decode_any raw = Some j → is_Some (rawDataType raw) → rawDataType raw = json_data_type j.
Proof. unfold rawDataType. intros ->. destruct (json_valid raw); [done|]. by intros []. Qed.

(** ** Comparisons *)

Section Comparisons.
Context (order : range_order).

Lemma equalJSON_total a b : readable a → readable b → sorted_json a → sorted_json b → ∃ r, equalJSON order a b = Ok r.
Proof. intros [va Ha] [vb Hb] Sa Sb. destruct (equalJSON_decides order a b va vb Ha Hb Sa Sb) as (r & -> & _). eauto. Qed.

Lemma array_contains_total l b : readable (JArr l) → readable b → sorted_json (JArr l) → sorted_json b →
  ∃ r, array_contains order l b = Ok r.
Proof.
  intros [v Hv] Hb Hs Sb. apply denote_arr in Hv as (vs & -> & Hvs). cbn [sorted_json] in Hs.
  induction Hvs as [|a va l vs Ha Hvs IH]; [by exists false|]. cbn [foldr] in Hs. destruct Hs as [Sa Hs]. cbn [array_contains].
  destruct (equalJSON_total a b) as ([] & ->); [by eexists|done..| |]; cbn; [by eexists|]. by apply IH.
Qed.

Lemma compare_equality a b operator : readable a → readable b → sorted_json a → sorted_json b →
  operator ∈ equality_operators → comparableKinds a b = true → ∃ r, compareBranch order a operator b = Ok r.
Proof.
  intros Ha Hb Sa Sb Hop Hk. destruct (equalJSON_total a b) as (r & Hr); [done..|].
  unfold compareBranch. unfold one_of. rewrite bool_decide_true by done. rewrite Hk, Hr. cbn. by eexists.
Qed.

Lemma compare_order a b operator x y : rational a = Some x → rational b = Some y →
  operator ∈ order_operators → ∃ r, compareBranch order a operator b = Ok r.
Proof.
  intros Ha Hb Hop. unfold compareBranch, one_of. rewrite bool_decide_false.
  - rewrite bool_decide_true by done. rewrite Ha, Hb. by eexists.
  - unfold order_operators in Hop. rewrite !elem_of_cons, elem_of_nil in Hop. unfold equality_operators.
    destruct Hop as [->|[->|[->|[->|[]]]]]; intros H; by repeat (apply elem_of_cons in H as [H|H]; [done|]); apply elem_of_nil in H.
Qed.

Lemma comparable_numbers a b x y : rational a = Some x → rational b = Some y → comparableKinds a b = true.
Proof. unfold comparableKinds. by intros -> ->. Qed.

Lemma operator_cases (l : list string) operator : one_of l operator = true → operator ∈ l.
Proof. unfold one_of. by rewrite bool_decide_eq_true. Qed.

(** A number compares with a number. *)
Lemma compare_numeric a b operator : readable a → readable b → sorted_json a → sorted_json b →
  is_numeric (json_data_type a) = true → is_numeric (json_data_type b) = true →
  operator ∈ equality_operators ++ order_operators → ∃ r, compareBranch order a operator b = Ok r.
Proof.
  intros Ha Hb Sa Sb Na Nb Hop. destruct (type_numeric a Ha Na) as [x Hx], (type_numeric b Hb Nb) as [y Hy].
  apply elem_of_app in Hop as [Hop|Hop]; [apply compare_equality; try done; by eapply comparable_numbers|by eapply compare_order].
Qed.

(** A comparison that the contract accepts for a type succeeds on every value
    of that type. *)
Lemma accepted_comparison t operator raw a b s :
  validDSLBranchComparison t operator raw = true → decode_any raw = Some b →
  json_data_type a = Some s → compatible s t = true → readable a → readable b → sorted_json a →
  ∃ r, compareBranch order a operator b = Ok r.
Proof.
  unfold validDSLBranchComparison. intros [Hop Hcmp]%andb_true_iff Hb Hs Ht Ra Rb Sa.
  apply operator_cases in Hop. pose proof (decode_any_sorted _ _ Hb) as Sb.
  assert (∀ t', rawDataType raw = Some t' → json_data_type b = Some t') as Hraw.
  { intros t' H. rewrite <-H. symmetry. apply rawDataType_type; [done|]. rewrite H. eauto. }
  assert (is_numeric (rawDataType raw) = true → is_numeric (json_data_type b) = true) as Hnum.
  { intros H. rewrite <-(rawDataType_type raw b); [done..|]. unfold is_numeric in H. by destruct (rawDataType raw). }
  destruct (value_of_type a s t Hs Ht) as [Ha|[Ha ->]]; [|by apply compare_numeric; auto].
  destruct t as [| | | | | |]; try done; cbn [dslBranchOperators] in Hop;
    try (apply compare_numeric; auto; unfold is_numeric; rewrite Ha; done).
  - apply bool_decide_eq_true, Hraw, type_string in Hcmp as [y ->]. apply type_string in Ha as [x ->].
    rewrite !elem_of_cons, elem_of_nil in Hop. by destruct Hop as [->|[->|[->|[->|[->|[->|[]]]]]]]; cbn; eexists.
  - apply bool_decide_eq_true, Hraw, type_boolean in Hcmp as [y ->]. apply type_boolean in Ha as [x ->].
    unfold equality_operators in Hop. rewrite !elem_of_cons, elem_of_nil in Hop. by destruct Hop as [->|[->|[]]]; cbn; eexists.
  - apply type_object in Ha as [x ->]. rewrite !elem_of_cons, elem_of_nil in Hop.
    destruct Hop as [->|[->|[->|[->|[]]]]]; cbn in Hcmp; apply bool_decide_eq_true, Hraw in Hcmp.
    1,2: apply type_object in Hcmp as [y ->]; apply compare_equality; try done; unfold equality_operators; set_solver.
    all: apply type_string in Hcmp as [y ->]; cbn; by eexists.
  - apply type_array in Ha as [x ->]. destruct (array_contains_total x b) as [r Hr]; [done..|].
    rewrite !elem_of_cons, elem_of_nil in Hop. destruct Hop as [->|[->|[->|[->|[]]]]]; cbn in Hcmp.
    1,2: apply bool_decide_eq_true, Hraw, type_array in Hcmp as [y ->]; apply compare_equality; try done; unfold equality_operators; set_solver.
    all: unfold compareBranch; cbn; rewrite Hr; cbn; by eexists.
Qed.
End Comparisons.

(** ** The cases as they are evaluated *)

(** A field of a decoded case that holds a text. *)
Definition case_text (k : string) (c : branchCase) : string :=
  if bool_decide (k = "route") then bc_Route c
  else if bool_decide (k = "path") then bc_Path c
  else if bool_decide (k = "operator") then bc_Operator c else "".

Definition member_text (p : string * string * jsyn) : Prop :=
  p.1.1 ∈ case_fields ∧ (p.1.1 ≠ "value" → ∃ x, p.2 = SStr x).

(** What a decoded case keeps of a member. *)
Definition case_keeps (c : branchCase) (p : string * string * jsyn) : Prop :=
  if bool_decide (p.1.1 = "value") then bc_Value c = p.1.2 else p.2 = SStr (case_text p.1.1 c).

Lemma case_fields_cases k (P : string → Prop) : k ∈ case_fields → P "route" → P "path" → P "operator" → P "value" → P k.
Proof. unfold case_fields. rewrite !elem_of_cons, elem_of_nil. by intros [->|[->|[->|[->|[]]]]]. Qed.

Lemma decode_member_text c p : member_text p →
  ∃ c', decode_case_member (Some c) p = Some c' ∧ case_keeps c' p ∧
    (∀ p', p'.1.1 ∈ case_fields → p'.1.1 ≠ p.1.1 → case_keeps c p' → case_keeps c' p') ∧
    (∀ k, k ≠ p.1.1 → case_text k c' = case_text k c).
Proof.
  destruct p as [[k raw] v]. intros [Hk Hv]. cbn in Hk, Hv. revert Hv.
  pattern k. apply (case_fields_cases k); [done|..]; intros Hv; [destruct Hv as [x Hx]; [done|]; cbn in Hx; subst v..|clear Hv];
    (eexists; split; [reflexivity|split; [reflexivity|split]]); intros p'; cbn [fst snd].
  all: try (unfold case_keeps; intros Hp; pattern (p'.1.1); by apply (case_fields_cases _ _ Hp)).
  all: unfold case_text; intros Hne; rewrite ?(bool_decide_false _ Hne); repeat case_bool_decide; done.
Qed.

Lemma decode_members_text m : Forall member_text m → NoDup (m.*1).*1 →
  ∃ c, decode_branch_case (SObj m) = Some c ∧ Forall (case_keeps c) m ∧ ∀ k, k ∉ (m.*1).*1 → case_text k c = "".
Proof.
  cbn [decode_branch_case]. induction m as [|p m IH] using rev_ind; intros Hm Hnd.
  { eexists. split; [reflexivity|]. split; [done|]. intros k _. unfold case_text. by repeat case_bool_decide. }
  apply Forall_app in Hm as [Hm [Hp _]%Forall_cons]. rewrite !fmap_app in Hnd. apply NoDup_app in Hnd as (Hnd & Hd & _).
  destruct (IH Hm Hnd) as (c & Hc & Hkeep & Hnone). rewrite fold_left_app, Hc. cbn [fold_left].
  destruct (decode_member_text c p Hp) as (c' & -> & Hown & Hothers & Htexts). exists c'. split; [done|]. split.
  - apply Forall_app. split; [|by constructor]. rewrite Forall_forall in Hkeep, Hm |- *. intros p' Hin.
    assert (p'.1.1 ∈ (m.*1).*1) as Hin' by (do 2 (apply list_elem_of_fmap; eexists; split; [reflexivity|]); done).
    apply Hothers; [by apply Hm| |by apply Hkeep]. intros Heq. apply (Hd _ Hin'). rewrite Heq. set_solver.
  - intros k Hk. rewrite !fmap_app, not_elem_of_app in Hk. destruct Hk as [Hk1 Hk2]. rewrite Htexts by set_solver. by apply Hnone.
Qed.

Lemma raw_members_unique m p : NoDup (m.*1).*1 → p ∈ m → raw_members m !! p.1.1 = Some p.1.2.
Proof.
  induction m as [|[[k raw] v] m IH] using rev_ind; [by intros _ ?%elem_of_nil|].
  rewrite !fmap_app, raw_members_snoc. intros (Hnd & Hd & _)%NoDup_app [Hin| ->%list_elem_of_singleton]%elem_of_app.
  - rewrite lookup_insert_ne; [by apply IH|]. intros ->.
    apply (Hd p.1.1); [|set_solver]. do 2 (apply list_elem_of_fmap; eexists; split; [reflexivity|]). done.
  - by rewrite lookup_insert_eq.
Qed.

(** *** A case of an accepted branch *)

Section Accepted.
Context (n : Node).

Definition value_type : DataType := match inputs n !! "value" with Some b => ib_DataType b | None => TypeOther "" end.

(** What the contract establishes of a case in terms of its decoded form. *)
Record case_accepted (c : branchCase) : Prop := {
  ca_plain : bc_Path c = "" → validDSLBranchComparison value_type (bc_Operator c) (bc_Value c) = true;
  ca_path : bc_Path c ≠ "" → value_type = TypeObject ∧ validBranchPath (bc_Path c) = true ∧
    validDSLPathComparison (bc_Operator c) (bc_Value c) = true;
  ca_route : routePattern (bc_Route c) = true }.

Record raw_case_accepted (branchCase : gmap string string) : Prop := {
  ra_route : ∃ raw r, branchCase !! "route" = Some raw ∧ unmarshal_string raw = Some r ∧ routePattern r = true;
  ra_operator : ∃ raw r, branchCase !! "operator" = Some raw ∧ unmarshal_string raw = Some r ∧ r ≠ "";
  ra_value : is_Some (branchCase !! "value");
  ra_path : match branchCase !! "path" with
    | Some raw => ∃ r, unmarshal_string raw = Some r ∧ validBranchPath r = true ∧ value_type = TypeObject ∧
        validDSLPathComparison (default "" (branchCase !! "operator" ≫= unmarshal_string)) (default "" (branchCase !! "value")) = true
    | None => validDSLBranchComparison value_type (default "" (branchCase !! "operator" ≫= unmarshal_string))
        (default "" (branchCase !! "value")) = true
    end;
  ra_fields : ∀ k, is_Some (branchCase !! k) → k ∈ case_fields }.

Lemma rejects_read (bad : string → bool) (o : option string) : rejects bad (o ≫= unmarshal_string) = false →
  ∃ raw r, o = Some raw ∧ unmarshal_string raw = Some r ∧ bad r = false.
Proof. destruct o as [raw|]; [|done]. cbn. destruct (unmarshal_string raw) as [r|] eqn:Hr; [|done]. cbn. eauto. Qed.

Lemma raw_case_of i branchCase : validate_branch_case n i branchCase = [] → raw_case_accepted branchCase.
Proof.
  intros H. pose proof (validate_case_route _ _ _ H) as [_ Hf]. unfold validate_branch_case in H.
  rewrite !app_nil, !node_issue_nil in H. destruct H as (Hr & Ho & Hv & Hp & _).
  constructor; [| | | |done].
  - apply rejects_read in Hr as (raw & r & H1 & H2 & H3). exists raw, r. by rewrite negb_false_iff in H3.
  - apply rejects_read in Ho as (raw & r & H1 & H2 & H3). exists raw, r. unfold is_empty in H3. by rewrite bool_decide_eq_false in H3.
  - by rewrite negb_false_iff, bool_decide_eq_true in Hv.
  - destruct (branchCase !! "path") as [raw|].
    + rewrite app_nil, !node_issue_nil in Hp. destruct Hp as [H1 [H2 H3]%orb_false_iff].
      destruct (unmarshal_string raw) as [r|]; [|done]. exists r. cbn in H1. rewrite negb_false_iff in H1, H2, H3.
      by rewrite bool_decide_eq_true in H2.
    + by rewrite node_issue_nil, negb_false_iff in Hp.
Qed.

Lemma accepted_text branchCase k raw : raw_case_accepted branchCase → k ≠ "value" → branchCase !! k = Some raw →
  ∃ x, unmarshal_string raw = Some x ∧ x ≠ "".
Proof.
  intros [(r1 & x1 & H1 & U1 & P1) (r2 & x2 & H2 & U2 & P2) _ Hp Hf] Hk Hraw.
  assert (k ∈ case_fields) as Hin by eauto. revert Hk Hraw. pattern k. apply (case_fields_cases k); [done|..]; intros Hk Hraw.
  - exists x1. split; [congruence|by apply route_pattern_named].
  - rewrite Hraw in Hp. destruct Hp as (x & Hx & Hv & _). exists x. split; [done|]. by intros ->.
  - exists x2. split; [congruence|done].
  - done.
Qed.

Lemma accepted_members m : Forall member_read m → NoDup (m.*1).*1 → raw_case_accepted (raw_members m) → Forall member_text m.
Proof.
  intros Hread Hnd Ha. rewrite Forall_forall in Hread |- *. intros p Hp. pose proof (raw_members_unique m p Hnd Hp) as Hraw.
  split; [apply (ra_fields _ Ha); eauto|]. intros Hk. destruct (accepted_text _ _ _ Ha Hk Hraw) as (x & Hx & Hne).
  exists x. apply member_string; auto.
Qed.

Lemma raw_members_elem m k raw : raw_members m !! k = Some raw → ∃ p, p ∈ m ∧ p.1.1 = k ∧ p.1.2 = raw.
Proof.
  induction m as [|[[k' raw'] v] m IH] using rev_ind; [done|]. rewrite raw_members_snoc, lookup_insert. case_decide as Hk.
  - subst k'. intros [= ->]. exists (k, raw, v). by rewrite elem_of_app, list_elem_of_singleton; auto.
  - intros (p & Hp & H)%IH. exists p. rewrite elem_of_app. auto.
Qed.

Lemma kept_text m c k raw x : Forall member_read m → Forall (case_keeps c) m → raw_members m !! k = Some raw →
  k ≠ "value" → unmarshal_string raw = Some x → x ≠ "" → case_text k c = x.
Proof.
  intros Hread Hkeep (p & Hp & <- & <-)%raw_members_elem Hk Hx Hne. rewrite Forall_forall in Hread, Hkeep.
  pose proof (member_string p x (Hread p Hp) Hx Hne) as H. specialize (Hkeep p Hp). unfold case_keeps in Hkeep.
  rewrite bool_decide_false in Hkeep by done. congruence.
Qed.

Lemma kept_value m c raw : Forall (case_keeps c) m → raw_members m !! "value" = Some raw → bc_Value c = raw.
Proof.
  intros Hkeep (p & Hp & Hk & <-)%raw_members_elem. rewrite Forall_forall in Hkeep. specialize (Hkeep p Hp). unfold case_keeps in Hkeep.
  by rewrite bool_decide_true in Hkeep by done.
Qed.

Lemma raw_members_none m k : raw_members m !! k = None → k ∉ (m.*1).*1.
Proof.
  intros Hn (k1 & -> & (p & -> & Hp)%list_elem_of_fmap)%list_elem_of_fmap. destruct (raw_members_key m p Hp) as [x Hx]. congruence.
Qed.

(** An accepted case is decoded, to the texts that were accepted. *)
Lemma accepted_case m : Forall member_read m → NoDup (m.*1).*1 → raw_case_accepted (raw_members m) →
  ∃ c, decode_branch_case (SObj m) = Some c ∧ case_accepted c.
Proof.
  intros Hread Hnd Ha. destruct (decode_members_text m) as (c & Hc & Hkeep & Hnone); [by apply accepted_members|done|].
  exists c. split; [done|].
  assert (∀ k, k ≠ "value" → is_Some (raw_members m !! k) → (raw_members m !! k ≫= unmarshal_string) = Some (case_text k c) ∧ case_text k c ≠ "") as Htext.
  { intros k Hk [raw Hraw]. destruct (accepted_text _ _ _ Ha Hk Hraw) as (x & Hx & Hne).
    rewrite Hraw, (kept_text m c k raw x) by done. done. }
  destruct Ha as [(r1 & x1 & H1 & U1 & P1) (r2 & x2 & H2 & U2 & P2) [r3 H3] Hp _].
  destruct (Htext "operator") as [Hop _]; [done|by eexists|]. destruct (Htext "route") as [Hroute _]; [done|by eexists|].
  rewrite Hop, H3, <-(kept_value m c r3 Hkeep H3) in Hp. cbn [default case_text] in Hp.
  assert (routePattern (bc_Route c) = true) as Hr.
  { rewrite H1 in Hroute. cbn in Hroute. rewrite U1 in Hroute. by injection Hroute as ->. }
  destruct (raw_members m !! "path") as [raw|] eqn:Hpath.
  - destruct (Htext "path") as [Hx Hne]; [done|by rewrite Hpath|]. rewrite Hpath in Hx. cbn in Hx.
    destruct Hp as (r & Hr' & Hv & Ht & Hcmp). rewrite Hr' in Hx. injection Hx as ->. constructor; [done|by intros _|done].
  - constructor; [by intros _| |done]. intros Hne. destruct Hne. apply (Hnone "path"). by apply raw_members_none.
Qed.

(** *** An accepted branch *)

(** No case names a field twice. *)
Definition distinct_fields : Prop :=
  ∀ l m, unmarshal_syn (default "" (config n !! "cases")) = Some (SArr l) → SObj m ∈ l → NoDup (m.*1).*1.

Lemma accepted_branch : validateBranchConfig n = [] → distinct_fields →
  ∃ cases fallback, decode_branch n = Some (cases, fallback) ∧ Forall case_accepted cases ∧ routePattern fallback = true.
Proof.
  unfold validateBranchConfig, distinct_fields, decode_branch. rewrite app_nil, node_issue_nil. intros [Hdefault Hcases] Hnd.
  assert (∃ fallback, unmarshal_string (default "" (config n !! "default_route")) = Some fallback ∧ routePattern fallback = true) as (fallback & Hf & Hr).
  { unfold decodeConfig in Hdefault. destruct (config n !! "default_route") as [raw|]; [|done]. cbn in Hdefault |- *.
    unfold unmarshal_string. destruct (unmarshal_syn raw ≫= decode_string) as [r|]; [|done]. cbn in Hdefault. exists r. by rewrite negb_false_iff in Hdefault. }
  unfold decodeConfig in Hcases. destruct (config n !! "cases") as [raw|]; [|done]. cbn in Hcases, Hnd |- *.
  destruct (unmarshal_syn raw) as [v|] eqn:Hu; [|done]. cbn in Hcases |- *.
  apply unmarshal_read, value_parts in Hu. destruct v as [| | | |l|]; try done. cbn in Hcases |- *.
  specialize (Hnd l). destruct (mapM decode_raw_map l) as [cases|] eqn:Hm; [|done]. cbn in Hcases.
  assert (concat (imap (validate_branch_case n) cases) = []) as Hnil by (by destruct cases). clear Hcases.
  apply mapM_Some in Hm.
  assert (∃ cs, mapM decode_branch_case l = Some cs ∧ Forall case_accepted cs) as (cs & Hcs & Hacc).
  { assert (∀ s, s ∈ l → ∃ c, decode_branch_case s = Some c ∧ case_accepted c) as Hall.
    { intros s [i Hi]%list_elem_of_lookup. destruct (Forall2_lookup_l _ _ _ _ _ Hm Hi) as (bc & Hc & Hd).
      pose proof (raw_case_of _ _ (imap_case_nil _ _ Hnil _ _ Hc)) as Ha.
      rewrite Forall_forall in Hu. pose proof (value_parts _ (Hu _ (list_elem_of_lookup_2 _ _ _ Hi))) as Hread.
      destruct s as [| | | | |m]; try done; injection Hd as <-; [destruct (ra_value _ Ha); done|].
      apply accepted_case; [done| |done]. apply (Hnd m); [done|by apply list_elem_of_lookup_2 in Hi]. }
    clear -Hall. induction l as [|s l IH]; [by exists []|]. destruct (Hall s) as (c & Hc & Ha); [set_solver|].
    destruct IH as (cs & Hcs & Hacc); [intros; apply Hall; set_solver|]. exists (c :: cs). cbn. rewrite Hc. cbn. rewrite Hcs. cbn. by auto. }
  exists cs, fallback. rewrite Hcs. cbn. rewrite Hf. done.
Qed.
End Accepted.

(** ** Evaluation *)

Section Evaluation.
Context (order : range_order) (n : Node) (v : json).

(** The evaluation stops at the case [i]: the cases before it do not hold. *)
Definition stops_at (cases : list branchCase) (base : nat) (e : error) : Prop :=
  ∃ i c, cases !! i = Some c ∧ bc_Path c ≠ "" ∧ evaluate_case order n v (base + i) c = Err e ∧
    ∀ j c', (j < i)%nat → cases !! j = Some c' → evaluate_case order n v (base + j) c' = Ok false.

Lemma evaluate_cases_stops cases fallback base e :
  Forall (λ c, bc_Path c = "" → ∀ i, ∃ b, evaluate_case order n v i c = Ok b) cases →
  evaluate_cases order n v base cases fallback = Err e → stops_at cases base e.
Proof.
  intros Hall. revert base. induction Hall as [|c cases Hc _ IH]; intros base H; [done|]. cbn [evaluate_cases] in H.
  destruct (evaluate_case order n v base c) as [[]|e'] eqn:He; cbn in H; [done| |].
  - destruct (IH _ H) as (i & c' & Hi & Hp & Hs & Hbefore). exists (S i), c'. rewrite <-plus_n_Sm. split_and!; try done.
    intros [|j] c'' Hj Hl; cbn in Hl; [simplify_eq; by rewrite Nat.add_0_r|]. rewrite <-plus_n_Sm. apply Hbefore; [lia|done].
  - injection H as <-. exists 0%nat, c. rewrite Nat.add_0_r. split_and!; try done; [|lia].
    intros Hp. destruct (Hc Hp base) as [b Hb]. by rewrite He in Hb.
Qed.

(** The comparison text of a case, with numbers that can be compared. *)
Definition readable_case (c : branchCase) : Prop := ∃ j, decode_any (bc_Value c) = Some j ∧ readable j.

Lemma plain_case_decides s c : case_accepted n c → readable_case c → json_data_type v = Some s → compatible s (value_type n) = true →
  readable v → sorted_json v → bc_Path c = "" → ∀ i, ∃ b, evaluate_case order n v i c = Ok b.
Proof.
  intros Ha (j & Hj & Rj) Hs Ht Rv Sv Hp i. unfold evaluate_case. rewrite bool_decide_true by done. unfold decodeJSON. rewrite Hj.
  destruct (accepted_comparison order (value_type n) (bc_Operator c) (bc_Value c) v j s) as [r ->]; [by apply ca_plain|done..|]. eauto.
Qed.
End Evaluation.

(** The numbers of the comparison values of a branch can be compared. *)
Definition readable_cases (n : Node) : Prop :=
  ∀ cases fallback, decode_branch n = Some (cases, fallback) → Forall readable_case cases.

(** C13: a branch that the contract accepts is decided for every value of its
    declared type whose numbers big.Rat reads (an exponent beyond its range, as
    in 1e1000001, is an error of the comparison): its configuration decodes, and
    the evaluation takes the route of the first case that holds, or the default
    route when none holds, a route that is a legal name; it fails only at a case
    that reads a path into the value, all cases before it having been decided
    false.  The cases name no field twice, and their numbers are in that range
    too. *)
Theorem accepted_branch_decides order n raw v s :
  validateBranchConfig n = [] → distinct_fields n → readable_cases n →
  decode_any raw = Some v → readable v → json_data_type v = Some s → compatible s (value_type n) = true →
  ∃ cases fallback, decode_branch n = Some (cases, fallback) ∧
    match evaluateBranch order n raw with
    | Ok route => routes_to order n v cases fallback 0 route ∧ routePattern route = true
    | Err e => stops_at order n v cases 0 e
    end.
Proof.
  intros Hv Hnd Hr Hraw Rv Hs Ht. destruct (accepted_branch n Hv Hnd) as (cases & fallback & Hd & Hacc & Hf).
  specialize (Hr _ _ Hd). exists cases, fallback. split; [done|]. unfold evaluateBranch. rewrite Hd. unfold decodeJSON. rewrite Hraw.
  destruct (evaluate_cases order n v 0 cases fallback) as [route|e] eqn:He.
  - apply evaluate_cases_first in He. split; [done|]. destruct He as [(i & c & Hc & _ & -> & _)|[-> _]]; [|done].
    rewrite Forall_forall in Hacc. apply ca_route with n. eapply Hacc, list_elem_of_lookup_2, Hc.
  - apply evaluate_cases_stops in He; [done|]. rewrite !Forall_forall in Hacc, Hr |- *. intros c Hc Hp.
    apply (plain_case_decides order n v s); auto. by apply decode_any_sorted in Hraw.
Qed.

Definition score_case (route operator comparison : string) : string :=
  "{" +:+ q "route" +:+ ":" +:+ q route +:+ "," +:+ q "operator" +:+ ":" +:+ q operator +:+ "," +:+ q "value" +:+ ":" +:+ comparison +:+ "}".

Definition score_branch : Node := MkNode (sample_id "2") KindControl
  (MkOperation "control.branch" 1 (Some {[
     "cases" := "[" +:+ score_case "high" "gte" "80" +:+ ", " +:+ score_case "exact" "eq" "1.50" +:+ "]";
     "default_route" := q "low"]}))
  (Some {["value" := reads TypeNumber (sample_id "1") "score"]}) (Some ∅) no_policy.

Lemma score_distinct : distinct_fields score_branch.
Proof.
  intros l m. vm_compute unmarshal_syn. intros [= <-]. rewrite !elem_of_cons, elem_of_nil.
  intros [[= ->]|[[= ->]|[]]]; apply (bool_decide_eq_true_1 (NoDup _)); vm_compute; reflexivity.
Qed.

Lemma score_readable : readable_cases score_branch.
Proof. intros cases fallback. vm_compute decode_branch. intros [= <- <-]. repeat constructor; eexists; (split; [vm_compute; reflexivity|]); eexists; vm_compute; reflexivity. Qed.

Lemma accepted_branch_decides_witness :
  ∃ cases fallback, decode_branch score_branch = Some (cases, fallback) ∧
    match evaluateBranch range_id score_branch "15e-1" with
    | Ok route => routes_to range_id score_branch (JNum "15e-1") cases fallback 0 route ∧ routePattern route = true
    | Err e => stops_at range_id score_branch (JNum "15e-1") cases 0 e
    end.
Proof.
  apply (accepted_branch_decides range_id score_branch "15e-1" (JNum "15e-1") TypeNumber).
  - vm_compute. reflexivity.
  - exact score_distinct.
  - exact score_readable.
  - vm_compute. reflexivity.
  - eexists. vm_compute. reflexivity.
  - vm_compute. reflexivity.
  - vm_compute. reflexivity.
Defined.

Example score_routes : evaluateBranch range_id score_branch "15e-1" = Ok "exact".
Proof. vm_compute. reflexivity. Qed.
