(* ===== verification/RunSafety.v ===== *)
(** * Safety of the inputs of a run

    What a node reads is there when the node is driven.  A settled node has only
    settled nodes before it, which have succeeded or were skipped, so the routes
    that the branches of a run have chosen say which ones; a document whose
    references are safe under every choice of routes is safe in every run. *)

From S2P Require Import Prelude Json Graph Dsl Branch Runtime Engine.
From S2P Require Import EngineSteps EngineInv EngineFacts EngineInit EngineProgress EngineLive.

Open Scope string_scope.
Open Scope list_scope.
Open Scope Z_scope.

(** ** Activation, on runtime documents *)

(** One route for every branch, of one of its edges. *)
Definition run_chooses (d : Document) (ρ : string → string) : Prop :=
  ∀ n, n ∈ dc_Nodes d → is_branch n → ∃ e, e ∈ edges_from d (nd_ID n) ∧ ac_Route (ed_Activation e) = ρ (nd_ID n).

Inductive run_active (d : Document) (ρ : string → string) : string → Prop :=
  | run_active_entry : run_active d ρ (dc_EntryNodeID d)
  | run_active_edge e : e ∈ dc_Edges d → run_active d ρ (ed_SourceNodeID e) →
      (ac_Kind (ed_Activation e) = ActivationRoute → ac_Route (ed_Activation e) = ρ (ed_SourceNodeID e)) →
      run_active d ρ (ed_TargetNodeID e).

(** The outputs that the node [id] reads. *)
Definition reads (d : Document) (id source : string) : Prop :=
  ∃ n name b o, n ∈ dc_Nodes d ∧ nd_ID n = id ∧ inputs n !! name = Some b ∧ ib_Kind b = BindingNodeOutput ∧
    ib_Output b = Some o ∧ or_NodeID o = source.

Definition runs_safe (d : Document) : Prop :=
  ∀ id source, reads d id source →
    tc (flows d) source id ∧ ∀ ρ, run_chooses d ρ → run_active d ρ id → run_active d ρ source.

Section Settled.
Context (order : range_order) (c : Contract) {HC : EngineContract c} (command : CreateRunCommand).
Local Notation step := (engine_step order).
Local Notation inv := (engine_inv c command).

(** ** What is before a settled node *)

Definition settled (n : NodeRun) : Prop := nr_activated n = true ∨ nr_state n = NodeSkipped.

Definition settled_inv (e : Engine) : Prop :=
  ∀ id n d, en_nodes e !! id = Some n → settled n → d ∈ dc_Edges (en_doc e) → ed_TargetNodeID d = id →
    ∃ m, en_nodes e !! ed_SourceNodeID d = Some m ∧ succeeded_or_skipped (nr_state m) = true.

(** A node settles when its incoming edges have, while the run goes on. *)
Lemma step_settles e e' : inv e → step e e' →
  en_nodes e' = en_nodes e ∨
  ∃ id n n', en_nodes e !! id = Some n ∧ NodeState_Terminal (nr_state n) = false ∧ en_nodes e' = <[id := n']> (en_nodes e) ∧
    (settled n' → settled n ∨ allIncomingSettled e id = true ∧ wr_termination (en_run e) = None).
Proof.
  intros Hi Hstep. unfold settled. destruct Hstep as
    [id n n' (Hn & Hp & Ht0 & _) Hin Hact H|id n n' (Hn & Hp & Ht0 & _) Hin Hact H|id n n' v (Hn & Hp & _) _ H
    |id n n' v r (Hn & Hp & _) _ Hop Hev H|id n v run' n' (Hn & Hp & _) _ Ho H
    |id n n' op fl intent run' (Hn & Hp & _) Hop H _ _ Hr
    |id n n' aid result op intent run' (Hn & _) Hterm Hop H _ Hr|id n n' aid sq k a Hn _ _ H Ha
    |id n n' aid a a' Hn _ _ _ H|id n aid a a' result Hn _ _ _ _ H|id n n' aid result (Hn & _) _ _ H
    |id n n' aid result k due (Hn & _) _ _ H|id n n' at_ Hn _ H|intent run' _ Hr
    |id n n' intent st Hn Hterm Hnt _ H|run' H]; try (by left); try step_op H;
    try (pose proof H as Hraw; apply node_apply_target in H as (Ht & Hact' & Hnt' & _));
    try (destruct st); try (destruct Hnt' as [->|Hnt']; [left; cbn; by rewrite insert_id|]);
    right; exists id, n, n'.
  all: try (split_and!; [done|rewrite ?Hp; done|done|]); try (by auto).
  all: try (rewrite Hact' by done; intros [?|Hx]; [by auto|]; destruct_and? Ht; congruence).
  - apply CompleteWorkflowSuccess_Ok in H as (_ & _ & _ & Hact & _). by auto.
  - rewrite Hact' by (destruct Hop; congruence). intros [?|Hx]; [by auto|]. destruct Hop as [-> | ->]; congruence.
  - rewrite Hact' by (destruct Hop as [->|(? & ? & ->)]; congruence). intros [?|Hx]; [by auto|].
    destruct Hop as [->|(? & ? & ->)]; [congruence|]. destruct Ht as [<- Hfs]. by rewrite Hx in Hfs.
  - rewrite Hact' by done. intros [?|Hx]; [by auto|]. destruct Ht as [->|[_ ?]]; [by rewrite Hx in Hnt'|congruence].
Qed.

Lemma terminal_stays e e' id n : inv e → step e e' → en_nodes e !! id = Some n → succeeded_or_skipped (nr_state n) = true →
  en_nodes e' !! id = Some n.
Proof.
  intros Hi Hstep Hn Hs. destruct (step_node order c command e e' Hi Hstep) as [->|(k & m & m' & Hm & Hnt & -> & _)]; [done|].
  rewrite lookup_insert_ne; [done|]. intros ->. simplify_eq. by destruct (nr_state n).
Qed.

(** The source of a settled edge has succeeded or was skipped, as long as no
    node has failed. *)
Lemma settled_source e d : inv e → wr_termination (en_run e) = None → d ∈ dc_Edges (en_doc e) →
  allIncomingSettled e (ed_TargetNodeID d) = true →
  ∃ m, en_nodes e !! ed_SourceNodeID d = Some m ∧ succeeded_or_skipped (nr_state m) = true.
Proof.
  intros [Hs Hf _ _ _ _] Hterm Hd Hin. destruct (edge_source c command e d Hs Hd) as (m & Hm & _). exists m. split; [done|].
  destruct (fv_edge _ Hf d m Hd Hm) as (st & Hst & Hok).
  unfold allIncomingSettled in Hin. rewrite forallb_forall in Hin. specialize (Hin d).
  rewrite negb_true_iff, bool_decide_eq_false in Hin.
  assert (st ≠ EdgePending) as Hne by (intros ->; apply Hin; [apply list_elem_of_In; by apply (sv_in _ _ _ Hs)|done]).
  unfold edge_ok in Hok. destruct (nr_state m) eqn:Hsm; try done; exfalso;
    (destruct (fv_fail_fast _ Hf _ m Hm) as [x Hx]; [by rewrite Hsm|congruence]).
Qed.

Lemma settled_step e e' : inv e → settled_inv e → step e e' → settled_inv e'.
Proof.
  intros Hi Hset Hstep id n d Hn Hx Hd Ht. rewrite (engine_step_doc order _ _ Hstep) in Hd.
  assert (∃ m, en_nodes e !! ed_SourceNodeID d = Some m ∧ succeeded_or_skipped (nr_state m) = true) as (m & Hm & Hms).
  { destruct (step_settles e e' Hi Hstep) as [Heq|(k & n0 & n' & Hn0 & _ & Heq & Hk)].
    - rewrite Heq in Hn. by apply (Hset id n).
    - rewrite Heq, lookup_insert in Hn. case_decide as Hki; [|by apply (Hset id n)]. subst k. injection Hn as <-.
      destruct (Hk Hx) as [Hs0|[Hin Hterm]]; [by apply (Hset id n0)|]. subst id. by apply settled_source. }
  exists m. split; [|done]. by apply (terminal_stays e e').
Qed.

Lemma settled_steps e e' : inv e → settled_inv e → rtc step e e' → settled_inv e'.
Proof.
  intros Hi Hset Hs. induction Hs as [e|e e1 e2 H1 _ IH]; [done|]. apply IH; [by eapply engine_inv_step|by eapply settled_step].
Qed.

Lemma started_settled e0 e : built c command e0 → started e0 e → settled_inv e.
Proof.
  intros Hb Hs id n d Hn Hx Hd Ht. pose proof (started_static c command e0 e Hb Hs) as Hst.
  destruct (started_nodes c command e0 e id n Hb Hs Hn) as [(-> & _)|(_ & (_ & _ & _ & _ & Hp & Hna & _)%fresh_facts)].
  - exfalso. destruct (dw_entry _ _ (sv_doc _ _ _ Hst)) as (m & Hm & Hid & _).
    apply (proj1 (dw_sources _ _ (sv_doc _ _ _ Hst) m Hm) Hid (ed_SourceNodeID d)).
    unfold flows, edge_pairs. apply list_elem_of_fmap. exists d. unfold edge_pair. rewrite Hid, <-Ht. done.
  - destruct Hx; congruence.
Qed.

Lemma reachable_settled snapshot compat e :
  policies_ok (sn_DSL snapshot) → engine_reachable order c command snapshot compat e → settled_inv e.
Proof.
  intros Hp. induction 1 as [e Hnew|e op Hr IH].
  - apply New_started in Hnew as (e0 & e1 & Hb & Hd & Hs & Hdr).
    assert (inv e1) as Hi by (eapply started_inv; eauto using clone_policies).
    replace e with (drive order 0 e1).1 by (by rewrite Hdr).
    apply (settled_steps e1); [done|by eapply started_settled|]. apply (drive_steps order c command); [done|]. by left.
  - assert (inv e) as Hi by by eapply reachable_inv.
    apply (settled_steps e); [done..|]. by apply (engine_apply_steps order c command).
Qed.

(** The engine runs the clone of its snapshot. *)
Lemma reachable_doc snapshot compat e : policies_ok (sn_DSL snapshot) →
  engine_reachable order c command snapshot compat e → cloneDocument (sn_DSL snapshot) = Ok (en_doc e).
Proof.
  intros Hp Hr. assert (∀ x y, rtc (engine_step order) x y → en_doc y = en_doc x) as Hdoc.
  { induction 1 as [|x y z Hxy _ IHs]; [done|]. rewrite IHs. by apply (engine_step_doc order). }
  induction Hr as [e He|e op He IH].
  - apply New_started in He as (e0 & e1 & Hb & Hd & Hs & Hdr).
    assert (engine_inv c command e1) as Hi by (eapply started_inv; eauto using clone_policies).
    rewrite Hd. f_equal. rewrite (Hdoc e1 e). { by destruct Hs as (run & n & n1 & n2 & _ & _ & _ & _ & ->). }
    replace e with (drive order 0 e1).1 by (by rewrite Hdr). apply (drive_steps order c command); [done|]. by left.
  - pose proof (reachable_inv order c command snapshot compat e Hp He) as Hi. rewrite IH. f_equal. symmetry.
    by apply Hdoc, (engine_apply_steps order c command op e Hi).
Qed.

(** ** The routes that a run has chosen *)

Definition some_route (d : Document) (id : string) : string :=
  default "" (head (ac_Route ∘ ed_Activation <$> edges_from d id)).

Definition chosen (e : Engine) (id : string) : string :=
  match en_nodes e !! id with
  | Some n => if bool_decide (nr_state n = NodeSucceeded) then nr_selectedRoute n else some_route (en_doc e) id
  | None => some_route (en_doc e) id
  end.

Section Safe.
Context (e : Engine) (Hi : inv e) (Hset : settled_inv e) (Hctl : control_inv order command e).
Context (Hnamed : named_routes (en_doc e)).

Local Notation d := (en_doc e).
Local Notation Hs := (ev_static _ _ _ Hi).
Local Notation Hf := (ev_flow _ _ _ Hi).
Local Notation Hw := (sv_doc _ _ _ (ev_static _ _ _ Hi)).

Lemma defined_node n : n ∈ dc_Nodes d → ∃ m, en_nodes e !! nd_ID n = Some m ∧ definition_of e (nd_ID n) = n.
Proof using Hi.
  intros Hn. pose proof (definition_unique c command e n Hs Hn) as Hd. destruct (proj2 (sv_nodes _ _ _ Hs (nd_ID n))) as [m Hm]; [|by exists m].
  rewrite (sv_defs _ _ _ Hs), node_map_is_Some. by apply list_elem_of_fmap_2.
Qed.

Lemma chosen_chooses : run_chooses d (chosen e).
Proof using Hi Hctl Hnamed.
  intros n Hn Hb. destruct (defined_node n Hn) as (m & Hm & Hdef). unfold chosen. rewrite Hm.
  destruct (bool_decide_reflect (nr_state m = NodeSucceeded)) as [Hst|_].
  - destruct (cv_route _ _ _ Hctl _ m Hm Hst) as (raw & (_ & _ & _ & _ & _ & _ & Hev)%evaluateBranch_Ok); [by rewrite Hdef|].
    rewrite Hdef in Hev. destruct (dw_routes _ _ Hw n Hn Hb) as [_ Hroutes]. apply Hroutes; [done|].
    intros Hx. rewrite Hx in Hev. by apply (Hnamed n Hn Hb).
  - assert (∃ t, flows d (nd_ID n) t) as [t Ht].
    { pose proof (dw_to_exit _ _ Hw n Hn) as Hrtc. destruct (decide (nd_ID n = dc_ExitNodeID d)) as [Heq|Hne].
      - exfalso. destruct (dw_exit _ _ Hw) as (x & Hx & Hxid & Hco). destruct (defined_node x Hx) as (_ & _ & Hxdef).
        rewrite Hxid, <-Heq, Hdef in Hxdef. subst x. apply coordinate_type in Hco. unfold is_branch in Hb. by rewrite Hb in Hco.
      - inversion Hrtc; subst; [done|eauto]. }
    apply list_elem_of_fmap in Ht as (x & Heq & Hx). injection Heq as Hsrc _. unfold some_route.
    assert (x ∈ edges_from d (nd_ID n)) as Hin by (by apply list_elem_of_filter).
    destruct (edges_from d (nd_ID n)) as [|y l]; [by apply not_elem_of_nil in Hin|]. exists y. split; [by left|done].
Qed.

Lemma succeeded_activated id n : en_nodes e !! id = Some n → nr_state n = NodeSucceeded → nr_activated n = true.
Proof using Hi.
  intros Hn Hst. destruct (sv_node _ _ _ Hs id n Hn) as (Hwf & _). pose proof (nwf_facts _ Hwf) as H.
  unfold node_state_facts in H. rewrite Hst in H. apply H.
Qed.

Lemma done_settled id n : en_nodes e !! id = Some n → succeeded_or_skipped (nr_state n) = true → settled n.
Proof using Hi.
  intros Hn H. destruct (nr_state n) eqn:Hst; try done; [left; by eapply succeeded_activated|by right].
Qed.

(** An active edge was taken. *)
Lemma active_edge_taken x m : x ∈ dc_Edges d → en_nodes e !! ed_SourceNodeID x = Some m → en_edges e !! ed_ID x = Some EdgeActive →
  nr_state m = NodeSucceeded ∧ (ac_Kind (ed_Activation x) = ActivationRoute → ac_Route (ed_Activation x) = chosen e (ed_SourceNodeID x)).
Proof using Hi.
  intros Hx Hm Hact. destruct (fv_edge _ Hf x m Hx Hm) as (st & Hst & Hok). rewrite Hact in Hst. injection Hst as <-.
  unfold edge_ok in Hok. destruct (nr_state m) eqn:Hsm; try done. split; [done|]. intros Hk.
  unfold chosen. rewrite Hm, bool_decide_true by done. unfold edge_state_for in Hok. rewrite Hk in Hok. cbn in Hok.
  by destruct (bool_decide_reflect (ac_Route (ed_Activation x) = nr_selectedRoute m)).
Qed.

Lemma activated_active id n : en_nodes e !! id = Some n → nr_activated n = true → run_active d (chosen e) id.
Proof using Hi.
  destruct (dw_acyclic _ _ Hw) as [rank Hrank]. remember (rank id) as r eqn:Hr. revert id n Hr.
  induction r as [r IH] using lt_wf_ind. intros id n -> Hn Ha.
  destruct (fv_active _ Hf id n Hn Ha) as [->|[_ Hany]]; [constructor|].
  unfold anyIncomingActive in Hany. apply existsb_exists in Hany as (x & Hin%list_elem_of_In & Hact).
  apply (sv_in _ _ _ Hs) in Hin as [Hx Ht]. apply bool_decide_eq_true in Hact.
  destruct (edge_source c command e x Hs Hx) as (m & Hm & _). destruct (active_edge_taken x m Hx Hm Hact) as [Hst Hroute].
  rewrite <-Ht. apply run_active_edge; [done| |done].
  apply (IH (rank (ed_SourceNodeID x))) with (n := m); [|done..|by apply (succeeded_activated _ m Hm)].
  apply Hrank. apply list_elem_of_fmap. exists x. unfold edge_pair. by rewrite Ht.
Qed.

Lemma before_settled x y : tc (flows d) x y → ∀ n, en_nodes e !! y = Some n → settled n →
  ∃ m, en_nodes e !! x = Some m ∧ succeeded_or_skipped (nr_state m) = true.
Proof using Hi Hset.
  induction 1 as [x y Hxy|x y z Hxy _ IH]; intros n Hn Hsn.
  - apply list_elem_of_fmap in Hxy as (ed & [= -> ->] & Hed). by apply (Hset (ed_TargetNodeID ed) n).
  - destruct (IH n Hn Hsn) as (m & Hm & Hms). apply list_elem_of_fmap in Hxy as (ed & [= -> ->] & Hed).
    apply (Hset (ed_TargetNodeID ed) m); [done|by eapply done_settled|done..].
Qed.

Lemma active_succeeded id : run_active d (chosen e) id → ∀ n, en_nodes e !! id = Some n →
  succeeded_or_skipped (nr_state n) = true → nr_state n = NodeSucceeded.
Proof using Hi Hset.
  induction 1 as [|x Hx _ IH Hroute]; intros n Hn Hd.
  - destruct (fv_entry _ Hf) as (m & Hm & Hst). congruence.
  - destruct (Hset _ n x Hn (done_settled _ n Hn Hd) Hx eq_refl) as (m & Hm & Hms). specialize (IH m Hm Hms).
    destruct (nr_state n) eqn:Hsn; try done. exfalso. destruct (fv_skipped _ Hf _ n Hn Hsn) as [_ Hno].
    apply not_true_iff_false in Hno. apply Hno. apply existsb_exists. exists x.
    split; [apply list_elem_of_In; by apply (sv_in _ _ _ Hs)|]. apply bool_decide_eq_true.
    destruct (fv_edge _ Hf x m Hx Hm) as (st & -> & Hok). unfold edge_ok in Hok. rewrite IH in Hok. subst st. f_equal.
    destruct (edge_source c command e x Hs Hx) as (_ & _ & Ha). unfold activation_ok in Ha. unfold edge_state_for.
    case_decide; destruct Ha as [Hk _]; rewrite Hk; [|done].
    specialize (Hroute Hk). unfold chosen in Hroute. rewrite Hm, bool_decide_true in Hroute by done.
    by rewrite Hroute, (bool_decide_true (nr_selectedRoute m = nr_selectedRoute m)).
Qed.

(** ** Reading *)

Lemma start_unique n : n ∈ dc_Nodes d → coordinate n = startCoordinate → nd_ID n = dc_EntryNodeID d.
Proof using Hi.
  intros Hn Hc. destruct (dw_entry _ _ Hw) as (m & Hm & <- & Hmc). f_equal.
  by apply (count_one_unique startCoordinate (dc_Nodes d)); [apply Hw|..].
Qed.

(** A succeeded node has its declared outputs. *)
Lemma declared_output m n name t : m ∈ dc_Nodes d → outputs m !! name = Some t → en_nodes e !! nd_ID m = Some n →
  nr_state n = NodeSucceeded → is_Some (nr_effectiveOutputs n !! name).
Proof using HC Hi Hctl.
  intros Hm Ht Hn Hst. pose proof (definition_unique c command e m Hs Hm) as Hdef.
  destruct (definition_lookup c command e _ n Hs Hn) as (_ & _ & Hv). rewrite Hdef in Hv.
  destruct (sv_node _ _ _ Hs _ n Hn) as (_ & _ & _ & Hk). rewrite Hdef in Hk. unfold runtime_kind in Hk.
  destruct (bool_decide_reflect (nd_Kind m = KindControl)) as [Hc|Hc].
  - destruct (ec_control_outputs m name t Hv Hc Ht) as [Hco ->]. rewrite (start_unique m Hm Hco) in Hn.
    destruct (cv_entry _ _ _ Hctl) as (x & Hx & Ho). assert (x = n) as -> by congruence. rewrite Ho, lookup_singleton_eq. eauto.
  - pose proof (ev_data _ _ _ Hi _ n Hn Hst Hk) as Ho. rewrite Hdef in Ho. specialize (Ho name t Ht). unfold output_error in Ho.
    by destruct (nr_effectiveOutputs n !! name).
Qed.

(** What an activated node reads is there. *)
Lemma inputs_available id n name b : runs_safe d → en_nodes e !! id = Some n → nr_activated n = true →
  inputs (definition_of e id) !! name = Some b → ∃ v, resolve_binding e b = Ok (Some v).
Proof using HC Hi Hset Hctl Hnamed.
  intros Hsafe Hn Ha Hb. destruct (definition_lookup c command e id n Hs Hn) as (Hin & Hid & Hv).
  destruct (binding_valid c _ _ _ Hv Hb) as [[Hk _]|[Hk [o Hout]]]; unfold resolve_binding; rewrite Hk; [by eauto|]. rewrite Hout.
  destruct (Hsafe id (or_NodeID o)) as [Htc Hact].
  { exists (definition_of e id), name, b, o. done. }
  destruct (before_settled _ _ Htc n Hn (or_introl Ha)) as (m & Hm & Hms).
  pose proof (active_succeeded _ (Hact _ chosen_chooses (activated_active id n Hn Ha)) m Hm Hms) as Hst.
  rewrite Hm, bool_decide_true by done. cbn.
  destruct (dw_references _ _ Hw _ name b Hin Hb o Hk Hout) as (x & t & Hx & Hxid & Ht & _).
  rewrite <-Hxid in Hm. destruct (declared_output x m (or_Name o) t Hx Ht Hm Hst) as [v Hvv]. exists v. by rewrite Hvv.
Qed.
End Safe.
End Settled.
