(* ===== verification/CompiledRun.v ===== *)
(** * Running a compiled workflow

    The analyses of the compiler speak of the author's document and the engine
    runs a clone of the runtime document.  A compiled document has the author's
    control flow under the execution identities, so its references are safe under
    every choice of routes, cloning keeps that, and RunSafety.v says what it
    means for the engine. *)

From Stdlib Require Import Ascii.
From S2P Require Import Prelude Json Digest Graph Dsl Ir IrFacts Canonical ControlGraph ControlFacts Activation DecisionFacts ActivationFacts.
From S2P Require Import SourceMap Marshal Handlers Compiler CompilerFacts.
From S2P Require Import Branch Runtime Engine EngineSteps EngineInv EngineFacts EngineInit EngineProgress EngineLive BranchRoutes RunSafety.

Open Scope string_scope.
Open Scope list_scope.
Open Scope Z_scope.

(** ** A compiled document *)

Lemma safe_upstream d : runs_safe d → upstream_bindings d.
Proof. intros Hsafe n name b o Hn Hb Hk Ho. apply (Hsafe (nd_ID n) (or_NodeID o)). by exists n, name, b, o. Qed.

Section Compiled.
Context (compiler : Compiler) (catalog : NodeCatalog) (request : Request) (result : Result).
Context (Hc : compile_success compiler catalog request result) (Hfaithful : FaithfulRegistry (cp_registry compiler)).

Local Notation d := (rq_IR request).
Local Notation D := (r_DSL result).
Local Notation ids := (node_ID <$> doc_Nodes d).
Local Notation wf := (cs_ir _ _ _ _ Hc).

Lemma node_identity a b : a ∈ ids → b ∈ ids → executionNodeID a = executionNodeID b → a = b.
Proof using Hc. exact (proj1 (cs_nodes _ _ _ _ Hc) a b). Qed.

Lemma edge_image e : e ∈ doc_Edges d → ∃ x, x ∈ dc_Edges D ∧ compiled_edge d e x.
Proof using Hc. destruct (cs_edges _ _ _ _ Hc) as (_ & _ & H & _). apply H. Qed.
Lemma edge_preimage x : x ∈ dc_Edges D → ∃ e, e ∈ doc_Edges d ∧ compiled_edge d e x.
Proof using Hc. destruct (cs_edges _ _ _ _ Hc) as (_ & _ & _ & H). apply H. Qed.

Lemma edge_ends_known e : e ∈ doc_Edges d → edge_Source e ∈ ids ∧ edge_Target e ∈ ids.
Proof using Hc.
  intros He. destruct (iw_edges _ _ wf e He) as (_ & s & t & Hs & Ht & <- & <- & _). split; by apply list_elem_of_fmap_2.
Qed.

Lemma leads_flows a b : tc (leads d) a b → tc (flows D) (executionNodeID a) (executionNodeID b).
Proof using Hc.
  assert (∀ a b, leads d a b → flows D (executionNodeID a) (executionNodeID b)) as Hstep.
  { intros x y (e & He & <- & <-)%leads_edge. destruct (edge_image e He) as (z & Hz & Hce). apply list_elem_of_fmap. exists z.
    unfold edge_pair. by rewrite (ce_source _ _ _ Hce), (ce_target _ _ _ Hce). }
  induction 1 as [x y Hxy|x y z Hxy _ IH]; [by apply tc_once, Hstep|]. eapply tc_l; [by apply Hstep|done].
Qed.

Definition author_routes (ρ : string → string) : string → string := λ id, ρ (executionNodeID id).

Lemma routes_chosen ρ : run_chooses D ρ → chooses_routes d (author_routes ρ).
Proof using Hc.
  intros Hρ n Hn Hb. destruct (cs_graph _ _ _ _ Hc) as (start & stop & Hgraph & _).
  destruct (gw_routes _ _ _ Hgraph n Hn Hb) as [Hr _].
  assert (∃ e, e ∈ out_edges d (node_ID n)) as (e & [He Hsrc]%elem_of_out_edges).
  { destruct (out_edges d (node_ID n)) as [|e l] eqn:Ho; [|exists e; by left]. apply (gw_sinks _ _ _ Hgraph n Hn) in Ho. congruence. }
  assert (∃ m, m ∈ doc_Nodes d ∧ node_ID m = node_ID n ∧ node_Type m = "branch") as Hbranch by (by exists n).
  destruct (edge_image e He) as (x & Hx & Hce). destruct (ce_activation _ _ _ Hce) as [[_ Ha]|[Hno _]]; [|by rewrite Hsrc in Hno].
  destruct (ew_ends _ _ (dw_edges _ _ (cs_contract _ _ _ _ Hc)) x Hx) as (s & _ & Hs & _ & Hsid & _ & Hok).
  unfold activation_ok in Hok. rewrite Ha in Hok. case_decide as Hsb; [|by destruct Hok].
  destruct (Hρ s Hs Hsb) as (y & [Hys Hy]%list_elem_of_filter & Hroute).
  rewrite Hsid, (ce_source _ _ _ Hce), Hsrc in Hys, Hroute.
  destruct (edge_preimage y Hy) as (f & Hf & Hcf). rewrite (ce_source _ _ _ Hcf) in Hys.
  apply node_identity in Hys; [|by apply edge_ends_known|by apply list_elem_of_fmap_2].
  unfold author_routes. rewrite <-Hroute. destruct (ce_activation _ _ _ Hcf) as [[_ ->]|[Hno _]]; [|by rewrite Hys in Hno].
  apply Hr. by apply elem_of_out_edges.
Qed.

Lemma active_run ρ id : active d (author_routes ρ) id → run_active D ρ (executionNodeID id).
Proof using Hc.
  destruct (cs_graph _ _ _ _ Hc) as (start & stop & Hgraph & Hentry & _).
  induction 1 as [id Hid|e He _ IH Ht].
  - rewrite (gw_start _ _ _ Hgraph) in Hid. injection Hid as <-. rewrite <-Hentry. constructor.
  - destruct (edge_image e He) as (x & Hx & Hce). rewrite <-(ce_target _ _ _ Hce). apply run_active_edge; [done|by rewrite (ce_source _ _ _ Hce)|].
    rewrite (ce_source _ _ _ Hce). destruct (ce_activation _ _ _ Hce) as [[Hb ->]|[_ ->]]; [|done]. intros _. symmetry. by apply Ht.
Qed.

Lemma run_active_author ρ x : run_active D ρ x → ∀ id, id ∈ ids → x = executionNodeID id → active d (author_routes ρ) id.
Proof using Hc.
  destruct (cs_graph _ _ _ _ Hc) as (start & stop & Hgraph & Hentry & _).
  induction 1 as [|x Hx _ IH Hroute]; intros id Hid Heq.
  - rewrite Hentry in Heq. apply node_identity in Heq as <-; [|by apply (of_type_id d "start"); rewrite (gw_start _ _ _ Hgraph); left|done].
    constructor. apply (gw_start _ _ _ Hgraph).
  - destruct (edge_preimage x Hx) as (e & He & Hce). rewrite (ce_target _ _ _ Hce) in Heq. destruct (edge_ends_known e He) as [Hs Ht].
    apply node_identity in Heq as <-; [|done..]. rewrite (ce_source _ _ _ Hce) in IH, Hroute.
    apply active_edge; [done|by apply IH|]. intros Hb. destruct (ce_activation _ _ _ Hce) as [[_ Ha]|[Hno _]]; [|done].
    rewrite Ha in Hroute. symmetry. by apply Hroute.
Qed.

Lemma compiled_runs_safe : runs_safe D.
Proof using Hc Hfaithful.
  intros id source (x & name & b & o & Hx & <- & Hb & _ & Ho & <-).
  destruct (cs_nodes _ _ _ _ Hc) as (_ & _ & _ & Hpre). destruct (Hpre x Hx) as (n & Hn & mappings & Hcn & _).
  destruct (cn_handler _ _ _ _ _ _ Hcn) as (h & runtime & index & product & values & Hh & _ & _ & _ & Hcomp & _ & _ & _ & _ & Hin & _).
  unfold inputs in Hb. rewrite Hin in Hb. destruct (Hfaithful _ _ Hh _ _ _ _ _ _ _ Hcomp Hb Ho) as (i & Hi & Href & Hid & _).
  cbn in Hid. rewrite execution_ids_lookup in Hid. case_decide as Hrin; [|done]. injection Hid as <-.
  rewrite (cn_id _ _ _ _ _ _ Hcn). destruct (cs_safe _ _ _ _ Hc n i Hn Hi Href) as [Htc Hsafe]. split; [by apply leads_flows|].
  intros ρ Hρ Hact. apply active_run, Hsafe; [by apply routes_chosen|].
  apply (run_active_author ρ _ Hact); [by apply list_elem_of_fmap_2|done].
Qed.

Lemma compiled_upstream : upstream_bindings D.
Proof using Hc Hfaithful.
  apply safe_upstream, compiled_runs_safe.
Qed.
End Compiled.

(** ** Its clone

    The identities, ports and routes of a valid document are ASCII, which an
    encoder leaves as it is. *)

Definition ascii_only (s : string) : Prop := string_all (λ a, (code a <? 128)%N) s = true.

Lemma clean_ascii s : ascii_only s → Engine.clean s = s.
Proof.
  unfold ascii_only, Engine.clean. induction s as [|a s IH]; [done|]. cbn [string_all to_valid_utf8].
  rewrite andb_true_iff. intros [-> Hs]. by rewrite IH.
Qed.

Lemma in_range_ascii lo hi a : (hi < 128)%N → in_range lo hi a = true → (code a <? 128)%N = true.
Proof. unfold in_range. rewrite andb_true_iff, !N.leb_le, N.ltb_lt. lia. Qed.

Lemma word_ascii a : is_word a = true → (code a <? 128)%N = true.
Proof.
  unfold is_word, is_letter, is_digit. rewrite !orb_true_iff. intros [[[H|H]|H]|H]; try (by eapply in_range_ascii; [|exact H]).
  apply N.eqb_eq in H. rewrite H. done.
Qed.

Lemma port_ascii s : portPattern s = true → ascii_only s.
Proof.
  unfold portPattern, ascii_only. destruct s as [|a s]; [done|]. rewrite !andb_true_iff. intros [[Ha Hs] _]. cbn.
  rewrite andb_true_iff. split; [apply word_ascii; unfold is_word; by rewrite Ha|]. by apply (string_all_weaken is_word _ _ word_ascii).
Qed.

Lemma lower_hex_ascii a : is_lower_hex a = true → (code a <? 128)%N = true.
Proof. unfold is_lower_hex, is_digit. rewrite orb_true_iff. intros [H|H]; by eapply in_range_ascii; [|exact H]. Qed.

Lemma strip_app p s r : strip p s = Some r → s = p +:+ r.
Proof.
  unfold strip. destruct (String.prefix p s) eqn:Hp; [|done]. intros [= <-].
  assert (∀ m, (String.length s ≤ m)%nat → s = p +:+ String.substring (String.length p) m s) as H; [|by apply H].
  revert s Hp. induction p as [|a p IH]; intros s Hp m Hm.
  - change (s = String.substring 0 m s). symmetry. by apply substring_all.
  - destruct s as [|b s]; [done|]. cbn in Hp. destruct (ascii_dec a b) as [->|]; [|done].
    change (String b s = String b (p +:+ String.substring (String.length p) m s)). f_equal. cbn in Hm. apply IH; [done|lia].
Qed.

Lemma id_ascii prefix s : ascii_only prefix → id_pattern prefix s = true → ascii_only s.
Proof.
  unfold id_pattern, ascii_only. intros Hp. destruct (strip prefix s) as [r|] eqn:Hr; [|done]. apply strip_app in Hr as ->.
  rewrite andb_true_iff. intros [H _]. rewrite string_all_app, Hp. by apply (string_all_weaken is_lower_hex _ _ lower_hex_ascii).
Qed.

Section Clone.
Context (c : Contract) (d d' : Dsl.Document) (Hw : doc_wf c d) (Hclone : cloneDocument d = Ok d').

Lemma clean_node_id n : n ∈ dc_Nodes d → Engine.clean (nd_ID n) = nd_ID n.
Proof using Hw. intros Hn. apply clean_ascii, (id_ascii "xn_"); [done|]. by apply (nw_pattern _ _ (dw_nodes _ _ Hw)). Qed.

Lemma clone_edge_same e : e ∈ dc_Edges d → clone_edge e = e.
Proof using Hw.
  intros He. destruct (ew_ends _ _ (dw_edges _ _ Hw) e He) as (s & t & Hs & Ht & Hse & Hte & Ha).
  pose proof (ew_pattern _ _ (dw_edges _ _ Hw) e He) as Hp. unfold clone_edge.
  rewrite <-Hse, <-Hte, !clean_node_id by done. rewrite (clean_ascii (ed_ID e)) by (by apply (id_ascii "xe_")).
  destruct e as [id source target [kind route]]. cbn in *. subst. f_equal. unfold activation_ok in Ha. cbn in Ha.
  case_decide; destruct Ha as [-> Hr]; [by rewrite clean_ascii by (by apply port_ascii)|by rewrite Hr].
Qed.

Lemma clone_edges : dc_Edges d' = dc_Edges d.
Proof using Hw Hclone.
  unfold cloneDocument in Hclone. destruct (mapM clone_node (dc_Nodes d)); [|done]. injection Hclone as <-. cbn.
  transitivity (id <$> dc_Edges d); [|by apply list_fmap_id]. apply list_fmap_ext. intros i e He. by apply clone_edge_same, list_elem_of_lookup_2 with i.
Qed.

Lemma clone_entry : dc_EntryNodeID d' = dc_EntryNodeID d.
Proof using Hw Hclone.
  unfold cloneDocument in Hclone. destruct (mapM clone_node (dc_Nodes d)); [|done]. injection Hclone as <-. cbn.
  destruct (dw_entry _ _ Hw) as (n & Hn & <- & _). by apply clean_node_id.
Qed.

Lemma clone_nodes : Forall2 (λ n n', clone_node n = Some n') (dc_Nodes d) (dc_Nodes d').
Proof using Hclone.
  unfold cloneDocument in Hclone. destruct (mapM clone_node (dc_Nodes d)) as [nodes|] eqn:Hm; [|done]. injection Hclone as <-. cbn.
  by apply mapM_Some.
Qed.

Lemma clone_node_parts n n' : clone_node n = Some n' → nd_ID n' = Engine.clean (nd_ID n) ∧
  op_Type (nd_Operation n') = Engine.clean (op_Type (nd_Operation n)) ∧ clone_nilable clone_binding (nd_Inputs n) = Some (nd_Inputs n').
Proof using.
  unfold clone_node. intros (configuration & _ & (ins & Hins & (outs & _ & [= <-])%bind_Some)%bind_Some)%bind_Some. done.
Qed.

Lemma clone_map_image {A B} (f : A → option B) m m' k y : clone_map f m = Some m' → m' !! k = Some y →
  ∃ k0 x, m !! k0 = Some x ∧ f x = Some y.
Proof using.
  unfold clone_map. intros (l & Hl & [= <-])%bind_Some. apply mapM_Some in Hl.
  assert (∀ acc : gmap string B, (∀ k y, acc !! k = Some y → ∃ k0 x, m !! k0 = Some x ∧ f x = Some y) →
    (∀ q, q ∈ l → ∃ k0 x, m !! k0 = Some x ∧ f x = Some q.2) →
    ∀ k y, fold_left (λ acc p, <[p.1 := p.2]> acc) l acc !! k = Some y → ∃ k0 x, m !! k0 = Some x ∧ f x = Some y) as Hfold.
  { clear. induction l as [|q l IH]; intros acc Hacc Hq k y; [apply Hacc|]. cbn [fold_left].
    apply (IH (<[q.1 := q.2]> acc)); [|intros r Hr; apply Hq; by right].
    intros k' y'. rewrite (lookup_insert (M := gmap string)). case_decide; [intros [= <-]; apply Hq; by left|apply Hacc]. }
  apply Hfold; [by intros ? ?; rewrite lookup_empty|]. intros q [i Hi]%list_elem_of_lookup.
  destruct (Forall2_lookup_r _ _ _ _ _ Hl Hi) as ([k0 x] & Hx & Hpair). apply fmap_Some in Hpair as (y0 & Hy & ->).
  exists k0, x. split; [|done]. apply elem_of_sorted_items. by eapply list_elem_of_lookup_2.
Qed.

Lemma clone_reads id source : reads d' id source → reads d id source.
Proof using Hw Hclone.
  intros (n' & name & b' & o' & Hn' & <- & Hb & Hk & Ho & <-).
  apply list_elem_of_lookup in Hn' as [i Hi]. destruct (Forall2_lookup_r _ _ _ _ _ clone_nodes Hi) as (n & Hn & Hcn).
  apply list_elem_of_lookup_2 in Hn. destruct (clone_node_parts n n' Hcn) as (Hid & _ & Hins).
  unfold inputs, map_val in Hb. destruct (nd_Inputs n) as [m|] eqn:Hm; cbn in Hins;
    [|injection Hins as Hnone; rewrite <-Hnone in Hb; cbn in Hb; by rewrite (lookup_empty (M := gmap string)) in Hb].
  apply fmap_Some in Hins as (m' & Hmap & Hm'). rewrite Hm' in Hb. cbn in Hb.
  destruct (clone_map_image _ _ _ _ _ Hmap Hb) as (k0 & b & Hb0 & Hcb).
  unfold clone_binding in Hcb. apply bind_Some in Hcb as (value & _ & [= <-]). cbn in Hk, Ho.
  apply fmap_Some in Ho as (o & Ho & ->). cbn. assert (ib_Kind b = BindingNodeOutput) as Hkb by (by destruct (ib_Kind b)).
  assert (inputs n !! k0 = Some b) as Hin by (unfold inputs; by rewrite Hm).
  destruct (dw_references _ _ Hw n k0 b Hn Hin o Hkb Ho) as (x & t & Hx & Hxid & _).
  rewrite Hid, clean_node_id by done. rewrite <-Hxid, clean_node_id, Hxid by done. by exists n, k0, b, o.
Qed.

Lemma clone_runs_safe : runs_safe d → runs_safe d'.
Proof using Hw Hclone.
  intros Hsafe id source [Htc Hact]%clone_reads%Hsafe.
  split; [unfold flows, edge_pairs; by rewrite clone_edges|]. intros ρ Hρ Hid.
  assert (∀ x, run_active d' ρ x ↔ run_active d ρ x) as Heq.
  { split; induction 1 as [|e He _ IH Hr].
    - rewrite clone_entry. constructor.
    - apply run_active_edge; [by rewrite <-clone_edges|done..].
    - rewrite <-clone_entry. constructor.
    - apply run_active_edge; [by rewrite clone_edges|done..]. }
  apply Heq, Hact; [|by apply Heq]. intros n [i Hi]%list_elem_of_lookup Hb.
  destruct (Forall2_lookup_l _ _ _ _ _ clone_nodes Hi) as (n' & Hn' & Hcn). destruct (clone_node_parts n n' Hcn) as (Hid' & Hop & _).
  apply list_elem_of_lookup_2 in Hi, Hn'. destruct (Hρ n' Hn') as (e & He & Hr).
  - unfold is_branch in *. by rewrite Hop, Hb.
  - exists e. rewrite Hid', clean_node_id in He, Hr by done. split; [|done]. unfold edges_from in *. by rewrite clone_edges in He.
Qed.
End Clone.

(** ** A compiled run *)

Section Run.
Context (order : range_order) (c : Contract) {HC : EngineContract c} {HN : NamedRoutes c}.
Context (command : CreateRunCommand) (snapshot : Snapshot) (compat : CompatibilityChecker).
Context (compiler : Compiler) (Hfaithful : FaithfulRegistry (cp_registry compiler)).
Context (request : Request) (result : Result) (Hcompile : Compile compiler request = inr result).
Context (Hsnapshot : sn_DSL snapshot = r_DSL result) (Hpolicies : policies_ok (r_DSL result)).

Lemma reachable_compiled e : engine_reachable order c command snapshot compat e →
  engine_inv c command e ∧ control_inv order command e ∧ rest e ∧ settled_inv e ∧ named_routes (en_doc e) ∧ runs_safe (en_doc e).
Proof using HC HN Hfaithful Hcompile Hsnapshot Hpolicies.
  intros Hr. rewrite <-Hsnapshot in Hpolicies.
  destruct (reachable_rest order c command snapshot compat e Hpolicies Hr) as (Hi & Hctl & Hrest).
  destruct (Compile_success _ _ _ Hcompile) as (catalog & _ & Hc).
  split_and!; [done..|by eapply reachable_settled| |].
  - apply (doc_named_routes c). apply (sv_doc _ _ _ (ev_static _ _ _ Hi)).
  - apply (clone_runs_safe (cp_dslContract compiler) (r_DSL result)); [apply Hc| |by eapply compiled_runs_safe].
    rewrite <-Hsnapshot. by eapply reachable_doc.
Qed.
End Run.
