(* ===== verification/EngineVersions.v ===== *)
(** * State versions

    Every aggregate counts its changes in a [uint64].  In a reachable engine no
    counter comes near its width: a Node Run makes a bounded progress within its
    attempt budget, an Attempt changes at most twice and a Workflow Run at most
    three times.  So a version never wraps, and a changed aggregate has a
    greater version, which is what the compare-and-swap of the store relies
    on. *)

From S2P Require Import Prelude Json Graph Dsl Branch Runtime Engine.
From S2P Require Import EngineSteps EngineInv EngineFacts EngineInit EngineProgress EngineLive.

Open Scope string_scope.
Open Scope list_scope.
Open Scope Z_scope.

(** How far a Node Run has come: four states for each attempt. *)
Definition node_progress (n : NodeRun) : Z :=
  4 * nr_nextAttemptSeq n +
  match nr_state n with
  | NodePending => if nr_activated n then 1 else 0
  | NodeReady => 2
  | NodeQueued => -1
  | NodeRunning => 0
  | NodeRetryWait => 1
  | _ => 3
  end.

Definition node_version_ok (n : NodeRun) : Prop := 1 ≤ nr_stateVersion n ≤ 1 + node_progress n.

Definition attempt_version_ok (a : NodeAttempt) : Prop :=
  1 ≤ na_stateVersion a ≤ match na_state a with AttemptQueued => 1 | AttemptRunning => 2 | _ => 3 end.

(** Started, then terminating, then finished. *)
Definition run_version_ok (run : WorkflowRun) : Prop :=
  wr_stateVersion run = 2 + (if wr_termination run then 1 else 0) + (if RunState_Terminal (wr_state run) then 1 else 0).

Record version_inv (e : Engine) : Prop := {
  vi_node : ∀ id n, en_nodes e !! id = Some n → node_version_ok n;
  vi_attempt : ∀ id a, en_attempts e !! id = Some a → attempt_version_ok a;
  vi_run : run_version_ok (en_run e) }.

(** ** Node Runs *)

Lemma seq_range n : node_wf n → 0 ≤ nr_nextAttemptSeq n < 2 ^ 32.
Proof. intros Hwf. rewrite (nwf_counts _ Hwf). apply Z.mod_pos_bound. lia. Qed.

Lemma progress_step n op n' : node_wf n → node_apply op n = Ok n' →
  ((∃ a, op = OpQueueAttempt a) → nr_nextAttemptSeq n < 2 ^ 32 - 1) →
  n' = n ∨ nr_stateVersion n' = u64 (nr_stateVersion n + 1) ∧ node_progress n + 1 ≤ node_progress n'.
Proof.
  intros Hwf H Hq. pose proof (seq_range n Hwf) as Hs. pose proof (nwf_facts _ Hwf) as Hf. unfold node_state_facts in Hf.
  unfold node_progress. destruct op; node_op_inv H; try by left.
  all: right; try case_bool_decide; (split; [done|]); cbn.
  all: repeat match goal with
    | t : NodeState |- _ => destruct t; try done
    | Hv : validNodeTransition (nr_kind ?x) (nr_state ?x) _ = true |- _ =>
        unfold validNodeTransition in Hv; destruct (nr_kind x) eqn:?, (nr_state x) eqn:?; try done
    end; destruct_and? Hf; repeat match goal with H : nr_state _ = _ |- _ => rewrite H end;
    try (destruct (nr_activated n); done || lia); try lia.
  all: try (unfold u32; rewrite Z.mod_small; [lia|]; specialize (Hq ltac:(eauto)); lia).
Qed.

Lemma version_step n op n' : node_wf n → node_apply op n = Ok n' →
  ((∃ a, op = OpQueueAttempt a) → nr_nextAttemptSeq n < 2 ^ 32 - 1) → node_version_ok n →
  n' = n ∨ nr_stateVersion n < nr_stateVersion n' ∧ node_version_ok n'.
Proof.
  intros Hwf H Hq Hv. destruct (progress_step n op n' Hwf H Hq) as [?|[Heq Hp]]; [by left|right].
  assert (node_progress n < 2 ^ 40) as Hb.
  { pose proof (seq_range n Hwf). unfold node_progress. destruct (nr_state n); try destruct (nr_activated n); lia. }
  unfold node_version_ok in *. rewrite u64_small in Heq by lia. lia.
Qed.

(** ** Attempts and runs *)

Lemma attempt_version_step a op a' : attempt_wf a → attempt_apply op a = Ok a' → attempt_version_ok a → attempt_version_ok a'.
Proof.
  intros Hwf H Hv. unfold attempt_version_ok in *. destruct op as [|r]; simpl in H.
  - apply NodeAttempt_transition_Ok in H as [Ht ->]. cbn. destruct (na_state a); try done. rewrite u64_small; lia.
  - apply NodeAttempt_Complete_Ok in H as [(_ & _ & ->)|(Ht & _ & Hx & ->)]; [done|]. cbn.
    destruct (na_state a), (ar_State r); try done; rewrite u64_small; lia.
Qed.

Lemma run_version_request run intent run' : WorkflowRun_RequestTermination run intent = Ok (run', true) →
  run_version_ok run → run_version_ok run' ∧ wr_stateVersion run < wr_stateVersion run'.
Proof.
  intros (Ht & _ & _ & [(_ & ? & _)|(Hn & _ & ->)])%RequestTermination_Ok Hv; [done|].
  unfold run_version_ok in *. cbn. rewrite Hn, Ht in *. cbn in *. rewrite u64_small; lia.
Qed.

Lemma run_version_complete run nodes run' : WorkflowRun_CompleteTermination run nodes = Ok run' →
  run_version_ok run → run_version_ok run' ∧ wr_stateVersion run < wr_stateVersion run'.
Proof.
  intros (t & target & Ht & Hk & _ & Hx & ->)%CompleteTermination_Ok Hv. unfold run_version_ok in *. cbn. rewrite Ht in *.
  assert (RunState_Terminal target = true ∧ RunState_Terminal (wr_state run) = false) as [Ha Hb].
  { rewrite !elem_of_cons, elem_of_nil in Hk. revert Hx. clear -Hk.
    destruct Hk as [[= _ ->]|[[= _ ->]|[[= _ ->]|[]]]]; destruct (wr_state run); done. }
  rewrite Ha, Hb in *. rewrite u64_small; lia.
Qed.

Lemma run_version_success run n nodes output run' n' : CompleteWorkflowSuccess run n nodes output = Ok (run', n') →
  run_version_ok run → run_version_ok run' ∧ wr_stateVersion run < wr_stateVersion run'.
Proof.
  intros (Hs & Ht & _ & _ & _ & _ & _ & -> & _)%CompleteWorkflowSuccess_Ok Hv. unfold run_version_ok in *. cbn.
  rewrite Hs, Ht in *. cbn in *. rewrite u64_small; lia.
Qed.

Lemma end_version run n nodes output run' n' : CompleteWorkflowSuccess run n nodes output = Ok (run', n') →
  0 ≤ nr_nextAttemptSeq n < 2 ^ 32 → node_version_ok n → nr_stateVersion n < nr_stateVersion n' ∧ node_version_ok n'.
Proof.
  intros (_ & _ & _ & Ha & Hs & _ & _ & _ & ->)%CompleteWorkflowSuccess_Ok Hq Hv.
  unfold node_version_ok, node_progress in *. rewrite Hs, Ha in Hv. cbn. rewrite u64_small; lia.
Qed.

(** ** The engine *)

(** Unchanged, or newer. *)
Definition grows (e e' : Engine) : Prop :=
  (∀ id n, en_nodes e !! id = Some n → ∃ n', en_nodes e' !! id = Some n' ∧ (n' = n ∨ nr_stateVersion n < nr_stateVersion n')) ∧
  (en_run e' = en_run e ∨ wr_stateVersion (en_run e) < wr_stateVersion (en_run e')).

#[export] Instance grows_refl : Reflexive grows.
Proof. intros e. split; [|by left]. intros id n Hn. exists n. auto. Qed.

#[export] Instance grows_trans : Transitive grows.
Proof.
  intros e1 e2 e3 [N1 R1] [N2 R2]. split.
  - intros id n Hn. destruct (N1 id n Hn) as (n2 & H2 & G2). destruct (N2 id n2 H2) as (n3 & H3 & G3).
    exists n3. split; [done|]. destruct G2 as [->|?], G3 as [->|?]; auto; right; lia.
  - destruct R1 as [E1|?], R2 as [E2|?]; [left; congruence|right..]; rewrite ?E2, <-?E1; lia.
Qed.

Section Versions.
Context (order : range_order) (c : Contract) {HC : EngineContract c} (command : CreateRunCommand).
Local Notation step := (engine_step order).
Local Notation inv := (engine_inv c command).

Lemma queue_below e id n aid n' x : inv e → en_nodes e !! id = Some n → node_apply (OpQueueAttempt aid) n = Ok n' → x = n →
  nr_nextAttemptSeq x < 2 ^ 32 - 1.
Proof.
  intros [Hs _ _ Hp Hb _] Hn H ->. destruct (node_apply_target _ _ _ H) as ((Hst & _ & _ & Hk) & _).
  destruct (Hb id n Hn Hk) as (B1 & B2 & B3). destruct (definition_policy c command e id n Hs Hp Hn) as (P1 & P2 & P3).
  rewrite Hst in B3. specialize (B3 I). destruct (sv_node _ _ _ Hs id n Hn) as (Hwf & _). rewrite (nwf_counts _ Hwf).
  case_bool_decide; rewrite u32_small; lia.
Qed.

(** What a step does to the one node it changes. *)
Lemma step_node_version e e' : inv e → version_inv e → step e e' →
  en_nodes e' = en_nodes e ∨ ∃ id n n', en_nodes e !! id = Some n ∧ en_nodes e' = <[id := n']> (en_nodes e) ∧
    (n' = n ∨ nr_stateVersion n < nr_stateVersion n' ∧ node_version_ok n').
Proof.
  intros Hi [Hv _ _] Hstep. pose proof Hi as [Hs _ _ _ _ _].
  assert (∀ id n op n', en_nodes e !! id = Some n → node_apply op n = Ok n' →
    n' = n ∨ nr_stateVersion n < nr_stateVersion n' ∧ node_version_ok n') as Hop.
  { intros id n op n' Hn H. eapply version_step; [apply (sv_node _ _ _ Hs id n Hn)|done| |by eapply Hv].
    intros [a ->]. by eapply queue_below. }
  destruct Hstep as
    [id n n' (Hn & Hp & _) _ _ H|id n n' (Hn & Hp & _) _ _ H|id n n' v (Hn & Hp & _) _ H|id n n' v r (Hn & Hp & _) _ _ _ H
    |id n v run' n' (Hn & Hp & _) _ _ H|id n n' op fl intent run' (Hn & Hp & _) Ho H _ _ Hr
    |id n n' aid result op intent run' (Hn & _) _ Ho H _ Hr|id n n' aid sq k a Hn _ Hnew H Ha
    |id n n' aid a a' Hn Ha Ho Hst H|id n aid a a' result Hn Ha Ho Hcur Hr H|id n n' aid result (Hn & _) _ _ H
    |id n n' aid result k due (Hn & _) _ _ H|id n n' at_ Hn _ H|intent run' _ Hr
    |id n n' intent settled Hn _ _ Haw H|run' H]; try step_op H; try (destruct settled); try (by left);
    right; exists id, n, n'; (split_and!; [done|done|]); try (by eapply Hop).
  right. eapply end_version; [done| |by eapply Hv]. apply seq_range, (sv_node _ _ _ Hs id n Hn).
Qed.

Lemma step_run_version e e' : inv e → version_inv e → step e e' →
  run_version_ok (en_run e') ∧ (en_run e' = en_run e ∨ wr_stateVersion (en_run e) < wr_stateVersion (en_run e')).
Proof.
  intros Hi [_ _ Hv] Hstep. destruct Hstep; try destruct settled; try (split; [done|by left]);
    cbn; match goal with
    | H : WorkflowRun_RequestTermination _ _ = Ok _ |- _ => apply run_version_request in H as [? ?]; [|done]
    | H : CompleteWorkflowSuccess _ _ _ _ = Ok _ |- _ => apply run_version_success in H as [? ?]; [|done]
    | H : WorkflowRun_CompleteTermination _ _ = Ok _ |- _ => apply run_version_complete in H as [? ?]; [|done]
    end; auto.
Qed.

Lemma step_attempt_version e e' : inv e → version_inv e → step e e' →
  ∀ id a, en_attempts e' !! id = Some a → attempt_version_ok a.
Proof.
  intros Hi [_ Hv _] Hstep.
  assert (∀ aid a op a', en_attempts e !! aid = Some a → attempt_apply op a = Ok a' → attempt_version_ok a') as Hop.
  { intros aid a op a' Ha H. eapply attempt_version_step; [|done|by eapply Hv].
    by destruct (av_attempt _ (ev_attempts _ _ _ Hi) aid a Ha) as (? & _). }
  destruct Hstep as
    [| | | | | | |id n n' aid sq k a Hn _ Hnew H Ha
    |id n n' aid a a' Hn Ha Ho Hst H|id n aid a a' result Hn Ha Ho Hcur Hr H| | | | | |]; try destruct settled; try exact Hv;
    intros x b; cbn; rewrite lookup_insert; case_decide; try apply Hv; intros [= <-].
  - unfold NewNodeAttempt in Ha. case_match; [done|]. by injection Ha as <-.
  - by eapply (Hop aid a OpStart).
  - by eapply (Hop aid a (OpComplete result)).
Qed.

Lemma version_inv_step e e' : inv e → version_inv e → step e e' → version_inv e' ∧ grows e e'.
Proof.
  intros Hi Hv Hstep. destruct (step_run_version e e' Hi Hv Hstep) as [Hr Hrun]. pose proof (step_attempt_version e e' Hi Hv Hstep) as Ha.
  destruct (step_node_version e e' Hi Hv Hstep) as [Heq|(id & n & n' & Hn & Heq & Hn')].
  - split; [constructor; [rewrite Heq; apply Hv|done|done]|]. split; [|done]. rewrite Heq. intros k m Hm. exists m. auto.
  - split.
    + constructor; [|done|done]. intros k m. rewrite Heq, lookup_insert. case_decide; [|by apply Hv]. intros [= <-].
      destruct Hn' as [->|[_ ?]]; [|done]. by eapply (vi_node _ Hv).
    + split; [|done]. rewrite Heq. intros k m Hm. rewrite lookup_insert. case_decide as Hk; [|by exists m; auto].
      subst k. assert (m = n) as -> by congruence. exists n'. split; [done|]. destruct Hn' as [->|[? _]]; auto.
Qed.

Lemma version_inv_steps e e' : inv e → version_inv e → rtc step e e' → version_inv e' ∧ grows e e'.
Proof.
  intros Hi Hv Hs. induction Hs as [e|e e1 e2 H1 _ IH]; [done|].
  destruct (version_inv_step e e1 Hi Hv H1) as [Hv1 G1]. destruct IH as [? ?]; [by eapply engine_inv_step|done|].
  split; [done|]. by etrans.
Qed.

Lemma started_versions e0 e : built c command e0 → started e0 e → version_inv e.
Proof.
  intros Hb Hs. pose proof (λ id m, started_nodes c command e0 e id m Hb Hs) as Hnodes.
  pose proof (started_static c command e0 e Hb Hs) as Hst.
  destruct Hs as (run & n & n1 & n2 & Hrun & Hn & Hact & Hsuc & ->). cbn zeta.
  destruct (bt_attempts _ _ _ Hb) as [Ha _]. constructor.
  - intros id m Hm. cbn in Hm. rewrite lookup_insert in Hm. case_decide as Hid.
    + injection Hm as <-. pose proof (bt_fresh _ _ _ Hb _ _ Hn) as Hf. destruct (fresh_facts _ _ _ Hf) as (Hwf & _ & _ & _ & Hp & Hna & _).
      assert (node_version_ok n) as Hv.
      { unfold fresh_node, NewNodeRun in Hf. case_match; [done|]. injection Hf as <-. done. }
      assert (node_wf n1 ∧ node_version_ok n1) as [Hw1 Hv1].
      { split; [by eapply (node_wf_step n OpActivate)|].
        destruct (version_step n OpActivate n1 Hwf Hact) as [->|[_ ?]]; [by intros [? ?]|done..]. }
      destruct (version_step n1 (OpSucceedControl "" {["workflow_input" := wr_workflowInput run]}) n2 Hw1 Hsuc) as [->|[_ ?]];
        [by intros [? ?]|done..].
    + pose proof (bt_fresh _ _ _ Hb _ _ Hm) as Hf. unfold fresh_node, NewNodeRun in Hf. case_match; [done|]. injection Hf as <-. done.
  - intros id a. cbn. rewrite Ha. by rewrite lookup_empty.
  - cbn. pose proof (NewWorkflowRun_Ok _ _ (bt_run _ _ _ Hb)) as (Hr0 & _).
    unfold WorkflowRun_Start in Hrun. apply bind_guard in Hrun as [_ Hrun]. apply bind_Ok in Hrun as (ids & _ & Hrun).
    apply bind_Ok in Hrun as (r & Hr & Heq). injection Heq as <-. apply WorkflowRun_transition_Ok in Hr as [_ ->].
    rewrite Hr0. unfold run_version_ok. cbn. by rewrite u64_small by lia.
Qed.

Lemma New_versions snapshot compat e : policies_ok (sn_DSL snapshot) → New order snapshot command c compat = Ok e → version_inv e.
Proof.
  intros Hp (e0 & e1 & Hb & Hd & Hs & Hdr)%New_started.
  assert (inv e1) as Hi by (eapply started_inv; eauto using clone_policies).
  assert (version_inv e1) as Hv by by eapply started_versions.
  replace e with (drive order 0 e1).1 by (by rewrite Hdr).
  apply (version_inv_steps e1); [done..|]. apply (drive_steps order c command); [done|]. intros _. by left.
Qed.

Lemma apply_versions op e : inv e → version_inv e →
  version_inv (engine_apply order op e).1 ∧ grows e (engine_apply order op e).1.
Proof. intros Hi Hv. apply version_inv_steps; [done..|]. by apply (engine_apply_steps order c command). Qed.

Lemma reachable_versions snapshot compat e :
  policies_ok (sn_DSL snapshot) → engine_reachable order c command snapshot compat e → version_inv e.
Proof.
  intros Hp Hr. induction Hr as [e He|e op He IH]; [by eapply New_versions|].
  apply apply_versions; [by eapply reachable_inv|done].
Qed.
End Versions.

Definition versions_positive (e : Engine) : Prop :=
  wr_stateVersion (en_run e) ≠ 0 ∧ (∀ id n, en_nodes e !! id = Some n → nr_stateVersion n ≠ 0) ∧
  (∀ id a, en_attempts e !! id = Some a → na_stateVersion a ≠ 0).

Lemma version_inv_positive e : version_inv e → versions_positive e.
Proof.
  intros [Hn Ha Hr]. unfold run_version_ok, node_version_ok, attempt_version_ok in *. split_and!.
  - rewrite Hr. destruct (wr_termination _), (RunState_Terminal _); lia.
  - intros id n H. pose proof (Hn id n H). lia.
  - intros id a H. pose proof (Ha id a H). lia.
Qed.
