(* ===== verification/EngineState.v ===== *)
(** * Persisting and restoring an engine

    Models internal/runtime/engine/state.go.  [SnapshotState] writes the run,
    its Node Runs and its Attempts; [Restore] builds an engine again from the
    immutable snapshot and those records, computing the edges from the finished
    nodes.  The lemmas prepare the theorem that an engine which is written and
    restored between any two operations cannot be told from one that stays in
    memory. *)

From S2P Require Import Prelude Json Graph Dsl Branch Runtime Engine.
From S2P Require Import EngineSteps EngineInv EngineFacts EngineInit EngineProgress EngineLive EngineVersions.

Open Scope string_scope.
Open Scope list_scope.
Open Scope Z_scope.

(** ** The persisted aggregate *)

Record State : Type := MkState {
  st_Run : WorkflowRunRecord;
  st_Nodes : list NodeRunRecord;
  st_Attempts : list NodeAttemptRecord }.

Definition SnapshotState (e : Engine) : State :=
  MkState (WorkflowRun_Snapshot (en_run e))
    (omap (λ id, NodeRun_Snapshot <$> en_nodes e !! id) (sortedNodeIDs e))
    (omap (λ id, NodeAttempt_Snapshot <$> en_attempts e !! id) (sorted_keys (en_attempts e))).

Section Restore.
Context (order : range_order).

(** A succeeded entry node whose outputs were not stored reads the input of
    the run again. *)
Definition entry_outputs (instance : Engine) (run : WorkflowRun) (record : NodeRunRecord) : NodeRunRecord :=
  if bool_decide (nrr_ExecutionNodeID record = dc_EntryNodeID (en_doc instance))
     && bool_decide (nrr_State record = NodeSucceeded) && bool_decide (size (nrr_EffectiveOutputs record) = 0%nat)
  then record <| nrr_EffectiveOutputs := {["workflow_input" := wr_workflowInput run]} |>
  else record.

Fixpoint restore_nodes (instance : Engine) (run : WorkflowRun) (records : list NodeRunRecord)
    (nodes : gmap string NodeRun) : res (gmap string NodeRun) :=
  match records with
  | [] => Ok nodes
  | record :: rest =>
      let id := nrr_ExecutionNodeID record in
      match en_nodeDefs instance !! id with
      | None => Err (Errorf "persisted node %q is absent from immutable DSL" [quote id])
      | Some definition =>
          guard_err (negb (bool_decide (nrr_RunID record = wr_id run))
                     || negb (bool_decide (nrr_Kind record = runtime_kind (nd_Kind definition))))
            (Errorf "persisted node %q identity or kind disagrees with immutable DSL" [quote id]) ;;
          node ← RestoreNodeRun (entry_outputs instance run record);
          guard_err (bool_decide (is_Some (nodes !! id))) (Errorf "persisted node %q is duplicated" [quote id]) ;;
          restore_nodes instance run rest (<[id := node]> nodes)
      end
  end.

(** The first node, in the order of the map, whose key the attempt names. *)
Definition attempt_owner_of (nodes : gmap string NodeRun) (record : NodeAttemptRecord) : string :=
  default "" (List.find (λ id,
      match nodes !! id with
      | Some node => bool_decide (nar_NodeRunID record = nr_runID node +:+ ":" +:+ nr_executionNodeID node)
      | None => false
      end) (order 0%nat (nar_ID record) (sorted_keys nodes))).

Fixpoint restore_attempts (nodes : gmap string NodeRun) (records : list NodeAttemptRecord)
    (acc : gmap string NodeAttempt * gmap string string) : res (gmap string NodeAttempt * gmap string string) :=
  match records with
  | [] => Ok acc
  | record :: rest =>
      attempt ← RestoreNodeAttempt record;
      let owner := attempt_owner_of nodes record in
      guard_err (bool_decide (owner = ""))
        (Errorf "attempt %q references an unknown node run" [quote (nar_ID record)]) ;;
      guard_err (bool_decide (is_Some (acc.1 !! nar_ID record)))
        (Errorf "persisted attempt %q is duplicated" [quote (nar_ID record)]) ;;
      restore_attempts nodes rest (<[nar_ID record := attempt]> acc.1, <[nar_ID record := owner]> acc.2)
  end.

Fixpoint check_current (nodes : gmap string NodeRun) (attempts : gmap string NodeAttempt)
    (owners : gmap string string) (ids : list string) : res unit :=
  match ids with
  | [] => Ok tt
  | id :: rest =>
      let current := from_option nr_currentAttemptID "" (nodes !! id) in
      guard_err (negb (bool_decide (current = ""))
                 && (negb (bool_decide (is_Some (attempts !! current)))
                     || negb (bool_decide (default "" (owners !! current) = id))))
        (Errorf "node %q current attempt is missing or belongs to another node" [quote id]) ;;
      check_current nodes attempts owners rest
  end.

(** The edges of the nodes that are finished. *)
Fixpoint resettle (ids : list string) : eng unit :=
  match ids with
  | [] => mret tt
  | id :: rest =>
      e ← get;
      match en_nodes e !! id with
      | None => fail nil_pointer
      | Some node =>
          (if terminal_node node then settleOutgoing id (nr_selectedRoute node) else mret tt) ;;
          resettle rest
      end
  end.

Definition Restore (snapshot : Snapshot) (state : State) (contract : Contract)
    (compatibility : CompatibilityChecker) : res Engine :=
  instance ← New order snapshot (record_command (st_Run state)) contract compatibility;
  run ← RestoreWorkflowRun (st_Run state);
  guard_err (negb (bool_decide (dr_SnapshotID (wr_definition run) = sn_ID snapshot))
             || negb (bool_decide (dr_DefinitionHash (wr_definition run) = sn_DefinitionHash snapshot)))
    (EngineError "RUNTIME_SNAPSHOT_BINDING_INVALID" "" "" None) ;;
  guard_err (negb (bool_decide (length (st_Nodes state) = size (en_nodeDefs instance))))
    (Errorf "persisted node set is incomplete" []) ;;
  nodes ← restore_nodes instance run (st_Nodes state) ∅;
  '(attempts, attemptNodes) ← restore_attempts nodes (st_Attempts state) (∅, ∅);
  check_current nodes attempts attemptNodes (order 1%nat "Restore" (sorted_keys nodes)) ;;
  let instance := instance <| en_run := run |> <| en_nodes := nodes |> <| en_attempts := attempts |>
                           <| en_attemptNodes := attemptNodes |>
                           <| en_edges := (λ _, EdgePending) <$> en_edges instance |> in
  let '(e, r) := resettle (sortedNodeIDs instance) instance in
  r ;; Ok e.
End Restore.

(** ** What no operation changes *)

(** The definitions an engine was built from. *)
Definition same_static (e e' : Engine) : Prop :=
  en_snapshot e' = en_snapshot e ∧ en_nodeDefs e' = en_nodeDefs e ∧
  en_incoming e' = en_incoming e ∧ en_outgoing e' = en_outgoing e.

(** Edge states are kept for the edges of the document. *)
Definition edges_known (e : Engine) : Prop :=
  ∀ k, is_Some (en_edges e !! k) → ∃ d, d ∈ dc_Edges (en_doc e) ∧ ed_ID d = k.

Lemma engine_step_static order e e' : engine_step order e e' → same_static e e'.
Proof. by destruct 1; try destruct settled. Qed.

Lemma engine_steps_static order e e' : rtc (engine_step order) e e' → same_static e e'.
Proof.
  induction 1 as [e|e e1 e2 H1 _ IH]; [done|]. apply engine_step_static in H1.
  unfold same_static in *. destruct H1 as (-> & -> & -> & ->) || destruct H1 as (? & ? & ? & ?); intuition congruence.
Qed.

Lemma settle_edges_known edges out st route k :
  is_Some (settle_edges edges out st route !! k) → is_Some (edges !! k) ∨ ∃ d, d ∈ out ∧ ed_ID d = k.
Proof.
  unfold settle_edges. revert edges. induction out as [|d out IH]; intros edges; simpl; [by left|].
  intros [H|(d' & ? & ?)]%IH; [|right; exists d'; split; [by right|done]].
  rewrite lookup_insert in H. case_decide; [|by left]. right. exists d. split; [by left|done].
Qed.

(** [resettle] and [cancel_nodes] change edges through [settle] only. *)
Lemma settle_known c command e id route : static_inv c command e → edges_known e → edges_known (settle id route e).
Proof.
  intros Hs Hk k. cbn. intros [?|(d & Hd & <-)]%settle_edges_known; [by apply Hk|].
  apply (sv_out _ _ _ Hs) in Hd as [Hd _]. by exists d.
Qed.

Lemma engine_step_known order c command e e' :
  static_inv c command e → edges_known e → engine_step order e e' → edges_known e'.
Proof.
  intros Hs Hk Hstep.
  assert (∀ id route n', static_inv c command e → edges_known (settle id route (set_node id n' e))) as Hset.
  { intros id route n' _ k. cbn. intros [?|(d & Hd & <-)]%settle_edges_known; [by apply Hk|].
    apply (sv_out _ _ _ Hs) in Hd as [Hd _]. by exists d. }
  destruct Hstep; try destruct settled; try exact Hk; by apply Hset.
Qed.

Section Reached.
Context (order : range_order) (c : Contract) {HC : EngineContract c} (command : CreateRunCommand).
Local Notation inv := (engine_inv c command).
Local Notation step := (engine_step order).

Lemma engine_steps_known e e' : inv e → edges_known e → rtc step e e' → edges_known e'.
Proof.
  intros Hi Hk Hs. induction Hs as [e|e e1 e2 H1 _ IH]; [done|].
  apply IH; [by eapply engine_inv_step|]. eapply engine_step_known; [apply (ev_static _ _ _ Hi)|done..].
Qed.

(** Every reachable engine comes from the one that [New] returned. *)
Lemma reachable_from snapshot compat e :
  policies_ok (sn_DSL snapshot) → engine_reachable order c command snapshot compat e →
  ∃ e0, New order snapshot command c compat = Ok e0 ∧ rtc step e0 e.
Proof.
  intros Hp Hr. induction Hr as [e He|e op He (e0 & H0 & H1)]; [by exists e|].
  exists e0. split; [done|]. etrans; [exact H1|].
  apply (engine_apply_steps order c command). by eapply reachable_inv.
Qed.

Lemma build_known snapshot compat e0 : build snapshot command c compat = Ok e0 → edges_known e0 ∧
  sn_ID (en_snapshot e0) = sn_ID snapshot ∧ dr_SnapshotID (cc_Definition command) = sn_ID snapshot ∧
  dr_DefinitionHash (cc_Definition command) = sn_DefinitionHash snapshot.
Proof.
  unfold build. intros H. apply bind_guard in H as [Hg H]. destruct (cloneDocument _) as [d|]; [|done].
  apply bind_Ok in H as (u1 & _ & H). apply bind_Ok in H as (u2 & _ & H). apply bind_Ok in H as (run & _ & H).
  apply bind_Ok in H as ([defs nodes] & _ & H). injection H as <-. bool_prop. split_and!; try done.
  intros k. cbn. set (m := fold_left _ _ _).
  assert (∀ l (m0 : gmap string EdgeState), is_Some (fold_left (λ m d, <[ed_ID d := EdgePending]> m) l m0 !! k) →
    is_Some (m0 !! k) ∨ ∃ d, d ∈ l ∧ ed_ID d = k) as Hl.
  { induction l as [|x l IH]; intros m0; simpl; [by left|]. intros [Hx|(y & ? & ?)]%IH; [|right; exists y; split; [by right|done]].
    rewrite lookup_insert in Hx. case_decide; [|by left]. right. exists x. split; [by left|done]. }
  intros [Hx|?]%Hl; [|done]. rewrite lookup_empty in Hx. by destruct Hx.
Qed.

Lemma New_known snapshot compat e : policies_ok (sn_DSL snapshot) → New order snapshot command c compat = Ok e →
  edges_known e ∧ dr_SnapshotID (cc_Definition command) = sn_ID snapshot ∧
  dr_DefinitionHash (cc_Definition command) = sn_DefinitionHash snapshot.
Proof.
  intros Hp H. unfold New in H. apply bind_Ok in H as (e0 & Hb & H).
  destruct (initialize order e0) as [e' r] eqn:Hi. apply bind_Ok in H as ([] & -> & [= ->]).
  destruct (build_known _ _ _ Hb) as (Hk & _ & ? & ?). apply build_built in Hb as [Hb Hd].
  apply initialize_started in Hi as (e1 & Hs & Hdr). split_and!; [|done..].
  assert (inv e1) as Hi1 by (eapply started_inv; eauto using clone_policies).
  apply (engine_steps_known e1); [done| |].
  - destruct Hs as (run & n & n1 & n2 & _ & _ & _ & _ & ->). cbn zeta. intros k. cbn.
    intros [Hx|(d & Hx & <-)]%settle_edges_known; [by apply Hk|].
    apply (bt_out _ _ _ Hb) in Hx as [Hx _]. by exists d.
  - replace e with (drive order 0 e1).1 by (by rewrite Hdr).
    apply (drive_steps order c command); [done|]. intros _. by left.
Qed.

End Reached.

(** ** What a database row keeps

    The outputs of a Node Run are stored with the attempt that made them; a
    control node stores none. *)

Definition loaded_node (n : NodeRun) : NodeRunRecord :=
  (NodeRun_Snapshot n) <| nrr_EffectiveOutputs := if bool_decide (nr_kind n = NodeTask) then nr_effectiveOutputs n else ∅ |>.

(** [record] stands for [n], with or without the outputs of a control node. *)
Definition node_record (n : NodeRun) (record : NodeRunRecord) : Prop :=
  record = NodeRun_Snapshot n ∨ record = loaded_node n.

(** The trace and the cancellation time are columns of the run. *)
Definition stamped (trace : string) (cancel : Time) (r : WorkflowRunRecord) : WorkflowRunRecord :=
  MkWorkflowRunRecord (rr_ID r) (rr_ProjectID r) (rr_WorkflowID r) trace (rr_Purpose r) (rr_Definition r)
    (rr_WorkflowInput r) (rr_WorkflowOutput r) (rr_DeadlineAt r) (rr_CreatedAt r) (rr_State r) (rr_StateVersion r)
    (rr_ExecutionNodeIDs r) (rr_Termination r) cancel.

(** The state of [e] as some store hands it out. *)
Record stores (e : Engine) (st : State) : Prop := {
  so_run : ∃ trace cancel, st_Run st = stamped trace cancel (WorkflowRun_Snapshot (en_run e));
  so_nodes : ∃ ids g, ids ≡ₚ sortedNodeIDs e ∧ (∀ n, node_record n (g n)) ∧
    st_Nodes st = omap (λ id, g <$> en_nodes e !! id) ids;
  so_attempts : ∃ ids, ids ≡ₚ sorted_keys (en_attempts e) ∧
    st_Attempts st = omap (λ id, NodeAttempt_Snapshot <$> en_attempts e !! id) ids }.

Lemma stores_SnapshotState e : stores e (SnapshotState e).
Proof.
  constructor.
  - by exists "", 0.
  - exists (sortedNodeIDs e), NodeRun_Snapshot. split_and!; [done| |done]. intros n. by left.
  - by exists (sorted_keys (en_attempts e)).
Qed.

(** Where outputs are, and which attempt made them. *)
Record output_inv (e : Engine) : Prop := {
  oi_nodes : ∀ id n, en_nodes e !! id = Some n → nr_effectiveOutputs n = ∅ ∨
    nr_state n = NodeSucceeded ∧ (id = dc_EntryNodeID (en_doc e) ∨ nr_kind n = NodeTask);
  oi_attempts : ∀ id n, en_nodes e !! id = Some n → nr_kind n = NodeTask → nr_state n = NodeSucceeded →
    ∃ a r, en_attempts e !! nr_effectiveAttemptID n = Some a ∧ na_result a = Some r ∧ ar_Outputs r = nr_effectiveOutputs n }.

Lemma op_outputs op n n' : node_apply op n = Ok n' →
  (n' = n ∨ NodeState_Terminal (nr_state n) = false) ∧
  match op with
  | OpSucceedControl _ o => nr_effectiveOutputs n' = o ∧ nr_kind n = NodeControl
  | OpSucceedAttempt a o => nr_effectiveOutputs n' = o ∧ nr_effectiveAttemptID n' = a ∧ nr_state n' = NodeSucceeded ∧ nr_kind n' = NodeTask
  | _ => nr_effectiveOutputs n' = nr_effectiveOutputs n ∧ (n' = n ∨ nr_state n' ≠ NodeSucceeded)
  end.
Proof.
  intros H. destruct (node_apply_target _ _ _ H) as (Ht & _ & Hn & _). split; [done|].
  assert (match op with OpSucceedControl _ o => nr_effectiveOutputs n' = o ∧ nr_kind n = NodeControl
    | OpSucceedAttempt a o => nr_effectiveOutputs n' = o ∧ nr_effectiveAttemptID n' = a ∧ nr_state n' = NodeSucceeded ∧ nr_kind n' = NodeTask
    | _ => nr_effectiveOutputs n' = nr_effectiveOutputs n end) as Hout.
  { clear Ht Hn. destruct op; node_op_inv H; try case_bool_decide; done. }
  destruct op; try done; (split; [done|]); try (right; destruct_and? Ht; congruence).
  - destruct Ht as [->|[_ ?]]; [by left|right; congruence].
  - destruct Ht as [<- Hf]. right. intros Hs. by rewrite Hs in Hf.
Qed.

Section Outputs.
Context (order : range_order) (c : Contract) {HC : EngineContract c} (command : CreateRunCommand).
Local Notation inv := (engine_inv c command).
Local Notation step := (engine_step order).

(** Results stay with their attempts. *)
Lemma step_results e e' aid a r : inv e → step e e' → en_attempts e !! aid = Some a → na_result a = Some r →
  en_attempts e' !! aid = Some a.
Proof.
  intros [_ _ Hatt _ _ _] Hstep Ha Hr.
  assert (AttemptState_Terminal (na_state a) = true) as Ht.
  { destruct (av_attempt _ Hatt aid a Ha) as (Hwf & _). pose proof (awf_result _ Hwf) as Hw. rewrite Hr in Hw. by destruct Hw. }
  destruct Hstep as
    [| | | | | | |id n n' aid' sq k b Hn _ Hnew H Hb
    |id n n' aid' b b' Hn Hb Ho Hst H|id n aid' b b' result Hn Hb Ho Hcur Hr' H| | | | | |]; try destruct settled; try exact Ha;
    cbn; rewrite lookup_insert; case_decide; try exact Ha; subst aid'; [congruence|..];
    assert (b = a) as -> by congruence.
  - destruct (attempt_apply_identity OpStart _ _ Hst) as (_ & _ & Hq & _). by rewrite Hq in Ht.
  - congruence.
Qed.

Lemma output_node e e' id n n' : output_inv e → en_nodes e !! id = Some n → en_doc e' = en_doc e →
  en_nodes e' = <[id := n']> (en_nodes e) →
  (∀ aid a r, en_attempts e !! aid = Some a → na_result a = Some r → en_attempts e' !! aid = Some a) →
  nr_effectiveOutputs n' = ∅ ∨ nr_state n' = NodeSucceeded ∧ (id = dc_EntryNodeID (en_doc e) ∨ nr_kind n' = NodeTask) →
  (nr_kind n' = NodeTask → nr_state n' = NodeSucceeded → n' = n ∨
   ∃ a r, en_attempts e !! nr_effectiveAttemptID n' = Some a ∧ na_result a = Some r ∧ ar_Outputs r = nr_effectiveOutputs n') →
  output_inv e'.
Proof.
  intros [H1 H2] Hn Hd Hnodes Hatt Ho Ha. constructor; rewrite ?Hd; intros k m Hm; rewrite Hnodes, lookup_insert in Hm; case_decide as Hk.
  - subst k. by injection Hm as <-.
  - by apply H1.
  - subst k. injection Hm as <-. intros Hkd Hst. destruct (Ha Hkd Hst) as [->|(a & r & Hx & Hr & Ho')].
    + destruct (H2 id n Hn Hkd Hst) as (a & r & Hx & Hr & Ho'). exists a, r. eauto.
    + exists a, r. eauto.
  - intros Hkd Hst. destruct (H2 k m Hm Hkd Hst) as (a & r & Hx & Hr & Ho'). exists a, r. eauto.
Qed.

Lemma output_op e e' id n op n' : inv e → output_inv e → step e e' → en_nodes e !! id = Some n → node_apply op n = Ok n' →
  en_nodes e' = <[id := n']> (en_nodes e) →
  match op with OpSucceedControl _ o => o = ∅ | OpSucceedAttempt a o => ∃ r, completed e id n a r ∧ ar_Outputs r = o | _ => True end →
  output_inv e'.
Proof.
  intros Hi Ho Hstep Hn H Hnodes Hop. destruct (op_outputs _ _ _ H) as [Hnt Hout].
  assert (n' = n ∨ nr_effectiveOutputs n = ∅) as He.
  { destruct Hnt as [->|Hnt]; [by left|right]. destruct (oi_nodes _ Ho id n Hn) as [?|[Hs _]]; [done|]. by rewrite Hs in Hnt. }
  destruct He as [->|He].
  { destruct (oi_nodes _ Ho id n Hn) as [?|[? ?]];
    (eapply (output_node e e' id n n); [done|done|by eapply engine_step_doc|done|eauto using step_results|auto|by left]). }
  destruct (node_apply_identity _ _ _ H) as (_ & _ & Hk).
  eapply (output_node e e' id n n'); [done|done|by eapply engine_step_doc|done|eauto using step_results| |].
  - destruct op; try (destruct Hout as [Hx _]; left; congruence).
    right. destruct Hout as (_ & _ & ? & ?). auto.
  - intros Hkd Hst. destruct op; try (destruct Hout as [_ [->|?]]; [by left|done]).
    + destruct Hout as [_ ?]. congruence.
    + destruct Hop as (r & (_ & _ & _ & a & Ha & Hr) & Hro). destruct Hout as (Hx & Hy & _). right. exists a, r.
      rewrite Hy. split_and!; [done|done|congruence].
Qed.

Lemma output_step e e' : inv e → output_inv e → step e e' → output_inv e'.
Proof.
  intros Hi Ho Hstep. pose proof Hstep as Hstep'. destruct Hstep as
    [id n n' (Hn & Hp & _) _ _ H|id n n' (Hn & Hp & _) _ _ H|id n n' v (Hn & Hp & _) _ H|id n n' v r (Hn & Hp & _) _ _ _ H
    |id n v run' n' (Hn & Hp & _) _ _ H|id n n' op fl intent run' (Hn & Hp & _) Hop H _ _ Hr
    |id n n' aid result op intent run' (Hn & _) _ Hop H _ Hr|id n n' aid sq k a Hn _ Hnew H Ha
    |id n n' aid a a' Hn Ha Hw Hst H|id n aid a a' result Hn Ha Hw Hcur Hr H|id n n' aid result Hc _ Hv H
    |id n n' aid result k due (Hn & _) _ Hk H|id n n' at_ Hn _ H|intent run' _ Hr
    |id n n' intent settled Hn _ _ Haw H|run' H]; try step_op H; try (destruct settled);
    try (by eapply (output_op e _ id n)).
  - apply CompleteWorkflowSuccess_Ok in H as (_ & _ & Hk & _ & Hst & _ & _ & _ & ->).
    eapply (output_node e _ id n); [done|done|done|done|by eauto using step_results| |cbn; congruence].
    left. cbn. destruct (oi_nodes _ Ho id n Hn) as [?|[? _]]; [done|congruence].
  - eapply (output_op e _ id n op); [done..|]. by destruct Hop as [-> | ->].
  - eapply (output_op e _ id n op); [done..|]. by destruct Hop as [->|(? & ? & ->)].
  - destruct Ho as [H1 H2]. constructor; [exact H1|]. intros k m Hm Hk Hst.
    destruct (H2 k m Hm Hk Hst) as (b & r & Hb & Hbr & Hbo). exists b, r. split_and!; [|done..]. by eapply step_results.
  - pose proof Hc as (Hn & _). eapply (output_op e _ id n (OpSucceedAttempt aid (ar_Outputs result))); [done..|]. by exists result.
  - by destruct Ho.
  - by destruct Ho.
Qed.

Lemma output_steps e e' : inv e → output_inv e → rtc step e e' → output_inv e'.
Proof. intros Hi Ho Hs. induction Hs; eauto using output_step, engine_inv_step. Qed.

Lemma started_outputs e0 e : built c command e0 → started e0 e → output_inv e.
Proof.
  intros Hb Hs. pose proof (λ id m, started_nodes c command e0 e id m Hb Hs) as Hnodes. constructor; intros id n Hn.
  - destruct (Hnodes id n Hn) as [(-> & ? & _)|(_ & Hf)]; [by auto|]. left.
    unfold fresh_node, NewNodeRun in Hf. case_match; [done|]. by injection Hf as <-.
  - intros Hk Hst. destruct (Hnodes id n Hn) as [(_ & _ & ? & _)|(_ & (_ & _ & _ & _ & ? & _)%fresh_facts)]; congruence.
Qed.

Lemma reachable_outputs snapshot compat e :
  policies_ok (sn_DSL snapshot) → engine_reachable order c command snapshot compat e → output_inv e.
Proof.
  intros Hp Hr. destruct (reachable_from order c command snapshot compat e Hp Hr) as (e0 & Hnew & Hsteps).
  eapply output_steps; [by eapply New_inv| |done].
  apply New_started in Hnew as (eb & e1 & Hb & Hd & Hs & Hdr).
  assert (inv e1) as Hi by (eapply started_inv; eauto using clone_policies).
  eapply (output_steps e1); [done|by eapply started_outputs|].
  replace e0 with (drive order 0 e1).1 by (by rewrite Hdr). apply (drive_steps order c command); [done|]. intros _. by left.
Qed.
End Outputs.

(** ** Writing and reading back maps *)

(** The entries of [m] under [ids], added to [acc]. *)
Definition collect {A} (m : gmap string A) (ids : list string) (acc : gmap string A) : gmap string A :=
  fold_left (λ r id, match m !! id with Some x => <[id := x]> r | None => r end) ids acc.

Lemma collect_lookup {A} (m : gmap string A) ids acc k :
  collect m ids acc !! k = (if decide (k ∈ ids) then m !! k else None) ∪ acc !! k.
Proof.
  unfold collect. revert acc. induction ids as [|id ids IH]; intros acc; cbn [fold_left].
  - rewrite decide_False by apply not_elem_of_nil. by rewrite (left_id_L None (∪)).
  - rewrite IH. clear IH. destruct (decide (k = id)) as [->|Hne].
    + rewrite (decide_True (P := id ∈ id :: ids)) by by left. destruct (m !! id) as [x|] eqn:Hx.
      * rewrite lookup_insert_eq. case_decide; by destruct (acc !! id).
      * by case_decide.
    + assert ((if decide (k ∈ id :: ids) then m !! k else None) = (if decide (k ∈ ids) then m !! k else None)) as ->.
      { apply decide_ext. rewrite elem_of_cons. tauto. }
      destruct (m !! id) as [x|] eqn:Hx; [by rewrite lookup_insert_ne by done|done].
Qed.

Lemma collect_all {A} (m : gmap string A) ids : (∀ k, k ∈ ids ↔ is_Some (m !! k)) → collect m ids ∅ = m.
Proof.
  intros Hids. apply map_eq. intros k. rewrite collect_lookup, lookup_empty, (right_id_L None (∪)).
  case_decide as H; [done|]. destruct (m !! k) as [x|] eqn:Hk; [|done]. destruct H. apply Hids. by eexists.
Qed.

Lemma length_omap_all {A B} (f : A → option B) l : (∀ x, x ∈ l → is_Some (f x)) → length (omap f l) = length l.
Proof.
  induction l as [|x l IH]; intros Hl; [done|]. cbn. destruct (Hl x) as [y ->]; [by left|]. cbn. f_equal.
  apply IH. intros z ?. apply Hl. by right.
Qed.

(** What a loop that inserts fresh keys keeps of its remaining keys. *)
Lemma insert_fresh {A} (acc : gmap string A) id x ids :
  NoDup (id :: ids) → (∀ k, k ∈ id :: ids → acc !! k = None) → ∀ k, k ∈ ids → <[id := x]> acc !! k = None.
Proof.
  intros [Hid _]%NoDup_cons Hacc k Hk. rewrite lookup_insert_ne by (by intros ->). apply Hacc. by right.
Qed.

(** The state [Restore] gives an edge: what its finished source did. *)
Definition projected_edge (n : NodeRun) (d : Edge) : EdgeState :=
  if terminal_node n then edge_state_for (nr_state n) (nr_selectedRoute n) (ed_Activation d) else EdgePending.

Section RoundTrip.
Context (order : range_order) (c : Contract) {HC : EngineContract c} (command : CreateRunCommand).
Local Notation inv := (engine_inv c command).

(** The stored record of a node reads back as the node's own. *)
Lemma entry_outputs_record instance e id n record :
  inv e → control_inv order command e → output_inv e → en_snapshot instance = en_snapshot e →
  en_nodes e !! id = Some n → node_record n record → entry_outputs instance (en_run e) record = NodeRun_Snapshot n.
Proof.
  intros Hi Hctl Hout Hsn Hn Hr. pose proof Hi as [Hs Hf _ _ _ _].
  destruct (sv_node _ _ _ Hs id n Hn) as (_ & Hnid & _). unfold entry_outputs.
  assert (en_doc instance = en_doc e) as -> by (unfold en_doc; by rewrite Hsn).
  assert (nrr_ExecutionNodeID record = id ∧ nrr_State record = nr_state n) as [-> ->] by (by destruct Hr as [-> | ->]).
  destruct (decide (id = dc_EntryNodeID (en_doc e))) as [->|Hne].
  - rewrite (bool_decide_eq_true_2 _ eq_refl). cbn [andb].
    destruct (cv_entry _ _ _ Hctl) as (m & Hm & Ho). assert (m = n) as -> by congruence.
    destruct (fv_entry _ Hf) as (m & Hm' & Hst). assert (m = n) as -> by congruence.
    rewrite (bool_decide_eq_true_2 _ Hst). cbn [andb].
    assert (wr_workflowInput (en_run e) = cc_WorkflowInput command) as Hin.
    { pose proof (sv_run _ _ _ Hs) as Hrun. apply rwf_origin, NewWorkflowRun_Ok in Hrun as (Heq & _).
      by apply (f_equal wr_workflowInput) in Heq. }
    case_bool_decide as Hsz.
    + destruct Hr as [-> | ->]; cbn in *; [rewrite Ho, map_size_singleton in Hsz; done|].
      destruct n; unfold NodeRun_Snapshot; cbn in *. by rewrite Hin, Ho.
    + destruct Hr as [-> | ->]; [done|]. cbn in *.
      case_bool_decide as Hk; [|by rewrite map_size_empty in Hsz].
      unfold loaded_node. rewrite (bool_decide_eq_true_2 _ Hk). by destruct n.
  - rewrite (bool_decide_eq_false_2 _ Hne). cbn [andb]. destruct Hr as [-> | ->]; [done|]. unfold loaded_node.
    case_bool_decide as Hk; [by destruct n|]. destruct (oi_nodes _ Hout id n Hn) as [Ho|[_ [?|?]]]; [|done..].
    destruct n; unfold NodeRun_Snapshot; cbn in *. by rewrite Ho.
Qed.

Lemma restore_nodes_snapshot instance e g ids acc :
  inv e → control_inv order command e → output_inv e → same_static e instance → versions_positive e →
  (∀ n, node_record n (g n)) → NoDup ids → (∀ id, id ∈ ids → acc !! id = None) →
  restore_nodes instance (en_run e) (omap (λ id, g <$> en_nodes e !! id) ids) acc =
  Ok (collect (en_nodes e) ids acc).
Proof.
  intros Hi Hctl Hout (Hsn & Hdefs & _) (_ & Hv & _) Hg. revert acc. induction ids as [|id ids IH]; intros acc Hnd Hacc; [done|].
  pose proof (insert_fresh acc id) as Hfresh. pose proof Hnd as [Hid Hnd']%NoDup_cons.
  cbn [omap list_omap collect fold_left]. destruct (en_nodes e !! id) as [n|] eqn:Hn; cbn [fmap option_fmap option_map].
  2:{ apply IH; [done|]. intros k Hk. apply Hacc. by right. }
  pose proof Hi as [Hs _ _ _ _ _]. destruct (sv_node _ _ _ Hs id n Hn) as (Hwf & Hnid & Hrun & Hkind).
  assert (nrr_ExecutionNodeID (g n) = id ∧ nrr_RunID (g n) = wr_id (en_run e) ∧ nrr_Kind (g n) = nr_kind n) as (Gid & Grun & Gkind)
    by (by destruct (Hg n) as [-> | ->]).
  cbn [restore_nodes]. rewrite Gid, Grun, Gkind, Hdefs.
  assert (is_Some (en_nodeDefs e !! id)) as [d Hd] by (apply (sv_nodes _ _ _ Hs); eauto). rewrite Hd.
  unfold definition_of in Hkind. rewrite Hd in Hkind. cbn in Hkind.
  rewrite guard_passes by by rewrite (bool_decide_eq_true_2 _ eq_refl), (bool_decide_eq_true_2 _ Hkind).
  rewrite (res_bind_Ok _ _ n).
  2:{ rewrite (entry_outputs_record instance e id n (g n)) by done. apply RestoreNodeRun_Snapshot; eauto. }
  rewrite guard_passes by (rewrite (Hacc id) by (by left); done). apply IH; [done|]. by apply Hfresh.
Qed.

Lemma attempt_owner_found e aid a id :
  inv e → en_attempts e !! aid = Some a → en_attemptNodes e !! aid = Some id →
  attempt_owner_of order (en_nodes e) (NodeAttempt_Snapshot a) = id ∧ id ≠ "".
Proof.
  intros Hi Ha Ho. pose proof Hi as [Hs _ Hatt _ _ _].
  destruct (av_attempt _ Hatt aid a Ha) as (Hwf & Hid & k & n & Ho' & Hn & Hkey).
  assert (k = id) as -> by congruence. destruct (sv_node _ _ _ Hs id n Hn) as (Hnwf & Hnid & Hrun & _).
  destruct (nwf_ids _ Hnwf) as [_ Hne]. split; [|congruence].
  unfold attempt_owner_of. set (test := λ id, _).
  assert (∀ k, test k = true ↔ k = id) as Htest.
  { intros k. subst test. cbn. destruct (en_nodes e !! k) as [m|] eqn:Hm.
    - destruct (sv_node _ _ _ Hs k m Hm) as (_ & Hmid & Hmrun & _).
      rewrite bool_decide_eq_true, Hkey. unfold ExecutionIdempotencyKey. rewrite Hmid, Hmrun, Hnid, Hrun.
      split; [|by intros ->]. intros Heq. symmetry. by repeat apply (inj (String.append _)) in Heq.
    - split; [done|]. intros ->. congruence. }
  destruct (List.find test _) as [k|] eqn:Hf.
  - apply find_some in Hf as [_ Hf]. by apply Htest.
  - assert (test id = false) as Hx; [|by rewrite (proj2 (Htest id) eq_refl) in Hx].
    apply (find_none test _ Hf). apply list_elem_of_In. rewrite (range_perm_ok order).
    apply elem_of_sorted_keys. eauto.
Qed.

Lemma restore_attempts_snapshot e ids acc :
  inv e → versions_positive e → NoDup ids → (∀ id, id ∈ ids → acc.1 !! id = None) →
  restore_attempts order (en_nodes e) (omap (λ id, NodeAttempt_Snapshot <$> en_attempts e !! id) ids) acc =
  Ok (collect (en_attempts e) ids acc.1, collect (en_attemptNodes e) ids acc.2).
Proof.
  intros Hi (_ & _ & Hv). pose proof Hi as [_ _ Hatt _ _ _]. revert acc.
  induction ids as [|id ids IH]; intros [acc1 acc2] Hnd Hacc; [done|].
  pose proof (insert_fresh acc1 id) as Hfresh. pose proof Hnd as [Hid Hnd']%NoDup_cons.
  cbn [omap list_omap collect fold_left fst snd]. destruct (en_attempts e !! id) as [a|] eqn:Ha; cbn [fmap option_fmap option_map].
  2:{ assert (en_attemptNodes e !! id = None) as ->.
      { destruct (en_attemptNodes e !! id) eqn:Ho; [|done]. apply (av_owner _ Hatt) in Ho. rewrite Ha in Ho. by destruct Ho. }
      apply (IH (acc1, acc2)); [done|]. intros k Hk. apply (Hacc k). by right. }
  destruct (av_attempt _ Hatt id a Ha) as (Hwf & Haid & k & n & Ho & _). rewrite Ho.
  destruct (attempt_owner_found e id a k Hi Ha Ho) as [Hown Hne].
  cbn [restore_attempts]. rewrite (res_bind_Ok _ _ a) by (apply RestoreNodeAttempt_Snapshot; eauto).
  rewrite Hown. rewrite guard_passes by by apply bool_decide_eq_false.
  cbn [NodeAttempt_Snapshot nar_ID fst snd]. rewrite Haid.
  rewrite guard_passes by (pose proof (Hacc id) as Hx; cbn in Hx; rewrite Hx by (by left); done).
  apply (IH (_, _)); [done|]. by apply Hfresh.
Qed.

Lemma collect_owners e ids : inv e → ids ≡ₚ sorted_keys (en_attempts e) →
  collect (en_attemptNodes e) ids ∅ = en_attemptNodes e.
Proof.
  intros [_ _ Hatt _ _ _] Hids. apply collect_all. intros k. rewrite Hids, elem_of_sorted_keys. split.
  - intros [a Ha]. destruct (av_attempt _ Hatt k a Ha) as (_ & _ & id & n & -> & _). eauto.
  - intros [id Ho]. by eapply (av_owner _ Hatt).
Qed.

Lemma check_current_passes e ids : inv e → check_current (en_nodes e) (en_attempts e) (en_attemptNodes e) ids = Ok tt.
Proof.
  intros [_ _ Hatt _ _ _]. induction ids as [|id ids IH]; [done|]. cbn [check_current].
  rewrite guard_passes; [done|]. destruct (en_nodes e !! id) as [n|] eqn:Hn; [|done]. cbn.
  case_bool_decide as Hc; [done|]. destruct (av_current _ Hatt id n Hn Hc) as (a & Ha & Ho & _).
  rewrite Ha, Ho. cbn. by rewrite bool_decide_eq_true_2.
Qed.

(** Restoring the edges touches nothing else. *)
Lemma resettle_gives e ids : inv e → ∀ edges,
  (∀ k, is_Some (edges !! k) → is_Some (en_edges e !! k)) → (∀ id, id ∈ ids → is_Some (en_nodes e !! id)) →
  ∃ edges', resettle ids (e <| en_edges := edges |>) = (e <| en_edges := edges' |>, Ok tt) ∧
    (∀ k, is_Some (edges' !! k) → is_Some (en_edges e !! k)) ∧
    (∀ d n, d ∈ dc_Edges (en_doc e) → en_nodes e !! ed_SourceNodeID d = Some n →
       edges' !! ed_ID d = if decide (ed_SourceNodeID d ∈ ids ∧ terminal_node n = true)
                           then Some (projected_edge n d) else edges !! ed_ID d).
Proof.
  intros Hi. pose proof Hi as [Hs Hf _ _ _ _]. induction ids as [|id ids IH]; intros edges Hk Hids.
  { exists edges. split_and!; [done|done|]. intros d n _ _. rewrite decide_False; [done|]. by intros [?%not_elem_of_nil _]. }
  destruct (Hids id) as [n Hn]; [by left|].
  set (edges1 := if terminal_node n then settle_edges edges (outgoing_of e id) (nr_state n) (nr_selectedRoute n) else edges).
  destruct (IH edges1) as (edges' & Heq & Hk' & Hl).
  { intros k. subst edges1. destruct (terminal_node n); [|by apply Hk].
    intros [?|(d & Hd & <-)]%settle_edges_known; [by apply Hk|]. apply (sv_out _ _ _ Hs) in Hd as [Hd _].
    destruct (edge_source c command e d Hs Hd) as (m & Hm & _). destruct (fv_edge _ Hf d m Hd Hm) as (st & -> & _). eauto. }
  { intros k Hk'. apply Hids. by right. }
  exists edges'. split_and!; [|done|].
  - rewrite <-Heq. cbn [resettle]. unfold mbind at 1, eng_bind at 1, get. cbn. rewrite Hn.
    subst edges1. destruct (terminal_node n) eqn:Ht; [|done].
    unfold mbind, eng_bind. rewrite (settleOutgoing_settle id _ _ n) by done. unfold settle, node_state. cbn. by rewrite Hn.
  - intros d m Hd Hm. rewrite (Hl d m Hd Hm). destruct (decide (ed_SourceNodeID d = id)) as [Hid|Hid].
    + assert (m = n) as -> by congruence. destruct (terminal_node n) eqn:Ht.
      * rewrite (decide_True (P := ed_SourceNodeID d ∈ id :: ids ∧ _)) by (split; [rewrite Hid; by left|done]).
        case_decide; [done|]. subst edges1.
        change edges with (en_edges (e <| en_edges := edges |>)). change (outgoing_of e id) with (outgoing_of (e <| en_edges := edges |>) id).
        rewrite (settle_lookup c command) by (by destruct Hs). rewrite decide_True by done. unfold projected_edge. by rewrite Ht.
      * rewrite !decide_False by (by intros [_ ?]). done.
    + assert (edges1 !! ed_ID d = edges !! ed_ID d) as ->.
      { subst edges1. destruct (terminal_node n); [|done].
        change edges with (en_edges (e <| en_edges := edges |>)) at 1. change (outgoing_of e id) with (outgoing_of (e <| en_edges := edges |>) id).
        rewrite (settle_lookup c command) by (by destruct Hs). by rewrite decide_False by done. }
      apply decide_ext. rewrite elem_of_cons. tauto.
Qed.

(** Two engines that differ in their edges only, and in none when the run is
    not terminating. *)
Definition edgeless (e e' : Engine) : Prop :=
  e' = e <| en_edges := en_edges e' |> ∧ (wr_termination (en_run e) = None → e' = e).

Lemma Restore_stored snapshot compat e st :
  policies_ok (sn_DSL snapshot) → engine_reachable order c command snapshot compat e → stores e st →
  ∃ e', Restore order snapshot st c compat = Ok e' ∧ edgeless e e' ∧
    ∀ d n, d ∈ dc_Edges (en_doc e) → en_nodes e !! ed_SourceNodeID d = Some n →
      en_edges e' !! ed_ID d = Some (projected_edge n d).
Proof.
  intros Hp Hr Hst. pose proof (reachable_outputs order c command snapshot compat e Hp Hr) as Houts.
  pose proof (version_inv_positive e (reachable_versions order c command snapshot compat e Hp Hr)) as Hv. pose proof Hv as (Hv1 & _).
  destruct (reachable_rest order c command snapshot compat e Hp Hr) as (Hi & Hctl & _).
  destruct (reachable_from order c command snapshot compat e Hp Hr) as (e0 & Hnew & Hsteps).
  destruct (New_known order c command snapshot compat e0 Hp Hnew) as (Hk0 & Hid & Hhash).
  assert (inv e0) as Hi0 by by eapply New_inv.
  pose proof (engine_steps_known order c command e0 e Hi0 Hk0 Hsteps) as Hk.
  pose proof (engine_steps_static _ _ _ Hsteps) as (Hsn & Hdefs & Hin & Hout).
  pose proof Hi as [Hs Hf _ _ _ _]. pose proof Hi0 as [Hs0 Hf0 _ _ _ _].
  pose proof (sv_run _ _ _ Hs) as Hrun.
  destruct st as [st_run st_nodes st_attempts]. destruct Hst as [(trace & cancel & Erun) (ids & g & Hids & Hg & Enodes) (aids & Haids & Eatts)].
  cbn in Erun, Enodes, Eatts. subst st_run st_nodes st_attempts. unfold Restore. cbn [st_Run st_Nodes st_Attempts].
  change (record_command (stamped _ _ ?r)) with (record_command r). change (RestoreWorkflowRun (stamped _ _ ?r)) with (RestoreWorkflowRun r).
  rewrite (run_wf_command _ _ Hrun), (res_bind_Ok _ _ e0 Hnew).
  rewrite (res_bind_Ok _ _ (en_run e)) by by apply (RestoreWorkflowRun_Snapshot command).
  assert (wr_definition (en_run e) = cc_Definition command) as Hdef.
  { apply rwf_origin, NewWorkflowRun_Ok in Hrun as (Heq & _). by apply (f_equal wr_definition) in Heq. }
  rewrite guard_passes by by rewrite Hdef, (bool_decide_eq_true_2 _ Hid), (bool_decide_eq_true_2 _ Hhash).
  assert (∀ id, id ∈ ids ↔ is_Some (en_nodes e !! id)) as Hdom.
  { intros id. rewrite Hids. apply elem_of_sorted_keys. }
  assert (length (omap (λ id, g <$> en_nodes e !! id) ids) = size (en_nodeDefs e0)) as Hlen.
  { rewrite length_omap_all by (intros id ?; by apply fmap_is_Some, Hdom). rewrite Hids. unfold sortedNodeIDs.
    rewrite length_sorted_keys, <-!size_dom. f_equal. apply set_eq. intros k. rewrite !elem_of_dom, <-Hdefs. apply (sv_nodes _ _ _ Hs). }
  rewrite guard_passes by by rewrite (bool_decide_eq_true_2 _ Hlen).
  rewrite (res_bind_Ok _ _ (en_nodes e)).
  2:{ rewrite restore_nodes_snapshot; [f_equal; by apply collect_all|done..|rewrite Hids; apply NoDup_sorted_keys|].
      intros. apply lookup_empty. }
  rewrite (res_bind_Ok _ _ (en_attempts e, en_attemptNodes e)).
  2:{ rewrite restore_attempts_snapshot; [|done|done|rewrite Haids; apply NoDup_sorted_keys|intros; apply lookup_empty].
      cbn [fst snd]. rewrite collect_all by (intros id; rewrite Haids; apply elem_of_sorted_keys). by rewrite collect_owners. }
  rewrite (res_bind_Ok _ _ tt) by by apply check_current_passes.
  set (pending := (λ _, EdgePending) <$> en_edges e0). set (e1 := _ <| en_edges := pending |>).
  assert (e1 = e <| en_edges := pending |>) as ->.
  { subst e1. destruct e, e0; cbn in *. by subst. }
  change (sortedNodeIDs (e <| en_edges := pending |>)) with (sortedNodeIDs e).
  assert (∀ k, is_Some (en_edges e0 !! k) → is_Some (en_edges e !! k)) as Hsub.
  { intros k (d & Hd & <-)%Hk0. assert (en_doc e0 = en_doc e) as Hdoc by (unfold en_doc; by rewrite Hsn). rewrite Hdoc in Hd.
    destruct (edge_source c command e d Hs Hd) as (n & Hn & _). destruct (fv_edge _ Hf d n Hd Hn) as (st & -> & _). eauto. }
  destruct (resettle_gives e (sortedNodeIDs e) Hi pending) as (edges & Heq & Hsub' & Hl).
  { intros k. subst pending. rewrite lookup_fmap, fmap_is_Some. apply Hsub. }
  { intros id. apply elem_of_sorted_keys. }
  rewrite Heq. cbn. exists (e <| en_edges := edges |>). split; [done|].
  assert (∀ d n, d ∈ dc_Edges (en_doc e) → en_nodes e !! ed_SourceNodeID d = Some n →
    edges !! ed_ID d = Some (projected_edge n d)) as Hproj.
  { intros d n Hd Hn. rewrite (Hl d n Hd Hn). case_decide as Ht; [done|]. subst pending. rewrite lookup_fmap.
    assert (d ∈ dc_Edges (en_doc e0)) as Hd0 by (unfold en_doc in *; by rewrite <-Hsn).
    destruct (edge_source c command e0 d Hs0 Hd0) as (n0 & Hn0 & _).
    destruct (fv_edge _ Hf0 d n0 Hd0 Hn0) as (st & -> & _). cbn. f_equal. unfold projected_edge.
    destruct (terminal_node n) eqn:Htn; [|done]. destruct Ht. split; [|done]. apply elem_of_sorted_keys. eauto. }
  split_and!; [|done]. split; [done|]. intros Hterm.
  assert (edges = en_edges e) as ->; [|by destruct e]. apply map_eq. intros k.
  destruct (en_edges e !! k) as [st|] eqn:Hst.
  - destruct (Hk k) as (d & Hd & <-); [by eauto|]. destruct (edge_source c command e d Hs Hd) as (n & Hn & _).
    rewrite (Hproj d n Hd Hn). destruct (fv_edge _ Hf d n Hd Hn) as (st' & Hst' & Hok).
    assert (st' = st) as -> by congruence. f_equal. pose proof (fv_fail_fast _ Hf _ n Hn) as Hff. rewrite Hterm in Hff.
    destruct (sv_node _ _ _ Hs _ n Hn) as (Hwf & _). pose proof (nwf_facts _ Hwf) as Hfacts.
    unfold edge_ok in Hok. unfold projected_edge, terminal_node, failed_state, node_state_facts in *.
    destruct (nr_state n); cbn in *; try done; by destruct (Hff eq_refl).
  - destruct (edges !! k) eqn:He; [|done]. specialize (Hsub' k). rewrite He, Hst in Hsub'. by destruct Hsub'.
Qed.
End RoundTrip.

(** ** Restored engines behave alike

    In a terminating run no operation reads an edge. *)

Section Agree.
Context (order : range_order).

Definition unlike_edges (e e' : Engine) : Prop :=
  e' = e <| en_edges := en_edges e' |> ∧ is_Some (wr_termination (en_run e)).

Definition agree {A} (x y : Engine * res A) : Prop := x.2 = y.2 ∧ unlike_edges x.1 y.1.

Lemma agree_bind {A B} (m m' : eng A) (f f' : A → eng B) e e' :
  agree (m e) (m' e') → (∀ a e1 e1', unlike_edges e1 e1' → agree (f a e1) (f' a e1')) →
  agree ((m ≫= f) e) ((m' ≫= f') e').
Proof.
  unfold mbind, eng_bind. intros [Hr He] Hf. destruct (m e) as [e1 r], (m' e') as [e1' r']. cbn in Hr, He. subst r'.
  destruct r as [a|x]; [by apply Hf|done].
Qed.

Lemma agree_get {B} (f f' : Engine → eng B) e e' :
  agree (f e e) (f' e' e') → agree ((get ≫= f) e) ((get ≫= f') e').
Proof. done. Qed.

Lemma agree_const {A} (r : res A) e e' : unlike_edges e e' → agree (e, r) (e', r).
Proof. done. Qed.

Lemma agree_lift {A B} (r : res A) (f f' : A → eng B) e e' : unlike_edges e e' →
  (∀ a, r = Ok a → agree (f a e) (f' a e')) → agree ((lift r ≫= f) e) ((lift r ≫= f') e').
Proof. intros He Hf. unfold mbind, eng_bind, lift. destruct r as [a|x]; [by apply Hf|by apply agree_const]. Qed.

(** Both engines after one change that is no change of edges. *)
Lemma unlike_map (g : Engine → Engine) e e' : unlike_edges e e' →
  (∀ e E, g (e <| en_edges := E |>) = (g e) <| en_edges := E |>) → is_Some (wr_termination (en_run (g e))) →
  unlike_edges (g e) (g e').
Proof. intros [-> _] Hg Ht. rewrite Hg. by split. Qed.

Lemma agree_on_node id f e e' : unlike_edges e e' → agree (on_node id f e) (on_node id f e').
Proof.
  intros [-> Ht]. unfold on_node. cbn. destruct (en_nodes e !! id) as [n|]; [|by apply agree_const].
  destruct (f n) as [n'|x]; by apply agree_const.
Qed.

Lemma agree_settle id route e e' : unlike_edges e e' → agree (settleOutgoing id route e) (settleOutgoing id route e').
Proof.
  intros [-> Ht]. unfold settleOutgoing. cbn. change (outgoing_of (e <| en_edges := _ |>) id) with (outgoing_of e id).
  destruct (outgoing_of e id); [by apply agree_const|]. destruct (en_nodes e !! id); by apply agree_const.
Qed.

Lemma agree_cancel_nodes intent ids e e' : unlike_edges e e' →
  agree (cancel_nodes intent ids e) (cancel_nodes intent ids e').
Proof.
  revert e e'. induction ids as [|id ids IH]; intros e e' He; [by apply agree_const|].
  cbn [cancel_nodes]. apply agree_get. pose proof He as [He' _].
  replace (en_nodes e') with (en_nodes e) by (by rewrite He').
  destruct (en_nodes e !! id) as [n|]; [|by apply agree_const].
  replace (awaits_attempt e' n) with (awaits_attempt e n) by (by rewrite He').
  destruct (terminal_node n || awaits_attempt e n); [by apply IH|].
  apply agree_bind; [by apply agree_on_node|]. intros _ e1 e1' H1.
  apply agree_bind; [by apply agree_settle|]. intros _ e2 e2' H2. by apply IH.
Qed.

Lemma complete_termination_kept run nodes run' : WorkflowRun_CompleteTermination run nodes = Ok run' →
  is_Some (wr_termination run) → is_Some (wr_termination run').
Proof. intros (t & k & Ht & _ & _ & _ & ->)%CompleteTermination_Ok _. cbn. rewrite Ht. eauto. Qed.

Lemma agree_drive_terminating intent e e' : unlike_edges e e' →
  agree (drive_terminating intent e) (drive_terminating intent e').
Proof.
  intros He. unfold drive_terminating. apply agree_get.
  replace (sortedNodeIDs e') with (sortedNodeIDs e) by (pose proof He as [-> _]; done).
  apply agree_bind; [by apply agree_cancel_nodes|]. intros _ e1 e1' H1. apply agree_get.
  pose proof H1 as [H1' Ht]. replace (allNodesTerminal e1') with (allNodesTerminal e1) by (by rewrite H1').
  destruct (allNodesTerminal e1); [|by apply agree_const].
  replace (WorkflowRun_CompleteTermination (en_run e1') (allNodeRuns e1'))
    with (WorkflowRun_CompleteTermination (en_run e1) (allNodeRuns e1)) by (by rewrite H1').
  apply agree_lift; [done|]. intros run Hrun. split; [done|]. cbn.
  apply (unlike_map (set_run run)); [done|done|]. cbn. by eapply complete_termination_kept.
Qed.

Lemma agree_drive at_ e e' : unlike_edges e e' → agree (drive order at_ e) (drive order at_ e').
Proof.
  intros He. unfold drive, drive_fuel. pose proof He as [He' [intent Hi]].
  cbn [drive_loop Nat.add]. apply agree_get. replace (en_run e') with (en_run e) by (by rewrite He'). rewrite Hi.
  by apply agree_drive_terminating.
Qed.

Lemma agree_QueueNode id aid e e' : unlike_edges e e' → agree (QueueNode id aid e) (QueueNode id aid e').
Proof. intros [-> [t Ht]]. unfold QueueNode. cbn. rewrite Ht. apply agree_const. by split; [|eauto]. Qed.

Lemma agree_StartAttempt aid e e' : unlike_edges e e' → agree (StartAttempt aid e) (StartAttempt aid e').
Proof.
  intros He. pose proof He as [He' _]. unfold StartAttempt, attempt_node.
  replace (en_attempts e') with (en_attempts e) by (by rewrite He').
  replace (en_attemptNodes e') with (en_attemptNodes e) by (by rewrite He').
  destruct (en_attempts e !! aid) as [a|]; [|by apply agree_const].
  case_bool_decide; [by apply agree_const|]. destruct (NodeAttempt_Start a) as [a'|]; [|by apply agree_const].
  apply agree_on_node, (unlike_map (set_attempt aid a')); [done|done|]. by destruct He.
Qed.

Lemma agree_RecordAttemptResult aid result e e' : unlike_edges e e' →
  agree (RecordAttemptResult aid result e) (RecordAttemptResult aid result e').
Proof.
  intros He. pose proof He as [He' Ht]. unfold RecordAttemptResult, attempt_node.
  replace (en_attempts e') with (en_attempts e) by (by rewrite He').
  replace (en_attemptNodes e') with (en_attemptNodes e) by (by rewrite He').
  replace (en_nodes e') with (en_nodes e) by (by rewrite He').
  destruct (en_attempts e !! aid) as [a|]; [|by apply agree_const].
  destruct (en_nodes e !! _) as [n|]; [|by apply agree_const].
  case_bool_decide; cbn [negb]; [|by apply agree_const].
  destruct (na_result a) as [r|]; [case_match; by apply agree_const|].
  destruct (NodeAttempt_Complete a result) as [a'|]; [|by apply agree_const].
  split; [done|]. by apply (unlike_map (set_attempt aid a')).
Qed.

Lemma agree_accept id definition aid values e e' : unlike_edges e e' →
  agree (acceptSuccess order id definition aid values e) (acceptSuccess order id definition aid values e').
Proof.
  intros He. unfold acceptSuccess. apply agree_bind; [by apply agree_const|]. intros _ e1 e1' H1.
  apply agree_bind; [by apply agree_on_node|]. intros _ e2 e2' H2. by apply agree_settle.
Qed.

Lemma agree_attempt_op {A} (m m' : eng A) e e' : agree (m e) (m' e') → agree (attempt_op m e) (attempt_op m' e').
Proof. intros [Hr He]. unfold attempt_op. destruct (m e), (m' e'). cbn in *. by subst. Qed.

Lemma agree_HandleAttemptCompleted aid at_ e e' : unlike_edges e e' →
  agree (HandleAttemptCompleted order aid at_ e) (HandleAttemptCompleted order aid at_ e').
Proof.
  intros He. pose proof He as [He' [intent Ht]]. unfold HandleAttemptCompleted, attempt_node. apply agree_get.
  replace (en_attempts e') with (en_attempts e) by (by rewrite He').
  replace (en_attemptNodes e') with (en_attemptNodes e) by (by rewrite He').
  replace (en_nodes e') with (en_nodes e) by (by rewrite He').
  replace (en_run e') with (en_run e) by (by rewrite He').
  destruct (en_attempts e !! aid) as [a|]; [|by apply agree_const].
  apply agree_lift; [done|]. intros _ _. apply agree_lift; [done|]. intros _ _.
  destruct (na_result a) as [result|]; [|by apply agree_const].
  destruct (en_nodes e !! _) as [n|]; [|by apply agree_const].
  destruct (negb _); [by apply agree_const|]. destruct (_ || _); [by apply agree_const|]. rewrite Ht.
  unfold complete_terminating. apply agree_get.
  replace (definition_of e') with (definition_of e) by (by rewrite He').
  apply agree_bind; [|intros _ e1 e1' H1; by apply agree_drive].
  case_bool_decide; [|by apply agree_on_node].
  apply agree_bind; [by apply agree_attempt_op, agree_accept|]. intros [[]|x] e1 e1' H1; [by apply agree_const|by apply agree_on_node].
Qed.

Lemma agree_RetryDue id at_ e e' : unlike_edges e e' → agree (RetryDue order id at_ e) (RetryDue order id at_ e').
Proof.
  intros He. pose proof He as [He' [intent Ht]]. unfold RetryDue. apply agree_get.
  replace (en_run e') with (en_run e) by (by rewrite He'). rewrite Ht. by apply agree_drive.
Qed.

Lemma agree_terminate at_ kind fl e e' : unlike_edges e e' →
  agree (terminate order at_ kind fl e) (terminate order at_ kind fl e').
Proof.
  intros He. pose proof He as [He' Ht]. unfold terminate. apply agree_get.
  replace (en_run e') with (en_run e) by (by rewrite He').
  apply agree_lift; [done|]. intros [run applied] Hr.
  apply RequestTermination_Ok in Hr as (_ & _ & _ & [(_ & _ & ->)|(Hn & _)]); [|rewrite Hn in Ht; by destruct Ht].
  apply agree_bind; [|intros _ e1 e1' H1; apply agree_bind; [by apply agree_drive|done]].
  split; [done|]. by apply (unlike_map (set_run (en_run e))).
Qed.

Lemma agree_RequestCancel at_ cause e e' : unlike_edges e e' →
  agree (RequestCancel order at_ cause e) (RequestCancel order at_ cause e').
Proof.
  intros He. pose proof He as [He' _]. unfold RequestCancel. apply agree_get.
  replace (failure e') with (failure e) by (by rewrite He').
  replace (en_run e') with (en_run e) by (by rewrite He'). destruct (RunState_Terminal _); [done|]. by apply agree_terminate.
Qed.

Lemma agree_DeadlineReached at_ e e' : unlike_edges e e' →
  agree (DeadlineReached order at_ e) (DeadlineReached order at_ e').
Proof.
  intros He. pose proof He as [He' _]. unfold DeadlineReached. apply agree_get.
  replace (failure e') with (failure e) by (by rewrite He').
  replace (en_run e') with (en_run e) by (by rewrite He').
  destruct (RunState_Terminal _); [done|]. destruct (Before _ _); [done|]. by apply agree_terminate.
Qed.

Lemma agree_discard {A} (m : eng A) e e' : agree (m e) (m e') → agree (discard m e) (discard m e').
Proof. intros H. unfold discard. apply agree_bind; [done|]. intros _ e1 e1' H1. by apply agree_const. Qed.

Lemma agree_apply op e e' : unlike_edges e e' → agree (engine_apply order op e) (engine_apply order op e').
Proof.
  intros He. destruct op; cbn [engine_apply].
  - by apply agree_discard, agree_QueueNode.
  - by apply agree_StartAttempt.
  - by apply agree_discard, agree_RecordAttemptResult.
  - by apply agree_HandleAttemptCompleted.
  - by apply agree_RetryDue.
  - by apply agree_discard, agree_RequestCancel.
  - by apply agree_discard, agree_DeadlineReached.
  - apply agree_bind; [by apply agree_RecordAttemptResult|]. intros _ e1 e1' H1. by apply agree_HandleAttemptCompleted.
Qed.

Lemma unlike_SnapshotState e e' : unlike_edges e e' → SnapshotState e' = SnapshotState e.
Proof. intros [-> _]. done. Qed.
End Agree.

(** A restored engine answers as the original, and is written back alike. *)
Lemma restored_apply order op e e' : edgeless e e' →
  (engine_apply order op e').2 = (engine_apply order op e).2 ∧
  SnapshotState (engine_apply order op e').1 = SnapshotState (engine_apply order op e).1.
Proof.
  intros [He Ht]. destruct (wr_termination (en_run e)) eqn:Hw; [|by rewrite (Ht eq_refl)].
  destruct (agree_apply order op e e') as [Hr Hs]; [split; [done|by rewrite Hw]|].
  split; [done|]. by apply unlike_SnapshotState.
Qed.
