(* ===== verification/EngineProps.v ===== *)
(** * Properties of the engine

    The theorems about every engine a caller can reach: each operation is a
    sequence of atomic steps, control flow and fail-fast termination, single
    live attempts, retry budgets, typed outputs, progress and cancellation. *)

From S2P Require Import Prelude Json Graph Dsl Branch Runtime Engine.
From S2P Require Import EngineSteps EngineInv EngineFacts EngineInit EngineProgress EngineLive BranchRoutes EngineVersions EngineState.

Open Scope string_scope.
Open Scope list_scope.
Open Scope Z_scope.

(** ** The sample engine *)

Lemma sample_policies : policies_ok sample_document.
Proof.
  intros n Hn. unfold sample_document in Hn. cbn [dc_Nodes] in Hn. rewrite !elem_of_cons, elem_of_nil in Hn.
  destruct Hn as [->|[->|[->|[->|[->|[]]]]]]; cbn; lia.
Qed.

Lemma sample_New :
  New range_id sample_snapshot sample_start sample_contract BuiltinV1Compatibility = Ok sample_engine.
Proof. vm_compute. reflexivity. Qed.

Definition sample_reach : Engine → Prop :=
  engine_reachable range_id sample_contract sample_start sample_snapshot BuiltinV1Compatibility.

Lemma sample_engine_reachable : sample_reach sample_engine.
Proof. apply engine_new, sample_New. Qed.

Definition sample_ops : list EngineOp :=
  [DoQueueNode (sample_id "3") "a1"; DoStartAttempt "a1"; DoRecordAttemptResult "a1" sample_success].

Definition engine_calls (order : range_order) (ops : list EngineOp) (e : Engine) : Engine :=
  fold_left (λ e op, (engine_apply order op e).1) ops e.

Lemma engine_calls_reachable order c command snapshot compat ops e :
  engine_reachable order c command snapshot compat e →
  engine_reachable order c command snapshot compat (engine_calls order ops e).
Proof. revert e. induction ops as [|op ops IH]; intros e He; [done|]. apply IH. by apply engine_call. Qed.

Definition sample_recorded : Engine := engine_calls range_id sample_ops sample_engine.

Lemma sample_recorded_reachable : sample_reach sample_recorded.
Proof. apply engine_calls_reachable, sample_engine_reachable. Qed.

Definition sample_finished : Engine := (engine_apply range_id (DoHandleAttemptCompleted "a1" 30) sample_recorded).1.

Lemma sample_finished_reachable : sample_reach sample_finished.
Proof. exact (engine_call _ _ _ _ _ sample_recorded (DoHandleAttemptCompleted "a1" 30) sample_recorded_reachable). Qed.

(** ** Refinement *)

(** C1: every operation of the engine, with any arguments and whether it
    returns a result or an error, changes the state by a finite sequence of the
    atomic steps of [engine_step]; nothing is left half done. *)
Theorem engine_operations_refine (order : range_order) (c : Contract) (command : CreateRunCommand)
    (snapshot : Snapshot) (compat : CompatibilityChecker) (e : Engine) (op : EngineOp) :
  EngineContract c → policies_ok (sn_DSL snapshot) → engine_reachable order c command snapshot compat e →
  rtc (engine_step order) e (engine_apply order op e).1.
Proof. intros HC Hp Hr. apply (engine_apply_steps order c command). by eapply reachable_inv. Qed.

Lemma engine_operations_refine_witness :
  wr_state (en_run sample_finished) = RunSucceeded ∧ rtc (engine_step range_id) sample_recorded sample_finished.
Proof.
  split; [vm_compute; reflexivity|].
  apply (engine_operations_refine range_id sample_contract sample_start sample_snapshot BuiltinV1Compatibility sample_recorded).
  - apply builtin_engine_contract.
  - apply sample_policies.
  - apply sample_recorded_reachable.
Defined.

(** ** Control flow *)

(** C5: in every reachable engine the control flow and the run agree: the
    entry node has succeeded and the edges carry what their source did; a node
    runs only when all its incoming edges are settled and one is active, and is
    skipped only when all are settled and none is active; once a node has
    failed, timed out or been canceled the run is terminating; a finished run
    has only finished nodes, and a successful one only succeeded and skipped
    nodes. *)
Theorem engine_control_flow (order : range_order) (c : Contract) (command : CreateRunCommand)
    (snapshot : Snapshot) (compat : CompatibilityChecker) (e : Engine) :
  EngineContract c → policies_ok (sn_DSL snapshot) → engine_reachable order c command snapshot compat e → flow_inv e.
Proof. intros HC Hp Hr. apply (ev_flow c command). by eapply reachable_inv. Qed.

Lemma engine_control_flow_witness :
  wr_state (en_run sample_finished) = RunSucceeded ∧ flow_inv sample_finished.
Proof.
  split; [vm_compute; reflexivity|].
  apply (engine_control_flow range_id sample_contract sample_start sample_snapshot BuiltinV1Compatibility).
  - apply builtin_engine_contract.
  - apply sample_policies.
  - apply sample_finished_reachable.
Defined.

(** ** Attempts and budgets *)

(** C16: in every reachable engine an attempt belongs to exactly one Node Run
    and is well formed, a node has at most one attempt that is not finished and
    it is its current one, a node is queued (running) only with its attempt
    queued (running) or finished; and a task never makes more business attempts
    than [max_attempts] nor more recoveries than [max_recoveries]. *)
Theorem engine_attempts_bounded (order : range_order) (c : Contract) (command : CreateRunCommand)
    (snapshot : Snapshot) (compat : CompatibilityChecker) (e : Engine) :
  EngineContract c → policies_ok (sn_DSL snapshot) → engine_reachable order c command snapshot compat e →
  attempt_inv e ∧
  ∀ id n, en_nodes e !! id = Some n → nr_kind n = NodeTask →
    let policy := nd_ExecutionPolicy (definition_of e id) in
    0 ≤ nr_businessAttemptCount n ≤ ep_MaxAttempts policy ∧ 0 ≤ nr_recoveryCount n ≤ ep_MaxRecoveries policy.
Proof.
  intros HC Hp Hr. pose proof (reachable_inv order c command snapshot compat e Hp Hr) as [_ _ Ha _ Hb _].
  split; [done|]. intros id n Hn Hk. destruct (Hb id n Hn Hk) as (? & ? & _). done.
Qed.

Lemma engine_attempts_bounded_witness : attempt_inv sample_recorded.
Proof.
  apply (engine_attempts_bounded range_id sample_contract sample_start sample_snapshot BuiltinV1Compatibility).
  - apply builtin_engine_contract.
  - apply sample_policies.
  - apply sample_recorded_reachable.
Defined.

(** ** Outputs *)

(** C17: in every reachable engine a succeeded task holds every output its
    definition declares, each a JSON text of the declared type (an integer
    where a number is declared), whatever results were recorded for it. *)
Theorem engine_outputs_typed (order : range_order) (c : Contract) (command : CreateRunCommand)
    (snapshot : Snapshot) (compat : CompatibilityChecker) (e : Engine) (id : string) (n : NodeRun)
    (name : string) (t : DataType) :
  EngineContract c → policies_ok (sn_DSL snapshot) → engine_reachable order c command snapshot compat e →
  en_nodes e !! id = Some n → nr_state n = NodeSucceeded → nr_kind n = NodeTask →
  outputs (definition_of e id) !! name = Some t →
  ∃ v actual, nr_effectiveOutputs n !! name = Some v ∧ engine_rawDataType v = Some actual ∧ compatible actual t = true.
Proof.
  intros HC Hp Hr Hn Hst Hk Ho. pose proof (reachable_inv order c command snapshot compat e Hp Hr) as [_ _ _ _ _ Hd].
  pose proof (Hd id n Hn Hst Hk name t Ho) as Herr. unfold output_error in Herr.
  destruct (nr_effectiveOutputs n !! name) as [v|]; [|done]. exists v.
  destruct (engine_rawDataType v) as [actual|]; [|done]. exists actual. split_and!; [done..|].
  unfold compatible. by destruct (_ || _).
Qed.

Definition sample_done_node : NodeRun := default sample_node (en_nodes sample_finished !! sample_id "3").

Lemma engine_outputs_typed_witness :
  ∃ v actual, nr_effectiveOutputs sample_done_node !! "out" = Some v ∧ engine_rawDataType v = Some actual ∧
    compatible actual TypeNumber = true.
Proof.
  apply (engine_outputs_typed range_id sample_contract sample_start sample_snapshot BuiltinV1Compatibility
           sample_finished (sample_id "3")).
  - apply builtin_engine_contract.
  - apply sample_policies.
  - apply sample_finished_reachable.
  - vm_compute. reflexivity.
  - vm_compute. reflexivity.
  - vm_compute. reflexivity.
  - vm_compute. reflexivity.
Defined.

(** ** Progress *)

(** C6: [drive] is total: on a reachable engine whose run is not finished it
    returns without an error within its passes, neither a missing node nor an
    impossible transition nor an ill-typed workflow output occurs, and it stops
    only at rest: in a run that is not terminating every pending node waits for
    an edge, an input, or (the end node) for other nodes; in a terminating run
    every node is finished or has an attempt out, and the run is finished if
    none has. *)
Theorem engine_drive_total (order : range_order) (c : Contract) (command : CreateRunCommand)
    (snapshot : Snapshot) (compat : CompatibilityChecker) (e : Engine) (at_ : Time) :
  EngineContract c → policies_ok (sn_DSL snapshot) → engine_reachable order c command snapshot compat e →
  RunState_Terminal (wr_state (en_run e)) = false → at_ = 0 ∨ wr_createdAt (en_run e) ≤ at_ →
  ∃ e', drive order at_ e = (e', Ok tt) ∧ rest e'.
Proof.
  intros HC Hp Hr Ht Hat. destruct (reachable_rest order c command snapshot compat e Hp Hr) as (Hi & Hc & _).
  destruct (drive_gives order c command at_ e Hi Hc) as (e' & [] & Hd & Hrest); [|by eauto].
  destruct (wr_termination (en_run e)); [|done].
  pose proof (rwf_facts _ _ (sv_run _ _ _ (ev_static _ _ _ Hi))) as Hf. unfold run_state_facts in Hf.
  pose proof (sv_started _ _ _ (ev_static _ _ _ Hi)). by destruct (wr_state (en_run e)).
Qed.

Lemma engine_drive_total_witness : ∃ e', drive range_id 0 sample_recorded = (e', Ok tt) ∧ rest e'.
Proof.
  apply (engine_drive_total range_id sample_contract sample_start sample_snapshot BuiltinV1Compatibility).
  - apply builtin_engine_contract.
  - apply sample_policies.
  - apply sample_recorded_reachable.
  - vm_compute. reflexivity.
  - left. reflexivity.
Defined.

(** C4: no run gets stuck: between operations, a run that is not finished
    always has a node that is ready to be queued, has an attempt out, or waits
    for its retry, provided that nodes read outputs of earlier nodes only (what
    the compiler checks) and the contract accepts no branch route without a
    name (what the built-in contract does). *)
Theorem engine_no_deadlock (order : range_order) (c : Contract) (command : CreateRunCommand)
    (snapshot : Snapshot) (compat : CompatibilityChecker) (e : Engine) :
  EngineContract c → NamedRoutes c → policies_ok (sn_DSL snapshot) → engine_reachable order c command snapshot compat e →
  upstream_bindings (en_doc e) →
  RunState_Terminal (wr_state (en_run e)) = true ∨ ∃ id n, en_nodes e !! id = Some n ∧ working n = true.
Proof.
  intros HC HN Hp Hr Hup. destruct (reachable_rest order c command snapshot compat e Hp Hr) as (Hi & Hc & Hrest).
  apply (rest_works order c command); [done..|]. apply (doc_named_routes c), (sv_doc _ _ _ (ev_static _ _ _ Hi)).
Qed.

Lemma sample_upstream : upstream_bindings sample_document.
Proof.
  assert (flows sample_document (sample_id "1") (sample_id "2")) as F1 by (apply list_elem_of_In; cbn; tauto).
  assert (∀ k, flows sample_document (sample_id "2") k → tc (flows sample_document) (sample_id "1") k) as F2.
  { intros k Hk. eapply tc_l; [exact F1|]. by apply tc_once. }
  assert (flows sample_document (sample_id "2") (sample_id "3")) as F3 by (apply list_elem_of_In; cbn; tauto).
  assert (flows sample_document (sample_id "2") (sample_id "4")) as F4 by (apply list_elem_of_In; cbn; tauto).
  assert (flows sample_document (sample_id "3") (sample_id "5")) as F5 by (apply list_elem_of_In; cbn; tauto).
  intros n name b o Hn Hb Hk Ho. unfold sample_document in Hn. cbn [dc_Nodes] in Hn.
  rewrite !elem_of_cons, elem_of_nil in Hn.
  destruct Hn as [->|[->|[->|[->|[->|[]]]]]]; unfold inputs in Hb; cbn in Hb;
    try (by rewrite lookup_empty in Hb); apply lookup_singleton_Some in Hb as [<- <-]; injection Ho as <-; cbn.
  - by apply tc_once.
  - by apply F2.
  - by apply F2.
  - eapply tc_r; [apply F2, F3|exact F5].
Qed.

Lemma engine_no_deadlock_witness :
  RunState_Terminal (wr_state (en_run sample_recorded)) = true ∨
  ∃ id n, en_nodes sample_recorded !! id = Some n ∧ working n = true.
Proof.
  assert (en_doc sample_recorded = sample_document) as Hd by (vm_compute; reflexivity).
  apply (engine_no_deadlock range_id sample_contract sample_start sample_snapshot BuiltinV1Compatibility).
  - apply builtin_engine_contract.
  - apply builtin_named_routes.
  - apply sample_policies.
  - apply sample_recorded_reachable.
  - rewrite Hd. apply sample_upstream.
Defined.

(** A cancellation takes effect at once when no attempt is out: it is
    applied, every node is finished, and the run is canceled. *)
Theorem engine_cancel_completes (order : range_order) (c : Contract) (command : CreateRunCommand)
    (snapshot : Snapshot) (compat : CompatibilityChecker) (e : Engine) (at_ : Time) (cause : string) :
  EngineContract c → policies_ok (sn_DSL snapshot) → engine_reachable order c command snapshot compat e →
  wr_state (en_run e) = RunRunning → wr_termination (en_run e) = None → at_ ≠ 0 → wr_createdAt (en_run e) ≤ at_ →
  (∀ id n, en_nodes e !! id = Some n → busy n = false) →
  ∃ e', RequestCancel order at_ cause e = (e', Ok true) ∧ wr_state (en_run e') = RunCanceled ∧
    ∀ id n, en_nodes e' !! id = Some n → NodeState_Terminal (nr_state n) = true.
Proof.
  intros HC Hp Hr Hrun Hterm Hz Hat Hbusy.
  destruct (reachable_rest order c command snapshot compat e Hp Hr) as (Hi & Hc & _).
  destruct (terminate_finishes order c command at_ TerminationCanceled
    (failure e FailureRunCanceled "run_control" cause "" "" "" false) e Hi Hc) as (e' & b & Ht & -> & Hst); [done..|by left|done|].
  assert (RequestCancel order at_ cause e = (e', Ok true)) as Heq.
  { unfold RequestCancel, mbind, eng_bind, get. by rewrite Hrun. }
  exists e'. split_and!; [done..|].
  pose proof (engine_apply_inv order c command (DoRequestCancel at_ cause) e Hi) as Hi'.
  cbn in Hi'. rewrite discard_state, Heq in Hi'. cbn in Hi'. apply (fv_done _ (ev_flow _ _ _ Hi')). by rewrite Hst.
Qed.

Lemma engine_cancel_completes_witness :
  ∃ e', RequestCancel range_id 20 "user" sample_engine = (e', Ok true) ∧ wr_state (en_run e') = RunCanceled ∧
    ∀ id n, en_nodes e' !! id = Some n → NodeState_Terminal (nr_state n) = true.
Proof.
  apply (engine_cancel_completes range_id sample_contract sample_start sample_snapshot BuiltinV1Compatibility).
  - apply builtin_engine_contract.
  - apply sample_policies.
  - apply sample_engine_reachable.
  - vm_compute. reflexivity.
  - vm_compute. reflexivity.
  - discriminate.
  - vm_compute. discriminate.
  - intros id n Hn. apply elem_of_map_to_list in Hn.
    assert (forallb (λ p, negb (busy p.2)) (map_to_list (en_nodes sample_engine)) = true) as Hall by (vm_compute; reflexivity).
    rewrite forallb_forall in Hall. apply list_elem_of_In in Hn. apply Hall in Hn. by apply negb_true_iff in Hn.
Defined.

(** ** Persistence *)

(** C32: writing a reachable engine and restoring it, with or without the
    outputs of the control nodes and in any order of the rows, succeeds and
    gives the engine back: the run, the nodes, the attempts and their owners
    are the same; so are the edges as long as the run is not terminating, and
    in a terminating run each edge has the state its finished source gives
    it. *)
Theorem engine_restore_roundtrip (order : range_order) (c : Contract) (command : CreateRunCommand)
    (snapshot : Snapshot) (compat : CompatibilityChecker) (e : Engine) (st : State) :
  EngineContract c → policies_ok (sn_DSL snapshot) → engine_reachable order c command snapshot compat e → stores e st →
  ∃ e', Restore order snapshot st c compat = Ok e' ∧ e' = e <| en_edges := en_edges e' |> ∧
    (wr_termination (en_run e) = None → e' = e) ∧
    ∀ d n, d ∈ dc_Edges (en_doc e) → en_nodes e !! ed_SourceNodeID d = Some n →
      en_edges e' !! ed_ID d = Some (projected_edge n d).
Proof.
  intros HC Hp Hr Hst. destruct (Restore_stored order c command snapshot compat e st Hp Hr Hst) as (e' & He & [? ?] & Hd).
  exists e'. split_and!; done.
Qed.

Lemma engine_restore_roundtrip_witness :
  ∃ e', Restore range_id sample_snapshot (SnapshotState sample_finished) sample_contract BuiltinV1Compatibility = Ok e' ∧
    e' = sample_finished <| en_edges := en_edges e' |> ∧
    (wr_termination (en_run sample_finished) = None → e' = sample_finished) ∧
    ∀ d n, d ∈ dc_Edges (en_doc sample_finished) → en_nodes sample_finished !! ed_SourceNodeID d = Some n →
      en_edges e' !! ed_ID d = Some (projected_edge n d).
Proof.
  apply (engine_restore_roundtrip range_id sample_contract sample_start sample_snapshot BuiltinV1Compatibility).
  - apply builtin_engine_contract.
  - apply sample_policies.
  - apply sample_finished_reachable.
  - apply stores_SnapshotState.
Defined.

(** The operation of a process that holds no engine: restore, operate, write. *)
Definition persisted_apply (order : range_order) (snapshot : Snapshot) (c : Contract) (compat : CompatibilityChecker)
    (op : EngineOp) (st : State) : res (State * res unit) :=
  e ← Restore order snapshot st c compat;
  let '(e', r) := engine_apply order op e in
  Ok (SnapshotState e', r).

(** C33: a process that keeps nothing in memory cannot be told from one that
    does: for any sequence of operations, restoring the engine before each of
    them and writing it after never fails, gives the same answers, and leaves
    the same records. *)
Theorem engine_restart_transparent (order : range_order) (c : Contract) (command : CreateRunCommand)
    (snapshot : Snapshot) (compat : CompatibilityChecker) (e : Engine) (ops : list EngineOp) (op : EngineOp) :
  EngineContract c → policies_ok (sn_DSL snapshot) → engine_reachable order c command snapshot compat e →
  let e' := engine_calls order ops e in
  fold_left (λ st op, st ← st; '(st', _) ← persisted_apply order snapshot c compat op st; Ok st') ops (Ok (SnapshotState e)) =
    Ok (SnapshotState e') ∧
  persisted_apply order snapshot c compat op (SnapshotState e') =
    Ok (SnapshotState (engine_apply order op e').1, (engine_apply order op e').2).
Proof.
  intros HC Hp Hr. cbn zeta.
  assert (∀ x o, engine_reachable order c command snapshot compat x → persisted_apply order snapshot c compat o (SnapshotState x) =
    Ok (SnapshotState (engine_apply order o x).1, (engine_apply order o x).2)) as Hone.
  { intros x o Hx. unfold persisted_apply.
    destruct (Restore_stored order c command snapshot compat x _ Hp Hx (stores_SnapshotState x)) as (x' & Hres & Hedge & _).
    rewrite (res_bind_Ok _ _ _ Hres). destruct (restored_apply order o x x' Hedge) as [H1 H2].
    destruct (engine_apply order o x'), (engine_apply order o x). cbn in *. by rewrite H1, H2. }
  split; [|by apply Hone, engine_calls_reachable].
  revert e Hr. induction ops as [|o ops IH]; intros e Hr; [done|]. cbn [fold_left engine_calls].
  assert ((Ok (SnapshotState e) ≫= λ st, '(st', _) ← persisted_apply order snapshot c compat o st; Ok st') =
    Ok (SnapshotState (engine_apply order o e).1)) as -> by (cbn; unfold res_bind; by rewrite Hone).
  apply IH. by apply engine_call.
Qed.

Lemma engine_restart_transparent_witness :
  persisted_apply range_id sample_snapshot sample_contract BuiltinV1Compatibility (DoHandleAttemptCompleted "a1" 30)
    (SnapshotState sample_recorded) = Ok (SnapshotState sample_finished, Ok tt).
Proof.
  pose proof (engine_restart_transparent range_id sample_contract sample_start sample_snapshot BuiltinV1Compatibility
    sample_engine sample_ops (DoHandleAttemptCompleted "a1" 30)) as H.
  destruct H as [_ H]; [apply builtin_engine_contract|apply sample_policies|apply sample_engine_reachable|].
  etrans; [exact H|]. vm_compute. reflexivity.
Defined.

(** No state version wraps: in a reachable engine a Node Run's version is
    at most one more than four times its attempts plus three, an Attempt's at
    most three and the run's at most four, and every operation gives each node
    and run that it changes a greater version. *)
Theorem engine_versions_bounded (order : range_order) (c : Contract) (command : CreateRunCommand)
    (snapshot : Snapshot) (compat : CompatibilityChecker) (e : Engine) (op : EngineOp) :
  EngineContract c → policies_ok (sn_DSL snapshot) → engine_reachable order c command snapshot compat e →
  (∀ id n, en_nodes e !! id = Some n → 1 ≤ nr_stateVersion n ≤ 4 + 4 * nr_nextAttemptSeq n ∧ nr_stateVersion n < 2 ^ 35) ∧
  (∀ id a, en_attempts e !! id = Some a → 1 ≤ na_stateVersion a ≤ 3) ∧ 2 ≤ wr_stateVersion (en_run e) ≤ 4 ∧
  grows e (engine_apply order op e).1.
Proof.
  intros HC Hp Hr. pose proof (reachable_versions order c command snapshot compat e Hp Hr) as Hv.
  pose proof (reachable_inv order c command snapshot compat e Hp Hr) as Hi. pose proof Hv as [Hn Ha Hrun].
  split; [|split; [|split]].
  - intros id n H. specialize (Hn id n H). destruct (sv_node _ _ _ (ev_static _ _ _ Hi) id n H) as (Hwf & _).
    pose proof (seq_range n Hwf). unfold node_version_ok, node_progress in Hn.
    destruct (nr_state n); try destruct (nr_activated n); lia.
  - intros id a H. specialize (Ha id a H). unfold attempt_version_ok in Ha. destruct (na_state a); lia.
  - unfold run_version_ok in Hrun. destruct (wr_termination _), (RunState_Terminal _); lia.
  - by apply (apply_versions order c command op e Hi Hv).
Qed.

Lemma engine_versions_bounded_witness :
  grows sample_recorded sample_finished ∧ wr_stateVersion (en_run sample_recorded) < wr_stateVersion (en_run sample_finished).
Proof.
  split; [|vm_compute; reflexivity].
  apply (engine_versions_bounded range_id sample_contract sample_start sample_snapshot BuiltinV1Compatibility
           sample_recorded (DoHandleAttemptCompleted "a1" 30)).
  - apply builtin_engine_contract.
  - apply sample_policies.
  - apply sample_recorded_reachable.
Defined.
