(* ===== verification/CompiledProps.v ===== *)
(** * Compiling and running: theorems

    A successful compilation is a faithful image of the author's document, a
    failed one says why, and the engine runs a compiled document to its end. *)

From Stdlib Require Import Ascii.
From S2P Require Import Prelude Json Digest Graph Dsl Ir IrFacts Canonical ControlGraph ControlFacts Activation DecisionFacts ActivationFacts.
From S2P Require Import SourceMap Marshal Handlers Compiler CompilerFacts.
From S2P Require Import Branch Runtime Engine EngineSteps EngineInv EngineFacts EngineInit EngineProgress EngineLive BranchRoutes RunSafety CompiledRun.
From S2P Require Import CompilerProps EngineVersions EngineState EngineProps.

Open Scope string_scope.
Open Scope list_scope.
Open Scope Z_scope.

(** ** A sample *)

Definition runtime_of (kind : Dsl.NodeKind) (operation : string) (policy : ExecutionPolicyDefaults) : RuntimeContract :=
  MkRuntimeContract kind operation 1 policy.

Definition plain_catalog : NodeCatalog :=
  MkNodeCatalog "catalog" (λ _, []) (λ t,
    if bool_decide (t = "start") then Some (runtime_of KindControl "control.start" (MkExecutionPolicyDefaults 0 0 0 0 []))
    else if bool_decide (t = "end") then Some (runtime_of KindControl "control.end" (MkExecutionPolicyDefaults 0 0 0 0 []))
    else if bool_decide (t = "branch") then Some (runtime_of KindControl "control.branch" (MkExecutionPolicyDefaults 0 0 0 0 []))
    else if bool_decide (t = "code") then Some (runtime_of KindTask "task.python" (MkExecutionPolicyDefaults 1 3 60000 1000 []))
    else None).

Definition plain_node (id type : string) (inputs : list Input) (outputs : list Output) : Ir.Node :=
  Ir.MkNode id type "title" (Some inputs) (Some outputs).

(** [s], a branch [b] into [p], a task, or straight to [e]. *)
Definition plain_document : Ir.Document :=
  Ir.MkDocument "1"
    [plain_node "s" "start" [] [MkOutput "workflow_input" TypeObject];
     plain_node "b" "branch"
       [literal_input "value" TypeInteger "1";
        literal_input "cases" TypeArray ("[{" +:+ quoted "route" +:+ ":" +:+ quoted "x" +:+ "," +:+ quoted "operator" +:+ ":" +:+
          quoted "eq" +:+ "," +:+ quoted "value" +:+ ":1}]");
        literal_input "default_route" TypeString (quoted "y")] [];
     plain_node "p" "code" [literal_input "source_code" TypeString (quoted "def main(inputs): return inputs"); ref_input "i" "s" "workflow_input"]
       [MkOutput "result" TypeObject];
     plain_node "e" "end" [ref_input "workflow_output" "s" "workflow_input"] []]
    [Ir.MkEdge "1" "s" "b" ""; Ir.MkEdge "2" "b" "p" "x"; Ir.MkEdge "3" "b" "e" "y"; Ir.MkEdge "4" "p" "e" ""]
    (list_to_map ((λ id, (id, MkPosition (Some "0") (Some "0"))) <$> ["s"; "b"; "p"; "e"])).

Definition plain_compiler : Compiler := BuiltinV1 (λ _, None).
Definition plain_request : Request := MkRequest plain_document (Some plain_catalog) DefaultPolicyV1 EmptyResourceBindings.

Definition plain_snapshot (d : Dsl.Document) : Snapshot := MkSnapshot "snap" "hash" d.
Definition plain_new (d : Dsl.Document) : res Engine :=
  New range_id (plain_snapshot d) sample_start sample_contract BuiltinV1Compatibility.

Definition small_policies (d : Dsl.Document) : bool :=
  forallb (λ n, let p := nd_ExecutionPolicy n in (0 <=? ep_MaxAttempts p) && (0 <=? ep_MaxRecoveries p)
    && (ep_MaxAttempts p + ep_MaxRecoveries p <? 2 ^ 32)) (dc_Nodes d).

Lemma small_policies_ok d : small_policies d = true → policies_ok d.
Proof.
  unfold small_policies. rewrite forallb_forall. intros H n Hn%list_elem_of_In%H.
  rewrite !andb_true_iff, !Z.leb_le, Z.ltb_lt in Hn. cbn. tauto.
Qed.

(** The sample compiles, and an engine starts on what it compiles to. *)
Lemma plain_runs : ∃ result e, Compile plain_compiler plain_request = inr result ∧ policies_ok (r_DSL result) ∧
  plain_new (r_DSL result) = Ok e.
Proof.
  assert (match Compile plain_compiler plain_request with
          | inr result => small_policies (r_DSL result) && match plain_new (r_DSL result) with Ok _ => true | Err _ => false end
          | inl _ => false end = true) as H by (vm_compute; reflexivity).
  destruct (Compile plain_compiler plain_request) as [l|result]; [discriminate H|].
  apply andb_true_iff in H as [Hp H]. destruct (plain_new (r_DSL result)) as [e|x] eqn:He; [|discriminate H].
  exists result, e. split_and!; [done|by apply small_policies_ok|done].
Qed.

Lemma plain_faithful : FaithfulRegistry (cp_registry plain_compiler).
Proof.
  assert (cp_registry plain_compiler = BuiltinRegistry) as -> by reflexivity. apply builtin_registry_faithful.
Qed.

(** ** Compilation *)

(** C3: a successful compilation is a faithful image of the author's document:
    the document is well formed, its graph and its references are sound, every
    node and every edge has exactly one execution node and edge, under distinct
    identities that depend on the author's only, with the kind, the operation,
    the policy and the endpoints, routes and bindings that the handlers and the
    catalog say; the result is a valid DSL document that the compatibility rules
    allow, its source map resolves to the author's identities and no others, and
    the hashes are those of the canonical texts. *)
Theorem compile_sound (compiler : Compiler) (request : Request) (result : Result) :
  Compile compiler request = inr result →
  ∃ catalog, rq_Catalog request = Some catalog ∧ compile_success compiler catalog request result.
Proof. apply Compile_success. Qed.

Lemma compile_sound_witness : ∃ result catalog, rq_Catalog plain_request = Some catalog ∧
  compile_success plain_compiler catalog plain_request result.
Proof.
  destruct plain_runs as (result & e & Hc & _). exists result.
  exact (compile_sound plain_compiler plain_request result Hc).
Defined.

(** A compilation that fails says why: whatever the request, it returns
    diagnostics among which there is an error. *)
Theorem compile_failure_reported (compiler : Compiler) (request : Request) :
  match Compile compiler request with inl diagnostics => HasErrors diagnostics = true | inr _ => True end.
Proof. pose proof (Compile_reports compiler request) as H. destruct (Compile compiler request) as [l|r]; [by apply H|done]. Qed.

(** ** A compiled workflow in the engine *)

(** C2: what compiles runs: in every engine that a caller can reach on a
    compiled document, whatever routes were taken and whatever happened to the
    attempts, every input of every activated node resolves to a value (the
    engine's input contract is never violated), and a run that is not finished
    has a node to go on with. *)
Theorem compiled_run_sound (order : range_order) (c : Contract) (compiler : Compiler) (request : Request) (result : Result)
    (command : CreateRunCommand) (snapshot : Snapshot) (compat : CompatibilityChecker) (e : Engine) :
  EngineContract c → NamedRoutes c → FaithfulRegistry (cp_registry compiler) →
  Compile compiler request = inr result → sn_DSL snapshot = r_DSL result → policies_ok (r_DSL result) →
  engine_reachable order c command snapshot compat e →
  (∀ id n name b, en_nodes e !! id = Some n → nr_activated n = true → inputs (definition_of e id) !! name = Some b →
     ∃ v, resolve_binding e b = Ok (Some v)) ∧
  (RunState_Terminal (wr_state (en_run e)) = true ∨ ∃ id n, en_nodes e !! id = Some n ∧ working n = true).
Proof.
  intros HC HN Hf Hcompile Hsn Hp Hr.
  destruct (reachable_compiled order c command snapshot compat compiler Hf request result Hcompile Hsn Hp e Hr)
    as (Hi & Hctl & Hrest & Hset & Hnamed & Hsafe).
  split; [|by apply (rest_works order c command); [..|apply safe_upstream|]].
  intros id n name b Hn Ha Hb. by apply (inputs_available order c command e Hi Hset Hctl Hnamed id n name).
Qed.

Lemma compiled_run_sound_witness : ∃ result e, Compile plain_compiler plain_request = inr result ∧
  plain_new (r_DSL result) = Ok e ∧
  (RunState_Terminal (wr_state (en_run e)) = true ∨ ∃ id n, en_nodes e !! id = Some n ∧ working n = true).
Proof.
  destruct plain_runs as (result & e & Hc & Hp & He). exists result, e. split; [exact Hc|]. split; [exact He|].
  destruct (compiled_run_sound range_id sample_contract plain_compiler plain_request result sample_start
              (plain_snapshot (r_DSL result)) BuiltinV1Compatibility e) as [_ H].
  - apply builtin_engine_contract.
  - apply builtin_named_routes.
  - apply plain_faithful.
  - exact Hc.
  - reflexivity.
  - exact Hp.
  - apply engine_new. exact He.
  - exact H.
Defined.
