(* ===== verification/Scheduling.v ===== *)
(** * Project-fair admission planning

    Models internal/scheduling/planner.go and the pure part of
    internal/scheduling/model.go and scheduler.go: candidate order, FNV-1a
    lanes, the progressive-filling planner [BuildPlan], credit batches,
    and reservation merging.  [ResourceClass] is a Go
    string type and is kept as a string; maps of the code are finite maps with
    the zero value where a key is absent. *)

From S2P Require Import Prelude.

Open Scope Z_scope.

(** ** Data *)

Definition ResourceBuiltin : string := "builtin".
Definition ResourceSandbox : string := "sandbox".

Definition ResourceClass_Valid (value : string) : bool :=
  bool_decide (value = ResourceBuiltin) || bool_decide (value = ResourceSandbox).

Record Candidate : Type := MkCandidate {
  cd_ProjectID : string;
  cd_RunID : string;
  cd_NodeRunID : string;
  cd_ExecutionNodeID : string;
  cd_StateVersion : Z;
  cd_Priority : Z;
  cd_ReadyAt : Time;
  cd_ResourceClass : string }.

Record Inflight : Type := MkInflight {
  if_AttemptID : string;
  if_ProjectID : string;
  if_ResourceClass : string }.

Record AuthoritySnapshot : Type := MkAuthoritySnapshot {
  as_Candidates : list Candidate;
  as_Inflight : list Inflight }.

Record PlannedAdmission : Type := MkPlannedAdmission {
  pa_ProjectID : string;
  pa_ResourceClass : string }.

Record LanePlan : Type := MkLanePlan {
  lp_Lane : Z;
  lp_Candidates : list Candidate;
  lp_Inflight : list Inflight;
  lp_Admissions : list PlannedAdmission }.

Record Plan : Type := MkPlan {
  pl_Epoch : Z;
  pl_GlobalWindow : Z;
  pl_PoolWindows : gmap string Z;
  pl_Lanes : list LanePlan;
  pl_TotalAdmissions : Z }.

Record Reservation : Type := MkReservation {
  rv_AttemptID : string;
  rv_ProjectID : string;
  rv_Lane : Z;
  rv_ResourceClass : string;
  rv_Candidate : Candidate;
  rv_Confirmed : bool;
  rv_Epoch : string }.

#[export] Instance Candidate_eq_dec : EqDecision Candidate.
Proof. solve_decision. Defined.
#[export] Instance Inflight_eq_dec : EqDecision Inflight.
Proof. solve_decision. Defined.
#[export] Instance PlannedAdmission_eq_dec : EqDecision PlannedAdmission.
Proof. solve_decision. Defined.

Definition Candidate_Validate (c : Candidate) : res unit :=
  guard_err (bool_decide (cd_ProjectID c = "") || bool_decide (cd_RunID c = "")
             || bool_decide (cd_NodeRunID c = "") || bool_decide (cd_ExecutionNodeID c = "")
             || (cd_StateVersion c =? 0) || IsZero (cd_ReadyAt c)
             || negb (ResourceClass_Valid (cd_ResourceClass c)))
    (Errorf "ready candidate identity, version, time and resource class are required" []).

(** ** Lanes *)

(** [fnv.New64a] over the bytes of a string. *)
Fixpoint fnv64a (hash : Z) (s : string) : Z :=
  match s with
  | ""%string => hash
  | String a r =>
      fnv64a (u64 (Z.lxor hash (Z.of_N (Ascii.N_of_ascii a)) * 1099511628211)) r
  end.

Definition power_of_two_or_zero (n : Z) : bool := Z.land n (n - 1) =? 0.

Definition LaneFor (projectID : string) (laneCount : Z) : res Z :=
  guard_err (bool_decide (projectID = "") || (laneCount <=? 0) || negb (power_of_two_or_zero laneCount))
    (Errorf "project identity and power-of-two lane count are required" []) ;;
  Ok (Z.land (fnv64a 14695981039346656037 projectID) (laneCount - 1)).

(** The lane, or zero where the code drops the error. *)
Definition lane_of (projectID : string) (laneCount : Z) : Z := res_or 0 (LaneFor projectID laneCount).

(** ** Candidate order *)

(** [less] of [sortCandidates], made reflexive: project, then higher priority,
    then earlier ready time, then Node Run identity. *)
Definition candidate_leb (a b : Candidate) : bool :=
  if negb (bool_decide (cd_ProjectID a = cd_ProjectID b)) then String.leb (cd_ProjectID a) (cd_ProjectID b)
  else if negb (cd_Priority a =? cd_Priority b) then cd_Priority b <? cd_Priority a
  else if negb (cd_ReadyAt a =? cd_ReadyAt b) then cd_ReadyAt a <? cd_ReadyAt b
  else String.leb (cd_NodeRunID a) (cd_NodeRunID b).

Definition candidate_le (a b : Candidate) : Prop := candidate_leb a b = true.
(** The order, one key at a time. *)
Lemma candidate_le_lex a b : candidate_le a b ↔
  cd_ProjectID a ≠ cd_ProjectID b ∧ String.le (cd_ProjectID a) (cd_ProjectID b) ∨
  cd_ProjectID a = cd_ProjectID b ∧
    (cd_Priority b < cd_Priority a ∨ cd_Priority a = cd_Priority b ∧
      (cd_ReadyAt a < cd_ReadyAt b ∨ cd_ReadyAt a = cd_ReadyAt b ∧
         String.le (cd_NodeRunID a) (cd_NodeRunID b))).
Proof.
  unfold candidate_le, candidate_leb, String.le. rewrite !Is_true_true.
  case_bool_decide; simpl; [|tauto].
  destruct (_ =? _) eqn:H1; simpl; bool_prop; [|rewrite Z.ltb_lt].
  2: { split; [by auto|]. intros [[? ?]|(_ & [?|[? _]])]; done. }
  destruct (_ =? _) eqn:H2; simpl; bool_prop; [|rewrite Z.ltb_lt].
  2: { split; [by auto 6|]. intros [[? ?]|(_ & [?|(_ & [?|[? _]])])]; done || lia. }
  split; [by auto 7|]. intros [[? ?]|(_ & [?|(_ & [?|[_ ?]])])]; done || lia.
Qed.

#[export] Instance candidate_le_total : Total candidate_le.
Proof.
  intros a b. rewrite !candidate_le_lex.
  destruct (decide (cd_ProjectID a = cd_ProjectID b)) as [Hp|Hp].
  - destruct (Z.lt_total (cd_Priority a) (cd_Priority b)) as [?|[?|?]];
      destruct (Z.lt_total (cd_ReadyAt a) (cd_ReadyAt b)) as [?|[?|?]];
      destruct (total String.le (cd_NodeRunID a) (cd_NodeRunID b));
      (by left; right; auto 7) || (by right; right; auto 7).
  - destruct (total String.le (cd_ProjectID a) (cd_ProjectID b)); auto.
Qed.

#[export] Instance candidate_le_trans : Transitive candidate_le.
Proof.
  intros a b c. rewrite !candidate_le_lex.
  intros [[Hn1 H1]|[Hp1 H1]] [[Hn2 H2]|[Hp2 H2]].
  - left. split; [|by etrans]. intros Heq. rewrite Heq in *.
    apply Hn1. symmetry. by apply (anti_symm String.le).
  - left. by rewrite <-Hp2.
  - left. by rewrite Hp1.
  - right. split; [congruence|].
    destruct H1 as [?|[? [?|[? H1]]]], H2 as [?|[? [?|[? H2]]]]; try (left; lia);
      right; (split; [lia|]); try (left; lia).
    right. split; [lia|by etrans].
Qed.

#[export] Instance candidate_le_dec a b : Decision (candidate_le a b) := decide (_ = _).

(** [sort.Slice] is not stable; candidates with all four keys equal may come
    out in either order, and this model takes one of them. *)
Definition sortCandidates (values : list Candidate) : list Candidate := merge_sort candidate_le values.

(** ** The planner *)

Fixpoint validate_candidates (l : list Candidate) : res unit :=
  match l with [] => Ok tt | c :: r => Candidate_Validate c ;; validate_candidates r end.

Definition bump {K} `{Countable K} (k : K) (m : gmap K Z) : gmap K Z :=
  <[k := default 0 (m !! k) + 1]> m.

Record inflight_counts : Type := MkCounts {
  ic_seen : gset string;
  ic_project : gmap string Z;
  ic_pool : gmap string Z }.

Fixpoint count_inflight (acc : inflight_counts) (l : list Inflight) : res inflight_counts :=
  match l with
  | [] => Ok acc
  | v :: r =>
      guard_err (bool_decide (if_AttemptID v = "") || bool_decide (if_ProjectID v = "")
                 || negb (ResourceClass_Valid (if_ResourceClass v)))
        (Errorf "inflight reservation is invalid" []) ;;
      if bool_decide (if_AttemptID v ∈ ic_seen acc) then count_inflight acc r
      else count_inflight
             (MkCounts ({[if_AttemptID v]} ∪ ic_seen acc) (bump (if_ProjectID v) (ic_project acc))
                (bump (if_ResourceClass v) (ic_pool acc))) r
  end.

Definition append_to {K A} `{Countable K} (k : K) (x : A) (m : gmap K (list A)) : gmap K (list A) :=
  <[k := default [] (m !! k) ++ [x]]> m.

Definition build_queues (l : list Candidate) : gmap string (list Candidate) :=
  fold_left (λ q c, append_to (cd_ProjectID c) c q) l ∅.

Definition rotate (epoch : Z) (projects : list string) : list string :=
  if bool_decide (projects = []) then projects
  else let offset := Z.to_nat (u64 (epoch - 1) mod Z.of_nat (length projects)) in
       drop offset projects ++ take offset projects.

(** The state of the filling loop. *)
Record fill : Type := MkFill {
  fi_queues : gmap string (list Candidate);
  fi_granted : gmap string Z;
  fi_pool : gmap string Z;
  fi_planned : gmap Z (list PlannedAdmission);
  fi_global : Z }.

Section Filling.
Context (projects : list string) (projectInflight : gmap string Z) (laneCount : Z).

Definition queue (st : fill) (p : string) : list Candidate := default [] (fi_queues st !! p).
Definition pool_left (st : fill) (class : string) : Z := default 0 (fi_pool st !! class).
Definition level (st : fill) (p : string) : Z :=
  default 0 (projectInflight !! p) + default 0 (fi_granted st !! p).

(** A project is served when its next candidate's pool has room left. *)
Definition eligible (st : fill) (p : string) : bool :=
  match queue st p with
  | [] => false
  | c :: _ => negb (pool_left st (cd_ResourceClass c) =? 0)
  end.

(** The selection scan; the empty string stands for no selection. *)
Definition select_one (st : fill) (acc : string * Z) (p : string) : string * Z :=
  if negb (eligible st p) then acc
  else if bool_decide (acc.1 = "") || (level st p <? acc.2) then (p, level st p) else acc.

Definition select (st : fill) : string := (fold_left (select_one st) projects ("", 0)).1.

Definition fill_step (st : fill) : option (Candidate * fill) :=
  let selected := select st in
  if bool_decide (selected = "") then None
  else
    match queue st selected with
    | [] => None
    | c :: rest =>
        Some (c, MkFill (<[selected := rest]> (fi_queues st)) (bump selected (fi_granted st))
                   (<[cd_ResourceClass c := pool_left st (cd_ResourceClass c) - 1]> (fi_pool st))
                   (append_to (lane_of selected laneCount)
                      (MkPlannedAdmission selected (cd_ResourceClass c)) (fi_planned st))
                   (fi_global st - 1))
    end.

(** [for remainingGlobal > 0]: every pass uses up one unit of the window. *)
Fixpoint fill_loop (fuel : nat) (st : fill) : fill :=
  match fuel with
  | O => st
  | S fuel' =>
      if 0 <? fi_global st then
        match fill_step st with Some (_, st') => fill_loop fuel' st' | None => st end
      else st
  end.
End Filling.

Definition plan_lane (laneCount : Z) (candidates : list Candidate) (inflight : list Inflight)
    (planned : gmap Z (list PlannedAdmission)) (lane : Z) : LanePlan :=
  MkLanePlan lane
    (List.filter (λ c, lane_of (cd_ProjectID c) laneCount =? lane) candidates)
    (List.filter (λ v, lane_of (if_ProjectID v) laneCount =? lane) inflight)
    (default [] (planned !! lane)).

Definition initial_fill (queues : gmap string (list Candidate)) (counts : inflight_counts)
    (globalWindow : Z) (poolWindows : gmap string Z) : fill :=
  let left := globalWindow - Z.of_nat (size (ic_seen counts)) in
  MkFill queues ∅
    (map_imap (λ class window, Some (Z.max 0 (i64 (window - default 0 (ic_pool counts !! class))))) poolWindows)
    ∅ (if left <? 0 then 0 else left).

Definition BuildPlan (snapshot : AuthoritySnapshot) (laneCount globalWindow : Z)
    (poolWindows : gmap string Z) (epoch : Z) : res Plan :=
  guard_err ((laneCount <=? 0) || negb (power_of_two_or_zero laneCount) || (globalWindow <? 0) || (epoch =? 0))
    (Errorf "planner dimensions are invalid" []) ;;
  validate_candidates (as_Candidates snapshot) ;;
  let candidates := sortCandidates (as_Candidates snapshot) in
  let queues := build_queues candidates in
  counts ← count_inflight (MkCounts ∅ ∅ ∅) (as_Inflight snapshot);
  let projects := rotate epoch (sorted_keys queues) in
  let st0 := initial_fill queues counts globalWindow poolWindows in
  let st := fill_loop projects (ic_project counts) laneCount (Z.to_nat (fi_global st0)) st0 in
  let lanes := plan_lane laneCount candidates (as_Inflight snapshot) (fi_planned st)
                 <$> seqZ 0 laneCount in
  Ok (MkPlan epoch globalWindow poolWindows lanes
        (Z.of_nat (sum_list (length ∘ lp_Admissions <$> lanes)))).

(** ** Credit batches *)

Fixpoint credit_batches (fuel : nat) (admissions : list PlannedAdmission) (size : nat)
    : list (list PlannedAdmission) :=
  match fuel, admissions with
  | S fuel', _ :: _ =>
      let count := Nat.min size (length admissions) in
      take count admissions :: credit_batches fuel' (drop count admissions) size
  | _, _ => []
  end.

Definition CreditBatches (admissions : list PlannedAdmission) (size : Z) : res (list (list PlannedAdmission)) :=
  guard_err (size <=? 0) (Errorf "credit batch size must be positive" []) ;;
  Ok (credit_batches (length admissions) admissions (Z.to_nat size)).

(** ** Reservation merging *)

Definition add_to_lane (lane : Z) (id : string) (m : gmap Z (gset string)) : gmap Z (gset string) :=
  <[lane := {[id]} ∪ default ∅ (m !! lane)]> m.

Record merge : Type := MkMerge {
  mg_inflight : list Inflight;
  mg_keep : gmap Z (gset string);
  mg_renew : gmap Z (gset string);
  mg_reserved : gset string;
  mg_seen : gset string }.

(** First loop: attempts the database knows are kept and renewed. *)
Definition merge_authority (laneCount : Z) (m : merge) (v : Inflight) : merge :=
  let lane := lane_of (if_ProjectID v) laneCount in
  MkMerge (mg_inflight m) (add_to_lane lane (if_AttemptID v) (mg_keep m))
    (add_to_lane lane (if_AttemptID v) (mg_renew m)) (mg_reserved m) ({[if_AttemptID v]} ∪ mg_seen m).

(** Second loop: a confirmed reservation whose attempt is not in flight any
    more is dropped; any other one blocks its node and counts once. *)
Definition merge_reservation (m : merge) (r : Reservation) : merge :=
  if rv_Confirmed r && negb (bool_decide (rv_AttemptID r ∈ mg_seen m)) then m
  else
    let keep := add_to_lane (rv_Lane r) (rv_AttemptID r) (mg_keep m) in
    let reserved := {[cd_NodeRunID (rv_Candidate r)]} ∪ mg_reserved m in
    if bool_decide (rv_AttemptID r ∈ mg_seen m)
    then MkMerge (mg_inflight m) keep (mg_renew m) reserved (mg_seen m)
    else MkMerge (mg_inflight m ++ [MkInflight (rv_AttemptID r) (rv_ProjectID r) (rv_ResourceClass r)])
           keep (mg_renew m) reserved ({[rv_AttemptID r]} ∪ mg_seen m).

Definition mergeReservations (snapshot : AuthoritySnapshot) (reservations : list Reservation) (laneCount : Z)
    : AuthoritySnapshot * gmap Z (gset string) * gmap Z (gset string) :=
  let m1 := fold_left (merge_authority laneCount) (as_Inflight snapshot)
              (MkMerge (as_Inflight snapshot) ∅ ∅ ∅ ∅) in
  let m2 := fold_left merge_reservation reservations m1 in
  (MkAuthoritySnapshot
     (List.filter (λ c, negb (bool_decide (cd_NodeRunID c ∈ mg_reserved m2))) (as_Candidates snapshot))
     (mg_inflight m2),
   mg_keep m2, mg_renew m2).

(** ** Selection *)

Section FillFacts.
Context (projects : list string) (projectInflight : gmap string Z) (laneCount : Z).
Context (projects_named : "" ∉ projects).

Local Notation level := (level projectInflight).
Local Notation select := (select projects projectInflight).
Local Notation fill_step := (fill_step projects projectInflight laneCount).
Local Notation fill_loop := (fill_loop projects projectInflight laneCount).

(** The scan keeps the first project of least level among the eligible ones
    it has passed. *)
Definition scan_best (st : fill) (l : list string) (acc : string * Z) : Prop :=
  (acc.1 = "" ∧ Forall (λ p, eligible st p = false) l) ∨
  (acc.1 ∈ l ∧ eligible st acc.1 = true ∧ acc.2 = level st acc.1 ∧
   Forall (λ q, eligible st q = true → level st acc.1 ≤ level st q) l).

Lemma scan_best_step st l acc p :
  "" ∉ l → p ≠ "" → scan_best st l acc →
  scan_best st (l ++ [p]) (select_one projectInflight st acc p).
Proof.
  intros Hl Hp Hacc. unfold select_one, scan_best in *.
  destruct (eligible st p) eqn:He; simpl.
  - case_bool_decide as Hz; simpl.
    + right. rewrite Forall_app, Forall_singleton.
      split_and!; auto; [set_solver| |lia].
      destruct Hacc as [[_ Hn]|(Hin & _)]; [|by rewrite Hz in Hin].
      eapply Forall_impl; [exact Hn|]. intros q ? ?; congruence.
    + destruct Hacc as [[? _]|(Hin & He' & Hlv & Hmin)]; [done|].
      destruct (_ <? _) eqn:Hlt; bool_prop; right; simpl; rewrite Forall_app, Forall_singleton.
      * split_and!; auto; [set_solver| |lia].
        eapply Forall_impl; [exact Hmin|]. intros q Hq ?. specialize (Hq ltac:(done)). lia.
      * split_and!; auto; [set_solver|]. intros _. lia.
  - rewrite !Forall_app, !Forall_singleton. destruct Hacc as [[? ?]|(? & ? & ? & ?)].
    + left. auto.
    + right. split_and!; auto; [set_solver|congruence].
Qed.

Lemma scan_best_fold st l l0 acc :
  "" ∉ l0 → "" ∉ l → scan_best st l0 acc →
  scan_best st (l0 ++ l) (fold_left (select_one projectInflight st) l acc).
Proof.
  revert l0 acc; induction l as [|p l IH]; intros l0 acc Hl0 Hl Hacc; simpl.
  - by rewrite app_nil_r.
  - rewrite cons_middle, app_assoc. apply IH; [set_solver..|].
    apply scan_best_step; set_solver.
Qed.

Lemma select_none st : select st = "" → ∀ p, p ∈ projects → eligible st p = false.
Proof.
  intros Hs p Hp.
  destruct (scan_best_fold st projects [] ("", 0)) as [[_ Hf]|(Hin & _)]; simpl in *;
    [set_solver|done|left; auto| |].
  - by eapply Forall_forall in Hf.
  - unfold Scheduling.select in Hs. rewrite Hs in Hin. done.
Qed.

Lemma select_some st p : select st = p → p ≠ "" →
  p ∈ projects ∧ eligible st p = true ∧
  ∀ q, q ∈ projects → eligible st q = true → level st p ≤ level st q.
Proof.
  intros Hs Hne.
  destruct (scan_best_fold st projects [] ("", 0)) as [[Hz _]|(Hin & He & _ & Hmin)]; simpl in *;
    [set_solver|done|left; auto| |].
  - unfold Scheduling.select in Hs. congruence.
  - unfold Scheduling.select in Hs. rewrite Hs in *. rewrite Forall_forall in Hmin. auto.
Qed.

(** ** Runs of the filling loop *)

Inductive fill_run : fill → list Candidate → fill → Prop :=
  | fill_done st : fill_run st [] st
  | fill_more st c st1 h st2 :
      0 < fi_global st → fill_step st = Some (c, st1) → fill_run st1 h st2 →
      fill_run st (c :: h) st2.

Lemma fill_loop_run fuel st :
  (Z.to_nat (fi_global st) ≤ fuel)%nat →
  ∃ h, fill_run st h (fill_loop fuel st) ∧
       (fi_global (fill_loop fuel st) ≤ 0 ∨ fill_step (fill_loop fuel st) = None).
Proof.
  revert st; induction fuel as [|fuel IH]; intros st Hf; simpl.
  - exists []. split; [constructor|lia].
  - destruct (0 <? fi_global st) eqn:Hg; bool_prop; [|exists []; split; [constructor|lia]].
    destruct (fill_step st) as [[c st1]|] eqn:Hs; [|exists []; split; [constructor|auto]].
    destruct (IH st1) as (h & Hr & He).
    { unfold Scheduling.fill_step in Hs. repeat case_match; simplify_eq. simpl. lia. }
    exists (c :: h). split; [by econstructor|done].
Qed.

(** Queues hold the candidates of their own project. *)
Definition queues_ok (st : fill) : Prop :=
  ∀ p, Forall (λ c, cd_ProjectID c = p) (queue st p).

(** What one admission does. *)
Record step_spec (st : fill) (c : Candidate) (st' : fill) : Prop := {
  ss_project : cd_ProjectID c ∈ projects;
  ss_pool : pool_left st (cd_ResourceClass c) ≠ 0;
  ss_least : ∀ q, q ∈ projects → eligible st q = true → level st (cd_ProjectID c) ≤ level st q;
  ss_queue : ∀ p, queue st p = filter (λ c', cd_ProjectID c' = p) [c] ++ queue st' p;
  ss_level : ∀ p, level st' p = level st p + (if bool_decide (cd_ProjectID c = p) then 1 else 0);
  ss_left : ∀ k, pool_left st' k = pool_left st k - (if bool_decide (cd_ResourceClass c = k) then 1 else 0);
  ss_planned : ∀ lane, default [] (fi_planned st' !! lane) =
    default [] (fi_planned st !! lane) ++
    (if bool_decide (lane_of (cd_ProjectID c) laneCount = lane)
     then [MkPlannedAdmission (cd_ProjectID c) (cd_ResourceClass c)] else []);
  ss_global : fi_global st' = fi_global st - 1 }.

Lemma fill_step_spec st c st' :
  queues_ok st → fill_step st = Some (c, st') → step_spec st c st' ∧ queues_ok st'.
Proof.
  intros Hq. unfold Scheduling.fill_step. case_bool_decide as Hz; [done|].
  destruct (queue st (select st)) as [|c' rest] eqn:Hqs; [done|]. intros [= -> <-].
  destruct (select_some st _ eq_refl Hz) as (Hin & He & Hmin).
  pose proof (Hq (select st)) as Hall. rewrite Hqs in Hall.
  apply Forall_cons in Hall as [Hp Hall]. unfold eligible in He. rewrite Hqs in He. bool_prop.
  split.
  - constructor; rewrite ?Hp; auto.
    + intros p. unfold queue in *; simpl. rewrite filter_cons, filter_nil, Hp, lookup_insert.
      case_decide as Hd; simpl; [by rewrite <-Hd|done].
    + intros p. unfold Scheduling.level, bump; simpl. rewrite lookup_insert.
      case_decide; case_bool_decide; simplify_eq; simpl; lia.
    + intros k. unfold pool_left; simpl. rewrite lookup_insert.
      case_decide; case_bool_decide; simplify_eq; simpl; lia.
    + intros lane. unfold append_to; simpl. rewrite lookup_insert.
      case_decide; case_bool_decide; simplify_eq; simpl; auto. by rewrite app_nil_r.
  - intros p. unfold queue in *; simpl. rewrite lookup_insert. case_decide; simplify_eq; auto.
Qed.
(** What a run of the loop does: [h] lists the admitted candidates in order. *)
Definition of_project (p : string) (h : list Candidate) : list Candidate :=
  filter (λ c, cd_ProjectID c = p) h.
Definition of_class (k : string) (h : list Candidate) : list Candidate :=
  filter (λ c, cd_ResourceClass c = k) h.
Definition admission (c : Candidate) : PlannedAdmission :=
  MkPlannedAdmission (cd_ProjectID c) (cd_ResourceClass c).

Record run_spec (st : fill) (h : list Candidate) (st' : fill) : Prop := {
  rs_projects : Forall (λ c, cd_ProjectID c ∈ projects) h;
  rs_queue : ∀ p, queue st p = of_project p h ++ queue st' p;
  rs_level : ∀ p, level st' p = level st p + Z.of_nat (length (of_project p h));
  rs_left : ∀ k, pool_left st' k = pool_left st k - Z.of_nat (length (of_class k h));
  rs_planned : ∀ lane, default [] (fi_planned st' !! lane) =
    default [] (fi_planned st !! lane) ++
    (admission <$> filter (λ c, lane_of (cd_ProjectID c) laneCount = lane) h);
  rs_global : fi_global st' = fi_global st - Z.of_nat (length h);
  rs_global_pos : 0 ≤ fi_global st → 0 ≤ fi_global st';
  rs_pool_pos : (∀ k, 0 ≤ pool_left st k) → ∀ k, 0 ≤ pool_left st' k;
  rs_eligible : ∀ q, eligible st' q = true → eligible st q = true;
  rs_fair : ∀ p q, of_project p h ≠ [] → q ∈ projects → eligible st' q = true →
    level st' p ≤ level st' q + 1 }.

Lemma step_eligible st c st' q :
  step_spec st c st' → eligible st' q = true → eligible st q = true.
Proof.
  intros Hs. unfold eligible. rewrite (ss_queue _ _ _ Hs q), filter_cons, filter_nil.
  case_decide as Hd; simpl.
  - intros _. apply negb_true_iff, Z.eqb_neq, (ss_pool _ _ _ Hs).
  - destruct (queue st' q) as [|c' r]; [done|]. intros He. bool_prop.
    apply negb_true_iff, Z.eqb_neq. rewrite (ss_left _ _ _ Hs) in He.
    pose proof (ss_pool _ _ _ Hs). case_bool_decide as Hk; [by rewrite <-Hk|lia].
Qed.

Lemma level_mono st c st' q : step_spec st c st' → level st q ≤ level st' q.
Proof. intros Hs. rewrite (ss_level _ _ _ Hs). case_bool_decide; lia. Qed.

Lemma run_spec_cons st c st1 h st2 :
  0 < fi_global st → step_spec st c st1 → run_spec st1 h st2 → run_spec st (c :: h) st2.
Proof.
  intros Hg Hs Hr. constructor.
  - constructor; [apply (ss_project _ _ _ Hs)|apply (rs_projects _ _ _ Hr)].
  - intros p. rewrite (ss_queue _ _ _ Hs p), (rs_queue _ _ _ Hr p), (assoc_L (++)).
    unfold of_project. by rewrite <-filter_app.
  - intros p. rewrite (rs_level _ _ _ Hr), (ss_level _ _ _ Hs). unfold of_project.
    rewrite filter_cons. case_bool_decide; case_decide; simpl; try done; lia.
  - intros k. rewrite (rs_left _ _ _ Hr), (ss_left _ _ _ Hs). unfold of_class.
    rewrite filter_cons. case_bool_decide; case_decide; simpl; try done; lia.
  - intros lane. rewrite (rs_planned _ _ _ Hr), (ss_planned _ _ _ Hs), filter_cons, <-(assoc_L (++)).
    f_equal. case_bool_decide; case_decide; simpl; done.
  - rewrite (rs_global _ _ _ Hr), (ss_global _ _ _ Hs). simpl. lia.
  - intros _. apply (rs_global_pos _ _ _ Hr). rewrite (ss_global _ _ _ Hs). lia.
  - intros Hp. apply (rs_pool_pos _ _ _ Hr). intros k. rewrite (ss_left _ _ _ Hs).
    pose proof (ss_pool _ _ _ Hs). pose proof (Hp k). case_bool_decide; subst; lia.
  - intros q Hq. apply (step_eligible _ _ _ _ Hs), (rs_eligible _ _ _ Hr q Hq).
  - intros p q Hp Hq He. destruct (decide (of_project p h = [])) as [Hn|Hn].
    + assert (cd_ProjectID c = p) as <-.
      { unfold of_project in *. rewrite filter_cons in Hp. by case_decide. }
      assert (eligible st q = true) as He0
        by (apply (step_eligible _ _ _ _ Hs), (rs_eligible _ _ _ Hr q He)).
      pose proof (ss_least _ _ _ Hs q Hq He0).
      rewrite !(rs_level _ _ _ Hr), Hn, (ss_level _ _ _ Hs (cd_ProjectID c)).
      pose proof (level_mono _ _ _ q Hs). rewrite bool_decide_true by done. simpl. lia.
    + by apply (rs_fair _ _ _ Hr).
Qed.

Lemma run_spec_nil st : run_spec st [] st.
Proof.
  constructor; intros; unfold of_project, of_class in *; simpl in *; auto; try lia; try done.
  by rewrite app_nil_r.
Qed.

Lemma fill_run_spec st h st' : queues_ok st → fill_run st h st' → run_spec st h st'.
Proof.
  intros Hq Hr. induction Hr as [st|st c st1 h st2 Hg Hs Hr IH]; [apply run_spec_nil|].
  destruct (fill_step_spec st c st1 Hq Hs) as [Hs' Hq']. eapply run_spec_cons; eauto.
Qed.

Lemma fill_run_queues st h st' : queues_ok st → fill_run st h st' → queues_ok st'.
Proof.
  intros Hq Hr. induction Hr as [st|st c st1 h st2 Hg Hs Hr IH]; [done|].
  by apply IH, (fill_step_spec st c st1).
Qed.

(** The loop ends with the window used up or with every project blocked. *)
Lemma fill_step_none st : queues_ok st → fill_step st = None →
  ∀ p, p ∈ projects → eligible st p = false.
Proof.
  intros Hq. unfold Scheduling.fill_step. case_bool_decide as Hz.
  - intros _. by apply select_none.
  - destruct (select_some st _ eq_refl Hz) as (_ & He & _). unfold eligible in He.
    by destruct (queue st (select st)).
Qed.
End FillFacts.

(** ** From the snapshot to the loop *)

Lemma build_queues_lookup l p :
  default [] (build_queues l !! p) = of_project p l.
Proof.
  unfold build_queues.
  assert (∀ q, default [] (fold_left (λ q c, append_to (cd_ProjectID c) c q) l q !! p)
               = default [] (q !! p) ++ of_project p l) as H; [|by rewrite H].
  unfold of_project. induction l as [|c l IH]; intros q; simpl; [by rewrite app_nil_r|].
  rewrite IH, filter_cons. unfold append_to. rewrite lookup_insert.
  case_decide as Hd; [rewrite Hd|]; simpl; [|done]. by rewrite <-(assoc_L (++)).
Qed.

Lemma build_queues_dom l p :
  is_Some (build_queues l !! p) ↔ ∃ c, c ∈ l ∧ cd_ProjectID c = p.
Proof.
  unfold build_queues.
  assert (∀ q, is_Some (fold_left (λ q c, append_to (cd_ProjectID c) c q) l q !! p)
               ↔ is_Some (q !! p) ∨ ∃ c, c ∈ l ∧ cd_ProjectID c = p) as H.
  { induction l as [|c l IH]; intros q; simpl; [set_solver|].
    rewrite IH. unfold append_to. rewrite lookup_insert_is_Some'. set_solver. }
  rewrite H, lookup_empty. split; [intros [[? [=]]|?]; done|auto].
Qed.

Lemma rotate_perm epoch l : rotate epoch l ≡ₚ l.
Proof.
  unfold rotate. case_bool_decide; [done|].
  rewrite (comm (++)). by rewrite take_drop.
Qed.

(** Attempts that hold capacity: an attempt reported twice counts once. *)
Fixpoint distinct_inflight (seen : gset string) (l : list Inflight) : list Inflight :=
  match l with
  | [] => []
  | v :: r => if bool_decide (if_AttemptID v ∈ seen) then distinct_inflight seen r
              else v :: distinct_inflight ({[if_AttemptID v]} ∪ seen) r
  end.

Definition inflight_count (f : Inflight → string) (k : string) (l : list Inflight) : Z :=
  Z.of_nat (length (filter (λ v, f v = k) (distinct_inflight ∅ l))).

Lemma bump_lookup (k k' : string) m :
  default 0 (bump k m !! k') = default 0 (m !! k') + (if decide (k = k') then 1 else 0).
Proof. unfold bump. rewrite lookup_insert. case_decide; subst; simpl; lia. Qed.

Lemma count_inflight_spec l acc out :
  count_inflight acc l = Ok out →
  size (ic_seen out) = (size (ic_seen acc) + length (distinct_inflight (ic_seen acc) l))%nat ∧
  (∀ p, default 0 (ic_project out !! p) = default 0 (ic_project acc !! p) +
     Z.of_nat (length (filter (λ v, if_ProjectID v = p) (distinct_inflight (ic_seen acc) l)))) ∧
  (∀ k, default 0 (ic_pool out !! k) = default 0 (ic_pool acc !! k) +
     Z.of_nat (length (filter (λ v, if_ResourceClass v = k) (distinct_inflight (ic_seen acc) l)))).
Proof.
  revert acc; induction l as [|v l IH]; intros acc; simpl.
  - intros [= <-]. split_and!; intros; lia.
  - intros H. apply bind_guard in H as [_ H]. case_bool_decide as Hd; [by apply IH|].
    apply IH in H as (H1 & H2 & H3). cbn [ic_seen ic_project ic_pool] in *. split_and!.
    + rewrite H1, size_union, size_singleton by set_solver. simpl. lia.
    + intros p. rewrite H2, bump_lookup, filter_cons. case_decide; simpl; lia.
    + intros p. rewrite H3, bump_lookup, filter_cons. case_decide; simpl; lia.
Qed.

Lemma count_inflight_named l acc out :
  count_inflight acc l = Ok out → Forall (λ v, if_ProjectID v ≠ "") l.
Proof.
  revert acc; induction l as [|v l IH]; intros acc; simpl; [constructor|].
  intros H. apply bind_guard in H as [? H]. bool_prop.
  constructor; [done|]. case_bool_decide; eauto.
Qed.

Lemma validate_candidates_Ok l : validate_candidates l = Ok tt →
  Forall (λ c, cd_ProjectID c ≠ "" ∧ Candidate_Validate c = Ok tt) l.
Proof.
  induction l as [|c l IH]; simpl; [constructor|]. intros H.
  apply bind_Ok in H as ([] & Hc & H). constructor; [|auto]. split; [|done].
  unfold Candidate_Validate in Hc. res_inv. bool_prop. done.
Qed.

(** ** Lanes *)

Lemma fnv64a_nonneg h s : 0 ≤ h → 0 ≤ fnv64a h s.
Proof. revert h; induction s as [|a s IH]; intros h Hh; simpl; [done|]. apply IH, u64_bound. Qed.

Lemma LaneFor_lane_of p n :
  0 < n → power_of_two_or_zero n = true → p ≠ "" → LaneFor p n = Ok (lane_of p n).
Proof.
  intros Hn Hpow Hp. unfold lane_of, LaneFor. rewrite Hpow, bool_decide_false by done.
  destruct (n <=? 0) eqn:H; bool_prop; [lia|done].
Qed.

(** The mask of a power of two bounds the lane. *)
Lemma lane_of_range p n : 0 < n → 0 ≤ lane_of p n < n.
Proof.
  intros Hn. unfold lane_of, LaneFor.
  destruct (_ || _); simpl; [lia|].
  assert (0 ≤ fnv64a 14695981039346656037 p) by (apply fnv64a_nonneg; lia).
  split; [by apply Z.land_nonneg; left|].
  pose proof (Z_land_le_r (fnv64a 14695981039346656037 p) (n - 1)). lia.
Qed.

(** ** What a plan promises *)

(** The candidates of a project in admission order. *)
Definition demand (s : AuthoritySnapshot) (p : string) : list Candidate :=
  of_project p (sortCandidates (as_Candidates s)).

Definition plan_admissions (plan : Plan) : list PlannedAdmission :=
  concat (lp_Admissions <$> pl_Lanes plan).
Definition admissions_of (plan : Plan) (p : string) : list PlannedAdmission :=
  filter (λ a, pa_ProjectID a = p) (plan_admissions plan).
Definition admissions_in (plan : Plan) (k : string) : list PlannedAdmission :=
  filter (λ a, pa_ResourceClass a = k) (plan_admissions plan).

Definition global_room (s : AuthoritySnapshot) (globalWindow : Z) : Z :=
  Z.max 0 (globalWindow - Z.of_nat (length (distinct_inflight ∅ (as_Inflight s)))).
Definition pool_room (s : AuthoritySnapshot) (poolWindows : gmap string Z) (k : string) : Z :=
  Z.max 0 (default 0 (poolWindows !! k) - inflight_count if_ResourceClass k (as_Inflight s)).

(** What a project holds once the plan is carried out. *)
Definition share (s : AuthoritySnapshot) (plan : Plan) (p : string) : Z :=
  inflight_count if_ProjectID p (as_Inflight s) + Z.of_nat (length (admissions_of plan p)).

(** A project can receive no more: its candidates are used up, or the pool of
    the next one is full. *)
Definition blocked (s : AuthoritySnapshot) (poolWindows : gmap string Z) (plan : Plan) (p : string) : Prop :=
  match drop (length (admissions_of plan p)) (demand s p) with
  | [] => True
  | c :: _ => Z.of_nat (length (admissions_in plan (cd_ResourceClass c)))
              = pool_room s poolWindows (cd_ResourceClass c)
  end.

(** Windows and list lengths are non-negative Go [int] values. *)
Definition windows_ok (s : AuthoritySnapshot) (poolWindows : gmap string Z) : Prop :=
  Z.of_nat (length (as_Inflight s)) < 2 ^ 63 ∧ map_Forall (λ _ w, 0 ≤ w < 2 ^ 63) poolWindows.

Lemma distinct_inflight_length seen l : (length (distinct_inflight seen l) ≤ length l)%nat.
Proof.
  revert seen; induction l as [|v l IH]; intros seen; simpl; [done|].
  case_bool_decide; simpl; [specialize (IH seen)|specialize (IH ({[if_AttemptID v]} ∪ seen))]; lia.
Qed.

(** Everything the theorems need to know of a successful [BuildPlan]: the
    admitted candidates [h] in admission order, and where they end up. *)
Record plan_run (s : AuthoritySnapshot) (laneCount globalWindow : Z) (pools : gmap string Z)
    (plan : Plan) (h : list Candidate) : Prop := {
  pr_lanes : 0 < laneCount;
  pr_lane_for : ∀ p, p ≠ "" → LaneFor p laneCount = Ok (lane_of p laneCount);
  pr_named : Forall (λ c, cd_ProjectID c ≠ "") (as_Candidates s);
  pr_inflight_named : Forall (λ v, if_ProjectID v ≠ "") (as_Inflight s);
  pr_lane : ∀ i lp, pl_Lanes plan !! i = Some lp → ∃ lane, seqZ 0 laneCount !! i = Some lane ∧
    lp = MkLanePlan lane
      (List.filter (λ c, lane_of (cd_ProjectID c) laneCount =? lane) (sortCandidates (as_Candidates s)))
      (List.filter (λ v, lane_of (if_ProjectID v) laneCount =? lane) (as_Inflight s))
      (admission <$> filter (λ c, lane_of (cd_ProjectID c) laneCount = lane) h);
  pr_admissions : lp_Admissions <$> pl_Lanes plan =
    (λ lane, admission <$> filter (λ c, lane_of (cd_ProjectID c) laneCount = lane) h) <$> seqZ 0 laneCount;
  pr_total : pl_TotalAdmissions plan = Z.of_nat (length (plan_admissions plan));
  pr_prefix : ∀ p, demand s p = of_project p h ++ drop (length (of_project p h)) (demand s p);
  pr_global : Z.of_nat (length h) ≤ global_room s globalWindow;
  pr_pool : windows_ok s pools →
    ∀ k, Z.of_nat (length (of_class k h)) ≤ pool_room s pools k;
  pr_done : windows_ok s pools →
    Z.of_nat (length h) = global_room s globalWindow ∨
    ∀ q, match drop (length (of_project q h)) (demand s q) with
         | [] => True
         | c :: _ => Z.of_nat (length (of_class (cd_ResourceClass c) h))
                     = pool_room s pools (cd_ResourceClass c)
         end;
  pr_fair : windows_ok s pools → ∀ p q c r,
    of_project p h ≠ [] →
    drop (length (of_project q h)) (demand s q) = c :: r →
    Z.of_nat (length (of_class (cd_ResourceClass c) h)) ≠ pool_room s pools (cd_ResourceClass c) →
    inflight_count if_ProjectID p (as_Inflight s) + Z.of_nat (length (of_project p h)) ≤
    inflight_count if_ProjectID q (as_Inflight s) + Z.of_nat (length (of_project q h)) + 1 }.

Lemma admissions_perm n h (plan : Plan) :
  0 < n →
  lp_Admissions <$> pl_Lanes plan =
    (λ lane, admission <$> filter (λ c, lane_of (cd_ProjectID c) n = lane) h) <$> seqZ 0 n →
  plan_admissions plan ≡ₚ admission <$> h.
Proof.
  intros Hn Hl. unfold plan_admissions. rewrite Hl.
  transitivity (admission <$> concat ((λ lane, filter (λ c, lane_of (cd_ProjectID c) n = lane) h) <$> seqZ 0 n)).
  { rewrite (concat_map admission (_ <$> _)). apply reflexive_eq. f_equal.
    by rewrite <-list_fmap_compose. }
  apply fmap_Permutation, (concat_classes_perm (λ c, lane_of (cd_ProjectID c) n)).
  - apply NoDup_seqZ.
  - apply Forall_forall. intros c _. apply elem_of_seqZ. pose proof (lane_of_range (cd_ProjectID c) n). lia.
Qed.

Lemma filter_admission p h :
  filter (λ a, pa_ProjectID a = p) (admission <$> h) = admission <$> of_project p h.
Proof. unfold of_project. by rewrite filter_fmap. Qed.

Lemma admissions_of_run s n gw pools plan h p :
  plan_run s n gw pools plan h → admissions_of plan p = admission <$> of_project p h.
Proof.
  intros Hr. unfold admissions_of, plan_admissions.
  rewrite filter_concat, (pr_admissions _ _ _ _ _ _ Hr), <-list_fmap_compose.
  pose proof (lane_of_range p n (pr_lanes _ _ _ _ _ _ Hr)).
  rewrite (concat_single _ _ (lane_of p n)).
  - simpl. rewrite filter_admission. f_equal. unfold of_project. rewrite list_filter_filter.
    apply list_filter_iff. naive_solver.
  - apply NoDup_seqZ.
  - apply elem_of_seqZ. lia.
  - intros lane _ Hne. simpl. rewrite filter_admission. unfold of_project.
    rewrite list_filter_filter, filter_none; [done|]. naive_solver.
Qed.

Lemma admissions_in_run s n gw pools plan h k :
  plan_run s n gw pools plan h → length (admissions_in plan k) = length (of_class k h).
Proof.
  intros Hr. unfold admissions_in, of_class.
  rewrite (admissions_perm n h plan) by apply Hr.
  by rewrite filter_fmap, length_fmap.
Qed.

Lemma initial_pool_pos queues counts gw pools k : 0 ≤ pool_left (initial_fill queues counts gw pools) k.
Proof.
  unfold pool_left, initial_fill; simpl. rewrite map_lookup_imap.
  destruct (pools !! k); simpl; lia.
Qed.

Lemma initial_pool_room s counts queues gw pools k :
  count_inflight (MkCounts ∅ ∅ ∅) (as_Inflight s) = Ok counts → windows_ok s pools →
  pool_left (initial_fill queues counts gw pools) k = pool_room s pools k.
Proof.
  intros (_ & _ & Hc)%count_inflight_spec [Hlen Hw]. specialize (Hc k).
  cbn [ic_seen ic_pool] in Hc. rewrite lookup_empty in Hc. simpl in Hc.
  unfold pool_left, pool_room, inflight_count, initial_fill; simpl. rewrite map_lookup_imap.
  pose proof (distinct_inflight_length ∅ (as_Inflight s)).
  pose proof (length_filter (λ v, if_ResourceClass v = k) (distinct_inflight ∅ (as_Inflight s))).
  destruct (pools !! k) as [w|] eqn:Hk; simpl; [|lia].
  specialize (Hw k w Hk). simpl in Hw. rewrite Hc, i64_small; lia.
Qed.

Lemma initial_global s counts queues gw pools :
  count_inflight (MkCounts ∅ ∅ ∅) (as_Inflight s) = Ok counts →
  fi_global (initial_fill queues counts gw pools) = global_room s gw.
Proof.
  intros (Hc & _)%count_inflight_spec. cbn [ic_seen] in Hc. rewrite size_empty in Hc.
  unfold initial_fill, global_room. cbn [fi_global]. rewrite Hc. destruct (_ <? _) eqn:H; bool_prop; lia.
Qed.

Lemma initial_queue l counts gw pools p :
  queue (initial_fill (build_queues l) counts gw pools) p = of_project p l.
Proof. apply build_queues_lookup. Qed.

(** Eligibility read off the history of a finished loop. *)
Lemma eligible_history projects infl n st h st' p (room : string → Z) :
  run_spec projects infl n st h st' → (∀ k, pool_left st k = room k) →
  let rest := drop (length (of_project p h)) (queue st p) in
  queue st' p = rest ∧
  eligible st' p = match rest with
    | [] => false
    | c :: _ => negb (Z.of_nat (length (of_class (cd_ResourceClass c) h)) =? room (cd_ResourceClass c))
    end.
Proof.
  intros Hr Hroom rest.
  assert (queue st' p = rest) as Hq.
  { subst rest. by rewrite (rs_queue _ _ _ _ _ _ Hr p), drop_app_length. }
  split; [done|]. unfold eligible. rewrite Hq. destruct rest as [|c r]; [done|].
  rewrite (rs_left _ _ _ _ _ _ Hr), Hroom. f_equal. apply eq_true_iff_eq. rewrite !Z.eqb_eq. lia.
Qed.

Section BuildPlanFacts.
Context (s : AuthoritySnapshot) (laneCount globalWindow : Z) (pools : gmap string Z) (epoch : Z).

Definition plan_projects : list string :=
  rotate epoch (sorted_keys (build_queues (sortCandidates (as_Candidates s)))).

Lemma elem_of_plan_projects p : p ∈ plan_projects ↔ demand s p ≠ [].
Proof.
  unfold plan_projects, demand, of_project. rewrite rotate_perm, elem_of_sorted_keys, build_queues_dom.
  split.
  - intros (c & Hc & Hp) Hf. eapply (filter_nil_not_elem_of (λ c, cd_ProjectID c = p)); eauto.
  - intros Hne. destruct (filter _ _) as [|c r] eqn:Hf; [done|].
    assert (c ∈ filter (λ c, cd_ProjectID c = p) (sortCandidates (as_Candidates s))) as Hin
      by (rewrite Hf; set_solver).
    apply list_elem_of_filter in Hin as [Hp Hin]. eauto.
Qed.

Lemma elem_of_sortCandidates c : c ∈ sortCandidates (as_Candidates s) ↔ c ∈ as_Candidates s.
Proof. unfold sortCandidates. by rewrite merge_sort_Permutation. Qed.

Lemma plan_projects_named :
  Forall (λ c, cd_ProjectID c ≠ "") (as_Candidates s) → "" ∉ plan_projects.
Proof.
  intros Hf. rewrite elem_of_plan_projects. intros Hne. apply Hne, filter_none.
  intros c Hc. apply elem_of_sortCandidates in Hc. rewrite Forall_forall in Hf. by apply Hf.
Qed.

(** The loop that a successful call went through. *)
Lemma BuildPlan_inv plan :
  BuildPlan s laneCount globalWindow pools epoch = Ok plan →
  let st0 counts := initial_fill (build_queues (sortCandidates (as_Candidates s))) counts globalWindow pools in
  ∃ counts h st,
    0 < laneCount ∧ power_of_two_or_zero laneCount = true ∧
    Forall (λ c, cd_ProjectID c ≠ "") (as_Candidates s) ∧
    count_inflight (MkCounts ∅ ∅ ∅) (as_Inflight s) = Ok counts ∧
    run_spec plan_projects (ic_project counts) laneCount (st0 counts) h st ∧
    (fi_global st ≤ 0 ∨ ∀ p, p ∈ plan_projects → eligible st p = false) ∧
    let lanes := plan_lane laneCount (sortCandidates (as_Candidates s)) (as_Inflight s) (fi_planned st)
                 <$> seqZ 0 laneCount in
    plan = MkPlan epoch globalWindow pools lanes (Z.of_nat (sum_list (length ∘ lp_Admissions <$> lanes))).
Proof.
  intros H st0. unfold BuildPlan in H.
  apply bind_guard in H as [Hdim H]. apply bind_Ok in H as ([] & Hval & H).
  apply bind_Ok in H as (counts & Hcount & H). injection H as <-. bool_prop.
  apply validate_candidates_Ok in Hval.
  assert (Forall (λ c, cd_ProjectID c ≠ "") (as_Candidates s)) as Hnamed
    by (eapply Forall_impl; [exact Hval|]; intros ? [? _]; done).
  assert (queues_ok (st0 counts)) as Hq0.
  { intros p. unfold st0. rewrite initial_queue. apply Forall_forall.
    intros c Hc. unfold of_project in Hc. by apply list_elem_of_filter in Hc as [? _]. }
  pose proof (plan_projects_named Hnamed) as Hpn. fold plan_projects. fold (st0 counts).
  destruct (fill_loop_run plan_projects (ic_project counts) laneCount
              (Z.to_nat (fi_global (st0 counts))) (st0 counts)) as (h & Hrun & Hend); [done|].
  eexists counts, h, _. split_and!; [done..|by apply fill_run_spec| |done].
  destruct Hend as [?|Hend]; [by left|right].
  intros p. eapply fill_step_none; [done| |done].
  by eapply fill_run_queues.
Qed.

Lemma BuildPlan_run plan :
  BuildPlan s laneCount globalWindow pools epoch = Ok plan →
  ∃ h, plan_run s laneCount globalWindow pools plan h.
Proof.
  intros (counts & h & st & Hl & Hpow & Hnamed & Hcount & Hrun & Hend & ->)%BuildPlan_inv.
  pose proof (count_inflight_spec _ _ _ Hcount) as (_ & Hproj & _). cbn [ic_seen ic_project] in Hproj.
  assert (∀ lane, default [] (fi_planned st !! lane) =
    admission <$> filter (λ c, lane_of (cd_ProjectID c) laneCount = lane) h) as Hpl
    by (intros; by rewrite (rs_planned _ _ _ _ _ _ Hrun)).
  pose proof (rs_global _ _ _ _ _ _ Hrun) as Hg. rewrite (initial_global s) in Hg by done.
  pose proof (rs_global_pos _ _ _ _ _ _ Hrun) as Hgp. rewrite (initial_global s) in Hgp by done.
  assert (0 ≤ global_room s globalWindow) as Hg0 by (unfold global_room; lia).
  assert (∀ p, level (ic_project counts) st p
    = inflight_count if_ProjectID p (as_Inflight s) + Z.of_nat (length (of_project p h))) as Hlevel.
  { intros p. rewrite (rs_level _ _ _ _ _ _ Hrun). unfold level. rewrite Hproj. unfold inflight_count.
    simpl. rewrite !lookup_empty. simpl. lia. }
  exists h. constructor; [done|intros; by apply LaneFor_lane_of|done|by eapply count_inflight_named| | | | | | | |].
  - intros i lp. cbn [pl_Lanes]. rewrite list_lookup_fmap, fmap_Some. intros (lane & Hi & ->).
    exists lane. split; [done|]. unfold plan_lane. by rewrite Hpl.
  - cbn [pl_Lanes]. rewrite <-list_fmap_compose. apply list_fmap_ext. intros; apply Hpl.
  - unfold plan_admissions. cbn [pl_TotalAdmissions pl_Lanes]. by rewrite length_concat, (list_fmap_compose lp_Admissions length).
  - intros p. unfold demand. rewrite <-(initial_queue _ counts globalWindow pools).
    by rewrite (rs_queue _ _ _ _ _ _ Hrun p) at 1 2; rewrite drop_app_length.
  - specialize (Hgp Hg0). lia.
  - intros Hw k. pose proof (rs_pool_pos _ _ _ _ _ _ Hrun (initial_pool_pos _ _ _ _) k) as Hp.
    rewrite (rs_left _ _ _ _ _ _ Hrun), (initial_pool_room s) in Hp by done. lia.
  - intros Hw. destruct Hend as [?|Hend]; [left; specialize (Hgp Hg0); lia|right; intros q].
    destruct (eligible_history _ _ _ _ _ _ q (pool_room s pools) Hrun) as [_ He];
      [intros; by apply initial_pool_room|]. rewrite initial_queue in He. fold (demand s q) in He.
    destruct (drop _ _) as [|c r] eqn:Hd; [done|]. rewrite Hend in He.
    + symmetry in He. bool_prop. done.
    + apply elem_of_plan_projects. intros Hn. by rewrite Hn, drop_nil in Hd.
  - intros Hw p q c r Hp Hd Hne. rewrite <-!Hlevel. apply (rs_fair _ _ _ _ _ _ Hrun); [done| |].
    + apply elem_of_plan_projects. intros Hn. by rewrite Hn, drop_nil in Hd.
    + destruct (eligible_history _ _ _ _ _ _ q (pool_room s pools) Hrun) as [_ ->];
        [intros; by apply initial_pool_room|]. rewrite initial_queue. fold (demand s q). rewrite Hd.
      by apply negb_true_iff, Z.eqb_neq.
Qed.
End BuildPlanFacts.

(** ** Reservation merging: facts *)

(** A reservation that still stands for work: not yet confirmed, or confirmed
    and its attempt in flight in the database. *)
Definition live (snapshot : AuthoritySnapshot) (r : Reservation) : Prop :=
  rv_Confirmed r = false ∨ rv_AttemptID r ∈ if_AttemptID <$> as_Inflight snapshot.

Lemma merge_authority_fold n l m :
  let m' := fold_left (merge_authority n) l m in
  mg_inflight m' = mg_inflight m ∧ mg_reserved m' = mg_reserved m ∧
  mg_seen m' = list_to_set (if_AttemptID <$> l) ∪ mg_seen m.
Proof.
  revert m; induction l as [|v l IH]; intros m; simpl; [split_and!; set_solver|].
  destruct (IH (merge_authority n m v)) as (-> & -> & ->). simpl. split_and!; [done..|set_solver].
Qed.

(** The second loop, given that every reservation has its own attempt. *)
Record merged (m : merge) (rs : list Reservation) (m' : merge) : Prop := {
  md_seen : ∀ a, a ∈ mg_seen m' ↔ a ∈ if_AttemptID <$> mg_inflight m';
  md_nodup : NoDup (if_AttemptID <$> mg_inflight m');
  md_inflight : ∀ a, a ∈ mg_seen m' ↔
     a ∈ mg_seen m ∨ ∃ r, r ∈ rs ∧ rv_Confirmed r = false ∧ rv_AttemptID r = a;
  md_reserved : ∀ id, id ∈ mg_reserved m' ↔ id ∈ mg_reserved m ∨
     ∃ r, r ∈ rs ∧ (rv_Confirmed r = false ∨ rv_AttemptID r ∈ mg_seen m) ∧ cd_NodeRunID (rv_Candidate r) = id }.

Lemma exists_snoc {A} (P : A → Prop) l y :
  (∃ x, x ∈ l ++ [y] ∧ P x) ↔ (∃ x, x ∈ l ∧ P x) ∨ P y.
Proof.
  setoid_rewrite elem_of_app. setoid_rewrite list_elem_of_singleton. split.
  - intros (x & [?| ->] & ?); eauto.
  - intros [(x & ? & ?)|?]; eauto.
Qed.

Lemma merged_snoc m rs m' r :
  rv_AttemptID r ∉ rv_AttemptID <$> rs → merged m rs m' → merged m (rs ++ [r]) (merge_reservation m' r).
Proof.
  intros Hr [Hseen Hnd Hin Hres].
  assert (rv_AttemptID r ∈ mg_seen m' ↔ rv_AttemptID r ∈ mg_seen m) as Hsame.
  { rewrite Hin. split; [|auto]. intros [?|(r' & Hr' & _ & Heq)]; [done|].
    destruct Hr. rewrite <-Heq. by apply list_elem_of_fmap_2. }
  unfold merge_reservation.
  destruct (rv_Confirmed r) eqn:Hc, (bool_decide (rv_AttemptID r ∈ mg_seen m')) eqn:Hs; bool_prop; simpl;
    constructor; simpl; try done;
    try (intros a; rewrite exists_snoc, ?elem_of_union, ?elem_of_singleton, ?Hin, ?Hres, Hc; intuition congruence).
  all: try (intros a; rewrite exists_snoc, Hin, Hc; split; [tauto|intros [?|[?|[_ <-]]]; try tauto; by rewrite <-Hin]).
  - intros a. rewrite fmap_app, elem_of_app, elem_of_union, Hseen. simpl.
    rewrite list_elem_of_singleton, elem_of_singleton. tauto.
  - rewrite fmap_app. apply NoDup_app. split_and!; [done| |apply NoDup_singleton].
    intros a Ha ->%list_elem_of_singleton. by rewrite <-Hseen in Ha.
Qed.

Lemma merge_reservation_fold m rs :
  NoDup (rv_AttemptID <$> rs) → NoDup (if_AttemptID <$> mg_inflight m) →
  mg_seen m = list_to_set (if_AttemptID <$> mg_inflight m) →
  merged m rs (fold_left merge_reservation rs m).
Proof.
  intros Hnd Hin Hseen. induction rs as [|r rs IH] using rev_ind.
  - simpl. constructor; [rewrite Hseen; set_solver|done|set_solver..].
  - rewrite fmap_app in Hnd. apply NoDup_app in Hnd as (Hnd & Hfresh & _).
    rewrite fold_left_app. apply merged_snoc; [|by apply IH].
    intros Hr. apply (Hfresh _ Hr). set_solver.
Qed.

(** ** Credit batches: facts *)

Lemma credit_batches_spec fuel l n :
  (0 < n)%nat → (length l ≤ fuel)%nat →
  concat (credit_batches fuel l n) = l ∧
  Forall (λ b, b ≠ [] ∧ (length b ≤ n)%nat) (credit_batches fuel l n).
Proof.
  intros Hn. revert l; induction fuel as [|fuel IH]; intros l Hl; simpl.
  - destruct l; simpl in *; [auto|lia].
  - destruct l as [|a l]; simpl; [auto|].
    assert (0 < n `min` S (length l))%nat as Hc by lia. set (c := (n `min` S (length l))%nat) in *.
    destruct (IH (drop c (a :: l))) as [H1 H2]; [rewrite length_drop; simpl in *; lia|].
    split; [by rewrite H1, take_drop|]. constructor; [|done]. split.
    + destruct c; [lia|done].
    + rewrite length_take. lia.
Qed.

(** ** A sample round: project [a] already holds one attempt and has three
    candidates, project [b] has two, for a window of four. *)

Definition sample_candidate (p n : string) (prio : Z) (class : string) : Candidate :=
  MkCandidate p "run" n n 1 prio 10 class.
Definition sample_snapshot : AuthoritySnapshot :=
  MkAuthoritySnapshot
    [sample_candidate "a" "n1" 0 ResourceBuiltin; sample_candidate "a" "n2" 5 ResourceBuiltin;
     sample_candidate "a" "n3" 1 ResourceSandbox; sample_candidate "b" "n4" 0 ResourceBuiltin;
     sample_candidate "b" "n5" 0 ResourceBuiltin]
    [MkInflight "t1" "a" ResourceBuiltin; MkInflight "t1" "a" ResourceBuiltin].
Definition sample_pools : gmap string Z := {[ResourceBuiltin := 4; ResourceSandbox := 1]}.
Definition sample_build : res Plan := BuildPlan sample_snapshot 4 4 sample_pools 1.
Definition sample_plan : Plan := res_or (MkPlan 0 0 ∅ [] 0) sample_build.
Definition sample_reservations : list Reservation :=
  [MkReservation "t1" "a" (lane_of "a" 4) ResourceBuiltin (sample_candidate "a" "n0" 0 ResourceBuiltin) true "1";
   MkReservation "t2" "b" (lane_of "b" 4) ResourceBuiltin (sample_candidate "b" "n4" 0 ResourceBuiltin) false "1"].

Definition sample_authority : AuthoritySnapshot :=
  MkAuthoritySnapshot (as_Candidates sample_snapshot) [MkInflight "t1" "a" ResourceBuiltin].

Lemma sample_windows_ok : windows_ok sample_snapshot sample_pools.
Proof.
  split; [simpl; lia|]. unfold sample_pools.
  apply map_Forall_insert_2; [lia|]. apply map_Forall_singleton. lia.
Qed.

Lemma sample_build_Ok : BuildPlan sample_snapshot 4 4 sample_pools 1 = Ok sample_plan.
Proof. vm_compute. reflexivity. Qed.

Example sample_plan_admissions :
  plan_admissions sample_plan =
    [MkPlannedAdmission "a" ResourceBuiltin; MkPlannedAdmission "b" ResourceBuiltin;
     MkPlannedAdmission "b" ResourceBuiltin].
Proof. vm_compute. reflexivity. Qed.

(** ** Properties *)

(** C37: a plan never exceeds its windows.  With the attempts that already hold
    capacity counted once each, the number of planned admissions is at most
    what is left of the global window, and in every resource class at most
    what is left of that pool's window (nothing, where the pool has none);
    [TotalAdmissions] is the number of admissions over all lanes. *)
Theorem build_plan_windows s laneCount globalWindow pools epoch plan :
  BuildPlan s laneCount globalWindow pools epoch = Ok plan → windows_ok s pools →
  pl_TotalAdmissions plan = Z.of_nat (length (plan_admissions plan)) ∧
  Z.of_nat (length (plan_admissions plan)) ≤ global_room s globalWindow ∧
  ∀ k, Z.of_nat (length (admissions_in plan k)) ≤ pool_room s pools k.
Proof.
  intros [h Hr]%BuildPlan_run Hw. split_and!.
  - apply Hr.
  - rewrite (admissions_perm laneCount h plan), length_fmap by apply Hr. apply Hr.
  - intros k. erewrite admissions_in_run by done. by apply (pr_pool _ _ _ _ _ _ Hr).
Qed.

Lemma build_plan_windows_witness :
  pl_TotalAdmissions sample_plan = 3 ∧ ∀ k, Z.of_nat (length (admissions_in sample_plan k)) ≤ pool_room sample_snapshot sample_pools k.
Proof.
  destruct (build_plan_windows _ _ _ _ _ _ sample_build_Ok sample_windows_ok) as (_ & _ & H).
  split; [vm_compute; reflexivity|exact H].
Defined.

(** C38: a plan is equal-weight max-min and work conserving.  A project that
    received an admission holds at most one attempt more than any project that
    could still use one, and admissions stop short of the global window only
    when every project is blocked: out of candidates, or its next candidate's
    pool is full. *)
Theorem build_plan_max_min s laneCount globalWindow pools epoch plan :
  BuildPlan s laneCount globalWindow pools epoch = Ok plan → windows_ok s pools →
  (∀ p q, admissions_of plan p ≠ [] → ¬ blocked s pools plan q → share s plan p ≤ share s plan q + 1) ∧
  (Z.of_nat (length (plan_admissions plan)) = global_room s globalWindow ∨
   ∀ q, blocked s pools plan q).
Proof.
  intros [h Hr]%BuildPlan_run Hw. unfold blocked, share. split.
  - intros p q. erewrite !admissions_of_run, !length_fmap by done. intros Hp Hq.
    destruct (drop _ _) as [|c r] eqn:Hd; [by destruct Hq|].
    erewrite admissions_in_run in Hq by done.
    eapply (pr_fair _ _ _ _ _ _ Hr Hw p q); [|done..].
    intros Hn. by rewrite Hn in Hp.
  - rewrite (admissions_perm laneCount h plan), length_fmap by apply Hr.
    destruct (pr_done _ _ _ _ _ _ Hr Hw) as [?|Hb]; [by left|right].
    intros q. specialize (Hb q). erewrite admissions_of_run, length_fmap by done.
    destruct (drop _ _) as [|c r]; [done|]. by erewrite admissions_in_run.
Qed.

Lemma build_plan_max_min_witness :
  Z.of_nat (length (plan_admissions sample_plan)) = global_room sample_snapshot 4 ∨
  ∀ q, blocked sample_snapshot sample_pools sample_plan q.
Proof. exact (proj2 (build_plan_max_min _ _ _ _ _ _ sample_build_Ok sample_windows_ok)). Defined.

(** Within a project admissions follow the candidate order, and every
    project stays in its own lane.  The admissions of a project are those of
    the first candidates of its sorted queue; lane [i] of the plan holds
    exactly the candidates, the inflight attempts and the admissions of the
    projects that [LaneFor] sends to [i]. *)
Theorem build_plan_order_and_lanes s laneCount globalWindow pools epoch plan :
  BuildPlan s laneCount globalWindow pools epoch = Ok plan →
  (∀ p, admissions_of plan p = admission <$> take (length (admissions_of plan p)) (demand s p)) ∧
  StronglySorted candidate_le (sortCandidates (as_Candidates s)) ∧
  ∀ i lp, pl_Lanes plan !! i = Some lp →
    lp_Lane lp = Z.of_nat i ∧
    (∀ c, c ∈ lp_Candidates lp ↔ c ∈ as_Candidates s ∧ LaneFor (cd_ProjectID c) laneCount = Ok (Z.of_nat i)) ∧
    (∀ v, v ∈ lp_Inflight lp ↔ v ∈ as_Inflight s ∧ LaneFor (if_ProjectID v) laneCount = Ok (Z.of_nat i)) ∧
    (∀ p, filter (λ a, pa_ProjectID a = p) (lp_Admissions lp) =
       if bool_decide (lane_of p laneCount = Z.of_nat i) then admissions_of plan p else []).
Proof.
  intros [h Hr]%BuildPlan_run. split_and!.
  - intros p. erewrite admissions_of_run, length_fmap by done. f_equal.
    rewrite (pr_prefix _ _ _ _ _ _ Hr p). by rewrite take_app_length.
  - apply StronglySorted_merge_sort; apply _.
  - intros i lp Hi. destruct (pr_lane _ _ _ _ _ _ Hr i lp Hi) as (lane & Hlane & ->).
    apply lookup_seqZ in Hlane as [-> Hlt]. rewrite Z.add_0_l. cbn [lp_Lane lp_Candidates lp_Inflight lp_Admissions].
    pose proof (pr_named _ _ _ _ _ _ Hr) as Hn1. pose proof (pr_inflight_named _ _ _ _ _ _ Hr) as Hn2.
    rewrite Forall_forall in Hn1. rewrite Forall_forall in Hn2. split_and!; [lia|..].
    + intros c. rewrite list_elem_of_In, filter_In, <-list_elem_of_In, elem_of_sortCandidates, Z.eqb_eq.
      apply and_iff_compat_l'. intros Hc. rewrite (pr_lane_for _ _ _ _ _ _ Hr) by auto.
      split; [by intros ->|congruence].
    + intros v. rewrite list_elem_of_In, filter_In, <-list_elem_of_In, Z.eqb_eq.
      apply and_iff_compat_l'. intros Hv. rewrite (pr_lane_for _ _ _ _ _ _ Hr) by auto.
      split; [by intros ->|congruence].
    + intros p. rewrite filter_admission. erewrite admissions_of_run by done. unfold of_project.
      rewrite list_filter_filter. case_bool_decide as Hp.
      * f_equal. apply list_filter_iff. naive_solver.
      * rewrite filter_none; naive_solver.
Qed.

Lemma build_plan_order_and_lanes_witness :
  admissions_of sample_plan "a" = admission <$> take 1 (demand sample_snapshot "a").
Proof. exact (proj1 (build_plan_order_and_lanes _ _ _ _ _ _ sample_build_Ok) "a"). Defined.

(** Merging live reservations with the database's view counts every attempt
    once and never offers a reserved node again.  An attempt is in flight in
    the merged snapshot exactly when the database has it or an unconfirmed
    reservation holds it, and a candidate survives exactly when no live
    reservation names its Node Run. *)
Theorem merge_reservations_spec snapshot reservations laneCount :
  NoDup (if_AttemptID <$> as_Inflight snapshot) → NoDup (rv_AttemptID <$> reservations) →
  let merged := (mergeReservations snapshot reservations laneCount).1.1 in
  NoDup (if_AttemptID <$> as_Inflight merged) ∧
  (∀ a, a ∈ if_AttemptID <$> as_Inflight merged ↔ a ∈ if_AttemptID <$> as_Inflight snapshot ∨
     ∃ r, r ∈ reservations ∧ rv_Confirmed r = false ∧ rv_AttemptID r = a) ∧
  (∀ c, c ∈ as_Candidates merged ↔ c ∈ as_Candidates snapshot ∧
     ∀ r, r ∈ reservations → live snapshot r → cd_NodeRunID (rv_Candidate r) ≠ cd_NodeRunID c).
Proof.
  intros H1 H2. unfold mergeReservations; cbn [fst as_Inflight as_Candidates].
  destruct (merge_authority_fold laneCount (as_Inflight snapshot) (MkMerge (as_Inflight snapshot) ∅ ∅ ∅ ∅))
    as (Hi & Hrs & Hs). set (m1 := fold_left (merge_authority laneCount) _ _) in *. simpl in Hi, Hrs, Hs.
  destruct (merge_reservation_fold m1 reservations) as [Hseen Hnd Hin Hres]; rewrite ?Hi; auto.
  { rewrite Hs. set_solver. }
  assert (∀ a, a ∈ mg_seen m1 ↔ a ∈ if_AttemptID <$> as_Inflight snapshot) as Hm by (intros; rewrite Hs; set_solver).
  split_and!; [done| |].
  - intros a. by rewrite <-Hseen, Hin, Hm.
  - intros c. rewrite list_elem_of_In, filter_In, <-list_elem_of_In.
    rewrite negb_true_iff, bool_decide_eq_false, Hres, Hrs. unfold live. setoid_rewrite Hm.
    split; [intros [Hc Hn]|intros [Hc Hn]]; (split; [done|]).
    + intros r Hr Hl Heq. apply Hn. right. eauto.
    + intros [?|(r & Hr & Hl & Heq)]; [set_solver|]. by apply (Hn r).
Qed.

Lemma merge_reservations_spec_witness :
  NoDup (if_AttemptID <$> as_Inflight (mergeReservations sample_authority sample_reservations 4).1.1).
Proof.
  refine (proj1 (merge_reservations_spec sample_authority sample_reservations 4 _ _));
    [apply (bool_decide_unpack (NoDup (if_AttemptID <$> as_Inflight sample_authority)))
    |apply (bool_decide_unpack (NoDup (rv_AttemptID <$> sample_reservations)))]; vm_compute; exact I.
Defined.

(** Credit batches cut the admissions of a lane into consecutive non-empty
    pieces of at most the batch size, in order and without loss. *)
Theorem credit_batches_partition admissions size batches :
  CreditBatches admissions size = Ok batches →
  concat batches = admissions ∧
  Forall (λ b, b ≠ [] ∧ Z.of_nat (length b) ≤ size) batches.
Proof.
  unfold CreditBatches. intros H. res_inv. bool_prop. subst.
  destruct (credit_batches_spec (length admissions) admissions (Z.to_nat size)) as [Hc Hf]; [lia..|].
  split; [done|]. eapply Forall_impl; [exact Hf|]. intros b [? ?]. split; [done|lia].
Qed.

Lemma credit_batches_partition_witness :
  concat [[admission (sample_candidate "a" "n1" 0 ResourceBuiltin); admission (sample_candidate "a" "n2" 0 ResourceBuiltin)];
          [admission (sample_candidate "b" "n4" 0 ResourceBuiltin)]]
  = [admission (sample_candidate "a" "n1" 0 ResourceBuiltin); admission (sample_candidate "a" "n2" 0 ResourceBuiltin);
     admission (sample_candidate "b" "n4" 0 ResourceBuiltin)].
Proof. refine (proj1 (credit_batches_partition _ 2 _ _)). vm_compute. reflexivity. Defined.
