(* ===== verification/Eventing.v ===== *)
(** * Runtime events, task messages and the outbox relay

    Models internal/eventing/event.go and task.go and the two outbox tables of
    internal/adapters/postgres/outbox_store.go.  A table is a finite map from
    its primary key to its rows; one call of the store is one transaction, so a
    row that another relay holds locked ([SKIP LOCKED]) is never seen
    half-way.  [clock n] is the [n]-th reading of [clock_timestamp()]. *)

From S2P Require Import Prelude Scheduling.

Open Scope string_scope.
Open Scope list_scope.
Open Scope Z_scope.

(** ** Messages *)

Definition RuntimeMessageVersion : Z := 1.
Definition TaskMessageVersion : Z := 1.

Inductive RuntimeEventType : Type :=
  | EvRunCreated | EvRunCancelRequested | EvAttemptCompleted | EvAttemptLost | EvRetryDue
  | EvRunDeadlineReached | EvOther (raw : string).
Inductive AggregateType : Type :=
  | WorkflowRunAggregate | NodeAttemptAggregate | AggregateOther (raw : string).

#[export] Instance RuntimeEventType_eq_dec : EqDecision RuntimeEventType.
Proof. solve_decision. Defined.
#[export] Instance AggregateType_eq_dec : EqDecision AggregateType.
Proof. solve_decision. Defined.

Definition event_type_string (t : RuntimeEventType) : string :=
  match t with
  | EvRunCreated => "run.created" | EvRunCancelRequested => "run.cancel_requested"
  | EvAttemptCompleted => "attempt.completed" | EvAttemptLost => "attempt.lost"
  | EvRetryDue => "retry.due" | EvRunDeadlineReached => "run.deadline_reached" | EvOther raw => raw
  end.

Record RuntimeEvent : Type := MkRuntimeEvent {
  ev_MessageVersion : Z;
  ev_EventID : string;
  ev_ProjectID : string;
  ev_RunID : string;
  ev_AggregateType : AggregateType;
  ev_AggregateID : string;
  ev_EventType : RuntimeEventType;
  ev_OccurredAt : Time;
  ev_TraceID : string }.

#[export] Instance RuntimeEvent_eq_dec : EqDecision RuntimeEvent.
Proof. solve_decision. Defined.

Definition RuntimeEvent_Validate (event : RuntimeEvent) : res unit :=
  guard_err (negb (ev_MessageVersion event =? RuntimeMessageVersion) || bool_decide (ev_EventID event = "")
             || bool_decide (ev_ProjectID event = "") || bool_decide (ev_RunID event = "")
             || bool_decide (ev_AggregateID event = "") || bool_decide (ev_TraceID event = "")
             || IsZero (ev_OccurredAt event))
    (Errorf "runtime event identity, v1 version, occurrence and trace are required" []) ;;
  match ev_EventType event with
  | EvRunCreated | EvRunCancelRequested | EvRunDeadlineReached =>
      guard_err (negb (bool_decide (ev_AggregateType event = WorkflowRunAggregate))
                 || negb (bool_decide (ev_AggregateID event = ev_RunID event)))
        (Errorf "run event must target its workflow run" [])
  | EvAttemptCompleted | EvAttemptLost | EvRetryDue =>
      guard_err (negb (bool_decide (ev_AggregateType event = NodeAttemptAggregate)))
        (Errorf "attempt event must target a node attempt" [])
  | EvOther raw => Err (Errorf "runtime event type %q is unsupported" [quote raw])
  end.

Record TaskMessage : Type := MkTaskMessage {
  tm_MessageVersion : Z;
  tm_TaskID : string;
  tm_ProjectID : string;
  tm_RunID : string;
  tm_NodeRunID : string;
  tm_ExecutionNodeID : string;
  tm_AttemptID : string;
  tm_AttemptSequence : Z;
  tm_ResourceClass : string;
  tm_OccurredAt : Time;
  tm_TraceID : string }.

#[export] Instance TaskMessage_eq_dec : EqDecision TaskMessage.
Proof. solve_decision. Defined.

Definition TaskMessage_Validate (message : TaskMessage) : res unit :=
  guard_err (negb (tm_MessageVersion message =? TaskMessageVersion) || bool_decide (tm_TaskID message = "")
             || bool_decide (tm_ProjectID message = "") || bool_decide (tm_RunID message = "")
             || bool_decide (tm_NodeRunID message = "") || bool_decide (tm_ExecutionNodeID message = "")
             || bool_decide (tm_AttemptID message = "") || (tm_AttemptSequence message =? 0)
             || negb (ResourceClass_Valid (tm_ResourceClass message)) || IsZero (tm_OccurredAt message)
             || bool_decide (tm_TraceID message = ""))
    (Errorf "task identity, v1 version, resource class, occurrence and trace are required" []).

(** ** An outbox table *)

Definition ErrRunConflict : error := Errorf "workflow run state conflict" [].

Record OutboxRow (M : Type) : Type := MkOutboxRow {
  ob_message : M;
  ob_available_at : Time;
  ob_published_at : option Time;
  ob_claim_owner : option string;
  ob_claim_token : option string;
  ob_claim_expires_at : option Time;
  ob_publish_attempts : Z }.
Arguments MkOutboxRow {M}. Arguments ob_message {M}. Arguments ob_available_at {M}. Arguments ob_published_at {M}.
Arguments ob_claim_owner {M}. Arguments ob_claim_token {M}. Arguments ob_claim_expires_at {M}.
Arguments ob_publish_attempts {M}.

(** A [time.Duration] in the whole milliseconds of [Duration.Milliseconds]. *)
Definition milliseconds (d : Z) : Z := Z.quot d 1000000 * 1000000.

Section Outbox.
Context {M : Type} (message_id : M → string) (Validate : M → res unit).
Local Notation table := (gmap string (OutboxRow M)).

(** The row of a message that was just written. *)
Definition new_row (now : Time) (m : M) : OutboxRow M := MkOutboxRow m now None None None None 0.

(** [INSERT]: the primary key must be new. *)
Definition insert_row (now : Time) (m : M) (t : table) : res table :=
  match t !! message_id m with
  | Some _ => Err (Errorf "duplicate key value violates unique constraint" [])
  | None => Ok (<[message_id m := new_row now m]> t)
  end.

(** Not published, available, and not claimed or claimed too long ago. *)
Definition claimable (now : Time) (r : OutboxRow M) : bool :=
  bool_decide (ob_published_at r = None) && (ob_available_at r <=? now)
  && match ob_claim_token r with
     | None => true
     | Some _ => match ob_claim_expires_at r with Some x => x <=? now | None => false end
     end.

(** [ORDER BY available_at, id] *)
Definition row_leb (a b : string * OutboxRow M) : bool :=
  if ob_available_at a.2 =? ob_available_at b.2 then String.leb a.1 b.1 else ob_available_at a.2 <? ob_available_at b.2.

Definition claim_row (now : Time) (owner token : string) (lease : Z) (r : OutboxRow M) : OutboxRow M :=
  MkOutboxRow (ob_message r) (ob_available_at r) (ob_published_at r) (Some owner) (Some token)
    (Some (now + milliseconds lease)) (ob_publish_attempts r + 1).

(** The selected rows, each with a new token. *)
Definition selected (now : Time) (batch : nat) (tokens : nat → string) (t : table) : list (string * (M * string)) :=
  imap (λ i p, (p.1, (ob_message p.2, tokens i)))
    (take batch (stable_sort row_leb (List.filter (λ p, claimable now p.2) (sorted_items t)))).

Definition ClaimOutbox (now : Time) (owner : string) (batch : nat) (lease : Z) (tokens : nat → string) (t : table)
    : table * list (M * string) :=
  let claimed := selected now batch tokens t in
  (fold_left (λ t p,
      match t !! p.1 with
      | Some r => if bool_decide (ob_published_at r = None) then <[p.1 := claim_row now owner p.2.2 lease r]> t else t
      | None => t
      end) claimed t,
   claimed.*2).

(** The row an [UPDATE ... WHERE id AND claim_token AND published_at IS NULL]
    finds. *)
Definition held (id token : string) (t : table) : option (OutboxRow M) :=
  match t !! id with
  | Some r =>
      if bool_decide (ob_claim_token r = Some token) && bool_decide (ob_published_at r = None) then Some r else None
  | None => None
  end.

Definition MarkOutboxPublished (now : Time) (id token : string) (t : table) : table * res unit :=
  match held id token t with
  | Some r => (<[id := MkOutboxRow (ob_message r) (ob_available_at r) (Some now) None None None (ob_publish_attempts r)]> t, Ok tt)
  | None => (t, Err ErrRunConflict)
  end.

Definition ReleaseOutboxClaim (now : Time) (id token : string) (delay : Z) (t : table) : table * res unit :=
  match held id token t with
  | Some r => (<[id := MkOutboxRow (ob_message r) (now + milliseconds delay) None None None None (ob_publish_attempts r)]> t, Ok tt)
  | None => (t, Err ErrRunConflict)
  end.

(** ** The relay *)

Record Relay : Type := MkRelay { rl_owner : string; rl_batch : nat; rl_claimLease : Z; rl_retryDelay : Z }.

(** [NewRelay], with both dependencies given. *)
Definition NewRelay (owner : string) (batch : Z) (claimLease retryDelay : Z) : res Relay :=
  guard_err (bool_decide (owner = "") || (batch <? 1) || (claimLease <=? 0) || (retryDelay <? 0))
    (Errorf "outbox relay dependencies and positive limits are required" []) ;;
  Ok (MkRelay owner (Z.to_nat batch) claimLease retryDelay).

(** What the relay works on: the table, and what the broker has taken. *)
Record World : Type := MkWorld { wd_table : table; wd_sent : list M }.

(** [publish sent m] is the broker's answer to [m] after [sent]; [others] is
    what other processes do between two calls of this relay. *)
Context (clock : nat → Time) (publish : list M → M → res unit) (others : nat → World → World).

Definition release (relay : Relay) (n : nat) (m : M) (token : string) (w : World) : World :=
  MkWorld (ReleaseOutboxClaim (clock n) (message_id m) token (rl_retryDelay relay) (wd_table w)).1 (wd_sent w).

(** The loop of [RelayOnce]: the number of published messages and the error. *)
Fixpoint relay_loop (relay : Relay) (n : nat) (claimed : list (M * string)) (published : Z) (w : World)
    : World * (Z * option error) :=
  match claimed with
  | [] => (w, (published, None))
  | (m, token) :: rest =>
      let w := others (2 * n) w in
      match Validate m with
      | Err e => (release relay n m token w, (published, Some e))
      | Ok _ =>
          match publish (wd_sent w) m with
          | Err e => (release relay n m token w, (published, Some e))
          | Ok _ =>
              let w := others (2 * n + 1)%nat (MkWorld (wd_table w) (wd_sent w ++ [m])) in
              let '(t, r) := MarkOutboxPublished (clock n) (message_id m) token (wd_table w) in
              let w := MkWorld t (wd_sent w) in
              match r with
              | Err e => (w, (published, Some e))
              | Ok _ => relay_loop relay (S n) rest (published + 1) w
              end
          end
      end
  end.

Definition RelayOnce (relay : Relay) (tokens : nat → string) (w : World) : World * (Z * option error) :=
  let '(t, claimed) := ClaimOutbox (clock 0%nat) (rl_owner relay) (rl_batch relay) (rl_claimLease relay) tokens (wd_table w) in
  relay_loop relay 1%nat claimed 0 (MkWorld t (wd_sent w)).
End Outbox.

(** The two outboxes and their relays: [outbox_events] with [Relay], and
    [node_task_outbox] with [TaskRelay]; the code is the same up to the message. *)
Definition Relay_RelayOnce := RelayOnce ev_EventID RuntimeEvent_Validate.
Definition ClaimTaskOutbox := ClaimOutbox (M := TaskMessage).
Definition MarkTaskOutboxPublished := MarkOutboxPublished (M := TaskMessage).
Definition ReleaseTaskOutboxClaim := ReleaseOutboxClaim (M := TaskMessage).
Definition NewTaskRelay := NewRelay.
Definition TaskRelay_RelayOnce := RelayOnce tm_TaskID TaskMessage_Validate.

(** ** Lemmas of the outbox *)

Section OutboxLemmas.
Context {M : Type} (message_id : M → string) (Validate : M → res unit).
Local Notation table := (gmap string (OutboxRow M)).
Local Notation World := (@World M).

(** Rows are kept under the identity of their message, a claim has an end, and
    what is marked published was sent. *)
Definition outbox_ok (w : World) : Prop :=
  ∀ id r, wd_table w !! id = Some r → message_id (ob_message r) = id ∧
    (is_Some (ob_claim_token r) → is_Some (ob_claim_expires_at r)) ∧
    (is_Some (ob_published_at r) → ob_message r ∈ wd_sent w).

(** The rows of [t] are still in [t'], with the same messages, and none is
    taken back from published. *)
Definition rows_kept (t t' : table) : Prop :=
  ∀ id r, t !! id = Some r → ∃ r', t' !! id = Some r' ∧ ob_message r' = ob_message r ∧
    (is_Some (ob_published_at r) → r' = r).

#[local] Instance rows_kept_refl : Reflexive rows_kept.
Proof. intros t id r H. by exists r. Qed.

#[local] Instance rows_kept_trans : Transitive rows_kept.
Proof.
  intros t1 t2 t3 H1 H2 id r H. destruct (H1 id r H) as (r2 & E2 & M2 & P2). destruct (H2 id r2 E2) as (r3 & E3 & M3 & P3).
  exists r3. split_and!; [done|congruence|]. intros Hp. assert (r2 = r) as -> by auto. auto.
Qed.

(** Replacing one unpublished row by one of the same message. *)
Lemma insert_kept (t : table) id r r' : t !! id = Some r → ob_published_at r = None → ob_message r' = ob_message r →
  rows_kept t (<[id := r']> t).
Proof.
  intros H Hp Hm k x Hx. rewrite lookup_insert. case_decide; [|by exists x]. subst k. assert (x = r) as -> by congruence.
  exists r'. split_and!; [done..|]. rewrite Hp. by intros [? ?].
Qed.

Lemma held_Some id token (t : table) r : held id token t = Some r →
  t !! id = Some r ∧ ob_claim_token r = Some token ∧ ob_published_at r = None.
Proof.
  unfold held. destruct (t !! id) as [x|]; [|done]. destruct (_ && _) eqn:E; [|done]. intros [= ->].
  apply andb_true_iff in E as [?%bool_decide_eq_true ?%bool_decide_eq_true]. done.
Qed.

Lemma held_intro id token (t : table) r : t !! id = Some r → ob_claim_token r = Some token → ob_published_at r = None →
  held id token t = Some r.
Proof. intros H1 H2 H3. unfold held. rewrite H1. by rewrite !bool_decide_eq_true_2 by done. Qed.

(** *** Claiming *)

Lemma selected_spec now batch tokens (t : table) id m token :
  (id, (m, token)) ∈ selected now batch tokens t →
  ∃ r, t !! id = Some r ∧ ob_message r = m ∧ claimable now r = true.
Proof.
  unfold selected. intros (i & [id' r] & [= -> -> ->] & Hi)%elem_of_lookup_imap.
  apply lookup_take_Some in Hi as [Hi _]. apply list_elem_of_lookup_2 in Hi.
  rewrite stable_sort_perm in Hi. apply list_elem_of_In, filter_In in Hi as [Hi Hc].
  apply list_elem_of_In, elem_of_sorted_items in Hi. by exists r.
Qed.

Lemma sorted_items_NoDup (t : table) : NoDup (sorted_items t).*1.
Proof.
  unfold sorted_items. pose proof (NoDup_sorted_keys t) as Hn. induction Hn as [|k l Hk _ IH]; [constructor|]. cbn.
  destruct (t !! k) as [r|]; [|done]. cbn. constructor; [|done]. intros (x & -> & Hx)%list_elem_of_fmap.
  apply list_elem_of_omap in Hx as (k' & Hk' & Hx). destruct (t !! k'); [|done]. injection Hx as <-. done.
Qed.

Lemma filter_NoDup_fst {A B} (f : A * B → bool) (l : list (A * B)) : NoDup l.*1 → NoDup (List.filter f l).*1.
Proof.
  induction l as [|x l IH]; [done|]. cbn. intros [Hx Hl]%NoDup_cons. destruct (f x); [|auto]. cbn. constructor; [|auto].
  intros (y & Hy & Hin)%list_elem_of_fmap. apply list_elem_of_In, filter_In in Hin as [Hin _].
  apply Hx. rewrite Hy. apply list_elem_of_fmap. exists y. split; [done|]. by apply list_elem_of_In.
Qed.

Lemma selected_NoDup now batch tokens (t : table) : NoDup (selected now batch tokens t).*1.
Proof.
  unfold selected. set (l := List.filter _ _).
  assert ((imap (λ (i : nat) (p : string * OutboxRow M), (p.1, (ob_message p.2, tokens i))) (take batch (stable_sort row_leb l))).*1
          = take batch (stable_sort row_leb l).*1) as ->.
  { rewrite fmap_imap, <-fmap_take, <-(imap_const fst). by apply imap_ext. }
  apply (NoDup_app (take batch (stable_sort row_leb l).*1) (drop batch (stable_sort row_leb l).*1)).
  rewrite take_drop, stable_sort_perm. apply filter_NoDup_fst, sorted_items_NoDup.
Qed.

(** The rows of some messages. *)
Definition has_rows (claimed : list (M * string)) (t : table) : Prop :=
  ∀ m token, (m, token) ∈ claimed → ∃ r, t !! message_id m = Some r ∧ ob_message r = m.

(** The same, claimed under their tokens and not published yet. *)
Definition claimed_rows (claimed : list (M * string)) (t : table) : Prop :=
  NoDup (message_id ∘ fst <$> claimed) ∧
  ∀ m token, (m, token) ∈ claimed → ∃ r, t !! message_id m = Some r ∧ ob_message r = m ∧
    ob_claim_token r = Some token ∧ ob_published_at r = None.

Lemma claim_fold now owner lease (l : list (string * (M * string))) (t : table) :
  NoDup l.*1 → (∀ p, p ∈ l → ∃ r, t !! p.1 = Some r ∧ ob_published_at r = None ∧ ob_message r = p.2.1) →
  let t' := fold_left (λ t p,
      match t !! p.1 with
      | Some r => if bool_decide (ob_published_at r = None) then <[p.1 := claim_row now owner p.2.2 lease r]> t else t
      | None => t
      end) l t in
  (∀ p r, p ∈ l → t !! p.1 = Some r → t' !! p.1 = Some (claim_row now owner p.2.2 lease r)) ∧
  (∀ k, k ∉ l.*1 → t' !! k = t !! k) ∧ rows_kept t t'.
Proof.
  revert t. induction l as [|[id [m tok]] l IH]; intros t Hnd Hl; cbn zeta; cbn [fold_left fst snd].
  { split_and!; [by intros p r ?%not_elem_of_nil|done|done]. }
  apply NoDup_cons in Hnd as [Hid Hnd]. destruct (Hl (id, (m, tok))) as (r & Hr & Hp & Hm); [by left|]. cbn in Hr.
  rewrite Hr, bool_decide_eq_true_2 by done. set (t1 := <[id := claim_row now owner tok lease r]> t).
  assert (∀ p, p ∈ l → p.1 ≠ id) as Hne by (intros p Hin Heq; apply Hid; apply list_elem_of_fmap; by exists p).
  destruct (IH t1 Hnd) as (H1 & H2 & H3).
  { intros p Hin. subst t1. rewrite lookup_insert_ne by by apply not_eq_sym, Hne. apply Hl. by right. }
  split_and!.
  - intros p x [->|Hin]%elem_of_cons Hx.
    + rewrite (H2 _ Hid). cbn in *. assert (x = r) as -> by congruence. apply lookup_insert_eq.
    + apply H1; [done|]. subst t1. by rewrite lookup_insert_ne by by apply not_eq_sym, Hne.
  - intros k Hk. cbn in Hk. apply not_elem_of_cons in Hk as [Hk1 Hk2]. rewrite H2 by done. subst t1. by apply lookup_insert_ne.
  - etrans; [|exact H3]. by apply (insert_kept t id r).
Qed.

Lemma ClaimOutbox_claimed now owner batch lease tokens w t claimed :
  outbox_ok w → ClaimOutbox now owner batch lease tokens (wd_table w) = (t, claimed) →
  claimed_rows claimed t ∧ outbox_ok (MkWorld t (wd_sent w)) ∧ rows_kept (wd_table w) t.
Proof.
  intros Hok [= <- <-]. set (l := selected now batch tokens (wd_table w)).
  pose proof (selected_NoDup now batch tokens (wd_table w)) as Hnd. fold l in Hnd.
  assert (∀ p, p ∈ l → ∃ r, wd_table w !! p.1 = Some r ∧ ob_published_at r = None ∧ ob_message r = p.2.1) as Hl.
  { intros [id [m tok]] Hin. destruct (selected_spec _ _ _ _ _ _ _ Hin) as (r & Hr & Hm & Hc). exists r. split_and!; [done| |done].
    unfold claimable in Hc. apply andb_true_iff in Hc as [[Hc%bool_decide_eq_true _]%andb_true_iff _]. done. }
  destruct (claim_fold now owner lease l (wd_table w) Hnd Hl) as (H1 & H2 & H3). cbn zeta in *.
  assert (∀ p, p ∈ l → message_id p.2.1 = p.1) as Hid.
  { intros p Hin. destruct (Hl p Hin) as (r & Hr & _ & <-). by destruct (Hok _ _ Hr). }
  split_and!; [split| |done].
  - assert (message_id ∘ fst <$> l.*2 = l.*1) as ->; [|done]. rewrite <-list_fmap_compose. apply list_fmap_ext.
    intros i p Hp%list_elem_of_lookup_2. by apply Hid.
  - intros m tok (p & Heq & Hin)%list_elem_of_fmap. destruct (Hl p Hin) as (r & Hr & Hp & Hm).
    assert (m = p.2.1) as -> by (by rewrite <-Heq). rewrite (Hid p Hin), (H1 p r Hin Hr). eexists. split; [done|].
    cbn. by rewrite Hm, <-Heq.
  - intros id r Hr. cbn in Hr. destruct (decide (id ∈ l.*1)) as [Hin|Hin].
    + apply list_elem_of_fmap in Hin as (p & -> & Hin). destruct (Hl p Hin) as (x & Hx & Hp & Hm).
      rewrite (H1 p x Hin Hx) in Hr. injection Hr as <-. cbn. destruct (Hok _ _ Hx) as (? & _ & ?). split_and!; [done| |done].
      intros _. by eexists.
    + rewrite H2 in Hr by done. by apply Hok.
Qed.

(** *** The loop of the relay *)

(** What one process may do to the world of another. *)
Definition lawful (w w' : World) : Prop :=
  (outbox_ok w → outbox_ok w') ∧ rows_kept (wd_table w) (wd_table w') ∧ wd_sent w `prefix_of` wd_sent w'.

Lemma lawful_refl w : lawful w w.
Proof. by split_and!. Qed.

#[local] Instance lawful_trans : Transitive lawful.
Proof. intros w1 w2 w3 (? & ? & ?) (? & ? & ?). split_and!; [auto|by etrans..]. Qed.

Context (clock : nat → Time) (publish : list M → M → res unit) (others : nat → World → World) (relay : Relay).

Lemma replace_lawful w id r r' : wd_table w !! id = Some r → ob_published_at r = None → ob_message r' = ob_message r →
  ob_claim_token r' = None → (is_Some (ob_published_at r') → ob_message r ∈ wd_sent w) →
  lawful w (MkWorld (<[id := r']> (wd_table w)) (wd_sent w)).
Proof.
  intros Hr Hn Hm Hc Hp. split_and!; [|by apply (insert_kept _ _ r)|done].
  intros Hok k x. cbn. rewrite lookup_insert. case_decide as Hk; [|by apply Hok].
  subst k. intros [= <-]. destruct (Hok _ _ Hr) as (? & _). rewrite Hm, Hc. split_and!; [done| |done]. by intros [? ?].
Qed.

Lemma release_lawful n m token w : lawful w (release message_id clock relay n m token w).
Proof.
  unfold release, ReleaseOutboxClaim. destruct (held _ _ _) as [r|] eqn:Hh; [|by destruct w].
  apply held_Some in Hh as (Hr & _ & Hp). apply (replace_lawful w _ r); try done. by intros [? ?].
Qed.

Lemma send_lawful w m : lawful w (MkWorld (wd_table w) (wd_sent w ++ [m])).
Proof.
  split_and!; [|done|by apply prefix_app_r].
  intros Hok id r Hr. destruct (Hok id r Hr) as (? & ? & ?). split_and!; [done..|]. intros ?. apply elem_of_app. auto.
Qed.

Lemma has_rows_lawful claimed w w' : lawful w w' → has_rows claimed (wd_table w) → has_rows claimed (wd_table w').
Proof.
  intros (_ & Hk & _) H m token Hin. destruct (H m token Hin) as (r & Hr & Hm). destruct (Hk _ _ Hr) as (r' & ? & ? & _).
  exists r'. split; [done|congruence].
Qed.

(** The loop returns how many of the claimed messages it marked published;
    those, and at most one more, were sent. *)
Lemma relay_loop_spec n claimed published w w' k err :
  (∀ i x, lawful x (others i x)) → has_rows claimed (wd_table w) →
  relay_loop message_id Validate clock publish others relay n claimed published w = (w', (k, err)) →
  lawful w w' ∧ ∃ sent, sent `prefix_of` claimed.*1 ∧ (∀ m, m ∈ sent → m ∈ wd_sent w' ∧ Validate m = Ok tt) ∧
    published ≤ k ≤ published + Z.of_nat (length sent) ∧ published + Z.of_nat (length sent) ≤ k + 1 ∧
    (err = None → k = published + Z.of_nat (length claimed)) ∧
    ∀ m, m ∈ take (Z.to_nat (k - published)) sent → ∃ r, wd_table w' !! message_id m = Some r ∧ is_Some (ob_published_at r).
Proof.
  intros Hrely. revert n published w. induction claimed as [|[m token] rest IH]; intros n published w Hrows H; cbn [relay_loop] in H.
  { injection H as <- <- <-. split; [done|]. exists [].
    split_and!; try done; cbn; try (intros; lia); rewrite ?take_nil; by intros x ?%not_elem_of_nil. }
  set (w1 := others (2 * n) w) in *. assert (lawful w w1) as L1 by apply Hrely.
  assert (∀ e, (release message_id clock relay n m token w1, (published, Some e)) = (w', (k, err)) →
    lawful w w' ∧ ∃ sent, sent `prefix_of` m :: rest.*1 ∧ (∀ m, m ∈ sent → m ∈ wd_sent w' ∧ Validate m = Ok tt) ∧
    published ≤ k ≤ published + Z.of_nat (length sent) ∧ published + Z.of_nat (length sent) ≤ k + 1 ∧
    (err = None → k = published + Z.of_nat (S (length rest))) ∧
    ∀ m, m ∈ take (Z.to_nat (k - published)) sent → ∃ r, wd_table w' !! message_id m = Some r ∧ is_Some (ob_published_at r)) as Hrel.
  { intros e [= <- <- <-]. split; [etrans; [exact L1|apply release_lawful]|]. exists [].
    split_and!; try done; cbn; try lia; try apply prefix_nil; rewrite ?take_nil; by intros x ?%not_elem_of_nil. }
  destruct (Validate m) as [[]|e] eqn:Hval; [|by eapply Hrel].
  destruct (publish (wd_sent w1) m) as [u|e] eqn:Hpub; [|by eapply Hrel]. clear Hrel.
  set (w2 := MkWorld (wd_table w1) (wd_sent w1 ++ [m])) in *. set (w3 := others (2 * n + 1)%nat w2) in *.
  assert (lawful w2 w3) as L3 by apply Hrely.
  assert (lawful w w3) as L by (etrans; [exact L1|]; etrans; [apply send_lawful|exact L3]).
  assert (m ∈ wd_sent w3) as Hsent.
  { destruct L3 as (_ & _ & [l ->]). subst w2. cbn. rewrite !elem_of_app, list_elem_of_singleton. auto. }
  assert (has_rows rest (wd_table w3)) as Hrest.
  { apply (has_rows_lawful _ w w3 L). intros x t Hin. apply (Hrows x t). by right. }
  destruct (has_rows_lawful _ w w3 L Hrows m token) as (r & Hr & Hrm); [by left|].
  unfold MarkOutboxPublished in H. destruct (held (message_id m) token (wd_table w3)) as [r'|] eqn:Hh.
  - apply held_Some in Hh as (Hr' & _ & Hp). assert (r' = r) as -> by congruence. set (r' := MkOutboxRow _ _ _ _ _ _ _) in H.
    assert (lawful w3 (MkWorld (<[message_id m := r']> (wd_table w3)) (wd_sent w3))) as L4.
    { apply (replace_lawful w3 _ r); try done. intros _. by rewrite Hrm. }
    apply IH in H as (L5 & sent & Hpre & Hall & Hlo & Hhi & Herr & Hmark); [|by eapply has_rows_lawful].
    split; [etrans; [exact L|]; by etrans|]. exists (m :: sent). cbn [length fmap list_fmap].
    split_and!; [by apply prefix_cons| |lia..| |].
    + intros x [->|Hx]%elem_of_cons; [|by apply Hall]. split; [|done]. destruct L5 as (_ & _ & [l ->]). apply elem_of_app. by left.
    + intros He. rewrite (Herr He). lia.
    + intros x. replace (Z.to_nat (k - published)) with (S (Z.to_nat (k - (published + 1)))) by lia. cbn [take].
      intros [->|Hx]%elem_of_cons; [|by apply Hmark]. destruct L5 as (_ & Hk5 & _).
      destruct (Hk5 (message_id m) r') as (r5 & Hr5 & _ & Heq); [apply lookup_insert_eq|]. exists r5. split; [done|].
      rewrite Heq by (by eexists). by eexists.
  - injection H as <- <- <-. split; [destruct w3; exact L|]. exists [m]. cbn. split_and!; try lia; try done.
    + apply prefix_cons, prefix_nil.
    + by intros x ->%list_elem_of_singleton.
    + rewrite Z.sub_diag. by intros x ?%not_elem_of_nil.
Qed.

(** With a broker that takes everything and no one else at work, the loop
    publishes all its messages in order. *)
Lemma relay_loop_drains n claimed published w :
  claimed_rows claimed (wd_table w) → Forall (λ m, Validate m = Ok tt) claimed.*1 →
  (∀ sent m, publish sent m = Ok tt) →
  ∃ w', relay_loop message_id Validate clock publish (λ _ w, w) relay n claimed published w =
    (w', (published + Z.of_nat (length claimed), None)) ∧ wd_sent w' = wd_sent w ++ claimed.*1.
Proof.
  intros Hc Hv Hp. revert n published w Hc. induction claimed as [|[m token] rest IH]; intros n published w Hc; cbn [relay_loop].
  { exists w. cbn. rewrite Z.add_0_r, app_nil_r. done. }
  apply Forall_cons in Hv as [Hm Hv]. cbn in Hm. rewrite Hm, Hp. cbn [wd_table wd_sent].
  destruct Hc as [Hnd Hc]. destruct (Hc m token) as (r & Hr & Hrm & Htok & Hpub); [by left|].
  unfold MarkOutboxPublished. rewrite (held_intro _ _ _ _ Hr Htok Hpub).
  cbn in Hnd. apply NoDup_cons in Hnd as [Hid Hnd].
  edestruct (IH Hv (S n) (published + 1)) as (w' & -> & Hs).
  - split; [done|]. intros x t Hin. cbn. rewrite lookup_insert_ne; [apply Hc; by right|].
    intros Heq. apply Hid. rewrite Heq. apply list_elem_of_fmap. by exists (x, t).
  - exists w'. cbn [wd_sent] in Hs. rewrite Hs, <-app_assoc. cbn. split; [|done]. f_equal. f_equal. lia.
Qed.
End OutboxLemmas.

(** ** Properties of the relay *)

Definition sample_event : RuntimeEvent :=
  MkRuntimeEvent 1 "e1" "project" "run" WorkflowRunAggregate "run" EvRunCreated 5 "trace".
Definition sample_world : World :=
  MkWorld {["e1" := new_row 5 sample_event]} [].
Definition sample_relay : Relay := MkRelay "relay" 10 1000000 1000000.

(** C34: the outbox is delivered at least once.  Whatever other processes do to
    the table meanwhile, as long as they too keep its rows, mark only what was
    sent, and end their claims, and whatever the broker answers, a call of
    [RelayOnce] does the same, and returns how many of the messages it claimed
    it has marked published; every one of those was valid and sent.  A message
    that is not marked stays in the table and can be claimed again later. *)
Theorem relay_at_least_once {M : Type} (message_id : M → string) (Validate : M → res unit) (clock : nat → Time)
    (publish : list M → M → res unit) (others : nat → World → World) (relay : Relay) (tokens : nat → string)
    (w w' : World) (k : Z) (err : option error) :
  (∀ i x, lawful message_id x (others i x)) → outbox_ok message_id w →
  RelayOnce message_id Validate clock publish others relay tokens w = (w', (k, err)) →
  lawful message_id w w' ∧
  (∃ marked, Z.of_nat (length marked) = k ∧ ∀ m, m ∈ marked → Validate m = Ok tt ∧ m ∈ wd_sent w' ∧
     ∃ r, wd_table w' !! message_id m = Some r ∧ is_Some (ob_published_at r)) ∧
  ∀ id r, wd_table w' !! id = Some r → ob_published_at r = None → ∃ T, ∀ now, T ≤ now → claimable now r = true.
Proof.
  intros Hrely Hok H. unfold RelayOnce in H. destruct (ClaimOutbox _ _ _ _ _ _) as [t claimed] eqn:Hc.
  apply (ClaimOutbox_claimed message_id) in Hc as ([Hnd Hrows] & Hok1 & Hk1); [|done].
  apply (relay_loop_spec message_id Validate clock publish others relay) in H
    as (L & sent & Hpre & Hall & Hlo & Hhi & _ & Hmark); [|done|].
  2:{ intros m token Hin. destruct (Hrows m token Hin) as (r & ? & ? & _). by exists r. }
  assert (outbox_ok message_id w') as Hok' by by apply L.
  split; [|split].
  - split_and!; [done| |by apply L]. destruct L as (_ & Hk2 & _). intros id r Hr.
    destruct (Hk1 id r Hr) as (r1 & H1 & M1 & P1). destruct (Hk2 id r1 H1) as (r2 & H2 & M2 & P2).
    exists r2. split_and!; [done|congruence|]. intros Hp. pose proof (P1 Hp). subst r1. auto.
  - exists (take (Z.to_nat (k - 0)) sent). rewrite length_take. split; [lia|]. intros m Hm. pose proof (Hmark m Hm) as Hr.
    apply elem_of_take in Hm as (i & Hi%list_elem_of_lookup_2 & _). destruct (Hall m Hi). done.
  - intros id r Hr Hp. destruct (Hok' id r Hr) as (_ & Hexp & _).
    exists (Z.max (ob_available_at r) (default 0 (ob_claim_expires_at r))). intros now Hnow.
    unfold claimable. rewrite Hp. cbn. rewrite (proj2 (Z.leb_le _ _)) by lia. cbn.
    destruct (ob_claim_token r); [|done]. destruct Hexp as [x Hx]; [by eexists|]. rewrite Hx in *. cbn in Hnow.
    apply Z.leb_le. lia.
Qed.

Lemma relay_at_least_once_witness :
  ∃ w', RelayOnce ev_EventID RuntimeEvent_Validate (λ _, 7) (λ _ _, Err (Errorf "broker is down" [])) (λ _ w, w) sample_relay
    (λ _, "token") sample_world = (w', (0, Some (Errorf "broker is down" []))) ∧
  ∀ id r, wd_table w' !! id = Some r → ob_published_at r = None → ∃ T, ∀ now, T ≤ now → claimable now r = true.
Proof.
  eexists. split; [vm_compute; reflexivity|].
  eapply (relay_at_least_once ev_EventID RuntimeEvent_Validate (λ _, 7) (λ _ _, Err (Errorf "broker is down" [])) (λ _ w, w)
           sample_relay (λ _, "token") sample_world).
  - intros i x. apply lawful_refl.
  - intros id r Hr. cbn in Hr. apply lookup_singleton_Some in Hr as [<- <-]. split_and!; [done|by intros [? ?]..].
  - vm_compute. reflexivity.
Defined.

(** A relay that works alone with a broker that takes everything drains
    its batch: it publishes the first claimable messages in order of
    availability, returns their number, and no error. *)
Theorem relay_drains {M : Type} (message_id : M → string) (Validate : M → res unit) (clock : nat → Time)
    (publish : list M → M → res unit) (relay : Relay) (tokens : nat → string) (w : World) :
  outbox_ok message_id w → (∀ id r, wd_table w !! id = Some r → Validate (ob_message r) = Ok tt) →
  (∀ sent m, publish sent m = Ok tt) →
  let due := take (rl_batch relay)
    (stable_sort row_leb (List.filter (λ p, claimable (clock 0%nat) p.2) (sorted_items (wd_table w)))) in
  ∃ w', RelayOnce message_id Validate clock publish (λ _ w, w) relay tokens w = (w', (Z.of_nat (length due), None)) ∧
    wd_sent w' = wd_sent w ++ ((λ p, ob_message p.2) <$> due).
Proof.
  intros Hok Hv Hp due. unfold RelayOnce. destruct (ClaimOutbox _ _ _ _ _ _) as [t claimed] eqn:Hc.
  pose proof (ClaimOutbox_claimed message_id _ _ _ _ _ _ _ _ Hok Hc) as (Hrows & _ & _).
  assert (claimed.*1 = (λ p, ob_message p.2) <$> due) as Hdue.
  { unfold ClaimOutbox in Hc. injection Hc as _ <-. unfold selected. fold due. rewrite <-list_fmap_compose, fmap_imap.
    rewrite <-(imap_const (λ p : string * OutboxRow M, ob_message p.2)). by apply imap_ext. }
  assert (length claimed = length due) as Hlen by (rewrite <-(length_fmap fst), Hdue; apply length_fmap).
  destruct (relay_loop_drains message_id Validate clock publish relay 1 claimed 0 (MkWorld t (wd_sent w)) Hrows) as (w' & -> & Hs).
  - rewrite Hdue. apply Forall_fmap, Forall_forall. intros [id r] Hin. cbn. subst due.
    apply elem_of_take in Hin as (i & Hin%list_elem_of_lookup_2 & _). rewrite stable_sort_perm in Hin.
    apply list_elem_of_In, filter_In in Hin as [Hin _]. apply list_elem_of_In, elem_of_sorted_items in Hin. by eapply Hv.
  - done.
  - exists w'. rewrite Hlen, Z.add_0_l. split; [done|]. by rewrite Hs, Hdue.
Qed.

Lemma relay_drains_witness :
  ∃ w', RelayOnce ev_EventID RuntimeEvent_Validate (λ _, 7) (λ _ _, Ok tt) (λ _ w, w) sample_relay (λ _, "token") sample_world =
    (w', (1, None)) ∧ wd_sent w' = [sample_event].
Proof.
  apply (relay_drains ev_EventID RuntimeEvent_Validate (λ _, 7) (λ _ _, Ok tt) sample_relay (λ _, "token") sample_world).
  - intros id r Hr. cbn in Hr. apply lookup_singleton_Some in Hr as [<- <-]. split_and!; [done|by intros [? ?]..].
  - intros id r Hr. cbn in Hr. apply lookup_singleton_Some in Hr as [<- <-]. reflexivity.
  - reflexivity.
Defined.
