(* ===== verification/Consumer.v ===== *)
(** * The engine's event consumer

    Models internal/runtime/engine/consumer.go.  A runtime event is a wake-up:
    the consumer records it in its inbox, reloads the run under a transaction,
    lets the engine advance it, and writes it back.  The store is behind two
    interfaces, the operations inside a transaction and the transaction itself,
    so that the consumer is stated, and its theorems are proved, against the
    interface; Store.v has the implementation. *)

From S2P Require Import Prelude Json Graph Dsl Branch Runtime Engine.
From S2P Require Import EngineSteps EngineInv EngineFacts EngineInit EngineProgress EngineLive EngineVersions EngineState.
From S2P Require Import Scheduling Eventing.

Open Scope string_scope.
Open Scope list_scope.
Open Scope Z_scope.

Definition ConsumerName : string := "runtime-engine-v1".

(** ** The interfaces *)

Class RunTransaction (T : Type) : Type := {
  AcceptInbox : string → RuntimeEvent → tx T bool;
  AuthorityNow : tx T Time;
  LoadRun : string → string → tx T WorkflowRunRecord;
  LoadSnapshot : string → string → tx T Snapshot;
  LoadEngineState : string → string → tx T State;
  InitializeRun : WorkflowRunRecord → State → Time → tx T unit;
  AdvanceRun : State → State → Time → tx T unit;
  FailRunInitialization : WorkflowRunRecord → WorkflowRunRecord → Time → tx T unit }.

Class TransactionManager (D T : Type) : Type := {
  WithRunTransaction : RuntimeEvent → tx T unit → tx D unit }.

(** ** Pure parts *)

(** A cancel request issued before the deadline wins over it. *)
Definition cancelWinsDeadline (run : WorkflowRunRecord) : bool :=
  negb (IsZero (rr_CancelRequestedAt run)) && negb (After (rr_CancelRequestedAt run) (rr_DeadlineAt run)).

Definition attempt_node_in (nodes : list NodeRunRecord) (attempt : NodeAttemptRecord) : option string :=
  nrr_ExecutionNodeID <$> List.find (λ node,
    bool_decide (nar_NodeRunID attempt = nrr_RunID node +:+ ":" +:+ nrr_ExecutionNodeID node)) nodes.

(** The node of the first attempt with that identity that has one. *)
Fixpoint find_attempt_node (nodes : list NodeRunRecord) (attempts : list NodeAttemptRecord) (attemptID : string)
    : option string :=
  match attempts with
  | [] => None
  | a :: rest =>
      if negb (bool_decide (nar_ID a = attemptID)) then find_attempt_node nodes rest attemptID
      else match attempt_node_in nodes a with
           | Some id => Some id
           | None => find_attempt_node nodes rest attemptID
           end
  end.

Definition attemptNodeID (state : State) (attemptID : string) : option string :=
  find_attempt_node (st_Nodes state) (st_Attempts state) attemptID.

(** [errors.As] to the engine's error type. *)
Fixpoint as_engine_error (e : error) : option (string * string * string) :=
  match e with
  | EngineError code node field _ => Some (code, node, field)
  | Wrap s _ => as_engine_error s
  | Prefix _ c => as_engine_error c
  | _ => None
  end.

Definition initialization_failure (run : WorkflowRunRecord) (err : error) : Failure :=
  let '(code, node, field) := default ("", "", "") (as_engine_error err) in
  {| fl_Code := if bool_decide (code = "") then "RUNTIME_DSL_INVALID" else code; fl_Phase := "run_initialization";
     fl_Retryable := false; fl_RunID := rr_ID run; fl_SnapshotID := dr_SnapshotID (rr_Definition run);
     fl_DefinitionHash := dr_DefinitionHash (rr_Definition run); fl_ExecutionNodeID := node; fl_DSLField := field;
     fl_ExecutionEdgeID := ""; fl_AttemptID := ""; fl_Expected := ""; fl_Actual := ""; fl_Message := error_string err;
     fl_Details := None |}.

Definition run_control_failure (run : WorkflowRun) (code message : string) : Failure :=
  {| fl_Code := code; fl_Phase := "run_control"; fl_Retryable := false; fl_RunID := wr_id run;
     fl_SnapshotID := dr_SnapshotID (wr_definition run); fl_DefinitionHash := dr_DefinitionHash (wr_definition run);
     fl_ExecutionNodeID := ""; fl_DSLField := ""; fl_ExecutionEdgeID := ""; fl_AttemptID := ""; fl_Expected := "";
     fl_Actual := ""; fl_Message := message; fl_Details := None |}.

(** [return err] as the value of a handler that goes on with [Ok]. *)
Definition engine_result (r : Engine * res unit) : res Engine :=
  let '(e, x) := r in x ;; Ok e.

Section Consumer.
Context (order : range_order) (ValidateSource : string → option (string * string)).
Context {D T : Type} {ops : RunTransaction T} {manager : TransactionManager D T}.

Definition NewBuiltinV1 (snapshot : Snapshot) (command : CreateRunCommand) : res Engine :=
  New order snapshot command (BuiltinV1Contract ValidateSource) BuiltinV1Compatibility.

Definition RestoreBuiltinV1 (snapshot : Snapshot) (state : State) : res Engine :=
  Restore order snapshot state (BuiltinV1Contract ValidateSource) BuiltinV1Compatibility.

(** ** A run that has not started *)

(** The termination of a pending run; [None] when it is not applied. *)
Definition terminate_pending (before : WorkflowRunRecord) (kind : TerminationKind) (at_ : Time) (code message : string)
    : res (option State) :=
  run ← RestoreWorkflowRun before;
  '(run, applied) ← WorkflowRun_RequestTermination run
    {| ti_Kind := kind; ti_RequestedAt := at_; ti_Cause := run_control_failure run code message |};
  if applied : bool then
    run ← WorkflowRun_CompleteTermination run [];
    Ok (Some (MkState (WorkflowRun_Snapshot run) [] []))
  else Ok None.

Definition advance_pending (before : WorkflowRunRecord) (after : res (option State)) (at_ : Time) : tx T unit :=
  o ← tx_lift after;
  match o with
  | Some after => AdvanceRun (MkState before [] []) after at_
  | None => mret tt
  end.

Definition advancePendingDeadline (before : WorkflowRunRecord) (at_ : Time) : tx T unit :=
  advance_pending before
    (terminate_pending before TerminationTimedOut at_ FailureRunTimedOut "workflow deadline reached") at_.

Definition advancePendingCancellation (event : RuntimeEvent) (before : WorkflowRunRecord) : tx T unit :=
  let requestedAt := if IsZero (rr_CancelRequestedAt before) then ev_OccurredAt event else rr_CancelRequestedAt before in
  advance_pending before
    (terminate_pending before TerminationCanceled requestedAt FailureRunCanceled "run cancellation requested")
    (ev_OccurredAt event).

Definition fail_initialization (event : RuntimeEvent) (runRecord : WorkflowRunRecord) (err : error) : tx T unit :=
  failed ← tx_lift (RestoreWorkflowRun runRecord);
  failed ← tx_lift (WorkflowRun_FailInitialization failed (initialization_failure runRecord err) (ev_OccurredAt event));
  FailRunInitialization runRecord (WorkflowRun_Snapshot failed) (ev_OccurredAt event).

Definition initialize (event : RuntimeEvent) : tx T unit :=
  runRecord ← LoadRun (ev_ProjectID event) (ev_RunID event);
  if negb (bool_decide (rr_State runRecord = RunPending)) then mret tt
  else
    now ← AuthorityNow;
    if cancelWinsDeadline runRecord then advancePendingCancellation event runRecord
    else if negb (Before now (rr_DeadlineAt runRecord)) then advancePendingDeadline runRecord now
    else
      snapshot ← LoadSnapshot (ev_ProjectID event) (dr_SnapshotID (rr_Definition runRecord));
      match NewBuiltinV1 snapshot (record_command runRecord) with
      | Err err => fail_initialization event runRecord err
      | Ok instance => InitializeRun runRecord (SnapshotState instance) (ev_OccurredAt event)
      end.

(** ** A run that has started *)

Definition advance_waiting (event : RuntimeEvent) (before : WorkflowRunRecord) : tx T unit :=
  now ← AuthorityNow;
  if cancelWinsDeadline before then advancePendingCancellation event before
  else if negb (Before now (rr_DeadlineAt before)) then advancePendingDeadline before now
  else if negb (bool_decide (ev_EventType event = EvRunCancelRequested)) && IsZero (rr_CancelRequestedAt before)
  then mret tt
  else advancePendingCancellation event before.

(** The engine operation a wake-up leads to and the time the run is written
    with: a durable cancellation or deadline goes first.  [advance] is not called
    for the last two types. *)
Definition wakeup_op (event : RuntimeEvent) (before : State) (now : Time) : option (EngineOp * Time) :=
  let run := st_Run before in
  if bool_decide (rr_Termination run = None) && cancelWinsDeadline run
  then Some (DoRequestCancel (rr_CancelRequestedAt run) "run cancellation requested", now)
  else if bool_decide (rr_Termination run = None) && negb (Before now (rr_DeadlineAt run))
  then Some (DoDeadlineReached now, now)
  else
    let at_ := ev_OccurredAt event in
    match ev_EventType event with
    | EvAttemptCompleted | EvAttemptLost => Some (DoHandleAttemptCompleted (ev_AggregateID event) at_, at_)
    | EvRetryDue => (λ id, (DoRetryDue id at_, at_)) <$> attemptNodeID before (ev_AggregateID event)
    | EvRunCancelRequested => Some (DoRequestCancel at_ "run cancellation requested", at_)
    | EvRunDeadlineReached => Some (DoDeadlineReached at_, at_)
    | EvRunCreated | EvOther _ => None
    end.

Definition advance_started (event : RuntimeEvent) (before : State) : tx T unit :=
  snapshot ← LoadSnapshot (ev_ProjectID event) (dr_SnapshotID (rr_Definition (st_Run before)));
  instance ← tx_lift (RestoreBuiltinV1 snapshot before);
  now ← AuthorityNow;
  match wakeup_op event before now with
  | None => mret tt
  | Some (op, at_) =>
      instance ← tx_lift (engine_result (engine_apply order op instance));
      AdvanceRun before (SnapshotState instance) at_
  end.

Definition advance (event : RuntimeEvent) : tx T unit :=
  before ← LoadEngineState (ev_ProjectID event) (ev_RunID event);
  if RunState_Terminal (rr_State (st_Run before)) then mret tt
  else if bool_decide (rr_State (st_Run before) = RunPending) then advance_waiting event (st_Run before)
  else advance_started event before.

(** ** Consuming an event *)

Definition handle (event : RuntimeEvent) : tx T unit :=
  accepted ← AcceptInbox ConsumerName event;
  if negb accepted then mret tt
  else
    match ev_EventType event with
    | EvRunCreated => initialize event
    | EvAttemptCompleted | EvAttemptLost | EvRetryDue | EvRunCancelRequested | EvRunDeadlineReached => advance event
    | EvOther raw => tx_fail (Errorf "runtime event type %q is unsupported by engine" [quote raw])
    end.

Definition Consume (event : RuntimeEvent) : tx D unit :=
  tx_lift (RuntimeEvent_Validate event) ;;
  WithRunTransaction event (handle event).
End Consumer.
