(* ===== verification/Store.v ===== *)
(** * The PostgreSQL store

    Models the transactions of internal/adapters/postgres/runtime_store.go,
    attempt_store.go and scheduling_store.go on the tables they read and write.
    A table is a finite map from its primary key; a column holds the Go value
    that is written to it (the JSON encoding of a Go struct and its decoding are
    taken as inverse), an absent value stands for NULL.  A column of type JSONB
    keeps a value, not a text: what a worker sends comes back as PostgreSQL
    prints it (the parameter [jsonb] of AttemptStore.v); the resolved inputs and
    the workflow output, which are written, read and written again but never
    inspected, are kept as text.  One call is one atomic transaction: the row
    locks of the code ([FOR UPDATE]) exclude the interleavings that could be
    observed.  [clock n] is the [n]-th reading of [clock_timestamp()], and the
    readings of one statement are one;
    [deterministicNodeRunID] is the UUID of a node, a hash made by a third-party
    package.  CHECK constraints and foreign keys only abort transactions and are
    left out. *)

From S2P Require Import Prelude Json Graph Dsl Branch Runtime Engine.
From S2P Require Import EngineSteps EngineInv EngineFacts EngineInit EngineProgress EngineLive EngineVersions EngineState.
From S2P Require Import Scheduling Eventing Consumer.

Open Scope string_scope.
Open Scope list_scope.
Open Scope Z_scope.

(** ** Tables *)

Record NodeRow : Type := MkNodeRow {
  rn_ProjectID : string;
  rn_Record : NodeRunRecord;
  rn_Operation : Coordinate;
  rn_ResourceClass : option string;
  rn_Priority : Z;
  rn_ReadyAt : option Time }.

(** [error_json] of an attempt. *)
Record AttemptError : Type := MkAttemptError {
  ae_ErrorCode : string;
  ae_Message : string;
  ae_DSLField : string;
  ae_ErrorDetails : option (gmap string json) }.

Record AttemptRow : Type := MkAttemptRow {
  ra_ProjectID : string;
  ra_RunID : string;
  ra_NodeRunID : string;
  ra_Sequence : Z;
  ra_Kind : RetryKind;
  ra_State : AttemptState;
  ra_StateVersion : Z;
  ra_RetryCount : Z;
  ra_RecoveryCount : Z;
  ra_LeaseToken : option string;
  ra_LeaseOwner : option string;
  ra_FencingToken : Z;
  ra_LeaseExpiresAt : option Time;
  ra_ExecutorBuild : option string;
  ra_Error : option AttemptError;
  ra_UpdatedAt : Time }.

#[export] Instance AttemptError_eq_dec : EqDecision AttemptError.
Proof. solve_decision. Defined.

#[export] Instance NodeRow_eta : Eta NodeRow := λ x,
  MkNodeRow (rn_ProjectID x) (rn_Record x) (rn_Operation x) (rn_ResourceClass x) (rn_Priority x) (rn_ReadyAt x).

#[export] Instance AttemptRow_eta : Eta AttemptRow := λ x,
  MkAttemptRow (ra_ProjectID x) (ra_RunID x) (ra_NodeRunID x) (ra_Sequence x) (ra_Kind x) (ra_State x)
    (ra_StateVersion x) (ra_RetryCount x) (ra_RecoveryCount x) (ra_LeaseToken x) (ra_LeaseOwner x)
    (ra_FencingToken x) (ra_LeaseExpiresAt x) (ra_ExecutorBuild x) (ra_Error x) (ra_UpdatedAt x).

(** A row of [runtime_recovery_wakeups]. *)
Record WakeupRow : Type := MkWakeupRow {
  wk_LastEventID : string;
  wk_LastEmittedAt : Time;
  wk_EmitCount : Z }.

#[export] Instance WorkflowRunRecord_eta : Eta WorkflowRunRecord := λ x,
  MkWorkflowRunRecord (rr_ID x) (rr_ProjectID x) (rr_WorkflowID x) (rr_TraceID x) (rr_Purpose x) (rr_Definition x)
    (rr_WorkflowInput x) (rr_WorkflowOutput x) (rr_DeadlineAt x) (rr_CreatedAt x) (rr_State x) (rr_StateVersion x)
    (rr_ExecutionNodeIDs x) (rr_Termination x) (rr_CancelRequestedAt x).

(** The keys: [run_id], (project, snapshot), [node_run_id], [attempt_id],
    [attempt_id], (consumer, event), [event_id], [task_id], (project, command,
    scope, idempotency key), (project, run, event type, aggregate).  The tables of the definitions are read through
    three joins: the snapshot of a draft revision by (project, workflow,
    snapshot, revision), the active version of a workflow by (project,
    workflow), and the enabled identity of a project. *)
Record DB : Type := MkDB {
  db_runs : gmap string WorkflowRunRecord;
  db_snapshots : gmap (string * string) Snapshot;
  db_nodes : gmap string NodeRow;
  db_attempts : gmap string AttemptRow;
  db_outputs : gmap string (gmap string string);
  db_inbox : gset (string * string);
  db_outbox : gmap string (OutboxRow RuntimeEvent);
  db_tasks : gmap string (OutboxRow TaskMessage);
  db_idempotency : gmap (string * string * string * string) (string * string);
  db_drafts : gmap (string * string * string * Z) (string * string);
  db_workflows : gmap (string * string) (option (string * string * string));
  db_identities : gset string;
  db_wakeups : gmap (string * string * string * string) WakeupRow;
  db_ticks : nat }.

#[export] Instance DB_eta : Eta DB := λ x,
  MkDB (db_runs x) (db_snapshots x) (db_nodes x) (db_attempts x) (db_outputs x) (db_inbox x) (db_outbox x)
    (db_tasks x) (db_idempotency x) (db_drafts x) (db_workflows x) (db_identities x) (db_wakeups x) (db_ticks x).

(** ** Statements *)

(** [UPDATE ... SET f WHERE p]: the table and the number of rows affected. *)
Definition update_where {A} (p : string → A → bool) (f : A → A) (t : gmap string A) : gmap string A * nat :=
  (map_imap (λ k x, Some (if p k x then f x else x)) t, length (List.filter (λ r, p r.1 r.2) (map_to_list t))).

(** The rows of a [SELECT ... WHERE p]. *)
Definition select_where {A} (p : string → A → bool) (t : gmap string A) : list (string * A) :=
  List.filter (λ r, p r.1 r.2) (map_to_list t).

(** Commit on success; an error undoes everything but the passing of time. *)
Definition transaction {A} (m : tx DB A) : tx DB A := λ db,
  match m db with
  | (db', Ok a) => (db', Ok a)
  | (db', Err x) => (db <| db_ticks := db_ticks db' |>, Err x)
  end.

Definition ErrRunNotFound : error := Errorf "workflow run not found" [].
Definition ErrRunSourceInvalid : error := Errorf "workflow run definition source is invalid" [].
Definition ErrNotFound : error := Errorf "attempt not found" [].
Definition ErrNotCurrent : error := Errorf "attempt is not current" [].
Definition ErrLeaseMismatch : error := Errorf "attempt lease or fencing token does not match" [].
Definition ErrStateConflict : error := Errorf "attempt state conflict" [].
Definition ErrCapabilityMismatch : error := Errorf "worker capability does not match attempt" [].
Definition ErrCandidateStale : error := Errorf "ready candidate is stale" [].
Definition no_rows : error := Errorf "no rows in result set" [].
Definition duplicate_key : error := Errorf "duplicate key value violates unique constraint" [].

(** A column that may be NULL; no identity is empty. *)
Definition nullableString (s : string) : option string := if bool_decide (s = "") then None else Some s.

Section Store.
Context (clock : nat → Time) (router : Coordinate → option string) (deterministicNodeRunID : string → string → string).

Definition clock_timestamp : tx DB Time := λ db, (db <| db_ticks := S (db_ticks db) |>, Ok (clock (db_ticks db))).

(** [loadRun]: the row of a run in its project. *)
Definition run_row (db : DB) (projectID runID : string) : option WorkflowRunRecord :=
  match db_runs db !! runID with
  | Some r => if bool_decide (rr_ProjectID r = projectID) then Some r else None
  | None => None
  end.

Definition loadRun (projectID runID : string) : tx DB WorkflowRunRecord :=
  db ← tx_get;
  tx_lift (or_err (run_row db projectID runID) ErrRunNotFound).

Definition load_snapshot (projectID snapshotID : string) : tx DB Snapshot :=
  db ← tx_get;
  tx_lift (or_err (db_snapshots db !! (projectID, snapshotID)) ErrRunSourceInvalid).

(** *** Loading a run *)

Definition node_of_run (projectID runID : string) (_ : string) (row : NodeRow) : bool :=
  bool_decide (rn_ProjectID row = projectID) && bool_decide (nrr_RunID (rn_Record row) = runID).

(** A Node Run with the outputs of its effective attempt. *)
Definition load_node (db : DB) (runID : string) (row : NodeRow) : NodeRunRecord :=
  (rn_Record row) <| nrr_RunID := runID |>
    <| nrr_EffectiveOutputs :=
         match nullableString (nrr_EffectiveAttemptID (rn_Record row)) with
         | Some aid => default ∅ (db_outputs db !! aid)
         | None => ∅
         end |>.

Definition attempt_of_run (projectID runID : string) (_ : string) (row : AttemptRow) : bool :=
  bool_decide (ra_ProjectID row = projectID) && bool_decide (ra_RunID row = runID).

Definition load_result (db : DB) (aid : string) (row : AttemptRow) : option AttemptResult :=
  if AttemptState_Terminal (ra_State row) then
    let e := default (MkAttemptError "" "" "" None) (ra_Error row) in
    Some (MkAttemptResult (ra_State row) (default ∅ (db_outputs db !! aid)) (ae_ErrorCode e) (ae_Message e)
            (ae_DSLField e) (ae_ErrorDetails e))
  else None.

(** The join with [node_runs]. *)
Definition node_row_of (db : DB) (projectID runID nodeRunID : string) : option NodeRow :=
  match db_nodes db !! nodeRunID with
  | Some row => if node_of_run projectID runID nodeRunID row then Some row else None
  | None => None
  end.

Definition load_attempt (db : DB) (projectID runID : string) (r : string * AttemptRow) : option NodeAttemptRecord :=
  node ← node_row_of db projectID runID (ra_NodeRunID r.2);
  Some (MkNodeAttemptRecord r.1 (runID +:+ ":" +:+ nrr_ExecutionNodeID (rn_Record node)) (ra_Sequence r.2) (ra_Kind r.2)
          (ra_State r.2) (ra_StateVersion r.2) (load_result db r.1 r.2)).

(** [ORDER BY execution_node_id] and [ORDER BY attempt_seq, attempt_id] *)
Definition node_leb (a b : string * NodeRow) : bool :=
  String.leb (nrr_ExecutionNodeID (rn_Record a.2)) (nrr_ExecutionNodeID (rn_Record b.2)).
Definition attempt_leb (a b : string * AttemptRow) : bool :=
  if ra_Sequence a.2 =? ra_Sequence b.2 then String.leb a.1 b.1 else ra_Sequence a.2 <? ra_Sequence b.2.

Definition load_engine_state (projectID runID : string) : tx DB State :=
  run ← loadRun projectID runID;
  db ← tx_get;
  mret (MkState run
    ((λ r, load_node db runID r.2) <$> stable_sort node_leb (select_where (node_of_run projectID runID) (db_nodes db)))
    (omap (load_attempt db projectID runID)
       (stable_sort attempt_leb (select_where (attempt_of_run projectID runID) (db_attempts db))))).

(** *** Writing a run *)

Definition updateRunCAS (before after : WorkflowRunRecord) : tx DB unit := λ db,
  match run_row db (rr_ProjectID after) (rr_ID after) with
  | Some row =>
      if bool_decide (rr_State row = rr_State before) && (rr_StateVersion row =? rr_StateVersion before) then
        (db <| db_runs := <[rr_ID after := row <| rr_State := rr_State after |> <| rr_StateVersion := rr_StateVersion after |>
                <| rr_WorkflowOutput := rr_WorkflowOutput after |> <| rr_ExecutionNodeIDs := rr_ExecutionNodeIDs after |>
                <| rr_Termination := rr_Termination after |>]> (db_runs db) |>, Ok tt)
      else (db, Err ErrRunConflict)
  | None => (db, Err ErrRunConflict)
  end.

(** The columns [AdvanceRun] sets. *)
Definition advance_record (old node : NodeRunRecord) : NodeRunRecord :=
  MkNodeRunRecord (nrr_RunID old) (nrr_ExecutionNodeID old) (nrr_Kind old) (nrr_State node) (nrr_StateVersion node)
    (nrr_Activated node) (nrr_SelectedRoute node) (nrr_ResolvedInputs node) (nrr_EffectiveOutputs old)
    (nrr_EffectiveAttemptID node) (nrr_CurrentAttemptID node) (nrr_NextAttemptSeq node) (nrr_BusinessAttemptCount node)
    (nrr_RecoveryCount node) (nrr_NextAttemptKind node) (nrr_NextRetryAt node) (nrr_Failure node) (nrr_CancelReason node).

Definition ready_at (node : NodeRunRecord) (at_ : Time) : option Time :=
  if bool_decide (nrr_State node = NodeReady) then Some at_ else None.

Definition before_nodes (before : State) : gmap string NodeRunRecord :=
  fold_left (λ m node, <[nrr_ExecutionNodeID node := node]> m) (st_Nodes before) ∅.

Definition advance_node (projectID runID : string) (previous node : NodeRunRecord) (at_ : Time) : tx DB unit := λ db,
  let '(t, affected) := update_where (λ k row, node_of_run projectID runID k row
      && bool_decide (nrr_ExecutionNodeID (rn_Record row) = nrr_ExecutionNodeID node)
      && (nrr_StateVersion (rn_Record row) =? nrr_StateVersion previous))
    (λ row, row <| rn_Record := advance_record (rn_Record row) node |> <| rn_ReadyAt := ready_at node at_ |>) (db_nodes db) in
  if bool_decide (affected = 1%nat) then (db <| db_nodes := t |>, Ok tt) else (db, Err ErrRunConflict).

Fixpoint advance_nodes (before : gmap string NodeRunRecord) (projectID runID : string) (at_ : Time)
    (nodes : list NodeRunRecord) : tx DB unit :=
  match nodes with
  | [] => mret tt
  | node :: rest =>
      match before !! nrr_ExecutionNodeID node with
      | None => tx_fail (Wrap ErrRunConflict "node set changed during advancement")
      | Some previous =>
          (if nrr_StateVersion node =? nrr_StateVersion previous then mret tt
           else advance_node projectID runID previous node at_) ;;
          advance_nodes before projectID runID at_ rest
      end
  end.

Definition advance_run (before after : State) (at_ : Time) : tx DB unit :=
  advance_nodes (before_nodes before) (rr_ProjectID (st_Run after)) (rr_ID (st_Run after)) at_ (st_Nodes after) ;;
  if rr_StateVersion (st_Run after) =? rr_StateVersion (st_Run before) then mret tt
  else updateRunCAS (st_Run before) (st_Run after).

Definition definitions_of (snapshot : Snapshot) : gmap string Node :=
  fold_left (λ m n, <[nd_ID n := n]> m) (dc_Nodes (sn_DSL snapshot)) ∅.

Definition resource_class (definition : Node) (node : NodeRunRecord) : res (option string) :=
  if bool_decide (nrr_Kind node = NodeTask) then
    match router (coordinate definition) with
    | Some c => Ok (Some c)
    | None => Err (Errorf "runtime operation %s@%d has no routing policy"
                     [op_Type (nd_Operation definition); pretty (op_Version (nd_Operation definition))])
    end
  else Ok None.

(** The columns of a new Node Run; the attempts and outputs are NULL. *)
Definition initial_record (run : WorkflowRunRecord) (node : NodeRunRecord) : NodeRunRecord :=
  MkNodeRunRecord (rr_ID run) (nrr_ExecutionNodeID node) (nrr_Kind node) (nrr_State node) (nrr_StateVersion node)
    (nrr_Activated node) (nrr_SelectedRoute node) (nrr_ResolvedInputs node) ∅ "" "" (nrr_NextAttemptSeq node)
    (nrr_BusinessAttemptCount node) (nrr_RecoveryCount node) (nrr_NextAttemptKind node) (nrr_NextRetryAt node)
    (nrr_Failure node) (nrr_CancelReason node).

Definition insert_node (run : WorkflowRunRecord) (node : NodeRunRecord) (definition : Node) (class : option string)
    (at_ : Time) : tx DB unit := λ db,
  let id := deterministicNodeRunID (rr_ID run) (nrr_ExecutionNodeID node) in
  match db_nodes db !! id with
  | Some _ => (db, Err duplicate_key)
  | None =>
      (db <| db_nodes := <[id := MkNodeRow (rr_ProjectID run) (initial_record run node)
               (coordinate definition) class 0 (ready_at node at_)]> (db_nodes db) |>, Ok tt)
  end.

Fixpoint insert_nodes (definitions : gmap string Node) (run : WorkflowRunRecord) (at_ : Time) (nodes : list NodeRunRecord)
    : tx DB unit :=
  match nodes with
  | [] => mret tt
  | node :: rest =>
      match definitions !! nrr_ExecutionNodeID node with
      | None => tx_fail (Errorf "runtime node %q is absent from immutable snapshot" [quote (nrr_ExecutionNodeID node)])
      | Some definition =>
          class ← tx_lift (resource_class definition node);
          insert_node run node definition class at_ ;;
          insert_nodes definitions run at_ rest
      end
  end.

(** *** The outbox and cancellation *)

Definition insertOutbox (event : RuntimeEvent) : tx DB unit :=
  tx_lift (RuntimeEvent_Validate event) ;;
  now ← clock_timestamp;
  db ← tx_get;
  t ← tx_lift (insert_row ev_EventID now event (db_outbox db));
  tx_modify (λ db, db <| db_outbox := t |>).

Record CancelRunRecord : Type := MkCancelRunRecord {
  cr_ProjectID : string;
  cr_RunID : string;
  cr_PrincipalID : string;
  cr_EventID : string;
  cr_TraceID : string;
  cr_RequestedAt : Time }.

(** [Truncate(time.Microsecond)] *)
Definition truncate_us (t : Time) : Time := t - t mod 1000.

Definition cancel_event (record : CancelRunRecord) (requestedAt : Time) : RuntimeEvent :=
  MkRuntimeEvent RuntimeMessageVersion (cr_EventID record) (cr_ProjectID record) (cr_RunID record) WorkflowRunAggregate
    (cr_RunID record) EvRunCancelRequested requestedAt (cr_TraceID record).

(** The audit row is written to a table nothing here reads. *)
Definition RequestCancellation (record : CancelRunRecord) : tx DB (WorkflowRunRecord * bool) := transaction (
  run ← loadRun (cr_ProjectID record) (cr_RunID record);
  if RunState_Terminal (rr_State run) || negb (IsZero (rr_CancelRequestedAt run)) then mret (run, false)
  else
    let requestedAt := truncate_us (cr_RequestedAt record) in
    tx_lift (guard_err (IsZero requestedAt || Before requestedAt (rr_CreatedAt run)) ErrInvalidRun) ;;
    tx_modify (λ db, db <| db_runs := <[cr_RunID record := run <| rr_CancelRequestedAt := requestedAt |>]> (db_runs db) |>) ;;
    insertOutbox (cancel_event record requestedAt) ;;
    result ← loadRun (cr_ProjectID record) (cr_RunID record);
    mret (result, true)).

(** *** Creating a run *)

Record CreatePendingRunRecord : Type := MkCreatePendingRunRecord {
  cn_RunID : string;
  cn_EventID : string;
  cn_ProjectID : string;
  cn_WorkflowID : string;
  cn_SnapshotID : string;
  cn_DraftRevisionNumber : Z;
  cn_Purpose : RunPurpose;
  cn_WorkflowInput : string;
  cn_DeadlineAt : Time;
  cn_CreatedAt : Time;
  cn_PrincipalID : string;
  cn_IdempotencyKey : string;
  cn_RequestHash : string;
  cn_TraceID : string }.

Definition ErrRunWorkflowNotPublished : error := Errorf "workflow has no active published version" [].
Definition ErrRunIdempotencyReuse : error := Errorf "workflow run idempotency key reused" [].

Definition commandName (purpose : RunPurpose) : string :=
  if bool_decide (purpose = RunPurposeTest) then "test_draft" else "create_run".

Definition idempotency_key (record : CreatePendingRunRecord) : string * string * string * string :=
  (cn_ProjectID record, commandName (cn_Purpose record), cn_WorkflowID record, cn_IdempotencyKey record).

(** The definition the run is bound to. *)
Definition definition_reference (db : DB) (record : CreatePendingRunRecord) : res DefinitionReference :=
  if bool_decide (cn_Purpose record = RunPurposeTest) then
    match db_drafts db !! (cn_ProjectID record, cn_WorkflowID record, cn_SnapshotID record, cn_DraftRevisionNumber record) with
    | Some (snapshotID, hash) => Ok {| dr_SnapshotID := snapshotID; dr_DefinitionHash := hash;
                                       dr_Source := DefinitionDraftSnapshot; dr_PublishedVersionID := "" |}
    | None => Err ErrRunSourceInvalid
    end
  else
    match db_workflows db !! (cn_ProjectID record, cn_WorkflowID record) with
    | Some (Some (snapshotID, hash, versionID)) =>
        Ok {| dr_SnapshotID := snapshotID; dr_DefinitionHash := hash;
              dr_Source := DefinitionPublishedVersion; dr_PublishedVersionID := versionID |}
    | Some None => Err ErrRunWorkflowNotPublished
    | None => Err ErrRunSourceInvalid
    end.

Definition pending_row (record : CreatePendingRunRecord) (definition : DefinitionReference) : WorkflowRunRecord :=
  MkWorkflowRunRecord (cn_RunID record) (cn_ProjectID record) (cn_WorkflowID record) (cn_TraceID record) (cn_Purpose record)
    definition (cn_WorkflowInput record) "" (cn_DeadlineAt record) (cn_CreatedAt record) RunPending 1 [] None 0.

Definition created_event (record : CreatePendingRunRecord) : RuntimeEvent :=
  MkRuntimeEvent RuntimeMessageVersion (cn_EventID record) (cn_ProjectID record) (cn_RunID record) WorkflowRunAggregate
    (cn_RunID record) EvRunCreated (cn_CreatedAt record) (cn_TraceID record).

Definition insert_run (row : WorkflowRunRecord) : tx DB unit := λ db,
  match db_runs db !! rr_ID row with
  | Some _ => (db, Err duplicate_key)
  | None => (db <| db_runs := <[rr_ID row := row]> (db_runs db) |>, Ok tt)
  end.

(** The same request again gives the run it made before. *)
Definition CreatePendingRun (record : CreatePendingRunRecord) : tx DB WorkflowRunRecord := transaction (
  db ← tx_get;
  match db_idempotency db !! idempotency_key record with
  | Some (existingHash, existingRun) =>
      tx_lift (guard_err (negb (bool_decide (existingHash = cn_RequestHash record))) ErrRunIdempotencyReuse) ;;
      loadRun (cn_ProjectID record) existingRun
  | None =>
      definition ← tx_lift (definition_reference db record);
      tx_lift (guard_err (negb (bool_decide (cn_ProjectID record ∈ db_identities db))) ErrRunSourceInvalid) ;;
      let row := pending_row record definition in
      insert_run row ;;
      insertOutbox (created_event record) ;;
      tx_modify (λ db, db <| db_idempotency := <[idempotency_key record := (cn_RequestHash record, cn_RunID record)]>
                                                  (db_idempotency db) |>) ;;
      mret row
  end).

(** *** The transaction of the consumer *)

(** [runtimeTransaction]: the open transaction and the snapshot it has read. *)
Record RuntimeTx : Type := MkRuntimeTx { rt_db : DB; rt_snapshot : option Snapshot }.

Definition on_db {A} (m : tx DB A) : tx RuntimeTx A := λ t,
  let '(db, r) := m (rt_db t) in (MkRuntimeTx db (rt_snapshot t), r).

Definition accept_inbox (consumer : string) (event : RuntimeEvent) : tx DB bool := λ db,
  let key := (consumer, ev_EventID event) in
  if bool_decide (key ∈ db_inbox db) then (db, Ok false)
  else (db <| db_inbox := {[key]} ∪ db_inbox db |>, Ok true).

#[export] Instance store_transaction : RunTransaction RuntimeTx := {
  AcceptInbox consumer event := on_db (accept_inbox consumer event);
  AuthorityNow := on_db clock_timestamp;
  LoadRun projectID runID := on_db (loadRun projectID runID);
  LoadSnapshot projectID snapshotID :=
    snapshot ← on_db (load_snapshot projectID snapshotID);
    tx_modify (λ t, MkRuntimeTx (rt_db t) (Some snapshot)) ;;
    mret snapshot;
  LoadEngineState projectID runID := on_db (load_engine_state projectID runID);
  InitializeRun before after at_ := λ t,
    match rt_snapshot t with
    | None => (t, Err (Errorf "runtime snapshot and routing policy are required for initialization" []))
    | Some snapshot =>
        on_db (insert_nodes (definitions_of snapshot) (st_Run after) at_ (st_Nodes after) ;;
               updateRunCAS before (st_Run after)) t
    end;
  AdvanceRun before after at_ := on_db (advance_run before after at_);
  FailRunInitialization before after at_ := on_db (updateRunCAS before after) }.

#[export] Instance store_manager : TransactionManager DB RuntimeTx := {
  WithRunTransaction _ operation := transaction (λ db,
    let '(t, r) := operation (MkRuntimeTx db None) in (rt_db t, r)) }.
End Store.
