(* ===== verification/RunControl.v ===== *)
(** * Creating and cancelling runs

    Models internal/runtime/persistence.go and control.go: the checks in front
    of the store's transactions.  [access] is the answer of the access control,
    [ids] the answers of the identity generator, and [digest] the hash of a
    request, which the code computes of its JSON encoding. *)

From S2P Require Import Prelude Json Graph Dsl Branch Runtime Engine.
From S2P Require Import EngineSteps EngineInv EngineFacts EngineInit EngineProgress EngineLive EngineVersions EngineState.
From S2P Require Import Scheduling Eventing Consumer Store.

Open Scope string_scope.
Open Scope list_scope.
Open Scope Z_scope.

Definition PermissionWorkflowTest : string := "workflow.test".
Definition PermissionRunCreate : string := "run.create".
Definition PermissionRunCancel : string := "run.cancel".

Record TestDraftRunCommand : Type := MkTestDraftRunCommand {
  td_ProjectID : string;
  td_PrincipalID : string;
  td_WorkflowID : string;
  td_SnapshotID : string;
  td_DraftRevisionNumber : Z;
  td_WorkflowInput : string;
  td_DeadlineAt : Time;
  td_IdempotencyKey : string;
  td_TraceID : string }.

Record ProductionRunCommand : Type := MkProductionRunCommand {
  pr_ProjectID : string;
  pr_PrincipalID : string;
  pr_WorkflowID : string;
  pr_WorkflowInput : string;
  pr_DeadlineAt : Time;
  pr_IdempotencyKey : string;
  pr_TraceID : string }.

(** What a request hash is made of; empty optional members are left out. *)
Record RunRequest : Type := MkRunRequest {
  rq_WorkflowID : string;
  rq_SnapshotID : string;
  rq_Revision : Z;
  rq_Purpose : RunPurpose;
  rq_Input : string;
  rq_Deadline : Time }.

Section RunControl.
Context (clock : nat → Time) (access : string → string → string → res unit) (digest : RunRequest → string).
Context (runID eventID : res string) (now : Time).

Definition bad_run (message : string) : error := Wrap ErrInvalidRun message.

Definition create_checks (record : CreatePendingRunRecord) : res unit :=
  guard_err (bool_decide (cn_ProjectID record = "") || bool_decide (cn_WorkflowID record = "")
             || bool_decide (cn_PrincipalID record = "") || (Z.of_nat (String.length (cn_IdempotencyKey record)) <? 8)
             || bool_decide (cn_TraceID record = ""))
    (bad_run "run identity, idempotency key and trace are required") ;;
  guard_err (bool_decide (cn_Purpose record = RunPurposeTest)
             && (bool_decide (cn_SnapshotID record = "") || (cn_DraftRevisionNumber record <? 1)))
    (bad_run "draft test requires a snapshot") ;;
  match cloneJSONObject (cn_WorkflowInput record) with
  | Ok _ => Ok tt
  | Err x => Err (bad_run ("workflow input: " +:+ error_string x))
  end ;;
  let createdAt := truncate_us now in
  let deadlineAt := truncate_us (cn_DeadlineAt record) in
  guard_err (IsZero deadlineAt || negb (After deadlineAt createdAt)) (bad_run "deadline must be after creation").

(** The record with its times truncated, hashed and named. *)
Definition completed_record (record : CreatePendingRunRecord) (input run event : string) : CreatePendingRunRecord :=
  let deadlineAt := truncate_us (cn_DeadlineAt record) in
  let hash := digest (MkRunRequest (cn_WorkflowID record) (cn_SnapshotID record) (cn_DraftRevisionNumber record)
                        (cn_Purpose record) input deadlineAt) in
  MkCreatePendingRunRecord run event (cn_ProjectID record) (cn_WorkflowID record) (cn_SnapshotID record)
    (cn_DraftRevisionNumber record) (cn_Purpose record) (cn_WorkflowInput record) deadlineAt (truncate_us now)
    (cn_PrincipalID record) (cn_IdempotencyKey record) hash (cn_TraceID record).

(** [json.Marshal] compacts the input before it is hashed. *)
Definition create (record : CreatePendingRunRecord) : tx DB WorkflowRunRecord :=
  tx_lift (create_checks record) ;;
  input ← tx_lift (or_err (clone_raw (cn_WorkflowInput record)) (Errorf "json: error calling MarshalJSON for type json.RawMessage" []));
  run ← tx_lift runID;
  event ← tx_lift eventID;
  CreatePendingRun clock (completed_record record input run event).

Definition TestDraft (command : TestDraftRunCommand) : tx DB WorkflowRunRecord :=
  tx_lift (access (td_ProjectID command) (td_PrincipalID command) PermissionWorkflowTest) ;;
  create (MkCreatePendingRunRecord "" "" (td_ProjectID command) (td_WorkflowID command) (td_SnapshotID command)
            (td_DraftRevisionNumber command) RunPurposeTest (td_WorkflowInput command) (td_DeadlineAt command) 0
            (td_PrincipalID command) (td_IdempotencyKey command) "" (td_TraceID command)).

Definition CreateProduction (command : ProductionRunCommand) : tx DB WorkflowRunRecord :=
  tx_lift (access (pr_ProjectID command) (pr_PrincipalID command) PermissionRunCreate) ;;
  create (MkCreatePendingRunRecord "" "" (pr_ProjectID command) (pr_WorkflowID command) "" 0 RunPurposeProduction
            (pr_WorkflowInput command) (pr_DeadlineAt command) 0 (pr_PrincipalID command) (pr_IdempotencyKey command) ""
            (pr_TraceID command)).

Definition Cancel (projectID principalID run traceID : string) : tx DB (WorkflowRunRecord * bool) :=
  tx_lift (access projectID principalID PermissionRunCancel) ;;
  tx_lift (guard_err (bool_decide (projectID = "") || bool_decide (principalID = "") || bool_decide (run = "")
                      || bool_decide (traceID = "")) (bad_run "cancellation identity and trace are required")) ;;
  event ← tx_lift eventID;
  RequestCancellation clock (MkCancelRunRecord projectID run principalID event traceID now).
End RunControl.
