(* ===== verification/AttemptStore.v ===== *)
(** * Attempts: claim, lease, fencing, completion

    Models internal/runtime/attempt/coordinator.go and the transactions of
    internal/adapters/postgres/attempt_store.go, with [DispatchReady] of
    scheduling_store.go, which makes the attempts.  The coordinator checks a
    worker's command and passes it on with a new identity and the time; the
    transaction changes the attempt and its Node Run together. *)

From S2P Require Import Prelude Json Graph Dsl Branch Runtime Engine.
From S2P Require Import EngineSteps EngineInv EngineFacts EngineInit EngineProgress EngineLive EngineVersions EngineState.
From S2P Require Import Scheduling Eventing Consumer Store.

Open Scope string_scope.
Open Scope list_scope.
Open Scope Z_scope.

(** ** JSON values in float64

    [json.Unmarshal] into [any] reads a number with [strconv.ParseFloat]: the
    nearest double, ties to even, an error beyond the largest one. *)

Definition round_half_even (n d : Z) : Z :=
  let q := n / d in let r := n mod d in
  if (2 * r <? d) || ((2 * r =? d) && Z.even q) then q else q + 1.

(** The mantissa and exponent of [n / d], for [0 < n] and [0 < d]. *)
Definition round_float64 (n d : Z) : option (Z * Z) :=
  let scaled e := if 0 <=? e then (n, d * 2 ^ e) else (n * 2 ^ (- e), d) in
  let e := Z.log2 n - Z.log2 d - 53 in
  let e := if 2 ^ 53 <=? (scaled e).1 / (scaled e).2 then e + 1 else e in
  let e := Z.max (-1074) e in
  let m := round_half_even (scaled e).1 (scaled e).2 in
  let '(m, e) := if m =? 2 ^ 53 then (2 ^ 52, e + 1) else (m, e) in
  if 971 <? e then None else if m =? 0 then Some (0, 0) else Some (m, e).

(** A magnitude outside the decimal exponents [-400, 400] is decided without
    expanding it. *)
Definition parse_float (lit : string) : option (Z * Z) :=
  '(neg, i, f, x) ← split_number lit;
  let m := digits_value 0 (i +:+ f) in
  if m =? 0 then Some (0, 0)
  else
    let e := x - Z.of_nat (String.length f) in
    let magnitude := e + Z.log2 m / 3 in
    if 400 <? e then None
    else if magnitude <? -400 then Some (0, 0)
    else
      '(m, e) ← (if 0 <=? e then round_float64 (m * 10 ^ e) 1 else round_float64 m (10 ^ (- e)));
      Some (if neg : bool then - m else m, e).

(** The literal that stands for a double in [json]. *)
Definition float_literal (v : Z * Z) : string := pretty v.1 +:+ "p" +:+ pretty v.2.

(** The decoded value, numbers as doubles. *)
Fixpoint to_float (j : json) : option json :=
  match j with
  | JNum lit => JNum ∘ float_literal <$> parse_float lit
  | JArr items => JArr <$> mapM to_float items
  | JObj members => JObj <$> mapM (λ p, pair p.1 <$> to_float p.2) members
  | _ => Some j
  end.

Definition unmarshal_any (raw : string) : option json :=
  if json_valid raw then decode_any raw ≫= to_float else None.

Example float_rounds : parse_float "9007199254740993" = parse_float "9007199254740992e0" ∧
  parse_float "1e400" = None ∧ parse_float "1e-400" = Some (0, 0) ∧ parse_float "0.1" = Some (7205759403792794, -56) ∧
  parse_float "1.0" = parse_float "1".
Proof. vm_compute. repeat split; reflexivity. Qed.

(** ** Commands *)

Record Lease : Type := MkLease {
  le_Token : string;
  le_Owner : string;
  le_FencingToken : Z;
  le_ExpiresAt : Time;
  le_CancelRequested : bool }.

Record ClaimCommand : Type := MkClaimCommand {
  cl_ProjectID : string;
  cl_RunID : string;
  cl_AttemptID : string;
  cl_AttemptSequence : Z;
  cl_WorkerID : string;
  cl_ExecutorBuild : string;
  cl_ResourceClass : string;
  cl_Capabilities : list Coordinate;
  cl_LeaseDuration : Z }.

Record HeartbeatCommand : Type := MkHeartbeatCommand {
  hb_ProjectID : string;
  hb_RunID : string;
  hb_AttemptID : string;
  hb_LeaseToken : string;
  hb_AttemptSequence : Z;
  hb_FencingToken : Z;
  hb_ExtendBy : Z }.

Record CompleteCommand : Type := MkCompleteCommand {
  cp_ProjectID : string;
  cp_RunID : string;
  cp_AttemptID : string;
  cp_LeaseToken : string;
  cp_AttemptSequence : Z;
  cp_FencingToken : Z;
  cp_Result : AttemptResult;
  cp_TraceID : string }.

Record MarkLostCommand : Type := MkMarkLostCommand {
  ml_ProjectID : string;
  ml_RunID : string;
  ml_AttemptID : string;
  ml_AttemptSequence : Z;
  ml_TraceID : string }.

(** The embedding records. *)
Record ClaimRecord : Type := MkClaimRecord { cl_Command : ClaimCommand; cl_LeaseToken : string; cl_Now : Time }.
Record HeartbeatRecord : Type := MkHeartbeatRecord { hb_Command : HeartbeatCommand; hb_Now : Time }.
Record CompleteRecord : Type := MkCompleteRecord { cp_Command : CompleteCommand; cp_EventID : string; cp_Now : Time }.
Record MarkLostRecord : Type := MkMarkLostRecord { ml_Command : MarkLostCommand; ml_EventID : string; ml_Now : Time }.

(** What the coordinator needs of the store. *)
Class Repository (D : Type) : Type := {
  Repository_Claim : ClaimRecord → tx D Lease;
  Repository_Heartbeat : HeartbeatRecord → tx D Lease;
  Repository_Complete : CompleteRecord → tx D bool;
  Repository_MarkExpiredLost : MarkLostRecord → tx D bool }.

(** ** The coordinator

    [id] is the answer of the identity generator to the call, [now] the
    reading of the clock. *)

Section Coordinator.
Context {D : Type} {repository : Repository D}.

Definition Coordinator_Claim (id : res string) (now : Time) (command : ClaimCommand) : tx D Lease :=
  tx_lift (guard_err (bool_decide (cl_ProjectID command = "") || bool_decide (cl_RunID command = "")
      || bool_decide (cl_AttemptID command = "") || (cl_AttemptSequence command =? 0) || bool_decide (cl_WorkerID command = "")
      || bool_decide (cl_ExecutorBuild command = "") || negb (ResourceClass_Valid (cl_ResourceClass command))
      || bool_decide (cl_Capabilities command = []) || (cl_LeaseDuration command <=? 0))
    (Errorf "claim identity, worker, build and positive lease are required" [])) ;;
  tx_lift (guard_err (existsb (λ c, bool_decide (co_Type c = "") || (co_Version c =? 0)) (cl_Capabilities command))
    (Errorf "claim capability coordinate is invalid" [])) ;;
  token ← tx_lift id;
  Repository_Claim (MkClaimRecord command token now).

Definition Coordinator_Heartbeat (now : Time) (command : HeartbeatCommand) : tx D Lease :=
  tx_lift (guard_err (bool_decide (hb_ProjectID command = "") || bool_decide (hb_RunID command = "")
      || bool_decide (hb_AttemptID command = "") || (hb_AttemptSequence command =? 0)
      || bool_decide (hb_LeaseToken command = "") || (hb_FencingToken command =? 0) || (hb_ExtendBy command <=? 0))
    (Errorf "heartbeat coordinate and positive extension are required" [])) ;;
  Repository_Heartbeat (MkHeartbeatRecord command now).

(** The checks of a result a worker sends. *)
Definition worker_result (result : AttemptResult) : res unit :=
  guard_err (negb (AttemptState_Terminal (ar_State result)) || bool_decide (ar_State result = AttemptLost))
    (Errorf "worker completion requires a non-lost terminal result" []) ;;
  if bool_decide (ar_State result = AttemptSucceeded) then
    guard_err (negb (bool_decide (ar_ErrorCode result = "")))
      (Errorf "successful completion cannot contain an error" []) ;;
    guard_err (existsb (λ '(name, value), bool_decide (name = "") || negb (json_valid value)) (map_to_list (ar_Outputs result)))
      (Errorf "successful output candidate is not valid JSON" [])
  else
    guard_err (bool_decide (ar_ErrorCode result = "")) (Errorf "unsuccessful completion requires an error code" []).

Definition Coordinator_Complete (id : res string) (now : Time) (command : CompleteCommand) : tx D bool :=
  tx_lift (guard_err (bool_decide (cp_ProjectID command = "") || bool_decide (cp_RunID command = "")
      || bool_decide (cp_AttemptID command = "") || (cp_AttemptSequence command =? 0)
      || bool_decide (cp_LeaseToken command = "") || (cp_FencingToken command =? 0) || bool_decide (cp_TraceID command = ""))
    (Errorf "completion coordinate and trace are required" [])) ;;
  tx_lift (worker_result (cp_Result command)) ;;
  eventID ← tx_lift id;
  Repository_Complete (MkCompleteRecord command eventID now).

Definition Coordinator_MarkExpiredLost (id : res string) (now : Time) (command : MarkLostCommand) : tx D bool :=
  tx_lift (guard_err (bool_decide (ml_ProjectID command = "") || bool_decide (ml_RunID command = "")
      || bool_decide (ml_AttemptID command = "") || (ml_AttemptSequence command =? 0) || bool_decide (ml_TraceID command = ""))
    (Errorf "lost attempt coordinate and trace are required" [])) ;;
  eventID ← tx_lift id;
  Repository_MarkExpiredLost (MkMarkLostRecord command eventID now).
End Coordinator.

(** ** Rows *)

Definition attempt_row (db : DB) (projectID runID attemptID : string) : option AttemptRow :=
  row ← db_attempts db !! attemptID;
  if attempt_of_run projectID runID attemptID row then Some row else None.

(** [UPDATE node_attempts SET f WHERE] the key and [p]: was there such a row? *)
Definition update_attempt (projectID runID attemptID : string) (p : AttemptRow → bool) (f : AttemptRow → AttemptRow)
    : tx DB bool := λ db,
  match attempt_row db projectID runID attemptID with
  | Some row =>
      if p row then (db <| db_attempts := <[attemptID := f row]> (db_attempts db) |>, Ok true) else (db, Ok false)
  | None => (db, Ok false)
  end.

(** [UPDATE node_runs SET f WHERE p]: the number of rows. *)
Definition update_nodes (p : string → NodeRow → bool) (f : NodeRow → NodeRow) : tx DB nat := λ db,
  let '(t, affected) := update_where p f (db_nodes db) in (db <| db_nodes := t |>, Ok affected).

(** Scanning NULL into a Go value that cannot be nil. *)
Definition scan_null : error := Errorf "cannot scan NULL" [].

(** The run was asked to stop, is stopping, or is late. *)
Definition stop_requested (run : WorkflowRunRecord) (now : Time) : bool :=
  negb (IsZero (rr_CancelRequestedAt run)) || negb (bool_decide (rr_Termination run = None)) || (rr_DeadlineAt run <=? now).

Definition containsCapability (capabilities : list Coordinate) (required : Coordinate) : bool :=
  bool_decide (required ∈ capabilities).

(** [lease_expires_at >= now], false for NULL *)
Definition lease_valid (row : AttemptRow) (now : Time) : bool :=
  match ra_LeaseExpiresAt row with Some t => now <=? t | None => false end.
Definition lease_expired (row : AttemptRow) (now : Time) : bool :=
  match ra_LeaseExpiresAt row with Some t => t <=? now | None => false end.

(** ** Completions *)

(** [error_json]: nothing for a success; [omitempty] drops empty details. *)
Definition completionError (result : AttemptResult) : option AttemptError :=
  if bool_decide (ar_State result = AttemptSucceeded) then None
  else Some (MkAttemptError (ar_ErrorCode result) (ar_Message result) (ar_DSLField result)
    (match ar_ErrorDetails result with
     | Some m => if bool_decide (m = ∅) then None else Some m
     | None => None
     end)).

(** [jsonEqual] of two objects of raw values. *)
Definition raw_objects_equal (left right : gmap string string) : bool :=
  let decode (m : gmap string string) := mapM (λ p, pair p.1 <$> unmarshal_any p.2) (sorted_items m) in
  match decode left, decode right with
  | Some a, Some b => bool_decide (a = b)
  | _, _ => false
  end.

(** [jsonEqual] of two encoded errors; NULL is no JSON text. *)
Definition errors_equal (left right : option AttemptError) : bool :=
  let decode (e : AttemptError) :=
    details ← match ae_ErrorDetails e with
              | Some m => Some <$> mapM (λ p, pair p.1 <$> to_float p.2) (sorted_items m)
              | None => Some None
              end;
    Some (ae_ErrorCode e, ae_Message e, ae_DSLField e, details) in
  match left ≫= decode, right ≫= decode with
  | Some a, Some b => bool_decide (a = b)
  | _, _ => false
  end.

Definition sameCompletion (state : AttemptState) (existingError : option AttemptError)
    (existingOutput : option (gmap string string)) (result : AttemptResult) : bool :=
  if negb (bool_decide (state = ar_State result)) then false
  else if bool_decide (state = AttemptSucceeded) then
    match existingOutput with
    | Some outputs => forallb (λ p, json_valid p.2) (map_to_list (ar_Outputs result)) && raw_objects_equal (ar_Outputs result) outputs
    | None => false
    end
  else errors_equal (completionError result) existingError.

(** The state of an attempt in a run, as [Scan] reads it. *)
Definition load_node_row (projectID runID nodeRunID : string) : tx DB NodeRow :=
  db ← tx_get;
  tx_lift (or_err (node_row_of db projectID runID nodeRunID) no_rows).

Definition load_attempt_row (projectID runID attemptID : string) (missing : error) : tx DB AttemptRow :=
  db ← tx_get;
  tx_lift (or_err (attempt_row db projectID runID attemptID) missing).

(** [current_attempt_id] scanned into a string. *)
Definition scan_current (node : NodeRow) : res string :=
  or_err (nullableString (nrr_CurrentAttemptID (rn_Record node))) scan_null.

Definition bump_node (state : NodeState) (row : NodeRow) : NodeRow :=
  row <| rn_Record := (rn_Record row) <| nrr_State := state |> <| nrr_StateVersion := nrr_StateVersion (rn_Record row) + 1 |> |>.

Definition attempt_event (type : RuntimeEventType) (eventID projectID runID attemptID traceID : string) (now : Time)
    : RuntimeEvent :=
  MkRuntimeEvent RuntimeMessageVersion eventID projectID runID NodeAttemptAggregate attemptID type now traceID.

Section Transactions.
Context (clock : nat → Time) (jsonb : string → string) (router : Coordinate → option string).
Local Notation clock_timestamp := (clock_timestamp clock).
Local Notation insertOutbox := (insertOutbox clock).

(** ** Claim *)

Definition claim_attempt (record : ClaimRecord) (row : AttemptRow) (now : Time) : AttemptRow :=
  let command := cl_Command record in
  row <| ra_State := AttemptRunning |> <| ra_StateVersion := ra_StateVersion row + 1 |>
      <| ra_LeaseToken := Some (cl_LeaseToken record) |> <| ra_LeaseOwner := Some (cl_WorkerID command) |>
      <| ra_LeaseExpiresAt := Some (now + milliseconds (cl_LeaseDuration command)) |>
      <| ra_FencingToken := cl_AttemptSequence command |> <| ra_ExecutorBuild := Some (cl_ExecutorBuild command) |>
      <| ra_UpdatedAt := now |>.

(** A running attempt: its owner gets its lease back while it is valid. *)
Definition reclaim (command : ClaimCommand) (row : AttemptRow) (valid cancelRequested : bool) : res Lease :=
  match ra_LeaseOwner row, ra_LeaseToken row, ra_LeaseExpiresAt row with
  | Some owner, Some token, Some expiry =>
      if bool_decide (owner = cl_WorkerID command) && valid
      then Ok (MkLease token owner (ra_FencingToken row) expiry cancelRequested)
      else Err ErrStateConflict
  | _, _, _ => Err ErrStateConflict
  end.

Definition claim_queued (record : ClaimRecord) (row : AttemptRow) (cancelRequested : bool) : tx DB Lease :=
  let command := cl_Command record in
  now ← clock_timestamp;
  updated ← update_attempt (cl_ProjectID command) (cl_RunID command) (cl_AttemptID command)
    (λ r, bool_decide (ra_State r = AttemptQueued) && (ra_StateVersion r =? ra_StateVersion row)
          && (ra_Sequence r =? cl_AttemptSequence command))
    (λ r, claim_attempt record r now);
  tx_lift (guard_err (negb updated) ErrStateConflict) ;;
  affected ← update_nodes (λ k r, node_of_run (cl_ProjectID command) (cl_RunID command) k r
      && bool_decide (nrr_CurrentAttemptID (rn_Record r) = cl_AttemptID command)
      && bool_decide (nrr_State (rn_Record r) = NodeQueued)) (bump_node NodeRunning);
  tx_lift (guard_err (negb (bool_decide (affected = 1%nat))) ErrStateConflict) ;;
  mret (MkLease (cl_LeaseToken record) (cl_WorkerID command) (cl_AttemptSequence command)
          (now + milliseconds (cl_LeaseDuration command)) cancelRequested).

Definition Claim (record : ClaimRecord) : tx DB Lease := transaction (
  let command := cl_Command record in
  found ← load_attempt_row (cl_ProjectID command) (cl_RunID command) (cl_AttemptID command) ErrNotFound;
  node ← load_node_row (cl_ProjectID command) (cl_RunID command) (ra_NodeRunID found);
  db ← tx_get;
  run ← tx_lift (or_err (run_row db (cl_ProjectID command) (cl_RunID command)) no_rows);
  now ← clock_timestamp;
  resourceClass ← tx_lift (or_err (rn_ResourceClass node) scan_null);
  row ← load_attempt_row (cl_ProjectID command) (cl_RunID command) (cl_AttemptID command) no_rows;
  validAt ← clock_timestamp;
  tx_lift (guard_err (negb (ra_Sequence row =? cl_AttemptSequence command)
      || negb (bool_decide (nrr_CurrentAttemptID (rn_Record node) = cl_AttemptID command))) ErrNotCurrent) ;;
  tx_lift (guard_err (negb (bool_decide (resourceClass = cl_ResourceClass command))
      || negb (containsCapability (cl_Capabilities command) (rn_Operation node))) ErrCapabilityMismatch) ;;
  if bool_decide (ra_State row = AttemptRunning)
  then tx_lift (reclaim command row (lease_valid row validAt) (stop_requested run now))
  else
    tx_lift (guard_err (negb (bool_decide (ra_State row = AttemptQueued))
        || negb (bool_decide (nrr_State (rn_Record node) = NodeQueued))) ErrStateConflict) ;;
    claim_queued record row (stop_requested run now)).

(** ** Heartbeat: one statement *)

Definition held_lease (row : AttemptRow) (sequence : Z) (token : string) (fencing : Z) (now : Time) : bool :=
  (ra_Sequence row =? sequence) && bool_decide (ra_State row = AttemptRunning)
  && bool_decide (ra_LeaseToken row = Some token) && (ra_FencingToken row =? fencing) && lease_valid row now.

Definition Heartbeat (record : HeartbeatRecord) : tx DB Lease :=
  let command := hb_Command record in
  now ← clock_timestamp;
  db ← tx_get;
  let expiresAt := now + milliseconds (hb_ExtendBy command) in
  match attempt_row db (hb_ProjectID command) (hb_RunID command) (hb_AttemptID command) with
  | Some row =>
      if held_lease row (hb_AttemptSequence command) (hb_LeaseToken command) (hb_FencingToken command) now then
        tx_modify (λ db, db <| db_attempts := <[hb_AttemptID command :=
                               row <| ra_LeaseExpiresAt := Some expiresAt |> <| ra_UpdatedAt := now |>]> (db_attempts db) |>) ;;
        owner ← tx_lift (or_err (ra_LeaseOwner row) scan_null);
        mret (MkLease (hb_LeaseToken command) owner (hb_FencingToken command) expiresAt
          (match run_row db (hb_ProjectID command) (hb_RunID command) with
           | Some run => stop_requested run now
           | None => false
           end))
      else tx_fail ErrLeaseMismatch
  | None => tx_fail ErrLeaseMismatch
  end.

(** ** Complete *)

Definition complete_attempt (state : AttemptState) (error : option AttemptError) (at_ : Time) (row : AttemptRow) : AttemptRow :=
  row <| ra_State := state |> <| ra_StateVersion := ra_StateVersion row + 1 |> <| ra_Error := error |> <| ra_UpdatedAt := at_ |>.

Definition insert_outputs (attemptID : string) (outputs : gmap string string) : tx DB unit := λ db,
  match db_outputs db !! attemptID with
  | Some _ => (db, Err duplicate_key)
  | None => (db <| db_outputs := <[attemptID := jsonb <$> outputs]> (db_outputs db) |>, Ok tt)
  end.

Definition finish_running (record : CompleteRecord) (row : AttemptRow) : tx DB bool :=
  let command := cp_Command record in
  let result := cp_Result command in
  now ← clock_timestamp;
  updated ← update_attempt (cp_ProjectID command) (cp_RunID command) (cp_AttemptID command)
    (λ r, bool_decide (ra_State r = AttemptRunning) && (ra_StateVersion r =? ra_StateVersion row)
          && (ra_Sequence r =? cp_AttemptSequence command) && bool_decide (ra_LeaseToken r = Some (cp_LeaseToken command))
          && (ra_FencingToken r =? cp_FencingToken command) && lease_valid r now)
    (complete_attempt (ar_State result) (completionError result) (cp_Now record));
  tx_lift (guard_err (negb updated) ErrStateConflict) ;;
  (if bool_decide (ar_State result = AttemptSucceeded) then
     tx_lift (guard_err (existsb (λ p, negb (json_valid p.2)) (map_to_list (ar_Outputs result)))
       (Errorf "json: error calling MarshalJSON for type json.RawMessage" [])) ;;
     insert_outputs (cp_AttemptID command) (ar_Outputs result)
   else mret tt) ;;
  insertOutbox (attempt_event EvAttemptCompleted (cp_EventID record) (cp_ProjectID command) (cp_RunID command)
    (cp_AttemptID command) (cp_TraceID command) (cp_Now record)) ;;
  mret true.

Definition Complete (record : CompleteRecord) : tx DB bool := transaction (
  let command := cp_Command record in
  found ← load_attempt_row (cp_ProjectID command) (cp_RunID command) (cp_AttemptID command) ErrNotFound;
  node ← load_node_row (cp_ProjectID command) (cp_RunID command) (ra_NodeRunID found);
  currentAttemptID ← tx_lift (scan_current node);
  row ← load_attempt_row (cp_ProjectID command) (cp_RunID command) (cp_AttemptID command) no_rows;
  tx_lift (guard_err (negb (ra_Sequence row =? cp_AttemptSequence command)) ErrNotCurrent) ;;
  tx_lift (guard_err (negb (bool_decide (ra_LeaseToken row = Some (cp_LeaseToken command)))
      || negb (ra_FencingToken row =? cp_FencingToken command)) ErrLeaseMismatch) ;;
  if AttemptState_Terminal (ra_State row) then
    db ← tx_get;
    tx_lift (guard_err (negb (sameCompletion (ra_State row) (ra_Error row) (db_outputs db !! cp_AttemptID command) (cp_Result command)))
      ErrStateConflict) ;;
    mret false
  else
    tx_lift (guard_err (negb (bool_decide (currentAttemptID = cp_AttemptID command))) ErrNotCurrent) ;;
    tx_lift (guard_err (negb (bool_decide (ra_State row = AttemptRunning)) || bool_decide (ra_LeaseExpiresAt row = None))
      ErrLeaseMismatch) ;;
    finish_running record row).

(** ** MarkExpiredLost *)

Definition lost_result : AttemptResult := MkAttemptResult AttemptLost ∅ "LEASE_LOST" "attempt lease expired" "" None.

Definition lose_running (record : MarkLostRecord) (row : AttemptRow) : tx DB bool :=
  let command := ml_Command record in
  now ← clock_timestamp;
  updated ← update_attempt (ml_ProjectID command) (ml_RunID command) (ml_AttemptID command)
    (λ r, bool_decide (ra_State r = AttemptRunning) && (ra_StateVersion r =? ra_StateVersion row)
          && (ra_Sequence r =? ml_AttemptSequence command) && lease_expired r now)
    (complete_attempt AttemptLost (completionError lost_result) now);
  tx_lift (guard_err (negb updated) ErrLeaseMismatch) ;;
  insertOutbox (attempt_event EvAttemptLost (ml_EventID record) (ml_ProjectID command) (ml_RunID command)
    (ml_AttemptID command) (ml_TraceID command) (ml_Now record)) ;;
  mret true.

Definition MarkExpiredLost (record : MarkLostRecord) : tx DB bool := transaction (
  let command := ml_Command record in
  found ← load_attempt_row (ml_ProjectID command) (ml_RunID command) (ml_AttemptID command) ErrNotFound;
  node ← load_node_row (ml_ProjectID command) (ml_RunID command) (ra_NodeRunID found);
  currentAttemptID ← tx_lift (scan_current node);
  row ← load_attempt_row (ml_ProjectID command) (ml_RunID command) (ml_AttemptID command) no_rows;
  tx_lift (guard_err (negb (ra_Sequence row =? ml_AttemptSequence command)
      || negb (bool_decide (currentAttemptID = ml_AttemptID command))) ErrNotCurrent) ;;
  if bool_decide (ra_State row = AttemptLost) then mret false
  else
    tx_lift (guard_err (negb (bool_decide (ra_State row = AttemptRunning))) ErrStateConflict) ;;
    lose_running record row).

#[export] Instance store_repository : Repository DB := {
  Repository_Claim := Claim;
  Repository_Heartbeat := Heartbeat;
  Repository_Complete := Complete;
  Repository_MarkExpiredLost := MarkExpiredLost }.
End Transactions.
