(* ===== verification/SchedulingStore.v ===== *)
(** * Scheduling against the store

    Models internal/adapters/postgres/scheduling_store.go: what the scheduler
    reads ([LoadSchedulingSnapshot]) and the transaction that turns a ready node
    into a queued attempt with its task message ([DispatchReady]). *)

From S2P Require Import Prelude Json Graph Dsl Branch Runtime Engine.
From S2P Require Import EngineSteps EngineInv EngineFacts EngineInit EngineProgress EngineLive EngineVersions EngineState.
From S2P Require Import Scheduling Eventing Consumer Store AttemptStore.

Open Scope string_scope.
Open Scope list_scope.
Open Scope Z_scope.

Record DispatchCommand : Type := MkDispatchCommand {
  dp_Candidate : Candidate;
  dp_AttemptID : string;
  dp_TaskID : string;
  dp_TraceID : string;
  dp_Now : Time }.

Section Scheduling.
Context (clock : nat → Time) (router : Coordinate → option string).
Local Notation clock_timestamp := (clock_timestamp clock).

(** ** The snapshot *)

(** A run whose ready nodes may start: running, not terminating, not late. *)
Definition dispatchable_run (db : DB) (now : Time) (projectID runID : string) : option WorkflowRunRecord :=
  run ← run_row db projectID runID;
  if bool_decide (rr_State run = RunRunning) && bool_decide (rr_Termination run = None) && Before now (rr_DeadlineAt run)
  then Some run else None.

Definition is_candidate (db : DB) (now : Time) (_ : string) (row : NodeRow) : bool :=
  bool_decide (nrr_State (rn_Record row) = NodeReady)
  && bool_decide (is_Some (dispatchable_run db now (rn_ProjectID row) (nrr_RunID (rn_Record row)))).

(** [ORDER BY priority DESC, ready_at, node_run_id]; NULL times sort last. *)
Definition candidate_row_leb (a b : string * NodeRow) : bool :=
  if negb (rn_Priority a.2 =? rn_Priority b.2) then rn_Priority b.2 <? rn_Priority a.2
  else match rn_ReadyAt a.2, rn_ReadyAt b.2 with
       | Some x, Some y => if x =? y then String.leb a.1 b.1 else x <? y
       | Some _, None => true
       | None, Some _ => false
       | None, None => String.leb a.1 b.1
       end.

(** The class of a persisted operation, which the router must still give. *)
Definition routed_class (row : NodeRow) : res string :=
  persistedClass ← or_err (rn_ResourceClass row) scan_null;
  let unrouted := Err (Errorf "operation %s@%d has no runtime routing policy"
                         [co_Type (rn_Operation row); pretty (co_Version (rn_Operation row))]) in
  match router (rn_Operation row) with
  | Some class => if bool_decide (class = persistedClass) then Ok class else unrouted
  | None => unrouted
  end.

Definition scan_candidate (r : string * NodeRow) : res Candidate :=
  let record := rn_Record r.2 in
  readyAt ← or_err (rn_ReadyAt r.2) scan_null;
  class ← routed_class r.2;
  Ok (MkCandidate (rn_ProjectID r.2) (nrr_RunID record) r.1 (nrr_ExecutionNodeID record) (nrr_StateVersion record)
        (rn_Priority r.2) readyAt class).

Fixpoint scan_all {A B} (f : A → res B) (rows : list A) : res (list B) :=
  match rows with
  | [] => Ok []
  | r :: rest => x ← f r; xs ← scan_all f rest; Ok (x :: xs)
  end.

(** The projects that have a ready node. *)
Definition active_projects (db : DB) (now : Time) : list string :=
  sorted_keys (list_to_map ((λ r, (rn_ProjectID r.2, tt)) <$> select_where (is_candidate db now) (db_nodes db)) : gmap string unit).

(** The ready nodes of a project, in the order in which they are offered. *)
Definition project_candidates (db : DB) (now : Time) (projectID : string) : list (string * NodeRow) :=
  stable_sort candidate_row_leb
    (select_where (λ k row, bool_decide (rn_ProjectID row = projectID) && is_candidate db now k row) (db_nodes db)).

(** Each project's first [candidateWindow] ready nodes, project by project. *)
Definition candidate_rows (db : DB) (now : Time) (candidateWindow : nat) : list (string * NodeRow) :=
  projectID ← active_projects db now;
  take candidateWindow (project_candidates db now projectID).

(** Attempts that hold capacity, with their Node Run. *)
Definition inflight_rows (db : DB) : list (string * (AttemptRow * NodeRow)) :=
  let rows := select_where (λ _ row, bool_decide (ra_State row = AttemptQueued) || bool_decide (ra_State row = AttemptRunning))
                (db_attempts db) in
  let leb (a b : string * AttemptRow) :=
    if bool_decide (ra_ProjectID a.2 = ra_ProjectID b.2) then String.leb a.1 b.1
    else String.leb (ra_ProjectID a.2) (ra_ProjectID b.2) in
  omap (λ r, node ← node_row_of db (ra_ProjectID r.2) (ra_RunID r.2) (ra_NodeRunID r.2); Some (r.1, (r.2, node)))
    (stable_sort leb rows).

Definition scan_inflight (r : string * (AttemptRow * NodeRow)) : res Inflight :=
  class ← routed_class r.2.2;
  Ok (MkInflight r.1 (ra_ProjectID r.2.1) class).

Definition LoadSchedulingSnapshot (candidateWindow : Z) : tx DB AuthoritySnapshot :=
  tx_lift (guard_err (candidateWindow <? 0) (Errorf "candidate window cannot be negative" [])) ;;
  db ← tx_get;
  candidates ← (if 0 <? candidateWindow then
                  now ← clock_timestamp;
                  tx_lift (scan_all scan_candidate (candidate_rows db now (Z.to_nat candidateWindow)))
                else mret []);
  inflight ← tx_lift (scan_all scan_inflight (inflight_rows db));
  mret (MkAuthoritySnapshot candidates inflight).

(** ** Dispatch *)

Definition queued_row (command : DispatchCommand) (after : NodeRun) (queued : NodeAttemptRecord) : AttemptRow :=
  let candidate := dp_Candidate command in
  MkAttemptRow (cd_ProjectID candidate) (nr_runID after) (cd_NodeRunID candidate) (nar_Sequence queued) (nar_Kind queued)
    (nar_State queued) (nar_StateVersion queued)
    (if 0 <? nr_businessAttemptCount after then nr_businessAttemptCount after - 1 else 0) (nr_recoveryCount after)
    None None 0 None None None (dp_Now command).

Definition insert_attempt (attemptID : string) (row : AttemptRow) : tx DB unit := λ db,
  match db_attempts db !! attemptID with
  | Some _ => (db, Err duplicate_key)
  | None => (db <| db_attempts := <[attemptID := row]> (db_attempts db) |>, Ok tt)
  end.

(** The columns [DispatchReady] sets. *)
Definition dispatch_row (after : NodeRun) (row : NodeRow) : NodeRow :=
  row <| rn_Record := (rn_Record row) <| nrr_State := nr_state after |> <| nrr_StateVersion := nr_stateVersion after |>
           <| nrr_CurrentAttemptID := nr_currentAttemptID after |> <| nrr_NextAttemptSeq := nr_nextAttemptSeq after |>
           <| nrr_BusinessAttemptCount := nr_businessAttemptCount after |> <| nrr_RecoveryCount := nr_recoveryCount after |>
           <| nrr_NextRetryAt := 0 |> |>
      <| rn_ReadyAt := None |>.

(** The task, as [scheduling.Task] and as [eventing.TaskMessage] have it. *)
Definition dispatched_task (command : DispatchCommand) (record : NodeRunRecord) (sequence : Z) (class trace : string) : TaskMessage :=
  let candidate := dp_Candidate command in
  MkTaskMessage 1 (dp_TaskID command) (cd_ProjectID candidate) (nrr_RunID record) (cd_NodeRunID candidate)
    (nrr_ExecutionNodeID record) (dp_AttemptID command) sequence class (dp_Now command) trace.

Definition insert_task (task : TaskMessage) : tx DB unit :=
  now ← clock_timestamp;
  db ← tx_get;
  t ← tx_lift (insert_row tm_TaskID now task (db_tasks db));
  tx_modify (λ db, db <| db_tasks := t |>).

(** The row is what the candidate was read from, and the router agrees. *)
Definition candidate_stale (candidate : Candidate) (row : NodeRow) (persistedClass : string) : bool :=
  negb (bool_decide (router (rn_Operation row) = Some persistedClass))
  || negb (bool_decide (persistedClass = cd_ResourceClass candidate))
  || negb (bool_decide (nrr_ExecutionNodeID (rn_Record row) = cd_ExecutionNodeID candidate))
  || negb (bool_decide (nrr_State (rn_Record row) = NodeReady))
  || negb (nrr_StateVersion (rn_Record row) =? cd_StateVersion candidate).

Definition queue_candidate (command : DispatchCommand) (row : NodeRow) (class trace : string) : tx DB TaskMessage :=
  let candidate := dp_Candidate command in
  let record := (rn_Record row) <| nrr_EffectiveOutputs := ∅ |> in
  node ← tx_lift (RestoreNodeRun record);
  '(after, (sequence, kind)) ← tx_lift (NodeRun_QueueAttempt node (dp_AttemptID command));
  attempt ← tx_lift (NewNodeAttempt (dp_AttemptID command) (nrr_RunID record +:+ ":" +:+ nrr_ExecutionNodeID record) sequence kind);
  insert_attempt (dp_AttemptID command) (queued_row command after (NodeAttempt_Snapshot attempt)) ;;
  affected ← update_nodes (λ k r, bool_decide (k = cd_NodeRunID candidate)
      && node_of_run (cd_ProjectID candidate) (nrr_RunID record) k r
      && bool_decide (nrr_State (rn_Record r) = NodeReady) && (nrr_StateVersion (rn_Record r) =? nrr_StateVersion record))
    (dispatch_row after);
  tx_lift (guard_err (negb (bool_decide (affected = 1%nat))) ErrCandidateStale) ;;
  let task := dispatched_task command record sequence class trace in
  insert_task task ;;
  mret task.

Definition DispatchReady (command : DispatchCommand) : tx DB TaskMessage :=
  let candidate := dp_Candidate command in
  tx_lift (Candidate_Validate candidate) ;;
  tx_lift (guard_err (bool_decide (dp_AttemptID command = "") || bool_decide (dp_TaskID command = "") || IsZero (dp_Now command))
    (Errorf "dispatch attempt, task and time are required" [])) ;;
  transaction (
    now ← clock_timestamp;
    db ← tx_get;
    run ← tx_lift (or_err (dispatchable_run db now (cd_ProjectID candidate) (cd_RunID candidate)) ErrCandidateStale);
    row ← tx_lift (or_err (node_row_of db (cd_ProjectID candidate) (cd_RunID candidate) (cd_NodeRunID candidate)) ErrCandidateStale);
    persistedClass ← tx_lift (or_err (rn_ResourceClass row) scan_null);
    tx_lift (guard_err (candidate_stale candidate row persistedClass) ErrCandidateStale) ;;
    queue_candidate command row persistedClass (rr_TraceID run)).
End Scheduling.
