(* ===== verification/Recovery.v ===== *)
(** * Recovery: lost leases, due retries, deadlines and missed events

    Models internal/recovery (wakeup.go, reaper.go) and the store's side of it
    in internal/adapters/postgres/recovery_store.go.  A scanner lists what the
    tables say is due and emits a wake-up event for each; the emission repeats
    the condition in its own transaction and is held back by a cooldown.  The
    reaper marks the attempts whose lease has run out.  Telemetry, the audit
    table (nothing here reads it) and the timers around [ScanOnce] are left out;
    [others] is what other processes do between two calls of a scan. *)

From S2P Require Import Prelude Json Graph Dsl Branch Runtime Engine.
From S2P Require Import EngineSteps EngineInv EngineFacts EngineInit EngineProgress EngineLive EngineVersions EngineState.
From S2P Require Import Scheduling Eventing Consumer Store RunControl AttemptStore SchedulingStore.

Open Scope string_scope.
Open Scope list_scope.
Open Scope Z_scope.

(** ** Wake-ups *)

Record Wakeup : Type := MkWakeup {
  wu_ProjectID : string;
  wu_RunID : string;
  wu_AggregateID : string;
  wu_EventType : RuntimeEventType;
  wu_TraceID : string }.

#[export] Instance Wakeup_eq_dec : EqDecision Wakeup.
Proof. solve_decision. Defined.

Definition Wakeup_Validate (wakeup : Wakeup) : res unit :=
  guard_err (bool_decide (wu_ProjectID wakeup = "") || bool_decide (wu_RunID wakeup = "")
             || bool_decide (wu_AggregateID wakeup = "")) (Errorf "recovery wakeup identity is required" []) ;;
  match wu_EventType wakeup with
  | EvRunCreated | EvRunCancelRequested | EvRunDeadlineReached =>
      guard_err (negb (bool_decide (wu_AggregateID wakeup = wu_RunID wakeup)))
        (Errorf "run recovery wakeup must target its run" [])
  | EvAttemptCompleted | EvAttemptLost | EvRetryDue => Ok tt
  | EvOther raw => Err (Errorf "unsupported recovery wakeup type %q" [quote raw])
  end.

Definition Wakeup_AggregateType (wakeup : Wakeup) : AggregateType :=
  match wu_EventType wakeup with
  | EvRunCreated | EvRunCancelRequested | EvRunDeadlineReached => WorkflowRunAggregate
  | _ => NodeAttemptAggregate
  end.

(** The trace of the emission is the emitter's, not the wake-up's. *)
Record WakeupEmission : Type := MkWakeupEmission {
  we_Wakeup : Wakeup;
  we_EventID : string;
  we_AuditID : string;
  we_TraceID : string;
  we_ActorID : string;
  we_ActorType : string;
  we_At : Time;
  we_Cooldown : Z;
  we_Manual : bool }.

(** What the recovery loops need of the store. *)
Class WakeupRepository (D : Type) : Type := {
  Repository_ListExpiredAttempts : Z → Z → tx D (list MarkLostCommand);
  Repository_ListRetryDue : Z → tx D (list Wakeup);
  Repository_ListDeadlinesDue : Z → tx D (list Wakeup);
  Repository_ListReconciliationWakeups : Z → tx D (list Wakeup);
  Repository_EmitWakeup : WakeupEmission → tx D bool }.

Definition PermissionProjectAdmin : string := "project.admin".

Section Loops.
Context {D : Type} {wakeups : WakeupRepository D} {attempts : Repository D}.

(** *** Emitting

    [eventID] and [auditID] are the answers of the identity generator, [now]
    the reading of the clock. *)

Definition Emitter_Emit (eventID auditID : res string) (now : Time) (wakeup : Wakeup)
    (traceID actorType actorID : string) (cooldown : Z) (manual : bool) : tx D bool :=
  tx_lift (Wakeup_Validate wakeup) ;;
  tx_lift (guard_err (bool_decide (traceID = "") || bool_decide (actorID = "") || (cooldown <? 0)
      || negb (bool_decide (actorType = "system")) && negb (bool_decide (actorType = "principal")))
    (Errorf "recovery wakeup trace, actor and cooldown are invalid" [])) ;;
  event ← tx_lift eventID;
  audit ← tx_lift auditID;
  Repository_EmitWakeup (MkWakeupEmission wakeup event audit traceID actorID actorType now cooldown manual).

Definition ManualReplayer_Replay (access : string → string → string → res unit) (eventID auditID : res string) (now : Time)
    (wakeup : Wakeup) (traceID principalID : string) : tx D bool :=
  tx_lift (access (wu_ProjectID wakeup) principalID PermissionProjectAdmin) ;;
  Emitter_Emit eventID auditID now wakeup traceID "principal" principalID 0 true.

(** *** The scanners *)

Record Scanner : Type := MkScanner {
  sc_name : string;
  sc_traceID : string;
  sc_list : Z → tx D (list Wakeup);
  sc_interval : Z;
  sc_batch : Z;
  sc_cooldown : Z }.

(** [newScanner], with its dependencies given. *)
Definition newScanner (name : string) (list : Z → tx D (list Wakeup)) (interval batch : Z) (traceID : string) (cooldown : Z)
    : res Scanner :=
  guard_err (bool_decide (name = "") || (interval <=? 0) || (batch <? 1) || bool_decide (traceID = "") || (cooldown <? 0))
    (Errorf "recovery scanner dependencies and settings are required" []) ;;
  Ok (MkScanner name traceID list interval batch cooldown).

Definition NewRetryTimer (interval batch : Z) (traceID : string) : res Scanner :=
  newScanner "retry-timer" Repository_ListRetryDue interval batch traceID interval.
Definition NewDeadlineScanner (interval batch : Z) (traceID : string) : res Scanner :=
  newScanner "deadline-scanner" Repository_ListDeadlinesDue interval batch traceID interval.
Definition NewReconciler (interval batch : Z) (traceID : string) : res Scanner :=
  newScanner "runtime-reconciler" Repository_ListReconciliationWakeups interval batch traceID interval.

(** [ids] and [clock] are what the generator and the clock give one after the
    other. *)
Context (ids : nat → res string) (now : nat → Time) (others : nat → D → D).

Fixpoint emit_all (scanner : Scanner) (n : nat) (found : list Wakeup) : tx D unit :=
  match found with
  | [] => mret tt
  | wakeup :: rest =>
      tx_modify (others n) ;;
      let traceID := if bool_decide (wu_TraceID wakeup = "") then sc_traceID scanner else wu_TraceID wakeup in
      _ ← Emitter_Emit (ids (2 * n)%nat) (ids (2 * n + 1)%nat) (now n) wakeup traceID "system" (sc_name scanner)
            (sc_cooldown scanner) false;
      emit_all scanner (S n) rest
  end.

Definition Scanner_ScanOnce (scanner : Scanner) : tx D unit :=
  found ← sc_list scanner (sc_batch scanner);
  emit_all scanner 0 found.

(** *** The reaper *)

Record Reaper : Type := MkReaper {
  re_grace : Z;
  re_interval : Z;
  re_batch : Z;
  re_traceID : string }.

Definition NewReaper (grace interval batch : Z) (traceID : string) : res Reaper :=
  guard_err ((grace <? 0) || (interval <=? 0) || (batch <? 1) || bool_decide (traceID = ""))
    (Errorf "attempt reaper dependencies and scan settings are required" []) ;;
  Ok (MkReaper grace interval batch traceID).

(** Another reaper, or the worker, was first. *)
Definition reaper_tolerates (x : error) : bool :=
  errors_Is x ErrStateConflict || errors_Is x ErrNotCurrent || errors_Is x ErrLeaseMismatch.

Definition with_trace (reaper : Reaper) (command : MarkLostCommand) : MarkLostCommand :=
  if bool_decide (ml_TraceID command = "")
  then MkMarkLostCommand (ml_ProjectID command) (ml_RunID command) (ml_AttemptID command) (ml_AttemptSequence command) (re_traceID reaper)
  else command.

Fixpoint mark_all (reaper : Reaper) (n : nat) (found : list MarkLostCommand) : tx D unit :=
  match found with
  | [] => mret tt
  | command :: rest =>
      tx_modify (others n) ;;
      marked ← tx_try (Coordinator_MarkExpiredLost (ids n) (now n) (with_trace reaper command));
      match marked with
      | Err x => if reaper_tolerates x then mark_all reaper (S n) rest else tx_fail x
      | Ok _ => mark_all reaper (S n) rest
      end
  end.

Definition Reaper_ScanOnce (reaper : Reaper) : tx D unit :=
  found ← Repository_ListExpiredAttempts (re_grace reaper) (re_batch reaper);
  mark_all reaper 0 found.
End Loops.
Arguments Scanner : clear implicits.

(** ** The store's queries *)

(** [ORDER BY] a time and then an identity. *)
Definition time_leb {A} (key : A → Time * string) (a b : A) : bool :=
  if (key a).1 =? (key b).1 then String.leb (key a).2 (key b).2 else (key a).1 <? (key b).1.

Definition LIMIT {A} (batch : Z) (l : list A) : res (list A) :=
  if batch <? 0 then Err (Errorf "LIMIT must not be negative" []) else Ok (take (Z.to_nat batch) l).

(** [scanWakeups] *)
Definition scanWakeups (rows : list Wakeup) : res (list Wakeup) :=
  scan_all (λ w, Wakeup_Validate w ;; Ok w) rows.

Definition run_wakeup (type : RuntimeEventType) (r : string * WorkflowRunRecord) : Wakeup :=
  MkWakeup (rr_ProjectID r.2) r.1 r.1 type (rr_TraceID r.2).

(** *** Conditions *)

Definition unstarted_run (run : WorkflowRunRecord) : bool :=
  bool_decide (rr_State run = RunPending) && IsZero (rr_CancelRequestedAt run).

Definition unfinished_run (run : WorkflowRunRecord) : bool :=
  bool_decide (rr_State run = RunPending) || bool_decide (rr_State run = RunRunning).

Definition cancel_pending (run : WorkflowRunRecord) : bool :=
  unfinished_run run && negb (IsZero (rr_CancelRequestedAt run)).

Definition deadline_due (now : Time) (run : WorkflowRunRecord) : bool :=
  unfinished_run run && (rr_DeadlineAt run <=? now).

(** [node_runs n JOIN workflow_runs r]: the run of a node whose retry is due. *)
Definition retry_due (db : DB) (now : Time) (row : NodeRow) : option WorkflowRunRecord :=
  let record := rn_Record row in
  if bool_decide (nrr_State record = NodeRetryWait) && negb (IsZero (nrr_NextRetryAt record))
     && (nrr_NextRetryAt record <=? now) && negb (bool_decide (nrr_CurrentAttemptID record = ""))
  then dispatchable_run db now (rn_ProjectID row) (nrr_RunID record)
  else None.

(** [node_attempts a JOIN node_runs n JOIN workflow_runs r]: the run of an
    attempt in one of [states] that its node has not taken notice of. *)
Definition unnoticed (states : AttemptState → bool) (db : DB) (attemptID : string) (row : AttemptRow) : option WorkflowRunRecord :=
  node ← node_row_of db (ra_ProjectID row) (ra_RunID row) (ra_NodeRunID row);
  run ← run_row db (ra_ProjectID row) (ra_RunID row);
  let state := nrr_State (rn_Record node) in
  if states (ra_State row) && bool_decide (nullableString (nrr_CurrentAttemptID (rn_Record node)) = Some attemptID)
     && (bool_decide (state = NodeQueued) || bool_decide (state = NodeRunning)) && bool_decide (rr_State run = RunRunning)
  then Some run else None.

Definition completed_state (s : AttemptState) : bool :=
  match s with AttemptSucceeded | AttemptFailed | AttemptTimedOut | AttemptCanceled => true | _ => false end.
Definition lost_state (s : AttemptState) : bool := bool_decide (s = AttemptLost).

(** *** Lists *)

Definition expired_attempts (db : DB) (now grace : Time) : list MarkLostCommand :=
  let expired (r : string * AttemptRow) : option (Time * MarkLostCommand) :=
    node ← node_row_of db (ra_ProjectID r.2) (ra_RunID r.2) (ra_NodeRunID r.2);
    run ← run_row db (ra_ProjectID r.2) (ra_RunID r.2);
    expiry ← ra_LeaseExpiresAt r.2;
    if bool_decide (ra_State r.2 = AttemptRunning)
       && bool_decide (nullableString (nrr_CurrentAttemptID (rn_Record node)) = Some r.1)
       && (expiry + milliseconds grace <=? now)
    then Some (expiry, MkMarkLostCommand (ra_ProjectID r.2) (ra_RunID r.2) r.1 (ra_Sequence r.2) (rr_TraceID run))
    else None in
  snd <$> stable_sort (time_leb (λ c, (c.1, ml_AttemptID c.2))) (omap expired (map_to_list (db_attempts db))).

Definition retry_wakeups (db : DB) (now : Time) : list Wakeup :=
  omap (λ r : string * NodeRow,
      run ← retry_due db now r.2;
      Some (MkWakeup (rn_ProjectID r.2) (nrr_RunID (rn_Record r.2)) (nrr_CurrentAttemptID (rn_Record r.2)) EvRetryDue (rr_TraceID run)))
    (stable_sort (time_leb (λ r : string * NodeRow, (nrr_NextRetryAt (rn_Record r.2), r.1))) (map_to_list (db_nodes db))).

Definition deadline_wakeups (db : DB) (now : Time) : list Wakeup :=
  run_wakeup EvRunDeadlineReached <$>
    stable_sort (time_leb (λ r, (rr_DeadlineAt r.2, r.1))) (select_where (λ _, deadline_due now) (db_runs db)).

(** The candidates with their due time. *)
Definition run_candidates (type : RuntimeEventType) (p : WorkflowRunRecord → bool) (due : WorkflowRunRecord → Time) (db : DB)
    : list (Time * Wakeup) :=
  (λ r, (due r.2, run_wakeup type r)) <$> select_where (λ _, p) (db_runs db).

Definition attempt_candidates (type : RuntimeEventType) (states : AttemptState → bool) (db : DB) : list (Time * Wakeup) :=
  omap (λ r : string * AttemptRow,
      run ← unnoticed states db r.1 r.2;
      Some (ra_UpdatedAt r.2, MkWakeup (ra_ProjectID r.2) (ra_RunID r.2) r.1 type (rr_TraceID run)))
    (map_to_list (db_attempts db)).

Definition reconciliation_wakeups (db : DB) : list Wakeup :=
  snd <$> stable_sort (time_leb (λ c, (c.1, wu_AggregateID c.2)))
    (run_candidates EvRunCreated unstarted_run rr_CreatedAt db
     ++ run_candidates EvRunCancelRequested cancel_pending rr_CancelRequestedAt db
     ++ attempt_candidates EvAttemptCompleted completed_state db
     ++ attempt_candidates EvAttemptLost lost_state db).

Section Store.
Context (clock : nat → Time).
Local Notation clock_timestamp := (clock_timestamp clock).

Definition ListExpiredAttempts (grace batch : Z) : tx DB (list MarkLostCommand) :=
  now ← clock_timestamp;
  db ← tx_get;
  tx_lift (LIMIT batch (expired_attempts db now grace)).

Definition ListRetryDue (batch : Z) : tx DB (list Wakeup) :=
  now ← clock_timestamp;
  db ← tx_get;
  tx_lift (rows ← LIMIT batch (retry_wakeups db now); scanWakeups rows).

Definition ListDeadlinesDue (batch : Z) : tx DB (list Wakeup) :=
  now ← clock_timestamp;
  db ← tx_get;
  tx_lift (rows ← LIMIT batch (deadline_wakeups db now); scanWakeups rows).

Definition ListReconciliationWakeups (batch : Z) : tx DB (list Wakeup) :=
  db ← tx_get;
  tx_lift (rows ← LIMIT batch (reconciliation_wakeups db); scanWakeups rows).

(** *** Emitting *)

Definition run_exists (db : DB) (wakeup : Wakeup) (p : WorkflowRunRecord → bool) : bool :=
  match run_row db (wu_ProjectID wakeup) (wu_RunID wakeup) with
  | Some run => p run
  | None => false
  end.

Definition retry_exists (db : DB) (now : Time) (wakeup : Wakeup) : bool :=
  existsb (λ r, node_of_run (wu_ProjectID wakeup) (wu_RunID wakeup) r.1 r.2
      && bool_decide (nullableString (nrr_CurrentAttemptID (rn_Record r.2)) = Some (wu_AggregateID wakeup))
      && bool_decide (is_Some (retry_due db now r.2)))
    (map_to_list (db_nodes db)).

Definition unnoticed_exists (states : AttemptState → bool) (db : DB) (wakeup : Wakeup) : bool :=
  bool_decide (is_Some (row ← attempt_row db (wu_ProjectID wakeup) (wu_RunID wakeup) (wu_AggregateID wakeup);
                        unnoticed states db (wu_AggregateID wakeup) row)).

Definition wakeupStillActionable (wakeup : Wakeup) : tx DB bool :=
  db ← tx_get;
  match wu_EventType wakeup with
  | EvRunCreated => mret (run_exists db wakeup unstarted_run)
  | EvRunCancelRequested => mret (run_exists db wakeup cancel_pending)
  | EvRunDeadlineReached => now ← clock_timestamp; mret (run_exists db wakeup (deadline_due now))
  | EvRetryDue => now ← clock_timestamp; mret (retry_exists db now wakeup)
  | EvAttemptCompleted => mret (unnoticed_exists completed_state db wakeup)
  | EvAttemptLost => mret (unnoticed_exists lost_state db wakeup)
  | EvOther raw => tx_fail (Errorf "unsupported recovery wakeup type %q" [quote raw])
  end.

Definition wakeup_key (wakeup : Wakeup) : string * string * string * string :=
  (wu_ProjectID wakeup, wu_RunID wakeup, event_type_string (wu_EventType wakeup), wu_AggregateID wakeup).

(** [INSERT ... ON CONFLICT DO UPDATE ... WHERE]: was a row written? *)
Definition upsert_wakeup (emission : WakeupEmission) : tx DB bool :=
  now ← clock_timestamp;
  db ← tx_get;
  let write count := tx_modify (λ db, db <| db_wakeups :=
    <[wakeup_key (we_Wakeup emission) := MkWakeupRow (we_EventID emission) now count]> (db_wakeups db) |>) in
  match db_wakeups db !! wakeup_key (we_Wakeup emission) with
  | None => write 1 ;; mret true
  | Some row =>
      if wk_LastEmittedAt row <=? now - milliseconds (we_Cooldown emission)
      then write (wk_EmitCount row + 1) ;; mret true
      else mret false
  end.

Definition wakeup_event (emission : WakeupEmission) : RuntimeEvent :=
  let wakeup := we_Wakeup emission in
  MkRuntimeEvent RuntimeMessageVersion (we_EventID emission) (wu_ProjectID wakeup) (wu_RunID wakeup)
    (Wakeup_AggregateType wakeup) (wu_AggregateID wakeup) (wu_EventType wakeup) (we_At emission) (we_TraceID emission).

(** The code wraps the error of [Validate], which is nil in the second case. *)
Definition emission_checks (emission : WakeupEmission) : res unit :=
  match Wakeup_Validate (we_Wakeup emission) with
  | Err x => Err (Errorf "recovery wakeup emission is invalid: %w" [error_string x])
  | Ok _ =>
      guard_err (bool_decide (we_EventID emission = "") || bool_decide (we_AuditID emission = "")
                 || bool_decide (we_TraceID emission = "") || bool_decide (we_ActorID emission = "")
                 || IsZero (we_At emission) || (we_Cooldown emission <? 0))
        (Errorf "recovery wakeup emission is invalid: %w" ["%!w(<nil>)"])
  end.

Definition EmitWakeup (emission : WakeupEmission) : tx DB bool :=
  tx_lift (emission_checks emission) ;;
  transaction (
    valid ← wakeupStillActionable (we_Wakeup emission);
    if negb valid then mret false
    else
      affected ← upsert_wakeup emission;
      if negb affected then mret false
      else insertOutbox clock (wakeup_event emission) ;; mret true).

#[export] Instance store_wakeups : WakeupRepository DB := {
  Repository_ListExpiredAttempts := ListExpiredAttempts;
  Repository_ListRetryDue := ListRetryDue;
  Repository_ListDeadlinesDue := ListDeadlinesDue;
  Repository_ListReconciliationWakeups := ListReconciliationWakeups;
  Repository_EmitWakeup := EmitWakeup }.
End Store.
