(* ===== verification/StoreFacts.v ===== *)
(** * What the tables say about an engine

    [represents]: the rows of a run stand for an engine in memory.  The lemmas
    say what the statements of Store.v do to such rows: loading them gives a
    state from which [Restore] rebuilds the engine, and writing a later state
    of the engine leaves rows that stand for it. *)

From S2P Require Import Prelude Json Graph Dsl Branch Runtime Engine.
From S2P Require Import EngineSteps EngineInv EngineFacts EngineInit EngineProgress EngineLive EngineVersions EngineState.
From S2P Require Import Scheduling Eventing Consumer Store AttemptStore.

Open Scope string_scope.
Open Scope list_scope.
Open Scope Z_scope.

(** ** Statements *)

Lemma elem_of_select {A} (P : string → A → bool) t r : r ∈ select_where P t ↔ t !! r.1 = Some r.2 ∧ P r.1 r.2 = true.
Proof.
  unfold select_where. rewrite list_elem_of_In, filter_In, <-list_elem_of_In. destruct r as [k x]. by rewrite elem_of_map_to_list.
Qed.

Lemma NoDup_select {A} (P : string → A → bool) t : NoDup (select_where P t).
Proof. apply NoDup_ListNoDup, List.NoDup_filter, NoDup_ListNoDup, NoDup_map_to_list. Qed.

Lemma select_unique {A} (P : string → A → bool) t k x :
  t !! k = Some x → P k x = true → (∀ k' x', t !! k' = Some x' → P k' x' = true → k' = k) → select_where P t = [(k, x)].
Proof.
  intros Hk HP Hu. symmetry. apply Permutation_singleton_l, NoDup_Permutation; [apply NoDup_singleton|apply NoDup_select|].
  intros [k' x']. rewrite list_elem_of_singleton, elem_of_select. cbn. split; [by intros [= -> ->]|].
  intros [Hk' HP']. assert (k' = k) as -> by eauto. congruence.
Qed.

(** An [UPDATE] whose condition one row meets. *)
Lemma update_where_unique {A} (P : string → A → bool) (f : A → A) t k x :
  t !! k = Some x → P k x = true → (∀ k' x', t !! k' = Some x' → P k' x' = true → k' = k) →
  update_where P f t = (<[k := f x]> t, 1%nat).
Proof.
  intros Hk HP Hu. unfold update_where. fold (select_where P t). rewrite (select_unique P t k x) by done. f_equal.
  apply map_eq. intros k'. rewrite map_lookup_imap, lookup_insert. case_decide as Hd.
  - subst k'. rewrite Hk. cbn. by rewrite HP.
  - destruct (t !! k') as [y|] eqn:Hy; [|done]. cbn. destruct (P k' y) eqn:HP'; [by destruct Hd; symmetry; eauto|done].
Qed.

(** ** Lists of rows *)

Lemma omap_described {R A B} (key : R → string) (m : gmap string A) (g : A → B) (f : R → option B) (rows : list R) :
  (∀ r, r ∈ rows → ∃ x, m !! key r = Some x ∧ f r = Some (g x)) → omap (λ id, g <$> m !! id) (key <$> rows) = omap f rows.
Proof.
  induction rows as [|r rows IH]; intros H; [done|]. destruct (H r) as (x & Hx & Hf); [by left|].
  cbn. rewrite Hx, Hf. cbn. f_equal. apply IH. intros r' Hr'. apply H. by right.
Qed.

Lemma keys_described {R A} (key : R → string) (m : gmap string A) (rows : list R) :
  NoDup rows → (∀ r r', r ∈ rows → r' ∈ rows → key r = key r' → r = r') →
  (∀ id, is_Some (m !! id) ↔ ∃ r, r ∈ rows ∧ key r = id) → key <$> rows ≡ₚ sorted_keys m.
Proof.
  intros Hnd Hinj Hdom. apply NoDup_Permutation; [by apply NoDup_fmap_2_strong|apply NoDup_sorted_keys|].
  intros id. rewrite list_elem_of_fmap, elem_of_sorted_keys, Hdom. naive_solver.
Qed.

(** A row looked up by its key and a condition. *)
Lemma kept_where {A} (o : option A) (P : A → bool) x :
  match o with Some r => if P r then Some r else None | None => None end = Some x ↔ o = Some x ∧ P x = true.
Proof.
  destruct o as [r|]; [|by split; [|intros []]]. destruct (P r) eqn:H; split; [by intros [= <-]|by intros []|done|].
  intros [[= ->] H']. by rewrite H in H'.
Qed.

(** The rows that [P] does not hold of are the same. *)
Definition untouched {A} (P : string → A → bool) (t t' : gmap string A) : Prop :=
  ∀ k row, P k row = false → t !! k = Some row ↔ t' !! k = Some row.

#[export] Instance untouched_refl {A} P : Reflexive (@untouched A P).
Proof. by intros t k row. Qed.
#[export] Instance untouched_trans {A} P : Transitive (@untouched A P).
Proof. intros t1 t2 t3 H1 H2 k row Hp. by rewrite (H1 k row Hp), (H2 k row Hp). Qed.

(** A row of [P] put in place of a row of [P], or of none. *)
Lemma untouched_insert {A} (P : string → A → bool) t k row :
  P k row = true → (∀ old, t !! k = Some old → P k old = true) → untouched P t (<[k := row]> t).
Proof.
  intros HP Hold k' row' Hf. rewrite lookup_insert. case_decide as Hk; [|done]. subst k'. split.
  - intros H. by rewrite (Hold _ H) in Hf.
  - intros [= ->]. by rewrite HP in Hf.
Qed.

(** ** The rows of a run *)

Section Represents.
Context (nid : string → string → string) (projectID runID : string).

(** All columns but the outputs, which are stored with the attempts. *)
Definition node_stored (n : NodeRun) (row : NodeRow) : Prop :=
  rn_ProjectID row = projectID ∧ ∃ o, rn_Record row = (NodeRun_Snapshot n) <| nrr_EffectiveOutputs := o |>.

(** The Node Runs of the run are [nodes]. *)
Record rows_of (db : DB) (nodes : gmap string NodeRun) : Prop := {
  ro_row : ∀ id n, nodes !! id = Some n →
    ∃ row, node_row_of db projectID runID (nid runID id) = Some row ∧ node_stored n row;
  ro_only : ∀ k row, node_row_of db projectID runID k = Some row → ∃ id, k = nid runID id ∧ is_Some (nodes !! id) }.

Record attempt_stored (db : DB) (aid id : string) (a : NodeAttempt) (row : AttemptRow) : Prop := {
  as_node : ra_NodeRunID row = nid runID id;
  as_sequence : ra_Sequence row = na_sequence a;
  as_kind : ra_Kind row = na_kind a;
  as_state : ra_State row = na_state a;
  as_version : ra_StateVersion row = na_stateVersion a;
  as_result : load_result db aid row = na_result a;
  as_open : AttemptState_Terminal (na_state a) = false → db_outputs db !! aid = None }.

(** The Attempts of the run are [attempts], of the nodes [owners]. *)
Record attempts_of (db : DB) (attempts : gmap string NodeAttempt) (owners : gmap string string) : Prop := {
  ao_row : ∀ aid a, attempts !! aid = Some a →
    ∃ row id, attempt_row db projectID runID aid = Some row ∧ owners !! aid = Some id ∧ attempt_stored db aid id a row;
  ao_only : ∀ aid row, attempt_row db projectID runID aid = Some row → is_Some (attempts !! aid);
  ao_outputs : ∀ aid, is_Some (db_outputs db !! aid) → is_Some (db_attempts db !! aid) }.

(** The run of the project is the engine [e]. *)
Record represents (db : DB) (e : Engine) : Prop := {
  rp_run : ∃ trace cancel, run_row db projectID runID = Some (stamped trace cancel (WorkflowRun_Snapshot (en_run e)));
  rp_nodes : rows_of db (en_nodes e);
  rp_attempts : attempts_of db (en_attempts e) (en_attemptNodes e) }.

Lemma run_row_Some db r : run_row db projectID runID = Some r → db_runs db !! runID = Some r ∧ rr_ProjectID r = projectID.
Proof. unfold run_row. intros H. repeat case_match; simplify_eq. by case_bool_decide. Qed.

Lemma loadRun_found db r : run_row db projectID runID = Some r → loadRun projectID runID db = (db, Ok r).
Proof. intros H. unfold loadRun. erewrite tx_step by done. unfold tx_lift. by rewrite H. Qed.

Lemma node_row_Some db k row : node_row_of db projectID runID k = Some row ↔
  db_nodes db !! k = Some row ∧ node_of_run projectID runID k row = true.
Proof. unfold node_row_of. apply kept_where. Qed.

Lemma attempt_row_Some db aid row : attempt_row db projectID runID aid = Some row ↔
  db_attempts db !! aid = Some row ∧ attempt_of_run projectID runID aid row = true.
Proof. unfold attempt_row. apply kept_where. Qed.

Lemma rows_of_ext db db' nodes : db_nodes db' = db_nodes db → rows_of db nodes → rows_of db' nodes.
Proof. intros He [H1 H2]. split; unfold node_row_of in *; by rewrite He. Qed.

Lemma attempts_of_ext db db' attempts owners : db_attempts db' = db_attempts db → db_outputs db' = db_outputs db →
  attempts_of db attempts owners → attempts_of db' attempts owners.
Proof.
  intros He Ho [H1 H2 H3]. split; unfold attempt_row in *; rewrite ?He, ?Ho; try done.
  intros aid a Ha. destruct (H1 aid a Ha) as (row & id & ? & ? & [? ? ? ? ? Hres Hop]). exists row, id. split_and!; try done.
  constructor; try done; unfold load_result in *; by rewrite Ho.
Qed.

Lemma represents_ext db db' e : db_runs db' = db_runs db → db_nodes db' = db_nodes db → db_attempts db' = db_attempts db →
  db_outputs db' = db_outputs db → represents db e → represents db' e.
Proof.
  intros Hr Hn Ha Ho [H1 H2 H3]. constructor; [unfold run_row in *; by rewrite Hr|by eapply rows_of_ext|by eapply attempts_of_ext].
Qed.

(** Each Node Run under its own identity. *)
Definition named (nodes : gmap string NodeRun) : Prop :=
  ∀ id n, nodes !! id = Some n → nr_executionNodeID n = id ∧ nr_runID n = runID.

Lemma stored_id nodes id n row : named nodes → nodes !! id = Some n → node_stored n row →
  nrr_ExecutionNodeID (rn_Record row) = id.
Proof. intros Hn Hl (_ & o & ->). by destruct (Hn id n Hl). Qed.

(** Every row of the run is the row of one node. *)
Lemma row_of_node db nodes k row : named nodes → rows_of db nodes → node_row_of db projectID runID k = Some row →
  ∃ n, nodes !! nrr_ExecutionNodeID (rn_Record row) = Some n ∧ node_stored n row ∧
       k = nid runID (nrr_ExecutionNodeID (rn_Record row)).
Proof.
  intros Hn Hr Hrow. destruct (ro_only _ _ Hr k row Hrow) as (id & -> & n & Hid).
  destruct (ro_row _ _ Hr id n Hid) as (row' & Hrow' & Hst). assert (row' = row) as -> by congruence.
  exists n. by rewrite (stored_id nodes id n row Hn Hid Hst).
Qed.

(** *** Writing a Node Run *)

Lemma node_stored_in_run n row k : nr_runID n = runID → node_stored n row → node_of_run projectID runID k row = true.
Proof.
  intros Hn (Hp & o & Hr). unfold node_of_run. by rewrite Hp, Hr, !bool_decide_eq_true_2 by (cbn; congruence).
Qed.

Lemma nid_injective db nodes id id' n n' : named nodes → rows_of db nodes → nodes !! id = Some n → nodes !! id' = Some n' →
  nid runID id = nid runID id' → id = id'.
Proof.
  intros Hnm Hr Hn Hn' He. destruct (ro_row _ _ Hr id n Hn) as (row & Hrow & Hst).
  destruct (ro_row _ _ Hr id' n' Hn') as (row' & Hrow' & Hst'). assert (row' = row) as -> by congruence.
  by rewrite <-(stored_id nodes id n row), <-(stored_id nodes id' n' row) by done.
Qed.

(** The row of one node replaced. *)
Lemma rows_of_insert db nodes id n n' row : named nodes → rows_of db nodes → nodes !! id = Some n →
  nr_runID n' = runID → node_stored n' row →
  rows_of (db <| db_nodes := <[nid runID id := row]> (db_nodes db) |>) (<[id := n']> nodes).
Proof.
  intros Hnm Hr Hn Hn' Hst. split.
  - intros k m. rewrite lookup_insert. case_decide as Hk.
    + intros [= <-]. subst k. exists row. split; [|done]. apply node_row_Some. cbn.
      rewrite lookup_insert_eq. split; [done|by eapply node_stored_in_run].
    + intros Hm. destruct (ro_row _ _ Hr k m Hm) as (row' & Hrow & Hst'). exists row'. split; [|done].
      apply node_row_Some in Hrow. apply node_row_Some. cbn. rewrite lookup_insert_ne; [done|].
      intros He. by destruct Hk; eapply nid_injective.
  - intros k row' H%node_row_Some. cbn in H. rewrite lookup_insert in H. case_decide as Hk.
    + exists id. split; [done|]. rewrite lookup_insert_eq. eauto.
    + apply node_row_Some in H. destruct (ro_only _ _ Hr k row' H) as (id' & -> & Hid'). exists id'. split; [done|].
      rewrite lookup_insert. case_decide; eauto.
Qed.

(** An [UPDATE node_runs] that is meant for one node. *)
Lemma write_node db nodes id n n' P f : named nodes → rows_of db nodes → nodes !! id = Some n → nr_runID n' = runID →
  (∀ k row, P k row = true → node_of_run projectID runID k row = true) →
  (∀ row, node_stored n row → P (nid runID id) row = true) →
  (∀ id' m row, nodes !! id' = Some m → node_stored m row → P (nid runID id') row = true → id' = id) →
  (∀ row, node_stored n row → node_stored n' (f row)) →
  ∃ t, update_where P f (db_nodes db) = (t, 1%nat) ∧ rows_of (db <| db_nodes := t |>) (<[id := n']> nodes) ∧
    ∀ k, node_row_of db projectID runID k = None → t !! k = db_nodes db !! k.
Proof.
  intros Hnm Hr Hn Hn' HPr HP Hu Hf. destruct (ro_row _ _ Hr id n Hn) as (row & Hrow & Hst).
  pose proof Hrow as (Hl & _)%node_row_Some. eexists. split; [apply (update_where_unique _ _ _ _ _ Hl); [by apply HP|]|split].
  - intros k row' Hk HP'. assert (node_row_of db projectID runID k = Some row') as Hrow' by (apply node_row_Some; eauto).
    destruct (row_of_node db nodes k row' Hnm Hr Hrow') as (m & Hm & Hst' & ->). f_equal. by eapply Hu.
  - by eapply rows_of_insert; [..|apply Hf].
  - intros k Hk. apply lookup_insert_ne. congruence.
Qed.

(** One node of [AdvanceRun]. *)
Lemma advance_node_written db nodes id n n' previous at_ : named nodes → rows_of db nodes → nodes !! id = Some n →
  nr_executionNodeID n' = id → nr_runID n' = runID → nr_kind n' = nr_kind n → nrr_StateVersion previous = nr_stateVersion n →
  ∃ t, advance_node projectID runID previous (NodeRun_Snapshot n') at_ db = (db <| db_nodes := t |>, Ok tt) ∧
    rows_of (db <| db_nodes := t |>) (<[id := n']> nodes) ∧
    ∀ k, node_row_of db projectID runID k = None → t !! k = db_nodes db !! k.
Proof.
  intros Hnm Hr Hn He' Hr' Hk Hv. unfold advance_node. pose proof (Hnm id n Hn) as [He Hrun].
  destruct (write_node db nodes id n n' (λ k row, node_of_run projectID runID k row
      && bool_decide (nrr_ExecutionNodeID (rn_Record row) = nr_executionNodeID n')
      && (nrr_StateVersion (rn_Record row) =? nrr_StateVersion previous))
    (λ row, row <| rn_Record := advance_record (rn_Record row) (NodeRun_Snapshot n') |>
                <| rn_ReadyAt := ready_at (NodeRun_Snapshot n') at_ |>)) as (t & Hu & Hrows & Hframe); [done|done|done|done|..].
  - by intros k row [[? _]%andb_true_iff _]%andb_true_iff.
  - intros row Hst. rewrite (node_stored_in_run n) by done. rewrite (stored_id nodes id n row) by done.
    rewrite bool_decide_eq_true_2 by done. destruct Hst as (_ & o & ->). apply Z.eqb_eq. by rewrite Hv.
  - intros id' m row Hm Hst [[_ H]%andb_true_iff _]%andb_true_iff. apply bool_decide_eq_true in H.
    rewrite (stored_id nodes id' m row) in H by done. congruence.
  - intros row (Hp & o & Hrec). split; [done|]. exists o. cbn. rewrite Hrec. unfold advance_record, NodeRun_Snapshot. cbn.
    by rewrite Hrun, He, Hk, Hr', He'.
  - exists t. change (nrr_ExecutionNodeID (NodeRun_Snapshot n')) with (nr_executionNodeID n'). by rewrite Hu.
Qed.

(** All nodes of [AdvanceRun]: a node whose version did not change is skipped. *)
Lemma advance_nodes_written before nodes' at_ ids : ∀ db nodes, named nodes → rows_of db nodes → NoDup ids →
  (∀ id, id ∈ ids → ∃ n n' previous, nodes !! id = Some n ∧ nodes' !! id = Some n' ∧ before !! id = Some previous ∧
     nr_executionNodeID n' = id ∧ nr_runID n' = runID ∧ nr_kind n' = nr_kind n ∧
     nrr_StateVersion previous = nr_stateVersion n ∧ (n' = n ∨ nr_stateVersion n < nr_stateVersion n')) →
  ∃ t, advance_nodes before projectID runID at_ (omap (λ id, NodeRun_Snapshot <$> nodes' !! id) ids) db
       = (db <| db_nodes := t |>, Ok tt) ∧
    rows_of (db <| db_nodes := t |>) (collect nodes' ids nodes) ∧
    ∀ k, node_row_of db projectID runID k = None → t !! k = db_nodes db !! k.
Proof.
  induction ids as [|id ids IH]; intros db nodes Hnm Hr Hnd Hids.
  { exists (db_nodes db). split_and!; [by destruct db| |done]. by destruct db. }
  apply NoDup_cons in Hnd as [Hnin Hnd].
  destruct (Hids id) as (n & n' & previous & Hn & Hn' & Hb & He & Hrun & Hk & Hv & Hg); [by left|].
  cbn [omap list_omap collect fold_left]. rewrite Hn'. cbn [fmap option_fmap option_map advance_nodes].
  change (nrr_ExecutionNodeID (NodeRun_Snapshot n')) with (nr_executionNodeID n'). rewrite He, Hb.
  change (nrr_StateVersion (NodeRun_Snapshot n')) with (nr_stateVersion n').
  assert (∃ t, (if nr_stateVersion n' =? nrr_StateVersion previous then mret tt
      else advance_node projectID runID previous (NodeRun_Snapshot n') at_) db = (db <| db_nodes := t |>, Ok tt) ∧
    rows_of (db <| db_nodes := t |>) (<[id := n']> nodes) ∧
    ∀ k, node_row_of db projectID runID k = None → t !! k = db_nodes db !! k) as (t & Hstep & Hrows & Hframe).
  { destruct Hg as [->|Hg].
    - rewrite Hv, Z.eqb_refl. exists (db_nodes db). rewrite insert_id by done. split_and!; [by destruct db| |done]. by destruct db.
    - rewrite Hv, (proj2 (Z.eqb_neq _ _)) by lia. by eapply advance_node_written. }
  destruct (IH (db <| db_nodes := t |>) (<[id := n']> nodes)) as (t' & Hrest & Hrows' & Hframe').
  - intros k m. rewrite lookup_insert. case_decide; [intros [= <-]; by subst|apply Hnm].
  - done.
  - done.
  - intros k Hk'. destruct (Hids k) as (m & m' & q & ? & ?); [by right|]. exists m, m', q.
    rewrite lookup_insert_ne by (by intros ->). done.
  - exists t'. erewrite tx_step by done. split_and!; [done|done|].
    intros k Hknone. rewrite Hframe'; [by apply Hframe|]. destruct (node_row_of (db <| db_nodes := t |>) projectID runID k) as [row|] eqn:Hrow; [|done].
    apply node_row_Some in Hrow as [Hl Hin]. cbn in Hl. rewrite Hframe in Hl by done.
    assert (node_row_of db projectID runID k = Some row) by by apply node_row_Some. congruence.
Qed.

Lemma untouched_nodes db t nodes nodes' : rows_of db nodes → rows_of (db <| db_nodes := t |>) nodes' →
  (∀ id, is_Some (nodes !! id) → is_Some (nodes' !! id)) →
  (∀ k, node_row_of db projectID runID k = None → t !! k = db_nodes db !! k) →
  untouched (node_of_run projectID runID) (db_nodes db) t.
Proof.
  intros Hr Hr' Hdom Hframe k row Hf. destruct (node_row_of db projectID runID k) as [row0|] eqn:Hk.
  - destruct (ro_only _ _ Hr k row0 Hk) as (id & -> & Hid). apply node_row_Some in Hk as [Hk Hin].
    apply Hdom in Hid as [n Hn]. destruct (ro_row _ _ Hr' id n Hn) as (row1 & [Hl Hin1]%node_row_Some & _). cbn in Hl.
    rewrite Hk, Hl. split; intros [= ->]; congruence.
  - by rewrite Hframe.
Qed.

(** What a transaction for this run leaves alone: the other runs. *)
Definition run_of (id : string) (r : WorkflowRunRecord) : bool :=
  bool_decide (rr_ProjectID r = projectID) && bool_decide (id = runID).

Record elsewhere (db db' : DB) : Prop := {
  el_runs : untouched run_of (db_runs db) (db_runs db');
  el_nodes : untouched (node_of_run projectID runID) (db_nodes db) (db_nodes db');
  el_attempts : untouched (attempt_of_run projectID runID) (db_attempts db) (db_attempts db');
  el_outputs : ∀ aid row, db_attempts db !! aid = Some row → attempt_of_run projectID runID aid row = false →
    db_outputs db' !! aid = db_outputs db !! aid;
  el_snapshots : db_snapshots db' = db_snapshots db }.

#[export] Instance elsewhere_refl : Reflexive elsewhere.
Proof. by constructor. Qed.

#[export] Instance elsewhere_trans : Transitive elsewhere.
Proof.
  intros d1 d2 d3 [R1 N1 A1 O1 S1] [R2 N2 A2 O2 S2]. constructor; try (by etrans).
  intros aid row Hr Hf. rewrite (O2 aid row), (O1 aid row); try done. by apply A1.
Qed.

Section Engine.
Context (c : Contract) {HC : EngineContract c} (command : CreateRunCommand).
Local Notation inv := (engine_inv c command).

Lemma engine_node e id n : inv e → en_nodes e !! id = Some n →
  node_wf n ∧ nr_executionNodeID n = id ∧ nr_runID n = wr_id (en_run e).
Proof. intros [Hs _ _ _ _ _] Hn. by destruct (sv_node _ _ _ Hs id n Hn) as (? & ? & ? & _). Qed.

Lemma engine_named e : inv e → wr_id (en_run e) = runID → named (en_nodes e).
Proof. intros Hi Hid id n Hn. destruct (engine_node e id n Hi Hn) as (_ & ? & ?). split; congruence. Qed.

Lemma load_node_stored db e id n row : inv e → output_inv e → represents db e → wr_id (en_run e) = runID →
  en_nodes e !! id = Some n → node_stored n row → load_node db runID row = loaded_node n.
Proof.
  intros Hi Ho Hr Hid Hn (_ & o & Hrec). destruct (engine_node e id n Hi Hn) as (Hwf & _ & Hrun).
  unfold load_node, loaded_node. rewrite Hrec.
  enough (match nullableString (nr_effectiveAttemptID n) with Some aid => default ∅ (db_outputs db !! aid) | None => ∅ end =
    if bool_decide (nr_kind n = NodeTask) then nr_effectiveOutputs n else ∅) as He.
  { unfold NodeRun_Snapshot. cbn. by rewrite He, Hrun, Hid. }
  unfold nullableString. pose proof (nwf_facts _ Hwf) as Hf. destruct (decide (nr_kind n = NodeTask)) as [Hk|Hk].
  - rewrite (bool_decide_eq_true_2 _ Hk). assert (nr_state n = NodeSucceeded ∨ nr_state n ≠ NodeSucceeded) as [Hst|Hst] by (destruct (decide (nr_state n = NodeSucceeded)); auto).
    + destruct (oi_attempts _ Ho id n Hn Hk Hst) as (a & r & Ha & Hres & Hout).
      unfold node_state_facts in Hf. rewrite Hst in Hf. destruct Hf as (_ & _ & _ & Hf). destruct (Hf Hk) as (Hne & _).
      rewrite bool_decide_eq_false_2 by done.
      destruct (ao_row _ _ _ (rp_attempts _ _ Hr) _ a Ha) as (arow & id' & Harow & _ & Hst'). pose proof (as_result _ _ _ _ _ Hst') as Hl.
      rewrite Hres in Hl. unfold load_result in Hl. destruct (AttemptState_Terminal (ra_State arow)); [|done].
      injection Hl as <-. done.
    + destruct (oi_nodes _ Ho id n Hn) as [->|[? _]]; [|done].
      unfold node_state_facts in Hf. destruct (nr_state n); try done; destruct_and? Hf; try (by rewrite bool_decide_eq_true_2).
  - rewrite (bool_decide_eq_false_2 _ Hk). destruct (nwf_control _ Hwf) as (_ & -> & _); [|done]. by destruct (nwf_kind _ Hwf).
Qed.

(** *** Loading *)

Lemma load_state_stores db e : inv e → output_inv e → represents db e → wr_id (en_run e) = runID →
  ∃ run st, run_row db projectID runID = Some run ∧ load_engine_state projectID runID db = (db, Ok st) ∧
    st_Run st = run ∧ stores e st.
Proof.
  intros Hi Ho Hr Hid. pose proof Hi as [Hs _ Hatt _ _ _]. destruct (rp_run _ _ Hr) as (trace & cancel & Hrun).
  pose proof (engine_named e Hi Hid) as Hnm. pose proof (rp_nodes _ _ Hr) as Hro.
  exists (stamped trace cancel (WorkflowRun_Snapshot (en_run e))). eexists. split; [done|]. split.
  { unfold load_engine_state. erewrite tx_step by by apply loadRun_found. reflexivity. }
  split; [done|]. constructor; cbn.
  - eauto.
  - set (rows := stable_sort node_leb _). assert (∀ r, r ∈ rows ↔ node_row_of db projectID runID r.1 = Some r.2) as Hin.
    { intros r. subst rows. rewrite (stable_sort_perm node_leb _), elem_of_select, node_row_Some. done. }
    assert (NoDup rows) as Hnd by (subst rows; rewrite (stable_sort_perm node_leb _); apply NoDup_select).
    exists ((λ r, nrr_ExecutionNodeID (rn_Record r.2)) <$> rows), loaded_node. split_and!.
    + apply keys_described; [done|..].
      * intros [k r] [k' r'] H1%Hin H2%Hin He. cbn in *.
        destruct (row_of_node db _ k r Hnm Hro H1) as (_ & _ & _ & ->).
        destruct (row_of_node db _ k' r' Hnm Hro H2) as (_ & _ & _ & ->). rewrite He in H1 |- *. congruence.
      * intros id. split.
        -- intros [n Hn]. destruct (ro_row _ _ Hro id n Hn) as (row & Hrow & Hst). exists (nid runID id, row).
           split; [by apply Hin|]. by eapply stored_id.
        -- intros ([k r] & H%Hin & <-). destruct (row_of_node db _ k r Hnm Hro H) as (n & Hn & _). cbn. eauto.
    + intros n. by right.
    + rewrite (omap_described _ _ _ (λ r, Some (load_node db runID r.2))); [|].
      * clear. induction rows as [|r rows IH]; [done|]. cbn. by f_equal.
      * intros [k r] H%Hin. destruct (row_of_node db _ k r Hnm Hro H) as (n & Hn & Hst & _). exists n. split; [done|].
        f_equal. by eapply load_node_stored.
  - set (rows := stable_sort attempt_leb _). assert (∀ r, r ∈ rows ↔ attempt_row db projectID runID r.1 = Some r.2) as Hin.
    { intros r. subst rows. rewrite (stable_sort_perm attempt_leb _), elem_of_select, attempt_row_Some. done. }
    assert (NoDup rows) as Hnd by (subst rows; rewrite (stable_sort_perm attempt_leb _); apply NoDup_select).
    exists (fst <$> rows). split.
    + apply keys_described; [done|..].
      * intros [k r] [k' r'] H1%Hin H2%Hin ?. cbn in *. congruence.
      * intros id. split.
        -- intros [a Ha]. destruct (ao_row _ _ _ (rp_attempts _ _ Hr) id a Ha) as (row & _ & Hrow & _). exists (id, row). split; [by apply Hin|done].
        -- intros ([k r] & H%Hin & <-). by eapply (ao_only _ _ _ (rp_attempts _ _ Hr)).
    + symmetry. apply omap_described. intros [k r] H%Hin. cbn in *. destruct (ao_only _ _ _ (rp_attempts _ _ Hr) k r H) as [a Ha].
      exists a. split; [done|]. destruct (ao_row _ _ _ (rp_attempts _ _ Hr) k a Ha) as (row & id & Hrow & Hown & [Hn ? ? ? ? ? _]).
      assert (row = r) as -> by congruence. destruct (av_attempt _ Hatt k a Ha) as (_ & Hk & id' & n & Hown' & Hnode & Hkey).
      assert (id' = id) as -> by congruence. destruct (ro_row _ _ Hro id n Hnode) as (nrow & Hnrow & Hst).
      unfold load_attempt. cbn. rewrite Hn, Hnrow. cbn. rewrite (stored_id _ id n nrow Hnm Hnode Hst).
      unfold NodeAttempt_Snapshot. rewrite Hkey, Hk. unfold ExecutionIdempotencyKey.
      destruct (engine_node e id n Hi Hnode) as (_ & -> & ->). rewrite Hid. congruence.
Qed.
(** *** Writing a later state *)

Lemma run_row_command db r : cc_ProjectID command = projectID → cc_RunID command = runID → record_command r = command →
  db_runs db !! runID = Some r → run_row db (rr_ProjectID r) (rr_ID r) = Some r.
Proof.
  intros Hp Hid Hc Hr. unfold run_row. rewrite <-Hc in Hp, Hid. cbn in Hp, Hid. rewrite Hid, Hr.
  by rewrite bool_decide_eq_true_2.
Qed.

Lemma snapshot_command e : inv e → record_command (WorkflowRun_Snapshot (en_run e)) = command.
Proof. intros [Hs _ _ _ _ _]. apply run_wf_command, Hs. Qed.

(** The record of [after], in the row of [before]. *)
Lemma stamped_update trace cancel r r' : record_command r = record_command r' →
  (stamped trace cancel r) <| rr_State := rr_State r' |> <| rr_StateVersion := rr_StateVersion r' |>
    <| rr_WorkflowOutput := rr_WorkflowOutput r' |> <| rr_ExecutionNodeIDs := rr_ExecutionNodeIDs r' |>
    <| rr_Termination := rr_Termination r' |> = stamped trace cancel r'.
Proof. destruct r, r'. unfold record_command, stamped. cbn. by intros [= -> -> -> -> -> -> -> ->]. Qed.

Lemma updateRunCAS_written db trace cancel before after :
  cc_ProjectID command = projectID → cc_RunID command = runID →
  record_command before = command → record_command after = command →
  run_row db projectID runID = Some (stamped trace cancel before) →
  updateRunCAS (stamped trace cancel before) after db =
    (db <| db_runs := <[runID := stamped trace cancel after]> (db_runs db) |>, Ok tt).
Proof.
  intros Hp Hid Hb Ha Hrow. pose proof Hrow as [Hl _]%run_row_Some. unfold updateRunCAS.
  assert (rr_ProjectID after = projectID ∧ rr_ID after = runID) as [-> ->] by (rewrite <-Ha in Hp, Hid; done).
  rewrite Hrow, bool_decide_eq_true_2, Z.eqb_refl by done. cbn [andb]. by rewrite stamped_update by congruence.
Qed.

Lemma before_nodes_found st id : (∃ node, node ∈ st_Nodes st ∧ nrr_ExecutionNodeID node = id) →
  ∃ node, before_nodes st !! id = Some node ∧ node ∈ st_Nodes st ∧ nrr_ExecutionNodeID node = id.
Proof.
  unfold before_nodes. intros Hin.
  assert (∀ l (acc : gmap string NodeRunRecord), (∃ node, node ∈ l ∧ nrr_ExecutionNodeID node = id) ∨
      (∃ node, acc !! id = Some node ∧ node ∈ st_Nodes st ∧ nrr_ExecutionNodeID node = id) → (∀ x, x ∈ l → x ∈ st_Nodes st) →
    ∃ node, fold_left (λ m node, <[nrr_ExecutionNodeID node := node]> m) l acc !! id = Some node ∧
      node ∈ st_Nodes st ∧ nrr_ExecutionNodeID node = id) as Hfold; [|by apply Hfold; [left|]].
  clear Hin. induction l as [|x l IH]; intros acc Hin Hsub.
  - destruct Hin as [(? & []%elem_of_nil & _)|Hin]; [done].
  - apply IH; [|intros y Hy; apply Hsub; by right]. destruct (decide (nrr_ExecutionNodeID x = id)) as [He|He].
    + right. exists x. rewrite <-He, lookup_insert_eq. split_and!; [done|apply Hsub; by left|done].
    + rewrite lookup_insert_ne by done. destruct Hin as [(y & [->|Hy]%elem_of_cons & ?)|Hin]; [done|left; eauto|by right].
Qed.

Lemma stored_before e st id n : inv e → stores e st → en_nodes e !! id = Some n →
  ∃ previous, before_nodes st !! id = Some previous ∧ nrr_StateVersion previous = nr_stateVersion n.
Proof.
  intros Hi [_ (ids & g & Hids & Hg & Hst) _] Hn.
  assert (∀ k m, en_nodes e !! k = Some m → nrr_ExecutionNodeID (g m) = k ∧ nrr_StateVersion (g m) = nr_stateVersion m) as Hgm.
  { intros k m Hm. destruct (engine_node e k m Hi Hm) as (_ & He & _). by destruct (Hg m) as [-> | ->]. }
  destruct (before_nodes_found st id) as (p & Hp & Hin & Hid).
  - exists (g n). rewrite Hst. split; [|by apply Hgm]. apply list_elem_of_omap. exists id.
    split; [|by rewrite Hn]. rewrite Hids. apply elem_of_sorted_keys. eauto.
  - exists p. split; [done|]. rewrite Hst in Hin. apply list_elem_of_omap in Hin as (k & _ & Hk).
    apply fmap_Some in Hk as (m & Hm & ->). destruct (Hgm k m Hm) as [Hk ?]. assert (k = id) as -> by congruence. congruence.
Qed.

(** What a later state of the engine keeps. *)
Record succeeds (e e' : Engine) : Prop := {
  su_defs : en_nodeDefs e' = en_nodeDefs e;
  su_attempts : en_attempts e' = en_attempts e;
  su_owners : en_attemptNodes e' = en_attemptNodes e;
  su_grows : grows e e' }.

Lemma advance_run_written db e e' st at_ : inv e → inv e' → represents db e → succeeds e e' →
  cc_ProjectID command = projectID → cc_RunID command = runID →
  stores e st → run_row db projectID runID = Some (st_Run st) →
  ∃ runs nodes, advance_run st (SnapshotState e') at_ db = (db <| db_nodes := nodes |> <| db_runs := runs |>, Ok tt) ∧
    represents (db <| db_nodes := nodes |> <| db_runs := runs |>) e' ∧
    elsewhere db (db <| db_nodes := nodes |> <| db_runs := runs |>).
Proof.
  intros Hi Hi' Hr [Hdefs Hatt Hown [Hgn Hgr]] Hp Hid Hst Hrow. pose proof Hi as [Hs _ _ _ _ _]. pose proof Hi' as [Hs' _ _ _ _ _].
  pose proof (snapshot_command e Hi) as Hc. pose proof (snapshot_command e' Hi') as Hc'.
  assert (wr_id (en_run e) = runID) as Hwid by (rewrite <-Hc in Hid; done).
  assert (wr_id (en_run e') = runID) as Hwid' by (rewrite <-Hc' in Hid; done).
  assert (wr_projectID (en_run e') = projectID) as Hwp by (rewrite <-Hc' in Hp; done).
  pose proof (engine_named e Hi Hwid) as Hnm. pose proof (engine_named e' Hi' Hwid') as Hnm'.
  assert (∀ id, is_Some (en_nodes e !! id) ↔ is_Some (en_nodes e' !! id)) as Hdom.
  { intros id. by rewrite (sv_nodes _ _ _ Hs), (sv_nodes _ _ _ Hs'), Hdefs. }
  destruct (advance_nodes_written (before_nodes st) (en_nodes e') at_ (sortedNodeIDs e') db (en_nodes e))
    as (t & Hadv & Hrows & Hframe); [done|apply Hr|apply NoDup_sorted_keys|..].
  { intros id [n' Hn']%elem_of_sorted_keys. destruct (proj2 (Hdom id)) as [n Hn]; [eauto|].
    destruct (stored_before e st id n Hi Hst Hn) as (q & Hq & Hv). exists n, n', q.
    destruct (Hgn id n Hn) as (m & Hm & Hg). assert (m = n') as -> by congruence.
    destruct (sv_node _ _ _ Hs id n Hn) as (_ & _ & _ & Hk). destruct (sv_node _ _ _ Hs' id n' Hn') as (_ & _ & _ & Hk').
    unfold definition_of in Hk, Hk'. rewrite Hdefs in Hk'. destruct (Hnm' id n' Hn'). split_and!; try done. congruence. }
  assert (collect (en_nodes e') (sortedNodeIDs e') (en_nodes e) = en_nodes e') as Hcol.
  { apply map_eq. intros k. rewrite collect_lookup. unfold sortedNodeIDs. case_decide as Hk.
    - rewrite elem_of_sorted_keys in Hk. destruct Hk as [m Hm]. rewrite Hm. by destruct (en_nodes e !! k).
    - rewrite elem_of_sorted_keys in Hk. rewrite (left_id_L None (∪)). destruct (en_nodes e !! k) eqn:Hn.
      + destruct Hk. apply Hdom. eauto.
      + destruct (en_nodes e' !! k) eqn:Hn'; [|done]. destruct Hk. eauto. }
  rewrite Hcol in Hrows. destruct (rp_run _ _ Hr) as (trace & cancel & Hrun).
  assert (st_Run st = stamped trace cancel (WorkflowRun_Snapshot (en_run e))) as Hsr by congruence.
  assert (∀ runs, run_row (db <| db_nodes := t |> <| db_runs := runs |>) projectID runID =
      Some (stamped trace cancel (WorkflowRun_Snapshot (en_run e'))) →
    represents (db <| db_nodes := t |> <| db_runs := runs |>) e') as Hrep.
  { intros runs Hrr. constructor; [by eauto|by apply (rows_of_ext (db <| db_nodes := t |>))|].
    rewrite Hatt, Hown. by apply (attempts_of_ext db), Hr. }
  assert (∀ runs, untouched run_of (db_runs db) runs → elsewhere db (db <| db_nodes := t |> <| db_runs := runs |>)) as Helse.
  { intros runs Hruns. constructor; [done| |done..]. apply (untouched_nodes db t (en_nodes e) (en_nodes e')); [apply Hr|done| |done].
    intros id. apply Hdom. }
  unfold advance_run. cbn [st_Run SnapshotState st_Nodes]. change (rr_ProjectID (WorkflowRun_Snapshot ?r)) with (wr_projectID r).
  change (rr_ID (WorkflowRun_Snapshot ?r)) with (wr_id r). rewrite Hwid', Hwp, (tx_step _ _ _ _ _ Hadv), Hsr.
  change (rr_StateVersion (WorkflowRun_Snapshot ?r)) with (wr_stateVersion r).
  change (rr_StateVersion (stamped _ _ (WorkflowRun_Snapshot ?r))) with (wr_stateVersion r).
  destruct Hgr as [Heq|Hlt].
  - rewrite Heq, Z.eqb_refl. exists (db_runs db), t.
    replace (db <| db_nodes := t |>) with (db <| db_nodes := t |> <| db_runs := db_runs db |>) by by destruct db.
    split_and!; [done| |by apply Helse]. apply Hrep. rewrite Heq. done.
  - rewrite (proj2 (Z.eqb_neq _ _)) by lia. rewrite (updateRunCAS_written (db <| db_nodes := t |>)) by done.
    eexists _, t. split_and!; [done| |].
    + apply Hrep. unfold run_row. cbn. by rewrite lookup_insert_eq, bool_decide_eq_true_2.
    + apply Helse, untouched_insert; unfold run_of; cbn.
      * by rewrite !bool_decide_eq_true_2.
      * intros old Hold. apply run_row_Some in Hrow as [Hrow Hpr]. assert (old = st_Run st) as -> by congruence.
        by rewrite !bool_decide_eq_true_2.
Qed.
End Engine.
End Represents.
