(* ===== verification/StoreRefine.v ===== *)
(** * The store refines the engine

    The consumer of Consumer.v on the store of Store.v: a wake-up is one
    operation of the engine in memory, written back. *)

From S2P Require Import Prelude Json Graph Dsl Branch Runtime Engine.
From S2P Require Import EngineSteps EngineInv EngineFacts EngineInit EngineProgress EngineLive EngineVersions EngineState.
From S2P Require Import Scheduling Eventing Consumer Store AttemptStore StoreFacts.

Open Scope string_scope.
Open Scope list_scope.
Open Scope Z_scope.

(** ** Operations that leave the attempts alone *)

Definition same_attempts (e e' : Engine) : Prop := en_attempts e' = en_attempts e ∧ en_attemptNodes e' = en_attemptNodes e.
Definition keeps {A} (m : eng A) : Prop := ∀ e, same_attempts e (m e).1.

Create HintDb keeps.

Lemma keeps_bind {A B} (m : eng A) (f : A → eng B) : keeps m → (∀ a, keeps (f a)) → keeps (m ≫= f).
Proof.
  intros Hm Hf e. unfold mbind, eng_bind. destruct (m e) as [e1 [a|x]] eqn:Hme.
  - pose proof (Hm e) as [H1 H2]. rewrite Hme in H1, H2. destruct (Hf a e1) as [H3 H4]. cbn in *. split; congruence.
  - pose proof (Hm e) as H. by rewrite Hme in H.
Qed.

Lemma keeps_same {A} (r : res A) : keeps (lift r).
Proof. by intros e. Qed.
Lemma keeps_ret {A} (a : A) : keeps (mret a).
Proof. by intros e. Qed.
Lemma keeps_fail {A} x : keeps (@fail A x).
Proof. by intros e. Qed.
Lemma keeps_get : keeps get.
Proof. by intros e. Qed.
Lemma keeps_set_run run : keeps (modify (set_run run)).
Proof. by intros e. Qed.
Lemma keeps_end id end_ run : keeps (modify (λ e, set_node id end_ (set_run run e))).
Proof. by intros e. Qed.
Lemma keeps_on_node id f : keeps (on_node id f).
Proof. intros e. unfold on_node. destruct (en_nodes e !! id) as [n|]; [|done]. by destruct (f n). Qed.
Lemma keeps_settle id route : keeps (settleOutgoing id route).
Proof. intros e. unfold settleOutgoing. destruct (outgoing_of e id); [done|]. by destruct (en_nodes e !! id). Qed.
Lemma keeps_request intent : keeps (request_termination intent).
Proof. intros e. unfold request_termination. by destruct (WorkflowRun_RequestTermination _ _) as [[]|]. Qed.
Lemma keeps_attempt_op {A} (m : eng A) : keeps m → keeps (attempt_op m).
Proof. intros H e. specialize (H e). unfold attempt_op. by destruct (m e). Qed.

#[export] Hint Resolve keeps_same keeps_ret keeps_fail keeps_get keeps_set_run keeps_end keeps_on_node
  keeps_settle keeps_request keeps_attempt_op : keeps.

(** Down to the calls, through every choice. *)
Ltac keeps := repeat first
  [ done
  | progress intros
  | solve [auto with keeps]
  | apply keeps_bind
  | progress cbv zeta
  | match goal with
    | |- keeps (if ?b then _ else _) => destruct b
    | |- keeps (match ?x with _ => _ end) => destruct x
    | |- keeps (let '(_, _) := ?x in _) => destruct x
    end ].

Section Keeps.
Context (order : range_order).

Lemma keeps_cancel_nodes intent ids : keeps (cancel_nodes intent ids).
Proof. induction ids; cbn [cancel_nodes]; keeps. Qed.
#[local] Hint Resolve keeps_cancel_nodes : keeps.

Lemma keeps_drive_terminating intent : keeps (drive_terminating intent).
Proof. unfold drive_terminating. keeps. Qed.
#[local] Hint Resolve keeps_drive_terminating : keeps.

Lemma keeps_fail_node at_ id fl f : keeps (fail_node at_ id fl f).
Proof. unfold fail_node. keeps. Qed.
#[local] Hint Resolve keeps_fail_node : keeps.

Lemma keeps_drive_control at_ id definition values : keeps (drive_control order at_ id definition values).
Proof. unfold drive_control. keeps. Qed.
#[local] Hint Resolve keeps_drive_control : keeps.

Lemma keeps_drive_node pass at_ id : keeps (drive_node order pass at_ id).
Proof. unfold drive_node, drive_pending. keeps. Qed.
#[local] Hint Resolve keeps_drive_node : keeps.

Lemma keeps_sweep pass at_ ids changed : keeps (sweep order pass at_ ids changed).
Proof. revert changed. induction ids; intros changed; cbn [sweep]; keeps. Qed.
#[local] Hint Resolve keeps_sweep : keeps.

Lemma keeps_drive at_ : keeps (drive order at_).
Proof.
  intros e. unfold drive. generalize (drive_fuel e) as fuel. intros fuel. revert e. change (keeps (drive_loop order fuel at_)).
  induction fuel; cbn [drive_loop]; keeps.
Qed.
#[local] Hint Resolve keeps_drive : keeps.

Lemma keeps_terminate at_ kind fl : keeps (terminate order at_ kind fl).
Proof. unfold terminate. keeps. Qed.
#[local] Hint Resolve keeps_terminate : keeps.

Lemma keeps_accept id definition aid values : keeps (acceptSuccess order id definition aid values).
Proof. unfold acceptSuccess. keeps. Qed.
#[local] Hint Resolve keeps_accept : keeps.

(** The operations of the consumer. *)
Definition consumer_op (op : EngineOp) : bool :=
  match op with
  | DoHandleAttemptCompleted _ _ | DoRetryDue _ _ | DoRequestCancel _ _ | DoDeadlineReached _ => true
  | _ => false
  end.

Lemma keeps_consumer_op op : consumer_op op = true → keeps (engine_apply order op).
Proof.
  intros H. destruct op; try done; cbn [engine_apply]; unfold discard.
  - unfold HandleAttemptCompleted, complete_terminating, complete_running, fail_attempt, retry_wait. keeps.
  - unfold RetryDue. keeps.
  - unfold RequestCancel. keeps.
  - unfold DeadlineReached. keeps.
Qed.
End Keeps.

(** ** A wake-up *)

Lemma wakeup_consumer_op event st now op at_ : wakeup_op event st now = Some (op, at_) → consumer_op op = true.
Proof.
  unfold wakeup_op. intros H. repeat case_match; simplify_eq; try done.
  by apply fmap_Some in H as (id & _ & [= -> _]).
Qed.

(** Rows do not depend on the inbox and the clock. *)
Lemma represents_ticks nid p r db inbox n e : represents nid p r db e →
  represents nid p r (db <| db_inbox := inbox |> <| db_ticks := n |>) e.
Proof. by apply represents_ext. Qed.

Lemma on_db_step {A} (m : tx DB A) db db' s r : m db = (db', r) → on_db m (MkRuntimeTx db s) = (MkRuntimeTx db' s, r).
Proof. unfold on_db. cbn. by intros ->. Qed.

(** The operation a wake-up leads to, if any. *)
Definition run_op (event : RuntimeEvent) (e : Engine) (st : State) (now : Time) : option (EngineOp * Time) :=
  if RunState_Terminal (wr_state (en_run e)) || bool_decide (ev_EventType event = EvRunCreated) then None
  else wakeup_op event st now.

Section Consumer.
Context (order : range_order) (ValidateSource : string → option (string * string)) (clock : nat → Time)
  (router : Coordinate → option string) (nid : string → string → string).
Context (command : CreateRunCommand) (snapshot : Snapshot).
Context (Hpolicies : policies_ok (sn_DSL snapshot)).
Local Notation contract := (BuiltinV1Contract ValidateSource).
Local Notation projectID := (cc_ProjectID command).
Local Notation runID := (cc_RunID command).
Local Notation reachable := (engine_reachable order contract command snapshot BuiltinV1Compatibility).
Local Notation represents := (represents nid projectID runID).
Local Notation inv := (engine_inv contract command).
Local Instance contract_ok : EngineContract contract := builtin_engine_contract ValidateSource.
Local Instance ops : RunTransaction RuntimeTx := store_transaction clock router nid.

Lemma reachable_facts e : reachable e → inv e ∧ output_inv e ∧ version_inv e.
Proof.
  intros Hr. split_and!.
  - by apply (reachable_rest order contract command snapshot BuiltinV1Compatibility).
  - by apply (reachable_outputs order contract command snapshot BuiltinV1Compatibility).
  - by apply (reachable_versions order contract command snapshot BuiltinV1Compatibility).
Qed.

Lemma inv_id e : inv e → wr_id (en_run e) = runID ∧ wr_definition (en_run e) = cc_Definition command.
Proof.
  intros Hi. pose proof (snapshot_command contract command e Hi) as Hc.
  split; [apply (f_equal cc_RunID Hc)|apply (f_equal cc_Definition Hc)].
Qed.

(** A consumer operation of a reachable engine gives an engine that follows it. *)
Lemma consumer_succeeds op e : reachable e → consumer_op op = true → succeeds e (engine_apply order op e).1.
Proof.
  intros Hr Hop. destruct (reachable_facts e Hr) as (Hi & _ & Hv).
  destruct (keeps_consumer_op order op Hop e) as [Ha Ho]. constructor; [|done|done|].
  - pose proof (engine_apply_steps order contract command op e Hi) as Hs. by apply engine_steps_static in Hs as (_ & ? & _).
  - by apply (apply_versions order contract command).
Qed.

(** [advance] on a run that has started. *)
Lemma advance_started_refines event db e st s : reachable e → represents db e → stores e st →
  run_row db projectID runID = Some (st_Run st) → ev_ProjectID event = projectID →
  db_snapshots db !! (projectID, dr_SnapshotID (cc_Definition command)) = Some snapshot →
  ∃ t' r, advance_started order ValidateSource event st (MkRuntimeTx db s) = (t', r) ∧
    match wakeup_op event st (clock (db_ticks db)) with
    | None => r = Ok tt ∧ rt_db t' = db <| db_ticks := S (db_ticks db) |>
    | Some (op, _) => r = (engine_apply order op e).2 ∧
        (r = Ok tt → represents (rt_db t') (engine_apply order op e).1 ∧ elsewhere projectID runID db (rt_db t') ∧
                     db_inbox (rt_db t') = db_inbox db)
    end.
Proof.
  intros Hr Hrep Hst Hrow Hp Hsnap. destruct (reachable_facts e Hr) as (Hi & _ & _). destruct (inv_id e Hi) as [Hid Hdef].
  assert (dr_SnapshotID (rr_Definition (st_Run st)) = dr_SnapshotID (cc_Definition command)) as Hsid.
  { destruct (so_run _ _ Hst) as (trace & cancel & ->). cbn. by rewrite Hdef. }
  destruct (Restore_stored order contract command snapshot BuiltinV1Compatibility e st Hpolicies Hr Hst)
    as (e1 & Hrestore & He1 & _).
  unfold advance_started. rewrite Hp, Hsid.
  assert (LoadSnapshot projectID (dr_SnapshotID (cc_Definition command)) (MkRuntimeTx db s) =
    (MkRuntimeTx db (Some snapshot), Ok snapshot)) as Hload.
  { cbn. rewrite (tx_step _ _ _ (MkRuntimeTx db s) snapshot); [done|]. apply on_db_step.
    unfold load_snapshot. erewrite tx_step by done. unfold tx_lift. by rewrite Hsnap. }
  rewrite (tx_step _ _ _ _ _ Hload). unfold RestoreBuiltinV1.
  rewrite (tx_step (tx_lift _) _ _ (MkRuntimeTx db (Some snapshot)) e1) by (unfold tx_lift; by rewrite Hrestore).
  rewrite (tx_step AuthorityNow _ _ (MkRuntimeTx (db <| db_ticks := S (db_ticks db) |>) (Some snapshot)) (clock (db_ticks db))) by done.
  destruct (wakeup_op event st (clock (db_ticks db))) as [[op at_]|] eqn:Hop; [|by eexists _, _].
  pose proof (wakeup_consumer_op _ _ _ _ _ Hop) as Hcop. destruct (restored_apply order op e e1 He1) as [Hres Hsn].
  unfold engine_result. destruct (engine_apply order op e1) as [e2 r2] eqn:Happ. cbn [fst snd] in Hres, Hsn. rewrite <-Hres. subst r2.
  destruct (engine_apply order op e).2 as [[]|x] eqn:Hr2; [|by eexists _, _].
  rewrite (tx_step (tx_lift _) _ _ (MkRuntimeTx (db <| db_ticks := S (db_ticks db) |>) (Some snapshot)) e2) by done.
  rewrite Hsn. assert (reachable (engine_apply order op e).1) as Hr' by by constructor.
  destruct (reachable_facts _ Hr') as (Hi' & _ & _).
  destruct (advance_run_written nid projectID runID contract command (db <| db_ticks := S (db_ticks db) |>) e
    (engine_apply order op e).1 st at_) as (runs & nodes & Hadv & Hrep' & Helse); try done.
  { apply (represents_ticks nid projectID runID db (db_inbox db) (S (db_ticks db)) e Hrep). }
  { by apply consumer_succeeds. }
  eexists _, _. split; [by apply on_db_step, Hadv|]. split; [done|]. intros _. split_and!; [done| |done].
  by destruct Helse.
Qed.

Lemma stores_state e st : stores e st → rr_State (st_Run st) = wr_state (en_run e).
Proof. by intros [(trace & cancel & ->) _ _]. Qed.

(** The handler of a new event. *)
Lemma handle_refines event db e : reachable e → represents db e →
  ev_ProjectID event = projectID → ev_RunID event = runID → (∀ raw, ev_EventType event ≠ EvOther raw) →
  db_snapshots db !! (projectID, dr_SnapshotID (cc_Definition command)) = Some snapshot →
  (ConsumerName, ev_EventID event) ∉ db_inbox db →
  ∃ st t' r, stores e st ∧ handle order ValidateSource event (MkRuntimeTx db None) = (t', r) ∧
    match run_op event e st (clock (db_ticks db)) with
    | None => r = Ok tt ∧ ∃ n, rt_db t' = db <| db_inbox := {[(ConsumerName, ev_EventID event)]} ∪ db_inbox db |> <| db_ticks := n |>
    | Some (op, _) => r = (engine_apply order op e).2 ∧
        (r = Ok tt → represents (rt_db t') (engine_apply order op e).1 ∧ elsewhere projectID runID db (rt_db t') ∧
                     db_inbox (rt_db t') = {[(ConsumerName, ev_EventID event)]} ∪ db_inbox db)
    end.
Proof.
  intros Hr Hrep Hp Hid Htype Hsnap Hnew. destruct (reachable_facts e Hr) as (Hi & Hout & _). destruct (inv_id e Hi) as [Hwid _].
  set (db1 := db <| db_inbox := {[(ConsumerName, ev_EventID event)]} ∪ db_inbox db |>).
  assert (represents db1 e) as Hrep1.
  { pose proof (represents_ticks nid projectID runID db (db_inbox db1) (db_ticks db) e Hrep) as H. by destruct db. }
  assert (elsewhere projectID runID db db1) as Helse1 by by constructor.
  destruct (load_state_stores nid projectID runID contract command db1 e Hi Hout Hrep1 Hwid) as (run & st & Hrow & Hload & <- & Hst).
  pose proof (sv_started _ _ _ (ev_static _ _ _ Hi)) as Hns. pose proof (stores_state e st Hst) as Hstate.
  exists st. unfold handle.
  rewrite (tx_step (AcceptInbox _ _) _ _ (MkRuntimeTx db1 None) true).
  2:{ cbn. apply on_db_step. unfold accept_inbox. by rewrite bool_decide_eq_false_2. }
  cbn [negb]. unfold run_op. rewrite <-Hstate.
  assert (∀ t' r, advance order ValidateSource event (MkRuntimeTx db1 None) = (t', r) → ev_EventType event ≠ EvRunCreated →
    ∃ t' r, stores e st ∧ advance order ValidateSource event (MkRuntimeTx db1 None) = (t', r) ∧
      match (if RunState_Terminal (rr_State (st_Run st)) || bool_decide (ev_EventType event = EvRunCreated) then None
             else wakeup_op event st (clock (db_ticks db))) with
      | None => r = Ok tt ∧ ∃ n, rt_db t' = db1 <| db_ticks := n |>
      | Some (op, _) => r = (engine_apply order op e).2 ∧
          (r = Ok tt → represents (rt_db t') (engine_apply order op e).1 ∧ elsewhere projectID runID db (rt_db t') ∧
                       db_inbox (rt_db t') = db_inbox db1)
      end) as Hadvance.
  { intros t0 r0 _ Hne. rewrite (bool_decide_eq_false_2 _ Hne), orb_false_r. unfold advance.
    rewrite (tx_step (LoadEngineState _ _) _ _ (MkRuntimeTx db1 None) st) by (rewrite Hp, Hid; by apply on_db_step).
    destruct (RunState_Terminal (rr_State (st_Run st))) eqn:Ht.
    { eexists _, _. split_and!; [done|done|done|]. exists (db_ticks db). by destruct db. }
    rewrite bool_decide_eq_false_2 by congruence.
    destruct (advance_started_refines event db1 e st None) as (t' & r & Heq & Hcase); try done.
    exists t', r. split_and!; [done|done|]. destruct (wakeup_op event st (clock (db_ticks db1))) as [[op at_]|] eqn:Hop;
      change (db_ticks db1) with (db_ticks db) in *; rewrite Hop.
    - destruct Hcase as [-> Hok]. split; [done|]. intros H. destruct (Hok H) as (? & ? & ?). split_and!; [done|by etrans|done].
    - destruct Hcase as [-> ->]. split; [done|]. by exists (S (db_ticks db)). }
  destruct (ev_EventType event) eqn:Ht; try (destruct (advance order ValidateSource event (MkRuntimeTx db1 None)) as [t0 r0] eqn:Hd; by eapply Hadvance);
    [|by destruct (Htype raw)].
  rewrite bool_decide_eq_true_2, orb_true_r by done. unfold initialize.
  rewrite (tx_step (LoadRun _ _) _ _ (MkRuntimeTx db1 None) (st_Run st)) by (rewrite Hp, Hid; apply on_db_step, loadRun_found, Hrow).
  rewrite Hstate, bool_decide_eq_false_2 by done. eexists _, _. split_and!; [done|done|done|]. exists (db_ticks db). by destruct db.
Qed.

(** Consuming an event is one operation of the engine. *)
Lemma consume_refines (event : RuntimeEvent) (db : DB) (e : Engine) :
  reachable e → represents db e → RuntimeEvent_Validate event = Ok tt →
  ev_ProjectID event = projectID → ev_RunID event = runID →
  db_snapshots db !! (projectID, dr_SnapshotID (cc_Definition command)) = Some snapshot →
  ∃ st db' r, stores e st ∧ Consume (D := DB) order ValidateSource event db = (db', r) ∧
    if bool_decide ((ConsumerName, ev_EventID event) ∈ db_inbox db) then db' = db ∧ r = Ok tt
    else
      match run_op event e st (clock (db_ticks db)) with
      | None => r = Ok tt ∧ represents db' e
      | Some (op, _) => r = (engine_apply order op e).2 ∧ (r = Ok tt → represents db' (engine_apply order op e).1)
      end ∧
      match r with
      | Ok _ => (ConsumerName, ev_EventID event) ∈ db_inbox db' ∧ elsewhere projectID runID db db'
      | Err _ => db' = db <| db_ticks := db_ticks db' |>
      end.
Proof.
  intros Hr Hrep Hval Hp Hid Hsnap. unfold Consume.
  rewrite (tx_step (tx_lift _) _ _ db tt) by (unfold tx_lift; by rewrite Hval). cbn [WithRunTransaction store_manager]. unfold transaction.
  assert (∀ raw, ev_EventType event ≠ EvOther raw) as Htype.
  { intros raw Hraw. unfold RuntimeEvent_Validate in Hval. apply bind_Ok in Hval as ([] & _ & Hval). by rewrite Hraw in Hval. }
  case_bool_decide as Hin.
  - destruct (reachable_facts e Hr) as (Hi & Hout & _). destruct (inv_id e Hi) as [Hwid _].
    destruct (load_state_stores nid projectID runID contract command db e Hi Hout Hrep Hwid) as (_ & st & _ & _ & _ & Hst).
    exists st. unfold handle. rewrite (tx_step (AcceptInbox _ _) _ _ (MkRuntimeTx db None) false).
    2:{ cbn. apply on_db_step. unfold accept_inbox. by rewrite bool_decide_eq_true_2. }
    by eexists _, _.
  - destruct (handle_refines event db e) as (st & t' & r & Hst & Hh & Hcase); try done.
    exists st. rewrite Hh. destruct (run_op event e st (clock (db_ticks db))) as [[op at_]|].
    + destruct Hcase as [-> Hok]. destruct (engine_apply order op e).2 as [[]|x].
      * destruct (Hok eq_refl) as (? & ? & Hbox). exists (rt_db t'), (Ok tt). split_and!; try done.
        rewrite Hbox. by apply elem_of_union_l, elem_of_singleton_2.
      * by eexists _, _.
    + destruct Hcase as [-> [n Hdb]]. exists (rt_db t'), (Ok tt). rewrite Hdb. split_and!; try done.
      * by apply represents_ticks.
      * cbn. by apply elem_of_union_l, elem_of_singleton_2.
Qed.
End Consumer.
