(* ===== verification/AttemptRefine.v ===== *)
(** * Claims, completions and dispatches refine the engine

    The transactions of AttemptStore.v and SchedulingStore.v change the rows of
    an attempt and its Node Run; each is one operation of the engine the rows
    stand for. *)

From S2P Require Import Prelude Json Graph Dsl Branch Runtime Engine.
From S2P Require Import EngineSteps EngineInv EngineFacts EngineInit EngineProgress EngineLive EngineVersions EngineState.
From S2P Require Import Scheduling Eventing Consumer Store AttemptStore SchedulingStore StoreFacts StoreRefine.

Open Scope string_scope.
Open Scope list_scope.
Open Scope Z_scope.

(** ** Statements *)

Lemma transaction_Ok {A} (m : tx DB A) db db' a : transaction m db = (db', Ok a) ↔ m db = (db', Ok a).
Proof. unfold transaction. destruct (m db) as [d [x|x]]; [done|]. by split. Qed.

Lemma transaction_Err {A} (m : tx DB A) db db' x : transaction m db = (db', Err x) → db' = db <| db_ticks := db_ticks db' |>.
Proof. unfold transaction. destruct (m db) as [d [y|y]]; [done|]. by intros [= <- _]. Qed.

Lemma lift_Ok {W A} (r : res A) (w w' : W) a : tx_lift r w = (w', Ok a) ↔ w' = w ∧ r = Ok a.
Proof. unfold tx_lift. naive_solver. Qed.

Lemma get_Ok {W} (w w' v : W) : tx_get w = (w', Ok v) ↔ w' = w ∧ v = w.
Proof. unfold tx_get. naive_solver. Qed.

Lemma ret_Ok {W A} (w w' : W) (a b : A) : (mret a : tx W A) w = (w', Ok b) ↔ w' = w ∧ b = a.
Proof. unfold mret, tx_ret. naive_solver. Qed.

Lemma or_err_Ok {A} (o : option A) x a : or_err o x = Ok a ↔ o = Some a.
Proof. destruct o; naive_solver. Qed.

(** Take the answer of a transaction apart, statement by statement. *)
Ltac tx_inv H := repeat lazymatch type of H with
  | (_ ≫= _) _ = (_, Ok _) =>
      let w := fresh "w" in let a := fresh "a" in let H1 := fresh "H" in
      apply tx_bind_Ok in H as (w & a & H1 & H);
      lazymatch type of H1 with
      | tx_lift _ _ = _ => apply lift_Ok in H1 as [-> H1]; try apply or_err_Ok in H1; try apply guard_Ok in H1
      | tx_get _ = _ => apply get_Ok in H1 as [-> ->]
      | _ => idtac
      end
  | mret _ _ = (_, Ok _) => apply ret_Ok in H as [-> H]
  | tx_lift _ _ = (_, Ok _) => apply lift_Ok in H as [-> H]
  end.

Lemma load_attempt_row_Ok p r aid x db db' row :
  load_attempt_row p r aid x db = (db', Ok row) ↔ db' = db ∧ attempt_row db p r aid = Some row.
Proof.
  unfold load_attempt_row. rewrite tx_bind_Ok. split.
  - intros (? & ? & [-> ->]%get_Ok & [-> H%or_err_Ok]%lift_Ok). done.
  - intros [-> H]. exists db, db. split; [done|]. apply lift_Ok. split; [done|by apply or_err_Ok].
Qed.

Lemma load_node_row_Ok p r k db db' row :
  load_node_row p r k db = (db', Ok row) ↔ db' = db ∧ node_row_of db p r k = Some row.
Proof.
  unfold load_node_row. rewrite tx_bind_Ok. split.
  - intros (? & ? & [-> ->]%get_Ok & [-> H%or_err_Ok]%lift_Ok). done.
  - intros [-> H]. exists db, db. split; [done|]. apply lift_Ok. split; [done|by apply or_err_Ok].
Qed.

Lemma loadRun_Ok p r db db' run : loadRun p r db = (db', Ok run) ↔ db' = db ∧ run_row db p r = Some run.
Proof.
  unfold loadRun. rewrite tx_bind_Ok. split.
  - intros (? & ? & [-> ->]%get_Ok & [-> H%or_err_Ok]%lift_Ok). done.
  - intros [-> H]. exists db, db. split; [done|]. apply lift_Ok. split; [done|by apply or_err_Ok].
Qed.

Lemma update_attempt_Ok p r aid P f db db' b : update_attempt p r aid P f db = (db', Ok b) → b = true →
  ∃ row, attempt_row db p r aid = Some row ∧ P row = true ∧ db' = db <| db_attempts := <[aid := f row]> (db_attempts db) |>.
Proof.
  unfold update_attempt. intros H ->. destruct (attempt_row db p r aid) as [row|]; [|done].
  destruct (P row) eqn:HP; [|done]. injection H as <-. by exists row.
Qed.

Lemma nullableString_Some s x : nullableString s = Some x ↔ s = x ∧ s ≠ "".
Proof. unfold nullableString. case_bool_decide; naive_solver. Qed.

Lemma sameCompletion_state s e o r : sameCompletion s e o r = true → s = ar_State r.
Proof. unfold sameCompletion. by case_bool_decide. Qed.

(** The reads of a transaction on an attempt and its node. *)
Ltac rows_inv := repeat match goal with
  | H : load_attempt_row _ _ _ _ _ = _ |- _ => apply load_attempt_row_Ok in H as [-> H]
  | H : load_node_row _ _ _ _ = _ |- _ => apply load_node_row_Ok in H as [-> H]
  | H : clock_timestamp _ _ = _ |- _ => injection H as <- <-
  | H1 : attempt_row ?db ?p ?r ?a = Some ?x, H2 : attempt_row ?db ?p ?r ?a = Some ?y |- _ =>
      rewrite H1 in H2; injection H2 as <-
  | H : nullableString _ = Some _ |- _ => apply nullableString_Some in H as [<- _]
  end.

(** ** The rows of an attempt *)

Section Rows.
Context (nid : string → string → string) (projectID runID : string).
Local Notation represents := (represents nid projectID runID).
Local Notation attempts_of := (attempts_of nid projectID runID).
Local Notation attempt_stored := (attempt_stored nid runID).
Local Notation elsewhere := (elsewhere projectID runID).

(** One attempt replaced or added. *)
Lemma attempts_of_insert db db' A O O' aid a row id : attempts_of db A O →
  db_attempts db' = <[aid := row]> (db_attempts db) → (∀ k, k ≠ aid → db_outputs db' !! k = db_outputs db !! k) →
  O' !! aid = Some id → (∀ k, k ≠ aid → O' !! k = O !! k) →
  attempt_of_run projectID runID aid row = true → attempt_stored db' aid id a row →
  attempts_of db' (<[aid := a]> A) O'.
Proof.
  intros [H1 H2 H3] Hatt Hout Hid Ho Hin Hst. constructor.
  - intros k b. rewrite lookup_insert. case_decide as Hk.
    + intros [= <-]. subst k. exists row, id. split_and!; [|done|done]. apply attempt_row_Some. rewrite Hatt. by rewrite lookup_insert_eq.
    + intros Hb. destruct (H1 k b Hb) as (row' & id' & Hrow & Hown & [? ? ? ? ? Hres Hop]). exists row', id'.
      split_and!; [|by rewrite Ho|].
      * apply attempt_row_Some in Hrow as [? ?]. apply attempt_row_Some. by rewrite Hatt, lookup_insert_ne.
      * constructor; try done; unfold load_result in *; by rewrite Hout.
  - intros k row' [Hl Hr]%attempt_row_Some. rewrite lookup_insert. case_decide as Hk; [eauto|].
    apply (H2 k row'), attempt_row_Some. by rewrite Hatt, lookup_insert_ne in Hl.
  - intros k. rewrite Hatt, lookup_insert. case_decide as Hk; [eauto|]. rewrite Hout by done. apply H3.
Qed.

Lemma attempt_in_run row : ra_ProjectID row = projectID → ra_RunID row = runID →
  ∀ aid, attempt_of_run projectID runID aid row = true.
Proof. intros <- <- aid. unfold attempt_of_run. by rewrite !bool_decide_eq_true_2. Qed.

Lemma attempt_in_run_inv aid row : attempt_of_run projectID runID aid row = true →
  ra_ProjectID row = projectID ∧ ra_RunID row = runID.
Proof. unfold attempt_of_run. by rewrite andb_true_iff, !bool_decide_eq_true. Qed.

(** A transaction that changes rows of one attempt and one node of the run. *)
Lemma elsewhere_change db db' aid row' t nodes nodes' : db_runs db' = db_runs db → db_snapshots db' = db_snapshots db →
  db_nodes db' = t → rows_of nid projectID runID db nodes → rows_of nid projectID runID (db <| db_nodes := t |>) nodes' →
  (∀ id, is_Some (nodes !! id) → is_Some (nodes' !! id)) →
  (∀ k, node_row_of db projectID runID k = None → t !! k = db_nodes db !! k) →
  db_attempts db' = <[aid := row']> (db_attempts db) → attempt_of_run projectID runID aid row' = true →
  (∀ old, db_attempts db !! aid = Some old → attempt_of_run projectID runID aid old = true) →
  (∀ k, k ≠ aid → db_outputs db' !! k = db_outputs db !! k) → elsewhere db db'.
Proof.
  intros Hr Hs Hn H1 H2 H3 H4 Ha Hin Hold Ho. constructor; [by rewrite Hr| | | |done].
  - rewrite Hn. by eapply untouched_nodes.
  - rewrite Ha. by apply untouched_insert.
  - intros k row Hk Hf. apply Ho. intros ->. by rewrite (Hold _ Hk) in Hf.
Qed.

Section Engine.
Context (c : Contract) {HC : EngineContract c} (command : CreateRunCommand).
Context (Hproject : cc_ProjectID command = projectID) (Hrun : cc_RunID command = runID).
Local Notation inv := (engine_inv c command).

Lemma run_named e : inv e → named runID (en_nodes e).
Proof.
  intros Hi. eapply engine_named; [done|]. rewrite <-Hrun.
  apply (f_equal cc_RunID (snapshot_command c command e Hi)).
Qed.

(** The rows of an attempt and of its node, and what they stand for. *)
Record located (db : DB) (e : Engine) (aid : string) (row : AttemptRow) (node : NodeRow) (id : string)
    (a : NodeAttempt) (n : NodeRun) : Prop := {
  lo_row : attempt_row db projectID runID aid = Some row;
  lo_node : node_row_of db projectID runID (nid runID id) = Some node;
  lo_attempt : en_attempts e !! aid = Some a;
  lo_owner : en_attemptNodes e !! aid = Some id;
  lo_engine_node : en_nodes e !! id = Some n;
  lo_stored : attempt_stored db aid id a row;
  lo_node_stored : node_stored projectID n node;
  lo_current : nrr_CurrentAttemptID (rn_Record node) = nr_currentAttemptID n;
  lo_state : nrr_State (rn_Record node) = nr_state n }.

Lemma locate db e aid row node : inv e → represents db e → attempt_row db projectID runID aid = Some row →
  node_row_of db projectID runID (ra_NodeRunID row) = Some node → ∃ id a n, located db e aid row node id a n.
Proof.
  intros Hi Hr Hrow Hnode. pose proof (rp_attempts _ _ _ _ _ Hr) as Hao. destruct (ao_only _ _ _ _ _ _ Hao aid row Hrow) as [a Ha].
  destruct (ao_row _ _ _ _ _ _ Hao aid a Ha) as (row' & id & Hrow' & Hown & Hst). assert (row' = row) as -> by congruence.
  destruct (av_attempt _ (ev_attempts _ _ _ Hi) aid a Ha) as (_ & _ & id' & n & Hown' & Hn & _). assert (id' = id) as -> by congruence.
  destruct (ro_row _ _ _ _ _ (rp_nodes _ _ _ _ _ Hr) id n Hn) as (node' & Hnode' & Hns).
  rewrite (as_node _ _ _ _ _ _ _ Hst), Hnode' in Hnode. injection Hnode as ->. exists id, a, n.
  pose proof Hns as (_ & o & Hrec). constructor; try done; by rewrite Hrec.
Qed.

Lemma node_version_next e id n : inv e → version_inv e → en_nodes e !! id = Some n →
  u64 (nr_stateVersion n + 1) = nr_stateVersion n + 1.
Proof.
  intros Hi Hv Hn. destruct (sv_node _ _ _ (ev_static _ _ _ Hi) id n Hn) as (Hwf & _).
  pose proof (vi_node _ Hv id n Hn) as Hb. pose proof (seq_range n Hwf). unfold node_version_ok, node_progress in Hb.
  apply u64_small. destruct (nr_state n); try destruct (nr_activated n); lia.
Qed.

Lemma attempt_version_next e aid a : version_inv e → en_attempts e !! aid = Some a →
  u64 (na_stateVersion a + 1) = na_stateVersion a + 1.
Proof. intros Hv Ha. pose proof (vi_attempt _ Hv aid a Ha) as Hb. unfold attempt_version_ok in Hb. apply u64_small. destruct (na_state a); lia. Qed.
(** *** Claim *)

(** A queued attempt and its node start together. *)
Lemma start_located db e aid row node id a n : inv e → version_inv e → represents db e →
  located db e aid row node id a n → na_state a = AttemptQueued → nr_currentAttemptID n = aid → nr_state n = NodeQueued →
  let a' := a <| na_state := AttemptRunning |> <| na_stateVersion := na_stateVersion a + 1 |> in
  let n' := n <| nr_state := NodeRunning |> <| nr_stateVersion := nr_stateVersion n + 1 |> in
  StartAttempt aid e = (set_node id n' (set_attempt aid a' e), Ok tt).
Proof.
  intros Hi Hv Hr Hl Hq Hcur Hnq. destruct Hl as [_ _ Ha Ho Hn _ _ _ _].
  destruct (sv_node _ _ _ (ev_static _ _ _ Hi) id n Hn) as (Hwf & _). pose proof (nwf_facts _ Hwf) as Hf.
  unfold node_state_facts in Hf. rewrite Hnq in Hf. destruct Hf as (Hk & _).
  unfold StartAttempt. rewrite Ha, Hq. unfold NodeAttempt_Start, NodeAttempt_transition. rewrite Hq. cbn [bool_decide].
  rewrite bool_decide_eq_false_2 by done. cbn [validAttemptTransition negb]. unfold on_node, attempt_node.
  lazymatch goal with |- context [en_nodes (set_attempt aid ?x e)] => change (en_nodes (set_attempt aid x e)) with (en_nodes e) end.
  rewrite Ho. change (default "" (Some id)) with id. rewrite Hn.
  unfold NodeRun_AttemptStarted. rewrite guard_passes by by rewrite bool_decide_eq_true_2.
  unfold NodeRun_transition. rewrite Hk, Hnq. cbn [validNodeTransition negb].
  by rewrite (node_version_next e id n Hi Hv Hn), (attempt_version_next e aid a Hv Ha).
Qed.

(** The row of an attempt holds the lease. *)
Definition leased (db : DB) (aid worker : string) (lease : Lease) : Prop :=
  ∃ row, attempt_row db projectID runID aid = Some row ∧ ra_State row = AttemptRunning ∧
    ra_LeaseToken row = Some (le_Token lease) ∧ ra_LeaseOwner row = Some (le_Owner lease) ∧
    ra_FencingToken row = le_FencingToken lease ∧ ra_LeaseExpiresAt row = Some (le_ExpiresAt lease) ∧ le_Owner lease = worker.

Lemma claim_queued_refines clock record row db db' lease b e node id a n :
  inv e → version_inv e → represents db e →
  cl_ProjectID (cl_Command record) = projectID → cl_RunID (cl_Command record) = runID →
  located db e (cl_AttemptID (cl_Command record)) row node id a n →
  nr_currentAttemptID n = cl_AttemptID (cl_Command record) → na_state a = AttemptQueued → nr_state n = NodeQueued →
  claim_queued clock record row b db = (db', Ok lease) →
  StartAttempt (cl_AttemptID (cl_Command record)) e = ((StartAttempt (cl_AttemptID (cl_Command record)) e).1, Ok tt) ∧
  represents db' (StartAttempt (cl_AttemptID (cl_Command record)) e).1 ∧ elsewhere db db' ∧
  leased db' (cl_AttemptID (cl_Command record)) (cl_WorkerID (cl_Command record)) lease.
Proof.
  set (aid := cl_AttemptID (cl_Command record)). intros Hi Hv Hr Hp Hrid Hl Hcur Hq Hnq H.
  rewrite (start_located db e aid row node id a n) by done. split; [done|]. cbn [fst].
  set (a' := a <| na_state := AttemptRunning |> <| na_stateVersion := na_stateVersion a + 1 |>).
  set (n' := n <| nr_state := NodeRunning |> <| nr_stateVersion := nr_stateVersion n + 1 |>).
  pose proof Hl as [Hrow Hnode Ha Ho Hn Hst Hns _ _]. unfold claim_queued in H. rewrite Hp, Hrid in H. fold aid in H. tx_inv H.
  match goal with H : clock_timestamp _ _ = _ |- _ => injection H as <- <- end.
  match goal with H : update_attempt _ _ _ _ _ _ = _ |- _ => apply update_attempt_Ok in H as (row' & Hrow' & _ & ->); [|by apply negb_false_iff] end.
  assert (row' = row) as -> by (change (attempt_row db projectID runID aid = Some row') in Hrow'; congruence).
  set (now := clock (db_ticks db)) in *. set (arow := claim_attempt record row now) in *.
  pose proof (run_named e Hi) as Hnm. destruct (Hnm id n Hn) as [_ Hnrun].
  set (db1 := db <| db_ticks := _ |> <| db_attempts := _ |>) in *.
  destruct (write_node nid projectID runID db1 (en_nodes e) id n n'
    (λ k r, node_of_run projectID runID k r && bool_decide (nrr_CurrentAttemptID (rn_Record r) = aid)
            && bool_decide (nrr_State (rn_Record r) = NodeQueued)) (bump_node NodeRunning))
    as (t & Hu & Hrows & Hframe); [done| |done|done|..].
  { apply (rows_of_ext _ _ _ db); [done|apply Hr]. }
  { by intros k r [[? _]%andb_true_iff _]%andb_true_iff. }
  { intros r Hsr. rewrite (node_stored_in_run projectID runID n) by done. destruct Hsr as (_ & o & ->). cbn.
    by rewrite Hcur, Hnq, !bool_decide_eq_true_2. }
  { intros id' m r Hm (_ & o & ->) [[_ Hc%bool_decide_eq_true]%andb_true_iff _]%andb_true_iff. cbn in Hc.
    destruct (av_attempt _ (ev_attempts _ _ _ Hi) aid a Ha) as ([[Hne _] _ _ _] & Hid & _).
    destruct (av_current _ (ev_attempts _ _ _ Hi) id' m Hm) as (_ & _ & Hown & _); [congruence|]. congruence. }
  { intros r (Hpr & o & Hrec). split; [done|]. exists o. unfold bump_node. cbn. by rewrite Hrec. }
  match goal with H : update_nodes _ _ _ = _ |- _ => unfold update_nodes in H; rewrite Hu in H; injection H as <- _ end.
  destruct (attempt_in_run_inv aid row) as [Hrp Hrr]; [by apply attempt_row_Some in Hrow as [_ ?]|].
  assert (attempt_of_run projectID runID aid arow = true) as Hin by by apply attempt_in_run.
  subst lease. split_and!.
  - constructor; [apply Hr|done|]. cbn [set_node set_attempt en_attempts en_attemptNodes].
    apply (attempts_of_insert db _ _ (en_attemptNodes e) (en_attemptNodes e) aid a' arow id); try done; [by apply Hr|].
    destruct Hst as [? ? ? ? Hver Hres Hopen]. constructor; try done.
    + cbn. by rewrite Hver.
    + cbn. destruct (av_attempt _ (ev_attempts _ _ _ Hi) aid a Ha) as ([_ _ _ Hw] & _ & _).
      destruct (na_result a); [|done]. destruct Hw as (Hw & _). by rewrite Hq in Hw.
    + intros _. apply Hopen. by rewrite Hq.
  - apply (elsewhere_change db _ aid arow t (en_nodes e) (<[id := n']> (en_nodes e))); try done; [apply Hr|..].
    + by apply (rows_of_ext _ _ _ (db1 <| db_nodes := t |>)).
    + intros k. rewrite lookup_insert_is_Some'. by right.
    + intros old Hold. apply attempt_row_Some in Hrow as [Hx Hy]. congruence.
  - exists arow. split_and!; try done. apply attempt_row_Some. cbn. by rewrite lookup_insert_eq.
Qed.
Lemma claim_refines clock record db db' lease e : inv e → version_inv e → represents db e →
  cl_ProjectID (cl_Command record) = projectID → cl_RunID (cl_Command record) = runID →
  Claim clock record db = (db', Ok lease) →
  StartAttempt (cl_AttemptID (cl_Command record)) e = ((StartAttempt (cl_AttemptID (cl_Command record)) e).1, Ok tt) ∧
  represents db' (StartAttempt (cl_AttemptID (cl_Command record)) e).1 ∧ elsewhere db db' ∧
  leased db' (cl_AttemptID (cl_Command record)) (cl_WorkerID (cl_Command record)) lease.
Proof.
  intros Hi Hv Hr Hp Hrid H. unfold Claim in H. rewrite transaction_Ok, Hp, Hrid in H. tx_inv H.
  repeat match goal with
  | H : load_attempt_row _ _ _ _ _ = _ |- _ => apply load_attempt_row_Ok in H as [-> H]
  | H : load_node_row _ _ _ _ = _ |- _ => apply load_node_row_Ok in H as [-> H]
  | H : clock_timestamp _ _ = _ |- _ => injection H as <- <-
  end.
  match goal with
  | Hf : attempt_row db _ _ _ = Some ?x, Hn : node_row_of db _ _ _ = Some ?y, Hx : attempt_row (_ <| db_ticks := _ |>) _ _ _ = Some ?z |- _ =>
      change (attempt_row db projectID runID (cl_AttemptID (cl_Command record)) = Some z) in Hx;
      assert (z = x) as -> by congruence; rename x into row, y into node;
      destruct (locate db e _ row node Hi Hr Hf Hn) as (id & a & n & Hl)
  end.
  match goal with H : negb (_ =? _) || negb _ = false |- _ => apply orb_false_iff in H as [_ Hc%negb_false_iff%bool_decide_eq_true] end.
  pose proof Hl as [Hrow _ Ha _ _ Hst _ Hcur Hns]. rewrite Hc in Hcur. case_bool_decide as Hrun'; tx_inv H.
  - unfold StartAttempt. rewrite Ha. rewrite <-(as_state _ _ _ _ _ _ _ Hst), Hrun', bool_decide_eq_true_2 by done.
    split; [done|]. split; [by apply (represents_ext _ _ _ db)|]. split; [by constructor|].
    unfold reclaim in H. destruct (ra_LeaseOwner row) eqn:Ho, (ra_LeaseToken row) eqn:Ht, (ra_LeaseExpiresAt row) eqn:Hx; try done.
    destruct (_ && _) eqn:Hb; [|done]. apply andb_true_iff in Hb as [Hb%bool_decide_eq_true _]. injection H as <-.
    by exists row.
  - match goal with H : negb _ || negb _ = false |- _ =>
      apply orb_false_iff in H as [Hq%negb_false_iff%bool_decide_eq_true Hnq%negb_false_iff%bool_decide_eq_true] end.
    set (db1 := db <| db_ticks := _ |> <| db_ticks := _ |>) in H.
    assert (represents db1 e) as Hr1 by by apply (represents_ext _ _ _ db).
    assert (located db1 e (cl_AttemptID (cl_Command record)) row node id a n) as Hl1 by (destruct Hl as [? ? ? ? ? [] ? ? ?]; constructor; try done; by constructor).
    assert (na_state a = AttemptQueued) as Haq by by rewrite <-(as_state _ _ _ _ _ _ _ Hst).
    assert (nr_state n = NodeQueued) as Hnode by by rewrite <-Hns.
    destruct (claim_queued_refines clock record row db1 db' lease _ e node id a n Hi Hv Hr1 Hp Hrid Hl1 (eq_sym Hcur) Haq Hnode H)
      as (? & ? & ? & ?).
    split_and!; try done. etrans; [|done]. by constructor.
Qed.
(** *** Completion *)

Lemma complete_apply a result : attempt_wf a → na_state a = AttemptRunning → u64 (na_stateVersion a + 1) = na_stateVersion a + 1 →
  AttemptState_Terminal (ar_State result) = true → (ar_State result = AttemptSucceeded ↔ ar_ErrorCode result = "") →
  na_result a = None ∧ NodeAttempt_Complete a result = Ok (a <| na_state := ar_State result |>
    <| na_stateVersion := na_stateVersion a + 1 |> <| na_result := Some result |>).
Proof.
  intros [_ _ _ Hw] Hs Hv Ht Hcode. split.
  - destruct (na_result a); [|done]. destruct Hw as (Hw & _). by rewrite Hs in Hw.
  - unfold NodeAttempt_Complete, NodeAttempt_transition. rewrite Hs, Ht. cbn [AttemptState_Terminal negb].
    rewrite !guard_passes; [|by repeat case_bool_decide; naive_solver..|done].
    rewrite Hv. by destruct (ar_State result).
Qed.

Lemma insertOutbox_Ok clock event db db' u : insertOutbox clock event db = (db', Ok u) →
  RuntimeEvent_Validate event = Ok tt ∧ db_outbox db !! ev_EventID event = None ∧
  db' = db <| db_ticks := S (db_ticks db) |>
           <| db_outbox := <[ev_EventID event := new_row (clock (db_ticks db)) event]> (db_outbox db) |>.
Proof.
  unfold insertOutbox. intros H. tx_inv H.
  match goal with H : clock_timestamp _ _ = _ |- _ => injection H as <- <- end.
  match goal with H : RuntimeEvent_Validate _ = Ok ?u |- _ => destruct u end.
  match goal with H : insert_row _ _ _ _ = _ |- _ => unfold insert_row in H; cbn in H; destruct (db_outbox db !! _) eqn:Ho; [done|]; injection H as <- end.
  injection H as <- <-. by split_and!.
Qed.

(** A finished attempt and its stored result. *)
Lemma record_located db db' e aid row node id a n result outs at_ : inv e → version_inv e → represents db e →
  located db e aid row node id a n → na_state a = AttemptRunning → nr_currentAttemptID n = aid →
  AttemptState_Terminal (ar_State result) = true → (ar_State result = AttemptSucceeded ↔ ar_ErrorCode result = "") →
  ar_Outputs result = default ∅ (outs !! aid) → (∀ k, k ≠ aid → outs !! k = db_outputs db !! k) →
  let error := if bool_decide (ar_State result = AttemptSucceeded) then None
    else Some (MkAttemptError (ar_ErrorCode result) (ar_Message result) (ar_DSLField result) (ar_ErrorDetails result)) in
  (ar_State result = AttemptSucceeded → ar_Message result = "" ∧ ar_DSLField result = "" ∧ ar_ErrorDetails result = None) →
  let row' := complete_attempt (ar_State result) error at_ row in
  db_runs db' = db_runs db → db_snapshots db' = db_snapshots db → db_nodes db' = db_nodes db →
  db_attempts db' = <[aid := row']> (db_attempts db) → db_outputs db' = outs →
  ∃ e', RecordAttemptResult aid result e = (e', Ok true) ∧ represents db' e' ∧ elsewhere db db'.
Proof.
  intros Hi Hv Hr Hl Hs Hcur Ht Hcode Hout Hothers error Hok row' Hruns Hsnaps Hnodes Hatts Houts.
  pose proof Hl as [Hrow Hnode Ha Ho Hn Hst Hns _ _].
  destruct (av_attempt _ (ev_attempts _ _ _ Hi) aid a Ha) as (Hwf & _ & _).
  destruct (complete_apply a result Hwf Hs (attempt_version_next e aid a Hv Ha) Ht Hcode) as [Hnone Hc].
  set (a' := a <| na_state := ar_State result |> <| na_stateVersion := na_stateVersion a + 1 |> <| na_result := Some result |>) in *.
  exists (set_attempt aid a' e). destruct (attempt_in_run_inv aid row) as [Hrp Hrr]; [by apply attempt_row_Some in Hrow as [_ ?]|].
  assert (attempt_of_run projectID runID aid row' = true) as Hin by by apply attempt_in_run.
  split_and!.
  - unfold RecordAttemptResult, attempt_node. rewrite Ha, Ho. change (default "" (Some id)) with id.
    rewrite Hn, Hcur, bool_decide_eq_true_2 by done. cbn [negb]. by rewrite Hnone, Hc.
  - destruct Hr as [Hrun' Hnds Hats]. constructor; [unfold run_row in *; by rewrite Hruns|by apply (rows_of_ext _ _ _ db)|].
    apply (attempts_of_insert db _ _ (en_attemptNodes e) (en_attemptNodes e) aid a' row' id); try done.
    { intros k Hk. by rewrite Houts, Hothers. }
    destruct Hst as [? ? ? ? Hver _ _]. constructor; try done.
    + cbn. by rewrite Hver.
    + unfold load_result. cbn [complete_attempt ra_State ra_Error row']. unfold row', complete_attempt. cbn. rewrite Ht, Houts, <-Hout.
      unfold error. case_bool_decide as Hsucc; destruct result; cbn in *; [|done].
      destruct (Hok Hsucc) as (-> & -> & ->). by rewrite (proj1 Hcode Hsucc).
    + cbn. by rewrite Ht.
  - constructor; [by rewrite Hruns|by rewrite Hnodes|..|done].
    + rewrite Hatts. apply untouched_insert; [done|]. intros old Hold. apply attempt_row_Some in Hrow as [? ?]. congruence.
    + intros k r Hk Hf. rewrite Houts, Hothers; [done|]. intros ->. apply attempt_row_Some in Hrow as [? ?]. congruence.
Qed.
(** What the store keeps of a result: a success has no error, anything else
    no outputs; empty details are dropped. *)
Definition stored_result (jsonb : string → string) (result : AttemptResult) : AttemptResult :=
  let e := default (MkAttemptError "" "" "" None) (completionError result) in
  MkAttemptResult (ar_State result) (if bool_decide (ar_State result = AttemptSucceeded) then jsonb <$> ar_Outputs result else ∅)
    (ae_ErrorCode e) (ae_Message e) (ae_DSLField e) (ae_ErrorDetails e).

Lemma stored_result_ok jsonb result : worker_result result = Ok tt →
  AttemptState_Terminal (ar_State (stored_result jsonb result)) = true ∧
  (ar_State (stored_result jsonb result) = AttemptSucceeded ↔ ar_ErrorCode (stored_result jsonb result) = "").
Proof.
  unfold worker_result. intros [[Ht%negb_false_iff _]%orb_false_iff H]%bind_guard. split; [done|]. unfold stored_result, completionError. cbn.
  case_bool_decide as Hs; cbn; [done|]. apply guard_Ok, bool_decide_eq_false in H. naive_solver.
Qed.

(** The columns of [error_json]. *)
Lemma stored_error jsonb result : completionError result =
  (if bool_decide (ar_State (stored_result jsonb result) = AttemptSucceeded) then None
   else Some (MkAttemptError (ar_ErrorCode (stored_result jsonb result)) (ar_Message (stored_result jsonb result))
                (ar_DSLField (stored_result jsonb result)) (ar_ErrorDetails (stored_result jsonb result)))) ∧
  (ar_State (stored_result jsonb result) = AttemptSucceeded → ar_Message (stored_result jsonb result) = "" ∧
   ar_DSLField (stored_result jsonb result) = "" ∧ ar_ErrorDetails (stored_result jsonb result) = None).
Proof. unfold stored_result, completionError. cbn. by case_bool_decide. Qed.

(** The lease a completion must hold. *)
Definition holds_lease (db : DB) (aid : string) (sequence : Z) (token : string) (fencing : Z) (now : Time) : Prop :=
  ∃ row, attempt_row db projectID runID aid = Some row ∧ held_lease row sequence token fencing now = true.

Lemma finish_refines clock jsonb record row db db' b e node id a n :
  inv e → version_inv e → represents db e →
  cp_ProjectID (cp_Command record) = projectID → cp_RunID (cp_Command record) = runID →
  worker_result (cp_Result (cp_Command record)) = Ok tt →
  located db e (cp_AttemptID (cp_Command record)) row node id a n →
  nr_currentAttemptID n = cp_AttemptID (cp_Command record) → na_state a = AttemptRunning →
  finish_running clock jsonb record row db = (db', Ok b) →
  b = true ∧
  holds_lease db (cp_AttemptID (cp_Command record)) (cp_AttemptSequence (cp_Command record)) (cp_LeaseToken (cp_Command record))
    (cp_FencingToken (cp_Command record)) (clock (db_ticks db)) ∧
  ∃ e', RecordAttemptResult (cp_AttemptID (cp_Command record)) (stored_result jsonb (cp_Result (cp_Command record))) e = (e', Ok true) ∧
    represents db' e' ∧ elsewhere db db' ∧
    db_outbox db' !! cp_EventID record = Some (new_row (clock (S (db_ticks db)))
      (attempt_event EvAttemptCompleted (cp_EventID record) projectID runID (cp_AttemptID (cp_Command record))
         (cp_TraceID (cp_Command record)) (cp_Now record))).
Proof.
  set (aid := cp_AttemptID (cp_Command record)). intros Hi Hv Hr Hp Hrid Hres Hl Hcur Hs H.
  unfold finish_running in H. rewrite Hp, Hrid in H. fold aid in H. tx_inv H.
  match goal with H : clock_timestamp _ _ = _ |- _ => injection H as <- <- end.
  match goal with H : update_attempt _ _ _ _ _ _ = _ |- _ => apply update_attempt_Ok in H as (row' & Hrow' & Hheld & ->); [|by apply negb_false_iff] end.
  change (attempt_row db projectID runID aid = Some row') in Hrow'.
  assert (row' = row) as -> by (pose proof (lo_row _ _ _ _ _ _ _ _ Hl); congruence).
  match goal with H : insertOutbox _ _ _ = _ |- _ => apply insertOutbox_Ok in H as (_ & _ & ->) end.
  subst b. split; [done|]. split.
  { exists row. split; [done|]. unfold held_lease. repeat apply andb_true_iff in Hheld as [Hheld ?].
    repeat (apply andb_true_iff; split); done. }
  destruct (stored_result_ok jsonb _ Hres) as [Ht Hcode]. destruct (stored_error jsonb (cp_Result (cp_Command record))) as [Herr Hok].
  set (result := stored_result jsonb (cp_Result (cp_Command record))) in *.
  set (db1 := db <| db_ticks := _ |> <| db_attempts := _ |>) in *.
  match goal with H : (if _ then _ else _) db1 = (?w, Ok _) |- _ => rename w into db2; rename H into Hout end.
  assert (db_outputs db !! aid = None) as Hopen.
  { apply (as_open _ _ _ _ _ _ _ (lo_stored _ _ _ _ _ _ _ _ Hl)). by rewrite Hs. }
  assert (∃ outs, db2 = db1 <| db_outputs := outs |> ∧ ar_Outputs result = default ∅ (outs !! aid) ∧
    ∀ k, k ≠ aid → outs !! k = db_outputs db !! k) as (outs & -> & Hros & Hothers).
  { destruct (decide (ar_State (cp_Result (cp_Command record)) = AttemptSucceeded)) as [Hsucc|Hsucc];
      [rewrite bool_decide_eq_true_2 in Hout by done|rewrite bool_decide_eq_false_2 in Hout by done].
    - tx_inv Hout. unfold insert_outputs in Hout. change (db_outputs db1) with (db_outputs db) in Hout. rewrite Hopen in Hout.
      injection Hout as <- _. eexists. split_and!; [done| |].
      + rewrite lookup_insert_eq. unfold result, stored_result. cbn. by rewrite bool_decide_eq_true_2.
      + intros k Hk. by rewrite lookup_insert_ne.
    - tx_inv Hout. exists (db_outputs db). split_and!; [done| |done]. rewrite Hopen. unfold result, stored_result. cbn.
      by rewrite bool_decide_eq_false_2. }
  match goal with |- context [elsewhere db ?d] => set (db3 := d) end.
  destruct (record_located db db3 e aid row node id a n result outs (cp_Now record)) as (e' & He' & Hrep & Helse); try done.
  { change (db_attempts db3) with (db_attempts db1). subst db1. rewrite Herr. done. }
  exists e'. split_and!; try done. subst db3. cbn. by rewrite lookup_insert_eq.
Qed.
(** A replayed completion changes nothing; a new one is recorded under the lease. *)
Lemma complete_refines clock jsonb record db db' b e : inv e → version_inv e → represents db e →
  cp_ProjectID (cp_Command record) = projectID → cp_RunID (cp_Command record) = runID →
  worker_result (cp_Result (cp_Command record)) = Ok tt →
  Complete clock jsonb record db = (db', Ok b) →
  let aid := cp_AttemptID (cp_Command record) in
  if b then
    holds_lease db aid (cp_AttemptSequence (cp_Command record)) (cp_LeaseToken (cp_Command record))
      (cp_FencingToken (cp_Command record)) (clock (db_ticks db)) ∧
    ∃ e', RecordAttemptResult aid (stored_result jsonb (cp_Result (cp_Command record))) e = (e', Ok true) ∧
      represents db' e' ∧ elsewhere db db' ∧
      db_outbox db' !! cp_EventID record = Some (new_row (clock (S (db_ticks db)))
        (attempt_event EvAttemptCompleted (cp_EventID record) projectID runID aid (cp_TraceID (cp_Command record)) (cp_Now record)))
  else db' = db ∧ ∃ a, en_attempts e !! aid = Some a ∧ AttemptState_Terminal (na_state a) = true ∧
    na_state a = ar_State (cp_Result (cp_Command record)).
Proof.
  intros Hi Hv Hr Hp Hrid Hres H aid. unfold Complete in H. rewrite transaction_Ok, Hp, Hrid in H. fold aid in H. tx_inv H. rows_inv.
  match goal with Hf : attempt_row db _ _ _ = Some ?x, Hn : node_row_of db _ _ _ = Some ?y |- _ =>
    rename x into row, y into node; destruct (locate db e aid row node Hi Hr Hf Hn) as (id & a & n & Hl) end.
  pose proof (as_state _ _ _ _ _ _ _ (lo_stored _ _ _ _ _ _ _ _ Hl)) as Hs.
  destruct (AttemptState_Terminal (ra_State row)) eqn:Ht; tx_inv H.
  - subst b. split; [done|]. exists a. split_and!; [by destruct Hl|congruence|].
    match goal with H : negb (sameCompletion _ _ _ _) = false |- _ => apply negb_false_iff, sameCompletion_state in H end.
    congruence.
  - match goal with H : negb (bool_decide (_ = aid)) = false |- _ => apply negb_false_iff, bool_decide_eq_true in H as Hc end.
    match goal with H : negb (bool_decide (ra_State _ = _)) || _ = false |- _ => apply orb_false_iff in H as [Hq%negb_false_iff%bool_decide_eq_true _] end.
    rewrite (lo_current _ _ _ _ _ _ _ _ Hl) in Hc. rewrite Hs in Hq.
    destruct (finish_refines clock jsonb record row db db' b e node id a n) as (-> & Hlease & Hrest); done.
Qed.

Lemma lose_refines clock record row db db' b e node id a n :
  inv e → version_inv e → represents db e →
  ml_ProjectID (ml_Command record) = projectID → ml_RunID (ml_Command record) = runID →
  located db e (ml_AttemptID (ml_Command record)) row node id a n →
  nr_currentAttemptID n = ml_AttemptID (ml_Command record) → na_state a = AttemptRunning →
  lose_running clock record row db = (db', Ok b) →
  b = true ∧ lease_expired row (clock (db_ticks db)) = true ∧
  ∃ e', RecordAttemptResult (ml_AttemptID (ml_Command record)) lost_result e = (e', Ok true) ∧
    represents db' e' ∧ elsewhere db db' ∧
    db_outbox db' !! ml_EventID record = Some (new_row (clock (S (db_ticks db)))
      (attempt_event EvAttemptLost (ml_EventID record) projectID runID (ml_AttemptID (ml_Command record))
         (ml_TraceID (ml_Command record)) (ml_Now record))).
Proof.
  set (aid := ml_AttemptID (ml_Command record)). intros Hi Hv Hr Hp Hrid Hl Hcur Hs H.
  unfold lose_running in H. rewrite Hp, Hrid in H. fold aid in H. tx_inv H. rows_inv.
  match goal with H : update_attempt _ _ _ _ _ _ = _ |- _ => apply update_attempt_Ok in H as (row' & Hrow' & Hheld & ->); [|by apply negb_false_iff] end.
  change (attempt_row db projectID runID aid = Some row') in Hrow'.
  assert (row' = row) as -> by (pose proof (lo_row _ _ _ _ _ _ _ _ Hl); congruence).
  match goal with H : insertOutbox _ _ _ = _ |- _ => apply insertOutbox_Ok in H as (_ & _ & ->) end.
  subst b. split; [done|]. apply andb_true_iff in Hheld as [_ Hexp]. split; [done|].
  assert (db_outputs db !! aid = None) as Hopen.
  { apply (as_open _ _ _ _ _ _ _ (lo_stored _ _ _ _ _ _ _ _ Hl)). by rewrite Hs. }
  match goal with |- context [elsewhere db ?d] => set (db3 := d) end.
  destruct (record_located db db3 e aid row node id a n lost_result (db_outputs db) (clock (db_ticks db))) as (e' & He' & Hrep & Helse); try done.
  { by rewrite Hopen. }
  exists e'. split_and!; try done. subst db3. cbn. by rewrite lookup_insert_eq.
Qed.

Lemma lost_refines clock record db db' b e : inv e → version_inv e → represents db e →
  ml_ProjectID (ml_Command record) = projectID → ml_RunID (ml_Command record) = runID →
  MarkExpiredLost clock record db = (db', Ok b) →
  let aid := ml_AttemptID (ml_Command record) in
  if b then
    (∃ row, attempt_row db projectID runID aid = Some row ∧ lease_expired row (clock (db_ticks db)) = true) ∧
    ∃ e', RecordAttemptResult aid lost_result e = (e', Ok true) ∧ represents db' e' ∧ elsewhere db db' ∧
      db_outbox db' !! ml_EventID record = Some (new_row (clock (S (db_ticks db)))
        (attempt_event EvAttemptLost (ml_EventID record) projectID runID aid (ml_TraceID (ml_Command record)) (ml_Now record)))
  else db' = db ∧ ∃ a, en_attempts e !! aid = Some a ∧ na_state a = AttemptLost.
Proof.
  intros Hi Hv Hr Hp Hrid H aid. unfold MarkExpiredLost in H. rewrite transaction_Ok, Hp, Hrid in H. fold aid in H. tx_inv H. rows_inv.
  match goal with Hf : attempt_row db _ _ _ = Some ?x, Hn : node_row_of db _ _ _ = Some ?y |- _ =>
    rename x into row, y into node; destruct (locate db e aid row node Hi Hr Hf Hn) as (id & a & n & Hl) end.
  pose proof (as_state _ _ _ _ _ _ _ (lo_stored _ _ _ _ _ _ _ _ Hl)) as Hs.
  destruct (decide (ra_State row = AttemptLost)) as [Hlost|Hlost];
    [rewrite (bool_decide_eq_true_2 _ Hlost) in H|rewrite (bool_decide_eq_false_2 _ Hlost) in H]; tx_inv H.
  - subst b. split; [done|]. exists a. split; [by destruct Hl|congruence].
  - match goal with H : negb _ || negb (bool_decide (_ = aid)) = false |- _ => apply orb_false_iff in H as [_ Hc%negb_false_iff%bool_decide_eq_true] end.
    match goal with H : negb (bool_decide (_ = AttemptRunning)) = false |- _ => apply negb_false_iff, bool_decide_eq_true in H as Hq end.
    rewrite (lo_current _ _ _ _ _ _ _ _ Hl) in Hc. rewrite Hs in Hq.
    destruct (lose_refines clock record row db db' b e node id a n) as (-> & Hexp & Hrest); try done.
    split; [exists row; by destruct Hl|done].
Qed.

(** The end of a lease is no part of the engine. *)
Lemma extend_lease db db' e aid row t at_ : represents db e → attempt_row db projectID runID aid = Some row →
  db_runs db' = db_runs db → db_nodes db' = db_nodes db → db_outputs db' = db_outputs db → db_snapshots db' = db_snapshots db →
  db_attempts db' = <[aid := row <| ra_LeaseExpiresAt := t |> <| ra_UpdatedAt := at_ |>]> (db_attempts db) → represents db' e ∧ elsewhere db db'.
Proof.
  set (row' := row <| ra_LeaseExpiresAt := t |> <| ra_UpdatedAt := at_ |>). intros Hr Hrow H1 H2 H3 H4 H5.
  destruct (attempt_in_run_inv aid row) as [Hrp Hrr]; [by apply attempt_row_Some in Hrow as [_ ?]|].
  assert (attempt_of_run projectID runID aid row' = true) as Hin by by apply attempt_in_run.
  pose proof (rp_attempts _ _ _ _ _ Hr) as Hao. destruct (ao_only _ _ _ _ _ _ Hao aid row Hrow) as [at' Ha].
  destruct (ao_row _ _ _ _ _ _ Hao aid at' Ha) as (row0 & id & Hrow0 & Ho & Hst). assert (row0 = row) as -> by congruence.
  split.
  - constructor; [unfold run_row; rewrite H1; apply Hr|by apply (rows_of_ext _ _ _ db), Hr|].
    rewrite <-(insert_id (en_attempts e) aid at' Ha).
    apply (attempts_of_insert db db' _ (en_attemptNodes e) (en_attemptNodes e) aid at' row' id); try done; [by intros k _; rewrite H3|].
    destruct Hst. constructor; try done; unfold load_result in *; by rewrite H3.
  - constructor; rewrite ?H1, ?H2, ?H4, ?H5; try done; [|by intros; rewrite H3]. apply untouched_insert; [done|].
    intros old Hold. apply attempt_row_Some in Hrow as [? ?]. congruence.
Qed.

(** A heartbeat moves the end of the lease and nothing else. *)
Lemma heartbeat_refines clock record db db' lease e : represents db e →
  hb_ProjectID (hb_Command record) = projectID → hb_RunID (hb_Command record) = runID →
  Heartbeat clock record db = (db', Ok lease) →
  holds_lease db (hb_AttemptID (hb_Command record)) (hb_AttemptSequence (hb_Command record)) (hb_LeaseToken (hb_Command record))
    (hb_FencingToken (hb_Command record)) (clock (db_ticks db)) ∧
  represents db' e ∧ elsewhere db db' ∧
  ∃ owner, leased db' (hb_AttemptID (hb_Command record)) owner lease.
Proof.
  set (aid := hb_AttemptID (hb_Command record)). intros Hr Hp Hrid H. unfold Heartbeat in H. rewrite Hp, Hrid in H. fold aid in H.
  tx_inv H. rows_inv. change (attempt_row (db <| db_ticks := _ |>) projectID runID aid) with (attempt_row db projectID runID aid) in H.
  destruct (attempt_row db projectID runID aid) as [row|] eqn:Hrow; [|done].
  destruct (held_lease _ _ _ _ _) eqn:Hheld; [|done]. tx_inv H.
  match goal with H : tx_modify _ _ = _ |- _ => injection H as <- _ end. subst lease.
  match goal with |- context [elsewhere db ?d] => destruct (extend_lease db d e aid row _ _ Hr Hrow eq_refl eq_refl eq_refl eq_refl eq_refl) as [? ?] end.
  split; [by exists row|]. split_and!; [done|done|].
  destruct (attempt_in_run_inv aid row) as [Hrp Hrr]; [by apply attempt_row_Some in Hrow as [_ ?]|].
  unfold held_lease in Hheld. bool_prop.
  eexists _, (row <| ra_LeaseExpiresAt := _ |> <| ra_UpdatedAt := _ |>). split_and!; try done. apply attempt_row_Some. cbn. rewrite lookup_insert_eq.
  split; [done|by apply attempt_in_run].
Qed.
(** *** Dispatch *)

Lemma queue_stored n n' aid sq k row : NodeRun_QueueAttempt n aid = Ok (n', (sq, k)) → node_stored projectID n row →
  nr_runID n' = nr_runID n ∧ nr_executionNodeID n' = nr_executionNodeID n ∧ node_stored projectID n' (dispatch_row n' row).
Proof.
  unfold NodeRun_QueueAttempt. intros H (Hp & o & Hr). apply bind_guard in H as [_ H]. apply bind_guard in H as [_ H].
  apply bind_Ok in H as (n1 & (_ & ->)%NodeRun_transition_Ok & [= <- _ _]).
  split_and!; [by case_bool_decide..|]. split; [done|]. exists o. unfold dispatch_row. cbn. rewrite Hr. by case_bool_decide.
Qed.

Lemma dispatchable_open db now run e : represents db e → dispatchable_run db now projectID runID = Some run →
  wr_termination (en_run e) = None.
Proof.
  intros Hr Hdisp. unfold dispatchable_run in Hdisp. apply bind_Some in Hdisp as (r & Hx & Hdisp).
  destruct (rp_run _ _ _ _ _ Hr) as (tr & cn & Hy). assert (r = stamped tr cn (WorkflowRun_Snapshot (en_run e))) as -> by congruence.
  destruct (_ && _) eqn:Hb in Hdisp; [|done]. repeat apply andb_true_iff in Hb as [Hb ?].
  by repeat match goal with H : bool_decide _ = true |- _ => apply bool_decide_eq_true in H end.
Qed.

Lemma free_attempt db e aid : represents db e → db_attempts db !! aid = None →
  en_attempts e !! aid = None ∧ db_outputs db !! aid = None.
Proof.
  intros Hr Hfree. pose proof (rp_attempts _ _ _ _ _ Hr) as Hao. split; apply eq_None_not_Some.
  - intros [b Hb]. destruct (ao_row _ _ _ _ _ _ Hao aid b Hb) as (r & _ & [Hx _]%attempt_row_Some & _). congruence.
  - intros [? Hx]%(ao_outputs _ _ _ _ _ _ Hao). congruence.
Qed.

(** The row of a ready node, whose candidate is queued. *)
Lemma write_queued db e id n n' aid sq k key : inv e → represents db e → en_nodes e !! id = Some n → nr_state n = NodeReady →
  key = nid runID id → NodeRun_QueueAttempt n aid = Ok (n', (sq, k)) → nr_runID n' = runID →
  ∃ t, update_where (λ k r, bool_decide (k = key) && node_of_run projectID runID k r
      && bool_decide (nrr_State (rn_Record r) = NodeReady) && (nrr_StateVersion (rn_Record r) =? nr_stateVersion n))
      (dispatch_row n') (db_nodes db) = (t, 1%nat) ∧
    rows_of nid projectID runID (db <| db_nodes := t |>) (<[id := n']> (en_nodes e)) ∧
    ∀ k, node_row_of db projectID runID k = None → t !! k = db_nodes db !! k.
Proof.
  intros Hi Hr Hn Hst Hkey Hq Hrun'. pose proof (run_named e Hi) as Hnm. destruct (Hnm id n Hn) as [_ Hnrun].
  apply (write_node nid projectID runID db (en_nodes e) id n n'); [done|apply Hr|done|done|..].
  - by intros k' r [[[_ ?]%andb_true_iff _]%andb_true_iff _]%andb_true_iff.
  - intros r Hsr. rewrite (node_stored_in_run projectID runID n) by done. destruct Hsr as (_ & o & ->). cbn.
    by rewrite Hkey, Hst, Z.eqb_refl, !bool_decide_eq_true_2.
  - intros id' m r Hm Hsr [[[Hk%bool_decide_eq_true _]%andb_true_iff _]%andb_true_iff _]%andb_true_iff. rewrite Hkey in Hk.
    by eapply (nid_injective nid projectID runID db); [done|apply Hr|..].
  - intros r Hsr. by destruct (queue_stored n n' aid sq k r Hq Hsr) as (_ & _ & ?).
Qed.

Lemma queue_candidate_refines clock cmd row class trace db db' task e id n : inv e → version_inv e → represents db e →
  cd_ProjectID (dp_Candidate cmd) = projectID → wr_termination (en_run e) = None →
  en_nodes e !! id = Some n → node_stored projectID n row → cd_NodeRunID (dp_Candidate cmd) = nid runID id →
  nr_state n = NodeReady → nr_effectiveOutputs n = ∅ →
  queue_candidate clock cmd row class trace db = (db', Ok task) →
  ∃ e' a, QueueNode id (dp_AttemptID cmd) e = (e', Ok a) ∧ represents db' e' ∧ elsewhere db db' ∧
    db_tasks db' !! dp_TaskID cmd = Some (new_row (clock (db_ticks db)) task) ∧ tm_AttemptID task = dp_AttemptID cmd.
Proof.
  set (aid := dp_AttemptID cmd). intros Hi Hv Hr Hp Hterm Hn Hns Hkey Hst Hempty H.
  assert ((rn_Record row) <| nrr_EffectiveOutputs := ∅ |> = NodeRun_Snapshot n) as Hrec.
  { destruct Hns as (_ & o & ->). unfold NodeRun_Snapshot. cbn. by rewrite Hempty. }
  destruct (engine_node c command e id n Hi Hn) as (Hwf & _). destruct (run_named e Hi id n Hn) as [_ Hnrun].
  unfold queue_candidate in H. rewrite Hrec in H. tx_inv H.
  match goal with H : RestoreNodeRun _ = Ok ?x |- _ => rewrite RestoreNodeRun_Snapshot in H; [injection H as <-|done|pose proof (vi_node _ Hv id n Hn) as [? _]; lia] end.
  match goal with x : NodeRun * (Z * RetryKind) |- _ => destruct x as [n' [sq k]] end. tx_inv H.
  match goal with H : NodeRun_QueueAttempt _ _ = _ |- _ => rename H into Hq end.
  match goal with H : NewNodeAttempt _ _ _ _ = Ok ?x |- _ => rename H into Hna; rename x into att end.
  destruct (queue_stored n n' aid sq k row Hq Hns) as (Hn'r & Hn'e & _). rewrite Hnrun in Hn'r.
  set (arow := queued_row cmd n' (NodeAttempt_Snapshot att)) in *.
  match goal with H : insert_attempt _ _ _ = _ |- _ => unfold insert_attempt in H; destruct (db_attempts db !! _) as [|] eqn:Hfree; [done|]; injection H as <- _ end.
  destruct (free_attempt db e aid Hr Hfree) as [Hnone Hout].
  destruct (write_queued db e id n n' aid sq k _ Hi Hr Hn Hst Hkey Hq Hn'r) as (t & Hu & Hrows & Hframe).
  match goal with H : update_nodes _ _ _ = _ |- _ => unfold update_nodes in H; cbn [db_nodes] in H;
    change (nrr_StateVersion (NodeRun_Snapshot n)) with (nr_stateVersion n) in H;
    change (nrr_RunID (NodeRun_Snapshot n)) with (nr_runID n) in H; rewrite Hp, Hnrun in H;
    change (db_nodes (db <| db_attempts := _ |>)) with (db_nodes db) in H; rewrite Hu in H; injection H as <- _ end.
  match goal with H : insert_task _ _ _ = _ |- _ => unfold insert_task in H; tx_inv H; rename H into Htask end. rows_inv.
  match goal with H : insert_row _ _ _ _ = Ok ?x |- _ => unfold insert_row in H; destruct (_ !! tm_TaskID _) eqn:Htid in H; [done|]; injection H as <- end.
  injection Htask as <- _. unfold QueueNode. fold aid in Hq, Hna. rewrite Hterm, Hnone, Hn, Hq.
  assert (ExecutionIdempotencyKey n' = nrr_RunID (NodeRun_Snapshot n) +:+ ":" +:+ nrr_ExecutionNodeID (NodeRun_Snapshot n)) as ->.
  { unfold ExecutionIdempotencyKey. by rewrite Hn'r, Hn'e, <-Hnrun. }
  rewrite Hna. eexists _, att. split; [done|].
  assert (attempt_of_run projectID runID aid arow = true) as Hin by by apply attempt_in_run.
  unfold NewNodeAttempt in Hna. destruct (_ || _) eqn:Hbad in Hna; [done|]. injection Hna as <-. subst task. split_and!.
  - constructor; [apply Hr|by apply (rows_of_ext _ _ _ (db <| db_nodes := t |>))|]. cbn.
    apply (attempts_of_insert db _ _ (en_attemptNodes e) _ aid _ arow id); try done; [apply Hr|by rewrite lookup_insert_eq|].
    intros k' Hk'. by rewrite lookup_insert_ne.
  - apply (elsewhere_change db _ aid arow t (en_nodes e) (<[id := n']> (en_nodes e))); try done; [apply Hr|..].
    + intros k'. rewrite lookup_insert_is_Some'. by right.
    + intros old Hold. change (db_attempts db !! aid = None) in Hfree. congruence.
  - cbn. by rewrite lookup_insert_eq.
  - done.
Qed.

Lemma dispatch_refines clock router cmd db db' task e : inv e → output_inv e → version_inv e → represents db e →
  cd_ProjectID (dp_Candidate cmd) = projectID → cd_RunID (dp_Candidate cmd) = runID →
  DispatchReady clock router cmd db = (db', Ok task) →
  ∃ e' a, QueueNode (cd_ExecutionNodeID (dp_Candidate cmd)) (dp_AttemptID cmd) e = (e', Ok a) ∧
    represents db' e' ∧ elsewhere db db' ∧
    db_tasks db' !! dp_TaskID cmd = Some (new_row (clock (S (db_ticks db))) task) ∧ tm_AttemptID task = dp_AttemptID cmd.
Proof.
  intros Hi Ho Hv Hr Hp Hrid H. unfold DispatchReady in H. tx_inv H. rewrite transaction_Ok, Hp, Hrid in H. tx_inv H. rows_inv.
  match goal with H : node_row_of _ _ _ _ = Some ?x |- _ => rename x into row; rename H into Hrow end.
  match goal with H : candidate_stale _ _ _ _ = false |- _ => rename H into Hfresh end.
  set (db1 := db <| db_ticks := _ |>) in *. assert (represents db1 e) as Hr1 by by apply (represents_ext _ _ _ db).
  match goal with H : dispatchable_run _ _ _ _ = Some _ |- _ => pose proof (dispatchable_open db1 _ _ e Hr1 H) as Hterm end.
  destruct (row_of_node nid projectID runID db1 (en_nodes e) _ row (run_named e Hi) (rp_nodes _ _ _ _ _ Hr1) Hrow) as (n & Hn & Hns & Hkey).
  unfold candidate_stale in Hfresh. repeat apply orb_false_iff in Hfresh as [Hfresh ?].
  repeat match goal with H : negb (bool_decide _) = false |- _ => apply negb_false_iff, bool_decide_eq_true in H end.
  match goal with H : nrr_ExecutionNodeID (rn_Record row) = _ |- _ => rewrite H in Hn, Hkey end.
  assert (nr_state n = NodeReady) as Hst by (destruct Hns as (_ & o & Hrec); by rewrite Hrec in *).
  assert (nr_effectiveOutputs n = ∅) as Hempty by (destruct (oi_nodes _ Ho _ n Hn) as [?|[? _]]; congruence).
  eapply queue_candidate_refines in H as (e' & att & HQ & Hrep & Helse & Htask & Haid); try done.
  exists e', att. split_and!; try done. etrans; [|done]. by constructor.
Qed.

(** *** Cancellation *)

Lemma stamped_cancel trace cancel at_ r :
  (stamped trace cancel r) <| rr_CancelRequestedAt := at_ |> = stamped trace at_ r.
Proof. done. Qed.

(** A cancellation is a column of the run and an event; the engine learns of
    it when it consumes the event. *)
Lemma cancellation_refines clock record db db' run b e : represents db e →
  cr_ProjectID record = projectID → cr_RunID record = runID →
  RequestCancellation clock record db = (db', Ok (run, b)) →
  represents db' e ∧ elsewhere db db' ∧ run_row db' projectID runID = Some run ∧
  if b then rr_CancelRequestedAt run = truncate_us (cr_RequestedAt record) ∧
    db_outbox db' !! cr_EventID record = Some (new_row (clock (db_ticks db)) (cancel_event record (rr_CancelRequestedAt run)))
  else db' = db.
Proof.
  intros Hr Hp Hrid H. unfold RequestCancellation in H. rewrite transaction_Ok, Hp, Hrid in H.
  apply tx_bind_Ok in H as (w & old & Hold%loadRun_Ok & H). destruct Hold as [-> Hold].
  destruct (_ || _); tx_inv H; [injection H as -> ->; by split_and!|].
  match goal with H : tx_modify _ _ = _ |- _ => injection H as <- _ end.
  match goal with H : insertOutbox _ _ _ = _ |- _ => apply insertOutbox_Ok in H as (_ & _ & ->) end.
  match goal with H : loadRun _ _ _ = _ |- _ => apply loadRun_Ok in H as [-> Hnew] end. injection H as -> ->.
  destruct (rp_run _ _ _ _ _ Hr) as (tr & cn & Hrow). assert (old = stamped tr cn (WorkflowRun_Snapshot (en_run e))) as -> by congruence.
  rewrite stamped_cancel in *. pose proof Hold as [Hl Hpr]%run_row_Some.
  pose proof Hnew as [Hl' _]%run_row_Some. cbn in Hl'. rewrite lookup_insert_eq in Hl'. injection Hl' as <-.
  split_and!; [| |done|done|cbn; by rewrite lookup_insert_eq].
  - constructor; [by eauto|by apply (rows_of_ext _ _ _ db), Hr|by apply (attempts_of_ext _ _ _ db), Hr].
  - constructor; try done. apply untouched_insert; unfold run_of; [by rewrite !bool_decide_eq_true_2|].
    intros old Hx. assert (old = stamped tr cn (WorkflowRun_Snapshot (en_run e))) as -> by congruence. by rewrite !bool_decide_eq_true_2.
Qed.
End Engine.
End Rows.
