(* ===== verification/InitRefine.v ===== *)
(** * Runs that have not started

    A run begins as a row without Node Runs.  Its first event initializes it,
    which makes the rows of a new engine; a cancellation, the deadline or a
    document that cannot run ends it before. *)

From S2P Require Import Prelude Json Graph Dsl Branch Runtime Engine.
From S2P Require Import EngineSteps EngineInv EngineFacts EngineInit EngineProgress EngineLive EngineVersions EngineState.
From S2P Require Import Scheduling Eventing Consumer Store AttemptStore SchedulingStore StoreFacts StoreRefine AttemptRefine.

Open Scope string_scope.
Open Scope list_scope.
Open Scope Z_scope.

(** ** Statements *)

Lemma on_db_Ok {A} (m : tx DB A) t t' a : on_db m t = (t', Ok a) ↔
  ∃ db', m (rt_db t) = (db', Ok a) ∧ t' = MkRuntimeTx db' (rt_snapshot t).
Proof.
  unfold on_db. destruct (m (rt_db t)) as [d r]. split.
  - intros [= <- ->]. by exists d.
  - by intros (? & [= <- ->] & ->).
Qed.

Definition run_columns (row after : WorkflowRunRecord) : WorkflowRunRecord :=
  row <| rr_State := rr_State after |> <| rr_StateVersion := rr_StateVersion after |>
      <| rr_WorkflowOutput := rr_WorkflowOutput after |> <| rr_ExecutionNodeIDs := rr_ExecutionNodeIDs after |>
      <| rr_Termination := rr_Termination after |>.

Lemma updateRunCAS_Ok before after db db' u : updateRunCAS before after db = (db', Ok u) →
  ∃ row, run_row db (rr_ProjectID after) (rr_ID after) = Some row ∧
    db' = db <| db_runs := <[rr_ID after := run_columns row after]> (db_runs db) |>.
Proof.
  unfold updateRunCAS. intros H. destruct (run_row _ _ _) as [row|]; [|done]. destruct (_ && _); [|done].
  injection H as <-. by exists row.
Qed.

Lemma stamped_self r : stamped (rr_TraceID r) (rr_CancelRequestedAt r) r = r.
Proof. by destruct r. Qed.

Lemma run_columns_stamped row after : record_command row = record_command after →
  run_columns row after = stamped (rr_TraceID row) (rr_CancelRequestedAt row) after.
Proof. intros Hc. unfold run_columns. rewrite <-(stamped_update _ _ row after Hc). by rewrite stamped_self. Qed.

(** ** Ending a run that has not started *)

Lemma restored_command record run : RestoreWorkflowRun record = Ok run →
  record_command (WorkflowRun_Snapshot run) = record_command record.
Proof.
  unfold RestoreWorkflowRun. intros [_ H]%bind_guard. apply bind_Ok in H as (base & Hb & H).
  apply NewWorkflowRun_Ok in Hb as (-> & _). repeat (apply bind_guard in H as [_ H]).
  apply bind_Ok in H as (ids & _ & H). apply bind_Ok in H as (output & _ & H).
  repeat (apply bind_guard in H as [_ H]). injection H as <-. by destruct record.
Qed.

Lemma terminate_pending_Ok before kind at_ code message st : terminate_pending before kind at_ code message = Ok (Some st) →
  st_Nodes st = [] ∧ record_command (st_Run st) = record_command before ∧ RunState_Terminal (rr_State (st_Run st)) = true.
Proof.
  unfold terminate_pending. intros (run & Hr%restored_command & H)%bind_Ok. apply bind_Ok in H as ([run1 applied] & H1 & H).
  destruct applied; [|done]. apply bind_Ok in H as (run2 & H2 & [= <-]). cbn.
  apply RequestTermination_Ok in H1 as (_ & _ & _ & [(_ & ? & _)|(_ & _ & ->)]); [done|].
  apply CompleteTermination_Ok in H2 as (t & k & _ & Hk & _ & _ & ->). rewrite <-Hr. split_and!; try done. cbn.
  rewrite !elem_of_cons, elem_of_nil in Hk. naive_solver.
Qed.

(** ** A new engine has no attempts *)

Lemma New_no_attempts order c command snapshot compat e : New order snapshot command c compat = Ok e →
  en_attempts e = ∅ ∧ en_attemptNodes e = ∅.
Proof.
  unfold New. intros (e0 & Hb & H)%bind_Ok. destruct (Engine.initialize order e0) as [e1 r] eqn:Hinit.
  apply bind_Ok in H as ([] & _ & [= <-]).
  assert (keeps (Engine.initialize order)) as Hk by (pose proof (keeps_drive order); unfold Engine.initialize; keeps).
  specialize (Hk e0). rewrite Hinit in Hk. destruct Hk as [Ha Ho]. cbn in Ha, Ho.
  assert (en_attempts e0 = ∅ ∧ en_attemptNodes e0 = ∅) as [H1 H2].
  { unfold build in Hb. apply bind_guard in Hb as [_ Hb]. destruct (cloneDocument _) as [d|]; [|done].
    apply bind_Ok in Hb as ([] & _ & Hb). apply bind_Ok in Hb as ([] & _ & Hb). apply bind_Ok in Hb as (run & _ & Hb).
    apply bind_Ok in Hb as ([defs nodes] & _ & [= <-]). done. }
  split; congruence.
Qed.

Section Init.
Context (nid : string → string → string) (router : Coordinate → option string) (projectID runID : string).
Local Notation represents := (represents nid projectID runID).
Local Notation rows_of := (rows_of nid projectID runID).
Local Notation elsewhere := (elsewhere projectID runID).

(** No Node Runs and no attempts: pending, or ended before it started. *)
Record unstarted (db : DB) (row : WorkflowRunRecord) : Prop := {
  un_row : run_row db projectID runID = Some row;
  un_id : rr_ID row = runID;
  un_state : rr_State row = RunPending ∨ RunState_Terminal (rr_State row) = true;
  un_nodes : ∀ k, node_row_of db projectID runID k = None;
  un_attempts : ∀ aid, attempt_row db projectID runID aid = None;
  un_named : projectID ≠ "" ∧ runID ≠ "" }.

(** *** Inserting the Node Runs *)

Lemma rows_of_add db nodes id n row : rows_of db nodes → db_nodes db !! nid runID id = None → nodes !! id = None →
  nr_runID n = runID → node_stored projectID n row →
  rows_of (db <| db_nodes := <[nid runID id := row]> (db_nodes db) |>) (<[id := n]> nodes).
Proof.
  intros [H1 H2] Hfree Hid Hrun Hst. split.
  - intros k m. rewrite lookup_insert. case_decide as Hk.
    + intros [= <-]. subst k. exists row. split; [|done]. apply node_row_Some. cbn. rewrite lookup_insert_eq.
      split; [done|by eapply node_stored_in_run].
    + intros Hm. destruct (H1 k m Hm) as (r & [Hr Hin]%node_row_Some & Hs). exists r. split; [|done]. apply node_row_Some. cbn.
      split; [|done]. rewrite lookup_insert_ne; [done|]. congruence.
  - intros k r [Hr Hin]%node_row_Some. cbn in Hr. rewrite lookup_insert in Hr. case_decide as Hk.
    + exists id. split; [done|]. rewrite lookup_insert_eq. eauto.
    + destruct (H2 k r) as (id' & -> & Hid'); [by apply node_row_Some|]. exists id'. split; [done|].
      rewrite lookup_insert. case_decide; eauto.
Qed.

(** A node that has made no attempt, as it is inserted. *)
Definition fresh_attempts (n : NodeRun) : Prop :=
  nr_runID n = runID ∧ nr_currentAttemptID n = "" ∧ nr_effectiveAttemptID n = "".

Lemma insert_nodes_written definitions run at_ nodes' ids : rr_ID run = runID → rr_ProjectID run = projectID →
  (∀ id n, id ∈ ids → nodes' !! id = Some n → nr_executionNodeID n = id ∧ fresh_attempts n) →
  ∀ db db' nodes u, rows_of db nodes → NoDup ids → (∀ id, id ∈ ids → nodes !! id = None) →
  insert_nodes router nid definitions run at_ (omap (λ id, NodeRun_Snapshot <$> nodes' !! id) ids) db = (db', Ok u) →
  ∃ t, db' = db <| db_nodes := t |> ∧ rows_of db' (collect nodes' ids nodes) ∧
    untouched (node_of_run projectID runID) (db_nodes db) t.
Proof.
  intros Hr Hp. induction ids as [|id ids IH]; intros Hn db db' nodes u Hrows Hnd Hfresh H.
  { injection H as <- _. exists (db_nodes db). split_and!; [by destruct db|done|done]. }
  apply NoDup_cons in Hnd as [Hnin Hnd]. cbn [omap list_omap collect fold_left] in *.
  destruct (nodes' !! id) as [n|] eqn:Hl; cbn [fmap option_fmap option_map] in *.
  2:{ eapply IH; eauto; intros; [eapply Hn|eapply Hfresh]; [by right|done|by right]. }
  destruct (Hn id n) as (He & Hrun & Hcur & Heff); [by left|done|]. cbn [insert_nodes] in H.
  change (nrr_ExecutionNodeID (NodeRun_Snapshot n)) with (nr_executionNodeID n) in H. rewrite He in H.
  destruct (definitions !! id) as [definition|]; [|done]. tx_inv H.
  match goal with H : insert_node _ _ _ _ _ _ _ = _ |- _ => unfold insert_node in H; rewrite Hr in H;
    change (nrr_ExecutionNodeID (NodeRun_Snapshot n)) with (nr_executionNodeID n) in H; rewrite He in H;
    destruct (db_nodes db !! nid runID id) eqn:Hfree; [done|]; injection H as <- _ end.
  set (row := MkNodeRow _ _ _ _ _ _) in H.
  assert (node_stored projectID n row) as Hst.
  { split; [done|]. exists ∅. unfold row, initial_record, NodeRun_Snapshot. cbn. by rewrite Hr, Hrun, Hcur, Heff. }
  destruct (IH ltac:(intros; eapply Hn; [by right|done]) (db <| db_nodes := <[nid runID id := row]> (db_nodes db) |>) db' (<[id := n]> nodes) u)
    as (t & -> & Hrows' & Hun); try done.
  { apply rows_of_add; try done. apply Hfresh. by left. }
  { intros k Hk. rewrite lookup_insert_ne by (by intros ->). apply Hfresh. by right. }
  exists t. split_and!; [done|done|]. etrans; [|exact Hun]. apply untouched_insert; [by eapply node_stored_in_run|]. congruence.
Qed.

(** *** The initialization of a run *)

Context (c : Contract) {HC : EngineContract c} (command : CreateRunCommand).
Context (Hproject : cc_ProjectID command = projectID) (Hrun : cc_RunID command = runID).

Lemma new_engine_fresh e id n : engine_inv c command e → output_inv e → en_attempts e = ∅ → en_nodes e !! id = Some n →
  nr_executionNodeID n = id ∧ fresh_attempts n.
Proof.
  intros Hi Ho Hnone Hn. destruct (run_named runID c command Hrun e Hi id n Hn) as [He Hr].
  destruct (engine_node c command e id n Hi Hn) as (Hwf & _). split; [done|]. split; [done|].
  assert (nr_currentAttemptID n = "") as Hc.
  { destruct (decide (nr_currentAttemptID n = "")) as [?|Hne]; [done|].
    destruct (av_current _ (ev_attempts _ _ _ Hi) id n Hn Hne) as (a & Ha & _). by rewrite Hnone in Ha. }
  split; [done|]. pose proof (nwf_facts _ Hwf) as Hf. unfold node_state_facts in Hf.
  destruct (nwf_kind _ Hwf) as [Hk|Hk]; [by destruct (nwf_control _ Hwf Hk) as (_ & ? & _)|].
  destruct (nr_state n); try (by destruct_and? Hf); try done.
  destruct Hf as (_ & _ & _ & Hf). destruct (Hf Hk) as [_ ?]. congruence.
Qed.

Lemma initialize_written order snapshot db db' row e at_ definitions u :
  policies_ok (sn_DSL snapshot) → New order snapshot command c BuiltinV1Compatibility = Ok e →
  unstarted db row → record_command row = command → (∀ aid, is_Some (db_outputs db !! aid) → is_Some (db_attempts db !! aid)) →
  (insert_nodes router nid definitions (st_Run (SnapshotState e)) at_ (st_Nodes (SnapshotState e)) ;;
   updateRunCAS row (st_Run (SnapshotState e))) db = (db', Ok u) →
  represents db' e ∧ elsewhere db db'.
Proof.
  intros Hpol Hnew Hun Hc Hfk H. assert (engine_reachable order c command snapshot BuiltinV1Compatibility e) as Hr by by constructor.
  pose proof (reachable_outputs order c command snapshot _ e Hpol Hr) as Ho.
  destruct (reachable_rest order c command snapshot _ e Hpol Hr) as (Hi & _ & _).
  destruct (New_no_attempts _ _ _ _ _ _ Hnew) as [Hna Hno]. pose proof (snapshot_command c command e Hi) as Hce.
  assert (wr_id (en_run e) = runID) as Hwid by (rewrite <-Hce in Hrun; done).
  assert (wr_projectID (en_run e) = projectID) as Hwp by (rewrite <-Hce in Hproject; done).
  apply tx_bind_Ok in H as (w & [] & Hins & H). cbn [st_Run st_Nodes SnapshotState] in *.
  destruct (insert_nodes_written definitions (WorkflowRun_Snapshot (en_run e)) at_ (en_nodes e) (sortedNodeIDs e) Hwid Hwp) with (5 := Hins) (nodes := ∅ : gmap string NodeRun)
    as (t & -> & Hrows & Huntouched).
  { intros id n _ Hn. by eapply new_engine_fresh. }
  { split; [done|]. intros k r Hk. by rewrite (un_nodes _ _ Hun) in Hk. }
  { apply NoDup_sorted_keys. }
  { done. }
  unfold sortedNodeIDs in Hrows. rewrite collect_all in Hrows by (intros; apply elem_of_sorted_keys).
  apply updateRunCAS_Ok in H as (row' & Hrow' & ->). change (rr_ProjectID (WorkflowRun_Snapshot ?r)) with (wr_projectID r) in *.
  change (rr_ID (WorkflowRun_Snapshot ?r)) with (wr_id r) in *. rewrite Hwid, Hwp in *.
  change (run_row db projectID runID = Some row') in Hrow'. rewrite (un_row _ _ Hun) in Hrow'. injection Hrow' as <-.
  rewrite run_columns_stamped by congruence. pose proof (un_row _ _ Hun) as [Hl Hpr]%run_row_Some. split.
  - constructor.
    + eexists _, _. unfold run_row. cbn. by rewrite lookup_insert_eq, bool_decide_eq_true_2.
    + by apply (rows_of_ext _ _ _ (db <| db_nodes := t |>)).
    + rewrite Hna, Hno. constructor; [done| |done]. intros aid r Hx.
      change (attempt_row db projectID runID aid = Some r) in Hx. by rewrite (un_attempts _ _ Hun) in Hx.
  - constructor; try done. apply untouched_insert; unfold run_of; cbn; [by rewrite !bool_decide_eq_true_2|].
    intros old Hold. assert (old = row) as -> by congruence. by rewrite !bool_decide_eq_true_2.
Qed.
End Init.

(** ** Events of a run that has not started *)

Section Unstarted.
Context (nid : string → string → string) (router : Coordinate → option string) (clock : nat → Time).
Context (order : range_order) (ValidateSource : string → option (string * string)) (projectID runID : string).
Local Notation contract := (BuiltinV1Contract ValidateSource).
Local Notation unstarted := (unstarted projectID runID).
Local Notation elsewhere := (elsewhere projectID runID).
Local Instance contract_ok' : EngineContract contract := builtin_engine_contract ValidateSource.
Local Instance ops' : RunTransaction RuntimeTx := store_transaction clock router nid.

Lemma unstarted_ext db db' row : db_runs db' = db_runs db → db_nodes db' = db_nodes db → db_attempts db' = db_attempts db →
  unstarted db row → unstarted db' row.
Proof.
  intros Hr Hn Ha [H1 H2 H3 H4 H5]. constructor; unfold run_row, node_row_of, attempt_row in *; by rewrite ?Hr, ?Hn, ?Ha.
Qed.

(** The run was ended. *)
Lemma ended_unstarted db db' row after u : unstarted db row → record_command after = record_command row →
  RunState_Terminal (rr_State after) = true → updateRunCAS row after db = (db', Ok u) →
  unstarted db' (run_columns row after) ∧ elsewhere db db' ∧ db_outputs db' = db_outputs db.
Proof.
  intros [Hrow Hid _ Hn Ha] Hc Ht (row' & Hrow' & ->)%updateRunCAS_Ok. pose proof Hrow as [Hl Hp]%run_row_Some.
  assert (rr_ID after = runID ∧ rr_ProjectID after = projectID) as [Haid Hap].
  { split; [apply (f_equal cc_RunID) in Hc|apply (f_equal cc_ProjectID) in Hc]; cbn in Hc; congruence. }
  rewrite Haid, Hap in *. assert (row' = row) as -> by congruence. split_and!; [| |done].
  - constructor; try done; [|by right]. unfold run_row. cbn. rewrite lookup_insert_eq. by rewrite bool_decide_eq_true_2.
  - constructor; try done. apply untouched_insert; unfold run_of; cbn; [by rewrite Hp, !bool_decide_eq_true_2|].
    intros old Hold. assert (old = row) as -> by congruence. by rewrite !bool_decide_eq_true_2.
Qed.

(** What the event leaves behind: a run that has not started, or its engine. *)
Definition outcome_of (db : DB) (row : WorkflowRunRecord) : Prop :=
  (∃ row', unstarted db row') ∨
  ∃ snapshot e, db_snapshots db !! (projectID, dr_SnapshotID (cc_Definition (record_command row))) = Some snapshot ∧
    engine_reachable order contract (record_command row) snapshot BuiltinV1Compatibility e ∧ represents nid projectID runID db e.

Definition fk (db : DB) : Prop := ∀ aid, is_Some (db_outputs db !! aid) → is_Some (db_attempts db !! aid).

Lemma advance_pending_ends row r at_ t t' u :
  (∀ after, r = Ok (Some after) → st_Nodes after = [] ∧ record_command (st_Run after) = record_command row ∧
     RunState_Terminal (rr_State (st_Run after)) = true) →
  unstarted (rt_db t) row → advance_pending row r at_ t = (t', Ok u) →
  (∃ row', unstarted (rt_db t') row') ∧ elsewhere (rt_db t) (rt_db t').
Proof.
  intros Hr Hun H. unfold advance_pending in H. tx_inv H. match goal with H : r = Ok ?o |- _ => destruct o as [after|] end.
  2:{ tx_inv H. split; [by exists row|reflexivity]. }
  destruct (Hr after) as (Hnodes & Hc & Ht); [done|]. cbn in H. apply on_db_Ok in H as (db' & H & ->).
  unfold advance_run in H. rewrite Hnodes in H. tx_inv H.
  match goal with H : advance_nodes _ _ _ _ [] _ = _ |- _ => injection H as <- _ end. cbn [st_Run] in H.
  destruct (_ =? _); [tx_inv H; split; [by exists row|by constructor]|].
  destruct (ended_unstarted (rt_db t) db' row (st_Run after) u Hun Hc Ht) as (? & ? & _); [|by eauto]. by destruct (rt_db t).
Qed.

Lemma pending_deadline_ends row now t t' u : unstarted (rt_db t) row → advancePendingDeadline row now t = (t', Ok u) →
  (∃ row', unstarted (rt_db t') row') ∧ elsewhere (rt_db t) (rt_db t').
Proof. intros Hun H. eapply advance_pending_ends; [|done..]. intros after. apply terminate_pending_Ok. Qed.

Lemma pending_cancellation_ends event row t t' u : unstarted (rt_db t) row →
  advancePendingCancellation event row t = (t', Ok u) → (∃ row', unstarted (rt_db t') row') ∧ elsewhere (rt_db t) (rt_db t').
Proof. intros Hun H. eapply advance_pending_ends; [|done..]. intros after. apply terminate_pending_Ok. Qed.

Lemma fail_initialization_ends event row err t t' u : unstarted (rt_db t) row →
  fail_initialization event row err t = (t', Ok u) → (∃ row', unstarted (rt_db t') row') ∧ elsewhere (rt_db t) (rt_db t').
Proof.
  intros Hun H. unfold fail_initialization in H. tx_inv H. cbn in H. apply on_db_Ok in H as (db' & H & ->).
  match goal with H : RestoreWorkflowRun _ = Ok ?x, H' : WorkflowRun_FailInitialization ?x _ _ = Ok ?y |- _ =>
    apply restored_command in H; unfold WorkflowRun_FailInitialization in H'; apply bind_guard in H' as [_ [= <-]] end.
  eapply ended_unstarted in H as (? & ? & _); [by eauto|done|done|done].
Qed.
Lemma outcome_ext db db' row : db_runs db' = db_runs db → db_nodes db' = db_nodes db → db_attempts db' = db_attempts db →
  db_outputs db' = db_outputs db → db_snapshots db' = db_snapshots db → outcome_of db row → outcome_of db' row.
Proof.
  intros Hr Hn Ha Ho Hs [[row' H]|(snapshot & e & H1 & H2 & H3)]; [left; exists row'; by eapply unstarted_ext|right].
  exists snapshot, e. rewrite Hs. split_and!; [done|done|by eapply represents_ext].
Qed.

Lemma initialize_outcome event db db' row s u : unstarted db row → fk db →
  (∀ k snapshot, db_snapshots db !! k = Some snapshot → policies_ok (sn_DSL snapshot)) →
  ev_ProjectID event = projectID → ev_RunID event = runID →
  Consumer.initialize order ValidateSource event (MkRuntimeTx db s) = (db', Ok u) →
  outcome_of (rt_db db') row ∧ elsewhere db (rt_db db').
Proof.
  intros Hun Hfk Hpol Hp Hid H. unfold initialize in H. rewrite Hp, Hid in H.
  apply tx_bind_Ok in H as (w & r & Hload & H). cbn in Hload. apply on_db_Ok in Hload as (d & [-> Hrow]%loadRun_Ok & ->).
  assert (r = row) as -> by (pose proof (un_row _ _ _ _ Hun) as Hx; cbn in Hrow; congruence). cbn [rt_db rt_snapshot] in H.
  destruct (negb _); [tx_inv H; split; [left; by exists row|reflexivity]|].
  apply tx_bind_Ok in H as (w & now & Hnow & H). injection Hnow as <- <-. cbn [rt_db rt_snapshot] in H.
  set (db1 := db <| db_ticks := _ |>) in H. assert (unstarted db1 row) as Hun1 by by apply (unstarted_ext db).
  assert (elsewhere db db1) as He1 by by constructor.
  destruct (cancelWinsDeadline row).
  { apply pending_cancellation_ends in H as [? ?]; [|done]. split; [by left|by etrans]. }
  destruct (negb _).
  { apply pending_deadline_ends in H as [? ?]; [|done]. split; [by left|by etrans]. }
  apply tx_bind_Ok in H as (w & snapshot & Hsnap & H). cbn in Hsnap. apply tx_bind_Ok in Hsnap as (w1 & snap & Hload & Hset).
  apply on_db_Ok in Hload as (d & Hload & ->). unfold load_snapshot in Hload. tx_inv Hload. injection Hset as <- <-.
  apply or_err_Ok in Hload as Hsnap. cbn [rt_db rt_snapshot] in *.
  unfold NewBuiltinV1 in H. destruct (New order snap (record_command row) contract BuiltinV1Compatibility) as [e|err] eqn:Hnew.
  - cbn in H. apply on_db_Ok in H as (d & H & ->). cbn [rt_db].
    assert (cc_ProjectID (record_command row) = projectID) as Hcp by (pose proof (un_row _ _ _ _ Hun) as [_ ?]%run_row_Some; done).
    assert (cc_RunID (record_command row) = runID) as Hcr by apply (un_id _ _ _ _ Hun).
    pose proof (Hpol _ _ Hsnap) as Hpo.
    destruct (initialize_written nid router projectID runID contract (record_command row) Hcp Hcr order snap db1 d row e
      (ev_OccurredAt event) (definitions_of snap) u Hpo Hnew Hun1 eq_refl Hfk H) as [Hrep He].
    split; [right|by etrans]. exists snap, e. split_and!; [|by constructor|done].
    by rewrite (el_snapshots _ _ _ _ He).
  - apply fail_initialization_ends in H as [? ?]; [|done]. split; [by left|]. by etrans.
Qed.

Lemma advance_outcome event db db' row s u : unstarted db row → ev_ProjectID event = projectID → ev_RunID event = runID →
  advance order ValidateSource event (MkRuntimeTx db s) = (db', Ok u) →
  outcome_of (rt_db db') row ∧ elsewhere db (rt_db db').
Proof.
  intros Hun Hp Hid H. unfold advance in H. rewrite Hp, Hid in H.
  apply tx_bind_Ok in H as (w & st & Hload & H). cbn in Hload. apply on_db_Ok in Hload as (d & Hload & ->).
  unfold load_engine_state in Hload. apply tx_bind_Ok in Hload as (w & r & [-> Hrow]%loadRun_Ok & Hload). tx_inv Hload.
  assert (r = row) as -> by (pose proof (un_row _ _ _ _ Hun) as Hx; cbn in Hrow; congruence). subst st. cbn [st_Run rt_db rt_snapshot] in H.
  destruct (RunState_Terminal (rr_State row)) eqn:Ht; [tx_inv H; split; [left; by exists row|reflexivity]|].
  destruct (un_state _ _ _ _ Hun) as [Hpend|?]; [|congruence]. rewrite bool_decide_eq_true_2 in H by done.
  unfold advance_waiting in H. apply tx_bind_Ok in H as (w & now & Hnow & H). injection Hnow as <- <-. cbn [rt_db rt_snapshot] in H.
  set (db1 := db <| db_ticks := _ |>) in H. assert (unstarted db1 row) as Hun1 by by apply (unstarted_ext db).
  assert (elsewhere db db1) as He1 by by constructor.
  destruct (cancelWinsDeadline row).
  { apply pending_cancellation_ends in H as [? ?]; [|done]. split; [by left|by etrans]. }
  destruct (negb _).
  { apply pending_deadline_ends in H as [? ?]; [|done]. split; [by left|by etrans]. }
  destruct (_ && _); [tx_inv H; split; [left; by exists row|done]|].
  apply pending_cancellation_ends in H as [? ?]; [|done]. split; [by left|by etrans].
Qed.

Lemma consume_unstarted event db db' row u : unstarted db row → fk db →
  (∀ k snapshot, db_snapshots db !! k = Some snapshot → policies_ok (sn_DSL snapshot)) →
  ev_ProjectID event = projectID → ev_RunID event = runID →
  Consume (D := DB) order ValidateSource event db = (db', Ok u) → outcome_of db' row ∧ elsewhere db db'.
Proof.
  intros Hun Hfk Hpol Hp Hid H. unfold Consume in H. tx_inv H. cbn [WithRunTransaction store_manager] in H.
  rewrite transaction_Ok in H. destruct (handle _ _ _ _) as [t r] eqn:Hh. injection H as <- ->.
  unfold handle in Hh. apply tx_bind_Ok in Hh as (w & accepted & Hin & Hh). cbn in Hin. apply on_db_Ok in Hin as (d & Hin & ->).
  assert (∃ box, d = db <| db_inbox := box |>) as [box ->].
  { unfold accept_inbox in Hin. case_bool_decide; injection Hin as <- _; [exists (db_inbox db); by destruct db|eauto]. }
  set (db1 := db <| db_inbox := box |>) in *. assert (unstarted db1 row) as Hun1 by by apply (unstarted_ext db).
  assert (elsewhere db db1) as He1 by by constructor. cbn [rt_snapshot] in Hh.
  destruct (negb accepted); [tx_inv Hh; split; [left; by exists row|done]|].
  assert (outcome_of (rt_db t) row ∧ elsewhere db1 (rt_db t)) as [? ?]; [|split; [done|by etrans]].
  destruct (ev_EventType event); try done; try exact (advance_outcome event db1 t row None u Hun1 Hp Hid Hh).
  exact (initialize_outcome event db1 t row None u Hun1 Hfk Hpol Hp Hid Hh).
Qed.
End Unstarted.
