(* ===== verification/StoreSound.v ===== *)
(** * The store under every sequence of calls

    [StoreCall]: the operations that write the tables of a run, as their
    callers reach them: run control, the event consumer, the scheduler's
    dispatch, the attempt coordinator and the recovery emitter.  [sound]: every run row is a run
    that has not started or stands for a reachable engine, and no Node Run or
    Attempt is without its run.  Every call keeps a store sound, whatever it
    answers, so the theorems about reachable engines hold of what is stored. *)

From S2P Require Import Prelude Json Graph Dsl Branch Runtime Engine.
From S2P Require Import EngineSteps EngineInv EngineFacts EngineInit EngineProgress EngineLive EngineVersions EngineState.
From S2P Require Import Scheduling Eventing Consumer Store RunControl AttemptStore SchedulingStore Recovery.
From S2P Require Import StoreFacts StoreRefine AttemptRefine InitRefine.

Open Scope string_scope.
Open Scope list_scope.
Open Scope Z_scope.

(** ** The tables an event touches

    Any relation that the runs, the Node Runs, the inbox and the passing of
    time do not matter to is kept by the consumer. *)

Section Touched.
Context (clock : nat → Time) (router : Coordinate → option string) (nid : string → string → string).
Context (order : range_order) (ValidateSource : string → option (string * string)).
Context (R : DB → DB → Prop) `{!PreOrder R}.
Context (Rruns : ∀ before after, respects R (updateRunCAS before after)) (Rnodes : ∀ db t, R db (db <| db_nodes := t |>))
  (Rinbox : ∀ consumer event, respects R (accept_inbox consumer event)) (Rclock : respects R (clock_timestamp clock))
  (Rabort : ∀ db d, R db d → R db (db <| db_ticks := db_ticks d |>)).
Let RT (t t' : RuntimeTx) : Prop := R (rt_db t) (rt_db t').
#[local] Instance RT_preorder : PreOrder RT.
Proof using PreOrder0. split; [by intros t; unfold RT|]. intros t1 t2 t3 H1 H2. unfold RT in *. by etrans. Qed.
#[local] Instance touched_ops : RunTransaction RuntimeTx := store_transaction clock router nid.

Lemma respects_on_db {A} (m : tx DB A) : respects R m → respects RT (on_db m).
Proof using. intros H t. specialize (H (rt_db t)). unfold on_db. by destruct (m (rt_db t)). Qed.

Lemma respects_advance_node p r previous node at_ : respects R (advance_node p r previous node at_).
Proof using PreOrder0 Rnodes.
  intros db. unfold advance_node. destruct (update_where _ _ _) as [t n]. destruct (bool_decide (n = 1%nat)); [apply Rnodes|done].
Qed.

Lemma respects_insert_node run node definition class at_ : respects R (insert_node nid run node definition class at_).
Proof using PreOrder0 Rnodes. intros db. unfold insert_node. destruct (db_nodes db !! _); [done|apply Rnodes]. Qed.

#[local] Hint Resolve respects_on_db Rclock Rruns respects_advance_node respects_insert_node Rinbox : respects.

Lemma respects_advance_nodes before p r at_ nodes : respects R (advance_nodes before p r at_ nodes).
Proof using PreOrder0 Rnodes. induction nodes; cbn [advance_nodes]; respects. Qed.

Lemma respects_insert_nodes definitions run at_ nodes : respects R (insert_nodes router nid definitions run at_ nodes).
Proof using PreOrder0 Rnodes. induction nodes; cbn [insert_nodes]; respects. Qed.
#[local] Hint Resolve respects_advance_nodes respects_insert_nodes : respects.

Lemma respects_load_run p r : respects R (loadRun p r).
Proof using PreOrder0. unfold loadRun. respects. Qed.
Lemma respects_load_snapshot p r : respects R (load_snapshot p r).
Proof using PreOrder0. unfold load_snapshot. respects. Qed.
#[local] Hint Resolve respects_load_run respects_load_snapshot : respects.

Lemma respects_load_state p r : respects R (load_engine_state p r).
Proof using PreOrder0. unfold load_engine_state. respects. Qed.
Lemma respects_advance_run before after at_ : respects R (advance_run before after at_).
Proof using PreOrder0 Rruns Rnodes. unfold advance_run. respects. Qed.
#[local] Hint Resolve respects_load_state respects_advance_run : respects.

Lemma respects_LoadSnapshot p r : respects RT (LoadSnapshot p r).
Proof using PreOrder0. cbn. respects.
  intros t. unfold RT. cbn. reflexivity.
Qed.
Lemma respects_InitializeRun before after at_ : respects RT (InitializeRun before after at_).
Proof using PreOrder0 Rruns Rnodes.
  intros t. cbn. destruct (rt_snapshot t) as [snapshot|]; [|by unfold RT].
  apply (respects_on_db (insert_nodes _ _ _ _ _ _ ;; updateRunCAS _ _)). respects.
Qed.
#[local] Hint Resolve respects_LoadSnapshot respects_InitializeRun : respects.

Lemma respects_AdvanceRun before after at_ : respects RT (AdvanceRun before after at_).
Proof using PreOrder0 Rruns Rnodes. cbn. respects. Qed.
Lemma respects_AuthorityNow : respects RT AuthorityNow.
Proof using Rclock. cbn. respects. Qed.
#[local] Hint Resolve respects_AdvanceRun respects_AuthorityNow : respects.

Lemma respects_pending before after at_ : respects RT (advance_pending before after at_).
Proof using PreOrder0 Rruns Rnodes. unfold advance_pending. respects. Qed.
#[local] Hint Resolve respects_pending : respects.

Lemma respects_handle event : respects RT (handle order ValidateSource event).
Proof using PreOrder0 Rruns Rnodes Rinbox Rclock.
  unfold handle, initialize, advance, advance_waiting, advance_started, fail_initialization, advancePendingCancellation,
    advancePendingDeadline. cbn [AcceptInbox LoadRun LoadEngineState FailRunInitialization touched_ops store_transaction]. respects.
Qed.

Lemma respects_consume event : respects R (Consume (D := DB) order ValidateSource event).
Proof using PreOrder0 Rruns Rnodes Rinbox Rclock Rabort.
  unfold Consume. respects. intros db. cbn [WithRunTransaction store_manager]. unfold transaction.
  pose proof (respects_handle event (MkRuntimeTx db None)) as Hh. unfold RT in Hh. cbn [rt_db] in Hh.
  destruct (handle _ _ _ _) as [t [u|x]]; [done|by apply Rabort].
Qed.
End Touched.

(** What the emission of a wake-up touches. *)
Section Emission.
Context (clock : nat → Time) (R : DB → DB → Prop) `{!PreOrder R}.
Context (Routbox : ∀ db t, R db (db <| db_outbox := t |>))
  (Rupsert : ∀ emission, 0 ≤ we_Cooldown emission → respects R (upsert_wakeup clock emission))
  (Rclock : respects R (clock_timestamp clock)) (Rabort : ∀ db d, R db d → R db (db <| db_ticks := db_ticks d |>)).

Lemma respects_transaction {A} (m : tx DB A) : respects R m → respects R (transaction m).
Proof using Rabort. intros H db. specialize (H db). unfold transaction. destruct (m db) as [d [a|x]]; [done|by apply Rabort]. Qed.

Lemma respects_set_outbox t : respects R (tx_modify (λ db, db <| db_outbox := t |>)).
Proof using Routbox. intros db. apply Routbox. Qed.
#[local] Hint Resolve Rclock respects_set_outbox : respects.

Lemma respects_insert_outbox event : respects R (insertOutbox clock event).
Proof using PreOrder0 Routbox Rclock. unfold insertOutbox. respects. Qed.
Lemma respects_actionable wakeup : respects R (wakeupStillActionable clock wakeup).
Proof using PreOrder0 Rclock. unfold wakeupStillActionable. respects. Qed.
#[local] Hint Resolve respects_insert_outbox respects_actionable : respects.

Lemma respects_emit emission : respects R (EmitWakeup clock emission).
Proof using PreOrder0 Routbox Rupsert Rclock Rabort.
  unfold EmitWakeup. intros db. unfold mbind, tx_bind at 1, tx_lift. destruct (emission_checks emission) as [u|x] eqn:Hc; [|done].
  assert (0 ≤ we_Cooldown emission) as Hcool.
  { unfold emission_checks in Hc. destruct (Wakeup_Validate _); [|done]. apply guard_Ok in Hc. by bool_prop. }
  revert db. apply respects_transaction. pose proof (Rupsert emission Hcool). respects.
Qed.
End Emission.

Section Sound.
Context (clock : nat → Time) (router : Coordinate → option string) (nid : string → string → string) (jsonb : string → string).
Context (order : range_order) (ValidateSource : string → option (string * string)).
Local Notation contract := (BuiltinV1Contract ValidateSource).
Local Notation reachable := (engine_reachable order contract).
Local Instance contract_ok'' : EngineContract contract := builtin_engine_contract ValidateSource.

(** The run of a row. *)
Definition run_sound (db : DB) (projectID runID : string) : Prop :=
  (∃ row, unstarted projectID runID db row) ∨
  ∃ command snapshot e, cc_ProjectID command = projectID ∧ cc_RunID command = runID ∧
    db_snapshots db !! (projectID, dr_SnapshotID (cc_Definition command)) = Some snapshot ∧
    reachable command snapshot BuiltinV1Compatibility e ∧ represents nid projectID runID db e.

Record sound (db : DB) : Prop := {
  so_run : ∀ runID row, db_runs db !! runID = Some row → run_sound db (rr_ProjectID row) runID;
  so_node : ∀ k row, db_nodes db !! k = Some row → is_Some (run_row db (rn_ProjectID row) (nrr_RunID (rn_Record row)));
  so_attempt : ∀ aid row, db_attempts db !! aid = Some row → is_Some (run_row db (ra_ProjectID row) (ra_RunID row));
  so_output : ∀ aid, is_Some (db_outputs db !! aid) → is_Some (db_attempts db !! aid);
  so_snapshot : ∀ k snapshot, db_snapshots db !! k = Some snapshot → policies_ok (sn_DSL snapshot) }.

Record same_rows (db db' : DB) : Prop := {
  sr_runs : db_runs db' = db_runs db;
  sr_nodes : db_nodes db' = db_nodes db;
  sr_attempts : db_attempts db' = db_attempts db;
  sr_outputs : db_outputs db' = db_outputs db;
  sr_snapshots : db_snapshots db' = db_snapshots db }.

Lemma run_row_is_Some db p r : is_Some (run_row db p r) ↔ ∃ row, db_runs db !! r = Some row ∧ rr_ProjectID row = p.
Proof.
  split.
  - intros [row [? ?]%run_row_Some]. by exists row.
  - intros (row & Hr & Hp). unfold run_row. by rewrite Hr, bool_decide_eq_true_2.
Qed.

(** ** What a call on one run may do *)

Lemma run_sound_row db p r : run_sound db p r → is_Some (run_row db p r).
Proof. intros [[row H]|(command & snapshot & e & _ & _ & _ & _ & [(tr & cn & H) _ _])]; [exists row; apply H|by eexists]. Qed.

Lemma run_sound_same db db' p r : same_rows db db' → run_sound db p r → run_sound db' p r.
Proof.
  intros [Hr Hn Ha Ho Hs] [[row H]|(command & snapshot & e & Hp & Hid & Hsnap & Hre & Hrep)].
  - left. exists row. by eapply unstarted_ext.
  - right. exists command, snapshot, e. rewrite Hs. split_and!; [done..|]. by eapply represents_ext.
Qed.

Lemma sound_same db db' : same_rows db db' → sound db → sound db'.
Proof.
  intros Hsame [H1 H2 H3 H4 H5]. pose proof Hsame as [Hr Hn Ha Ho Hs]. constructor; unfold run_row in *.
  - intros r row. rewrite Hr. intros H. by eapply run_sound_same, H1.
  - intros k row. rewrite Hn, Hr. apply H2.
  - intros aid row. rewrite Ha, Hr. apply H3.
  - intros aid. rewrite Ho, Ha. apply H4.
  - intros k s. rewrite Hs. apply H5.
Qed.

(** A store without runs. *)
Lemma sound_empty db : db_runs db = ∅ → db_nodes db = ∅ → db_attempts db = ∅ → db_outputs db = ∅ →
  (∀ k snapshot, db_snapshots db !! k = Some snapshot → policies_ok (sn_DSL snapshot)) → sound db.
Proof.
  intros Hr Hn Ha Ho Hs. constructor; [by rewrite Hr|by rewrite Hn|by rewrite Ha| |done].
  intros aid. rewrite Ho, lookup_empty. by intros [].
Qed.

(** The rows of another run. *)
Section Frame.
Context (db db' : DB) (p r p' r' : string) (Helse : elsewhere p r db db') (Hne : r' ≠ r).

Lemma frame_run : run_row db' p' r' = run_row db p' r'.
Proof using Helse Hne.
  destruct Helse as [Hr _ _ _ _]. assert (∀ row, run_of p r r' row = false) as Hof.
  { intros row. unfold run_of. by rewrite (bool_decide_eq_false_2 (r' = r)), andb_false_r. }
  unfold run_row. destruct (db_runs db' !! r') as [row|] eqn:H'; [apply (Hr _ _ (Hof row)) in H'; by rewrite H'|].
  destruct (db_runs db !! r') as [row|] eqn:H; [apply (Hr _ _ (Hof row)) in H; congruence|done].
Qed.

Lemma frame_row {A} (P P' : string → A → bool) (t t' : gmap string A) k : untouched P t t' →
  (∀ row, P' k row = true → P k row = false) →
  ∀ row, t' !! k = Some row ∧ P' k row = true ↔ t !! k = Some row ∧ P' k row = true.
Proof using. intros Hu HP row. split; intros [Hk H]; (split; [|done]); apply (Hu k row (HP row H)), Hk. Qed.

Lemma frame_node k row : node_row_of db' p' r' k = Some row ↔ node_row_of db p' r' k = Some row.
Proof using Helse Hne.
  rewrite !node_row_Some. apply (frame_row (node_of_run p r)); [by destruct Helse|].
  intros row'. unfold node_of_run. rewrite andb_true_iff, !bool_decide_eq_true. intros [_ ->].
  by rewrite (bool_decide_eq_false_2 (r' = r)), andb_false_r.
Qed.

Lemma frame_attempt aid row : attempt_row db' p' r' aid = Some row ↔ attempt_row db p' r' aid = Some row.
Proof using Helse Hne.
  rewrite !attempt_row_Some. apply (frame_row (attempt_of_run p r)); [by destruct Helse|].
  intros row'. unfold attempt_of_run. rewrite andb_true_iff, !bool_decide_eq_true. intros [_ ->].
  by rewrite (bool_decide_eq_false_2 (r' = r)), andb_false_r.
Qed.

Lemma frame_output aid row : attempt_row db p' r' aid = Some row → db_outputs db' !! aid = db_outputs db !! aid.
Proof using Helse Hne.
  intros [Ha Hin]%attempt_row_Some. apply (el_outputs _ _ _ _ Helse aid row Ha).
  unfold attempt_of_run in *. apply andb_true_iff in Hin as [_ ->%bool_decide_eq_true].
  by rewrite (bool_decide_eq_false_2 (r' = r)), andb_false_r.
Qed.

Lemma frame_represents e : (∀ aid, is_Some (db_outputs db' !! aid) → is_Some (db_attempts db' !! aid)) →
  represents nid p' r' db e → represents nid p' r' db' e.
Proof using Helse Hne.
  intros Hfk [H1 [H2 H3] [H4 H5 H6]]. constructor; [by rewrite frame_run|constructor|constructor; [| |done]].
  - intros id n Hn. destruct (H2 id n Hn) as (row & Hrow & Hst). exists row. by rewrite frame_node.
  - intros k row. rewrite frame_node. apply H3.
  - intros aid a Ha. destruct (H4 aid a Ha) as (row & id & Hrow & Ho & [? ? ? ? ? Hres Hop]).
    exists row, id. rewrite frame_attempt. split_and!; [done..|]. pose proof (frame_output aid row Hrow) as Hout.
    constructor; try done; unfold load_result in *; by rewrite Hout.
  - intros aid row. rewrite frame_attempt. apply H5.
Qed.

Lemma frame_unstarted row : unstarted p' r' db row → unstarted p' r' db' row.
Proof using Helse Hne.
  intros [H1 H2 H3 H4 H5 H6]. constructor; [by rewrite frame_run|done|done|..|done].
  - intros k. destruct (node_row_of db' p' r' k) as [x|] eqn:H; [|done]. apply frame_node in H. congruence.
  - intros k. destruct (attempt_row db' p' r' k) as [x|] eqn:H; [|done]. apply frame_attempt in H. congruence.
Qed.
End Frame.

(** A call that leaves its own run sound, and the others alone. *)
Lemma sound_change p r db db' : sound db → is_Some (run_row db p r) → elsewhere p r db db' → run_sound db' p r →
  (∀ aid, is_Some (db_outputs db' !! aid) → is_Some (db_attempts db' !! aid)) → sound db'.
Proof.
  intros [H1 H2 H3 H4 H5] Hrow Helse Hrun Hfk.
  assert (∀ p' r', is_Some (run_row db p' r') → is_Some (run_row db' p' r')) as Hrows.
  { intros p' r' Hr. destruct (decide (r' = r)) as [->|Hne]; [|by rewrite (frame_run db db' p r)].
    assert (p' = p) as ->; [|by apply run_sound_row].
    apply run_row_is_Some in Hrow as (row & ? & <-), Hr as (row' & ? & <-). congruence. }
  constructor; [| | |done|].
  - intros r' row Hr. destruct (decide (r' = r)) as [->|Hne].
    { assert (rr_ProjectID row = p) as -> by (apply run_sound_row in Hrun as (x & [? <-]%run_row_Some); congruence). done. }
    assert (run_row db (rr_ProjectID row) r' = Some row) as Hr'.
    { rewrite <-(frame_run db db' p r) by done. unfold run_row. rewrite Hr. by rewrite bool_decide_eq_true_2. }
    apply run_row_Some in Hr' as [Hr' _]. destruct (H1 _ _ Hr') as [[x Hx]|(command & snapshot & e & Hp & Hid & Hs & Hre & Hrep)].
    + left. exists x. by eapply frame_unstarted.
    + right. exists command, snapshot, e. split_and!; try done; [by rewrite (el_snapshots _ _ _ _ Helse)|by eapply frame_represents].
  - intros k row Hk. destruct (node_of_run p r k row) eqn:Hin.
    + unfold node_of_run in Hin. apply andb_true_iff in Hin as [->%bool_decide_eq_true ->%bool_decide_eq_true]. by apply Hrows.
    + apply Hrows, (H2 k). by apply (el_nodes _ _ _ _ Helse).
  - intros aid row Hk. destruct (attempt_of_run p r aid row) eqn:Hin.
    + apply attempt_in_run_inv in Hin as [-> ->]. by apply Hrows.
    + apply Hrows, (H3 aid). by apply (el_attempts _ _ _ _ Helse).
  - rewrite (el_snapshots _ _ _ _ Helse). apply H5.
Qed.

(** ** Runs that have started *)

(** An engine of the run, with the facts about it. *)
Record at_engine (db : DB) (p r : string) (command : CreateRunCommand) (snapshot : Snapshot) (e : Engine) : Prop := {
  ae_project : cc_ProjectID command = p;
  ae_run : cc_RunID command = r;
  ae_snapshot : db_snapshots db !! (p, dr_SnapshotID (cc_Definition command)) = Some snapshot;
  ae_policies : policies_ok (sn_DSL snapshot);
  ae_reachable : reachable command snapshot BuiltinV1Compatibility e;
  ae_inv : engine_inv contract command e;
  ae_output : output_inv e;
  ae_version : version_inv e;
  ae_represents : represents nid p r db e }.

Lemma sound_cases db p r : sound db → is_Some (run_row db p r) →
  (∃ row, unstarted p r db row) ∨ ∃ command snapshot e, at_engine db p r command snapshot e.
Proof.
  intros Hs (row & Hr & <-)%run_row_is_Some.
  destruct (so_run _ Hs r row Hr) as [?|(command & snapshot & e & Hp & Hid & Hsnap & Hre & Hrep)]; [by left|right].
  pose proof (so_snapshot _ Hs _ _ Hsnap) as Hpol. exists command, snapshot, e. constructor; try done.
  - by apply (reachable_inv order contract command snapshot BuiltinV1Compatibility).
  - by apply (reachable_outputs order contract command snapshot BuiltinV1Compatibility).
  - by apply (reachable_versions order contract command snapshot BuiltinV1Compatibility).
Qed.

Lemma attempt_engine db p r aid row : sound db → attempt_row db p r aid = Some row →
  ∃ command snapshot e, at_engine db p r command snapshot e.
Proof.
  intros Hs Hrow. pose proof Hrow as [Ha Hin]%attempt_row_Some. apply attempt_in_run_inv in Hin as [Hp Hr].
  pose proof (so_attempt _ Hs aid row Ha) as Hrun. rewrite Hp, Hr in Hrun.
  destruct (sound_cases db p r Hs Hrun) as [[x Hx]|?]; [|done]. by rewrite (un_attempts _ _ _ _ Hx) in Hrow.
Qed.

(** The engine takes a step, or none. *)
Lemma sound_step db db' p r command snapshot e e' : sound db → at_engine db p r command snapshot e →
  represents nid p r db' e' → elsewhere p r db db' → e' = e ∨ (∃ op, e' = (engine_apply order op e).1) → sound db'.
Proof.
  intros Hs [Hp Hr Hsn _ Hre _ _ _ Hrep] Hrep' Helse Hstep. apply (sound_change p r db); try done.
  - destruct (rp_run _ _ _ _ _ Hrep) as (tr & cn & H). by rewrite H.
  - right. exists command, snapshot, e'. rewrite (el_snapshots _ _ _ _ Helse). split_and!; try done.
    destruct Hstep as [->|[op ->]]; [done|by constructor].
  - apply Hrep'.
Qed.

(** A failed transaction. *)
Lemma transaction_same {A} (m : tx DB A) db db' x : transaction m db = (db', Err x) → same_rows db db'.
Proof. intros ->%transaction_Err. by constructor. Qed.

Lemma same_rows_refl db : same_rows db db.
Proof. by constructor. Qed.
Hint Resolve same_rows_refl : core.

#[local] Instance same_rows_preorder : PreOrder same_rows.
Proof. split; [done|]. intros d1 d2 d3 [? ? ? ? ?] [? ? ? ? ?]. constructor; congruence. Qed.

Lemma emit_sound emission db : sound db → sound (EmitWakeup clock emission db).1.
Proof.
  apply sound_same. apply (respects_emit clock same_rows); try done. intros x _ d. unfold upsert_wakeup, mbind, tx_bind, clock_timestamp, tx_get.
  destruct (db_wakeups _ !! _); [|done]. by case_match.
Qed.

Lemma claim_sound record db db' r : sound db → Claim clock record db = (db', r) → sound db'.
Proof.
  intros Hs H. destruct r as [lease|x]; [|by eapply sound_same; [eapply transaction_same|]].
  pose proof H as H'. unfold Claim in H'. rewrite transaction_Ok in H'. apply tx_bind_Ok in H' as (? & row & Hf & _).
  apply load_attempt_row_Ok in Hf as [-> Hf]. destruct (attempt_engine db _ _ _ _ Hs Hf) as (command & snapshot & e & He).
  pose proof (claim_refines nid _ _ contract command (ae_run _ _ _ _ _ _ He) clock record db db' lease e (ae_inv _ _ _ _ _ _ He)
    (ae_version _ _ _ _ _ _ He) (ae_represents _ _ _ _ _ _ He) eq_refl eq_refl H) as (_ & Hrep' & Helse & _).
  eapply sound_step; [done|exact He|exact Hrep'|done|right].
  by exists (DoStartAttempt (cl_AttemptID (cl_Command record))).
Qed.

Lemma heartbeat_sound record db db' r : sound db → Heartbeat clock record db = (db', r) → sound db'.
Proof.
  intros Hs H. unfold Heartbeat in H. rewrite (tx_step (clock_timestamp clock) _ _ _ _ eq_refl) in H.
  rewrite (tx_step tx_get _ _ _ _ eq_refl) in H. set (db1 := db <| db_ticks := _ |>) in H.
  assert (sound db1) as Hs1 by by eapply sound_same; [|done].
  destruct (attempt_row db1 _ _ _) as [row|] eqn:Hf; [|by injection H as <- _].
  destruct (held_lease _ _ _ _ _); [|by injection H as <- _].
  destruct (attempt_engine db1 _ _ _ _ Hs1 Hf) as (command & snapshot & e & He).
  match type of H with (tx_modify ?f ≫= _) _ = _ => destruct (extend_lease nid _ _ db1 (f db1) e _ row _ _ (ae_represents _ _ _ _ _ _ He) Hf eq_refl eq_refl eq_refl eq_refl eq_refl) as [Hrep' Helse] end.
  rewrite (tx_step (tx_modify _) _ _ _ _ eq_refl) in H.
  assert (db' = db1 <| db_attempts := <[hb_AttemptID (hb_Command record) := row <| ra_LeaseExpiresAt := Some (clock (db_ticks db) + milliseconds (hb_ExtendBy (hb_Command record))) |> <| ra_UpdatedAt := clock (db_ticks db) |>]> (db_attempts db1) |>) as ->.
  { destruct (ra_LeaseOwner row); by injection H as <- _. }
  by eapply sound_step; [exact Hs1|exact He|exact Hrep'|exact Helse|left].
Qed.

(** The result of an attempt is one step. *)
Lemma record_step aid result e e' b : RecordAttemptResult aid result e = (e', Ok b) →
  e' = (engine_apply order (DoRecordAttemptResult aid result) e).1.
Proof. intros H. cbn [engine_apply]. unfold discard, mbind, eng_bind. by rewrite H. Qed.

Lemma complete_sound record db db' r : worker_result (cp_Result (cp_Command record)) = Ok tt → sound db →
  Complete clock jsonb record db = (db', r) → sound db'.
Proof.
  intros Hres Hs H. destruct r as [b|x]; [|by eapply sound_same; [eapply transaction_same|]].
  pose proof H as H'. unfold Complete in H'. rewrite transaction_Ok in H'. apply tx_bind_Ok in H' as (? & row & Hf & _).
  apply load_attempt_row_Ok in Hf as [-> Hf]. destruct (attempt_engine db _ _ _ _ Hs Hf) as (command & snapshot & e & He).
  pose proof (complete_refines nid _ _ contract command clock jsonb record db db' b e (ae_inv _ _ _ _ _ _ He)
    (ae_version _ _ _ _ _ _ He) (ae_represents _ _ _ _ _ _ He) eq_refl eq_refl Hres H) as Hc.
  cbn zeta in Hc. destruct b; [|by destruct Hc as [-> _]]. destruct Hc as (_ & e' & He' & Hrep' & Helse & _).
  apply record_step in He'. by eapply sound_step; [exact Hs|exact He|exact Hrep'|exact Helse|right; eexists].
Qed.

Lemma lost_sound record db db' r : sound db → MarkExpiredLost clock record db = (db', r) → sound db'.
Proof.
  intros Hs H. destruct r as [b|x]; [|by eapply sound_same; [eapply transaction_same|]].
  pose proof H as H'. unfold MarkExpiredLost in H'. rewrite transaction_Ok in H'. apply tx_bind_Ok in H' as (? & row & Hf & _).
  apply load_attempt_row_Ok in Hf as [-> Hf]. destruct (attempt_engine db _ _ _ _ Hs Hf) as (command & snapshot & e & He).
  pose proof (lost_refines nid _ _ contract command clock record db db' b e (ae_inv _ _ _ _ _ _ He)
    (ae_version _ _ _ _ _ _ He) (ae_represents _ _ _ _ _ _ He) eq_refl eq_refl H) as Hc.
  cbn zeta in Hc. destruct b; [|by destruct Hc as [-> _]]. destruct Hc as (_ & e' & He' & Hrep' & Helse & _).
  apply record_step in He'. by eapply sound_step; [exact Hs|exact He|exact Hrep'|exact Helse|right; eexists].
Qed.

(** *** Dispatch *)

Lemma dispatch_same cmd db db' x : DispatchReady clock router cmd db = (db', Err x) → same_rows db db'.
Proof.
  unfold DispatchReady, mbind, tx_bind at 1 2, tx_lift at 1 2. destruct (Candidate_Validate _); [|by intros [= <- _]].
  destruct (guard_err _ _); [|by intros [= <- _]]. apply transaction_same.
Qed.

Lemma dispatch_sound cmd db db' r : sound db → DispatchReady clock router cmd db = (db', r) → sound db'.
Proof.
  intros Hs H. destruct r as [task|x]; [|by eapply sound_same; [eapply dispatch_same|]].
  assert (∃ now run, dispatchable_run (db <| db_ticks := S (db_ticks db) |>) now (cd_ProjectID (dp_Candidate cmd))
    (cd_RunID (dp_Candidate cmd)) = Some run) as (now & run & Hd).
  { unfold DispatchReady in H. tx_inv H. rewrite transaction_Ok in H. tx_inv H. rows_inv. by eexists _, _. }
  unfold dispatchable_run in Hd. apply bind_Some in Hd as (row & Hrow & Hd). destruct (_ && _) eqn:Hst in Hd; [|done].
  change (run_row db (cd_ProjectID (dp_Candidate cmd)) (cd_RunID (dp_Candidate cmd)) = Some row) in Hrow.
  destruct (sound_cases db _ _ Hs (mk_is_Some _ _ Hrow)) as [[row' Hun]|(command & snapshot & e & He)].
  { destruct Hun as [Hx _ Hy _ _]. assert (row' = row) as -> by congruence. bool_prop.
    destruct Hy as [Hy|Hy]; [congruence|]. by match goal with H : rr_State row = RunRunning |- _ => rewrite H in Hy end. }
  pose proof (dispatch_refines nid _ _ contract command (ae_run _ _ _ _ _ _ He) clock router cmd db db' task e
    (ae_inv _ _ _ _ _ _ He) (ae_output _ _ _ _ _ _ He) (ae_version _ _ _ _ _ _ He) (ae_represents _ _ _ _ _ _ He)
    eq_refl eq_refl H) as (e' & a & He' & Hrep' & Helse & _).
  eapply sound_step; [exact Hs|exact He|exact Hrep'|exact Helse|right].
  exists (DoQueueNode (cd_ExecutionNodeID (dp_Candidate cmd)) (dp_AttemptID cmd)). cbn [engine_apply].
  unfold discard, mbind, eng_bind. by rewrite He'.
Qed.

(** *** Consuming an event *)

Definition same_attempt_rows (db db' : DB) : Prop := db_attempts db' = db_attempts db ∧ db_outputs db' = db_outputs db.
#[local] Instance same_attempt_rows_preorder : PreOrder same_attempt_rows.
Proof. split; [done|]. intros d1 d2 d3 [? ?] [? ?]. split; congruence. Qed.

#[local] Instance ops'' : RunTransaction RuntimeTx := store_transaction clock router nid.

Lemma consume_attempt_rows event db : same_attempt_rows db (Consume (D := DB) order ValidateSource event db).1.
Proof.
  apply (respects_consume clock router nid order ValidateSource same_attempt_rows); unfold same_attempt_rows; try done.
  - intros before after d. unfold updateRunCAS. destruct (run_row _ _ _); [|done]. by destruct (_ && _).
  - intros consumer x d. unfold accept_inbox. by destruct (bool_decide _).
Qed.

Lemma consume_same event db db' x : Consume (D := DB) order ValidateSource event db = (db', Err x) → same_rows db db'.
Proof.
  unfold Consume, mbind, tx_bind at 1, tx_lift at 1. destruct (RuntimeEvent_Validate event); [|by intros [= <- _]]. apply transaction_same.
Qed.

(** An event of no run does nothing. *)
Lemma consume_missing event db db' u : run_row db (ev_ProjectID event) (ev_RunID event) = None →
  Consume (D := DB) order ValidateSource event db = (db', Ok u) → same_rows db db'.
Proof.
  intros Hnone H. unfold Consume in H. tx_inv H. cbn [WithRunTransaction store_manager] in H.
  rewrite transaction_Ok in H. destruct (handle _ _ _ _) as [t r] eqn:Hh. injection H as <- ->.
  unfold handle in Hh. apply tx_bind_Ok in Hh as (w & accepted & Hin & Hh). cbn in Hin. apply on_db_Ok in Hin as (d & Hin & ->).
  assert (∃ box, d = db <| db_inbox := box |>) as [box ->].
  { unfold accept_inbox in Hin. case_bool_decide; injection Hin as <- _; [exists (db_inbox db); by destruct db|eauto]. }
  assert (∀ {A} (f : WorkflowRunRecord → tx RuntimeTx A) t0 a,
    (on_db (loadRun (ev_ProjectID event) (ev_RunID event)) ≫= f) (MkRuntimeTx (db <| db_inbox := box |>) (rt_snapshot (MkRuntimeTx db None))) = (t0, Ok a) → False) as Hload.
  { intros A f t0 b0 (w & run & Hr & _)%tx_bind_Ok. apply on_db_Ok in Hr as (d & [_ Hr]%loadRun_Ok & _).
    change (run_row db (ev_ProjectID event) (ev_RunID event) = Some run) in Hr. congruence. }
  destruct (negb accepted); [injection Hh as <-; by constructor|].
  assert (∀ {A} (f : State → tx RuntimeTx A) t0 a,
    (LoadEngineState (ev_ProjectID event) (ev_RunID event) ≫= f) (MkRuntimeTx (db <| db_inbox := box |>) (rt_snapshot (MkRuntimeTx db None))) = (t0, Ok a) → False) as Hstate.
  { intros A f t0 b0 (w & st & Hr & _)%tx_bind_Ok. cbn in Hr. apply on_db_Ok in Hr as (d & Hr & _). unfold load_engine_state in Hr.
    apply tx_bind_Ok in Hr as (w' & run & [_ Hr]%loadRun_Ok & _).
    change (run_row db (ev_ProjectID event) (ev_RunID event) = Some run) in Hr. congruence. }
  exfalso. destruct (ev_EventType event); [by eapply Hload, Hh|by eapply Hstate, Hh..|done].
Qed.

Lemma consume_sound event db db' r : sound db → Consume (D := DB) order ValidateSource event db = (db', r) → sound db'.
Proof.
  intros Hs H. destruct r as [u|x]; [|by eapply sound_same; [eapply consume_same|]].
  pose proof (consume_attempt_rows event db) as [Ha Ho]. rewrite H in Ha, Ho. cbn [fst] in Ha, Ho.
  assert (∀ aid, is_Some (db_outputs db' !! aid) → is_Some (db_attempts db' !! aid)) as Hfk.
  { intros aid. rewrite Ha, Ho. apply (so_output _ Hs). }
  destruct (run_row db (ev_ProjectID event) (ev_RunID event)) as [row|] eqn:Hrow; [|by eapply sound_same; [eapply consume_missing|]].
  destruct (sound_cases db _ _ Hs (mk_is_Some _ _ Hrow)) as [[row' Hun]|(command & snapshot & e & He)].
  - destruct (consume_unstarted nid router clock order ValidateSource _ _ event db db' row' u Hun (so_output _ Hs) (so_snapshot _ Hs)
      eq_refl eq_refl H) as [Hout Helse].
    eapply sound_change; [exact Hs|by eexists|exact Helse| |done]. destruct Hout as [?|(snapshot & e & Hsn & Hre & Hrep)]; [by left|right].
    pose proof (un_row _ _ _ _ Hun) as [_ Hpr]%run_row_Some. pose proof (un_id _ _ _ _ Hun) as Hid.
    by exists (record_command row'), snapshot, e.
  - destruct He as [Hp Hr Hsn Hpol Hre Hi Hout Hv Hrep]. pose proof H as H0. unfold Consume in H0. apply tx_bind_Ok in H0 as (w & [] & Hval & _).
    apply lift_Ok in Hval as [_ Hval].
    rewrite <-Hp, <-Hr in Hrep. rewrite <-Hp in Hsn.
    destruct (consume_refines order ValidateSource clock router nid command snapshot Hpol event db e Hre Hrep Hval (eq_sym Hp) (eq_sym Hr) Hsn)
      as (st & db2 & r2 & _ & H2 & Hcase). pose proof (eq_trans (eq_sym H) H2) as H3. injection H3 as <- <-.
    assert (at_engine db (cc_ProjectID command) (cc_RunID command) command snapshot e) as He by by constructor.
    destruct (bool_decide (_ ∈ db_inbox db)); [by destruct Hcase as [-> _]|]. destruct Hcase as [Hcase [_ Helse]].
    destruct (run_op _ _ _ _) as [[op at_]|].
    + destruct Hcase as [Heq Hrep']. eapply sound_step; [exact Hs|exact He|apply Hrep'|exact Helse|right; by exists op]. by destruct u.
    + destruct Hcase as [_ Hrep']. by eapply sound_step; [exact Hs|exact He|exact Hrep'|exact Helse|left].
Qed.

(** *** Run control *)

Lemma unstarted_cancel db p r row at_ outbox ticks : unstarted p r db row →
  let db' := db <| db_runs := <[r := row <| rr_CancelRequestedAt := at_ |>]> (db_runs db) |> <| db_ticks := ticks |> <| db_outbox := outbox |> in
  unstarted p r db' (row <| rr_CancelRequestedAt := at_ |>) ∧ elsewhere p r db db'.
Proof.
  intros [Hrow Hid Hst Hn Ha]. pose proof Hrow as [Hl Hp]%run_row_Some. split.
  - constructor; try done. unfold run_row. cbn. rewrite lookup_insert_eq. by rewrite bool_decide_eq_true_2.
  - constructor; try done. apply untouched_insert; unfold run_of; [by rewrite !bool_decide_eq_true_2|].
    intros old Hx. assert (old = row) as -> by congruence. by rewrite !bool_decide_eq_true_2.
Qed.

Lemma cancellation_sound record db db' r : sound db → RequestCancellation clock record db = (db', r) → sound db'.
Proof.
  intros Hs H. destruct r as [[run b]|x]; [|by eapply sound_same; [eapply transaction_same|]].
  pose proof H as H'. unfold RequestCancellation in H'. rewrite transaction_Ok in H'.
  apply tx_bind_Ok in H' as (w & row & [-> Hrow]%loadRun_Ok & H').
  destruct (sound_cases db _ _ Hs (mk_is_Some _ _ Hrow)) as [[row' Hun]|(command & snapshot & e & He)].
  - assert (row' = row) as -> by (pose proof (un_row _ _ _ _ Hun); congruence).
    destruct (_ || _); tx_inv H'; [done|].
    match goal with H : tx_modify _ _ = _ |- _ => injection H as <- _ end.
    match goal with H : insertOutbox _ _ _ = _ |- _ => apply insertOutbox_Ok in H as (_ & _ & ->) end.
    match goal with H : loadRun _ _ _ = _ |- _ => apply loadRun_Ok in H as [-> _] end.
    match goal with |- sound ?d => set (db3 := d) end.
    edestruct (unstarted_cancel db _ _ row (truncate_us (cr_RequestedAt record)) (db_outbox db3) (db_ticks db3) Hun) as [Hun' Helse].
    eapply sound_change; [exact Hs|by eexists|exact Helse|left; by eexists|apply Hs].
  - pose proof (cancellation_refines nid _ _ clock record db db' run b e (ae_represents _ _ _ _ _ _ He) eq_refl eq_refl H) as (Hrep' & Helse & _).
    by eapply sound_step; [exact Hs|exact He|exact Hrep'|exact Helse|left].
Qed.

Lemma creation_sound record db db' r : sound db → CreatePendingRun clock record db = (db', r) → sound db'.
Proof.
  intros Hs H. destruct r as [run|x]; [|by eapply sound_same; [eapply transaction_same|]].
  unfold CreatePendingRun in H. rewrite transaction_Ok in H. apply tx_bind_Ok in H as (w & d & [-> ->]%get_Ok & H).
  destruct (db_idempotency db !! _) as [[hash old]|]; tx_inv H.
  { by match goal with H : loadRun _ _ _ = _ |- _ => apply loadRun_Ok in H as [-> _] end. }
  match goal with H : insert_run _ _ = _ |- _ => unfold insert_run in H; destruct (db_runs db !! _) as [|] eqn:Hfree; [done|]; injection H as <- _ end.
  match goal with H : insertOutbox _ _ _ = _ |- _ => apply insertOutbox_Ok in H as (Hvalid & _ & ->) end.
  match goal with H : tx_modify _ _ = _ |- _ => injection H as <- _ end.
  unfold RuntimeEvent_Validate in Hvalid. apply bind_guard in Hvalid as [Hvalid _].
  match goal with |- sound ?d => set (db3 := d) end. set (p := cn_ProjectID record) in *.
  match goal with H : definition_reference _ _ = Ok ?x |- _ => set (row := pending_row record x) in * end.
  change (rr_ID row) with (cn_RunID record) in *. set (rid := cn_RunID record) in *.
  assert (∀ p' r', is_Some (run_row db p' r') → is_Some (run_row db3 p' r')) as Hrows.
  { intros p' r' (x & Hx & Hxp)%run_row_is_Some. apply run_row_is_Some. exists x. split; [|done]. cbn.
    rewrite lookup_insert_ne; [done|]. intros <-. congruence. }
  assert (unstarted p rid db3 row) as Hun.
  { constructor; [|done|by left|..].
    - unfold run_row. cbn. rewrite lookup_insert_eq. by rewrite bool_decide_eq_true_2.
    - intros k. destruct (node_row_of db3 p rid k) as [x|] eqn:Hx; [|done]. apply node_row_Some in Hx as [Hx Hin].
      unfold node_of_run in Hin. bool_prop. destruct (so_node _ Hs k x Hx) as [y Hy].
      apply run_row_Some in Hy as [Hy _]. congruence.
    - intros k. destruct (attempt_row db3 p rid k) as [x|] eqn:Hx; [|done]. apply attempt_row_Some in Hx as [Hx Hin].
      apply attempt_in_run_inv in Hin as [? ?]. destruct (so_attempt _ Hs k x Hx) as [y Hy].
      apply run_row_Some in Hy as [Hy _]. congruence.
    - cbn in Hvalid. by bool_prop. }
  assert (elsewhere p rid db db3) as Helse.
  { constructor; try done. apply untouched_insert; unfold run_of; [by rewrite !bool_decide_eq_true_2|]. intros old Hold. congruence. }
  destruct Hs as [S1 S2 S3 S4 S5]. constructor; [|by intros; eapply Hrows, S2|by intros; eapply Hrows, S3|done|done].
  intros r' x. destruct (decide (r' = rid)) as [->|Hne].
  - cbn. rewrite lookup_insert_eq. intros [= <-]. left. by exists row.
  - cbn. rewrite lookup_insert_ne by done. intros Hx.
    destruct (S1 _ _ Hx) as [[y Hy]|(command & snapshot & e & ? & ? & ? & ? & Hrep)].
    + left. exists y. by eapply frame_unstarted.
    + right. exists command, snapshot, e. split_and!; try done. by eapply frame_represents.
Qed.

(** ** Calls *)

Context (access : string → string → string → res unit) (digest : RunRequest → string).
#[local] Instance repository' : Repository DB := store_repository clock jsonb.
#[local] Instance wakeups' : WakeupRepository DB := store_wakeups clock.

(** [runID], [eventID] and [id] are the identities the generator gives the
    call, [now] the time the caller reads. *)
Inductive StoreCall : Type :=
  | CallTestDraft (runID eventID : res string) (now : Time) (command : TestDraftRunCommand)
  | CallCreateProduction (runID eventID : res string) (now : Time) (command : ProductionRunCommand)
  | CallCancel (eventID : res string) (now : Time) (projectID principalID runID traceID : string)
  | CallConsume (event : RuntimeEvent)
  | CallDispatch (command : DispatchCommand)
  | CallClaim (id : res string) (now : Time) (command : ClaimCommand)
  | CallHeartbeat (now : Time) (command : HeartbeatCommand)
  | CallComplete (id : res string) (now : Time) (command : CompleteCommand)
  | CallMarkExpiredLost (id : res string) (now : Time) (command : MarkLostCommand)
  | CallEmit (eventID auditID : res string) (now : Time) (wakeup : Wakeup) (traceID actorType actorID : string) (cooldown : Z)
      (manual : bool).

Definition no_answer {A} (m : tx DB A) : tx DB unit := _ ← m; mret tt.

Definition store_call (c : StoreCall) : tx DB unit :=
  match c with
  | CallTestDraft runID eventID now command => no_answer (TestDraft clock access digest runID eventID now command)
  | CallCreateProduction runID eventID now command => no_answer (CreateProduction clock access digest runID eventID now command)
  | CallCancel eventID now projectID principalID runID traceID => no_answer (Cancel clock access eventID now projectID principalID runID traceID)
  | CallConsume event => Consume (D := DB) order ValidateSource event
  | CallDispatch command => no_answer (DispatchReady clock router command)
  | CallClaim id now command => no_answer (Coordinator_Claim id now command)
  | CallHeartbeat now command => no_answer (Coordinator_Heartbeat now command)
  | CallComplete id now command => no_answer (Coordinator_Complete id now command)
  | CallMarkExpiredLost id now command => no_answer (Coordinator_MarkExpiredLost id now command)
  | CallEmit eventID auditID now wakeup traceID actorType actorID cooldown manual =>
      no_answer (Emitter_Emit eventID auditID now wakeup traceID actorType actorID cooldown manual)
  end.

(** The store after each call of a sequence, whatever the calls answer. *)
Definition store_calls (calls : list StoreCall) (db : DB) : DB := fold_left (λ db c, (store_call c db).1) calls db.

(** The checks and the identities in front of a call of the store. *)
Section Checked.
Context (P : DB → DB → Prop).

Lemma checked {A B} (m : res A) (f : A → tx DB B) db : (∀ d, P d d) → (∀ a, m = Ok a → P db (f a db).1) → P db ((tx_lift m ≫= f) db).1.
Proof using. intros HP Hf. unfold mbind, tx_bind, tx_lift. destruct m as [a|x]; [by apply Hf|apply HP]. Qed.

Lemma no_answer_fst {A} (m : tx DB A) db : (no_answer m db).1 = (m db).1.
Proof using. unfold no_answer, mbind, tx_bind. by destruct (m db) as [d []]. Qed.

(** A relation that the calls of the store keep is kept by their callers. *)
Context (P_refl : ∀ db, P db db)
  (P_create : ∀ record db, P db (CreatePendingRun clock record db).1)
  (P_cancel : ∀ record db, P db (RequestCancellation clock record db).1)
  (P_consume : ∀ event db, P db (Consume (D := DB) order ValidateSource event db).1)
  (P_dispatch : ∀ command db, P db (DispatchReady clock router command db).1)
  (P_claim : ∀ record db, P db (Claim clock record db).1)
  (P_heartbeat : ∀ record db, P db (Heartbeat clock record db).1)
  (P_complete : ∀ record db, worker_result (cp_Result (cp_Command record)) = Ok tt → P db (Complete clock jsonb record db).1)
  (P_lost : ∀ record db, P db (MarkExpiredLost clock record db).1)
  (P_emit : ∀ emission db, P db (EmitWakeup clock emission db).1).

Lemma store_call_checked c db : P db (store_call c db).1.
Proof using P_refl P_create P_cancel P_consume P_dispatch P_claim P_heartbeat P_complete P_lost P_emit.
  destruct c; cbn [store_call]; try rewrite no_answer_fst.
  - unfold TestDraft, create. do 5 (apply checked; [done|intros ? _]). apply P_create.
  - unfold CreateProduction, create. do 5 (apply checked; [done|intros ? _]). apply P_create.
  - unfold Cancel. do 3 (apply checked; [done|intros ? _]). apply P_cancel.
  - apply P_consume.
  - apply P_dispatch.
  - unfold Coordinator_Claim. do 3 (apply checked; [done|intros ? _]). apply P_claim.
  - unfold Coordinator_Heartbeat. apply checked; [done|intros ? _]. apply P_heartbeat.
  - unfold Coordinator_Complete. do 2 (apply checked; [done|intros [] ?]). apply checked; [done|intros ? _]. by apply P_complete.
  - unfold Coordinator_MarkExpiredLost. do 2 (apply checked; [done|intros ? _]). apply P_lost.
  - unfold Emitter_Emit. do 4 (apply checked; [done|intros ? _]). apply P_emit.
Qed.
End Checked.

Lemma store_call_sound c db : sound db → sound (store_call c db).1.
Proof.
  apply (store_call_checked (λ db db', sound db → sound db')); clear c db; [done|..]; intros x db.
  - destruct (CreatePendingRun clock x db) as [d r] eqn:H. intros Hs. by eapply creation_sound.
  - destruct (RequestCancellation clock x db) as [d r] eqn:H. intros Hs. by eapply cancellation_sound.
  - destruct (Consume _ _ x db) as [d r] eqn:H. intros Hs. by eapply consume_sound.
  - destruct (DispatchReady clock router x db) as [d r] eqn:H. intros Hs. by eapply dispatch_sound.
  - destruct (Claim clock x db) as [d r] eqn:H. intros Hs. by eapply claim_sound.
  - destruct (Heartbeat clock x db) as [d r] eqn:H. intros Hs. by eapply heartbeat_sound.
  - intros Hx. destruct (Complete clock jsonb x db) as [d r] eqn:H. intros Hs. by eapply complete_sound.
  - destruct (MarkExpiredLost clock x db) as [d r] eqn:H. intros Hs. by eapply lost_sound.
  - apply emit_sound.
Qed.

Lemma store_calls_keep_sound calls db : sound db → sound (store_calls calls db).
Proof. revert db. induction calls as [|c calls IH]; intros db Hs; [done|]. cbn. by apply IH, store_call_sound. Qed.
End Sound.
