(* ===== verification/StoreHistory.v ===== *)
(** * What no call of the store takes back

    [history]: an Attempt keeps its identity, once claimed its lease token,
    owner and fencing token, and once it has a result everything; outputs, the
    inbox and the idempotency records only grow; a run keeps its command. *)

From S2P Require Import Prelude Json Graph Dsl Branch Runtime Engine.
From S2P Require Import EngineSteps EngineInv EngineFacts EngineInit EngineProgress EngineLive EngineVersions EngineState.
From S2P Require Import Scheduling Eventing Consumer Store RunControl AttemptStore SchedulingStore Recovery.
From S2P Require Import StoreFacts StoreRefine AttemptRefine InitRefine StoreSound.

Open Scope string_scope.
Open Scope list_scope.
Open Scope Z_scope.

(** ** Relations that every call keeps

    [CallRelation]: a preorder on stores that each statement of the calls keeps;
    then every sequence of calls keeps it. *)

(** What a call other than a heartbeat does to an attempt that is there. *)
Inductive attempt_step (row : AttemptRow) : AttemptRow → Prop :=
  | attempt_claims record now : ra_State row = AttemptQueued → attempt_step row (claim_attempt record row now)
  | attempt_finishes state error at_ : ra_State row = AttemptRunning → AttemptState_Terminal state = true →
      attempt_step row (complete_attempt state error at_ row).

(** What a dispatch touches. *)
Section Dispatch.
Context (clock : nat → Time) (router : Coordinate → option string) (R : DB → DB → Prop) `{!PreOrder R}.
Context (Rclock : respects R (clock_timestamp clock)) (Rabort : ∀ db d, R db d → R db (db <| db_ticks := db_ticks d |>))
  (Rnodes : ∀ db t, R db (db <| db_nodes := t |>)) (Rtasks : ∀ db t, R db (db <| db_tasks := t |>))
  (Rinsert : ∀ aid row, ra_State row = AttemptQueued → respects R (insert_attempt aid row)).

Lemma respects_set_nodes P f : respects R (update_nodes P f).
Proof using Rnodes. intros db. unfold update_nodes. destruct (update_where _ _ _) as [t n]. apply Rnodes. Qed.
Lemma respects_set_tasks t : respects R (tx_modify (λ db, db <| db_tasks := t |>)).
Proof using Rtasks. intros db. apply Rtasks. Qed.
#[local] Hint Resolve Rclock respects_set_nodes respects_set_tasks : respects.

Lemma respects_insert_task task : respects R (insert_task clock task).
Proof using PreOrder0 Rclock Rtasks. unfold insert_task. respects. Qed.
#[local] Hint Resolve respects_insert_task : respects.

Lemma respects_dispatch command : respects R (DispatchReady clock router command).
Proof using PreOrder0 Rclock Rabort Rnodes Rtasks Rinsert.
  unfold DispatchReady. respects. apply respects_transaction; [done|]. unfold queue_candidate. respects.
  apply Rinsert. unfold NewNodeAttempt in *. case_match; [done|]. by simplify_eq.
Qed.
End Dispatch.

Class CallRelation (clock : nat → Time) (jsonb : string → string) (R : DB → DB → Prop) : Prop := {
  cr_preorder :: PreOrder R;
  cr_clock : respects R (clock_timestamp clock);
  cr_abort : ∀ db d, R db d → R db (db <| db_ticks := db_ticks d |>);
  cr_nodes : ∀ db t, R db (db <| db_nodes := t |>);
  cr_outbox : ∀ db t, R db (db <| db_outbox := t |>);
  cr_inbox : ∀ consumer event, respects R (accept_inbox consumer event);
  cr_cas : ∀ before after, respects R (updateRunCAS before after);
  cr_cancel : ∀ db r row at_, db_runs db !! r = Some row →
    R db (db <| db_runs := <[r := row <| rr_CancelRequestedAt := at_ |>]> (db_runs db) |>);
  cr_insert_run : ∀ row, respects R (insert_run row);
  cr_idempotency : ∀ db k v, db_idempotency db !! k = None → R db (db <| db_idempotency := <[k := v]> (db_idempotency db) |>);
  cr_attempt : ∀ p r aid P f, (∀ row, P row = true → attempt_step row (f row)) → respects R (update_attempt p r aid P f);
  cr_dispatch : ∀ router command, respects R (DispatchReady clock router command);
  cr_insert_outputs : ∀ aid outputs, respects R (insert_outputs jsonb aid outputs);
  cr_heartbeat : ∀ record, respects R (Heartbeat clock record);
  cr_upsert : ∀ emission, 0 ≤ we_Cooldown emission → respects R (upsert_wakeup clock emission) }.

Section Calls.
Context (clock : nat → Time) (router : Coordinate → option string) (nid : string → string → string) (jsonb : string → string).
Context (R : DB → DB → Prop) {HR : CallRelation clock jsonb R}.
#[local] Instance calls_preorder : PreOrder R.
Proof. apply HR. Qed.
Lemma calls_clock : respects R (clock_timestamp clock).
Proof. apply HR. Qed.
Lemma calls_insert_run row : respects R (insert_run row).
Proof. apply HR. Qed.
Lemma calls_insert_outputs aid outputs : respects R (insert_outputs jsonb aid outputs).
Proof. apply HR. Qed.

Lemma calls_transaction {A} (m : tx DB A) : respects R m → respects R (transaction m).
Proof. apply respects_transaction, cr_abort. Qed.
Lemma calls_update_nodes P f : respects R (update_nodes P f).
Proof. intros db. unfold update_nodes. destruct (update_where _ _ _) as [t n]. apply cr_nodes. Qed.
Lemma calls_load_run p r : respects R (loadRun p r).
Proof. unfold loadRun. respects. Qed.
Lemma calls_load_node p r k : respects R (load_node_row p r k).
Proof. unfold load_node_row. respects. Qed.
Lemma calls_load_attempt p r k x : respects R (load_attempt_row p r k x).
Proof. unfold load_attempt_row. respects. Qed.
Lemma calls_insert_outbox event : respects R (insertOutbox clock event).
Proof. apply respects_insert_outbox; [apply cr_preorder|apply cr_outbox|apply cr_clock]. Qed.
#[local] Hint Resolve calls_clock calls_insert_run calls_insert_outputs calls_update_nodes calls_load_run calls_load_node
  calls_load_attempt calls_insert_outbox : respects.

Lemma calls_claim record : respects R (Claim clock record).
Proof.
  unfold Claim, claim_queued. apply calls_transaction. respects. apply cr_attempt. intros row Hwhere. bool_prop. by constructor.
Qed.

Lemma calls_complete record : worker_result (cp_Result (cp_Command record)) = Ok tt → respects R (Complete clock jsonb record).
Proof.
  intros Hres. unfold Complete, finish_running. apply calls_transaction. respects. apply cr_attempt. intros row Hwhere. bool_prop.
  constructor; [done|]. unfold worker_result in Hres. apply bind_guard in Hres as [Hres _]. by bool_prop.
Qed.

Lemma calls_lost record : respects R (MarkExpiredLost clock record).
Proof.
  unfold MarkExpiredLost, lose_running. apply calls_transaction. respects. apply cr_attempt. intros row Hwhere. bool_prop. by constructor.
Qed.

Lemma calls_cancel record : respects R (RequestCancellation clock record).
Proof.
  unfold RequestCancellation. apply calls_transaction. intros db.
  destruct (run_row db (cr_ProjectID record) (cr_RunID record)) as [row|] eqn:Hrow.
  2:{ unfold loadRun, mbind, tx_bind, tx_get, tx_lift. by rewrite Hrow. }
  rewrite (tx_step _ _ db db row) by by apply loadRun_found. apply run_row_Some in Hrow as [Hrow _]. destruct (_ || _); [done|]. unfold mbind at 1, tx_bind at 1, tx_lift at 1.
  destruct (guard_err _ _); [|done]. rewrite (tx_step (tx_modify _) _ _ _ _ eq_refl).
  etrans; [by apply (cr_cancel db (cr_RunID record) row (truncate_us (cr_RequestedAt record)))|].
  match goal with |- R ?d (?m ?d').1 => change d' with d; enough (respects R m) as Hm by apply Hm end. respects.
Qed.

Lemma calls_create record : respects R (CreatePendingRun clock record).
Proof.
  unfold CreatePendingRun. apply calls_transaction. intros db. rewrite (tx_step tx_get _ _ _ _ eq_refl).
  destruct (db_idempotency db !! idempotency_key record) as [[hash run]|] eqn:Hkey.
  { match goal with |- R db (?m db).1 => enough (respects R m) as Hm by apply Hm end. respects. }
  unfold mbind, tx_bind at 1, tx_lift at 1. destruct (definition_reference db record) as [definition|]; [|done].
  unfold tx_bind at 1, tx_lift at 1. destruct (guard_err _ _); [|done].
  unfold tx_bind at 1. pose proof (cr_insert_run (pending_row record definition) db) as H1.
  assert (db_idempotency (insert_run (pending_row record definition) db).1 = db_idempotency db) as K1.
  { unfold insert_run. by destruct (db_runs db !! _). }
  destruct (insert_run _ db) as [d1 [[]|x]]; [|done]. cbn [fst] in *.
  unfold tx_bind at 1. pose proof (calls_insert_outbox (created_event record) d1) as H2.
  assert (db_idempotency (insertOutbox clock (created_event record) d1).1 = db_idempotency d1) as K2.
  { unfold insertOutbox, mbind, tx_bind, tx_lift, clock_timestamp, tx_get, tx_modify. by repeat case_match; simplify_eq. }
  destruct (insertOutbox clock _ d1) as [d2 [[]|x]]; [|by etrans]. cbn [fst] in *.
  etrans; [by etrans|]. apply cr_idempotency. congruence.
Qed.

Lemma calls_keep order ValidateSource access digest calls db :
  R db (store_calls clock router nid jsonb order ValidateSource access digest calls db).
Proof.
  revert db. induction calls as [|c calls IH]; intros db; [done|]. cbn [store_calls fold_left]. etrans; [|apply IH].
  apply (store_call_checked clock router nid jsonb order ValidateSource access digest R); [done|..]; intros x d.
  - apply calls_create.
  - apply calls_cancel.
  - apply (respects_consume clock router nid order ValidateSource R); [apply cr_cas|apply cr_nodes|apply cr_inbox|apply cr_clock|apply cr_abort].
  - apply cr_dispatch.
  - apply calls_claim.
  - apply cr_heartbeat.
  - intros Hx. by apply calls_complete.
  - apply calls_lost.
  - apply (respects_emit clock R); [apply cr_outbox|apply cr_upsert|apply cr_clock|apply cr_abort].
Qed.
End Calls.

(** ** Attempts, outputs, events and commands *)

(** A running attempt has an owner and a lease that ends. *)
Definition row_owned (row : AttemptRow) : Prop := ra_State row = AttemptRunning →
  is_Some (ra_LeaseOwner row) ∧ is_Some (ra_LeaseExpiresAt row).
Definition owned (db : DB) : Prop := ∀ aid row, db_attempts db !! aid = Some row → row_owned row.

(** A row that stays. *)
Ltac same_row := let x := fresh in intros ? x ?; by exists x.

Record attempt_history (row row' : AttemptRow) : Prop := {
  ah_project : ra_ProjectID row' = ra_ProjectID row;
  ah_run : ra_RunID row' = ra_RunID row;
  ah_node : ra_NodeRunID row' = ra_NodeRunID row;
  ah_sequence : ra_Sequence row' = ra_Sequence row;
  ah_kind : ra_Kind row' = ra_Kind row;
  ah_version : ra_StateVersion row ≤ ra_StateVersion row';
  ah_claimed : ra_State row ≠ AttemptQueued → ra_State row' ≠ AttemptQueued ∧
    ra_LeaseToken row' = ra_LeaseToken row ∧ ra_LeaseOwner row' = ra_LeaseOwner row ∧
    ra_FencingToken row' = ra_FencingToken row ∧ ra_ExecutorBuild row' = ra_ExecutorBuild row;
  ah_owned : row_owned row → row_owned row';
  ah_final : AttemptState_Terminal (ra_State row) = true → row' = row }.

#[export] Instance attempt_history_preorder : PreOrder attempt_history.
Proof.
  split; [by constructor|]. intros r1 r2 r3 [P1 I1 N1 S1 K1 V1 C1 O1 F1] [P2 I2 N2 S2 K2 V2 C2 O2 F2]. constructor; try congruence; [lia|..|by auto|].
  - intros H. destruct (C1 H) as (H2 & ? & ? & ? & ?), (C2 H2) as (? & ? & ? & ? & ?). split_and!; congruence.
  - intros H. pose proof (F1 H) as ->. by apply F2.
Qed.

Record history (db db' : DB) : Prop := {
  hi_attempts : ∀ aid row, db_attempts db !! aid = Some row → ∃ row', db_attempts db' !! aid = Some row' ∧ attempt_history row row';
  hi_outputs : ∀ aid outputs, db_outputs db !! aid = Some outputs → db_outputs db' !! aid = Some outputs;
  hi_inbox : db_inbox db ⊆ db_inbox db';
  hi_idempotency : ∀ k v, db_idempotency db !! k = Some v → db_idempotency db' !! k = Some v;
  hi_runs : ∀ r row, db_runs db !! r = Some row → ∃ row', db_runs db' !! r = Some row' ∧
    record_command row' = record_command row ∧ rr_ID row' = rr_ID row;
  hi_owned : owned db → owned db' }.

#[export] Instance history_preorder : PreOrder history.
Proof.
  split.
  - intros db. constructor; [same_row|done|done|done|same_row|done].
  - intros d1 d2 d3 [A1 O1 I1 D1 R1 W1] [A2 O2 I2 D2 R2 W2]. constructor; [|by eauto|by etrans|by eauto| |by auto].
    + intros aid row H. destruct (A1 aid row H) as (row2 & H2 & ?), (A2 aid row2 H2) as (row3 & H3 & ?). exists row3. split; [done|by etrans].
    + intros r row H. destruct (R1 r row H) as (row2 & H2 & ? & ?), (R2 r row2 H2) as (row3 & H3 & ? & ?). exists row3. split_and!; congruence.
Qed.

Section History.
Context (clock : nat → Time) (jsonb : string → string).

Lemma history_tables db db' : db_attempts db' = db_attempts db → db_outputs db' = db_outputs db → db_inbox db' = db_inbox db →
  db_idempotency db' = db_idempotency db → db_runs db' = db_runs db → history db db'.
Proof. intros Ha Ho Hi Hd Hr. constructor; unfold owned; rewrite ?Ha, ?Ho, ?Hi, ?Hd, ?Hr; try done; same_row. Qed.

Lemma history_attempt db aid row row' : db_attempts db !! aid = Some row → attempt_history row row' →
  history db (db <| db_attempts := <[aid := row']> (db_attempts db) |>).
Proof.
  intros Hr Hh. constructor; try done; [|same_row|].
  - intros k x Hk. cbn. rewrite lookup_insert. case_decide as Hd; [|by exists x].
    subst k. exists row'. split; [done|]. by assert (x = row) as -> by congruence.
  - intros Ho k x. cbn. rewrite lookup_insert. case_decide as Hd; [|by apply Ho]. intros [= <-]. by eapply ah_owned, Ho.
Qed.

Lemma history_run db r row row' : db_runs db !! r = Some row → record_command row' = record_command row → rr_ID row' = rr_ID row →
  history db (db <| db_runs := <[r := row']> (db_runs db) |>).
Proof.
  intros Hr Hc Hid. constructor; try done; [same_row|]. intros k x Hk. cbn. rewrite lookup_insert. case_decide as Hd; [|by exists x].
  subst k. exists row'. split; [done|]. by assert (x = row) as -> by congruence.
Qed.

Lemma step_history row row' : attempt_step row row' → attempt_history row row'.
Proof.
  intros [record now Hq|state error at_ Hr Ht]; constructor; try done; cbn; try lia.
  - by rewrite Hq.
  - intros _. split_and!; try done. by intros ->.
  - intros _ Hs. cbn in Hs. by subst state.
  - by rewrite Hr.
Qed.

Lemma history_heartbeat record : respects history (Heartbeat clock record).
Proof.
  intros db. unfold Heartbeat. rewrite (tx_step (clock_timestamp clock) _ _ _ _ eq_refl), (tx_step tx_get _ _ _ _ eq_refl).
  set (db1 := db <| db_ticks := _ |>). assert (history db db1) as H1 by by apply history_tables.
  destruct (attempt_row db1 _ _ _) as [row|] eqn:Hrow; [|done]. destruct (held_lease _ _ _ _ _) eqn:Hheld; [|done].
  rewrite (tx_step (tx_modify _) _ _ _ _ eq_refl). apply attempt_row_Some in Hrow as [Hrow _].
  match goal with |- context [(tx_lift _ ≫= _) ?d] => assert (history db1 d) as H2 end.
  { eapply history_attempt; [done|]. unfold held_lease in Hheld. bool_prop. constructor; try done.
    - intros Ho [? _]%Ho. split; [done|by eexists].
    - match goal with H : ra_State row = _ |- _ => by rewrite H end. }
  unfold mbind, tx_bind, tx_lift. destruct (ra_LeaseOwner row); by etrans.
Qed.

#[export] Instance history_calls_relation : CallRelation clock jsonb history.
Proof.
  split; try (intros; by apply history_tables); [apply _|..].
  - intros db. by apply history_tables.
  - intros consumer event db. unfold accept_inbox. destruct (bool_decide _); [done|].
    constructor; try done; [same_row| |same_row]. cbn. by apply union_subseteq_r.
  - intros before after db. unfold updateRunCAS. destruct (run_row _ _ _) as [row|] eqn:Hrow; [|done]. destruct (_ && _); [|done].
    apply run_row_Some in Hrow as [Hrow _]. by eapply history_run.
  - intros db r row at_ Hr. by eapply history_run.
  - intros row db. unfold insert_run. destruct (db_runs db !! rr_ID row) eqn:Hfree; [done|]. constructor; try done; [same_row|].
    intros k x Hk. exists x. cbn. rewrite lookup_insert_ne; [done|]. intros <-. congruence.
  - intros db k v Hk. constructor; try done; [same_row| |same_row]. intros k' x Hk'. cbn. rewrite lookup_insert_ne; [done|]. intros <-. congruence.
  - intros p r aid P f Hf db. unfold update_attempt. destruct (attempt_row db p r aid) as [row|] eqn:Hrow; [|done].
    destruct (P row) eqn:HP; [|done]. apply attempt_row_Some in Hrow as [Hrow _]. eapply history_attempt; [done|by apply step_history, Hf].
  - intros router command. apply respects_dispatch; try (intros; by apply history_tables); [apply _|intros db; by apply history_tables|].
    intros aid row Hrow db. unfold insert_attempt. destruct (db_attempts db !! aid) eqn:Hfree; [done|]. constructor; try done; [|same_row|].
    + intros k x Hk. exists x. cbn. rewrite lookup_insert_ne; [done|]. intros <-. congruence.
    + intros Ho k x. cbn. rewrite lookup_insert. case_decide; [|by apply Ho]. intros [= <-] Hx. congruence.
  - intros aid outputs db. unfold insert_outputs. destruct (db_outputs db !! aid) eqn:Hfree; [done|]. constructor; try done; [same_row| |same_row].
    intros k x Hk. cbn. rewrite lookup_insert_ne; [done|]. intros <-. congruence.
  - apply history_heartbeat.
  - intros emission _ db. unfold upsert_wakeup, mbind, tx_bind, clock_timestamp, tx_get.
    destruct (db_wakeups _ !! _); [case_match|]; by apply history_tables.
Qed.
End History.

Lemma history_calls clock router nid jsonb order ValidateSource access digest calls db :
  history db (store_calls clock router nid jsonb order ValidateSource access digest calls db).
Proof. apply calls_keep, _. Qed.

(** ** The current attempt of a node *)

(** A node that has attempts has a current one. *)
Definition owned_current (e : Engine) : Prop :=
  ∀ aid id, en_attemptNodes e !! aid = Some id → ∃ n, en_nodes e !! id = Some n ∧ nr_currentAttemptID n ≠ "".

Lemma owned_set e e' id n n' : owned_current e → en_nodes e !! id = Some n → en_nodes e' = <[id := n']> (en_nodes e) →
  (nr_currentAttemptID n ≠ "" → nr_currentAttemptID n' ≠ "") → en_attemptNodes e' = en_attemptNodes e → owned_current e'.
Proof.
  intros Ho Hn Hn' Hc Ha aid k. rewrite Ha, Hn'. intros (m & Hm & Hne)%Ho. rewrite lookup_insert. case_decide as Hk; [|by eauto].
  subst k. exists n'. split; [done|]. apply Hc. congruence.
Qed.

Lemma queue_current n aid n' x : NodeRun_QueueAttempt n aid = Ok (n', x) → nr_currentAttemptID n' = aid ∧ aid ≠ "".
Proof.
  unfold NodeRun_QueueAttempt. intros H. apply bind_guard in H as [_ H]. apply bind_guard in H as [Hne H]. bool_prop.
  apply bind_Ok in H as (n1 & _ & [= <- _]). by case_bool_decide.
Qed.

Lemma node_apply_current op n n' : node_apply op n = Ok n' → nr_currentAttemptID n ≠ "" → nr_currentAttemptID n' ≠ "".
Proof.
  intros H. destruct (node_apply_target op n n' H) as (_ & _ & _ & [[a ->]| ->]); [|done].
  cbn in H. destruct (NodeRun_QueueAttempt n a) as [[m x]|] eqn:Hq; [|done]. injection H as <-. by apply queue_current in Hq as [-> ?].
Qed.

Section Current.
Context (order : range_order) (c : Contract) {HC : EngineContract c} (command : CreateRunCommand).

Lemma step_current e e' : engine_step order e e' → owned_current e → owned_current e'.
Proof.
  intros Hstep Ho. destruct Hstep as
    [id n n' (Hn & Hp & _) _ _ H|id n n' (Hn & Hp & _) _ _ H|id n n' v (Hn & Hp & _) _ H|id n n' v r (Hn & Hp & _) _ _ _ H
    |id n v run' n' (Hn & Hp & _) _ _ H|id n n' op fl intent run' (Hn & Hp & _) _ H _ _ Hr
    |id n n' aid result op intent run' (Hn & _) _ _ H _ Hr|id n n' aid sq k a Hn _ Hnew H Ha
    |id n n' aid a a' Hn Ha Hw Hst H|id n aid a a' result Hn Ha Hw Hcur Hr H|id n n' aid result (Hn & _) _ _ H
    |id n n' aid result k due (Hn & _) _ _ H|id n n' at_ Hn _ H|intent run' _ Hr
    |id n n' intent settled Hn _ _ Haw H|run' H]; try destruct settled; try exact Ho;
    try (eapply owned_set; [exact Ho|exact Hn|reflexivity| |reflexivity]; try step_op H; by eapply node_apply_current).
  - eapply owned_set; [exact Ho|exact Hn|reflexivity| |reflexivity]. by apply CompleteWorkflowSuccess_Ok in H as (_ & _ & _ & _ & _ & _ & _ & _ & ->).
  - apply queue_current in H as [Hc Hne]. intros x k'. cbn. rewrite lookup_insert. case_decide as Hx.
    + intros [= <-]. exists n'. rewrite lookup_insert_eq. split; [done|]. congruence.
    + intros (m & Hm & Hm')%Ho. rewrite lookup_insert. case_decide as Hk; [|by eauto]. exists n'. split; [done|]. congruence.
Qed.

Lemma steps_current e e' : rtc (engine_step order) e e' → owned_current e → owned_current e'.
Proof. induction 1 as [|e1 e2 e3 H1 _ IH]; [done|]. intros Ho. by eapply IH, step_current. Qed.

Lemma reachable_current snapshot compat e : policies_ok (sn_DSL snapshot) →
  engine_reachable order c command snapshot compat e → owned_current e.
Proof.
  intros Hp Hr. induction Hr as [e He|e op He IH].
  - apply New_no_attempts in He as [_ Ho]. intros aid id. by rewrite Ho, lookup_empty.
  - pose proof (reachable_inv order c command snapshot compat e Hp He) as Hi.
    eapply steps_current; [by apply (engine_apply_steps order c command op e Hi)|done].
Qed.
End Current.

(** ** Calls that fail *)

(** An error leaves every table; [m] may rely on what [db] holds. *)
Definition undone {A} (m : tx DB A) (db : DB) : Prop := ∀ db' x, m db = (db', Err x) → db' = db <| db_ticks := db_ticks db' |>.

Lemma undone_transaction {A} (m : tx DB A) db : undone (transaction m) db.
Proof. intros db' x. apply transaction_Err. Qed.

Lemma undone_checked {A B} (m : res A) (f : A → tx DB B) db : (∀ a, undone (f a) db) → undone (tx_lift m ≫= f) db.
Proof.
  intros Hf db' x. unfold mbind, tx_bind, tx_lift. destruct m as [a|y]; [by apply Hf|]. intros [= <- _]. by destruct db.
Qed.

Lemma undone_no_answer {A} (m : tx DB A) db : undone m db → undone (no_answer m) db.
Proof. intros H db' x. unfold no_answer, mbind, tx_bind. destruct (m db) as [d [a|y]] eqn:Hm; [done|]. intros [= <- _]. by apply (H d y). Qed.

Lemma undone_heartbeat clock record db : owned db → undone (Heartbeat clock record) db.
Proof.
  intros Ho db' x. unfold Heartbeat. rewrite (tx_step (clock_timestamp clock) _ _ _ _ eq_refl), (tx_step tx_get _ _ _ _ eq_refl).
  set (db1 := db <| db_ticks := _ |>). destruct (attempt_row db1 _ _ _) as [row|] eqn:Hrow; [|by intros [= <- _]].
  destruct (held_lease _ _ _ _ _) eqn:Hheld; [|by intros [= <- _]]. apply attempt_row_Some in Hrow as [Hrow _].
  unfold held_lease in Hheld. bool_prop. destruct (Ho _ _ Hrow) as [[owner Howner] _]; [done|]. rewrite Howner. by intros [=].
Qed.

Lemma undone_call clock router nid jsonb order ValidateSource access digest c db : owned db →
  undone (store_call clock router nid jsonb order ValidateSource access digest c) db.
Proof.
  intros Ho. destruct c; cbn [store_call];
    unfold TestDraft, CreateProduction, create, Cancel, Consume, DispatchReady, Coordinator_Claim, Coordinator_Heartbeat,
      Coordinator_Complete, Coordinator_MarkExpiredLost, Emitter_Emit, EmitWakeup;
    repeat first [apply undone_no_answer|apply undone_checked; intros ?]; first [by apply undone_heartbeat|apply undone_transaction].
Qed.
