(* ===== verification/RecoveryFacts.v ===== *)
(** * What the recovery scans find

    The lists of Recovery.v by membership, the names a store has for its rows,
    and the relations that recovery depends on and every call keeps: wake-up
    rows only advance, and a lease that has run out is not given back. *)

From S2P Require Import Prelude Json Graph Dsl Branch Runtime Engine.
From S2P Require Import EngineSteps EngineInv EngineFacts EngineInit EngineProgress EngineLive BranchRoutes RunSafety EngineVersions EngineState.
From S2P Require Import Scheduling Eventing Consumer Store RunControl AttemptStore SchedulingStore Recovery.
From S2P Require Import StoreFacts StoreRefine AttemptRefine InitRefine StoreSound StoreHistory.

Open Scope string_scope.
Open Scope list_scope.
Open Scope Z_scope.

(** ** Rows have names *)

Section Names.
Context (nid : string → string → string) (order : range_order) (ValidateSource : string → option (string * string)).
Local Notation sound := (sound nid order ValidateSource).

Lemma sound_named db p r run : sound db → run_row db p r = Some run → p ≠ "" ∧ r ≠ "".
Proof.
  intros Hs Hrun. destruct (sound_cases nid order ValidateSource db p r Hs (mk_is_Some _ _ Hrun)) as [[row Hun]|(command & snapshot & e & He)].
  - apply (un_named _ _ _ _ Hun).
  - pose proof (rwf_origin _ _ (sv_run _ _ _ (ev_static _ _ _ (ae_inv _ _ _ _ _ _ _ _ _ He)))) as Ho.
    rewrite <-(ae_project _ _ _ _ _ _ _ _ _ He), <-(ae_run _ _ _ _ _ _ _ _ _ He).
    unfold NewWorkflowRun in Ho. apply bind_guard in Ho as [Ho _]. by bool_prop.
Qed.

Lemma sound_attempt_named db aid row : sound db → db_attempts db !! aid = Some row →
  aid ≠ "" ∧ ra_ProjectID row ≠ "" ∧ ra_RunID row ≠ "".
Proof.
  intros Hs Ha. assert (attempt_row db (ra_ProjectID row) (ra_RunID row) aid = Some row) as Hrow.
  { apply attempt_row_Some. split; [done|]. unfold attempt_of_run. by rewrite !bool_decide_eq_true_2. }
  destruct (so_attempt _ _ _ _ Hs aid row Ha) as [run Hrun]. split; [|by eapply sound_named].
  destruct (attempt_engine nid order ValidateSource _ _ _ _ _ Hs Hrow) as (command & snapshot & e & He).
  pose proof (rp_attempts _ _ _ _ _ (ae_represents _ _ _ _ _ _ _ _ _ He)) as Hao.
  destruct (ao_only _ _ _ _ _ _ Hao aid row Hrow) as [a Hat].
  destruct (av_attempt _ (ev_attempts _ _ _ (ae_inv _ _ _ _ _ _ _ _ _ He)) aid a Hat) as (Hwf & <- & _). apply Hwf.
Qed.
End Names.

(** ** The lists by membership *)

Lemma elem_of_sorted {A} (leb : A → A → bool) x l : x ∈ stable_sort leb l ↔ x ∈ l.
Proof. by rewrite (stable_sort_perm leb l). Qed.

Lemma elem_of_run_candidates type p due db t w : (t, w) ∈ run_candidates type p due db ↔
  ∃ r run, db_runs db !! r = Some run ∧ p run = true ∧ t = due run ∧ w = run_wakeup type (r, run).
Proof.
  unfold run_candidates. rewrite list_elem_of_fmap. split.
  - intros ([r run] & [= -> ->] & [Hr Hp]%elem_of_select). by exists r, run.
  - intros (r & run & Hr & Hp & -> & ->). exists (r, run). split; [done|]. by apply elem_of_select.
Qed.

Lemma elem_of_attempt_candidates type states db t w : (t, w) ∈ attempt_candidates type states db ↔
  ∃ aid row run, db_attempts db !! aid = Some row ∧ unnoticed states db aid row = Some run ∧ t = ra_UpdatedAt row ∧
    w = MkWakeup (ra_ProjectID row) (ra_RunID row) aid type (rr_TraceID run).
Proof.
  unfold attempt_candidates. rewrite list_elem_of_omap. split.
  - intros ([aid row] & Ha%elem_of_map_to_list & (run & Hrun & [= <- <-])%bind_Some). by exists aid, row, run.
  - intros (aid & row & run & Ha & Hrun & -> & ->). exists (aid, row). split; [by apply elem_of_map_to_list|].
    cbn. by rewrite Hrun.
Qed.

Lemma elem_of_reconciliation db w : w ∈ reconciliation_wakeups db ↔
  ∃ t, (t, w) ∈ run_candidates EvRunCreated unstarted_run rr_CreatedAt db ∨
       (t, w) ∈ run_candidates EvRunCancelRequested cancel_pending rr_CancelRequestedAt db ∨
       (t, w) ∈ attempt_candidates EvAttemptCompleted completed_state db ∨
       (t, w) ∈ attempt_candidates EvAttemptLost lost_state db.
Proof.
  unfold reconciliation_wakeups. rewrite list_elem_of_fmap. setoid_rewrite elem_of_sorted. setoid_rewrite elem_of_app.
  setoid_rewrite elem_of_app. setoid_rewrite elem_of_app. split.
  - intros ([t w'] & -> & H). by exists t.
  - intros [t H]. by exists (t, w).
Qed.

Lemma elem_of_deadlines db now w : w ∈ deadline_wakeups db now ↔
  ∃ r run, db_runs db !! r = Some run ∧ deadline_due now run = true ∧ w = run_wakeup EvRunDeadlineReached (r, run).
Proof.
  unfold deadline_wakeups. rewrite list_elem_of_fmap. setoid_rewrite elem_of_sorted. split.
  - intros ([r run] & -> & [Hr Hd]%elem_of_select). by exists r, run.
  - intros (r & run & Hr & Hd & ->). exists (r, run). split; [done|]. by apply elem_of_select.
Qed.

Lemma elem_of_retries db now w : w ∈ retry_wakeups db now ↔
  ∃ k row run, db_nodes db !! k = Some row ∧ retry_due db now row = Some run ∧
    w = MkWakeup (rn_ProjectID row) (nrr_RunID (rn_Record row)) (nrr_CurrentAttemptID (rn_Record row)) EvRetryDue (rr_TraceID run).
Proof.
  unfold retry_wakeups. rewrite list_elem_of_omap. setoid_rewrite elem_of_sorted. split.
  - intros ([k row] & Hk%elem_of_map_to_list & (run & Hrun & [= <-])%bind_Some). by exists k, row, run.
  - intros (k & row & run & Hk & Hrun & ->). exists (k, row). split; [by apply elem_of_map_to_list|]. cbn. by rewrite Hrun.
Qed.

Lemma elem_of_expired db now grace c : c ∈ expired_attempts db now grace ↔
  ∃ aid row node run expiry, db_attempts db !! aid = Some row ∧
    node_row_of db (ra_ProjectID row) (ra_RunID row) (ra_NodeRunID row) = Some node ∧
    run_row db (ra_ProjectID row) (ra_RunID row) = Some run ∧ ra_LeaseExpiresAt row = Some expiry ∧
    ra_State row = AttemptRunning ∧ nullableString (nrr_CurrentAttemptID (rn_Record node)) = Some aid ∧
    expiry + milliseconds grace ≤ now ∧ c = MkMarkLostCommand (ra_ProjectID row) (ra_RunID row) aid (ra_Sequence row) (rr_TraceID run).
Proof.
  unfold expired_attempts. rewrite list_elem_of_fmap. setoid_rewrite elem_of_sorted. setoid_rewrite list_elem_of_omap. split.
  - intros ([t c'] & -> & [aid row] & Ha%elem_of_map_to_list & H). cbn in H.
    apply bind_Some in H as (node & Hnode & H). apply bind_Some in H as (run & Hrun & H). apply bind_Some in H as (expiry & Hx & H).
    destruct (_ && _) eqn:Hc; [|done]. injection H as <- <-. bool_prop. by exists aid, row, node, run, expiry.
  - intros (aid & row & node & run & expiry & Ha & Hnode & Hrun & Hx & Hst & Hcur & Ht & ->). eexists (expiry, _).
    split; [reflexivity|]. exists (aid, row). split; [by apply elem_of_map_to_list|]. cbn. rewrite Hnode, Hrun, Hx. cbn.
    by rewrite !bool_decide_eq_true_2, (proj2 (Z.leb_le _ _) Ht).
Qed.

(** ** Scan and emission agree *)

(** The list an event of [type] comes from. *)
Definition due_wakeups (db : DB) (now : Time) (type : RuntimeEventType) : list Wakeup :=
  match type with
  | EvRetryDue => retry_wakeups db now
  | EvRunDeadlineReached => deadline_wakeups db now
  | _ => reconciliation_wakeups db
  end.

Definition actionable (db : DB) (now : Time) (w : Wakeup) : bool :=
  match wu_EventType w with
  | EvRunCreated => run_exists db w unstarted_run
  | EvRunCancelRequested => run_exists db w cancel_pending
  | EvRunDeadlineReached => run_exists db w (deadline_due now)
  | EvRetryDue => retry_exists db now w
  | EvAttemptCompleted => unnoticed_exists completed_state db w
  | EvAttemptLost => unnoticed_exists lost_state db w
  | EvOther _ => false
  end.

(** A wake-up names a run of the store and carries its trace. *)
Definition traced (db : DB) (w : Wakeup) : Prop :=
  ∃ run, run_row db (wu_ProjectID w) (wu_RunID w) = Some run ∧ rr_TraceID run = wu_TraceID w.

Lemma still_actionable clock w db : Wakeup_Validate w = Ok tt → ∃ ticks,
  wakeupStillActionable clock w db = (db <| db_ticks := ticks |>, Ok (actionable db (clock (db_ticks db)) w)).
Proof.
  intros Hv. assert (db = db <| db_ticks := db_ticks db |>) as Hdb by by destruct db.
  unfold wakeupStillActionable, actionable. rewrite (tx_step tx_get _ _ _ _ eq_refl).
  destruct (wu_EventType w) eqn:Ht; try (exists (db_ticks db); by rewrite <-Hdb); try by eexists.
  unfold Wakeup_Validate in Hv. rewrite Ht in Hv. by destruct (guard_err _ _).
Qed.

Section Agree.
Context (nid : string → string → string) (order : range_order) (ValidateSource : string → option (string * string)).
Local Notation sound := (sound nid order ValidateSource).

Lemma run_wakeup_valid db type r run : sound db → db_runs db !! r = Some run →
  match type with EvRunCreated | EvRunCancelRequested | EvRunDeadlineReached => True | _ => False end →
  Wakeup_Validate (run_wakeup type (r, run)) = Ok tt ∧ traced db (run_wakeup type (r, run)) ∧
  ∀ p, run_exists db (run_wakeup type (r, run)) p = p run.
Proof.
  intros Hs Hr Ht. assert (run_row db (rr_ProjectID run) r = Some run) as Hrow.
  { unfold run_row. rewrite Hr. by rewrite bool_decide_eq_true_2. }
  destruct (sound_named nid order ValidateSource db _ _ _ Hs Hrow) as [Hp Hrid]. split_and!.
  - unfold Wakeup_Validate, run_wakeup. cbn.
    rewrite (bool_decide_eq_false_2 _ Hp), (bool_decide_eq_false_2 _ Hrid), (bool_decide_eq_true_2 (r = r)) by done.
    by destruct type.
  - by exists run.
  - intros p. unfold run_exists, run_wakeup. cbn. by rewrite Hrow.
Qed.

Lemma run_listed db w p : Wakeup_Validate w = Ok tt → traced db w →
  match wu_EventType w with EvRunCreated | EvRunCancelRequested | EvRunDeadlineReached => True | _ => False end →
  run_exists db w p = true → ∃ run, db_runs db !! wu_RunID w = Some run ∧ p run = true ∧ w = run_wakeup (wu_EventType w) (wu_RunID w, run).
Proof.
  intros Hv (run & Hrow & Htrace) Ht He. unfold run_exists in He. rewrite Hrow in He.
  apply run_row_Some in Hrow as [Hr Hp]. exists run. split_and!; [done|done|]. unfold run_wakeup. cbn. rewrite Hp, Htrace.
  unfold Wakeup_Validate in Hv. apply bind_guard in Hv as [_ Hv]. destruct w as [p' r a t tr]. cbn in *. f_equal.
  destruct t; try done; apply guard_Ok in Hv; by bool_prop.
Qed.
Lemma attempt_wakeup_listed type states db w : sound db → type = EvAttemptCompleted ∨ type = EvAttemptLost →
  (∃ t, (t, w) ∈ attempt_candidates type states db) ↔
  wu_EventType w = type ∧ Wakeup_Validate w = Ok tt ∧ traced db w ∧ unnoticed_exists states db w = true.
Proof.
  intros Hs Htype. setoid_rewrite elem_of_attempt_candidates. unfold unnoticed_exists. rewrite bool_decide_eq_true. split.
  - intros (t & aid & row & run & Ha & Hun & -> & ->). cbn.
    destruct (sound_attempt_named nid order ValidateSource db aid row Hs Ha) as (H1 & H2 & H3).
    split_and!; [done| | |].
    + unfold Wakeup_Validate. cbn. by destruct Htype as [-> | ->]; rewrite !bool_decide_eq_false_2.
    + pose proof Hun as Hrun. unfold unnoticed in Hrun. apply bind_Some in Hrun as (node & _ & Hrun). apply bind_Some in Hrun as (run' & Hrun' & Hif).
      destruct (_ && _) in Hif; [|done]. injection Hif as ->. by exists run.
    + unfold attempt_row. rewrite Ha. cbn. unfold attempt_of_run. rewrite !bool_decide_eq_true_2 by done. cbn. by rewrite Hun.
  - intros (<- & Hv & (run & Hrow & Htrace) & (run' & Hex)). apply bind_Some in Hex as (row & Hr & Hun).
    apply attempt_row_Some in Hr as [Ha Hin]. apply attempt_in_run_inv in Hin as [Hp Hr].
    eexists _, (wu_AggregateID w), row, run'. split_and!; [done|done|reflexivity|]. rewrite Hp, Hr.
    assert (rr_TraceID run' = wu_TraceID w) as ->; [|by destruct w].
    unfold unnoticed in Hun. rewrite Hp, Hr, Hrow in Hun. apply bind_Some in Hun as (node & _ & Hun). cbn in Hun. by case_match; simplify_eq.
Qed.

Lemma run_candidate_listed type p due db w : sound db →
  match type with EvRunCreated | EvRunCancelRequested | EvRunDeadlineReached => True | _ => False end →
  (∃ t, (t, w) ∈ run_candidates type p due db) ↔
  wu_EventType w = type ∧ Wakeup_Validate w = Ok tt ∧ traced db w ∧ run_exists db w p = true.
Proof.
  intros Hs Ht. setoid_rewrite elem_of_run_candidates. split.
  - intros (t & r & run & Hr & Hp & -> & ->). destruct (run_wakeup_valid db type r run Hs Hr Ht) as (H1 & H2 & H3). by rewrite H3.
  - intros (<- & Hv & Htr & He). destruct (run_listed db w p Hv Htr Ht He) as (run & Hr & Hp & Hw). by exists (due run), (wu_RunID w), run.
Qed.

Lemma retry_listed db now w : sound db →
  w ∈ retry_wakeups db now ↔ wu_EventType w = EvRetryDue ∧ Wakeup_Validate w = Ok tt ∧ traced db w ∧ retry_exists db now w = true.
Proof.
  intros Hs. rewrite elem_of_retries. unfold retry_exists. rewrite existsb_exists. split.
  - intros (k & row & run & Hk & Hdue & ->). pose proof Hdue as Hd. unfold retry_due in Hd. destruct (_ && _) eqn:Hc in Hd; [|done].
    unfold dispatchable_run in Hd. apply bind_Some in Hd as (run' & Hrun & Hd). destruct (_ && _) in Hd; [|done]. injection Hd as ->.
    destruct (sound_named nid order ValidateSource db _ _ _ Hs Hrun) as [Hp Hr]. bool_prop. split_and!; [done|..].
    + unfold Wakeup_Validate. cbn. by rewrite !bool_decide_eq_false_2.
    + by exists run.
    + exists (k, row). split; [by apply list_elem_of_In, elem_of_map_to_list|]. cbn. unfold node_of_run, nullableString.
      rewrite Hdue, (bool_decide_eq_false_2 (_ = "")) by done. by rewrite !bool_decide_eq_true_2.
  - intros (Ht & Hv & (run & Hrun & Htrace) & [k row] & Hk%list_elem_of_In%elem_of_map_to_list & Hc). cbn in Hc.
    unfold node_of_run in Hc. bool_prop. destruct_and?. destruct (retry_due db now row) as [run'|] eqn:Hdue; [|by match goal with H : is_Some None |- _ => destruct H end].
    exists k, row, run'. split_and!; [done|done|]. destruct w as [p r a t tr]. cbn in *. subst. f_equal.
    + unfold nullableString in *. by case_bool_decide; simplify_eq.
    + unfold retry_due in Hdue. destruct (_ && _) in Hdue; [|done]. unfold dispatchable_run in Hdue.
      rewrite Hrun in Hdue. cbn in Hdue. by case_match; simplify_eq.
Qed.

Lemma reconciliation_listed db w : sound db → w ∈ reconciliation_wakeups db ↔
  (wu_EventType w = EvRunCreated ∧ Wakeup_Validate w = Ok tt ∧ traced db w ∧ run_exists db w unstarted_run = true) ∨
  (wu_EventType w = EvRunCancelRequested ∧ Wakeup_Validate w = Ok tt ∧ traced db w ∧ run_exists db w cancel_pending = true) ∨
  (wu_EventType w = EvAttemptCompleted ∧ Wakeup_Validate w = Ok tt ∧ traced db w ∧ unnoticed_exists completed_state db w = true) ∨
  (wu_EventType w = EvAttemptLost ∧ Wakeup_Validate w = Ok tt ∧ traced db w ∧ unnoticed_exists lost_state db w = true).
Proof.
  intros Hs. rewrite elem_of_reconciliation, <-(run_candidate_listed EvRunCreated unstarted_run rr_CreatedAt db w Hs I),
    <-(run_candidate_listed EvRunCancelRequested cancel_pending rr_CancelRequestedAt db w Hs I),
    <-(attempt_wakeup_listed EvAttemptCompleted completed_state db w Hs (or_introl eq_refl)),
    <-(attempt_wakeup_listed EvAttemptLost lost_state db w Hs (or_intror eq_refl)).
  split; [intros (t & [?|[?|[?|?]]])|intros [[t ?]|[[t ?]|[[t ?]|[t ?]]]]]; eauto 6.
Qed.

Lemma reconciliation_valid db w : sound db → w ∈ reconciliation_wakeups db → Wakeup_Validate w = Ok tt.
Proof. intros Hs. rewrite (reconciliation_listed db w Hs). tauto. Qed.

(** A scan lists a wake-up exactly when emitting it would find it actionable. *)
Lemma listed_actionable db now w : sound db →
  w ∈ due_wakeups db now (wu_EventType w) ↔ Wakeup_Validate w = Ok tt ∧ traced db w ∧ actionable db now w = true.
Proof.
  intros Hs. pose proof (reconciliation_listed db w Hs) as Hrec.
  unfold due_wakeups, actionable. destruct (wu_EventType w) eqn:Ht;
    try (rewrite Hrec; split; [intros [(? & ? & ? & ?)|[(? & ? & ? & ?)|[(? & ? & ? & ?)|(? & ? & ? & ?)]]]; split_and!; first [done|congruence]|intros (? & ? & ?); tauto]).
  - rewrite (retry_listed db now w Hs). by split; [intros (_ & ? & ? & ?)|intros (? & ? & ?)].
  - rewrite elem_of_deadlines. split.
    + intros (r & run & Hr & Hd & ->). destruct (run_wakeup_valid db EvRunDeadlineReached r run Hs Hr I) as (? & ? & He). by rewrite He.
    + intros (Hv & Htr & He). destruct (run_listed db w (deadline_due now) Hv Htr) as (run & Hr & Hp & Hw); [by rewrite Ht|done|].
      rewrite Ht in Hw. by exists (wu_RunID w), run.
  - rewrite Hrec. split; [naive_solver|by intros (_ & _ & ?)].
Qed.
End Agree.

(** ** Scans succeed *)

Lemma scan_valid l : (∀ w, w ∈ l → Wakeup_Validate w = Ok tt) → scanWakeups l = Ok l.
Proof.
  unfold scanWakeups. induction l as [|w l IH]; intros H; [done|]. cbn [scan_all].
  rewrite (H w) by (by left). cbn. rewrite IH; [done|]. intros x Hx. apply H. by right.
Qed.

Lemma elem_of_take_limit {A} (x : A) n l : x ∈ take n l → x ∈ l.
Proof. intros H. rewrite <-(take_drop n l). apply elem_of_app. by left. Qed.

(** ** Wake-up rows only advance *)

Definition wakeups_advance (db db' : DB) : Prop := ∀ k row, db_wakeups db !! k = Some row →
  ∃ row', db_wakeups db' !! k = Some row' ∧ wk_LastEmittedAt row ≤ wk_LastEmittedAt row' ∧ wk_EmitCount row ≤ wk_EmitCount row'.

Lemma wakeups_same db db' : db_wakeups db' = db_wakeups db → wakeups_advance db db'.
Proof. intros H k row Hk. exists row. by rewrite H. Qed.

#[export] Instance wakeups_preorder : PreOrder wakeups_advance.
Proof.
  split; [by intros db; apply wakeups_same|]. intros d1 d2 d3 H12 H23 k row Hk.
  destruct (H12 k row Hk) as (row2 & Hk2 & ? & ?), (H23 k row2 Hk2) as (row3 & Hk3 & ? & ?). exists row3. split_and!; [done|lia|lia].
Qed.

Lemma milliseconds_nonneg d : 0 ≤ d → 0 ≤ milliseconds d.
Proof. intros H. unfold milliseconds. pose proof (Z.quot_pos d 1000000 H). lia. Qed.

(** What the upsert does: it answers whether the cooldown has passed. *)
Lemma upsert_outcome clock emission db : let k := wakeup_key (we_Wakeup emission) in let now := clock (db_ticks db) in
  ∃ written, upsert_wakeup clock emission db = (
    if written : bool then db <| db_ticks := S (db_ticks db) |> <| db_wakeups :=
      <[k := MkWakeupRow (we_EventID emission) now (1 + default 0 (wk_EmitCount <$> db_wakeups db !! k))]> (db_wakeups db) |>
    else db <| db_ticks := S (db_ticks db) |>, Ok written) ∧
  (written = true ↔ ∀ row, db_wakeups db !! k = Some row → wk_LastEmittedAt row + milliseconds (we_Cooldown emission) ≤ now).
Proof.
  intros k now. unfold upsert_wakeup. rewrite (tx_step (clock_timestamp clock) _ _ _ _ eq_refl), (tx_step tx_get _ _ _ _ eq_refl).
  fold k. fold now. change (db_wakeups (db <| db_ticks := _ |>)) with (db_wakeups db).
  destruct (db_wakeups db !! k) as [row|] eqn:Hk.
  - destruct (wk_LastEmittedAt row <=? now - milliseconds (we_Cooldown emission)) eqn:Hle; bool_prop.
    + exists true. split; [rewrite (tx_step (tx_modify _) _ _ _ _ eq_refl); cbn; by rewrite Z.add_comm|].
      split; [|done]. intros _ row' [= <-]. lia.
    + exists false. split; [done|]. split; [done|]. intros H. specialize (H row eq_refl). lia.
  - exists true. by split.
Qed.

(** The row of an emission. *)
Lemma emission_row clock emission db db' : EmitWakeup clock emission db = (db', Ok true) → ∃ row,
  db_wakeups db' !! wakeup_key (we_Wakeup emission) = Some row ∧ wk_LastEventID row = we_EventID emission ∧
  ∀ old, db_wakeups db !! wakeup_key (we_Wakeup emission) = Some old →
    wk_LastEmittedAt old + milliseconds (we_Cooldown emission) ≤ wk_LastEmittedAt row ∧ wk_EmitCount old < wk_EmitCount row.
Proof.
  intros H. unfold EmitWakeup in H. apply tx_bind_Ok in H as (w & [] & [-> Hc]%lift_Ok & H). rewrite transaction_Ok in H.
  assert (Wakeup_Validate (we_Wakeup emission) = Ok tt) as Hv.
  { unfold emission_checks in Hc. by destruct (Wakeup_Validate _) as [[]|]. }
  destruct (still_actionable clock (we_Wakeup emission) db Hv) as [ticks Hact]. rewrite (tx_step _ _ _ _ _ Hact) in H.
  set (db1 := db <| db_ticks := ticks |>) in H. destruct (negb _); [done|].
  destruct (upsert_outcome clock emission db1) as (written & Hup & Hcool). rewrite (tx_step _ _ _ _ _ Hup) in H.
  destruct written; [|done]. apply tx_bind_Ok in H as (w & [] & (_ & _ & ->)%insertOutbox_Ok & H). injection H as <-.
  eexists. split; [cbn; apply lookup_insert_eq|]. split; [done|]. intros old Hold. cbn.
  pose proof (proj1 Hcool eq_refl old Hold) as Hle. change (db_wakeups db1) with (db_wakeups db). rewrite Hold. cbn. split; [exact Hle|lia].
Qed.

#[export] Instance wakeups_calls clock jsonb : CallRelation clock jsonb wakeups_advance.
Proof.
  split; try (intros; by apply wakeups_same); [apply _|intros db; by apply wakeups_same|..].
  - intros consumer event db. apply wakeups_same. unfold accept_inbox. by destruct (bool_decide _).
  - intros before after db. apply wakeups_same. unfold updateRunCAS. destruct (run_row _ _ _); [|done]. by destruct (_ && _).
  - intros row db. apply wakeups_same. unfold insert_run. by destruct (db_runs db !! _).
  - intros p r aid P f _ db. apply wakeups_same. unfold update_attempt. destruct (attempt_row _ _ _ _); [|done]. by destruct (P _).
  - intros router command. apply respects_dispatch; try (intros; by apply wakeups_same); [apply _|intros db; by apply wakeups_same|].
    intros aid row _ db. apply wakeups_same. unfold insert_attempt. by destruct (db_attempts db !! _).
  - intros aid outputs db. apply wakeups_same. unfold insert_outputs. by destruct (db_outputs db !! _).
  - intros record db. apply wakeups_same. unfold Heartbeat. rewrite (tx_step (clock_timestamp clock) _ _ _ _ eq_refl), (tx_step tx_get _ _ _ _ eq_refl).
    destruct (attempt_row _ _ _ _) as [row|]; [|done]. destruct (held_lease _ _ _ _ _); [|done].
    rewrite (tx_step (tx_modify _) _ _ _ _ eq_refl). unfold mbind, tx_bind, tx_lift. by destruct (ra_LeaseOwner row).
  - intros emission Hc db. destruct (upsert_outcome clock emission db) as (written & -> & Hw). destruct written; [|by apply wakeups_same].
    pose proof (proj1 Hw eq_refl) as Hcool. pose proof (milliseconds_nonneg _ Hc). intros k row Hk. cbn. rewrite lookup_insert. case_decide as Heq.
    + subst k. eexists. split; [done|]. cbn. rewrite Hk. cbn. specialize (Hcool row Hk). lia.
    + by exists row.
Qed.

(** No call writes a definition. *)
Definition same_snapshots (db db' : DB) : Prop := db_snapshots db' = db_snapshots db.

#[export] Instance snapshots_calls clock jsonb : CallRelation clock jsonb same_snapshots.
Proof.
  unfold same_snapshots. split; try done.
  - split; [done|]. intros d1 d2 d3. congruence.
  - intros consumer event db. unfold accept_inbox. by destruct (bool_decide _).
  - intros before after db. unfold updateRunCAS. destruct (run_row _ _ _); [|done]. by destruct (_ && _).
  - intros row db. unfold insert_run. by destruct (db_runs db !! _).
  - intros p r aid P f _ db. unfold update_attempt. destruct (attempt_row _ _ _ _); [|done]. by destruct (P _).
  - intros router command. apply respects_dispatch; try done; [split; [done|]; intros d1 d2 d3; congruence|].
    intros aid row _ db. unfold insert_attempt. by destruct (db_attempts db !! _).
  - intros aid outputs db. unfold insert_outputs. by destruct (db_outputs db !! _).
  - intros record db. unfold Heartbeat. rewrite (tx_step (clock_timestamp clock) _ _ _ _ eq_refl), (tx_step tx_get _ _ _ _ eq_refl).
    destruct (attempt_row _ _ _ _) as [row|]; [|done]. destruct (held_lease _ _ _ _ _); [|done].
    rewrite (tx_step (tx_modify _) _ _ _ _ eq_refl). unfold mbind, tx_bind, tx_lift. by destruct (ra_LeaseOwner row).
  - intros emission _ db. destruct (upsert_outcome clock emission db) as (written & -> & _). by destruct written.
Qed.

(** ** A lapsed lease stays lapsed *)

Section Lapsed.
Context (clock : nat → Time) (jsonb : string → string) (t : Time) (aid : string).

(** The attempt has a result, or its lease ended before [t], which every later
    reading of the clock has reached. *)
Definition lapsed (db : DB) : Prop :=
  (∀ n, (db_ticks db ≤ n)%nat → t ≤ clock n) ∧
  ∃ row, db_attempts db !! aid = Some row ∧
    (AttemptState_Terminal (ra_State row) = true ∨ ra_State row = AttemptRunning ∧ ∃ x, ra_LeaseExpiresAt row = Some x ∧ x < t).

Definition stays_lapsed (db db' : DB) : Prop := (db_ticks db ≤ db_ticks db')%nat ∧ (lapsed db → lapsed db').

#[local] Instance stays_preorder : PreOrder stays_lapsed.
Proof. split; [by intros db|]. intros d1 d2 d3 [? H1] [? H2]. split; [lia|by auto]. Qed.

Lemma stays_same db db' : (db_ticks db ≤ db_ticks db')%nat → db_attempts db' = db_attempts db → stays_lapsed db db'.
Proof. intros Ht Ha. split; [done|]. intros [Hn Hr]. split; [intros n Hle; apply Hn; lia|by rewrite Ha]. Qed.

Lemma step_lapsed row row' : attempt_step row row' →
  AttemptState_Terminal (ra_State row) = true ∨ ra_State row = AttemptRunning ∧ (∃ x, ra_LeaseExpiresAt row = Some x ∧ x < t) →
  AttemptState_Terminal (ra_State row') = true.
Proof. intros [record now Hq|state error at_ Hr Ht] [H|[H _]]; [by rewrite Hq in H|by rewrite Hq in H|done|done]. Qed.

#[export] Instance lapsed_calls : CallRelation clock jsonb stays_lapsed.
Proof.
  split; try (intros; by apply stays_same); [apply _|intros db; apply stays_same; [cbn; lia|done]|..].
  - intros db d [Ht _]. by apply stays_same.
  - intros consumer event db. unfold accept_inbox. destruct (bool_decide _); by apply stays_same.
  - intros before after db. unfold updateRunCAS. destruct (run_row _ _ _); [|done]. destruct (_ && _); [|done]. by apply stays_same.
  - intros row db. unfold insert_run. destruct (db_runs db !! _); [done|]. by apply stays_same.
  - intros p r k P f Hf db. unfold update_attempt. destruct (attempt_row db p r k) as [row|] eqn:Hrow; [|done].
    destruct (P row) eqn:HP; [|done]. split; [done|]. intros [Hn (x & Hx & Hl)]. split; [done|]. cbn.
    destruct (decide (k = aid)) as [->|Hne]; [|exists x; by rewrite lookup_insert_ne].
    apply attempt_row_Some in Hrow as [Hrow _]. assert (x = row) as -> by congruence. exists (f row). rewrite lookup_insert_eq.
    split; [done|]. left. eapply step_lapsed; [by apply Hf|done].
  - intros router command. apply respects_dispatch; try (intros; by apply stays_same); [apply _|intros db; apply stays_same; [cbn; lia|done]|
      intros db d [Ht _]; by apply stays_same|].
    intros k row _ db. unfold insert_attempt. destruct (db_attempts db !! k) eqn:Hfree; [done|]. split; [done|].
    intros [Hn (x & Hx & Hl)]. split; [done|]. exists x. cbn. rewrite lookup_insert_ne; [done|congruence].
  - intros k outputs db. unfold insert_outputs. destruct (db_outputs db !! k); [done|]. by apply stays_same.
  - intros record db. unfold Heartbeat. rewrite (tx_step (clock_timestamp clock) _ _ _ _ eq_refl), (tx_step tx_get _ _ _ _ eq_refl).
    set (db1 := db <| db_ticks := _ |>). assert (stays_lapsed db db1) as H1 by (apply stays_same; [cbn; lia|done]).
    destruct (attempt_row db1 _ _ _) as [row|] eqn:Hrow; [|done]. destruct (held_lease _ _ _ _ _) eqn:Hheld; [|done].
    rewrite (tx_step (tx_modify _) _ _ _ _ eq_refl). apply attempt_row_Some in Hrow as [Hrow _].
    match goal with |- context [(tx_lift _ ≫= _) ?d] => set (db2 := d); enough (stays_lapsed db db2) as H2 end.
    { unfold mbind, tx_bind, tx_lift. by destruct (ra_LeaseOwner row). }
    split; [cbn; lia|]. intros Hl. destruct (proj2 H1 Hl) as [Hn (x & Hx & Hs)]. split; [done|].
    destruct (decide (hb_AttemptID (hb_Command record) = aid)) as [Heq|Hne].
    + exfalso. rewrite Heq in Hrow. assert (x = row) as -> by congruence. unfold held_lease in Hheld. bool_prop.
      destruct Hl as [Hn0 _]. specialize (Hn0 (db_ticks db) ltac:(lia)). destruct Hs as [Hs|[_ (y & Hy & Hlt)]].
      * by match goal with H : ra_State row = _ |- _ => rewrite H in Hs end.
      * match goal with H : lease_valid row _ = true |- _ => unfold lease_valid in H; rewrite Hy in H; bool_prop end. lia.
    + exists x. subst db2. cbn. by rewrite lookup_insert_ne.
  - intros emission _ db. destruct (upsert_outcome clock emission db) as (written & -> & _).
    destruct written; apply stays_same; cbn; [lia|done|lia|done].
Qed.
End Lapsed.

(** ** A waiting node has its time *)

Definition retry_inv (e : Engine) : Prop := ∀ id n, en_nodes e !! id = Some n → nr_state n = NodeRetryWait → nr_nextRetryAt n ≠ 0.

Lemma node_apply_retry op n n' : node_apply op n = Ok n' → (nr_state n = NodeRetryWait → nr_nextRetryAt n ≠ 0) →
  nr_state n' = NodeRetryWait → nr_nextRetryAt n' ≠ 0.
Proof.
  intros H Hn Hs. destruct op; node_op_inv H; cbn in *; try done; auto.
  - by case_bool_decide.
  - unfold IsZero in *. by bool_prop.
Qed.

Section Waiting.
Context (order : range_order) (c : Contract) {HC : EngineContract c} (command : CreateRunCommand).

Lemma retry_set e e' id n n' op : retry_inv e → en_nodes e !! id = Some n → node_apply op n = Ok n' →
  en_nodes e' = <[id := n']> (en_nodes e) → retry_inv e'.
Proof.
  intros Hi Hn Ha He k m. rewrite He, lookup_insert. case_decide as Hk; [|by apply Hi]. intros [= <-].
  eapply node_apply_retry; [done|]. by apply (Hi id).
Qed.

Lemma step_retry e e' : engine_step order e e' → retry_inv e → retry_inv e'.
Proof.
  intros Hstep Ho. destruct Hstep as
    [id n n' (Hn & Hp & _) _ _ H|id n n' (Hn & Hp & _) _ _ H|id n n' v (Hn & Hp & _) _ H|id n n' v r (Hn & Hp & _) _ _ _ H
    |id n v run' n' (Hn & Hp & _) _ _ H|id n n' op fl intent run' (Hn & Hp & _) _ H _ _ Hr
    |id n n' aid result op intent run' (Hn & _) _ _ H _ Hr|id n n' aid sq k a Hn _ Hnew H Ha
    |id n n' aid a a' Hn Ha Hw Hst H|id n aid a a' result Hn Ha Hw Hcur Hr H|id n n' aid result (Hn & _) _ _ H
    |id n n' aid result k due (Hn & _) _ _ H|id n n' at_ Hn _ H|intent run' _ Hr
    |id n n' intent settled Hn _ _ Haw H|run' H]; try destruct settled; try exact Ho;
    try (eapply retry_set; [exact Ho|exact Hn|first [exact H|step_op H; exact H]|reflexivity]).
  apply CompleteWorkflowSuccess_Ok in H as (_ & _ & _ & _ & _ & _ & _ & _ & ->). intros k m. cbn. rewrite lookup_insert.
  case_decide; [by intros [= <-]|apply Ho].
Qed.

Lemma reachable_retry snapshot compat e : policies_ok (sn_DSL snapshot) →
  engine_reachable order c command snapshot compat e → retry_inv e.
Proof.
  intros Hp Hr. induction Hr as [e He|e op He IH].
  - apply New_started in He as (e0 & e1 & Hb & Hd & Hs & Hdr).
    assert (retry_inv e1) as H1.
    { intros id n Hn Hst. exfalso. destruct (started_nodes c command e0 e1 id n Hb Hs Hn) as [(_ & Hx & _)|[_ Hx]]; [congruence|].
      apply fresh_facts in Hx. destruct_and?. congruence. }
    assert (engine_inv c command e1) as Hi by (eapply started_inv; eauto using clone_policies).
    assert (rtc (engine_step order) e1 e) as Hst.
    { replace e with (drive order 0 e1).1 by (by rewrite Hdr). apply (drive_steps order c command); [done|]. by left. }
    clear -Hst H1. induction Hst as [|x y z Hxy _ IHs]; [done|]. by apply IHs, (step_retry x y).
  - pose proof (reachable_inv order c command snapshot compat e Hp He) as Hi.
    pose proof (engine_apply_steps order c command op e Hi) as Hst. unfold steps in Hst.
    clear -Hst IH. induction Hst as [|x y z Hxy _ IHs]; [done|]. by apply IHs, (step_retry x y).
Qed.
End Waiting.

(** ** The rows of a run with an engine *)

Section Stored.
Context (nid : string → string → string) (order : range_order) (ValidateSource : string → option (string * string)).
Context (db : DB) (p r : string).
Context (command : CreateRunCommand) (snapshot : Snapshot) (e : Engine).
Context (He : at_engine nid order ValidateSource db p r command snapshot e).
Context (run : WorkflowRunRecord) (Hrun : run_row db p r = Some run).

Lemma engine_running : RunState_Terminal (rr_State run) = false → rr_State run = RunRunning.
Proof using He Hrun.
  destruct (rp_run _ _ _ _ _ (ae_represents _ _ _ _ _ _ _ _ _ He)) as (trace & cancel & Hrow). rewrite Hrun in Hrow. injection Hrow as ->.
  pose proof (ev_static _ _ _ (ae_inv _ _ _ _ _ _ _ _ _ He)) as Hs. cbn. intros Ht. pose proof (sv_started _ _ _ Hs) as Hst.
  pose proof (rwf_facts _ _ (sv_run _ _ _ Hs)) as Hf. unfold run_state_facts in Hf. by destruct (wr_state (en_run e)).
Qed.

Lemma stored_node id n : en_nodes e !! id = Some n → ∃ row, node_row_of db p r (nid r id) = Some row ∧
  rn_ProjectID row = p ∧ nrr_RunID (rn_Record row) = r ∧ nrr_State (rn_Record row) = nr_state n ∧
  nrr_CurrentAttemptID (rn_Record row) = nr_currentAttemptID n ∧ nrr_NextRetryAt (rn_Record row) = nr_nextRetryAt n.
Proof using He.
  intros Hn. destruct (ro_row _ _ _ _ _ (rp_nodes _ _ _ _ _ (ae_represents _ _ _ _ _ _ _ _ _ He)) id n Hn) as (row & Hrow & Hp & o & Ho).
  exists row. pose proof Hrow as [_ Hin]%node_row_Some. unfold node_of_run in Hin. bool_prop. by split_and!; try done; rewrite Ho.
Qed.

End Stored.

(** ** The reaper *)

Section Reaping.
Context (nid : string → string → string) (order : range_order) (ValidateSource : string → option (string * string)).
Context (clock : nat → Time) (jsonb : string → string).
Local Notation sound := (sound nid order ValidateSource).

Definition ended (db : DB) (p r aid : string) : Prop :=
  ∃ row, attempt_row db p r aid = Some row ∧ AttemptState_Terminal (ra_State row) = true.

Lemma outbox_error event db db' x : insertOutbox clock event db = (db', Err x) → reaper_tolerates x = false.
Proof.
  unfold insertOutbox, mbind, tx_bind, tx_lift, clock_timestamp, tx_get, tx_modify. destruct (RuntimeEvent_Validate event) as [u|y] eqn:Hv.
  - destruct (insert_row _ _ _ _) as [t|y] eqn:Hi; [done|]. intros [= _ <-]. unfold insert_row in Hi. by case_match; simplify_eq.
  - intros [= _ <-]. unfold RuntimeEvent_Validate, mbind, res_bind, guard_err in Hv. repeat case_match; by simplify_eq.
Qed.

(** A running attempt of a sound store and its node. *)
Lemma running_current db p r aid row : sound db → attempt_row db p r aid = Some row → ra_State row = AttemptRunning →
  ∃ node, node_row_of db p r (ra_NodeRunID row) = Some node ∧ scan_current node = Ok aid.
Proof.
  intros Hs Hrow Hrun. destruct (attempt_engine nid order ValidateSource db p r aid row Hs Hrow) as (command & snapshot & e & He).
  pose proof (ae_inv _ _ _ _ _ _ _ _ _ He) as Hi. pose proof (rp_attempts _ _ _ _ _ (ae_represents _ _ _ _ _ _ _ _ _ He)) as Hao.
  destruct (ao_only _ _ _ _ _ _ Hao aid row Hrow) as [a Ha].
  destruct (ao_row _ _ _ _ _ _ Hao aid a Ha) as (row' & id & Hrow' & Ho & Hst). assert (row' = row) as -> by congruence.
  destruct (av_attempt _ (ev_attempts _ _ _ Hi) aid a Ha) as (Hwf & Hid & id' & n & Ho' & Hn & _). assert (id' = id) as -> by congruence.
  destruct (stored_node nid order ValidateSource db p r command snapshot e He id n Hn) as (node & Hnode & _ & _ & _ & Hcur & _).
  exists node. rewrite (as_node _ _ _ _ _ _ _ Hst). split; [done|]. unfold scan_current. rewrite Hcur.
  rewrite (av_single _ (ev_attempts _ _ _ Hi) aid a id n Ha Ho Hn) by by rewrite <-(as_state _ _ _ _ _ _ _ Hst), Hrun.
  unfold nullableString. rewrite bool_decide_eq_false_2; [done|]. rewrite <-Hid. apply Hwf.
Qed.

(** Marking a lapsed attempt ends it, or fails for another reason than that
    someone else was first. *)
Lemma mark_running record db db' res x t p r aid row : sound db →
  p = ml_ProjectID (ml_Command record) → r = ml_RunID (ml_Command record) → aid = ml_AttemptID (ml_Command record) →
  attempt_row db p r aid = Some row → ra_Sequence row = ml_AttemptSequence (ml_Command record) →
  ra_State row = AttemptRunning → ra_LeaseExpiresAt row = Some x → x < t → t ≤ clock (db_ticks db) →
  MarkExpiredLost clock record db = (db', res) →
  match res with Ok _ => ended db' p r aid | Err y => reaper_tolerates y = false end.
Proof.
  intros Hs -> -> -> Hrow Hseq Hrun Hx Hlt Ht H. destruct (running_current db _ _ _ row Hs Hrow Hrun) as (node & Hnode & Hcur).
  unfold MarkExpiredLost, transaction in H.
  rewrite (tx_step _ _ db db row) in H by by apply load_attempt_row_Ok.
  rewrite (tx_step _ _ db db node) in H by by apply load_node_row_Ok.
  rewrite (tx_step (tx_lift _) _ db db (ml_AttemptID (ml_Command record))) in H by by (unfold tx_lift; rewrite Hcur).
  rewrite (tx_step _ _ db db row) in H by by apply load_attempt_row_Ok.
  rewrite (tx_step (tx_lift _) _ db db tt) in H by by (unfold tx_lift; rewrite Hseq, Z.eqb_refl, bool_decide_eq_true_2).
  rewrite (bool_decide_eq_false_2 (ra_State row = AttemptLost)) in H by by rewrite Hrun.
  rewrite (tx_step (tx_lift _) _ db db tt) in H by by (unfold tx_lift; rewrite Hrun).
  unfold lose_running in H. rewrite (tx_step (clock_timestamp clock) _ _ _ _ eq_refl) in H.
  set (now := clock (db_ticks db)) in H. set (db1 := db <| db_ticks := _ |>) in H.
  set (row' := complete_attempt AttemptLost (completionError lost_result) now row).
  rewrite (tx_step (update_attempt _ _ _ _ _) _ db1 (db1 <| db_attempts := <[ml_AttemptID (ml_Command record) := row']> (db_attempts db1) |>) true) in H.
  2:{ unfold update_attempt. change (attempt_row db1) with (attempt_row db). rewrite Hrow, Hrun, Hseq, !Z.eqb_refl. unfold lease_expired.
      by rewrite Hx, (proj2 (Z.leb_le _ _)) by (unfold now; lia). }
  rewrite (tx_step (tx_lift _) _ _ _ tt eq_refl) in H. unfold mbind, tx_bind in H.
  destruct (insertOutbox _ _ _) as [d [[]|y]] eqn:Hout; injection H as <- <-; [|by eapply outbox_error].
  apply insertOutbox_Ok in Hout as (_ & _ & ->). exists row'. split; [|done]. apply attempt_row_Some. cbn. rewrite lookup_insert_eq.
  split; [done|]. apply attempt_row_Some in Hrow as [_ Hin]. exact Hin.
Qed.

Lemma ended_kept db db' p r aid : history db db' → ended db p r aid → ended db' p r aid.
Proof.
  intros Hh (row & [Ha Hin]%attempt_row_Some & Ht). destruct (hi_attempts _ _ Hh aid row Ha) as (row' & Ha' & Hah).
  rewrite (ah_final _ _ Hah Ht) in Ha'. exists row. split; [by apply attempt_row_Some|done].
Qed.

(** What the reaper's command says of the attempt. *)
Definition command_of (db : DB) (c : MarkLostCommand) : Prop :=
  ∃ row, attempt_row db (ml_ProjectID c) (ml_RunID c) (ml_AttemptID c) = Some row ∧ ra_Sequence row = ml_AttemptSequence c.

Lemma command_kept db db' c : history db db' → command_of db c → command_of db' c.
Proof.
  intros Hh (row & [Ha Hin]%attempt_row_Some & Hseq). destruct (hi_attempts _ _ Hh _ row Ha) as (row' & Ha' & Hah).
  exists row'. split; [|by rewrite (ah_sequence _ _ Hah)]. apply attempt_row_Some. split; [done|].
  apply attempt_in_run_inv in Hin as [Hp Hr]. apply attempt_in_run; by rewrite ?(ah_project _ _ Hah), ?(ah_run _ _ Hah).
Qed.

#[local] Instance reaping : Repository DB := store_repository clock jsonb.

(** One command of the scan. *)
Lemma mark_one id now c db db' res t : sound db → (∀ x, id = Err x → reaper_tolerates x = false) → command_of db c →
  lapsed clock t (ml_AttemptID c) db → Coordinator_MarkExpiredLost id now c db = (db', res) →
  match res with Ok _ => True | Err y => reaper_tolerates y = true end → ended db' (ml_ProjectID c) (ml_RunID c) (ml_AttemptID c).
Proof.
  intros Hs Hid (row & Hrow & Hseq) [Hn (row0 & Ha0 & Hl)] H Hres. pose proof Hrow as [Ha _]%attempt_row_Some.
  assert (row0 = row) as -> by congruence.
  assert (history db db') as Hh.
  { change db' with (db', res).1. rewrite <-H. unfold Coordinator_MarkExpiredLost.
    do 2 (apply checked; [done|intros ? _]). apply (calls_lost clock jsonb history). }
  destruct Hl as [Ht|[Hrun (x & Hx & Hlt)]]; [by eapply ended_kept; [|exists row]|].
  unfold Coordinator_MarkExpiredLost in H. unfold mbind at 1, tx_bind at 1, tx_lift at 1 in H.
  destruct (guard_err _ _) as [u|y] eqn:Hg; [|injection H as <- <-; unfold guard_err in Hg; case_match; simplify_eq; done].
  unfold mbind, tx_bind, tx_lift in H. destruct id as [event|y]; [|injection H as <- <-; by rewrite (Hid y eq_refl) in Hres].
  pose proof (mark_running (MkMarkLostRecord c event now) db db' res x t _ _ _ row Hs eq_refl eq_refl eq_refl Hrow Hseq Hrun Hx Hlt
    (Hn _ (Nat.le_refl _)) H) as Hm. destruct res; [done|congruence].
Qed.
End Reaping.
