(* ===== verification/RecoveryCover.v ===== *)
(** * Who takes a run further

    [attended]: an unfinished run is found by a recovery query or by the
    scheduler's, at the place it has in the query's order; or it waits for a time
    that has not come; or an attempt of it is with a worker or, as a task
    message, in the outbox.  [tasked], that a task message goes with every
    attempt, is kept by every call. *)

From S2P Require Import Prelude Json Graph Dsl Branch Runtime Engine.
From S2P Require Import EngineSteps EngineInv EngineFacts EngineInit EngineProgress EngineLive BranchRoutes RunSafety EngineVersions EngineState.
From S2P Require Import Scheduling Eventing Consumer Store RunControl AttemptStore SchedulingStore Recovery.
From S2P Require Import StoreFacts StoreRefine AttemptRefine InitRefine StoreSound StoreHistory RecoveryFacts.

Open Scope string_scope.
Open Scope list_scope.
Open Scope Z_scope.

(** ** Attempts and their tasks *)

Definition same_identity (row row' : AttemptRow) : Prop :=
  ra_ProjectID row' = ra_ProjectID row ∧ ra_RunID row' = ra_RunID row ∧ ra_NodeRunID row' = ra_NodeRunID row ∧
  ra_Sequence row' = ra_Sequence row.

(** The message that hands the attempt to a worker. *)
Definition task_of (aid : string) (row : AttemptRow) (task : TaskMessage) : Prop :=
  tm_AttemptID task = aid ∧ tm_ProjectID task = ra_ProjectID row ∧ tm_RunID task = ra_RunID row ∧
  tm_NodeRunID task = ra_NodeRunID row ∧ tm_AttemptSequence task = ra_Sequence row.

Definition tasked (db : DB) : Prop := ∀ aid row, db_attempts db !! aid = Some row →
  ∃ id o, db_tasks db !! id = Some o ∧ task_of aid row (ob_message o).

Definition keeps_tasked (db db' : DB) : Prop := tasked db → tasked db'.

#[export] Instance keeps_tasked_preorder : PreOrder keeps_tasked.
Proof. split; [by intros db H|]. intros d1 d2 d3 H1 H2 H. by apply H2, H1. Qed.

Lemma tasked_rows db db' : db_tasks db' = db_tasks db →
  (∀ aid row', db_attempts db' !! aid = Some row' → ∃ row, db_attempts db !! aid = Some row ∧ same_identity row row') →
  keeps_tasked db db'.
Proof.
  intros Ht Ha H aid row' Hrow'. destruct (Ha aid row' Hrow') as (row & Hrow & Hp & Hr & Hn & Hs).
  destruct (H aid row Hrow) as (id & o & Ho & Htask). exists id, o. rewrite Ht. split; [done|]. unfold task_of in *. by rewrite Hp, Hr, Hn, Hs.
Qed.

Lemma tasked_same db db' : db_tasks db' = db_tasks db → db_attempts db' = db_attempts db → keeps_tasked db db'.
Proof. intros Ht Ha. apply tasked_rows; [done|]. intros aid row. rewrite Ha. intros Hrow. by exists row. Qed.

Lemma tasked_update db aid row row' : db_attempts db !! aid = Some row → same_identity row row' →
  keeps_tasked db (db <| db_attempts := <[aid := row']> (db_attempts db) |>).
Proof.
  intros Hr Hid. apply tasked_rows; [done|]. intros k x. cbn. rewrite lookup_insert. case_decide as Hk.
  - subst k. intros [= <-]. by exists row.
  - intros Hx. by exists x.
Qed.

Lemma restored_run record node : RestoreNodeRun record = Ok node → nr_runID node = nrr_RunID record.
Proof. unfold RestoreNodeRun. intros H. apply bind_Ok in H as (? & _ & H). repeat apply bind_guard in H as [_ H]. by injection H as <-. Qed.

Lemma queued_run n aid n' x : NodeRun_QueueAttempt n aid = Ok (n', x) → nr_runID n' = nr_runID n.
Proof.
  unfold NodeRun_QueueAttempt. intros H. do 2 apply bind_guard in H as [_ H].
  apply bind_Ok in H as (n1 & (_ & ->)%NodeRun_transition_Ok & [= <- _]). by case_bool_decide.
Qed.

(** A dispatch writes the attempt and its task together. *)
Lemma queue_candidate_tasked clock command row class trace db db' task :
  queue_candidate clock command row class trace db = (db', Ok task) → keeps_tasked db db'.
Proof.
  unfold queue_candidate. intros H Hall. tx_inv H.
  match goal with x : NodeRun * (Z * RetryKind) |- _ => destruct x as [n' [sq k]] end. tx_inv H.
  match goal with H : RestoreNodeRun _ = _ |- _ => apply restored_run in H as Hrun end.
  match goal with H : NodeRun_QueueAttempt _ _ = _ |- _ => apply queued_run in H as Hrun' end.
  match goal with H : NewNodeAttempt _ _ _ _ = Ok ?x |- _ => unfold NewNodeAttempt in H; destruct (_ || _) in H; [done|]; injection H as <- end.
  match goal with H : insert_attempt _ _ _ = _ |- _ => unfold insert_attempt in H; destruct (db_attempts db !! _) as [|] eqn:Hfree; [done|]; injection H as <- _ end.
  match goal with H : update_nodes _ _ _ = _ |- _ => unfold update_nodes in H; destruct (update_where _ _ _) in H; injection H as <- _ end.
  match goal with H : insert_task _ _ _ = _ |- _ => unfold insert_task in H; tx_inv H; rename H into Htask end. rows_inv.
  match goal with H : insert_row _ _ _ _ = Ok ?x |- _ => unfold insert_row in H; destruct (_ !! tm_TaskID _) eqn:Htid in H; [done|]; injection H as <- end.
  injection Htask as <- _. cbn in Htid. intros aid arow. cbn. rewrite lookup_insert. destruct (decide (dp_AttemptID command = aid)) as [Hk|Hk].
  - intros [= <-]. subst aid. eexists _, _. split; [apply lookup_insert_eq|]. unfold task_of. cbn. split_and!; try done. by rewrite Hrun', Hrun.
  - intros (id & o & Ho & Ht)%Hall. exists id, o. split; [|done]. rewrite lookup_insert_ne; [done|]. intros <-. congruence.
Qed.

#[export] Instance tasked_calls clock jsonb : CallRelation clock jsonb keeps_tasked.
Proof.
  split; try (intros; by apply tasked_same); [apply _|intros db; by apply tasked_same|..].
  - intros consumer event db. unfold accept_inbox. by destruct (bool_decide _); apply tasked_same.
  - intros before after db. unfold updateRunCAS. destruct (run_row _ _ _); [|done]. by destruct (_ && _); apply tasked_same.
  - intros row db. unfold insert_run. by destruct (db_runs db !! _); apply tasked_same.
  - intros p r aid P f Hf db. unfold update_attempt. destruct (attempt_row db p r aid) as [row|] eqn:Hrow; [|done].
    destruct (P row) eqn:HP; [|done]. apply attempt_row_Some in Hrow as [Hrow _]. eapply tasked_update; [done|].
    destruct (step_history _ _ (Hf row HP)). by split_and!.
  - intros router command db. destruct (DispatchReady clock router command db) as [db' [task|x]] eqn:H; cbn [fst].
    + unfold DispatchReady in H. tx_inv H. rewrite transaction_Ok in H. tx_inv H. rows_inv.
      apply queue_candidate_tasked in H. etrans; [|exact H]. by apply tasked_same.
    + enough (db' = db <| db_ticks := db_ticks db' |>) as -> by by apply tasked_same. revert H. unfold DispatchReady.
      apply undone_checked. intros _. apply undone_checked. intros _. apply undone_transaction.
  - intros aid outputs db. unfold insert_outputs. by destruct (db_outputs db !! _); apply tasked_same.
  - intros record db. unfold Heartbeat. rewrite (tx_step (clock_timestamp clock) _ _ _ _ eq_refl), (tx_step tx_get _ _ _ _ eq_refl).
    set (db1 := db <| db_ticks := _ |>). assert (keeps_tasked db db1) as H1 by by apply tasked_same.
    destruct (attempt_row db1 _ _ _) as [row|] eqn:Hrow; [|done]. destruct (held_lease _ _ _ _ _); [|done].
    rewrite (tx_step (tx_modify _) _ _ _ _ eq_refl). apply attempt_row_Some in Hrow as [Hrow _].
    match goal with |- context [(tx_lift _ ≫= _) ?d] => assert (keeps_tasked db1 d) as H2 by by eapply tasked_update end.
    unfold mbind, tx_bind, tx_lift. destruct (ra_LeaseOwner row); by etrans.
  - intros emission _ db. destruct (upsert_outcome clock emission db) as (written & -> & _). by destruct written; apply tasked_same.
Qed.

(** ** What keeps a run going *)

Section Attended.
Context (router : Coordinate → option string) (db : DB) (now grace : Time) (p r : string).

(** A query at [now] that takes more than [i] entries answers, and with [x]. *)
Definition found_by {A} (query : Z → tx DB (list A)) (i : nat) (x : A) : Prop :=
  ∀ batch, Z.of_nat i < batch → ∃ found, (query batch db).2 = Ok found ∧ x ∈ found.

(** A wake-up of the run has place [i] among those that are due, the scan finds
    it there, and its emission passes the check that it is still true. *)
Definition woken (query : Z → tx DB (list Wakeup)) (due : list Wakeup) : Prop := ∃ i w,
  due !! i = Some w ∧ wu_ProjectID w = p ∧ wu_RunID w = r ∧ found_by query i w ∧
  (wakeupStillActionable (λ _, now) w db).2 = Ok true.

(** The scheduler's query takes the row when its window reaches place [i], and
    every snapshot it is loaded into offers it as a candidate. *)
Definition offered (i : nat) (k : string) (row : NodeRow) : Prop := ∀ window, Z.of_nat i < window →
  (k, row) ∈ candidate_rows db now (Z.to_nat window) ∧
  ∀ db' snapshot, LoadSchedulingSnapshot (λ _, now) router window db = (db', Ok snapshot) →
    ∃ c, c ∈ as_Candidates snapshot ∧ cd_ProjectID c = p ∧ cd_RunID c = r ∧ cd_NodeRunID c = k ∧
      cd_StateVersion c = nrr_StateVersion (rn_Record row).

(** Who takes the run further: a recovery scan at [now] or the scheduler, when
    their limits reach the run's place in their order; a retry time or the end
    of a worker's lease that [now] has not reached; or the task of an attempt
    that no worker has claimed, in the outbox. *)
Inductive attended : Prop :=
  | by_deadline : woken (ListDeadlinesDue (λ _, now)) (deadline_wakeups db now) → attended
  | by_reconciler : woken ListReconciliationWakeups (reconciliation_wakeups db) → attended
  | by_retry_timer : woken (ListRetryDue (λ _, now)) (retry_wakeups db now) → attended
  | by_reaper i c : expired_attempts db now grace !! i = Some c → ml_ProjectID c = p → ml_RunID c = r →
      found_by (ListExpiredAttempts (λ _, now) grace) i c → attended
  | by_scheduler i k row : project_candidates db now p !! i = Some (k, row) → nrr_RunID (rn_Record row) = r →
      offered i k row → attended
  | by_time k row : node_row_of db p r k = Some row → nrr_State (rn_Record row) = NodeRetryWait →
      now < nrr_NextRetryAt (rn_Record row) → attended
  | by_task aid row id o : attempt_row db p r aid = Some row → ra_State row = AttemptQueued →
      db_tasks db !! id = Some o → task_of aid row (ob_message o) → attended
  | by_lease aid row owner x : attempt_row db p r aid = Some row → ra_State row = AttemptRunning →
      ra_LeaseOwner row = Some owner → ra_LeaseExpiresAt row = Some x → now < x + milliseconds grace → attended.
End Attended.

(** ** Queries with a limit *)

Lemma LIMIT_reaches {A} (l : list A) i x batch : l !! i = Some x → Z.of_nat i < batch →
  LIMIT batch l = Ok (take (Z.to_nat batch) l) ∧ x ∈ take (Z.to_nat batch) l.
Proof.
  intros Hx Hb. unfold LIMIT. rewrite (proj2 (Z.ltb_ge _ _)) by lia. split; [done|].
  apply list_elem_of_lookup_2 with i. rewrite lookup_take_lt by lia. done.
Qed.

Lemma scan_all_elem {A B} (f : A → res B) l bs x : scan_all f l = Ok bs → x ∈ l → ∃ b, f x = Ok b ∧ b ∈ bs.
Proof.
  revert bs. induction l as [|a l IH]; intros bs H; [by intros ?%not_elem_of_nil|]. cbn [scan_all] in H.
  apply bind_Ok in H as (b & Hb & H). apply bind_Ok in H as (bs' & Hbs & [= <-]). intros [->|Hx]%elem_of_cons; [by exists b; split; [|left]|].
  destruct (IH bs' Hbs Hx) as (b' & ? & ?). exists b'. split; [done|by right].
Qed.

Section Queries.
Context (nid : string → string → string) (order : range_order) (ValidateSource : string → option (string * string)).
Local Notation sound := (sound nid order ValidateSource).
Context (router : Coordinate → option string) (db : DB) (now grace : Time) (p r : string) (Hs : sound db).

Lemma due_valid type w : w ∈ due_wakeups db now type → Wakeup_Validate w = Ok tt.
Proof using Hs.
  assert (∀ w, w ∈ reconciliation_wakeups db → Wakeup_Validate w = Ok tt) as Hrec by (intros; by eapply reconciliation_valid).
  destruct type; cbn [due_wakeups]; auto.
  - intros Hw. by apply (retry_listed nid order ValidateSource db now w Hs) in Hw as (_ & ? & _).
  - intros (r' & run & Hr & _ & ->)%elem_of_deadlines. by apply (run_wakeup_valid nid order ValidateSource db).
Qed.

Lemma scan_finds type i w batch : due_wakeups db now type !! i = Some w → Z.of_nat i < batch →
  ∃ found, (rows ← LIMIT batch (due_wakeups db now type); scanWakeups rows) = Ok found ∧ w ∈ found.
Proof using Hs.
  intros Hi Hb. destruct (LIMIT_reaches _ _ _ _ Hi Hb) as [-> Hw]. eexists. split; [|exact Hw]. cbn. apply scan_valid.
  intros x Hx%elem_of_take_limit. by eapply due_valid.
Qed.

Lemma wakes_run w : w ∈ due_wakeups db now (wu_EventType w) → wu_ProjectID w = p → wu_RunID w = r →
  match wu_EventType w with
  | EvRetryDue => woken db now p r (ListRetryDue (λ _, now)) (retry_wakeups db now)
  | EvRunDeadlineReached => woken db now p r (ListDeadlinesDue (λ _, now)) (deadline_wakeups db now)
  | _ => woken db now p r ListReconciliationWakeups (reconciliation_wakeups db)
  end.
Proof using Hs.
  intros Hw Hp Hr. pose proof (proj1 (listed_actionable nid order ValidateSource db now w Hs) Hw) as (Hv & _ & Hact).
  destruct (still_actionable (λ _, now) w db Hv) as [ticks Hstill]. rewrite Hact in Hstill.
  apply list_elem_of_lookup_1 in Hw as [i Hi]. pose proof (λ batch, scan_finds (wu_EventType w) i w batch Hi) as Hfind.
  destruct (wu_EventType w); (exists i, w; split_and!; [done|done|done| |by rewrite Hstill]); intros batch Hb;
    destruct (Hfind batch Hb) as (found & Hq & Hin); exists found; (split; [|done]); rewrite <-Hq; reflexivity.
Qed.

Lemma reaper_finds c : c ∈ expired_attempts db now grace → ∃ i, expired_attempts db now grace !! i = Some c ∧
  found_by db (ListExpiredAttempts (λ _, now) grace) i c.
Proof using.
  intros [i Hi]%list_elem_of_lookup_1. exists i. split; [done|]. intros batch Hb. destruct (LIMIT_reaches _ _ _ _ Hi Hb) as [Hl Hc].
  eexists. split; [|exact Hc]. exact Hl.
Qed.

Lemma candidate_offered k row : node_row_of db p r k = Some row → is_candidate db now k row = true → ∃ i,
  project_candidates db now p !! i = Some (k, row) ∧ nrr_RunID (rn_Record row) = r ∧ offered router db now p r i k row.
Proof using.
  intros [Hk Hin]%node_row_Some Hc. unfold node_of_run in Hin. bool_prop.
  assert (rn_ProjectID row = p ∧ nrr_RunID (rn_Record row) = r) as [Hp Hr] by by split.
  assert ((k, row) ∈ project_candidates db now p) as [i Hi]%list_elem_of_lookup_1.
  { unfold project_candidates. rewrite elem_of_sorted. apply elem_of_select. split; [done|]. cbn. by rewrite bool_decide_eq_true_2, Hc. }
  exists i. split_and!; [done|done|]. intros window Hw.
  assert ((k, row) ∈ candidate_rows db now (Z.to_nat window)) as Hrow.
  { unfold candidate_rows. apply list_elem_of_bind. exists p. split.
    - apply list_elem_of_lookup_2 with i. rewrite lookup_take_lt by lia. done.
    - unfold active_projects. rewrite elem_of_sorted_keys. exists tt. apply elem_of_list_to_map_1'; [by intros []|].
      apply list_elem_of_fmap. exists (k, row). split; [by rewrite <-Hp|]. by apply elem_of_select. }
  split; [done|]. intros db' snapshot Hload. unfold LoadSchedulingSnapshot in Hload. tx_inv Hload.
  assert (0 <? window = true) as Hpos by (apply Z.ltb_lt; lia).
  match goal with H : (if 0 <? window then _ else _) _ = _ |- _ => rewrite Hpos in H; rename H into Hl end.
  apply tx_bind_Ok in Hl as (d & at_ & Ht & Hl). injection Ht as <- <-. apply lift_Ok in Hl as [_ Hl].
  subst. destruct (scan_all_elem _ _ _ _ Hl Hrow) as (c & Hsc & Hcin). exists c. split; [done|].
  unfold scan_candidate in Hsc. apply bind_Ok in Hsc as (? & _ & Hsc). apply bind_Ok in Hsc as (? & _ & [= <-]). by split_and!.
Qed.
End Queries.

(** ** Every unfinished run *)

Section Covered.
Context (nid : string → string → string) (order : range_order) (ValidateSource : string → option (string * string)).
Local Notation sound := (sound nid order ValidateSource).
Local Notation contract := (BuiltinV1Contract ValidateSource).
Local Instance contract_ok4 : EngineContract contract := builtin_engine_contract ValidateSource.
Context (router : Coordinate → option string) (db : DB) (now grace : Time) (p r : string).
Context (Hsound : sound db) (Howned : owned db) (Htasked : tasked db).
Local Notation attended := (attended router db now grace p r).

Lemma attended_pending run : run_row db p r = Some run → rr_State run = RunPending → attended.
Proof using Hsound.
  intros [Hr Hp]%run_row_Some Hst. apply by_reconciler. destruct (IsZero (rr_CancelRequestedAt run)) eqn:Hz.
  - apply (wakes_run nid order ValidateSource db now p r Hsound (run_wakeup EvRunCreated (r, run))); [|done|done]. apply elem_of_reconciliation.
    exists (rr_CreatedAt run). left. apply elem_of_run_candidates. exists r, run. unfold unstarted_run. by rewrite Hst, Hz.
  - apply (wakes_run nid order ValidateSource db now p r Hsound (run_wakeup EvRunCancelRequested (r, run))); [|done|done]. apply elem_of_reconciliation.
    exists (rr_CancelRequestedAt run). right; left. apply elem_of_run_candidates. exists r, run.
    unfold cancel_pending, unfinished_run. by rewrite Hst, Hz.
Qed.

Context (command : CreateRunCommand) (snapshot : Snapshot) (e : Engine).
Context (He : at_engine nid order ValidateSource db p r command snapshot e).
Context (run : WorkflowRunRecord) (Hrun : run_row db p r = Some run).
Local Notation stored_node := (stored_node nid order ValidateSource db p r command snapshot e He).

Context (Hrunning : rr_State run = RunRunning).

(** A node with an attempt out. *)
Lemma attended_busy id n : en_nodes e !! id = Some n → busy n = true → attended.
Proof using He Hrun Hrunning Hsound Howned Htasked.
  intros Hn Hb. destruct (stored_node id n Hn) as (row & Hrow & Hp & Hr & Hst & Hcur & _).
  pose proof (ae_inv _ _ _ _ _ _ _ _ _ He) as Hi. destruct (sv_node _ _ _ (ev_static _ _ _ Hi) id n Hn) as (Hwf & _).
  pose proof (nwf_facts _ Hwf) as Hf. unfold node_state_facts in Hf.
  assert (nr_currentAttemptID n ≠ "") as Hne by (unfold busy in Hb; destruct (nr_state n); try done; by destruct_and? Hf).
  set (aid := nr_currentAttemptID n) in *.
  destruct (av_current _ (ev_attempts _ _ _ Hi) id n Hn Hne) as (a & Ha & Howner & Hph). fold aid in Ha, Howner.
  destruct (ao_row _ _ _ _ _ _ (rp_attempts _ _ _ _ _ (ae_represents _ _ _ _ _ _ _ _ _ He)) aid a Ha) as (arow & id' & Harow & Ho & Hstored).
  assert (id' = id) as -> by congruence. pose proof (as_node _ _ _ _ _ _ _ Hstored) as Hnode. pose proof (as_state _ _ _ _ _ _ _ Hstored) as Has.
  pose proof Harow as [Hat Hain]%attempt_row_Some. apply attempt_in_run_inv in Hain as [Hap Har].
  assert (nullableString (nrr_CurrentAttemptID (rn_Record row)) = Some aid) as Hnull.
  { rewrite Hcur. unfold nullableString. by rewrite bool_decide_eq_false_2. }
  destruct (AttemptState_Terminal (na_state a)) eqn:Ht.
  - assert (∀ states, states (ra_State arow) = true → unnoticed states db aid arow = Some run) as Hun.
    { intros states Hs. unfold unnoticed. rewrite Hap, Har, Hnode, Hrow, Hrun. cbn. rewrite Hs, Hnull, Hrunning, Hst.
      unfold busy in Hb. rewrite !bool_decide_eq_true_2 by done. by destruct (nr_state n). }
    set (w t := MkWakeup (ra_ProjectID arow) (ra_RunID arow) aid t (rr_TraceID run)).
    destruct (completed_state (ra_State arow)) eqn:Hc.
    + apply by_reconciler, (wakes_run nid order ValidateSource db now p r Hsound (w EvAttemptCompleted)); [|done|done]. apply elem_of_reconciliation. exists (ra_UpdatedAt arow).
      right; right; left. apply elem_of_attempt_candidates. exists aid, arow, run. split_and!; [done|by apply Hun|done|done].
    + assert (lost_state (ra_State arow) = true) as Hl by (rewrite Has in *; by destruct (na_state a)).
      apply by_reconciler, (wakes_run nid order ValidateSource db now p r Hsound (w EvAttemptLost)); [|done|done]. apply elem_of_reconciliation. exists (ra_UpdatedAt arow).
      right; right; right. apply elem_of_attempt_candidates. exists aid, arow, run. split_and!; [done|by apply Hun|done|done].
  - destruct Hph as [?|[[_ Hq]|[_ Hq]]]; [congruence|..]; rewrite <-Has in Hq.
    { destruct (Htasked aid arow Hat) as (id' & o & Ho' & Htask). by eapply by_task. }
    destruct (Howned aid arow Hat Hq) as [[owner Hheld] [x Hx]]. destruct (decide (x + milliseconds grace ≤ now)) as [Hle|Hlt]; [|eapply by_lease; [done..|lia]].
    destruct (reaper_finds db now grace (MkMarkLostCommand (ra_ProjectID arow) (ra_RunID arow) aid (ra_Sequence arow) (rr_TraceID run)))
      as (i & Hi' & Hfound); [|by eapply by_reaper].
    apply elem_of_expired. exists aid, arow, row, run, x. by rewrite Hnode, Hap, Har.
Qed.

(** The run of an engine at rest. *)
Lemma attended_engine : rest e → retry_inv e → upstream_bindings (en_doc e) → named_routes (en_doc e) → control_inv order command e →
  attended.
Proof using He Hrun Hrunning Hsound Howned Htasked.
  intros Hrest Hretry Hup Hnamed Hctl. pose proof (ae_inv _ _ _ _ _ _ _ _ _ He) as Hi.
  destruct (rp_run _ _ _ _ _ (ae_represents _ _ _ _ _ _ _ _ _ He)) as (trace & cancel & Hrow).
  assert (run = stamped trace cancel (WorkflowRun_Snapshot (en_run e))) as Hst by congruence.
  assert (wr_state (en_run e) = RunRunning) as Hs by by rewrite Hst in Hrunning.
  destruct (wr_termination (en_run e)) as [intent|] eqn:Hterm.
  { unfold rest in Hrest. rewrite Hterm in Hrest. destruct Hrest as [_ [Ht|(id & n & Hn & Hb)]]; [by rewrite Hs in Ht|].
    by eapply attended_busy. }
  assert (∀ type q due, q run = true → (due run, run_wakeup type (r, run)) ∈ run_candidates type q due db) as Hcand.
  { intros type q due Hq. apply elem_of_run_candidates. apply run_row_Some in Hrun as [Hr _]. by exists r, run. }
  pose proof Hrun as [_ Hpr]%run_row_Some.
  destruct (IsZero (rr_CancelRequestedAt run)) eqn:Hz.
  2:{ apply by_reconciler, (wakes_run nid order ValidateSource db now p r Hsound (run_wakeup EvRunCancelRequested (r, run))); [|done|done]. apply elem_of_reconciliation. exists (rr_CancelRequestedAt run). right; left. apply Hcand.
      unfold cancel_pending, unfinished_run. by rewrite Hrunning, Hz. }
  destruct (decide (rr_DeadlineAt run ≤ now)) as [Hle|Hlt].
  { apply by_deadline, (wakes_run nid order ValidateSource db now p r Hsound (run_wakeup EvRunDeadlineReached (r, run))); [|done|done]. apply elem_of_deadlines. apply run_row_Some in Hrun as [Hr _]. exists r, run. split_and!; [done| |done].
    unfold deadline_due, unfinished_run. rewrite Hrunning. cbn. by apply Z.leb_le. }
  assert (dispatchable_run db now p r = Some run) as Hdisp.
  { unfold dispatchable_run. rewrite Hrun. cbn. rewrite Hrunning, (bool_decide_eq_true_2 (RunRunning = RunRunning)) by done.
    rewrite bool_decide_eq_true_2 by by rewrite Hst. unfold Before. cbn. by rewrite (proj2 (Z.ltb_lt _ _)) by lia. }
  destruct (rest_works order contract command e Hi Hctl Hrest Hup Hnamed) as [Ht|(id & n & Hn & Hwork)]; [by rewrite Hs in Ht|].
  destruct (busy n) eqn:Hb; [by eapply attended_busy|].
  destruct (stored_node id n Hn) as (row & Hnrow & Hp & Hr & Hst' & Hcur & Hnext).
  destruct (nr_state n) eqn:Hns; unfold working, busy in *; rewrite Hns in *; try done.
  - destruct (candidate_offered router db now p r (nid r id) row Hnrow) as (i & Hi' & Hr' & Hoff); [|by eapply by_scheduler].
    unfold is_candidate. by rewrite Hst', Hp, Hr, Hdisp.
  - destruct (decide (nr_nextRetryAt n ≤ now)) as [Hle|Hgt]; [|eapply by_time; [exact Hnrow|done|lia]].
    apply by_retry_timer, (wakes_run nid order ValidateSource db now p r Hsound (MkWakeup p r (nr_currentAttemptID n) EvRetryDue (rr_TraceID run))); [|done|done].
    apply elem_of_retries. pose proof Hnrow as [Hk _]%node_row_Some. exists (nid r id), row, run. rewrite Hp, Hr, Hcur. split_and!; [done| |done].
    destruct (sv_node _ _ _ (ev_static _ _ _ Hi) id n Hn) as (Hwf & _). pose proof (nwf_facts _ Hwf) as Hf. unfold node_state_facts in Hf.
    rewrite Hns in Hf. destruct_and? Hf. unfold retry_due. rewrite Hst', Hnext, Hcur, Hp, Hr, Hdisp.
    rewrite (bool_decide_eq_true_2 (NodeRetryWait = _)), (bool_decide_eq_false_2 (_ = "")) by done.
    rewrite (proj2 (Z.leb_le _ _) Hle). unfold IsZero. by rewrite (proj2 (Z.eqb_neq _ _)) by by eapply Hretry.
Qed.
End Covered.

