(* ===== verification/StoreProps.v ===== *)
(** * Properties of the store and of its callers

    The claims about consuming events, creating and cancelling runs,
    dispatching, leasing and completing attempts, on the tables. *)

From S2P Require Import Prelude Json Graph Dsl Branch Runtime Engine.
From S2P Require Import EngineSteps EngineInv EngineFacts EngineInit EngineProgress EngineLive EngineVersions EngineState EngineProps.
From S2P Require Import Scheduling Eventing Consumer Store RunControl AttemptStore SchedulingStore Recovery.
From S2P Require Import StoreFacts StoreRefine AttemptRefine InitRefine StoreSound StoreHistory.

Open Scope string_scope.
Open Scope list_scope.
Open Scope Z_scope.

(** ** A sample store *)

Definition sample_clock (n : nat) : Time := 10000 + 1000 * Z.of_nat n.
Definition sample_nid (run node : string) : string := run +:+ "/" +:+ node.
Definition sample_router (c : Coordinate) : option string := Some ResourceBuiltin.

(** One project with one draft, and no runs. *)
Definition sample_store : DB :=
  MkDB ∅ {[("project", "snap") := Engine.sample_snapshot]} ∅ ∅ ∅ ∅ ∅ ∅ ∅ {[("project", "wf", "snap", 1) := ("snap", "hash")]}
    ∅ {["project"]} ∅ 0.

Definition sample_no_source : string → option (string * string) := λ _, None.
Definition sample_access (projectID principalID permission : string) : res unit := Ok tt.

Notation sample_call := (store_call sample_clock sample_router sample_nid id range_id sample_no_source sample_access rq_Input).
Notation sample_calls := (store_calls sample_clock sample_router sample_nid id range_id sample_no_source sample_access rq_Input).

Definition sample_test : StoreCall :=
  CallTestDraft (Ok "run") (Ok "ev1") 5000 (MkTestDraftRunCommand "project" "who" "wf" "snap" 1 sample_input 100000000 "key-0001" "trace").
Definition sample_created : RuntimeEvent :=
  MkRuntimeEvent 1 "ev1" "project" "run" WorkflowRunAggregate "run" EvRunCreated 5000 "trace".
Definition sample_dispatch_command : DispatchCommand :=
  MkDispatchCommand (MkCandidate "project" "run" (sample_nid "run" (sample_id "3")) (sample_id "3") 3 0 5000 ResourceBuiltin)
    "a1" "t1" "trace" 20000.
Definition sample_claim_command : ClaimCommand :=
  MkClaimCommand "project" "run" "a1" 1 "worker" "build" ResourceBuiltin [MkCoordinate "task.python" 1] 60000000000.
Definition sample_complete_command : CompleteCommand :=
  MkCompleteCommand "project" "run" "a1" "lease" 1 1 sample_success "trace".
Definition sample_completed_event : RuntimeEvent :=
  MkRuntimeEvent 1 "ev2" "project" "run" NodeAttemptAggregate "a1" EvAttemptCompleted 30000 "trace".

Definition sample_started_store : DB := sample_calls [sample_test; CallConsume sample_created] sample_store.
Definition sample_queued_store : DB := sample_calls [CallDispatch sample_dispatch_command] sample_started_store.
Definition sample_claimed_store : DB := sample_calls [CallClaim (Ok "lease") 25000 sample_claim_command] sample_queued_store.
Definition sample_completed_store : DB := sample_calls [CallComplete (Ok "ev2") 30000 sample_complete_command] sample_claimed_store.
Definition sample_final_store : DB := sample_calls [CallConsume sample_completed_event] sample_completed_store.

(** From the draft to the output of the run. *)
Example sample_run_succeeds :
  (λ r, (rr_State r, rr_WorkflowOutput r)) <$> db_runs sample_final_store !! "run" = Some (RunSucceeded, sample_input).
Proof. vm_compute. reflexivity. Qed.

Lemma sample_snapshots k snapshot : db_snapshots sample_store !! k = Some snapshot → policies_ok (sn_DSL snapshot).
Proof. unfold sample_store. cbn. rewrite lookup_singleton. case_decide; [|done]. intros [= <-]. apply sample_policies. Qed.

Lemma sample_store_sound : sound sample_nid range_id sample_no_source sample_store.
Proof. apply sound_empty; try reflexivity. apply sample_snapshots. Qed.

(** The engine of the sample run, where it is running. *)
Lemma sample_engine_at db : sound sample_nid range_id sample_no_source db →
  rr_State <$> run_row db "project" "run" = Some RunRunning →
  ∃ command snapshot e, at_engine sample_nid range_id sample_no_source db "project" "run" command snapshot e.
Proof.
  intros Hs Hrow. destruct (run_row _ _ _) as [row|] eqn:Hr; [|done]. injection Hrow as Hst.
  destruct (sound_cases _ _ _ _ "project" "run" Hs (mk_is_Some _ _ Hr)) as [[row' [H _ Hx _ _]]|?]; [|done].
  rewrite Hr in H. injection H as <-. rewrite Hst in Hx. by destruct Hx.
Qed.

Lemma sample_claimed_engine : ∃ command snapshot e,
  at_engine sample_nid range_id sample_no_source sample_claimed_store "project" "run" command snapshot e.
Proof. apply sample_engine_at; [|vm_compute; reflexivity]. do 3 apply store_calls_keep_sound. apply sample_store_sound. Qed.

Lemma sample_completed_engine : ∃ command snapshot e,
  at_engine sample_nid range_id sample_no_source sample_completed_store "project" "run" command snapshot e.
Proof. apply sample_engine_at; [|vm_compute; reflexivity]. do 4 apply store_calls_keep_sound. apply sample_store_sound. Qed.

(** ** Every sequence of calls *)

(** C25: whatever calls are made, in whatever order and whatever they answer, a
    store that starts without runs stays sound: each run row is a run that has
    not started, without Node Runs and Attempts, or its rows stand for an
    engine that operations reach from the run's own command and snapshot; no
    Node Run, Attempt or output is without its run. *)
Theorem store_calls_sound (clock : nat → Time) (router : Coordinate → option string) (nid : string → string → string)
    (jsonb : string → string) (order : range_order) (ValidateSource : string → option (string * string))
    (access : string → string → string → res unit) (digest : RunRequest → string) (calls : list StoreCall) (db : DB) :
  db_runs db = ∅ → db_nodes db = ∅ → db_attempts db = ∅ → db_outputs db = ∅ →
  (∀ k snapshot, db_snapshots db !! k = Some snapshot → policies_ok (sn_DSL snapshot)) →
  sound nid order ValidateSource (store_calls clock router nid jsonb order ValidateSource access digest calls db).
Proof.
  intros Hr Hn Ha Ho Hs. by apply store_calls_keep_sound, sound_empty.
Qed.

Lemma store_calls_sound_witness : sound sample_nid range_id sample_no_source
  (sample_calls [sample_test; CallConsume sample_created; CallDispatch sample_dispatch_command;
                 CallClaim (Ok "lease") 25000 sample_claim_command] sample_store).
Proof.
  apply store_calls_sound; [reflexivity..|apply sample_snapshots].
Defined.

(** ** Events *)

(** C26: consuming an event is one operation of the engine in memory.  When the
    rows of a run stand for a reachable engine, an event that the inbox already
    holds changes nothing; any other event is applied once: the transaction
    answers what the engine's operation answers, on success the rows stand for
    the engine after it, whose event is in the inbox and no other run is
    touched, and on failure nothing is written. *)
Theorem consumer_refines_engine (order : range_order) (ValidateSource : string → option (string * string))
    (clock : nat → Time) (router : Coordinate → option string) (nid : string → string → string)
    (command : CreateRunCommand) (snapshot : Snapshot) (event : RuntimeEvent) (db : DB) (e : Engine) :
  policies_ok (sn_DSL snapshot) →
  engine_reachable order (BuiltinV1Contract ValidateSource) command snapshot BuiltinV1Compatibility e →
  represents nid (cc_ProjectID command) (cc_RunID command) db e → RuntimeEvent_Validate event = Ok tt →
  ev_ProjectID event = cc_ProjectID command → ev_RunID event = cc_RunID command →
  db_snapshots db !! (cc_ProjectID command, dr_SnapshotID (cc_Definition command)) = Some snapshot →
  ∃ st db' r, stores e st ∧
    Consume (D := DB) (ops := store_transaction clock router nid) order ValidateSource event db = (db', r) ∧
    if bool_decide ((ConsumerName, ev_EventID event) ∈ db_inbox db) then db' = db ∧ r = Ok tt
    else
      match run_op event e st (clock (db_ticks db)) with
      | None => r = Ok tt ∧ represents nid (cc_ProjectID command) (cc_RunID command) db' e
      | Some (op, _) => r = (engine_apply order op e).2 ∧
          (r = Ok tt → represents nid (cc_ProjectID command) (cc_RunID command) db' (engine_apply order op e).1)
      end ∧
      match r with
      | Ok _ => (ConsumerName, ev_EventID event) ∈ db_inbox db' ∧ elsewhere (cc_ProjectID command) (cc_RunID command) db db'
      | Err _ => db' = db <| db_ticks := db_ticks db' |>
      end.
Proof. intros Hpol Hre Hrep Hval Hp Hid Hsn. by apply (consume_refines order ValidateSource clock router nid command snapshot). Qed.

Lemma sample_consume_answers :
  (Consume (D := DB) (ops := store_transaction sample_clock sample_router sample_nid) range_id sample_no_source
     sample_completed_event sample_completed_store).2 = Ok tt ∧
  bool_decide ((ConsumerName, ev_EventID sample_completed_event) ∈ db_inbox sample_completed_store) = false.
Proof. vm_compute. split; reflexivity. Qed.

Lemma consumer_refines_engine_witness : ∃ e db', represents sample_nid "project" "run" sample_completed_store e ∧
  Consume (D := DB) (ops := store_transaction sample_clock sample_router sample_nid) range_id sample_no_source
    sample_completed_event sample_completed_store = (db', Ok tt) ∧ elsewhere "project" "run" sample_completed_store db'.
Proof.
  destruct sample_completed_engine as (command & snapshot & e & [Hp Hr Hsn Hpol Hre _ _ _ Hrep]).
  pose proof (consumer_refines_engine range_id sample_no_source sample_clock sample_router sample_nid command snapshot
    sample_completed_event sample_completed_store e Hpol Hre) as H. rewrite Hp, Hr in H.
  destruct (H Hrep eq_refl eq_refl eq_refl Hsn) as (st & db' & r & _ & Hc & Hcase).
  destruct sample_consume_answers as [Ha Hnew]. rewrite Hc in Ha. cbn [snd] in Ha. subst r. rewrite Hnew in Hcase.
  exists e, db'. split; [exact Hrep|]. split; [exact Hc|]. by destruct Hcase as [_ [_ ?]].
Defined.

(** ** Attempts *)

(** The run a call is about and the engine operation it stands for, if any. *)
Definition call_operation (jsonb : string → string) (c : StoreCall) : option (string * string * option EngineOp) :=
  match c with
  | CallDispatch cmd => Some (cd_ProjectID (dp_Candidate cmd), cd_RunID (dp_Candidate cmd),
                              Some (DoQueueNode (cd_ExecutionNodeID (dp_Candidate cmd)) (dp_AttemptID cmd)))
  | CallClaim _ _ cmd => Some (cl_ProjectID cmd, cl_RunID cmd, Some (DoStartAttempt (cl_AttemptID cmd)))
  | CallHeartbeat _ cmd => Some (hb_ProjectID cmd, hb_RunID cmd, None)
  | CallComplete _ _ cmd => Some (cp_ProjectID cmd, cp_RunID cmd,
                                  Some (DoRecordAttemptResult (cp_AttemptID cmd) (stored_result jsonb (cp_Result cmd))))
  | CallMarkExpiredLost _ _ cmd => Some (ml_ProjectID cmd, ml_RunID cmd, Some (DoRecordAttemptResult (ml_AttemptID cmd) lost_result))
  | CallCancel _ _ projectID _ runID _ => Some (projectID, runID, None)
  | _ => None
  end.

Lemma no_answer_Ok {A} (m : tx DB A) db db' u : no_answer m db = (db', Ok u) → ∃ a, m db = (db', Ok a).
Proof. unfold no_answer. intros (w & a & H & Hr)%tx_bind_Ok. injection Hr as -> _. by exists a. Qed.

(** C27: the scheduler's dispatch, a worker's claim, heartbeat and completion,
    the reaper's loss and a cancellation request are operations of the engine
    in memory: when the rows of a run stand for a reachable engine and the call
    succeeds, the engine's own operation succeeds too and the rows stand for
    the engine after it; a completion or loss that was recorded before changes
    nothing; a heartbeat or a cancellation request leaves the engine as it is.
    No other run is touched. *)
Theorem attempt_calls_refine_engine (order : range_order) (ValidateSource : string → option (string * string))
    (clock : nat → Time) (router : Coordinate → option string) (nid : string → string → string) (jsonb : string → string)
    (access : string → string → string → res unit) (digest : RunRequest → string)
    (command : CreateRunCommand) (snapshot : Snapshot) (c : StoreCall) (op : option EngineOp) (db db' : DB) (e : Engine) :
  policies_ok (sn_DSL snapshot) →
  engine_reachable order (BuiltinV1Contract ValidateSource) command snapshot BuiltinV1Compatibility e →
  represents nid (cc_ProjectID command) (cc_RunID command) db e →
  call_operation jsonb c = Some (cc_ProjectID command, cc_RunID command, op) →
  store_call clock router nid jsonb order ValidateSource access digest c db = (db', Ok tt) →
  elsewhere (cc_ProjectID command) (cc_RunID command) db db' ∧
  match op with
  | Some op =>
      (engine_apply order op e).2 = Ok tt ∧ represents nid (cc_ProjectID command) (cc_RunID command) db' (engine_apply order op e).1 ∨
      db' = db ∧ ∃ aid a, en_attempts e !! aid = Some a ∧ AttemptState_Terminal (na_state a) = true
  | None => represents nid (cc_ProjectID command) (cc_RunID command) db' e
  end.
Proof.
  intros Hpol Hre Hrep Hop H. pose proof (builtin_engine_contract ValidateSource) as HC.
  pose proof (reachable_inv order _ command snapshot _ e Hpol Hre) as Hi.
  pose proof (reachable_outputs order _ command snapshot _ e Hpol Hre) as Ho.
  pose proof (reachable_versions order _ command snapshot _ e Hpol Hre) as Hv.
  destruct c; try discriminate Hop; injection Hop as Hp Hr <-; cbn [store_call] in H; apply no_answer_Ok in H as (answer & H).
  - unfold Cancel in H. tx_inv H. destruct answer as [run b].
    match type of H with _ ?r db = _ => by destruct (cancellation_refines nid _ _ clock r db db' run b e Hrep Hp Hr H) as (? & ? & _) end.
  - destruct (dispatch_refines nid _ _ _ command eq_refl clock router command0 db db' answer e Hi Ho Hv Hrep Hp Hr H)
      as (e' & a & He & ? & ? & _). split; [done|left]. cbn in He |- *. unfold discard, mbind, eng_bind. by rewrite He.
  - unfold Coordinator_Claim in H. tx_inv H.
    match type of H with _ ?r db = _ => destruct (claim_refines nid _ _ _ command eq_refl clock r db db' answer e Hi Hv Hrep Hp Hr H) as (He & ? & ? & _) end.
    split; [done|left]. cbn in He |- *. by rewrite He.
  - unfold Coordinator_Heartbeat in H. tx_inv H.
    match type of H with _ ?r db = _ => by destruct (heartbeat_refines nid _ _ clock r db db' answer e Hrep Hp Hr H) as (_ & ? & ? & _) end.
  - unfold Coordinator_Complete in H. tx_inv H. match goal with H : worker_result _ = Ok ?u |- _ => destruct u; rename H into Hres end.
    match type of H with _ ?r db = _ => pose proof (complete_refines nid _ _ _ command clock jsonb r db db' answer e Hi Hv Hrep Hp Hr Hres H) as Hc end.
    cbn in Hc. destruct answer.
    + destruct Hc as (_ & e' & He & ? & ? & _). split; [done|left]. cbn in He |- *. unfold discard, mbind, eng_bind. by rewrite He.
    + destruct Hc as (-> & att & ? & ? & _). split; [reflexivity|right]. split; [done|]. by eexists _, att.
  - unfold Coordinator_MarkExpiredLost in H. tx_inv H.
    match type of H with _ ?r db = _ => pose proof (lost_refines nid _ _ _ command clock r db db' answer e Hi Hv Hrep Hp Hr H) as Hc end.
    cbn in Hc. destruct answer.
    + destruct Hc as (_ & e' & He & ? & ? & _). split; [done|left]. cbn in He |- *. unfold discard, mbind, eng_bind. by rewrite He.
    + destruct Hc as (-> & att & ? & Hs). split; [reflexivity|right]. split; [done|]. eexists _, att. by rewrite Hs.
Qed.

Definition sample_complete : StoreCall := CallComplete (Ok "ev2") 30000 sample_complete_command.

Lemma sample_complete_answers : (sample_call sample_complete sample_claimed_store).2 = Ok tt.
Proof. vm_compute. reflexivity. Qed.

Lemma attempt_calls_refine_engine_witness : ∃ e db', sample_call sample_complete sample_claimed_store = (db', Ok tt) ∧
  let op := DoRecordAttemptResult "a1" (stored_result id sample_success) in
  represents sample_nid "project" "run" sample_claimed_store e ∧ elsewhere "project" "run" sample_claimed_store db' ∧
  ((engine_apply range_id op e).2 = Ok tt ∧ represents sample_nid "project" "run" db' (engine_apply range_id op e).1 ∨
   db' = sample_claimed_store ∧ ∃ aid a, en_attempts e !! aid = Some a ∧ AttemptState_Terminal (na_state a) = true).
Proof.
  destruct sample_claimed_engine as (command & snapshot & e & [Hp Hr Hsn Hpol Hre _ _ _ Hrep]).
  pose proof sample_complete_answers as Ha. destruct (sample_call sample_complete sample_claimed_store) as [db' r] eqn:Hc.
  cbn [snd] in Ha. subst r. exists e, db'. split; [reflexivity|]. split; [exact Hrep|].
  pose proof (attempt_calls_refine_engine range_id sample_no_source sample_clock sample_router sample_nid id sample_access rq_Input
    command snapshot sample_complete (Some (DoRecordAttemptResult "a1" (stored_result id sample_success)))
    sample_claimed_store db' e Hpol Hre) as H.
  rewrite Hp, Hr in H. exact (H Hrep eq_refl Hc).
Defined.

(** C30: a call that fails writes nothing: after any calls on a store without
    Attempts, a call that answers an error, whatever the error and wherever in
    the call it arises, leaves every table as it was; only the clock went on. *)
Theorem failed_calls_write_nothing (clock : nat → Time) (router : Coordinate → option string) (nid : string → string → string)
    (jsonb : string → string) (order : range_order) (ValidateSource : string → option (string * string))
    (access : string → string → string → res unit) (digest : RunRequest → string)
    (calls : list StoreCall) (c : StoreCall) (db db' : DB) (x : error) :
  db_attempts db = ∅ →
  let before := store_calls clock router nid jsonb order ValidateSource access digest calls db in
  store_call clock router nid jsonb order ValidateSource access digest c before = (db', Err x) →
  db' = before <| db_ticks := db_ticks db' |>.
Proof.
  intros Hempty before H. assert (owned before) as Ho.
  { apply (hi_owned _ _ (history_calls clock router nid jsonb order ValidateSource access digest calls db)).
    intros aid row. by rewrite Hempty. }
  by apply (undone_call _ _ _ _ _ _ _ _ _ _ Ho) in H.
Qed.

(** A completion under a token that is not the lease's. *)
Definition sample_forged : StoreCall := CallComplete (Ok "ev3") 30000 (MkCompleteCommand "project" "run" "a1" "stolen" 1 1 sample_success "trace").

Definition sample_steps : list StoreCall :=
  [sample_test; CallConsume sample_created; CallDispatch sample_dispatch_command; CallClaim (Ok "lease") 25000 sample_claim_command].

Lemma sample_forged_rejected : (sample_call sample_forged (sample_calls sample_steps sample_store)).2 = Err ErrLeaseMismatch.
Proof. vm_compute. reflexivity. Qed.

Lemma failed_calls_write_nothing_witness :
  let before := sample_calls sample_steps sample_store in
  ∃ db', sample_call sample_forged before = (db', Err ErrLeaseMismatch) ∧ db' = before <| db_ticks := db_ticks db' |>.
Proof.
  intros before. subst before. pose proof sample_forged_rejected as Hr.
  destruct (sample_call sample_forged _) as [db' r] eqn:H. cbn [snd] in Hr. subst r. exists db'. split; [reflexivity|].
  exact (failed_calls_write_nothing sample_clock sample_router sample_nid id range_id sample_no_source
    sample_access rq_Input sample_steps sample_forged sample_store db' ErrLeaseMismatch eq_refl H).
Defined.

(** ** Leases *)

(** A worker's lease at its claim. *)
Lemma claim_row clock record db db' lease : Claim clock record db = (db', Ok lease) →
  ∃ row, attempt_row db' (cl_ProjectID (cl_Command record)) (cl_RunID (cl_Command record)) (cl_AttemptID (cl_Command record)) = Some row ∧
    ra_State row = AttemptRunning ∧ ra_LeaseToken row = Some (le_Token lease) ∧ ra_LeaseOwner row = Some (le_Owner lease) ∧
    ra_FencingToken row = le_FencingToken lease ∧ le_Owner lease = cl_WorkerID (cl_Command record).
Proof.
  intros H. unfold Claim in H. rewrite transaction_Ok in H. tx_inv H. rows_inv.
  match goal with Hrow : attempt_row _ _ _ _ = Some ?x, H : context [claim_queued _ _ ?x _] |- _ => rename x into row; rename Hrow into Hf end.
  case_bool_decide as Hs.
  - tx_inv H. unfold reclaim in H. repeat case_match; try done. bool_prop. injection H as <-.
    eexists. split; [exact Hf|]. split_and!; done.
  - tx_inv H. unfold claim_queued in H. tx_inv H. rows_inv.
    match goal with H : update_attempt _ _ _ _ _ _ = _ |- _ => apply update_attempt_Ok in H as (row' & Hrow' & _ & ->); [|by apply negb_false_iff] end.
    match goal with H : update_nodes _ _ _ = _ |- _ => unfold update_nodes in H; destruct (update_where _ _ _) in H; injection H as <- _ end.
    subst lease. exists (claim_attempt record row' (clock (S (S (db_ticks db))))). split; [|done].
    apply attempt_row_Some in Hrow' as [_ Hin]. apply attempt_in_run_inv in Hin as [? ?].
    apply attempt_row_Some. cbn. rewrite lookup_insert_eq. split; [done|by apply attempt_in_run].
Qed.

(** What the history keeps of a claimed row. *)
Lemma claimed_kept db db' p r aid row : history db db' → attempt_row db p r aid = Some row → ra_State row ≠ AttemptQueued →
  ∀ p' r' row', attempt_row db' p' r' aid = Some row' → ra_LeaseToken row' = ra_LeaseToken row ∧
    ra_LeaseOwner row' = ra_LeaseOwner row ∧ ra_FencingToken row' = ra_FencingToken row.
Proof.
  intros Hh [Hrow _]%attempt_row_Some Hq p' r' row' [Hrow' _]%attempt_row_Some.
  destruct (hi_attempts _ _ Hh aid row Hrow) as (x & Hx & Hah). assert (x = row') as -> by congruence.
  by destruct (ah_claimed _ _ Hah Hq) as (_ & ? & ? & ? & _).
Qed.

(** C28: an attempt is leased to one worker for good.  After a claim, and after
    any further calls, whoever claims, heartbeats or completes the attempt with
    success is the worker of that claim: the claim gives the same token, owner
    and fencing token again, and a heartbeat or completion carries them. *)
Theorem lease_exclusive (clock : nat → Time) (router : Coordinate → option string) (nid : string → string → string)
    (jsonb : string → string) (order : range_order) (ValidateSource : string → option (string * string))
    (access : string → string → string → res unit) (digest : RunRequest → string)
    (record : ClaimRecord) (db db1 : DB) (lease : Lease) (calls : list StoreCall) :
  Claim clock record db = (db1, Ok lease) →
  let db2 := store_calls clock router nid jsonb order ValidateSource access digest calls db1 in
  let aid := cl_AttemptID (cl_Command record) in
  (∀ record' db3 lease', cl_AttemptID (cl_Command record') = aid → Claim clock record' db2 = (db3, Ok lease') →
     cl_WorkerID (cl_Command record') = cl_WorkerID (cl_Command record) ∧ le_Token lease' = le_Token lease ∧
     le_Owner lease' = le_Owner lease ∧ le_FencingToken lease' = le_FencingToken lease) ∧
  (∀ record' db3 lease', hb_AttemptID (hb_Command record') = aid → Heartbeat clock record' db2 = (db3, Ok lease') →
     hb_LeaseToken (hb_Command record') = le_Token lease ∧ hb_FencingToken (hb_Command record') = le_FencingToken lease ∧
     le_Owner lease' = le_Owner lease) ∧
  (∀ record' db3 b, cp_AttemptID (cp_Command record') = aid → Complete clock jsonb record' db2 = (db3, Ok b) →
     cp_LeaseToken (cp_Command record') = le_Token lease ∧ cp_FencingToken (cp_Command record') = le_FencingToken lease).
Proof.
  intros Hc db2 aid. destruct (claim_row _ _ _ _ _ Hc) as (row & Hrow & Hs & Ht & Ho & Hf & Hw). fold aid in Hrow.
  pose proof (history_calls clock router nid jsonb order ValidateSource access digest calls db1) as H12. fold db2 in H12. clearbody db2.
  assert (ra_State row ≠ AttemptQueued) as Hq by by rewrite Hs. split_and!.
  - intros record' db3 lease' Haid H. pose proof (calls_claim clock jsonb history record' db2) as H23. rewrite H in H23. cbn [fst] in H23.
    destruct (claim_row _ _ _ _ _ H) as (row' & Hrow' & _ & Ht' & Ho' & Hf' & Hw'). rewrite Haid in Hrow'.
    destruct (claimed_kept db1 db3 _ _ aid row (transitivity H12 H23) Hrow Hq _ _ row' Hrow') as (Et & Eo & Ef).
    rewrite Et, Ht in Ht'. rewrite Eo, Ho in Ho'. injection Ht' as ->. injection Ho' as Ho'. split_and!; congruence.
  - intros record' db3 lease' Haid H. unfold Heartbeat in H. tx_inv H. rows_inv. rewrite Haid in H.
    change (attempt_row (db2 <| db_ticks := _ |>) ?p ?r aid) with (attempt_row db2 p r aid) in H.
    destruct (attempt_row db2 _ _ aid) as [row'|] eqn:Hrow'; [|done]. destruct (held_lease _ _ _ _ _) eqn:Hheld; [|done]. tx_inv H.
    destruct (claimed_kept db1 db2 _ _ aid row H12 Hrow Hq _ _ row' Hrow') as (Et & Eo & Ef).
    unfold held_lease in Hheld. bool_prop. subst lease'. cbn. split_and!; congruence.
  - intros record' db3 b Haid H. unfold Complete in H. rewrite transaction_Ok in H. tx_inv H. rows_inv. rewrite Haid in *.
    match goal with Hr : attempt_row db2 _ _ aid = Some ?x |- _ => rename x into row'; rename Hr into Hrow' end.
    destruct (claimed_kept db1 db2 _ _ aid row H12 Hrow Hq _ _ row' Hrow') as (Et & Eo & Ef).
    bool_prop. split_and!; congruence.
Qed.

Lemma sample_claim_answers : ∃ lease, (Claim sample_clock (MkClaimRecord sample_claim_command "lease" 25000) sample_queued_store).2 = Ok lease ∧
  le_Token lease = "lease".
Proof. eexists. vm_compute. split; reflexivity. Qed.

Lemma lease_exclusive_witness : ∃ db1 lease, Claim sample_clock (MkClaimRecord sample_claim_command "lease" 25000) sample_queued_store = (db1, Ok lease) ∧
  ∀ record' db3 b, cp_AttemptID (cp_Command record') = "a1" → Complete sample_clock id record' db1 = (db3, Ok b) →
    cp_LeaseToken (cp_Command record') = "lease".
Proof.
  destruct sample_claim_answers as (lease & Ha & Htoken).
  destruct (Claim sample_clock (MkClaimRecord sample_claim_command "lease" 25000) sample_queued_store) as [db1 r] eqn:H.
  cbn [snd] in Ha. subst r. exists db1, lease. split; [reflexivity|]. intros record' db3 b Haid Hc. rewrite <-Htoken.
  exact (proj1 (proj2 (proj2 (lease_exclusive sample_clock sample_router sample_nid id range_id sample_no_source sample_access rq_Input
    (MkClaimRecord sample_claim_command "lease" 25000) sample_queued_store db1 lease [] H)) record' db3 b Haid Hc)).
Defined.

(** ** Completions *)

(** What float64 holds: the outputs of a success and the details of an error. *)
Definition decodable (result : AttemptResult) : Prop :=
  (∀ name value, ar_Outputs result !! name = Some value → is_Some (unmarshal_any value)) ∧
  (∀ details, ar_ErrorDetails result = Some details → ∀ name value, details !! name = Some value → is_Some (to_float value)).

Lemma mapM_values {A B} (f : A → option B) (m : gmap string A) : (∀ k v, m !! k = Some v → is_Some (f v)) →
  ∃ l, mapM (λ p, pair p.1 <$> f p.2) (sorted_items m) = Some l.
Proof.
  intros H. apply mapM_is_Some, Forall_forall. intros [k v] Hk. apply elem_of_sorted_items in Hk.
  destruct (H k v Hk) as [b Hb]. cbn. rewrite Hb. by eexists.
Qed.

Lemma mapM_stored (jsonb : string → string) (outs : gmap string string) l :
  (∀ raw v, unmarshal_any raw = Some v → unmarshal_any (jsonb raw) = Some v) →
  mapM (λ p, pair p.1 <$> unmarshal_any p.2) (sorted_items outs) = Some l →
  mapM (λ p, pair p.1 <$> unmarshal_any p.2) (sorted_items (jsonb <$> outs)) = Some l.
Proof.
  intros Hj. unfold sorted_items. rewrite (sorted_keys_dom (jsonb <$> outs) outs) by apply dom_fmap_L.
  generalize (sorted_keys outs). intros ks. revert l. induction ks as [|k ks IH]; intros l; [done|]. cbn. rewrite lookup_fmap.
  destruct (outs !! k) as [v|]; cbn; [|apply IH]. destruct (unmarshal_any v) as [x|] eqn:Hv; [|done]. rewrite (Hj _ _ Hv). cbn.
  intros (l' & Hl & [= <-])%bind_Some. rewrite (IH l' Hl). done.
Qed.

(** A completion is the same as itself, stored and read back. *)
Lemma sameCompletion_stored jsonb result : worker_result result = Ok tt → decodable result →
  (∀ raw v, unmarshal_any raw = Some v → unmarshal_any (jsonb raw) = Some v) →
  sameCompletion (ar_State result) (completionError result)
    (if bool_decide (ar_State result = AttemptSucceeded) then Some (jsonb <$> ar_Outputs result) else None) result = true.
Proof.
  intros Hw [Hout Hdet] Hj. unfold sameCompletion. rewrite bool_decide_eq_true_2 by done. cbn [negb].
  unfold worker_result in Hw. apply bind_guard in Hw as [_ Hw]. destruct (decide (ar_State result = AttemptSucceeded)) as [Hs|Hs].
  - rewrite !(bool_decide_eq_true_2 _ Hs) in *. apply bind_guard in Hw as [_ Hw%guard_Ok]. apply andb_true_iff. split.
    + apply forallb_forall. intros [k v] Hk. destruct (json_valid v) eqn:Hv; [done|].
      apply not_true_iff_false in Hw. destruct Hw. apply existsb_exists. exists (k, v). split; [done|]. cbn. rewrite Hv. by rewrite orb_true_r.
    + unfold raw_objects_equal. destruct (mapM_values unmarshal_any (ar_Outputs result) Hout) as [l Hl].
      rewrite Hl, (mapM_stored jsonb _ _ Hj Hl). by rewrite bool_decide_eq_true_2.
  - rewrite !(bool_decide_eq_false_2 _ Hs) in *. unfold errors_equal, completionError. rewrite bool_decide_eq_false_2 by done. cbn.
    destruct (ar_ErrorDetails result) as [m|] eqn:Hm; [|cbn; by rewrite bool_decide_eq_true_2].
    destruct (decide (m = ∅)) as [He|He]; [rewrite (bool_decide_eq_true_2 _ He)|rewrite (bool_decide_eq_false_2 _ He)]; cbn;
      [by rewrite bool_decide_eq_true_2|].
    destruct (mapM_values to_float m (Hdet m eq_refl)) as [l Hl].
    rewrite Hl. cbn. by rewrite bool_decide_eq_true_2.
Qed.

(** The rows of a completion. *)
Lemma complete_row clock jsonb record db db' : Complete clock jsonb record db = (db', Ok true) →
  let command := cp_Command record in let result := cp_Result command in
  ∃ row, attempt_row db' (cp_ProjectID command) (cp_RunID command) (cp_AttemptID command) = Some row ∧
    ra_State row = ar_State result ∧ ra_Error row = completionError result ∧ ra_Sequence row = cp_AttemptSequence command ∧
    ra_LeaseToken row = Some (cp_LeaseToken command) ∧ ra_FencingToken row = cp_FencingToken command ∧
    (ar_State result = AttemptSucceeded → db_outputs db' !! cp_AttemptID command = Some (jsonb <$> ar_Outputs result)).
Proof.
  intros H. cbn zeta. unfold Complete in H. rewrite transaction_Ok in H. tx_inv H. rows_inv. destruct (AttemptState_Terminal _); [by tx_inv H|].
  tx_inv H. unfold finish_running in H. tx_inv H. rows_inv.
  match goal with H : update_attempt _ _ _ _ _ _ = _ |- _ => apply update_attempt_Ok in H as (row' & Hrow' & Hwhere & ->); [|by apply negb_false_iff] end.
  match goal with H : insertOutbox _ _ _ = _ |- _ => apply insertOutbox_Ok in H as (_ & _ & ->) end.
  apply attempt_row_Some in Hrow' as [_ Hin]. apply attempt_in_run_inv in Hin as [Hp Hr].
  repeat (apply andb_true_iff in Hwhere as [Hwhere ?]).
  match goal with H : (if bool_decide _ then _ else _) _ = (?w, _) |- _ => rename H into Hout; rename w into db1 end.
  set (row := complete_attempt _ _ _ row') in *.
  assert (db_attempts db1 !! cp_AttemptID (cp_Command record) = Some row ∧ (ar_State (cp_Result (cp_Command record)) = AttemptSucceeded →
    db_outputs db1 !! cp_AttemptID (cp_Command record) = Some (jsonb <$> ar_Outputs (cp_Result (cp_Command record))))) as [Hrow Houts].
  { destruct (decide (ar_State (cp_Result (cp_Command record)) = AttemptSucceeded)) as [Hs|Hs];
      [rewrite (bool_decide_eq_true_2 _ Hs) in Hout|rewrite (bool_decide_eq_false_2 _ Hs) in Hout]; tx_inv Hout.
    - unfold insert_outputs in Hout. destruct (db_outputs _ !! _) in Hout; [done|]. injection Hout as <- _. cbn.
      by rewrite !lookup_insert_eq.
    - cbn. by rewrite lookup_insert_eq. }
  exists row. split; [apply attempt_row_Some; cbn; split; [exact Hrow|by apply attempt_in_run]|].
  split_and!; try done; first [by apply Z.eqb_eq|by eapply bool_decide_eq_true].
Qed.

(** C29: a completion is recorded once, and saying it again is harmless, for
    outputs that can be compared.  After a completion that was recorded, and
    after any further calls, no completion of the attempt is recorded again; and
    the same completion again, by a worker that had no answer, succeeds for ever
    and changes nothing, provided that its outputs hold no number beyond float64
    ([huge_completion_rejected] is the other case) and that the JSONB column
    gives them back as the values they were. *)
Theorem complete_replay (clock : nat → Time) (router : Coordinate → option string) (nid : string → string → string)
    (jsonb : string → string) (order : range_order) (ValidateSource : string → option (string * string))
    (access : string → string → string → res unit) (digest : RunRequest → string)
    (record : CompleteRecord) (db db1 : DB) (calls : list StoreCall) :
  sound nid order ValidateSource db → worker_result (cp_Result (cp_Command record)) = Ok tt →
  decodable (cp_Result (cp_Command record)) → (∀ raw v, unmarshal_any raw = Some v → unmarshal_any (jsonb raw) = Some v) →
  Complete clock jsonb record db = (db1, Ok true) →
  let db2 := store_calls clock router nid jsonb order ValidateSource access digest calls db1 in
  Complete clock jsonb record db2 = (db2, Ok false) ∧
  ∀ record' db3, cp_AttemptID (cp_Command record') = cp_AttemptID (cp_Command record) →
    Complete clock jsonb record' db2 ≠ (db3, Ok true).
Proof.
  intros Hs Hw Hd Hj H db2. assert (sound nid order ValidateSource db2) as Hs2.
  { apply store_calls_keep_sound. by eapply (complete_sound clock nid jsonb order ValidateSource record db db1). }
  pose proof (history_calls clock router nid jsonb order ValidateSource access digest calls db1) as Hh. fold db2 in Hh. clearbody db2.
  destruct (complete_row _ _ _ _ _ H) as (row & Hrow & Hst & Herr & Hseq & Htok & Hfen & Hout).
  set (aid := cp_AttemptID (cp_Command record)) in *. pose proof Hrow as [Hr Hin]%attempt_row_Some.
  assert (AttemptState_Terminal (ra_State row) = true) as Hterm.
  { rewrite Hst. unfold worker_result in Hw. apply bind_guard in Hw as [Hw _]. by bool_prop. }
  destruct (hi_attempts _ _ Hh aid row Hr) as (row2 & Hr2 & Hah). pose proof (ah_final _ _ Hah Hterm) as ->.
  assert (attempt_row db2 (cp_ProjectID (cp_Command record)) (cp_RunID (cp_Command record)) aid = Some row) as Hrow2
    by by apply attempt_row_Some.
  split; [|intros record' db3 Haid Hc].
  - destruct (attempt_engine _ _ _ _ _ _ _ _ Hs2 Hrow2) as (command & snapshot & e & He).
    pose proof (rp_attempts _ _ _ _ _ (ae_represents _ _ _ _ _ _ _ _ _ He)) as Hao.
    destruct (ao_only _ _ _ _ _ _ Hao aid row Hrow2) as [a Ha].
    destruct (ao_row _ _ _ _ _ _ Hao aid a Ha) as (row' & id & Hrow' & Hown & Hstored). assert (row' = row) as -> by congruence.
    destruct (reachable_current order _ command snapshot _ e (ae_policies _ _ _ _ _ _ _ _ _ He) (ae_reachable _ _ _ _ _ _ _ _ _ He) aid id Hown)
      as (n & Hn & Hcur).
    destruct (ro_row _ _ _ _ _ (rp_nodes _ _ _ _ _ (ae_represents _ _ _ _ _ _ _ _ _ He)) id n Hn) as (node & Hnode & _ & o & Hrec).
    rewrite <-(as_node _ _ _ _ _ _ _ Hstored) in Hnode. unfold Complete. apply transaction_Ok. fold aid.
    rewrite (tx_step _ _ db2 db2 row) by by apply load_attempt_row_Ok.
    rewrite (tx_step _ _ db2 db2 node) by by apply load_node_row_Ok.
    assert (scan_current node = Ok (nr_currentAttemptID n)) as Hscan.
    { unfold scan_current. rewrite Hrec. cbn. unfold nullableString. by rewrite bool_decide_eq_false_2. }
    rewrite (tx_step (tx_lift _) _ db2 db2 (nr_currentAttemptID n)) by (unfold tx_lift; by rewrite Hscan).
    rewrite (tx_step _ _ db2 db2 row) by by apply load_attempt_row_Ok.
    rewrite Hseq, Htok, Hfen, !Z.eqb_refl, Hterm, (bool_decide_eq_true_2 _ eq_refl). cbn [negb orb].
    rewrite !(tx_step (tx_lift (guard_err _ _)) _ db2 db2 tt), (tx_step tx_get _ db2 db2 db2) by done.
    rewrite (tx_step (tx_lift (guard_err _ _)) _ db2 db2 tt); [done|].
    assert (sameCompletion (ra_State row) (ra_Error row) (db_outputs db2 !! aid) (cp_Result (cp_Command record)) = true) as ->; [|done].
    rewrite Hst, Herr. pose proof (sameCompletion_stored jsonb _ Hw Hd Hj) as Hsame.
    destruct (decide (ar_State (cp_Result (cp_Command record)) = AttemptSucceeded)) as [Hsu|Hsu].
    + rewrite (bool_decide_eq_true_2 _ Hsu) in Hsame. by rewrite (hi_outputs _ _ Hh aid _ (Hout Hsu)).
    + rewrite (bool_decide_eq_false_2 _ Hsu) in Hsame. unfold sameCompletion in *. by rewrite (bool_decide_eq_false_2 _ Hsu) in *.
  - unfold Complete in Hc. rewrite transaction_Ok in Hc. tx_inv Hc. rows_inv. rewrite Haid in *.
    match goal with Hx : attempt_row db2 _ _ aid = Some ?x |- _ => assert (x = row) as -> by (apply attempt_row_Some in Hx as [Hx _]; congruence) end.
    rewrite Hterm in Hc. by tx_inv Hc.
Qed.

Definition sample_completion : CompleteRecord := MkCompleteRecord sample_complete_command "ev2" 30000.

Lemma sample_completion_answers : (Complete sample_clock id sample_completion sample_claimed_store).2 = Ok true.
Proof. vm_compute. reflexivity. Qed.

Lemma sample_success_decodable : decodable sample_success.
Proof.
  split; [|done]. intros name value. unfold sample_success. cbn. rewrite lookup_singleton. case_decide; [|done]. intros [= <-].
  apply not_eq_None_Some. vm_compute. discriminate.
Qed.

Lemma complete_replay_witness : ∃ db1, Complete sample_clock id sample_completion sample_claimed_store = (db1, Ok true) ∧
  let db2 := sample_calls [CallConsume sample_completed_event] db1 in Complete sample_clock id sample_completion db2 = (db2, Ok false).
Proof.
  pose proof sample_completion_answers as Ha. destruct (Complete sample_clock id sample_completion sample_claimed_store) as [db1 r] eqn:H.
  cbn [snd] in Ha. subst r. exists db1. split; [reflexivity|].
  refine (proj1 (complete_replay sample_clock sample_router sample_nid id range_id sample_no_source sample_access rq_Input
    sample_completion sample_claimed_store db1 [CallConsume sample_completed_event] _ eq_refl sample_success_decodable (λ _ _ Hv, Hv) H)).
  unfold sample_claimed_store, sample_queued_store, sample_started_store. do 3 apply store_calls_keep_sound. apply sample_store_sound.
Defined.

(** The proviso on numbers is needed: the code compares the two outputs as
    float64, so a completion whose output holds a number that float64 does not
    is recorded, and rejected when it is said again. *)
Definition sample_huge : AttemptResult := MkAttemptResult AttemptSucceeded {["out" := "1e400"]} "" "" "" None.
Definition sample_huge_completion : CompleteRecord :=
  MkCompleteRecord (MkCompleteCommand "project" "run" "a1" "lease" 1 1 sample_huge "trace") "ev2" 30000.

Lemma huge_completion_rejected :
  let '(db1, r1) := Complete sample_clock id sample_huge_completion sample_claimed_store in
  r1 = Ok true ∧ (Complete sample_clock id sample_huge_completion db1).2 = Err ErrStateConflict.
Proof. vm_compute. split; reflexivity. Qed.

(** ** Creating runs *)

(** C31: a run is created once per idempotency key.  After a creation, and after
    any further calls, the same request under its key gives the run that was
    created and writes nothing, and any other request under the key is
    rejected as a reuse and writes nothing. *)
Theorem creation_idempotent (clock : nat → Time) (router : Coordinate → option string) (nid : string → string → string)
    (jsonb : string → string) (order : range_order) (ValidateSource : string → option (string * string))
    (access : string → string → string → res unit) (digest : RunRequest → string)
    (record record' : CreatePendingRunRecord) (db db1 : DB) (run : WorkflowRunRecord) (calls : list StoreCall) :
  db_idempotency db !! idempotency_key record = None → CreatePendingRun clock record db = (db1, Ok run) →
  idempotency_key record' = idempotency_key record →
  let db2 := store_calls clock router nid jsonb order ValidateSource access digest calls db1 in
  if bool_decide (cn_RequestHash record' = cn_RequestHash record) then
    ∃ run', CreatePendingRun clock record' db2 = (db2, Ok run') ∧ rr_ID run' = cn_RunID record ∧
            record_command run' = record_command run
  else CreatePendingRun clock record' db2 = (db2, Err ErrRunIdempotencyReuse).
Proof.
  intros Hnew H Hkey db2.
  pose proof (history_calls clock router nid jsonb order ValidateSource access digest calls db1) as Hh. fold db2 in Hh. clearbody db2.
  unfold CreatePendingRun in H. rewrite transaction_Ok, (tx_step tx_get _ _ _ _ eq_refl), Hnew in H. tx_inv H.
  match goal with H : insert_run _ _ = _ |- _ => unfold insert_run in H; destruct (db_runs db !! _) as [|] eqn:Hfree; [done|]; injection H as <- _ end.
  match goal with H : insertOutbox _ _ _ = _ |- _ => apply insertOutbox_Ok in H as (_ & _ & ->) end.
  match goal with H : tx_modify _ _ = _ |- _ => injection H as <- _ end. subst run.
  match type of Hh with history ?d _ => set (db1 := d) in * end.
  assert (db_idempotency db1 !! idempotency_key record = Some (cn_RequestHash record, cn_RunID record)) as Hk by (cbn; by rewrite lookup_insert_eq).
  apply (hi_idempotency _ _ Hh) in Hk. unfold CreatePendingRun, transaction. rewrite (tx_step tx_get _ db2 db2 db2) by done. rewrite Hkey, Hk.
  destruct (decide (cn_RequestHash record' = cn_RequestHash record)) as [Hhash|Hhash];
    [rewrite (bool_decide_eq_true_2 _ Hhash)|rewrite (bool_decide_eq_false_2 _ Hhash)].
  - match goal with H : definition_reference _ _ = Ok ?x |- _ => set (row := pending_row record x) in * end.
    assert (db_runs db1 !! cn_RunID record = Some row) as Hr by (cbn; by rewrite lookup_insert_eq).
    destruct (hi_runs _ _ Hh _ row Hr) as (row' & Hr' & Hc & Hid). exists row'. split_and!; [|done|done].
    rewrite (tx_step (tx_lift (guard_err _ _)) _ db2 db2 tt).
    2:{ rewrite bool_decide_eq_true_2 by done. done. }
    rewrite (loadRun_found _ _ db2 row'); [done|]. unfold run_row. rewrite Hr'. rewrite bool_decide_eq_true_2; [done|].
    apply (f_equal cc_ProjectID) in Hc. cbn in Hc. rewrite Hc. symmetry. by apply (f_equal (λ k : string * string * string * string, k.1.1.1)) in Hkey.
  - rewrite bool_decide_eq_false_2 by congruence. unfold mbind, tx_bind, tx_lift. cbn. by destruct db2.
Qed.

Definition sample_pending : CreatePendingRunRecord :=
  MkCreatePendingRunRecord "run" "ev1" "project" "wf" "snap" 1 RunPurposeTest sample_input 100000000 5000 "who" "key-0001" "hash" "trace".
(** The same key, another request. *)
Definition sample_other : CreatePendingRunRecord :=
  MkCreatePendingRunRecord "run2" "ev9" "project" "wf" "snap" 1 RunPurposeTest "{}" 100000000 5000 "who" "key-0001" "other" "trace".

Lemma sample_pending_answers : ∃ run, (CreatePendingRun sample_clock sample_pending sample_store).2 = Ok run.
Proof. eexists. vm_compute. reflexivity. Qed.

Lemma creation_idempotent_witness : ∃ db1 run, CreatePendingRun sample_clock sample_pending sample_store = (db1, Ok run) ∧
  CreatePendingRun sample_clock sample_other db1 = (db1, Err ErrRunIdempotencyReuse).
Proof.
  destruct sample_pending_answers as [run Ha]. destruct (CreatePendingRun sample_clock sample_pending sample_store) as [db1 r] eqn:H.
  cbn [snd] in Ha. subst r. exists db1, run. split; [reflexivity|].
  exact (creation_idempotent sample_clock sample_router sample_nid id range_id sample_no_source sample_access rq_Input
    sample_pending sample_other sample_store db1 run [] eq_refl H eq_refl).
Defined.
