(* ===== verification/RecoveryProps.v ===== *)
(** * Recovery: theorems

    The scans and the emission agree, no unfinished run is left to nobody, a
    wake-up is emitted once per cooldown and only while it is true, the reaper
    ends every lease it finds lapsed, and an emitted completion that the engine
    consumes is not found again. *)

From S2P Require Import Prelude Json Graph Dsl Branch Runtime Engine.
From S2P Require Import EngineSteps EngineInv EngineFacts EngineInit EngineProgress EngineLive BranchRoutes RunSafety EngineVersions EngineState EngineProps.
From S2P Require Import Scheduling Eventing Consumer Store RunControl AttemptStore SchedulingStore Recovery.
From S2P Require Import StoreFacts StoreRefine AttemptRefine InitRefine StoreSound StoreHistory RecoveryFacts RecoveryCover StoreProps.

Open Scope string_scope.
Open Scope list_scope.
Open Scope Z_scope.

(** ** Scans *)

(** The scans never fail, and they agree with the emission: what a scan may
    list, before its limit, is exactly what an emission at the same moment
    finds actionable, for every type of wake-up, whatever calls the store has
    seen. *)
Theorem scans_list_actionable (clock : nat → Time) (router : Coordinate → option string) (nid : string → string → string)
    (jsonb : string → string) (order : range_order) (ValidateSource : string → option (string * string))
    (access : string → string → string → res unit) (digest : RunRequest → string)
    (calls : list StoreCall) (db0 : DB) (batch : Z) :
  db_runs db0 = ∅ → db_nodes db0 = ∅ → db_attempts db0 = ∅ → db_outputs db0 = ∅ →
  (∀ k snapshot, db_snapshots db0 !! k = Some snapshot → policies_ok (sn_DSL snapshot)) → 0 ≤ batch →
  let db := store_calls clock router nid jsonb order ValidateSource access digest calls db0 in
  let now := clock (db_ticks db) in
  (ListReconciliationWakeups batch db).2 = Ok (take (Z.to_nat batch) (reconciliation_wakeups db)) ∧
  (ListRetryDue clock batch db).2 = Ok (take (Z.to_nat batch) (retry_wakeups db now)) ∧
  (ListDeadlinesDue clock batch db).2 = Ok (take (Z.to_nat batch) (deadline_wakeups db now)) ∧
  ∀ w, w ∈ due_wakeups db now (wu_EventType w) ↔
    Wakeup_Validate w = Ok tt ∧ traced db w ∧ (wakeupStillActionable clock w db).2 = Ok true.
Proof.
  intros Hr Hn Ha Ho Hp Hb db now. assert (sound nid order ValidateSource db) as Hs by by apply store_calls_keep_sound, sound_empty.
  assert (∀ {A} (l : list A), LIMIT batch l = Ok (take (Z.to_nat batch) l)) as Hlim.
  { intros A l. unfold LIMIT. destruct (batch <? 0) eqn:H; bool_prop; [lia|done]. }
  split_and!.
  - unfold ListReconciliationWakeups. rewrite (tx_step tx_get _ _ _ _ eq_refl), Hlim. cbn. apply scan_valid.
    intros w Hw%elem_of_take_limit. by apply (reconciliation_valid nid order ValidateSource db).
  - unfold ListRetryDue. rewrite (tx_step (clock_timestamp clock) _ _ _ _ eq_refl), (tx_step tx_get _ _ _ _ eq_refl), Hlim. cbn.
    apply scan_valid. intros w Hw%elem_of_take_limit. by apply (retry_listed nid order ValidateSource db now w Hs) in Hw as (_ & ? & _).
  - unfold ListDeadlinesDue. rewrite (tx_step (clock_timestamp clock) _ _ _ _ eq_refl), (tx_step tx_get _ _ _ _ eq_refl), Hlim. cbn.
    apply scan_valid. intros w Hw%elem_of_take_limit. apply elem_of_deadlines in Hw as (r & run & Hrow & _ & ->).
    by apply (run_wakeup_valid nid order ValidateSource db).
  - intros w. rewrite (listed_actionable nid order ValidateSource db now w Hs). split; intros (Hv & Htr & Hact); (split_and!; [done|done|]);
      destruct (still_actionable clock w db Hv) as [ticks H]; fold now in H.
    + rewrite H. cbn. by rewrite Hact.
    + rewrite H in Hact. by injection Hact.
Qed.

Lemma scans_list_actionable_witness :
  let db := sample_calls sample_steps sample_store in
  (ListReconciliationWakeups 10 db).2 = Ok (take (Z.to_nat 10) (reconciliation_wakeups db)).
Proof.
  intros db. assert (0 ≤ 10) as Hb by lia.
  destruct (scans_list_actionable sample_clock sample_router sample_nid id range_id sample_no_source sample_access rq_Input
    sample_steps sample_store 10 eq_refl eq_refl eq_refl eq_refl sample_snapshots Hb) as [H _]. exact H.
Defined.

(** After the completion, and before its event is consumed, the reconciler finds it. *)
Example sample_completion_found : reconciliation_wakeups sample_completed_store =
  [MkWakeup "project" "run" "a1" EvAttemptCompleted "trace"].
Proof. vm_compute. reflexivity. Qed.

(** C39: no unfinished run is left to nobody.  After any calls, when the stored
    definitions are as the compiler makes them, a run row that is not terminal,
    at any moment [now]: has a place among the rows of a recovery query, and the
    query, given a limit that reaches that place, answers with it, a wake-up
    whose emission then passes its check or an attempt for the reaper; or has a
    ready node with a place among its project's, which the scheduler's query
    takes, and every snapshot it is loaded into offers, when the window reaches
    it; or has a node that waits for a retry time, or an attempt whose lease
    with a worker has not ended, at [now]; or has a queued attempt whose task is
    in the task outbox. *)
Theorem recovery_covers_runs (clock : nat → Time) (router : Coordinate → option string) (nid : string → string → string)
    (jsonb : string → string) (order : range_order) (ValidateSource : string → option (string * string))
    (access : string → string → string → res unit) (digest : RunRequest → string)
    (calls : list StoreCall) (db0 : DB) (now grace : Time) (p r : string) (run : WorkflowRunRecord) :
  db_runs db0 = ∅ → db_nodes db0 = ∅ → db_attempts db0 = ∅ → db_outputs db0 = ∅ →
  (∀ k snapshot, db_snapshots db0 !! k = Some snapshot → policies_ok (sn_DSL snapshot) ∧
     ∀ doc, cloneDocument (sn_DSL snapshot) = Ok doc → upstream_bindings doc) →
  let db := store_calls clock router nid jsonb order ValidateSource access digest calls db0 in
  run_row db p r = Some run → RunState_Terminal (rr_State run) = false → attended router db now grace p r.
Proof.
  intros Hr Hn Ha Ho Hp db Hrun Ht.
  assert (sound nid order ValidateSource db) as Hs.
  { apply store_calls_keep_sound, sound_empty; try done. intros k s Hk. by apply (Hp k). }
  assert (owned db) as Howned.
  { apply (hi_owned _ _ (history_calls clock router nid jsonb order ValidateSource access digest calls db0)). intros aid row. by rewrite Ha. }
  assert (tasked db) as Htasked.
  { apply (calls_keep clock router nid jsonb keeps_tasked order ValidateSource access digest calls db0). intros aid row. by rewrite Ha. }
  assert (db_snapshots db = db_snapshots db0) as Hsnap.
  { apply (calls_keep clock router nid jsonb same_snapshots order ValidateSource access digest calls db0). }
  destruct (sound_cases nid order ValidateSource db p r Hs (mk_is_Some _ _ Hrun)) as [[row Hun]|(command & snapshot & e & He)].
  - assert (row = run) as -> by (pose proof (un_row _ _ _ _ Hun); congruence).
    destruct (un_state _ _ _ _ Hun) as [?|?]; [by eapply attended_pending|congruence].
  - pose proof (builtin_engine_contract ValidateSource) as HC.
    pose proof (ae_reachable _ _ _ _ _ _ _ _ _ He) as Hre. pose proof (ae_policies _ _ _ _ _ _ _ _ _ He) as Hpol.
    destruct (reachable_rest order _ command snapshot BuiltinV1Compatibility e Hpol Hre) as (Hi & Hctl & Hrest).
    pose proof (ae_snapshot _ _ _ _ _ _ _ _ _ He) as Hsn. rewrite Hsnap in Hsn.
    pose proof (proj2 (Hp _ _ Hsn) (en_doc e)) as Hup. specialize (Hup ltac:(by eapply reachable_doc)).
    assert (named_routes (en_doc e)) as Hnamed.
    { apply (doc_named_routes (BuiltinV1Contract ValidateSource)). apply (sv_doc _ _ _ (ev_static _ _ _ Hi)). }
    eapply attended_engine; try done; [|by eapply reachable_retry].
    by eapply engine_running.
Qed.

Lemma sample_compiled k snapshot : db_snapshots sample_store !! k = Some snapshot → policies_ok (sn_DSL snapshot) ∧
  ∀ doc, cloneDocument (sn_DSL snapshot) = Ok doc → upstream_bindings doc.
Proof.
  intros Hk. split; [by eapply sample_snapshots|]. revert Hk. unfold sample_store. cbn. rewrite lookup_singleton. case_decide; [|done].
  intros [= <-] doc Hd. change (cloneDocument sample_document = Ok doc) in Hd.
  assert (cloneDocument sample_document = Ok sample_document) as Hc by (vm_compute; reflexivity). rewrite Hc in Hd. injection Hd as <-.
  apply sample_upstream.
Qed.

Lemma sample_running : ∃ run, run_row (sample_calls sample_steps sample_store) "project" "run" = Some run ∧
  RunState_Terminal (rr_State run) = false.
Proof.
  assert ((λ run, RunState_Terminal (rr_State run)) <$> run_row (sample_calls sample_steps sample_store) "project" "run" = Some false) as H
    by (vm_compute; reflexivity).
  destruct (run_row _ _ _) as [run|]; [|done]. exists run. by injection H.
Qed.

Lemma recovery_covers_runs_witness : attended sample_router (sample_calls sample_steps sample_store) 30000 0 "project" "run".
Proof.
  destruct sample_running as (run & Hrun & Ht).
  apply (recovery_covers_runs sample_clock sample_router sample_nid id range_id sample_no_source sample_access rq_Input
    sample_steps sample_store 30000 0 "project" "run" run); [reflexivity..|apply sample_compiled|exact Hrun|exact Ht].
Defined.

(** ** Emissions *)

(** An emission writes a wake-up only while it is true and no sooner than its
    cooldown after the last one, and then exactly this: the wake-up's event in
    the outbox, where it can be claimed at once, and the moment of the
    emission; the run itself and every other table stay as they are.  When it
    answers that nothing was emitted, nothing is written. *)
Theorem wakeup_emission (clock : nat → Time) (emission : WakeupEmission) (db db' : DB) (emitted : bool) :
  EmitWakeup clock emission db = (db', Ok emitted) →
  let key := wakeup_key (we_Wakeup emission) in
  if emitted then
    (wakeupStillActionable clock (we_Wakeup emission) db).2 = Ok true ∧
    (∃ at_ later ticks, 
       (∀ row, db_wakeups db !! key = Some row → wk_LastEmittedAt row + milliseconds (we_Cooldown emission) ≤ at_) ∧
       db' = db <| db_ticks := ticks |>
                <| db_wakeups := <[key := MkWakeupRow (we_EventID emission) at_
                                     (1 + default 0 (wk_EmitCount <$> db_wakeups db !! key))]> (db_wakeups db) |>
                <| db_outbox := <[we_EventID emission := new_row later (wakeup_event emission)]> (db_outbox db) |>) ∧
    db_outbox db !! we_EventID emission = None ∧ RuntimeEvent_Validate (wakeup_event emission) = Ok tt
  else db' = db <| db_ticks := db_ticks db' |>.
Proof.
  intros H key. unfold EmitWakeup in H. apply tx_bind_Ok in H as (w & [] & [-> Hc]%lift_Ok & H). rewrite transaction_Ok in H.
  assert (Wakeup_Validate (we_Wakeup emission) = Ok tt) as Hv.
  { unfold emission_checks in Hc. by destruct (Wakeup_Validate _) as [[]|]. }
  destruct (still_actionable clock (we_Wakeup emission) db Hv) as [ticks Hact]. rewrite (tx_step _ _ _ _ _ Hact) in H.
  set (db1 := db <| db_ticks := ticks |>) in H.
  destruct (actionable db _ _) eqn:Hok; cbn [negb] in H; [|by injection H as <- <-].
  destruct (upsert_outcome clock emission db1) as (written & Hup & Hcool). rewrite (tx_step _ _ _ _ _ Hup) in H.
  destruct written; cbn [negb] in H; [|by injection H as <- <-].
  apply tx_bind_Ok in H as (w & [] & (Hval & Hfree & ->)%insertOutbox_Ok & H). injection H as <- <-. split_and!; [by rewrite Hact| |done|done].
  eexists _, _, _. split; [exact (proj1 Hcool eq_refl)|]. reflexivity.
Qed.

Definition sample_wakeup : Wakeup := MkWakeup "project" "run" "a1" EvAttemptCompleted "trace".
Definition sample_emission (event : string) : WakeupEmission :=
  MkWakeupEmission sample_wakeup event "audit" "trace" "runtime-reconciler" "system" 40000 60000000000 false.

Lemma sample_emission_answers : (EmitWakeup sample_clock (sample_emission "ev7") sample_completed_store).2 = Ok true.
Proof. vm_compute. reflexivity. Qed.

Lemma wakeup_emission_witness : ∃ db', EmitWakeup sample_clock (sample_emission "ev7") sample_completed_store = (db', Ok true) ∧
  db_outbox sample_completed_store !! "ev7" = None.
Proof.
  pose proof sample_emission_answers as Ha. destruct (EmitWakeup _ _ sample_completed_store) as [db' r] eqn:H. cbn [snd] in Ha. subst r.
  exists db'. split; [reflexivity|]. by destruct (wakeup_emission sample_clock (sample_emission "ev7") sample_completed_store db' true H) as (_ & _ & ? & _).
Defined.

(** Replicas that race emit a wake-up once per cooldown: between an emission
    and a later one of the same wake-up, whatever was called and emitted in
    between and whoever emits, the database's clock went on by at least the
    later emission's cooldown, and the count went up. *)
Theorem wakeup_cooldown (clock : nat → Time) (router : Coordinate → option string) (nid : string → string → string)
    (jsonb : string → string) (order : range_order) (ValidateSource : string → option (string * string))
    (access : string → string → string → res unit) (digest : RunRequest → string) (calls : list StoreCall)
    (first second : WakeupEmission) (db db1 db3 : DB) :
  wakeup_key (we_Wakeup first) = wakeup_key (we_Wakeup second) →
  EmitWakeup clock first db = (db1, Ok true) →
  EmitWakeup clock second (store_calls clock router nid jsonb order ValidateSource access digest calls db1) = (db3, Ok true) →
  ∃ row1 row3, db_wakeups db1 !! wakeup_key (we_Wakeup first) = Some row1 ∧ wk_LastEventID row1 = we_EventID first ∧
    db_wakeups db3 !! wakeup_key (we_Wakeup first) = Some row3 ∧ wk_LastEventID row3 = we_EventID second ∧
    wk_LastEmittedAt row1 + milliseconds (we_Cooldown second) ≤ wk_LastEmittedAt row3 ∧ wk_EmitCount row1 < wk_EmitCount row3.
Proof.
  intros Hkey H1 H2. destruct (emission_row _ _ _ _ H1) as (row1 & Hr1 & He1 & _).
  pose proof (calls_keep clock router nid jsonb wakeups_advance order ValidateSource access digest calls db1) as Hadv.
  destruct (Hadv _ _ Hr1) as (row2 & Hr2 & Hlast & Hcount). rewrite Hkey in Hr2.
  destruct (emission_row _ _ _ _ H2) as (row3 & Hr3 & He3 & Hcool). destruct (Hcool row2 Hr2) as [? ?].
  exists row1, row3. rewrite <-Hkey in Hr3. split_and!; [done|done|done|done|lia|lia].
Qed.

Definition sample_replay : WakeupEmission :=
  MkWakeupEmission sample_wakeup "ev8" "audit" "trace" "operator" "principal" 50000 0 true.

Lemma sample_replay_answers :
  (EmitWakeup sample_clock sample_replay (sample_calls [CallHeartbeat 45000 (MkHeartbeatCommand "project" "run" "a1" "lease" 1 1 1000000)]
     (EmitWakeup sample_clock (sample_emission "ev7") sample_completed_store).1)).2 = Ok true.
Proof. vm_compute. reflexivity. Qed.

Lemma wakeup_cooldown_witness : ∃ db1 db3 row1 row3, EmitWakeup sample_clock (sample_emission "ev7") sample_completed_store = (db1, Ok true) ∧
  db_wakeups db1 !! wakeup_key sample_wakeup = Some row1 ∧ db_wakeups db3 !! wakeup_key sample_wakeup = Some row3 ∧
  wk_EmitCount row1 < wk_EmitCount row3.
Proof.
  pose proof sample_emission_answers as Ha. pose proof sample_replay_answers as Hb.
  destruct (EmitWakeup sample_clock (sample_emission "ev7") sample_completed_store) as [db1 r] eqn:H1. cbn [fst snd] in Ha, Hb. subst r.
  destruct (EmitWakeup sample_clock sample_replay _) as [db3 r] eqn:H3. cbn [snd] in Hb. subst r.
  destruct (wakeup_cooldown sample_clock sample_router sample_nid id range_id sample_no_source sample_access rq_Input _
    (sample_emission "ev7") sample_replay sample_completed_store db1 db3 eq_refl H1 H3) as (row1 & row3 & Hr1 & _ & Hr3 & _ & _ & Hc).
  exists db1, db3, row1, row3. split; [reflexivity|]. split; [exact Hr1|]. split; [exact Hr3|exact Hc].
Defined.

(** ** The reaper *)

Section Reaping.
Context (clock : nat → Time) (router : Coordinate → option string) (nid : string → string → string)
    (jsonb : string → string) (order : range_order) (ValidateSource : string → option (string * string))
    (access : string → string → string → res unit) (digest : RunRequest → string).
Context (ids : nat → res string) (now : nat → Time) (rivals : nat → list StoreCall).
Context (Hids : ∀ i x, ids i = Err x → reaper_tolerates x = false).
Local Notation calls := (store_calls clock router nid jsonb order ValidateSource access digest).
Local Notation sound := (sound nid order ValidateSource).

(** Other processes between two commands of the scan. *)
Definition rival (i : nat) (db : DB) : DB := calls (rivals i) db.
#[local] Instance scanning : Repository DB := store_repository clock jsonb.

Definition pending_end (t : Time) (db : DB) (c : MarkLostCommand) : Prop :=
  command_of db c ∧ lapsed clock t (ml_AttemptID c) db.

(** What calls keep. *)
Lemma pending_kept t db db' c : history db db' → stays_lapsed clock t (ml_AttemptID c) db db' → pending_end t db c → pending_end t db' c.
Proof using. intros Hh [_ Hl] [Hc Hx]. split; [by eapply command_kept|by apply Hl]. Qed.

Lemma mark_keeps (R : DB → DB → Prop) {HR : CallRelation clock jsonb R} id at_ c db : R db (Coordinator_MarkExpiredLost id at_ c db).1.
Proof using.
  unfold Coordinator_MarkExpiredLost. assert (PreOrder R) by apply HR.
  do 2 (apply checked; [done|intros ? _]). by apply (calls_lost clock jsonb R).
Qed.

Lemma mark_sound id at_ c db : sound db → sound (Coordinator_MarkExpiredLost id at_ c db).1.
Proof using access clock digest jsonb nid order router.
  intros Hs. rewrite <-no_answer_fst.
  exact (store_call_sound clock router nid jsonb order ValidateSource access digest (CallMarkExpiredLost id at_ c) db Hs).
Qed.

Lemma mark_all_ends reaper t found : ∀ n db db', sound db → (∀ c, c ∈ found → pending_end t db c) →
  mark_all ids now rival reaper n found db = (db', Ok tt) →
  history db db' ∧ ∀ c, c ∈ found → ended db' (ml_ProjectID c) (ml_RunID c) (ml_AttemptID c).
Proof using Hids.
  induction found as [|c found IH]; intros n db db' Hs Hpend H.
  { cbn in H. injection H as <-. split; [done|]. by intros c ?%not_elem_of_nil. }
  cbn [mark_all] in H. rewrite (tx_step (tx_modify _) _ _ _ _ eq_refl) in H. set (db1 := rival n db) in H.
  assert (history db db1) as H01 by apply history_calls.
  assert (sound db1) as Hs1 by by apply store_calls_keep_sound.
  assert (∀ c', c' ∈ c :: found → pending_end t db1 c') as Hpend1.
  { intros c' Hc'. eapply pending_kept; [done| |by apply Hpend].
    apply (calls_keep clock router nid jsonb (stays_lapsed clock t (ml_AttemptID c'))). }
  set (c1 := with_trace reaper c) in H.
  assert (ml_ProjectID c1 = ml_ProjectID c ∧ ml_RunID c1 = ml_RunID c ∧ ml_AttemptID c1 = ml_AttemptID c ∧
    ml_AttemptSequence c1 = ml_AttemptSequence c) as (Ep & Er & Ea & Eq) by (unfold c1, with_trace; by case_match).
  pose proof (mark_keeps history (ids n) (now n) c1 db1) as H12. pose proof (mark_sound (ids n) (now n) c1 db1 Hs1) as Hs2.
  assert (∀ a, stays_lapsed clock t a db1 (Coordinator_MarkExpiredLost (ids n) (now n) c1 db1).1) as Hl12 by (intros; apply mark_keeps, _).
  unfold tx_try, mbind at 1, tx_bind at 1 in H. destruct (Coordinator_MarkExpiredLost (ids n) (now n) c1 db1) as [db2 r] eqn:Hm. cbn [fst] in *.
  assert (match r with Ok _ => True | Err y => reaper_tolerates y = true end ∧ mark_all ids now rival reaper (S n) found db2 = (db', Ok tt)) as [Hr Hrest].
  { destruct r as [b|y]; [done|]. by destruct (reaper_tolerates y). }
  assert (pending_end t db1 c1) as [Hcmd Hlap].
  { destruct (Hpend1 c) as [(row & ? & ?) ?]; [by left|]. unfold pending_end, command_of. rewrite Ep, Er, Ea, Eq. by split; [exists row|]. }
  pose proof (mark_one nid order ValidateSource clock jsonb (ids n) (now n) c1 db1 db2 r t Hs1 (Hids n) Hcmd Hlap Hm Hr) as Hend.
  rewrite Ep, Er, Ea in Hend.
  destruct (IH (S n) db2 db' Hs2) as [Hh Hall]; [|done|].
  { intros c' Hc'. eapply pending_kept; [done|done|]. apply Hpend1. by right. }
  split; [by etrans; [exact H01|etrans; [exact H12|]]|]. intros c' [->|Hc']%elem_of_cons; [by eapply ended_kept|by apply Hall].
Qed.
End Reaping.

(** C40: a reaper's scan that succeeds has ended every attempt that it listed:
    each has a result, the loss or one that was there, whatever other processes
    did between its commands, heartbeats and completions included.  The clock of
    the database does not go backwards, and the grace is at least a
    millisecond. *)
Theorem reaper_ends_lapsed (clock : nat → Time) (router : Coordinate → option string) (nid : string → string → string)
    (jsonb : string → string) (order : range_order) (ValidateSource : string → option (string * string))
    (access : string → string → string → res unit) (digest : RunRequest → string) (calls : list StoreCall) (db0 db' : DB)
    (ids : nat → res string) (now : nat → Time) (rivals : nat → list StoreCall) (reaper : Reaper) :
  db_runs db0 = ∅ → db_nodes db0 = ∅ → db_attempts db0 = ∅ → db_outputs db0 = ∅ →
  (∀ k snapshot, db_snapshots db0 !! k = Some snapshot → policies_ok (sn_DSL snapshot)) →
  (∀ m n, (m ≤ n)%nat → clock m ≤ clock n) → 0 < milliseconds (re_grace reaper) →
  (∀ i x, ids i = Err x → reaper_tolerates x = false) →
  let db := store_calls clock router nid jsonb order ValidateSource access digest calls db0 in
  Reaper_ScanOnce (wakeups := store_wakeups clock) (attempts := store_repository clock jsonb) ids now
    (rival clock router nid jsonb order ValidateSource access digest rivals) reaper db = (db', Ok tt) →
  ∀ c, c ∈ take (Z.to_nat (re_batch reaper)) (expired_attempts db (clock (db_ticks db)) (re_grace reaper)) →
    ended db' (ml_ProjectID c) (ml_RunID c) (ml_AttemptID c).
Proof.
  intros Hr Hn Ha Ho Hp Hclock Hgrace Hids db H c Hc. assert (sound nid order ValidateSource db) as Hs by by apply store_calls_keep_sound, sound_empty.
  unfold Reaper_ScanOnce in H. apply tx_bind_Ok in H as (db1 & found & Hlist & H). cbn in Hlist. unfold ListExpiredAttempts in Hlist.
  rewrite (tx_step (clock_timestamp clock) _ _ _ _ eq_refl), (tx_step tx_get _ _ _ _ eq_refl) in Hlist. apply lift_Ok in Hlist as [-> Hlim].
  set (db1 := db <| db_ticks := S (db_ticks db) |>) in *. set (t := clock (db_ticks db)) in *.
  assert (found = take (Z.to_nat (re_batch reaper)) (expired_attempts db t (re_grace reaper))) as ->.
  { unfold LIMIT in Hlim. case_match; [done|]. by injection Hlim as <-. }
  eapply (mark_all_ends clock router nid jsonb order ValidateSource access digest ids now rivals Hids reaper t) in H; [by apply H| |].
  { by eapply sound_same; [|exact Hs]. }
  intros c' Hc'%elem_of_take_limit. apply elem_of_expired in Hc' as (aid & row & node & run & x & Hat & _ & _ & Hx & Hrun & _ & Hle & ->). split.
  - exists row. split; [|done]. apply attempt_row_Some. split; [done|]. by apply attempt_in_run.
  - split; [intros n Hn'; apply Hclock; cbn in Hn'; lia|]. exists row. split; [done|]. right. split; [done|]. exists x. split; [done|lia].
Qed.

(** A clock that jumps past the lease after the claim. *)
Definition late_clock (n : nat) : Time := if (n <? 7)%nat then sample_clock n else 10 ^ 12 + Z.of_nat n.

Lemma late_clock_forward m n : (m ≤ n)%nat → late_clock m ≤ late_clock n.
Proof. intros H. unfold late_clock, sample_clock. destruct (m <? 7)%nat eqn:Hm, (n <? 7)%nat eqn:Hn; bool_prop; try lia.
  - apply Nat.ltb_lt in Hm. lia.
  - apply Nat.ltb_ge in Hm. apply Nat.ltb_lt in Hn. lia.
Qed.

Notation late_calls := (store_calls late_clock sample_router sample_nid id range_id sample_no_source sample_access rq_Input).
Definition sample_reaper : Reaper := MkReaper 5000000000 1000000000 10 "reaper-trace".
Definition sample_ids (n : nat) : res string := Ok ("lost" +:+ pretty n).
Notation sample_reap := (Reaper_ScanOnce (wakeups := store_wakeups late_clock) (attempts := store_repository late_clock id) sample_ids
  (λ n, 10 ^ 12) (rival late_clock sample_router sample_nid id range_id sample_no_source sample_access rq_Input (λ _, [])) sample_reaper).

Lemma sample_reap_answers : (sample_reap (late_calls sample_steps sample_store)).2 = Ok tt.
Proof. vm_compute. reflexivity. Qed.

Lemma sample_lapsed : take (Z.to_nat (re_batch sample_reaper))
  (expired_attempts (late_calls sample_steps sample_store) (late_clock (db_ticks (late_calls sample_steps sample_store))) (re_grace sample_reaper)) =
  [MkMarkLostCommand "project" "run" "a1" 1 "trace"].
Proof. vm_compute. reflexivity. Qed.

Lemma reaper_ends_lapsed_witness : ∃ db', sample_reap (late_calls sample_steps sample_store) = (db', Ok tt) ∧ ended db' "project" "run" "a1".
Proof.
  pose proof sample_reap_answers as Ha. destruct (sample_reap _) as [db' r] eqn:H. cbn [snd] in Ha. subst r. exists db'. split; [reflexivity|].
  refine (reaper_ends_lapsed late_clock sample_router sample_nid id range_id sample_no_source sample_access rq_Input sample_steps
    sample_store db' sample_ids (λ n, 10 ^ 12) (λ _, []) sample_reaper eq_refl eq_refl eq_refl eq_refl sample_snapshots late_clock_forward _ _ H
    (MkMarkLostCommand "project" "run" "a1" 1 "trace") _).
  - reflexivity.
  - discriminate.
  - rewrite sample_lapsed. by left.
Defined.
